(* ===== verification/_CoqProject ===== *)
-Q . S2P
Prelude.v
Dstr.v
Fmt.v
Cvt.v
Msg.v
MaildirLog.v
MaildirName.v
Link.v
Hashmap.v
LogFile.v
LogDurable.v
Heap.v
Atree.v
KvpPkts.v
KvpRecv.v
KvpSend.v
DnsParse.v
DnsServe.v
ImapTypes.v
ImapWrite.v
ImapChunks.v
OrdTree.v
SeqSet.v
ImapSearch.v
Dn.v
DnSync.v
DnCommands.v
DnSession.v
Imaildir.v
Mailbox.v
MailboxOps.v
MailboxRun.v
