(* ===== verification/Prelude.v ===== *)
(** * The Splintermail client and its servers: a verification development

    The repository holds an encrypting IMAP proxy (citm: a server half towards the mail
    client, a client half towards the mail provider, and a local copy of every mailbox in
    between, libimaildir), the servers behind it (a DNS server that answers ACME challenges
    with values it is sent by a key-value synchronisation protocol) and the libraries they
    share: libdstr (strings, containers, formatting, numbers) and libimap (the types,
    writers and parsers of the protocol). This library models the parts whose behaviour is
    decided by their own code, as executable functions, and proves what makes them correct.
    Names are those of the source; a record field has the prefix of its struct.

    ** Conventions

    Integers are [Z], with the wrap-around of their C type written out by [u8], [u16], [u32],
    [u64] wherever the code computes with them; size_t is 64 bits. Buffers are lists of
    bytes. A derr_t function is a [res]: [Ok] for E_OK, [Err] for an error code, and [Stop]
    for what is not an error return (an abort, an access outside an object, fuel that ran
    out); safety theorems are the absence of [Stop]. Out parameters that survive an error and
    mutated structs are the state of [stm]. [Alloc] is an oracle for malloc; components
    that do not use it are modelled with allocations that succeed, as they say.

    ** Files, from the bottom up

    - Prelude: results, state, machine integers, list access, tactics and hints.
    - Dstr (libdstr/common.c): [dstr] buffers, fixed or growable; append, compare, search,
      split, recode.
    - Fmt (libdstr/fmt.c): the format engine over an abstract writer, and its dstr writer.
    - Cvt (libdstr/cvt.c): texts to integers.
    - Link (libdstr/link.c): intrusive circular lists in a memory of nodes.
    - Hashmap, Heap, Atree (libdstr/hashmap.c, heap.c, jsw_atree.c): the containers, the
      first with its growth and traversal, the second over a memory of nodes, the third
      with its ancestor stack, cursors and removal while traversing.
    - Msg, MaildirLog, MaildirName (libimaildir/msg.c, log.c, name.c): the records of
      messages, their form in the log, the names of their files.
    - LogFile, LogDurable (libimaildir/log_file.c): the log file of a mailbox over a file
      system that may fail at any operation: opening, writing, compaction (through Hashmap);
      then what survives any history of them.
    - KvpPkts, KvpRecv, KvpSend (server/libkvpsync): the packets, the receiver over a heap
      of data with freed addresses, the sender with its reference-counted packets.
    - DnsParse, DnsServe (server/dns): packet parsing, the answers, the rate limit, the
      packet buffers and the server that runs them together with the receivers of KvpRecv.
    - ImapTypes, ImapWrite, ImapChunks (libimap/expression.h, extension.c, write.c): the
      commands and responses, their writers as they skip and fill, and the proof that the
      chunks make up one text.
    - OrdTree: the class [OrdTree] of trees of structs with an unsigned key, with its laws
      [OrdTreeLaws], and the instance [otree] by the trees of Atree. The callers below are
      written and proved against the class.
    - SeqSet (libimap/expression.c, libimaildir/util.c): traversal of sequence sets, and the
      builder of dense ones.
    - ImapSearch (libimaildir/search.c): the evaluation of SEARCH keys.
    - Dn (libimaildir/dn.c): the session of one mail client on one mailbox: every command, the
      updates of the mailbox and how they are gathered and reported. The mailbox and the
      message parser are behind the classes [Imaildir] and [Imf].
    - DnSync, DnCommands, DnSession: the session against its specification, a client that
      believes the responses: gathering and reporting, the invariant that every command keeps
      for each mailbox with the laws [ImaildirLaws], and the runs of a session.
    - Imaildir (libimaildir/imaildir.c, the FETCH responses of up.c): the mailbox: its trees,
      what the provider and the sessions ask of it, what the sessions are told, and opening
      it from the log and the files.
    - Mailbox, MailboxOps, MailboxRun: the invariant that ties the mailbox to the entries of
      its log and to its sessions, that every operation keeps it, and the runs of a mailbox
      with failures and restarts.

    ** How the parts interact

    The format engine writes through Dstr, the log and the names through both, and their
    round trips go through Cvt; LogDurable composes them with the compaction, so that what the
    mailbox wrote is what the next process reads. Imaildir writes through LogFile, and its
    theorems rest on those of LogDurable. What it tells its sessions is described by the
    updates of DnSync, the same that the sessions are proved to report. The DNS server looks names up in the receivers: [server_correct]
    runs queries and sync packets interleaved, [sync_delivers] composes sender, network and
    receiver. A session keeps its view in a tree (OrdTree over Atree), turns sets of
    numbers into canonical sets of uids (SeqSet), evaluates searches (ImapSearch) and checks
    every response with the writers (ImapWrite); what it says about any mailbox holds for
    each mailbox that keeps the promises of [ImaildirLaws].

    ** What the theorems show

    - Round trips: log keys and values, file names, sync packets, DNS responses, decimal
      numbers, splitting and joining.
    - Refinement: lists, hash map, heap and trees against sequences, finite maps, bags and
      sorted sequences, links and ancestor stacks included; sender and receiver of a sync
      against the map of the sender; a session against the mailbox.
    - Safety and bounds: no packet makes the parsers leave the buffer or loop; no sequence of
      deliveries makes the sync receiver or the sender touch freed data; formatting never
      overruns; a written command is one line to its receiver; no crash, torn write or
      compaction loses an acknowledged entry of a mailbox log ([log_durable]); a mailbox
      never uses a message that was freed ([mailbox_safe]), and a uid stands for one message
      for ever ([mailbox_uids]).
    - Persistence: a mailbox that is opened again is the mailbox it was ([mailbox_reopens]).
    - Equivalence: all ways to write a command or response agree, whatever the buffers.
    - Functional behaviour: number conversion, DNS answers, SEARCH, sequence set building.
    - Liveness: a session that is asked for updates reports all of them.
    - Invariants: a session and its client agree through any commands and updates; the
      updates of a session lead to what the mailbox has ([mailbox_updates]).
    - Limits: for most components one theorem that computes the inputs on which the
      code does not do what it means to; these are the findings.

    ** Fuel and bounds

    Recursion is structural wherever the loop has a list or a counter to go by. Fuel is used
    for the loops over characters that move a cursor ([NAME_FUEL] = 512 for DNS names, which
    have at most 255 bytes and whose pointers only go back), for the doubling of buffers (64
    steps, sizes are below 2^63), for decimal digits (20, the digits of 2^64), for the
    traversal of sequence sets (one step more than the numbers they hold), for the lines of
    a log (one more than its bytes) and for the erasing loops of the builder (one more than
    its size). Every use has a theorem that
    the fuel is enough, or the exhaustion is shown to be a loop of the code (searching an
    empty string, a DNS name that points to itself). The ancestor stack of Atree has the 64
    entries of the code; it does not overflow for trees of fewer than 2^32 - 1 nodes, which
    is the bound [MAX_NODES] of OrdTree. The class [Environment] of Mailbox lets at most the
    first 2^32 - 4 file operations succeed, which keeps every counter of a mailbox from
    wrapping around.

    ** Not modelled

    - The grammars and the code generated from them (libimap/imap.in, imf.in, libweb/web.in)
      and the scanners that drive them: they are input to the generator tools/gen.py.
    - The constructors, copies and destructors of libimap/expression.c: plain allocation.
    - libimap/imf.c beyond the records that SEARCH and FETCH use: it sits on the generated
      parser; it is behind the class [Imf].
    - Of the mailbox: which of several connections to the provider synchronises it, the
      relays that wait for the answers, COPY between mailboxes, and the contents of the
      message files. The runs of MailboxRun leave out a change of the uid validity, which
      wipes the mailbox, and files of messages that the log calls undownloaded, for which
      [recovery_limits] shows a uid given twice. Sessions are proved against
      [ImaildirLaws], not against Imaildir.
    - The rest of libimaildir/up.c, and dirmgr.c: the dialogue with the provider, directories.
    - libduv, libduvtls, libcitm, libhttp, libacme: state machines over libuv, OpenSSL and
      sockets, whose behaviour is that of the callbacks.
    - libcrypto, server/libsmsql, server/pysm, smphp: calls into OpenSSL, MySQL, Python, PHP.
    - libcli, tools, tests, the file, network and system helpers of libdstr. *)

From stdpp Require Export base numbers option list list_numbers gmap strings.
From Stdlib Require Export ZArith Lia.

(** ** Scope and small notations *)

Declare Scope sm_scope.
Delimit Scope sm_scope with sm.

#[global] Open Scope Z_scope.

(** A C buffer's contents: a list of byte values, each in [0, 256). *)
Abbreviation bytes := (list Z).

(** ** Error values

    [etype] is [derr_type_t] without [E_NONE]: [Ok] plays the role of [E_NONE].
    [Stop] is an outcome that is not an error return: an abort through
    LOG_FATAL, an access outside an object, or fuel that ran out. *)

Inductive etype :=
| E_NOMEM | E_VALUE | E_FIXEDSIZE | E_OS | E_PARAM | E_INTERNAL | E_FS
| E_RESPONSE | E_CANCELED | E_BADIDX | E_IMAILDIR.

Inductive stop := Fatal | OutOfBounds | OutOfFuel.

Inductive res (A : Type) :=
| Ok (a : A)
| Err (e : etype)
| Stop (s : stop).
Arguments Ok {A} a.
Arguments Err {A} e.
Arguments Stop {A} s.

#[export] Instance etype_eq_dec : EqDecision etype.
Proof. solve_decision. Defined.
#[export] Instance stop_eq_dec : EqDecision stop.
Proof. solve_decision. Defined.
#[export] Instance res_eq_dec {A} `{EqDecision A} : EqDecision (res A).
Proof. solve_decision. Defined.

Definition res_bind {A B} (m : res A) (k : A -> res B) : res B :=
  match m with
  | Ok a => k a
  | Err e => Err e
  | Stop s => Stop s
  end.

#[export] Instance res_mret : MRet res := fun A a => Ok a.
#[export] Instance res_mbind : MBind res := fun A B k m => res_bind m k.

(** PROP(&e, m): evaluate [m], propagate its error, otherwise go on. *)
Notation "'let!' x := m 'in' k" := (res_bind m (fun x => k))
  (at level 10, x pattern, m at level 100, k at level 200) : sm_scope.
#[global] Open Scope sm_scope.

(** A state that survives an error return, as an out-parameter does in C. *)
Definition stm (S A : Type) : Type := S -> res A * S.

Definition st_ret {S A} (a : A) : stm S A := fun s => (Ok a, s).
Definition st_fail {S A} (e : etype) : stm S A := fun s => (Err e, s).
Definition st_lift {S A} (m : res A) : stm S A := fun s => (m, s).
Definition st_bind {S A B} (m : stm S A) (k : A -> stm S B) : stm S B :=
  fun s =>
    match m s with
    | (Ok a, s') => k a s'
    | (Err e, s') => (Err e, s')
    | (Stop x, s') => (Stop x, s')
    end.

Notation "'do!' x := m 'in' k" := (st_bind m (fun x => k))
  (at level 10, x pattern, m at level 100, k at level 200) : sm_scope.

(** ** Machine integers, kept as [Z] with their wrap-around written out *)

Definition UINT8_MAX : Z := 2 ^ 8 - 1.
Definition UINT32_MAX : Z := 2 ^ 32 - 1.
Definition UINT64_MAX : Z := 2 ^ 64 - 1.
Definition INT32_MAX : Z := 2 ^ 31 - 1.
Definition INT64_MAX : Z := 2 ^ 63 - 1.
(** size_t and uintmax_t are 64 bits wide on the supported platforms. *)
Definition SIZE_MAX : Z := UINT64_MAX.

Definition u8 (x : Z) : Z := x mod 2 ^ 8.
Definition u16 (x : Z) : Z := x mod 2 ^ 16.
Definition u32 (x : Z) : Z := x mod 2 ^ 32.
Definition u64 (x : Z) : Z := x mod 2 ^ 64.

(** [char] is signed: the value a byte has when it is read through a [char]. *)
Definition schar (b : Z) : Z := if b <? 128 then b else b - 256.

Definition is_byte (b : Z) : Prop := 0 <= b < 256.
Definition is_bytes (l : bytes) : Prop := Forall is_byte l.
Definition is_u32 (x : Z) : Prop := 0 <= x < 2 ^ 32.
Definition is_u64 (x : Z) : Prop := 0 <= x < 2 ^ 64.

#[export] Instance is_byte_dec b : Decision (is_byte b).
Proof. unfold is_byte. apply _. Defined.
#[export] Instance is_bytes_dec l : Decision (is_bytes l).
Proof. unfold is_bytes. apply _. Defined.
#[export] Instance is_u32_dec x : Decision (is_u32 x).
Proof. unfold is_u32. apply _. Defined.
#[export] Instance is_u64_dec x : Decision (is_u64 x).
Proof. unfold is_u64. apply _. Defined.

(** A string literal of the source as bytes. *)
Definition byte_of_ascii (a : Ascii.ascii) : Z := Z.of_N (Ascii.N_of_ascii a).
Fixpoint lit (s : string) : bytes :=
  match s with
  | EmptyString => []
  | String a r => byte_of_ascii a :: lit r
  end.
(** A character literal: the first byte of a one-character string. *)
Definition chr (s : string) : Z :=
  match lit s with
  | [] => 0
  | b :: _ => b
  end.

#[global] Arguments lit s : simpl never.
#[global] Arguments chr s : simpl never.
#[global] Arguments byte_of_ascii a : simpl never.

(** The length of a buffer as a size_t. *)
Definition zlen {A} (l : list A) : Z := Z.of_nat (length l).

(** Array access with the bounds C does not check. *)
Definition rd {A} (l : list A) (i : Z) : res A :=
  if decide (0 <= i) then
    match l !! Z.to_nat i with
    | Some a => Ok a
    | None => Stop OutOfBounds
    end
  else Stop OutOfBounds.

(** The [n] bytes at offset [i]. *)
Definition slice {A} (l : list A) (i n : Z) : list A :=
  take (Z.to_nat n) (drop (Z.to_nat i) l).

(** ** Tactics *)

Create HintDb sm discriminated.
#[export] Hint Constants Opaque : sm.

(** Split conjunctions in the context. *)
Ltac splits := repeat match goal with |- _ /\ _ => split end.

(** Case analysis on the scrutinee of a [match] or [if] in the goal. *)
Ltac break_goal :=
  match goal with
  | |- context [match ?x with _ => _ end] => destruct x eqn:?
  end.
Ltac break_in H :=
  match type of H with
  | context [match ?x with _ => _ end] => destruct x eqn:?
  end.

(** Turn boolean comparisons in the context into propositions. *)
Ltac bool_to_prop :=
  repeat match goal with
  | H : andb _ _ = true |- _ => apply andb_true_iff in H; destruct H
  | H : orb _ _ = false |- _ => apply orb_false_iff in H; destruct H
  | H : negb _ = true |- _ => apply negb_true_iff in H
  | H : negb _ = false |- _ => apply negb_false_iff in H
  | H : (_ <=? _) = true |- _ => apply Z.leb_le in H
  | H : (_ <=? _) = false |- _ => apply Z.leb_gt in H
  | H : (_ <? _) = true |- _ => apply Z.ltb_lt in H
  | H : (_ <? _) = false |- _ => apply Z.ltb_ge in H
  | H : (_ =? _) = true |- _ => apply Z.eqb_eq in H
  | H : (_ =? _) = false |- _ => apply Z.eqb_neq in H
  end.

(** Replace character literals by their codes. *)
Ltac chr_norm :=
  repeat match goal with
  | |- context [chr ?s] => let v := eval vm_compute in (chr s) in change (chr s) with v in *
  | H : context [chr ?s] |- _ =>
      let v := eval vm_compute in (chr s) in change (chr s) with v in *
  end.

(** Replace string literals by their bytes. *)
Ltac lit_norm :=
  repeat match goal with
  | |- context [lit ?s] => let v := eval vm_compute in (lit s) in change (lit s) with v in *
  | H : context [lit ?s] |- _ =>
      let v := eval vm_compute in (lit s) in change (lit s) with v in *
  end.

(** Concatenations associated to the right. *)
Ltac app_norm := repeat (progress (rewrite <- ?app_assoc, ?app_nil_r; cbn [app])).

(** A chain of [let!] in a hypothesis [m = Ok a]: split off its first step. *)
Ltac res_inv H :=
  match type of H with
  | res_bind ?m _ = Ok _ =>
      let E := fresh "E" in
      destruct m eqn:E; simpl in H; [ | discriminate H | discriminate H ]
  end.

(** ** Results *)

Lemma res_bind_ok {A B} (m : res A) (k : A -> res B) b :
  res_bind m k = Ok b <-> exists a, m = Ok a /\ k a = Ok b.
Proof. destruct m; simpl; naive_solver. Qed.

Lemma res_bind_assoc {A B C} (m : res A) (k : A -> res B) (h : B -> res C) :
  res_bind (res_bind m k) h = res_bind m (fun a => res_bind (k a) h).
Proof. destruct m; reflexivity. Qed.

Lemma res_bind_ret {A} (m : res A) : res_bind m Ok = m.
Proof. destruct m; reflexivity. Qed.

(** A chain of [do!] in a hypothesis: split off its first step, which must succeed. *)
Lemma st_bind_ok {S A B} (m : stm S A) (k : A -> stm S B) s b s' :
  st_bind m k s = (Ok b, s') -> exists a s1, m s = (Ok a, s1) /\ k a s1 = (Ok b, s').
Proof. unfold st_bind. destruct (m s) as [[a| |] s1]; intros H; try done. by exists a, s1. Qed.

Lemma st_lift_ok {S A} (m : res A) (s : S) a s' : st_lift m s = (Ok a, s') -> m = Ok a /\ s' = s.
Proof. unfold st_lift. by intros [= -> ->]. Qed.

Lemma st_run {S A B} (m : stm S A) (k : A -> stm S B) s a s' :
  m s = (Ok a, s') -> st_bind m k s = k a s'.
Proof. unfold st_bind. by intros ->. Qed.

Lemma st_fail_bind {S A B} (m : stm S A) (k : A -> stm S B) s e s' :
  m s = (Err e, s') -> st_bind m k s = (Err e, s').
Proof. unfold st_bind. by intros ->. Qed.

(** Split off the first step of a successful chain. *)
Ltac st_step H :=
  let a := fresh "a" in let s := fresh "s" in let E := fresh "E" in
  apply st_bind_ok in H as (a & s & E & H);
  try (apply st_lift_ok in E as [E ->]).

(** ** Lists, lengths and slices *)

Lemma zlen_nonneg {A} (l : list A) : 0 <= zlen l.
Proof. unfold zlen. lia. Qed.

Lemma zlen_nil {A} : zlen (@nil A) = 0.
Proof. reflexivity. Qed.

Lemma zlen_cons {A} (x : A) l : zlen (x :: l) = 1 + zlen l.
Proof. unfold zlen. simpl length. lia. Qed.

Lemma zlen_app {A} (l k : list A) : zlen (l ++ k) = zlen l + zlen k.
Proof. unfold zlen. rewrite length_app. lia. Qed.

Lemma zlen_take {A} (l : list A) n : zlen (take n l) = Z.min (Z.of_nat n) (zlen l).
Proof. unfold zlen. rewrite length_take. lia. Qed.

Lemma zlen_drop {A} (l : list A) n : zlen (drop n l) = zlen l - Z.min (Z.of_nat n) (zlen l).
Proof. unfold zlen. rewrite length_drop. lia. Qed.

Lemma zlen_slice {A} (l : list A) i n :
  0 <= i -> 0 <= n -> i + n <= zlen l -> zlen (slice l i n) = n.
Proof. intros. unfold slice. rewrite zlen_take, zlen_drop. lia. Qed.

Lemma zlen_0_nil {A} (l : list A) : zlen l = 0 -> l = [].
Proof. destruct l; [done|]. rewrite zlen_cons. pose proof (zlen_nonneg l). lia. Qed.

Create Rewrite HintDb zlen.
#[export] Hint Rewrite @zlen_nil @zlen_cons @zlen_app @zlen_take @zlen_drop : zlen.

Lemma rd_ok {A} (l : list A) i :
  0 <= i < zlen l -> exists a, rd l i = Ok a /\ l !! Z.to_nat i = Some a.
Proof.
  intros Hi. unfold rd, zlen in *.
  destruct (lookup_lt_is_Some_2 l (Z.to_nat i)) as [a Ha]; [lia|].
  exists a. rewrite decide_True by lia. by rewrite Ha.
Qed.

Lemma rd_Ok_inv {A} (l : list A) i a : rd l i = Ok a -> 0 <= i < zlen l.
Proof.
  unfold rd, zlen. case_decide; [|done].
  destruct (l !! Z.to_nat i) eqn:E; [|done].
  apply lookup_lt_Some in E. lia.
Qed.

Lemma rd_app_r {A} (l k : list A) i :
  0 <= i -> rd (l ++ k) (zlen l + i) = rd k i.
Proof.
  intros Hi. unfold rd, zlen. rewrite !decide_True by lia.
  rewrite lookup_app_r by lia. do 2 f_equal.
  replace (Z.to_nat (Z.of_nat (length l) + i) - length l)%nat
    with (Z.to_nat i) by lia. reflexivity.
Qed.

Lemma rd_app_l {A} (l k : list A) i :
  0 <= i < zlen l -> rd (l ++ k) i = rd l i.
Proof.
  intros Hi. unfold rd, zlen in *. rewrite !decide_True by lia.
  by rewrite lookup_app_l by lia.
Qed.

Lemma rd_is_byte l i b : is_bytes l -> rd l i = Ok b -> is_byte b.
Proof.
  intros Hl. unfold rd. case_decide; [|done].
  destruct (l !! Z.to_nat i) eqn:E; [|done]. intros [= <-].
  eapply Forall_lookup_1; eauto.
Qed.

Lemma slice_app_mid {A} (a b c : list A) :
  slice (a ++ b ++ c) (zlen a) (zlen b) = b.
Proof.
  unfold slice, zlen. rewrite !Nat2Z.id, drop_app_length, take_app_length. done.
Qed.

(** ** Bytes and literals *)

Lemma byte_of_ascii_range a : is_byte (byte_of_ascii a).
Proof.
  unfold byte_of_ascii, is_byte.
  pose proof (Ascii.N_ascii_bounded a). lia.
Qed.

Lemma lit_is_bytes s : is_bytes (lit s).
Proof.
  induction s; constructor; [apply byte_of_ascii_range | done].
Qed.

Lemma lit_app s t : lit (s +:+ t) = lit s ++ lit t.
Proof.
  induction s as [|a s IH]; [done|]. change (byte_of_ascii a :: lit (s +:+ t) = byte_of_ascii a :: lit s ++ lit t).
  by rewrite IH.
Qed.

Lemma is_bytes_app l k : is_bytes (l ++ k) <-> is_bytes l /\ is_bytes k.
Proof. apply Forall_app. Qed.

Lemma is_bytes_take n l : is_bytes l -> is_bytes (take n l).
Proof. apply Forall_take. Qed.
Lemma is_bytes_drop n l : is_bytes l -> is_bytes (drop n l).
Proof. apply Forall_drop. Qed.

Lemma u32_small x : is_u32 x -> u32 x = x.
Proof. apply Z.mod_small. Qed.
Lemma u64_small x : is_u64 x -> u64 x = x.
Proof. apply Z.mod_small. Qed.
Lemma u32_range x : is_u32 (u32 x).
Proof. apply Z.mod_pos_bound. lia. Qed.
Lemma u64_range x : is_u64 (u64 x).
Proof. apply Z.mod_pos_bound. lia. Qed.
Lemma u8_range x : is_byte (u8 x).
Proof. unfold is_byte, u8. apply (Z.mod_pos_bound x (2 ^ 8)). lia. Qed.

Lemma schar_inj a b : is_byte a -> is_byte b -> schar a = schar b -> a = b.
Proof.
  unfold is_byte, schar. destruct (Z.ltb_spec a 128), (Z.ltb_spec b 128); lia.
Qed.

#[export] Hint Resolve lit_is_bytes byte_of_ascii_range u32_range u64_range u8_range
  is_bytes_take is_bytes_drop zlen_nonneg : sm.
