(* ===== verification/Dstr.v ===== *)
(** * Dynamic strings (libdstr/common.c)

    The buffer operations of dstr_t (growth by powers of two, appends,
    fixed-size buffers), substring views, comparison, searching, counting and
    splitting. A view that points into another buffer is the list of its bytes
    (or its pair of offsets where the code computes with them). *)

From S2P Require Import Prelude.

(** ** Buffers *)

(** [d_data] is data[0..len), so [len] is its length; [d_size] is the size of
    the allocation. *)
Record dstr := mkD { d_data : bytes; d_size : Z; d_fixed : bool }.

Definition d_len (d : dstr) : Z := zlen (d_data d).
Definition set_data (b : bytes) (d : dstr) : dstr := mkD b (d_size d) (d_fixed d).
Definition set_size (n : Z) (d : dstr) : dstr := mkD (d_data d) n (d_fixed d).

(** What malloc and realloc answer for a size, whether they succeed. *)
Class Alloc := alloc_ok : Z -> bool.
Definition always : Alloc := fun _ => true.

(** [while(newsize < min_size) newsize *= 2;] on a size_t. *)
Fixpoint grow_loop (fuel : nat) (newsize min_size : Z) : res Z :=
  if newsize <? min_size then
    match fuel with
    | O => Stop OutOfFuel
    | S f => grow_loop f (u64 (newsize * 2)) min_size
    end
  else Ok newsize.

(** A doubling sequence of 64-bit sizes that starts at 2 or more passes any
    size up to 2^63 in 64 steps. *)
Definition grow_fuel : nat := 64.

Definition dstr_grow_quiet `{Alloc} (min_size : Z) : stm dstr unit := fun ds =>
  if d_size ds >=? min_size then (Ok tt, ds)
  else if d_fixed ds then (Err E_FIXEDSIZE, ds)
  else
    match grow_loop grow_fuel (Z.max (d_size ds) 2) min_size with
    | Ok newsize =>
        if alloc_ok newsize then (Ok tt, set_size newsize ds)
        else (Err E_NOMEM, ds)
    | Err e => (Err e, ds)
    | Stop s => (Stop s, ds)
    end.

Definition dstr_append_quiet `{Alloc} (new_text : bytes) : stm dstr unit := fun ds =>
  let len := d_len ds in
  let copy : stm dstr unit := fun ds => (Ok tt, set_data (d_data ds ++ new_text) ds) in
  if len + zlen new_text >? d_size ds
  then (do! _ := dstr_grow_quiet (len + zlen new_text) in copy) ds
  else copy ds.

Definition dstr_append_char `{Alloc} (val : Z) : stm dstr unit := fun ds =>
  let put : stm dstr unit := fun ds => (Ok tt, set_data (d_data ds ++ [val]) ds) in
  if d_len ds >=? d_size ds
  then (do! _ := dstr_grow_quiet (d_len ds + 1) in put) ds
  else put ds.

Definition dstr_append_char_n `{Alloc} (val : Z) (n : nat) : stm dstr unit := fun ds =>
  let put : stm dstr unit := fun ds => (Ok tt, set_data (d_data ds ++ replicate n val) ds) in
  if d_len ds + Z.of_nat n >? d_size ds
  then (do! _ := dstr_grow_quiet (d_len ds + Z.of_nat n) in put) ds
  else put ds.

(** The terminating byte is written past [len]: it is not part of the contents. *)
Definition dstr_null_terminate_quiet `{Alloc} : stm dstr unit := fun ds =>
  if d_len ds >=? d_size ds then dstr_grow_quiet (d_len ds + 1) ds
  else (Ok tt, ds).

Definition dstr_copystrn `{Alloc} (inp : bytes) : stm dstr unit := fun ds =>
  if zlen inp =? 0 then (Ok tt, set_data [] ds)
  else (do! _ := dstr_grow_quiet (zlen inp) in
        fun ds => (Ok tt, set_data inp ds)) ds.

Definition dstr_leftshift (count : Z) (ds : dstr) : dstr :=
  if count =? 0 then ds
  else
    let shift := Z.min count (d_len ds) in
    set_data (drop (Z.to_nat shift) (d_data ds)) ds.

(** ** Views *)

Definition dstr_sub (inp : bytes) (start end_ : Z) : bytes :=
  let so := Z.min (zlen inp) start in
  let eo := Z.min (zlen inp) (if end_ =? 0 then zlen inp else end_) in
  let eo := Z.max so eo in
  slice inp so (eo - so).

Definition dstr_sub2 (inp : bytes) (start end_ : Z) : bytes :=
  let so := Z.min (zlen inp) start in
  let eo := Z.min (zlen inp) end_ in
  let eo := Z.max so eo in
  slice inp so (eo - so).

Definition char_in (c : Z) (chars : bytes) : bool := existsb (Z.eqb c) chars.

Fixpoint dstr_lstrip_chars (inp : bytes) (chars : bytes) : bytes :=
  match inp with
  | [] => []
  | c :: rest => if char_in c chars then dstr_lstrip_chars rest chars else inp
  end.

(** [out.len--] while the last byte is one of [chars]. *)
Fixpoint rstrip_loop (len : nat) (inp : bytes) (chars : bytes) : bytes :=
  match len with
  | O => []
  | S n =>
      match inp !! n with
      | Some c => if char_in c chars then rstrip_loop n inp chars else take len inp
      | None => take len inp
      end
  end.
Definition dstr_rstrip_chars (inp : bytes) (chars : bytes) : bytes :=
  rstrip_loop (length inp) inp chars.

Definition dstr_strip_chars (inp : bytes) (chars : bytes) : bytes :=
  dstr_lstrip_chars (dstr_rstrip_chars inp chars) chars.

(** ** Comparison *)

Definition ichar (c : Z) : Z :=
  if (schar (chr "a") <=? c) && (c <=? schar (chr "z")) then c - 32 else c.
Definition noichar (c : Z) : Z := c.

(** The common prefix loop; [inl] is an early return. *)
Fixpoint cmp_loop (char_fn : Z -> Z) (a b : bytes) : Z :=
  match a, b with
  | [], [] => 0
  | x :: _, [] => char_fn (schar x)
  | [], y :: _ => - char_fn (schar y)
  | x :: a', y :: b' =>
      let ca := char_fn (schar x) in
      let cb := char_fn (schar y) in
      if ca =? cb then cmp_loop char_fn a' b' else ca - cb
  end.

(** A dstr_t whose data pointer is NULL is [None]. *)
Definition do_dstr_cmp2 (a b : option bytes) (sensitive : bool) : Z :=
  match a, b with
  | None, None => 0
  | _, _ =>
      if (zlen (default [] a) =? 0) && (zlen (default [] b) =? 0) then 0
      else
        match a, b with
        | Some a, Some b => cmp_loop (if sensitive then noichar else ichar) a b
        | Some (x :: _), None | None, Some (x :: _) => schar x
        | _, _ => 0
        end
  end.

Definition do_dstr_eq (a b : bytes) (sensitive : bool) : bool :=
  (zlen a =? zlen b) && (do_dstr_cmp2 (Some a) (Some b) sensitive =? 0).

Definition dstr_cmp2 (a b : bytes) : Z := do_dstr_cmp2 (Some a) (Some b) true.
Definition dstr_eq (a b : bytes) : bool := do_dstr_eq a b true.
Definition dstr_icmp2 (a b : bytes) : Z := do_dstr_cmp2 (Some a) (Some b) false.
Definition dstr_ieq (a b : bytes) : bool := do_dstr_eq a b false.

Definition dstr_upper (text : bytes) : bytes :=
  map (fun c => if (chr "a" <=? c) && (c <=? chr "z") then c - 32 else c) text.
Definition dstr_lower (text : bytes) : bytes :=
  map (fun c => if (chr "A" <=? c) && (c <=? chr "Z") then c + 32 else c) text.

Definition do_beginswith (str pattern : bytes) (sensitive : bool) : bool :=
  let sub := dstr_sub2 str 0 (zlen pattern) in
  if sensitive then dstr_eq pattern sub else dstr_ieq pattern sub.
Definition do_endswith (str pattern : bytes) (sensitive : bool) : bool :=
  let sub := dstr_sub2 str (zlen str - Z.min (zlen str) (zlen pattern)) (zlen str) in
  if sensitive then dstr_eq pattern sub else dstr_ieq pattern sub.

(** ** Searching *)

(** The comparison of one pattern at one position of [dstr_find]: [text] is the
    text from that position on, [j] the number of bytes already matched. *)
Inductive pat_result := PMatch | PPartial (j : Z) | PNoMatch.

Fixpoint pat_match (text pat : bytes) (j : Z) {struct pat} : pat_result :=
  match pat with
  | [] => PMatch
  | c :: pat' =>
      match text with
      | [] => PPartial j
      | t :: text' => if t =? c then pat_match text' pat' (j + 1) else PNoMatch
      end
  end.

(** The loop over the patterns: the index of the first one that matches, or the
    longest partial match so far. *)
Fixpoint find_pats (text : bytes) (patterns : list bytes) (p : Z) (max_partial : Z)
  : Z + Z :=
  match patterns with
  | [] => inr max_partial
  | pat :: rest =>
      match pat_match text pat 0 with
      | PMatch => inl p
      | PPartial j => find_pats text rest (p + 1) (Z.max max_partial j)
      | PNoMatch => find_pats text rest (p + 1) max_partial
      end
  end.

Fixpoint find_loop (text : bytes) (patterns : list bytes) (i max_partial : Z)
  : option (Z * Z) * Z :=
  match text with
  | [] => (None, max_partial)
  | _ :: text' =>
      match find_pats text patterns 0 max_partial with
      | inl p => (Some (i, p), 0)
      | inr mp => find_loop text' patterns (i + 1) mp
      end
  end.

(** The position and the index of the pattern found there, and the length of the
    longest partial match at the end of the text. *)
Definition dstr_find (text : bytes) (patterns : list bytes) : option (Z * Z) * Z :=
  find_loop text patterns 0 0.

(** The result of a search for one pattern: the offset. *)
Definition find1 (text pat : bytes) : option Z :=
  fst <$> fst (dstr_find text [pat]).

(** ** Counting *)

Definition bytes_match (char_fn : Z -> Z) (text pat : bytes) (i : Z) : bool :=
  forallb (fun '(a, b) => char_fn (schar a) =? char_fn (schar b))
    (combine (slice text i (zlen pat)) pat).

Fixpoint count_loop (fuel : nat) (char_fn : Z -> Z) (text pat : bytes)
  (exitfirst : bool) (i count : Z) : res Z :=
  match fuel with
  | O => Stop OutOfFuel
  | S f =>
      if i + zlen pat <=? zlen text then
        if bytes_match char_fn text pat i then
          if exitfirst then Ok 1
          else
            let i := u64 (i + u64 (zlen pat - 1)) in
            count_loop f char_fn text pat exitfirst (u64 (i + 1)) (u64 (count + 1))
        else count_loop f char_fn text pat exitfirst (u64 (i + 1)) count
      else Ok count
  end.

Definition do_dstr_count2 (fuel : nat) (text pat : bytes) (sensitive exitfirst : bool)
  : res Z :=
  count_loop fuel (if sensitive then noichar else ichar) text pat exitfirst 0 0.

(** Each iteration of a search for a non-empty pattern moves right. *)
Definition count_fuel (text : bytes) : nat := S (S (length text)).

Definition dstr_count2 (text pat : bytes) : res Z :=
  do_dstr_count2 (count_fuel text) text pat true false.
Definition dstr_icount2 (text pat : bytes) : res Z :=
  do_dstr_count2 (count_fuel text) text pat false false.
Definition dstr_contains (text pat : bytes) : res bool :=
  let! n := do_dstr_count2 (count_fuel text) text pat true true in Ok (negb (n =? 0)).
Definition dstr_icontains (text pat : bytes) : res bool :=
  let! n := do_dstr_count2 (count_fuel text) text pat false true in Ok (negb (n =? 0)).

(** ** Splitting *)

(** A word is a pair of offsets [start, end) into the text. *)
Definition word := (Z * Z)%type.
Definition word_bytes (text : bytes) (w : word) : bytes :=
  slice text (fst w) (snd w - fst w).

(** [last->len = text.len - (last->data - text.data)] *)
Fixpoint extend_last (text : bytes) (ws : list word) : list word :=
  match ws with
  | [] => []
  | [(s, _)] => [(s, zlen text)]
  | w :: ws' => w :: extend_last text ws'
  end.

(** One word per iteration; [outs] is what has been stored, [nouts] the
    capacity. The loop ends when there is no further separator or when the
    outputs are full, so [S nouts] iterations are enough. *)
Fixpoint split_loop (fuel : nat) (text pat : bytes) (nouts : nat) (soft : bool)
  (word_start : Z) (outs : list word) : res (list word) :=
  match fuel with
  | O => Stop OutOfFuel
  | S f =>
      let sub := dstr_sub2 text word_start (zlen text) in
      let '(word_end, continue) :=
        match find1 sub pat with
        | Some p => (word_start + p, true)
        | None => (zlen text, false)
        end in
      if (length outs =? nouts)%nat then
        if soft then Ok (extend_last text outs) else Err E_FIXEDSIZE
      else
        let outs := outs ++ [(word_start, word_end)] in
        if continue
        then split_loop f text pat nouts soft (word_end + zlen pat) outs
        else Ok outs
  end.

(** [_dstr_split2] and [_dstr_split2_soft]: the words stored in the outputs; the
    outputs past them stay zeroized, that is, empty. *)
Definition do_dstr_split2 (text pat : bytes) (nouts : nat) (soft : bool)
  : res (list bytes) :=
  if (nouts <? 1)%nat then Err E_FIXEDSIZE
  else
    let! ws := split_loop (S nouts) text pat nouts soft 0 [] in
    Ok (map (word_bytes text) ws).

(** [dstr_split] and [dstr_split_soft] into a LIST_VAR of capacity [cap]. *)
Definition do_dstr_split (text pat : bytes) (cap : nat) (soft : bool)
  : res (list bytes) :=
  let! ws := split_loop (S cap) text pat cap soft 0 [] in
  Ok (map (word_bytes text) ws).

#[global] Arguments do_dstr_split2 text pat nouts soft : simpl never.
#[global] Arguments do_dstr_split text pat cap soft : simpl never.

(** ** Recoding *)

(** [do_dstr_recode] with force_end and no stop string: every occurrence of a
    search string is replaced, the leftmost first. *)
Fixpoint recode_loop `{Alloc} (fuel : nat) (inp : bytes) (search replace : list bytes)
  : stm dstr unit :=
  match fuel with
  | O => fun d => (Stop OutOfFuel, d)
  | S f =>
      match inp with
      | [] => st_ret tt
      | _ =>
          match fst (dstr_find inp search) with
          | None => dstr_append_quiet inp
          | Some (pos, which) =>
              do! _ := (if pos >? 0 then dstr_append_quiet (take (Z.to_nat pos) inp)
                        else st_ret tt) in
              do! _ := dstr_append_quiet (default [] (replace !! Z.to_nat which)) in
              recode_loop f
                (drop (Z.to_nat (pos + zlen (default [] (search !! Z.to_nat which)))) inp)
                search replace
          end
      end
  end.

Definition dstr_recode `{Alloc} (inp : bytes) (search replace : list bytes) (append : bool)
  : stm dstr unit := fun out =>
  recode_loop (S (length inp)) inp search replace
    (if append then out else set_data [] out).

(** ** Growth *)

Lemma grow_loop_ok fuel s m :
  1 <= s < 2 ^ 64 -> m <= 2 ^ 63 -> m <= s * 2 ^ Z.of_nat fuel ->
  exists n, grow_loop fuel s m = Ok n /\ m <= n /\ s <= n < 2 ^ 64.
Proof.
  revert s. induction fuel as [|f IH]; intros s Hs Hm Hf; simpl.
  - destruct (Z.ltb_spec s m); [simpl in Hf; lia|]. exists s. splits; [done|lia..].
  - destruct (Z.ltb_spec s m); [|exists s; splits; [done|lia..]].
    unfold u64. rewrite Z.mod_small by lia.
    destruct (IH (s * 2)) as (n & -> & ? & ?); [lia|lia| |exists n; splits; [done|lia..]].
    rewrite Nat2Z.inj_succ, Z.pow_succ_r in Hf by lia. lia.
Qed.

Definition dstr_wf (d : dstr) : Prop := d_len d <= d_size d < 2 ^ 64.

(** [n] more bytes fit: into what is left of a fixed-size buffer, or into a
    growable one whose allocations succeed. *)
Definition room `{Alloc} (d : dstr) (n : Z) : Prop :=
  dstr_wf d /\
  if d_fixed d then d_len d + n <= d_size d
  else d_len d + n <= 2 ^ 63 /\ forall z, alloc_ok z = true.

Lemma room_mono `{Alloc} d n m : room d n -> m <= n -> room d m.
Proof. unfold room. destruct (d_fixed d); intuition lia. Qed.

Lemma grow_ok `{Alloc} d m n :
  room d n -> d_len d <= m <= d_len d + n ->
  exists d', dstr_grow_quiet m d = (Ok tt, d') /\ d_data d' = d_data d /\
    d_fixed d' = d_fixed d /\ m <= d_size d' < 2 ^ 64 /\ d_size d <= d_size d'.
Proof.
  intros [Hwf Hr] Hm. unfold dstr_grow_quiet.
  destruct (Z.geb_spec (d_size d) m).
  { exists d. unfold dstr_wf in Hwf. splits; auto; lia. }
  destruct (d_fixed d) eqn:Hf; [unfold dstr_wf in Hwf; lia|].
  destruct Hr as [Hb Ha]. unfold dstr_wf in *.
  assert (0 <= d_len d) by apply zlen_nonneg.
  destruct (grow_loop_ok grow_fuel (Z.max (d_size d) 2) m) as (z & -> & ? & ?);
    [lia|lia| |].
  { change (2 ^ Z.of_nat grow_fuel) with (2 ^ 64). lia. }
  rewrite Ha. exists (set_size z d). simpl. splits; auto; lia.
Qed.

Lemma room_extend `{Alloc} d d' b n :
  room d (zlen b + n) -> 0 <= n ->
  d_data d' = d_data d ++ b -> d_fixed d' = d_fixed d ->
  d_len d + zlen b <= d_size d' < 2 ^ 64 -> d_size d <= d_size d' -> room d' n.
Proof.
  intros [Hwf Hr] Hn Hd Hf Hs Hs'. unfold room, dstr_wf, d_len in *.
  rewrite Hd, Hf, zlen_app. destruct (d_fixed d); intuition lia.
Qed.

(** The three ways the code extends a buffer share this shape. *)
Lemma extend_ok `{Alloc} d b n (test : bool) :
  room d (zlen b + n) -> 0 <= n ->
  (test = false -> d_len d + zlen b <= d_size d) ->
  let copy : stm dstr unit := fun ds => (Ok tt, set_data (d_data ds ++ b) ds) in
  exists d',
    (if test then (do! _ := dstr_grow_quiet (d_len d + zlen b) in copy) d else copy d)
      = (Ok tt, d') /\
    d_data d' = d_data d ++ b /\ room d' n.
Proof.
  intros Hr Hn Htest copy. pose proof (zlen_nonneg b).
  destruct test.
  - destruct (grow_ok d (d_len d + zlen b) (zlen b + n)) as (d' & Hg & Hd & Hf & Hs & Hs');
      [done|lia|].
    exists (set_data (d_data d' ++ b) d').
    unfold copy, st_bind. rewrite Hg. splits; [done|simpl; by rewrite Hd|].
    eapply room_extend; eauto; simpl; by rewrite ?Hd.
  - eexists. splits; [done|done|].
    eapply room_extend; eauto; simpl; try done.
    destruct Hr as [Hwf _]. unfold dstr_wf in Hwf. specialize (Htest eq_refl). lia.
Qed.

Lemma append_ok `{Alloc} d b n :
  room d (zlen b + n) -> 0 <= n ->
  exists d', dstr_append_quiet b d = (Ok tt, d') /\
    d_data d' = d_data d ++ b /\ room d' n.
Proof.
  intros Hr Hn. unfold dstr_append_quiet.
  apply (extend_ok d b n (d_len d + zlen b >? d_size d)); auto.
  intros Ht. rewrite Z.gtb_ltb in Ht. apply Z.ltb_ge in Ht. lia.
Qed.

Lemma append_char_ok `{Alloc} d c n :
  room d (1 + n) -> 0 <= n ->
  exists d', dstr_append_char c d = (Ok tt, d') /\
    d_data d' = d_data d ++ [c] /\ room d' n.
Proof.
  intros Hr Hn. unfold dstr_append_char.
  apply (extend_ok d [c] n (d_len d >=? d_size d)); auto.
  change (zlen [c]) with 1. intros Ht. rewrite Z.geb_leb in Ht. apply Z.leb_gt in Ht. lia.
Qed.

Lemma append_char_n_ok `{Alloc} d c k n :
  room d (Z.of_nat k + n) -> 0 <= n ->
  exists d', dstr_append_char_n c k d = (Ok tt, d') /\
    d_data d' = d_data d ++ replicate k c /\ room d' n.
Proof.
  intros Hr Hn. unfold dstr_append_char_n.
  assert (Hk : zlen (replicate k c) = Z.of_nat k)
    by (unfold zlen; by rewrite length_replicate).
  rewrite <- Hk in *.
  apply (extend_ok d (replicate k c) n (d_len d + zlen (replicate k c) >? d_size d)); auto.
  intros Ht. rewrite Z.gtb_ltb in Ht. apply Z.ltb_ge in Ht. lia.
Qed.

Lemma null_terminate_ok `{Alloc} d n :
  room d (1 + n) -> 0 <= n ->
  exists d', dstr_null_terminate_quiet d = (Ok tt, d') /\
    d_data d' = d_data d /\ room d' n.
Proof.
  intros Hr Hn. unfold dstr_null_terminate_quiet.
  destruct (d_len d >=? d_size d).
  - destruct (grow_ok d (d_len d + 1) (1 + n)) as (d' & Hg & Hd & Hf & Hs & Hs');
      [done|lia|].
    exists d'. splits; auto. destruct Hr as [Hwf Hr]. unfold room, dstr_wf, d_len in *.
    rewrite Hd, Hf. destruct (d_fixed d); intuition lia.
  - exists d. splits; auto. eapply room_mono; eauto. lia.
Qed.

(** A fixed-size buffer that is too small is left as it was. *)
Lemma append_fixed_full `{Alloc} d b :
  d_fixed d = true -> dstr_wf d -> d_size d < d_len d + zlen b ->
  dstr_append_quiet b d = (Err E_FIXEDSIZE, d).
Proof.
  intros Hf Hwf Hlt. unfold dstr_append_quiet.
  rewrite Z.gtb_ltb. destruct (Z.ltb_spec (d_size d) (d_len d + zlen b)); [|lia].
  unfold st_bind, dstr_grow_quiet. rewrite Z.geb_leb.
  destruct (Z.leb_spec (d_len d + zlen b) (d_size d)); [lia|]. by rewrite Hf.
Qed.

(** ** Comparison *)

Lemma cmp_loop_eq f a b :
  length a = length b ->
  cmp_loop f a b = 0 <-> map (fun c => f (schar c)) a = map (fun c => f (schar c)) b.
Proof.
  revert b. induction a as [|x a IH]; intros [|y b] Hl; simpl in *; try lia; [done|].
  destruct (Z.eqb_spec (f (schar x)) (f (schar y))) as [E|E].
  - rewrite IH by lia. split; [intros ->; by rewrite E | by intros [= _ ->]].
  - split; [lia | intros [= ? ?]; congruence].
Qed.

Lemma do_dstr_eq_spec a b s :
  do_dstr_eq a b s = true <->
  let f := if s then noichar else ichar in
  map (fun c => f (schar c)) a = map (fun c => f (schar c)) b.
Proof.
  set (f := if s then noichar else ichar). cbv zeta.
  assert (Hd : do_dstr_eq a b s = true <-> length a = length b /\ cmp_loop f a b = 0).
  { unfold do_dstr_eq, do_dstr_cmp2, zlen. rewrite andb_true_iff, !Z.eqb_eq. simpl.
    fold f. destruct a as [|x a], b as [|y b]; simpl; intuition lia. }
  rewrite Hd. split.
  - intros [Hl Hc]. by apply cmp_loop_eq.
  - intros He. assert (Hl : length a = length b).
    { apply (f_equal length) in He. by rewrite !length_map in He. }
    split; [done|]. by apply cmp_loop_eq.
Qed.

Lemma map_schar_inj a b :
  is_bytes a -> is_bytes b -> map schar a = map schar b -> a = b.
Proof.
  intros Ha. revert b. induction Ha as [|x a Hx Ha IH]; intros [|y b] Hb; simpl; try done.
  inv Hb. intros [= He Hr]. f_equal; [by apply schar_inj | by apply IH].
Qed.

Lemma dstr_eq_spec a b : is_bytes a -> is_bytes b -> dstr_eq a b = true <-> a = b.
Proof.
  intros Ha Hb. unfold dstr_eq. rewrite do_dstr_eq_spec. simpl. split; [|by intros ->].
  intros He. by apply map_schar_inj.
Qed.

Lemma dstr_eq_refl a : dstr_eq a a = true.
Proof. apply do_dstr_eq_spec. done. Qed.

(** ** Splitting on one byte *)

Lemma find_loop_byte_app c w r i mp :
  c ∉ w -> find_loop (w ++ c :: r) [[c]] i mp = (Some (i + zlen w, 0), 0).
Proof.
  revert i mp. induction w as [|t w IH]; intros i mp Hc; simpl.
  - rewrite Z.eqb_refl. by rewrite (Z.add_0_r i : i + zlen [] = i).
  - destruct (Z.eqb_spec t c) as [->|]; [set_solver|].
    rewrite IH by set_solver. rewrite zlen_cons. do 3 f_equal. lia.
Qed.

Lemma find_loop_byte_none c w i mp :
  c ∉ w -> find_loop w [[c]] i mp = (None, mp).
Proof.
  revert i. induction w as [|t w IH]; intros i Hc; simpl; [done|].
  destruct (Z.eqb_spec t c) as [->|]; [set_solver|]. apply IH. set_solver.
Qed.

Lemma find1_byte_app c w r : c ∉ w -> find1 (w ++ c :: r) [c] = Some (zlen w).
Proof. intros. unfold find1, dstr_find. by rewrite find_loop_byte_app. Qed.

Lemma find1_byte_none c w : c ∉ w -> find1 w [c] = None.
Proof. intros. unfold find1, dstr_find. by rewrite find_loop_byte_none. Qed.

Lemma dstr_sub2_suffix pre rest :
  dstr_sub2 (pre ++ rest) (zlen pre) (zlen (pre ++ rest)) = rest.
Proof.
  unfold dstr_sub2. rewrite zlen_app.
  pose proof (zlen_nonneg pre). pose proof (zlen_nonneg rest).
  rewrite !Z.min_r, Z.max_r by lia.
  replace (zlen pre + zlen rest - zlen pre) with (zlen rest) by lia.
  pose proof (slice_app_mid pre rest []) as E. by rewrite app_nil_r in E.
Qed.

(** The words [ws] with the byte [c] between them. *)
Fixpoint joinb (c : Z) (ws : list bytes) : bytes :=
  match ws with
  | [] => []
  | [w] => w
  | w :: ws' => w ++ c :: joinb c ws'
  end.

Lemma joinb_cons c w ws : ws <> [] -> joinb c (w :: ws) = w ++ c :: joinb c ws.
Proof. by destruct ws. Qed.

Lemma word_bytes_mid pre w post :
  word_bytes (pre ++ w ++ post) (zlen pre, zlen pre + zlen w) = w.
Proof.
  unfold word_bytes. simpl.
  replace (zlen pre + zlen w - zlen pre) with (zlen w) by lia. apply slice_app_mid.
Qed.

Lemma extend_last_snoc text outs s e :
  extend_last text (outs ++ [(s, e)]) = outs ++ [(s, zlen text)].
Proof.
  induction outs as [|[a b] outs IH]; [done|].
  simpl. rewrite IH. destruct outs as [|[? ?] ?]; done.
Qed.

(** The words found are those joined; with a soft split the last output takes
    what is left of the text, separators included. *)
Lemma split_loop_join c cap soft ws last pre outs fuel :
  Forall (fun w => c ∉ w) ws -> (soft = false \/ length outs + length ws + 1 < cap -> c ∉ last)%nat ->
  (length outs + length ws + 1 <= cap)%nat -> (length ws + 2 <= fuel)%nat ->
  exists os,
    split_loop fuel (pre ++ joinb c (ws ++ [last])) [c] cap soft (zlen pre) outs
      = Ok (outs ++ os) /\
    map (word_bytes (pre ++ joinb c (ws ++ [last]))) os = ws ++ [last].
Proof.
  revert pre outs fuel. induction ws as [|w ws IH]; intros pre outs fuel Hws Hlast Hcap Hfuel.
  - destruct fuel as [|fuel]; simpl in Hfuel; [lia|]. simpl.
    rewrite dstr_sub2_suffix.
    destruct (Nat.eqb_spec (length outs) cap); [simpl in Hcap; lia|].
    destruct (decide (c ∈ last)) as [Hin|Hin].
    + (* a separator in the last word: only with a soft split at capacity *)
      apply list_elem_of_split_l in Hin as (l1 & l2 & -> & Hn).
      rewrite find1_byte_app by done.
      destruct fuel as [|fuel]; [lia|]. simpl.
      assert (soft = true) as -> by (destruct soft; [done|exfalso; apply Hlast; set_solver]).
      assert (length outs + 0 + 1 = cap)%nat.
      { destruct (decide (length outs + 0 + 1 < cap)%nat); [exfalso|simpl in *; lia].
        apply Hlast; [by right|set_solver]. }
      rewrite length_app. simpl.
      destruct (Nat.eqb_spec (length outs + 1) cap) as [_|]; [|lia].
      destruct (find1 _ _); rewrite extend_last_snoc;
        (eexists; split; [done|]); simpl; f_equal;
        rewrite zlen_app; rewrite <- (app_nil_r (l1 ++ c :: l2)) at 1;
        apply word_bytes_mid.
    + rewrite find1_byte_none by done. eexists. split; [done|]. simpl.
      rewrite zlen_app. f_equal. rewrite <- (app_nil_r last) at 1. apply word_bytes_mid.
  - destruct fuel as [|fuel]; simpl in Hfuel; [lia|]. simpl (_ ++ [last]).
    rewrite joinb_cons by (by destruct ws). simpl.
    rewrite dstr_sub2_suffix. inv Hws.
    rewrite find1_byte_app by done.
    destruct (Nat.eqb_spec (length outs) cap); [simpl in Hcap; lia|].
    change (zlen [c]) with 1.
    destruct (IH (pre ++ w ++ [c]) (outs ++ [(zlen pre, zlen pre + zlen w)]) fuel)
      as (os & Hs & Hm); try done.
    + rewrite length_app. simpl in *. intros Hx. apply Hlast. destruct Hx; [by left|right; lia].
    + rewrite length_app. simpl in *. lia.
    + lia.
    + replace (zlen pre + zlen w + 1) with (zlen (pre ++ w ++ [c]))
        by (autorewrite with zlen; lia).
      rewrite <- !app_assoc in Hs, Hm. simpl in Hs, Hm.
      exists ((zlen pre, zlen pre + zlen w) :: os). split.
      { etransitivity; [exact Hs|]. by rewrite <- app_assoc. }
      simpl. f_equal; [apply word_bytes_mid | exact Hm].
Qed.

Lemma split2_join c cap soft ws last :
  Forall (fun w => c ∉ w) ws -> (soft = false \/ length ws + 1 < cap -> c ∉ last)%nat ->
  (length ws + 1 <= cap)%nat ->
  do_dstr_split2 (joinb c (ws ++ [last])) [c] cap soft = Ok (ws ++ [last]).
Proof.
  intros Hws Hl Hc. unfold do_dstr_split2.
  destruct (Nat.ltb_spec cap 1); [lia|].
  destruct (split_loop_join c cap soft ws last [] [] (S cap)) as (os & Hs & Hm);
    simpl in *; try done; [lia|].
  change (zlen []) with 0 in Hs. rewrite Hs. simpl. by rewrite Hm.
Qed.

Lemma split_join c cap soft ws last :
  Forall (fun w => c ∉ w) ws -> (soft = false \/ length ws + 1 < cap -> c ∉ last)%nat ->
  (length ws + 1 <= cap)%nat ->
  do_dstr_split (joinb c (ws ++ [last])) [c] cap soft = Ok (ws ++ [last]).
Proof.
  intros Hws Hl Hc. unfold do_dstr_split.
  destruct (split_loop_join c cap soft ws last [] [] (S cap)) as (os & Hs & Hm);
    simpl in *; try done; [lia|].
  change (zlen []) with 0 in Hs. rewrite Hs. simpl. by rewrite Hm.
Qed.

(** ** Counting *)

(** [pat] is at offset [i] of [text], up to [f]. *)
Definition occurs (f : Z -> Z) (text pat : bytes) (i : Z) : Prop :=
  0 <= i /\ i + zlen pat <= zlen text /\
  map (fun c => f (schar c)) (slice text i (zlen pat)) = map (fun c => f (schar c)) pat.

Lemma forallb_combine_map (f : Z -> Z) l k :
  length l = length k ->
  forallb (fun '(a, b) => f a =? f b) (combine l k) = true <-> map f l = map f k.
Proof.
  revert k. induction l as [|x l IH]; intros [|y k] Hl; simpl in *; try lia; [done|].
  rewrite andb_true_iff, Z.eqb_eq, IH by lia. split; [intros [-> ->]; done | by intros [= -> ->]].
Qed.

Lemma bytes_match_spec f text pat i :
  0 <= i -> i + zlen pat <= zlen text ->
  bytes_match f text pat i = true <-> occurs f text pat i.
Proof.
  intros Hi Hle. unfold bytes_match, occurs.
  rewrite (forallb_combine_map (fun c => f (schar c))).
  - intuition.
  - pose proof (zlen_slice text i (zlen pat) Hi (zlen_nonneg _) Hle). unfold zlen in *. lia.
Qed.

Lemma count_loop_ok fuel f text pat ef i count :
  0 < zlen pat -> zlen text < 2 ^ 63 -> 0 <= i <= zlen text -> zlen text - i < Z.of_nat fuel ->
  0 <= count <= i ->
  exists n, count_loop fuel f text pat ef i count = Ok n /\
    ((n = count /\ forall j, i <= j -> ~ occurs f text pat j) \/
     (n = (if ef then 1 else n) /\ (ef = false -> count < n) /\
      exists j, i <= j /\ occurs f text pat j)).
Proof.
  intros Hp Ht. revert i count. induction fuel as [|fuel IH]; intros i count Hi Hf Hc; [lia|].
  simpl. destruct (Z.leb_spec (i + zlen pat) (zlen text)) as [Hle|Hgt].
  2:{ exists count. split; [done|]. left. split; [done|]. unfold occurs. intros j ? ?. lia. }
  pose proof (bytes_match_spec f text pat i ltac:(lia) Hle) as Hm.
  destruct (bytes_match f text pat i).
  - destruct ef.
    { exists 1. split; [done|]. right. splits; auto; [done|]. exists i. split; [lia|]. by apply Hm. }
    unfold u64. rewrite (Z.mod_small (zlen pat - 1)), (Z.mod_small (i + (zlen pat - 1))) by lia.
    rewrite (Z.mod_small (i + _ + 1)), (Z.mod_small (count + 1)) by lia.
    destruct (IH (i + (zlen pat - 1) + 1) (count + 1)) as (n & -> & Hn); [lia|lia|lia|].
    exists n. split; [done|]. right. splits; auto.
    + intros _. destruct Hn as [[-> _]|(_ & Hn & _)]; [lia|]. specialize (Hn eq_refl). lia.
    + exists i. split; [lia|]. by apply Hm.
  - unfold u64. rewrite (Z.mod_small (i + 1)) by lia.
    destruct (IH (i + 1) count) as (n & -> & Hn); [lia|lia|lia|].
    exists n. split; [done|]. destruct Hn as [[-> Hn]|(Hn1 & Hn2 & j & ? & ?)].
    + left. split; [done|]. intros j Hj Ho.
      destruct (decide (j = i)) as [->|]; [|eapply (Hn j); [lia|done]].
      apply Hm in Ho. done.
    + right. splits; auto. exists j. split; [lia|done].
Qed.

Lemma do_dstr_count2_ok text pat s ef :
  0 < zlen pat -> zlen text < 2 ^ 63 ->
  exists n, do_dstr_count2 (count_fuel text) text pat s ef = Ok n /\ 0 <= n /\
    (n > 0 <-> exists i, occurs (if s then noichar else ichar) text pat i).
Proof.
  intros Hp Ht. pose proof (zlen_nonneg text).
  destruct (count_loop_ok (count_fuel text) (if s then noichar else ichar) text pat ef 0 0)
    as (n & Hn & Hcase); [done|done|lia|unfold count_fuel, zlen; lia|lia|].
  exists n. split; [done|].
  destruct Hcase as [[-> Hno]|(He & Hlt & j & ? & Ho)].
  - split; [lia|]. split; [lia|]. intros [i Ho]. exfalso. apply (Hno i); [apply Ho|done].
  - destruct ef; [subst; split; [lia|]|specialize (Hlt eq_refl); split; [lia|]];
      split; try lia; intros _; by exists j.
Qed.

(** The search for an empty pattern steps back as far as it steps forward. *)
Lemma count_empty_pattern_diverges fuel text s :
  do_dstr_count2 fuel text [] s false = Stop OutOfFuel.
Proof.
  unfold do_dstr_count2. generalize 0 at 2 as count.
  induction fuel as [|fuel IH]; intros count; [done|]. simpl.
  pose proof (zlen_nonneg text).
  change (0 + zlen (@nil Z)) with 0.
  destruct (Z.leb_spec 0 (zlen text)); [|lia].
  apply IH.
Qed.

(** ** Claims *)

(** C30: for a non-empty pattern every search of [do_dstr_count2] terminates, [dstr_contains] and
    [dstr_icontains] answer whether the pattern occurs (up to case for the latter), and a count
    is positive exactly then; for an empty pattern a count never terminates. *)
Theorem substring_search text pat :
  0 < zlen pat -> zlen text < 2 ^ 63 ->
  (exists b, dstr_contains text pat = Ok b /\
     (b = true <-> exists i, occurs noichar text pat i)) /\
  (exists b, dstr_icontains text pat = Ok b /\
     (b = true <-> exists i, occurs ichar text pat i)) /\
  (exists n, dstr_icount2 text pat = Ok n /\ 0 <= n /\
     (n > 0 <-> exists i, occurs ichar text pat i)) /\
  (forall fuel s, do_dstr_count2 fuel text [] s false = Stop OutOfFuel).
Proof.
  intros Hp Ht. splits; [| | |intros; apply count_empty_pattern_diverges].
  - destruct (do_dstr_count2_ok text pat true true Hp Ht) as (n & E & Hn & Ho).
    exists (negb (n =? 0)). unfold dstr_contains. rewrite E. split; [done|].
    rewrite <- Ho, negb_true_iff, Z.eqb_neq. lia.
  - destruct (do_dstr_count2_ok text pat false true Hp Ht) as (n & E & Hn & Ho).
    exists (negb (n =? 0)). unfold dstr_icontains. rewrite E. split; [done|].
    rewrite <- Ho, negb_true_iff, Z.eqb_neq. lia.
  - exact (do_dstr_count2_ok text pat false false Hp Ht).
Qed.

Lemma substring_search_witness :
  exists n, dstr_icount2 (lit "The cat") (lit "CAT") = Ok n /\ 0 <= n /\
    (n > 0 <-> exists i, occurs ichar (lit "The cat") (lit "CAT") i).
Proof.
  exact (proj1 (proj2 (proj2
    (substring_search (lit "The cat") (lit "CAT") eq_refl eq_refl)))).
Defined.

(** Splitting the join of words on their separator gives the words back, with either splitter;
    a soft split whose outputs run out leaves the rest of the text in the last one, and a
    hard split with too few outputs is E_FIXEDSIZE. *)
Theorem split_join_roundtrip c cap soft ws last :
  Forall (fun w => c ∉ w) ws ->
  (soft = false \/ length ws + 1 < cap -> c ∉ last)%nat -> (length ws + 1 <= cap)%nat ->
  let text := joinb c (ws ++ [last]) in
  do_dstr_split2 text [c] cap soft = Ok (ws ++ [last]) /\
  do_dstr_split text [c] cap soft = Ok (ws ++ [last]).
Proof. intros Hw Hl Hc text. split; [by apply split2_join | by apply split_join]. Qed.

Lemma split_join_roundtrip_witness :
  do_dstr_split2 (lit "1:a:b.c") (lit ":") 2 true = Ok [lit "1"; lit "a:b.c"].
Proof.
  refine (proj1 (split_join_roundtrip (chr ":") 2 true [lit "1"] (lit "a:b.c") _ _ _)).
  - repeat constructor. vm_compute. set_solver.
  - intros [?|?]; [done|simpl in *; lia].
  - simpl. lia.
Defined.
