(* ===== verification/Fmt.v ===== *)
(** * Formatted output (libdstr/fmt.c)

    The writer interface, the dstr writer, the basic arguments and the format
    engine. [AppendWriter] is what a writer promises its clients: with enough
    room, putting bytes appends them. *)

From S2P Require Import Prelude Dstr.

(** ** Writers *)

(** [writer_t]; a NULL method is [None]. *)
Record writer (W : Type) := mkWriter {
  w_puts : bytes -> stm W unit;
  w_putc : Z -> stm W unit;
  w_null_terminate : option (stm W unit);
  w_lock : option (stm W unit);
  w_unlock : option (stm W unit)
}.
Arguments w_puts {W} _ _ _.
Arguments w_putc {W} _ _ _.
Arguments w_null_terminate {W} _.
Arguments w_lock {W} _.
Arguments w_unlock {W} _.

(** As much as fits is written even if the buffer could not grow. *)
Definition writer_dstr_puts `{Alloc} (bs : bytes) : stm dstr unit := fun out =>
  if zlen bs =? 0 then (Ok tt, out)
  else
    let '(r, out) :=
      if d_len out + zlen bs >? d_size out
      then dstr_grow_quiet (d_len out + zlen bs) out
      else (Ok tt, out) in
    let count := Z.min (zlen bs) (d_size out - d_len out) in
    (r, set_data (d_data out ++ take (Z.to_nat count) bs) out).

Definition writer_dstr_putc `{Alloc} (c : Z) : stm dstr unit := fun out =>
  let put : stm dstr unit := fun out => (Ok tt, set_data (d_data out ++ [c]) out) in
  if d_len out >=? d_size out
  then (do! _ := dstr_grow_quiet (d_len out + 1) in put) out
  else put out.

Definition writer_dstr `{Alloc} : writer dstr :=
  mkWriter dstr writer_dstr_puts writer_dstr_putc
    (Some dstr_null_terminate_quiet) None None.

(** ** Decimal numbers, as snprintf writes them *)

(** The digits of [n], most significant first; [fuel] bounds their number. *)
Fixpoint dec_loop (fuel : nat) (n : Z) (acc : bytes) : bytes :=
  match fuel with
  | O => acc
  | S f =>
      let acc := (chr "0" + n mod 10) :: acc in
      if n <? 10 then acc else dec_loop f (n / 10) acc
  end.

(** A 64-bit number has at most 20 digits. *)
Definition dec (n : Z) : bytes := dec_loop 20 n [].
Definition dec_signed (n : Z) : bytes :=
  if n <? 0 then chr "-" :: dec (- n) else dec n.
#[global] Arguments dec n : simpl never.
#[global] Arguments dec_signed n : simpl never.

(** ** Arguments *)

Definition hex_digit (n : Z) : Z :=
  if n <? 10 then chr "0" + n else chr "a" + (n - 10).
Definition hex_high_nibble (u : Z) : Z := hex_digit (Z.shiftr u 4).
Definition hex_low_nibble (u : Z) : Z := hex_digit (Z.land u 15).

(** The [fmt_i] constructors: FI, FU, FC, FB, FS (a NULL string is [None]), FD,
    FD_DBG and FX. *)
Inductive fmt_arg :=
| FI (i : Z) | FU (u : Z) | FC (c : Z) | FB (b : bool)
| FS (s : option bytes) | FD (d : bytes) | FD_DBG (d : bytes) | FX (d : bytes).

Definition strn_dbg_byte {W} (w : writer W) (u : Z) : stm W unit :=
  if u =? 13 then w_puts w (lit "\r")
  else if u =? 10 then w_puts w (lit "\n")
  else if u =? 0 then w_puts w (lit "\0")
  else if u =? 9 then w_puts w (lit "\t")
  else if u =? 92 then w_puts w (lit "\\")
  else if u =? 34 then w_puts w [92; 34]
  else if (31 <? u) && (u <? 127) then w_putc w u
  else
    do! _ := w_puts w (lit "\x") in
    do! _ := w_putc w (hex_high_nibble u) in
    w_putc w (hex_low_nibble u).

Fixpoint fmt_strn_dbg {W} (w : writer W) (s : bytes) : stm W unit :=
  match s with
  | [] => st_ret tt
  | u :: s' => do! _ := strn_dbg_byte w u in fmt_strn_dbg w s'
  end.

Fixpoint fmt_dstr_hex {W} (w : writer W) (s : bytes) : stm W unit :=
  match s with
  | [] => st_ret tt
  | u :: s' =>
      do! _ := w_putc w (hex_high_nibble u) in
      do! _ := w_putc w (hex_low_nibble u) in
      fmt_dstr_hex w s'
  end.

Definition fmt_arg_run {W} (w : writer W) (a : fmt_arg) : stm W unit :=
  match a with
  | FI i => w_puts w (dec_signed i)
  | FU u => w_puts w (dec u)
  | FC c => w_putc w c
  | FB b => w_puts w (if b then lit "true" else lit "false")
  | FS None => w_puts w (lit "(nil)")
  | FS (Some s) => w_puts w s
  | FD d => w_puts w d
  | FD_DBG d => fmt_strn_dbg w d
  | FX d => fmt_dstr_hex w d
  end.

(** ** The format engine *)

Fixpoint fmt_rest {W} (w : writer W) (args : list fmt_arg) : stm W unit :=
  match args with
  | [] => st_ret tt
  | a :: args' =>
      do! _ := w_putc w (chr " ") in
      do! _ := fmt_arg_run w a in
      fmt_rest w args'
  end.

(** [_fmt_unlocked]: [c] points into the format string, whose end is its NUL. *)
Fixpoint fmt_unlocked {W} (w : writer W) (fstr : bytes) (args : list fmt_arg)
  : stm W unit :=
  match fstr with
  | [] => fmt_rest w args
  | c :: rest =>
      if negb (c =? chr "%") then
        do! _ := w_putc w c in fmt_unlocked w rest args
      else
        match rest with
        | [] => do! _ := w_putc w c in fmt_rest w args
        | cc :: rest' =>
            if cc =? chr "%" then
              do! _ := w_putc w (chr "%") in fmt_unlocked w rest' args
            else if negb (cc =? chr "x") then
              do! _ := w_putc w c in
              do! _ := w_putc w cc in
              fmt_unlocked w rest' args
            else
              match args with
              | [] => fmt_unlocked w rest' []
              | a :: args' =>
                  do! _ := fmt_arg_run w a in fmt_unlocked w rest' args'
              end
        end
  end.

(** The first error is kept, but null_terminate and unlock always run. *)
Definition and_then {W} (m : stm W unit) (next : option (stm W unit)) : stm W unit :=
  match next with
  | None => m
  | Some n => fun s =>
      let '(r, s) := m s in
      match r with
      | Stop x => (Stop x, s)
      | _ =>
          let '(r2, s) := n s in
          (match r with Ok _ => r2 | _ => r end, s)
      end
  end.

Definition fmt_quiet {W} (w : writer W) (fstr : bytes) (args : list fmt_arg)
  : stm W unit :=
  do! _ := default (st_ret tt) (w_lock w) in
  and_then (and_then (fmt_unlocked w fstr args) (w_null_terminate w)) (w_unlock w).

(** [FMT(out, fstr, args...)] *)
Definition FMT `{Alloc} (fstr : string) (args : list fmt_arg) : stm dstr unit :=
  fmt_quiet writer_dstr (lit fstr) args.

(** ** What is to be written *)

Definition render_dbg_byte (u : Z) : bytes :=
  if u =? 13 then lit "\r"
  else if u =? 10 then lit "\n"
  else if u =? 0 then lit "\0"
  else if u =? 9 then lit "\t"
  else if u =? 92 then lit "\\"
  else if u =? 34 then [92; 34]
  else if (31 <? u) && (u <? 127) then [u]
  else lit "\x" ++ [hex_high_nibble u; hex_low_nibble u].

Definition render_arg (a : fmt_arg) : bytes :=
  match a with
  | FI i => dec_signed i
  | FU u => dec u
  | FC c => [c]
  | FB b => if b then lit "true" else lit "false"
  | FS None => lit "(nil)"
  | FS (Some s) => s
  | FD d => d
  | FD_DBG d => concat (map render_dbg_byte d)
  | FX d => concat (map (fun u => [hex_high_nibble u; hex_low_nibble u]) d)
  end.

(** Each %x takes the next argument, %% is a percent sign, any other escape is
    itself, and the arguments left over follow, each after a space. *)
Fixpoint render (fstr : bytes) (args : list fmt_arg) : bytes :=
  match fstr with
  | [] => concat (map (fun a => chr " " :: render_arg a) args)
  | c :: rest =>
      if negb (c =? chr "%") then c :: render rest args
      else
        match rest with
        | [] => c :: concat (map (fun a => chr " " :: render_arg a) args)
        | cc :: rest' =>
            if cc =? chr "%" then chr "%" :: render rest' args
            else if negb (cc =? chr "x") then c :: cc :: render rest' args
            else
              match args with
              | [] => render rest' []
              | a :: args' => render_arg a ++ render rest' args'
              end
        end
  end.

Lemma render_x rest a args : render (37 :: 120 :: rest) (a :: args) = render_arg a ++ render rest args.
Proof. reflexivity. Qed.
Lemma render_c c rest args : (c =? 37) = false -> render (c :: rest) args = c :: render rest args.
Proof. intros Hc. simpl. change (chr "%") with 37. by rewrite Hc. Qed.
Lemma render_end : render [] [] = [].
Proof. reflexivity. Qed.

(** Evaluate [render] on a literal format. *)
Ltac render_norm :=
  lit_norm;
  repeat first [rewrite render_x | rewrite render_c by reflexivity | rewrite render_end];
  cbn [render_arg]; rewrite ?app_nil_r.

(** ** What a writer promises *)

Class AppendWriter {W} (w : writer W) := {
  aw_contents : W -> bytes;
  aw_room : W -> Z -> Prop;
  aw_room_mono : forall s n m, aw_room s n -> m <= n -> aw_room s m;
  aw_puts : forall s bs n, aw_room s (zlen bs + n) -> 0 <= n ->
    exists s', w_puts w bs s = (Ok tt, s') /\
      aw_contents s' = aw_contents s ++ bs /\ aw_room s' n;
  aw_putc : forall s c n, aw_room s (1 + n) -> 0 <= n ->
    exists s', w_putc w c s = (Ok tt, s') /\
      aw_contents s' = aw_contents s ++ [c] /\ aw_room s' n;
  aw_null : forall s n m, w_null_terminate w = Some m -> aw_room s (1 + n) -> 0 <= n ->
    exists s', m s = (Ok tt, s') /\ aw_contents s' = aw_contents s /\ aw_room s' n;
  (** these writers have nothing to lock *)
  aw_lock : w_lock w = None;
  aw_unlock : w_unlock w = None
}.

(** A writing action that appends exactly [bs]. *)
Definition writes {W} (w : writer W) `{!AppendWriter w} (m : stm W unit) (bs : bytes) : Prop :=
  forall s n, aw_room s (zlen bs + n) -> 0 <= n ->
    exists s', m s = (Ok tt, s') /\
      aw_contents s' = aw_contents s ++ bs /\ aw_room s' n.

(** A reading of writing actions as byte strings that is compatible with
    sequencing. The format engine is verified once against it. *)
Class WriteLogic {W} (w : writer W) (P : stm W unit -> bytes -> Prop) := {
  wl_nil : P (st_ret tt) [];
  wl_puts : forall bs, P (w_puts w bs) bs;
  wl_putc : forall c, P (w_putc w c) [c];
  wl_app : forall m k a b, P m a -> P (k tt) b -> P (st_bind m k) (a ++ b)
}.

Section format.
Context {W} (w : writer W) (P : stm W unit -> bytes -> Prop) `{!WriteLogic w P}.

Lemma wl_cons m k c b : P m [c] -> P (k tt) b -> P (st_bind m k) (c :: b).
Proof. intros. by apply (wl_app m k [c] b). Qed.

#[local] Ltac wl := repeat first
  [ assumption | apply wl_nil | apply wl_puts | apply wl_putc | apply wl_app
  | apply wl_cons ].

Lemma format_dbg_byte u : P (strn_dbg_byte w u) (render_dbg_byte u).
Proof. unfold strn_dbg_byte, render_dbg_byte. repeat case_match; wl. Qed.

Lemma format_strn_dbg s : P (fmt_strn_dbg w s) (concat (map render_dbg_byte s)).
Proof. induction s; simpl; wl. apply format_dbg_byte. Qed.

Lemma format_hex s :
  P (fmt_dstr_hex w s)
    (concat (map (fun u => [hex_high_nibble u; hex_low_nibble u]) s)).
Proof. induction s; simpl; wl. Qed.

Lemma format_arg a : P (fmt_arg_run w a) (render_arg a).
Proof.
  destruct a as [| | | | [|] | | |]; simpl; wl; [apply format_strn_dbg | apply format_hex].
Qed.

Lemma format_rest args :
  P (fmt_rest w args) (concat (map (fun a => chr " " :: render_arg a) args)).
Proof. induction args; simpl; wl. apply format_arg. Qed.

Lemma format_unlocked_len n fstr args :
  (length fstr <= n)%nat -> P (fmt_unlocked w fstr args) (render fstr args).
Proof.
  revert fstr args. induction n as [|n IH]; intros fstr args Hl.
  - destruct fstr; simpl in Hl; [apply format_rest | lia].
  - destruct fstr as [|c rest]; [apply format_rest|]. simpl in *.
    destruct (negb (c =? chr "%")); [wl; apply IH; lia|].
    destruct rest as [|cc rest']; simpl in *; [wl; apply format_rest|].
    destruct (cc =? chr "%"); [wl; apply IH; lia|].
    destruct (negb (cc =? chr "x")); [wl; apply IH; lia|].
    destruct args as [|a args']; wl; try apply format_arg; apply IH; lia.
Qed.

Lemma format_unlocked fstr args : P (fmt_unlocked w fstr args) (render fstr args).
Proof. by eapply format_unlocked_len. Qed.
End format.

(** ** With enough room *)

#[export] Instance writes_logic {W} (w : writer W) `{!AppendWriter w} :
  WriteLogic w (writes w).
Proof.
  split.
  - intros s n Hr Hn. exists s. by rewrite app_nil_r.
  - intros bs s n. apply aw_puts.
  - intros c s n. apply aw_putc.
  - intros m k a b Hm Hk s n Hr Hn. rewrite zlen_app in Hr. pose proof (zlen_nonneg b).
    destruct (Hm s (zlen b + n)) as (s1 & E1 & C1 & R1);
      [eapply aw_room_mono; [done|lia]|lia|].
    destruct (Hk s1 n) as (s2 & E2 & C2 & R2); [done..|].
    exists s2. unfold st_bind. rewrite E1. splits; [done| |done].
    by rewrite C2, C1, app_assoc.
Qed.

Section quiet.
Context {W} (w : writer W) `{!AppendWriter w}.

(** A formatted print needs room for its text and for the terminator. *)
Lemma fmt_quiet_ok fstr args s n :
  aw_room s (zlen (render fstr args) + 1 + n) -> 0 <= n ->
  exists s', fmt_quiet w fstr args s = (Ok tt, s') /\
    aw_contents s' = aw_contents s ++ render fstr args /\ aw_room s' n.
Proof.
  intros Hr Hn. unfold fmt_quiet. rewrite aw_lock, aw_unlock. simpl. unfold st_bind, st_ret.
  destruct (format_unlocked w (writes w) fstr args s (1 + n)) as (s1 & E1 & C1 & R1);
    [eapply aw_room_mono; [done|lia]|lia|].
  unfold and_then. destruct (w_null_terminate w) as [m|] eqn:Hm.
  - rewrite E1. destruct (aw_null s1 n m Hm) as (s2 & E2 & C2 & R2); [done..|].
    rewrite E2. exists s2. splits; [done| |done]. by rewrite C2.
  - rewrite E1. exists s1. splits; [done|done|]. eapply aw_room_mono; [done|lia].
Qed.
End quiet.

(** ** The dstr writer keeps the promise *)

Lemma writer_dstr_puts_ok `{Alloc} d bs n :
  room d (zlen bs + n) -> 0 <= n ->
  exists d', writer_dstr_puts bs d = (Ok tt, d') /\
    d_data d' = d_data d ++ bs /\ room d' n.
Proof.
  intros Hr Hn. unfold writer_dstr_puts.
  destruct (Z.eqb_spec (zlen bs) 0) as [E|E].
  { apply zlen_0_nil in E as ->. exists d. splits; [done|by rewrite app_nil_r|].
    eapply room_mono; [done|]. unfold zlen. simpl. lia. }
  pose proof (zlen_nonneg bs).
  assert (Hfull : forall d' : dstr, d_len d + zlen bs <= d_size d' -> d_len d' = d_len d ->
    take (Z.to_nat (Z.min (zlen bs) (d_size d' - d_len d'))) bs = bs).
  { intros d' H1 H2. apply take_ge. unfold zlen in *. lia. }
  rewrite Z.gtb_ltb. destruct (Z.ltb_spec (d_size d) (d_len d + zlen bs)).
  - destruct (grow_ok d (d_len d + zlen bs) (zlen bs + n)) as (d' & Hg & Hd & Hf & Hs & Hs');
      [done|lia|].
    rewrite Hg. cbv zeta beta iota. rewrite Hfull by (unfold d_len; rewrite ?Hd; unfold d_len in *; lia).
    exists (set_data (d_data d' ++ bs) d'). splits; [done|by rewrite <- Hd|].
    eapply room_extend; eauto; simpl; by rewrite ?Hd.
  - cbv zeta beta iota. rewrite Hfull by lia.
    exists (set_data (d_data d ++ bs) d). splits; [done|done|].
    eapply room_extend; eauto; simpl; try done.
    destruct Hr as [Hwf _]. unfold dstr_wf in Hwf. lia.
Qed.

#[export] Instance dstr_append_writer `{Alloc} : AppendWriter writer_dstr.
Proof.
  refine {| aw_contents := d_data; aw_room := room |}; simpl.
  - apply room_mono.
  - apply writer_dstr_puts_ok.
  - intros s c n Hr Hn. apply (append_char_ok s c n); done.
  - intros s n m [= <-] Hr Hn. by apply null_terminate_ok.
  - done.
  - done.
Defined.

(** FMT into a dstr_t with room appends exactly the rendering. *)
Lemma FMT_ok `{Alloc} fstr args d n :
  room d (zlen (render (lit fstr) args) + 1 + n) -> 0 <= n ->
  exists d', FMT fstr args d = (Ok tt, d') /\
    d_data d' = d_data d ++ render (lit fstr) args /\ room d' n.
Proof. intros Hr Hn. exact (fmt_quiet_ok writer_dstr (lit fstr) args d n Hr Hn). Qed.

(** ** A fixed-size buffer keeps what fits *)

Definition emit (bs : bytes) : stm dstr unit := fun d =>
  let full := d_data d ++ bs in
  (if zlen full <=? d_size d then Ok tt else Err E_FIXEDSIZE,
   set_data (take (Z.to_nat (d_size d)) full) d).

Definition emits (m : stm dstr unit) (bs : bytes) : Prop :=
  forall d, d_fixed d = true -> dstr_wf d -> m d = emit bs d.

Lemma emit_set_data bs d b :
  emit bs (set_data b d) =
  (if zlen (b ++ bs) <=? d_size d then Ok tt else Err E_FIXEDSIZE,
   set_data (take (Z.to_nat (d_size d)) (b ++ bs)) d).
Proof. reflexivity. Qed.

Lemma take_all_wf d : dstr_wf d -> take (Z.to_nat (d_size d)) (d_data d) = d_data d.
Proof. unfold dstr_wf, d_len, zlen. intros. apply take_ge. lia. Qed.

Lemma emit_puts `{Alloc} bs : emits (writer_dstr_puts bs) bs.
Proof.
  intros d Hf Hwf. unfold writer_dstr_puts, emit. rewrite zlen_app. fold (d_len d).
  destruct (Z.eqb_spec (zlen bs) 0) as [E|E].
  { apply zlen_0_nil in E as ->. rewrite app_nil_r, take_all_wf by done.
    unfold dstr_wf in Hwf. rewrite zlen_nil.
    destruct (Z.leb_spec (d_len d + 0) (d_size d)); [|lia]. by destruct d. }
  unfold dstr_wf in Hwf. pose proof (zlen_nonneg bs).
  rewrite Z.gtb_ltb. unfold dstr_grow_quiet. rewrite Z.geb_leb, Hf.
  destruct (Z.ltb_spec (d_size d) (d_len d + zlen bs)).
  - destruct (Z.leb_spec (d_len d + zlen bs) (d_size d)); [lia|]. cbv zeta beta iota.
    do 2 f_equal. rewrite take_app_ge by (unfold d_len, zlen in *; lia). do 2 f_equal.
    unfold d_len, zlen in *. lia.
  - destruct (Z.leb_spec (d_len d + zlen bs) (d_size d)); [|lia]. cbv zeta beta iota.
    rewrite !take_ge; [done| |]; rewrite ?length_app; unfold d_len, zlen in *; lia.
Qed.

Lemma emit_putc `{Alloc} c : emits (writer_dstr_putc c) [c].
Proof.
  intros d Hf Hwf. unfold writer_dstr_putc, emit. rewrite zlen_app. fold (d_len d).
  change (zlen [c]) with 1. unfold dstr_wf in Hwf.
  rewrite Z.geb_leb. unfold dstr_grow_quiet, st_bind. rewrite Z.geb_leb, Hf.
  destruct (Z.leb_spec (d_size d) (d_len d)).
  - destruct (Z.leb_spec (d_len d + 1) (d_size d)); [lia|]. f_equal.
    rewrite take_app_le, take_all_wf; [by destruct d|done|].
    unfold d_len, zlen in *. lia.
  - destruct (Z.leb_spec (d_len d + 1) (d_size d)); [|lia].
    by rewrite take_ge by (rewrite length_app; unfold d_len, zlen in *; simpl; lia).
Qed.

Lemma emit_app m k a b : emits m a -> emits (k tt) b -> emits (st_bind m k) (a ++ b).
Proof.
  intros Hm Hk d Hf Hwf. unfold st_bind. rewrite Hm by done.
  unfold emit. rewrite app_assoc.
  destruct (Z.leb_spec (zlen (d_data d ++ a)) (d_size d)) as [Hle|Hgt].
  - rewrite take_ge by (unfold zlen in *; lia). rewrite Hk; [done|done|].
    unfold dstr_wf, d_len in *. simpl. lia.
  - pose proof (zlen_nonneg b). rewrite (zlen_app _ b).
    destruct (Z.leb_spec (zlen (d_data d ++ a) + zlen b) (d_size d)); [lia|].
    by rewrite (take_app_le (d_data d ++ a) b) by (unfold zlen in *; lia).
Qed.

#[export] Instance emits_logic `{Alloc} : WriteLogic writer_dstr emits.
Proof.
  split; simpl; auto using emit_puts, emit_putc, emit_app.
  intros d Hf Hwf. unfold st_ret, emit. rewrite app_nil_r, take_all_wf by done.
  unfold dstr_wf, d_len in Hwf. destruct (Z.leb_spec (zlen (d_data d)) (d_size d)); [|lia].
  by destruct d.
Qed.

(** C29: formatting into a fixed-size buffer keeps the longest prefix of the rendered text that
    fits, and succeeds exactly when the text and its NUL terminator fit. *)
Theorem FMT_fixed `{Alloc} fstr args d :
  d_fixed d = true -> dstr_wf d ->
  let full := d_data d ++ render (lit fstr) args in
  FMT fstr args d =
    (if zlen full <? d_size d then Ok tt else Err E_FIXEDSIZE,
     set_data (take (Z.to_nat (d_size d)) full) d).
Proof.
  intros Hf Hwf full. unfold FMT, fmt_quiet, and_then, st_bind, st_ret. simpl.
  rewrite (format_unlocked writer_dstr emits) by done. unfold emit. fold full.
  unfold dstr_null_terminate_quiet, dstr_grow_quiet, d_len. cbn [d_data d_size d_fixed set_data].
  rewrite Hf, !Z.geb_leb, zlen_take.
  unfold dstr_wf, d_len in Hwf. pose proof (zlen_nonneg (d_data d)).
  rewrite Z2Nat.id by lia. clearbody full.
  destruct (Z.leb_spec (zlen full) (d_size d)) as [Hle|Hgt].
  - rewrite Z.min_r by lia. destruct (Z.ltb_spec (zlen full) (d_size d)).
    + destruct (Z.leb_spec (d_size d) (zlen full)); [lia|done].
    + destruct (Z.leb_spec (d_size d) (zlen full)); [|lia].
      destruct (Z.leb_spec (zlen full + 1) (d_size d)); [lia|done].
  - rewrite Z.min_l by lia. destruct (Z.ltb_spec (zlen full) (d_size d)); [lia|].
    destruct (Z.leb_spec (d_size d) (d_size d)); [|lia].
    destruct (Z.leb_spec (d_size d + 1) (d_size d)); [lia|done].
Qed.

Lemma FMT_fixed_witness :
  FMT (H := always) "%x+%x" [FI (-12); FD (lit "abc")] (mkD [] 5 true)
    = (Err E_FIXEDSIZE, mkD (lit "-12+a") 5 true).
Proof.
  exact (FMT_fixed (H := always) "%x+%x" [FI (-12); FD (lit "abc")] (mkD [] 5 true) eq_refl
    ltac:(unfold dstr_wf, d_len; simpl; vm_compute; intuition congruence)).
Defined.
