(* ===== verification/Cvt.v ===== *)
(** * Integer parsing (libdstr/cvt.c)

    [parse_integer] accumulates digits into a uintmax_t with an overflow check
    before each step; the dstr_to* functions narrow its result. *)

From S2P Require Import Prelude Dstr Fmt.

Definition UINTMAX_MAX : Z := UINT64_MAX.

Record integer_t := mkInteger { negative : bool; integer : Z; ok : bool }.

(** ** Digits; an invalid character is [UINTMAX_MAX]. [c] is a byte. *)

Definition in_range (c : Z) (lo hi : string) : bool :=
  (chr lo <=? c) && (c <=? chr hi).

Definition read_base8 (c : Z) : Z :=
  if in_range c "0" "7" then c - chr "0" else UINTMAX_MAX.
Definition read_base10 (c : Z) : Z :=
  if in_range c "0" "9" then c - chr "0" else UINTMAX_MAX.
Definition read_base16 (c : Z) : Z :=
  if in_range c "0" "9" then c - chr "0"
  else if in_range c "a" "f" then c - chr "a" + 10
  else if in_range c "A" "F" then c - chr "A" + 10
  else UINTMAX_MAX.

Definition get_base_reader (base : Z) : option (Z -> Z) :=
  if base =? 8 then Some read_base8
  else if base =? 10 then Some read_base10
  else if base =? 16 then Some read_base16
  else None.

(** ** parse_integer *)

(** The [while(true)] loop: [text] starts at the current character. *)
Fixpoint digit_loop (base_reader : Z -> Z) (ubase limit mod_ : Z) (neg : bool)
  (text : bytes) (acc : Z) : integer_t :=
  match text with
  | [] => mkInteger neg acc true
  | c :: rest =>
      let digit := base_reader c in
      if digit =? UINTMAX_MAX then mkInteger neg acc false
      else if acc >? limit then mkInteger neg acc false
      else if (acc =? limit) && (digit >? mod_) then mkInteger neg acc false
      else digit_loop base_reader ubase limit mod_ neg rest (u64 (acc * ubase + digit))
  end.

Definition parse_integer (inp : bytes) (base : Z) : integer_t :=
  match get_base_reader base with
  | None => mkInteger false 0 false
  | Some base_reader =>
      let limit := UINTMAX_MAX / base in
      let mod_ := UINTMAX_MAX mod base in
      match inp with
      | [] => mkInteger false 0 false
      | c :: rest =>
          if (c =? chr "-") || (c =? chr "+") then
            let neg := c =? chr "-" in
            match rest with
            | [] => mkInteger neg 0 false
            | _ => digit_loop base_reader base limit mod_ neg rest 0
            end
          else digit_loop base_reader base limit mod_ false inp 0
      end
  end.

(** ** The conversions. The out-parameter is zero on error. *)

Definition to_unsigned (max : Z) (inp : bytes) (base : Z) : res Z :=
  let num := parse_integer inp base in
  if negb (ok num) || negative num || (integer num >? max) then Err E_PARAM
  else Ok (integer num).

Definition to_signed (max : Z) (inp : bytes) (base : Z) : res Z :=
  let num := parse_integer inp base in
  if negb (ok num) then Err E_PARAM
  else if negative num then
    if u64 (integer num - 1) >? max then Err E_PARAM
    else Ok (-1 * u64 (integer num - 1) - 1)
  else if integer num >? max then Err E_PARAM
  else Ok (integer num).

Definition dstr_tou : bytes -> Z -> res Z := to_unsigned UINT32_MAX.
Definition dstr_toul : bytes -> Z -> res Z := to_unsigned UINT64_MAX.
Definition dstr_tosize : bytes -> Z -> res Z := to_unsigned SIZE_MAX.
Definition dstr_toull : bytes -> Z -> res Z := to_unsigned UINT64_MAX.
Definition dstr_tou64 : bytes -> Z -> res Z := to_unsigned UINT64_MAX.
Definition dstr_toumax (inp : bytes) (base : Z) : res Z :=
  let num := parse_integer inp base in
  if negb (ok num) || negative num then Err E_PARAM else Ok (integer num).
Definition dstr_toi : bytes -> Z -> res Z := to_signed INT32_MAX.
Definition dstr_tol : bytes -> Z -> res Z := to_signed INT64_MAX.
Definition dstr_toll : bytes -> Z -> res Z := to_signed INT64_MAX.
Definition dstr_toi64 : bytes -> Z -> res Z := to_signed INT64_MAX.
Definition dstr_toimax : bytes -> Z -> res Z := to_signed INT64_MAX.

(** ** What a number string denotes *)

(** The value of a digit string, in unbounded arithmetic. *)
Fixpoint digits_value (reader : Z -> Z) (base : Z) (text : bytes) (acc : Z) : option Z :=
  match text with
  | [] => Some acc
  | c :: rest =>
      if reader c =? UINTMAX_MAX then None
      else digits_value reader base rest (acc * base + reader c)
  end.

(** An optional sign and at least one digit. *)
Definition number_value (base : Z) (inp : bytes) : option (bool * Z) :=
  match get_base_reader base, inp with
  | Some r, c :: rest =>
      if (c =? chr "-") || (c =? chr "+") then
        match rest with
        | [] => None
        | _ => v ← digits_value r base rest 0; Some (c =? chr "-", v)
        end
      else v ← digits_value r base inp 0; Some (false, v)
  | _, _ => None
  end.

(** ** Correctness of the overflow check *)

Definition good_reader (reader : Z -> Z) (base : Z) : Prop :=
  2 <= base <= 16 /\ forall c, reader c = UINTMAX_MAX \/ 0 <= reader c < base.

Lemma base_reader_good base r : get_base_reader base = Some r -> good_reader r base.
Proof.
  unfold get_base_reader, good_reader, read_base8, read_base10, read_base16, in_range.
  intros H. repeat case_match; simplify_eq; bool_to_prop; subst; (split; [lia|]); intros c;
    chr_norm; repeat case_match; bool_to_prop; auto; right; lia.
Qed.

Lemma digits_value_mono r base text acc v :
  good_reader r base -> 0 <= acc -> digits_value r base text acc = Some v -> acc <= v.
Proof.
  intros [Hb Hr]. revert acc. induction text as [|c text IH]; intros acc Ha; simpl.
  - intros [= ->]. lia.
  - destruct (Z.eqb_spec (r c) UINTMAX_MAX); [done|]. intros Hv.
    destruct (Hr c) as [|Hc]; [done|]. apply IH in Hv; nia.
Qed.

(** The loop accepts exactly the digit strings whose value fits. *)
Lemma digit_loop_spec r base neg text acc :
  good_reader r base -> 0 <= acc <= UINTMAX_MAX ->
  let out := digit_loop r base (UINTMAX_MAX / base) (UINTMAX_MAX mod base) neg text acc in
  negative out = neg /\
  match digits_value r base text acc with
  | Some v => ok out = (v <=? UINTMAX_MAX) /\ (v <= UINTMAX_MAX -> integer out = v)
  | None => ok out = false
  end.
Proof.
  intros Hg. pose proof Hg as [Hb Hr]. revert acc.
  induction text as [|c text IH]; intros acc Ha; simpl.
  - split; [done|]. destruct (Z.leb_spec acc UINTMAX_MAX); [done|lia].
  - destruct (Z.eqb_spec (r c) UINTMAX_MAX); [done|].
    destruct (Hr c) as [|Hc]; [done|].
    pose proof (Z.div_mod UINTMAX_MAX base ltac:(lia)) as Hdm.
    pose proof (Z.mod_pos_bound UINTMAX_MAX base ltac:(lia)).
    set (q := UINTMAX_MAX / base) in *. set (m := UINTMAX_MAX mod base) in *.
    assert (Hover : acc > q \/ acc = q /\ r c > m -> UINTMAX_MAX < acc * base + r c)
      by (intros [?|[-> ?]]; nia).
    assert (Hreject : UINTMAX_MAX < acc * base + r c ->
      match digits_value r base text (acc * base + r c) with
      | Some v => false = (v <=? UINTMAX_MAX) /\ (v <= UINTMAX_MAX -> acc = v)
      | None => false = false
      end).
    { intros Hlt. destruct (digits_value _ _ _ _) as [v|] eqn:Hv; [|done].
      apply digits_value_mono in Hv; [|done|nia].
      destruct (Z.leb_spec v UINTMAX_MAX); [lia|]. split; [done|lia]. }
    rewrite !Z.gtb_ltb.
    destruct (Z.ltb_spec q acc); [split; [done|]; apply Hreject, Hover; lia|].
    destruct ((acc =? q) && (m <? r c)) eqn:E.
    { bool_to_prop. split; [done|]. apply Hreject, Hover. lia. }
    assert (Hfit : acc * base + r c <= UINTMAX_MAX).
    { apply andb_false_iff in E as [E|E]; bool_to_prop; nia. }
    unfold u64. rewrite Z.mod_small by (unfold UINTMAX_MAX, UINT64_MAX in *; nia).
    apply IH. nia.
Qed.

Lemma parse_integer_spec inp base :
  let out := parse_integer inp base in
  match number_value base inp with
  | Some (neg, v) =>
      ok out = (v <=? UINTMAX_MAX) /\
      (v <= UINTMAX_MAX -> integer out = v /\ negative out = neg)
  | None => ok out = false
  end.
Proof.
  unfold parse_integer, number_value. cbv zeta.
  destruct (get_base_reader base) as [r|] eqn:Hr; [|done].
  apply base_reader_good in Hr. destruct inp as [|c rest]; [done|].
  assert (HU : 0 <= 0 <= UINTMAX_MAX) by (unfold UINTMAX_MAX, UINT64_MAX; lia).
  destruct ((c =? chr "-") || (c =? chr "+")).
  - destruct rest as [|c2 rest]; [done|].
    pose proof (digit_loop_spec r base (c =? chr "-") (c2 :: rest) 0 Hr HU) as [Hn Hv].
    cbv zeta in *. destruct (digits_value r base (c2 :: rest) 0) as [v|]; [|exact Hv].
    cbn [mbind option_bind]. destruct Hv as [-> Hv]. split; [done|]. intros Hle. split; [by apply Hv|exact Hn].
  - pose proof (digit_loop_spec r base false (c :: rest) 0 Hr HU) as [Hn Hv].
    cbv zeta in *. destruct (digits_value r base (c :: rest) 0) as [v|]; [|exact Hv].
    cbn [mbind option_bind]. destruct Hv as [-> Hv]. split; [done|]. intros Hle. split; [by apply Hv|exact Hn].
Qed.

(** ** Printing and parsing decimal numbers *)

Lemma read_base10_digit d : 0 <= d < 10 -> read_base10 (chr "0" + d) = d.
Proof.
  intros Hd. unfold read_base10, in_range. chr_norm.
  destruct (Z.leb_spec 48 (48 + d)), (Z.leb_spec (48 + d) 57); simpl; lia.
Qed.

Lemma digits_value_dec_loop f n acc :
  0 <= n < 10 ^ Z.of_nat f -> (0 < f)%nat ->
  digits_value read_base10 10 (dec_loop f n acc) 0 = digits_value read_base10 10 acc n.
Proof.
  revert n acc. induction f as [|f IH]; intros n acc Hn Hf; [lia|].
  pose proof (Z.mod_pos_bound n 10 ltac:(lia)) as Hm.
  assert (Hstep : forall a, digits_value read_base10 10 ((chr "0" + n mod 10) :: acc) a
    = digits_value read_base10 10 acc (a * 10 + n mod 10)).
  { intros a. simpl digits_value. rewrite read_base10_digit by done.
    destruct (Z.eqb_spec (n mod 10) UINTMAX_MAX) as [E|]; [|done].
    unfold UINTMAX_MAX, UINT64_MAX in E. lia. }
  simpl dec_loop. destruct (Z.ltb_spec n 10) as [Hlt|Hge].
  - rewrite Hstep. rewrite Z.mod_small by lia. done.
  - rewrite IH.
    + rewrite Hstep. f_equal. pose proof (Z.div_mod n 10 ltac:(lia)). lia.
    + rewrite Nat2Z.inj_succ, Z.pow_succ_r in Hn by lia.
      split; [apply Z.div_pos; lia | apply Z.div_lt_upper_bound; lia].
    + destruct f; [|lia]. simpl in Hn. lia.
Qed.

Lemma digits_value_dec n : is_u64 n -> digits_value read_base10 10 (dec n) 0 = Some n.
Proof.
  intros Hn. unfold dec. rewrite digits_value_dec_loop; [done| |lia].
  unfold is_u64 in Hn. change (10 ^ Z.of_nat 20) with 100000000000000000000. lia.
Qed.

Definition is_digit (c : Z) : Prop := 48 <= c <= 57.

Lemma dec_loop_digits f n acc :
  Forall is_digit acc -> Forall is_digit (dec_loop f n acc).
Proof.
  revert n acc. induction f as [|f IH]; intros n acc Ha; [done|]. simpl.
  assert (Forall is_digit ((chr "0" + n mod 10) :: acc)).
  { constructor; [|done]. unfold is_digit. chr_norm.
    pose proof (Z.mod_pos_bound n 10). lia. }
  destruct (n <? 10); auto.
Qed.

Lemma dec_digits n : Forall is_digit (dec n).
Proof. apply dec_loop_digits. constructor. Qed.

Lemma dec_loop_length f n acc :
  (length acc <= length (dec_loop f n acc) <= f + length acc)%nat /\
  (0 < f -> length acc < length (dec_loop f n acc))%nat.
Proof.
  revert n acc. induction f as [|f IH]; intros n acc; simpl; [lia|].
  destruct (n <? 10); simpl; [lia|].
  destruct (IH (n / 10) ((chr "0" + n mod 10) :: acc)) as [IH' _]. simpl in IH'. lia.
Qed.

Lemma dec_length n : 1 <= zlen (dec n) <= 20.
Proof.
  unfold dec, zlen. pose proof (dec_loop_length 20 n []) as H.
  change (length (@nil Z)) with 0%nat in H. lia.
Qed.

Lemma dec_nonempty n : dec n <> [].
Proof. intros E. pose proof (dec_length n). rewrite E in *. unfold zlen in *. simpl in *. lia. Qed.

Lemma dec_head n : exists d rest, dec n = d :: rest /\ is_digit d.
Proof.
  pose proof (dec_digits n) as Hd. pose proof (dec_nonempty n).
  destruct (dec n) as [|d rest]; [done|]. inv Hd. eauto.
Qed.

Lemma number_value_dec n : is_u64 n -> number_value 10 (dec n) = Some (false, n).
Proof.
  intros Hn. pose proof (digits_value_dec n Hn) as Hv. unfold number_value.
  change (get_base_reader 10) with (Some read_base10). cbv iota beta.
  destruct (dec_head n) as (d & rest & E & Hd). rewrite E in *.
  unfold is_digit in Hd. chr_norm.
  destruct (Z.eqb_spec d 45), (Z.eqb_spec d 43); try lia. simpl orb.
  cbv iota. by rewrite Hv.
Qed.

Lemma number_value_dec_signed i :
  - 2 ^ 63 <= i < 2 ^ 63 -> number_value 10 (dec_signed i) = Some (i <? 0, Z.abs i).
Proof.
  intros Hi. unfold dec_signed. destruct (Z.ltb_spec i 0).
  - assert (Hn : is_u64 (- i)) by (unfold is_u64; lia).
    pose proof (digits_value_dec _ Hn) as Hv.
    destruct (dec_head (- i)) as (d & rest & E & Hd). rewrite E in *.
    unfold number_value. change (get_base_reader 10) with (Some read_base10).
    cbv iota beta. chr_norm. simpl orb. cbv iota. rewrite Hv. cbn [mbind option_bind].
    do 2 f_equal. lia.
  - rewrite number_value_dec by (unfold is_u64; lia). do 2 f_equal. lia.
Qed.

Lemma number_value_nonneg base inp neg n : number_value base inp = Some (neg, n) -> 0 <= n.
Proof.
  unfold number_value. destruct (get_base_reader base) as [r|] eqn:Hr; [|done].
  apply base_reader_good in Hr. destruct inp as [|c rest]; [done|].
  assert (Hd : forall l v, digits_value r base l 0 = Some v -> 0 <= v)
    by (intros l v; by apply digits_value_mono).
  destruct (_ || _); [destruct rest as [|c2 rest]; [done|]|];
    match goal with |- context [digits_value r base ?l 0] =>
      destruct (digits_value r base l 0) eqn:Hv
    end; cbn [mbind option_bind]; try done; intros [= <- <-]; eauto.
Qed.

Lemma to_unsigned_spec max inp base v :
  max <= UINTMAX_MAX ->
  to_unsigned max inp base = Ok v <->
  number_value base inp = Some (false, v) /\ v <= max.
Proof.
  intros Hmax. unfold to_unsigned. cbv zeta.
  pose proof (parse_integer_spec inp base) as Hs. cbv zeta in Hs.
  destruct (number_value base inp) as [[neg n]|].
  2:{ rewrite Hs. simpl. split; [done|]. by intros [? _]. }
  destruct Hs as [-> Hs]. destruct (Z.leb_spec n UINTMAX_MAX) as [Hle|Hgt]; simpl.
  - destruct (Hs Hle) as [-> ->]. rewrite Z.gtb_ltb.
    destruct neg; simpl; [split; [done|naive_solver]|].
    destruct (Z.ltb_spec max n); split; try done; naive_solver lia.
  - split; [done|]. intros [[= -> ->] ?]. lia.
Qed.

Lemma to_signed_spec max inp base v :
  1 <= max < 2 ^ 63 ->
  to_signed max inp base = Ok v <->
  exists neg n, number_value base inp = Some (neg, n) /\
    (if neg then 1 <= n <= max + 1 /\ v = - n else n <= max /\ v = n).
Proof.
  intros Hmax. unfold to_signed. cbv zeta.
  pose proof (parse_integer_spec inp base) as Hs. cbv zeta in Hs.
  destruct (number_value base inp) as [[neg n]|] eqn:Hnv.
  2:{ rewrite Hs. simpl. split; [done|]. naive_solver. }
  pose proof (number_value_nonneg _ _ _ _ Hnv) as Hpos.
  destruct Hs as [-> Hs]. unfold UINTMAX_MAX, UINT64_MAX in *.
  destruct (Z.leb_spec n (2 ^ 64 - 1)) as [Hle|Hgt]; simpl.
  2:{ split; [done|]. intros (? & ? & [= <- <-] & Hc). destruct neg; lia. }
  destruct (Hs Hle) as [-> ->]. rewrite !Z.gtb_ltb. unfold u64. destruct neg.
  - assert (Hn0 : n = 0 \/ 1 <= n) by lia. destruct Hn0 as [->|Hn1].
    + change ((0 - 1) mod 2 ^ 64) with (2 ^ 64 - 1).
      destruct (Z.ltb_spec max (2 ^ 64 - 1)); [|lia]. split; [done|].
      intros (? & ? & [= <- <-] & Hc). lia.
    + rewrite Z.mod_small by lia. destruct (Z.ltb_spec max (n - 1)).
      * split; [done|]. intros (? & ? & [= <- <-] & Hc). lia.
      * split; [intros [= <-]; exists true, n; split; [done|lia]|].
        intros (? & ? & [= <- <-] & Hc). f_equal. lia.
  - destruct (Z.ltb_spec max n).
    + split; [done|]. intros (? & ? & [= <- <-] & Hc). lia.
    + split; [intros [= <-]; exists false, n; done|].
      intros (? & ? & [= <- <-] & Hc). f_equal. lia.
Qed.

Lemma tou_dec n : is_u32 n -> dstr_tou (dec n) 10 = Ok n.
Proof.
  intros Hn. apply to_unsigned_spec; [unfold UINT32_MAX, UINTMAX_MAX, UINT64_MAX; lia|].
  rewrite number_value_dec; unfold is_u32, is_u64, UINT32_MAX in *; split; lia || done.
Qed.

Lemma tou64_dec n : is_u64 n -> dstr_tou64 (dec n) 10 = Ok n.
Proof.
  intros Hn. apply to_unsigned_spec; [unfold UINTMAX_MAX, UINT64_MAX; lia|].
  rewrite number_value_dec; unfold is_u64, UINT64_MAX in *; split; lia || done.
Qed.

Lemma toi_dec_signed i : - 2 ^ 31 <= i < 2 ^ 31 -> dstr_toi (dec_signed i) 10 = Ok i.
Proof.
  intros Hi. apply to_signed_spec; [unfold INT32_MAX; lia|].
  exists (i <? 0), (Z.abs i). rewrite number_value_dec_signed by lia. split; [done|].
  unfold INT32_MAX. destruct (Z.ltb_spec i 0); lia.
Qed.

Lemma toi64_dec_signed i : - 2 ^ 63 <= i < 2 ^ 63 -> dstr_toi64 (dec_signed i) 10 = Ok i.
Proof.
  intros Hi. apply to_signed_spec; [unfold INT64_MAX; lia|].
  exists (i <? 0), (Z.abs i). rewrite number_value_dec_signed by lia. split; [done|].
  unfold INT64_MAX. destruct (Z.ltb_spec i 0); lia.
Qed.

Lemma dec_signed_chars i : Forall (fun c => is_digit c \/ c = chr "-") (dec_signed i).
Proof.
  unfold dec_signed. destruct (i <? 0); [constructor; [by right|]|];
    (eapply Forall_impl; [apply dec_digits|]); auto.
Qed.

Lemma dec_signed_length i : 1 <= zlen (dec_signed i) <= 21.
Proof.
  unfold dec_signed. destruct (i <? 0); rewrite ?zlen_cons;
    pose proof (dec_length i); pose proof (dec_length (- i)); lia.
Qed.

Lemma dec_loop_small f n acc k :
  0 <= n < 10 ^ Z.of_nat k -> (0 < k)%nat ->
  (length (dec_loop f n acc) <= k + length acc)%nat.
Proof.
  revert n acc k. induction f as [|f IH]; intros n acc k Hn Hk; simpl; [lia|].
  destruct (Z.ltb_spec n 10); [simpl; lia|].
  destruct k as [|[|k]]; [lia|change (10 ^ Z.of_nat 1) with 10 in Hn; lia|].
  assert (Hl : 0 <= n / 10 < 10 ^ Z.of_nat (S k)).
  { rewrite Nat2Z.inj_succ, Z.pow_succ_r in Hn by lia.
    generalize dependent (10 ^ Z.of_nat (S k)). intros B HB.
    split; [apply Z.div_pos; lia | apply Z.div_lt_upper_bound; lia]. }
  specialize (IH (n / 10) ((chr "0" + n mod 10) :: acc) (S k) Hl). simpl in IH. lia.
Qed.

Lemma dec_length_u32 n : is_u32 n -> 1 <= zlen (dec n) <= 10.
Proof.
  intros Hn. split; [apply dec_length|]. unfold dec, zlen.
  pose proof (dec_loop_small 20 n [] 10) as H. change (10 ^ Z.of_nat 10) with 10000000000 in H.
  change (length (@nil Z)) with 0%nat in H. unfold is_u32 in Hn. lia.
Qed.

(** A number of at least ten to the [k] has more than [k] digits. *)
Lemma dec_loop_lower f n acc k :
  10 ^ Z.of_nat k <= n < 10 ^ Z.of_nat f ->
  (k + 1 + length acc <= length (dec_loop f n acc))%nat.
Proof.
  revert n acc k. induction f as [|f IH]; intros n acc k Hn.
  { assert (0 < 10 ^ Z.of_nat k) by (apply Z.pow_pos_nonneg; lia).
    change (10 ^ Z.of_nat 0) with 1 in Hn. lia. }
  rewrite Nat2Z.inj_succ, Z.pow_succ_r in Hn by lia. simpl.
  destruct k as [|k].
  { destruct (n <? 10); [simpl; lia|].
    pose proof (dec_loop_length f (n / 10) ((chr "0" + n mod 10) :: acc)). simpl in *. lia. }
  rewrite Nat2Z.inj_succ, Z.pow_succ_r in Hn by lia.
  assert (Hp : 0 < 10 ^ Z.of_nat k) by (apply Z.pow_pos_nonneg; lia).
  assert (Hd : 10 ^ Z.of_nat k <= n / 10 < 10 ^ Z.of_nat f).
  { revert Hn Hp. generalize (10 ^ Z.of_nat k) (10 ^ Z.of_nat f). intros K F Hn Hp.
    split; [apply Z.div_le_lower_bound; lia | apply Z.div_lt_upper_bound; lia]. }
  specialize (IH (n / 10) ((chr "0" + n mod 10) :: acc) k Hd). simpl in IH.
  destruct (Z.ltb_spec n 10); [|lia].
  exfalso. revert Hn Hp. generalize (10 ^ Z.of_nat k). intros; lia.
Qed.

Lemma dec_length_lower n k : 10 ^ Z.of_nat k <= n < 2 ^ 64 -> Z.of_nat k + 1 <= zlen (dec n).
Proof.
  intros Hn. unfold dec, zlen. pose proof (dec_loop_lower 20 n [] k) as H.
  change (10 ^ Z.of_nat 20) with 100000000000000000000 in H.
  change (length (@nil Z)) with 0%nat in H. lia.
Qed.

(** An [int] is printed with at most eleven characters. *)
Lemma dec_signed_length_int i : - 2 ^ 31 <= i < 2 ^ 31 -> 1 <= zlen (dec_signed i) <= 11.
Proof.
  intros Hi. unfold dec_signed. destruct (Z.ltb_spec i 0); rewrite ?zlen_cons;
    [pose proof (dec_length_u32 (- i)) | pose proof (dec_length_u32 i)];
    unfold is_u32 in *; lia.
Qed.

(** A separator that is not a digit does not occur in a printed number. *)
Lemma not_in_dec c n : ~ is_digit c -> c ∉ dec n.
Proof.
  intros Hc Hin. pose proof (dec_digits n) as Hd.
  rewrite Forall_forall in Hd. by apply Hc, Hd.
Qed.

Lemma not_in_dec_signed c i : ~ is_digit c -> c <> chr "-" -> c ∉ dec_signed i.
Proof.
  intros Hc Hm Hin. pose proof (dec_signed_chars i) as Hd.
  rewrite Forall_forall in Hd. destruct (Hd c Hin); auto.
Qed.

#[export] Hint Resolve not_in_dec not_in_dec_signed : sm.

(** ** Claims *)

(** C28: the conversions accept exactly the texts that denote an integer in range, and return it.
    [number_value] is the reference reading: an optional sign, then digits of the base.
    A minus sign before a zero is refused by every conversion. *)
Theorem integers_exact inp base v :
  (dstr_tou inp base = Ok v <-> number_value base inp = Some (false, v) /\ v <= UINT32_MAX) /\
  (dstr_tou64 inp base = Ok v <-> number_value base inp = Some (false, v) /\ v <= UINT64_MAX) /\
  (dstr_toi inp base = Ok v <-> exists neg n, number_value base inp = Some (neg, n) /\
     if neg then 1 <= n <= INT32_MAX + 1 /\ v = - n else n <= INT32_MAX /\ v = n) /\
  (dstr_toi64 inp base = Ok v <-> exists neg n, number_value base inp = Some (neg, n) /\
     if neg then 1 <= n <= INT64_MAX + 1 /\ v = - n else n <= INT64_MAX /\ v = n).
Proof.
  splits; [apply to_unsigned_spec|apply to_unsigned_spec|apply to_signed_spec|apply to_signed_spec];
    unfold UINT32_MAX, UINTMAX_MAX, UINT64_MAX, INT32_MAX, INT64_MAX; lia.
Qed.

(** A number printed with %x and FU or FI is read back by the conversion of its type. *)
Theorem decimal_roundtrip n i j :
  is_u64 n -> - 2 ^ 31 <= i < 2 ^ 31 -> - 2 ^ 63 <= j < 2 ^ 63 ->
  dstr_tou64 (render_arg (FU n)) 10 = Ok n /\
  (is_u32 n -> dstr_tou (render_arg (FU n)) 10 = Ok n) /\
  dstr_toi (render_arg (FI i)) 10 = Ok i /\ dstr_toi64 (render_arg (FI j)) 10 = Ok j.
Proof.
  intros Hn Hi Hj. splits; [by apply tou64_dec | by apply tou_dec
    | by apply toi_dec_signed | by apply toi64_dec_signed].
Qed.

Lemma decimal_roundtrip_witness :
  dstr_tou64 (render_arg (FU (2 ^ 64 - 1))) 10 = Ok (2 ^ 64 - 1).
Proof.
  refine (proj1 (decimal_roundtrip (2 ^ 64 - 1) 0 0 _ _ _)); vm_compute; intuition congruence.
Defined.
