(* ===== verification/Msg.v ===== *)
(** * Messages (libimaildir/msg.h, msg_internal.h, msg.c)

    The records an imaildir keeps per message, their constructors, the flag
    algebra and the debug printers. *)

From S2P Require Import Prelude Dstr Fmt.

(** ** Data *)

Record imap_time_t := mkTime {
  year : Z; month : Z; day : Z; hour : Z; min : Z; sec : Z; z_hour : Z; z_min : Z
}.

Inductive msg_state_e := MSG_UNFILLED | MSG_FILLED | MSG_EXPUNGED | MSG_NOT4ME.
Inductive msg_expunge_state_e := MSG_EXPUNGE_UNPUSHED | MSG_EXPUNGE_PUSHED.
Inductive msg_mod_type_e := MOD_TYPE_MESSAGE | MOD_TYPE_EXPUNGE.
Inductive subdir_type_e := SUBDIR_CUR | SUBDIR_TMP | SUBDIR_NEW.

Record msg_flags_t := mkFlags {
  answered : bool; flagged : bool; seen : bool; draft : bool; deleted : bool
}.

Record msg_key_t := mkKey { uid_up : Z; uid_local : Z }.
Definition KEY_UP (v : Z) : msg_key_t := mkKey v 0.
Definition KEY_LOCAL (v : Z) : msg_key_t := mkKey 0 v.

Record msg_mod_t := mkMod { mod_type : msg_mod_type_e; modseq : Z }.

(** The tree node a message is indexed by belongs to the tree, not to the value. *)
Record msg_t := mkMsg {
  m_key : msg_key_t;
  m_uid_dn : Z;
  m_length : Z;
  m_internaldate : imap_time_t;
  m_flags : msg_flags_t;
  m_mod : msg_mod_t;
  m_subdir : subdir_type_e;
  m_filename : option bytes;
  m_state : msg_state_e;
  m_open_fds : Z
}.

Record msg_view_t := mkView {
  v_key : msg_key_t; v_uid_dn : Z; v_length : Z;
  v_internaldate : imap_time_t; v_flags : msg_flags_t
}.

Record msg_expunge_t := mkExpunge {
  e_key : msg_key_t; e_uid_dn : Z; e_state : msg_expunge_state_e; e_mod : msg_mod_t
}.

#[export] Instance imap_time_eq_dec : EqDecision imap_time_t.
Proof. solve_decision. Defined.
#[export] Instance msg_state_eq_dec : EqDecision msg_state_e.
Proof. solve_decision. Defined.
#[export] Instance msg_expunge_state_eq_dec : EqDecision msg_expunge_state_e.
Proof. solve_decision. Defined.
#[export] Instance msg_flags_eq_dec : EqDecision msg_flags_t.
Proof. solve_decision. Defined.
#[export] Instance msg_key_eq_dec : EqDecision msg_key_t.
Proof. solve_decision. Defined.

(** ** Constructors *)

Definition msg_new (key : msg_key_t) (uid_dn : Z) (state : msg_state_e)
  (intdate : imap_time_t) (flags : msg_flags_t) (modseq : Z) : msg_t :=
  mkMsg key uid_dn 0 intdate flags (mkMod MOD_TYPE_MESSAGE modseq) SUBDIR_CUR None state 0.

Definition msg_set_file (len : Z) (subdir : subdir_type_e) (filename : bytes) (m : msg_t)
  : res msg_t :=
  match m_filename m with
  | Some _ => Err E_INTERNAL
  | None =>
      Ok (mkMsg (m_key m) (m_uid_dn m) len (m_internaldate m) (m_flags m) (m_mod m)
            subdir (Some filename) (m_state m) (m_open_fds m))
  end.

Definition msg_view_new (m : msg_t) : msg_view_t :=
  mkView (m_key m) (m_uid_dn m) (m_length m) (m_internaldate m) (m_flags m).

Definition msg_expunge_new (key : msg_key_t) (uid_dn : Z) (state : msg_expunge_state_e)
  (modseq : Z) : msg_expunge_t :=
  mkExpunge key uid_dn state (mkMod MOD_TYPE_EXPUNGE modseq).

(** ** Flags *)

Definition flags2 (f : bool -> bool -> bool) (a b : msg_flags_t) : msg_flags_t :=
  mkFlags (f (answered a) (answered b)) (f (flagged a) (flagged b))
    (f (seen a) (seen b)) (f (draft a) (draft b)) (f (deleted a) (deleted b)).

Definition msg_flags_eq (a b : msg_flags_t) : bool :=
  Bool.eqb (answered a) (answered b) && Bool.eqb (flagged a) (flagged b)
  && Bool.eqb (seen a) (seen b) && Bool.eqb (draft a) (draft b)
  && Bool.eqb (deleted a) (deleted b).
Definition msg_flags_xor : msg_flags_t -> msg_flags_t -> msg_flags_t := flags2 xorb.
Definition msg_flags_and : msg_flags_t -> msg_flags_t -> msg_flags_t := flags2 andb.
Definition msg_flags_or : msg_flags_t -> msg_flags_t -> msg_flags_t := flags2 orb.
Definition msg_flags_not (a : msg_flags_t) : msg_flags_t :=
  mkFlags (negb (answered a)) (negb (flagged a)) (negb (seen a)) (negb (draft a))
    (negb (deleted a)).

(** ** Debug output *)

Definition msg_state_to_dstr (s : msg_state_e) : bytes :=
  match s with
  | MSG_UNFILLED => lit "UNFILLED"
  | MSG_FILLED => lit "FILLED"
  | MSG_EXPUNGED => lit "EXPUNGED"
  | MSG_NOT4ME => lit "NOT4ME"
  end.

(** [if(flag){ dstr_append(out, letter) }] *)
Definition append_if `{Alloc} (b : bool) (s : string) : stm dstr unit :=
  if b then dstr_append_quiet (lit s) else st_ret tt.

Definition append_flags `{Alloc} (f : msg_flags_t) : stm dstr unit :=
  do! _ := append_if (answered f) "A" in
  do! _ := append_if (draft f) "D" in
  do! _ := append_if (flagged f) "F" in
  do! _ := append_if (seen f) "S" in
  append_if (deleted f) "X".

Definition msg_write `{Alloc} (m : msg_t) : stm dstr unit :=
  do! _ := FMT "msg:%x(up):%x(dn):%x:%x/%x:"
    [FU (uid_up (m_key m)); FU (m_uid_dn m); FD (msg_state_to_dstr (m_state m));
     FD (default [] (m_filename m)); FU (m_length m)] in
  do! _ := append_flags (m_flags m) in
  FMT ":%x" [FU (modseq (m_mod m))].

Definition msg_expunge_write `{Alloc} (e : msg_expunge_t) : stm dstr unit :=
  FMT "expunge:%x(up):%x(dn):%x"
    [FU (uid_up (e_key e)); FU (e_uid_dn e); FU (modseq (e_mod e))].

(** ** Appending in sequence *)

(** The letters of the flags that are set, in the order they are appended. *)
Definition flag_letters (f : msg_flags_t) : bytes :=
  (if answered f then lit "A" else []) ++ (if draft f then lit "D" else []) ++
  (if flagged f then lit "F" else []) ++ (if seen f then lit "S" else []) ++
  (if deleted f then lit "X" else []).

(** [m] appends [bs] to a buffer with room for [bs] and [slack] more bytes. *)
Definition appends `{Alloc} (m : stm dstr unit) (bs : bytes) (slack : Z) : Prop :=
  forall d n, room d (zlen bs + slack + n) -> 0 <= n ->
    exists d', m d = (Ok tt, d') /\ d_data d' = d_data d ++ bs /\ room d' n.

Lemma appends_bind `{Alloc} m k a b s1 s2 :
  0 <= s1 -> 0 <= s2 -> appends m a s1 -> appends (k tt) b s2 ->
  appends (st_bind m k) (a ++ b) (s1 + s2).
Proof.
  intros Hs1 Hs2 Hm Hk d n Hr Hn. rewrite zlen_app in Hr.
  pose proof (zlen_nonneg a). pose proof (zlen_nonneg b).
  destruct (Hm d (zlen b + s2 + n)) as (d1 & E1 & D1 & R1);
    [eapply room_mono; [done|lia]|lia|].
  destruct (Hk d1 n) as (d2 & E2 & D2 & R2); [done..|].
  exists d2. unfold st_bind. rewrite E1. splits; [done| |done]. by rewrite D2, D1, app_assoc.
Qed.

Lemma appends_ret `{Alloc} : appends (st_ret tt) [] 0.
Proof.
  intros d n Hr Hn. exists d. splits; [done|by rewrite app_nil_r|].
  eapply room_mono; [done|]. rewrite (@zlen_nil Z). lia.
Qed.

Lemma appends_append `{Alloc} b : appends (dstr_append_quiet b) b 0.
Proof.
  intros d n Hr Hn. apply append_ok; [|done]. eapply room_mono; [done|]. lia.
Qed.

Lemma appends_FMT `{Alloc} fstr args :
  appends (FMT fstr args) (render (lit fstr) args) 1.
Proof. intros d n Hr Hn. by apply FMT_ok. Qed.

Lemma appends_if `{Alloc} b s : appends (append_if b s) (if b then lit s else []) 0.
Proof. destruct b; [apply appends_append | apply appends_ret]. Qed.

Lemma appends_flags `{Alloc} f : appends (append_flags f) (flag_letters f) 0.
Proof.
  unfold append_flags, flag_letters.
  repeat (apply (appends_bind _ _ _ _ 0 0); [lia|lia|apply appends_if|]). apply appends_if.
Qed.

Lemma flags_eq_spec a b : msg_flags_eq a b = true <-> a = b.
Proof.
  unfold msg_flags_eq. destruct a, b; simpl.
  rewrite !andb_true_iff, !Bool.eqb_true_iff. naive_solver.
Qed.

(** The bits that differ, applied again, give the other value: how a flag
    update is computed and how it is checked to be a no-op. *)
Lemma flags_xor_update a b :
  msg_flags_xor a (msg_flags_xor a b) = b /\
  msg_flags_or (msg_flags_and a (msg_flags_not b)) b = msg_flags_or a b /\
  (msg_flags_eq a b = true <-> msg_flags_xor a b = mkFlags false false false false false).
Proof.
  destruct a as [[] [] [] [] []], b as [[] [] [] [] []]; cbn; splits; naive_solver.
Qed.
