(* ===== verification/MaildirLog.v ===== *)
(** * The imaildir log format (libimaildir/log.c)

    Keys and values of the persistent log of a mail directory: marshalling,
    parsing, and the round trips between them. *)

From S2P Require Import Prelude Dstr Fmt Cvt Msg.

Definition log_format_version : bytes := lit "1".

(** ** Keys *)

Inductive log_key_t :=
| LOG_KEY_UIDVLDS | LOG_KEY_HIMODSEQUP | LOG_KEY_MODSEQDN
| LOG_KEY_MSG (key : msg_key_t).

Definition log_key_marshal `{Alloc} (lk : log_key_t) : stm dstr unit :=
  match lk with
  | LOG_KEY_UIDVLDS => FMT "v" []
  | LOG_KEY_HIMODSEQUP => FMT "h" []
  | LOG_KEY_MODSEQDN => FMT "d" []
  | LOG_KEY_MSG k => FMT "m.%x.%x" [FU (uid_up k); FU (uid_local k)]
  end.

(** The n-th output of a split; the outputs that were not set are zeroized. *)
Definition out (ws : list bytes) (n : nat) : bytes := default [] (ws !! n).

Definition log_key_unmarshal (key : bytes) : res log_key_t :=
  match key with
  | [] => Err E_VALUE
  | c :: _ =>
      if c =? chr "v" then
        if zlen key >? 1 then Err E_VALUE else Ok LOG_KEY_UIDVLDS
      else if c =? chr "h" then
        if zlen key >? 1 then Err E_VALUE else Ok LOG_KEY_HIMODSEQUP
      else if c =? chr "d" then
        if zlen key >? 1 then Err E_VALUE else Ok LOG_KEY_MODSEQDN
      else if c =? chr "m" then
        let! ws := do_dstr_split2 key (lit ".") 3 false in
        if negb (length ws =? 3)%nat then Err E_VALUE
        else
          let! up := dstr_tou (out ws 1) 10 in
          let! local := dstr_tou (out ws 2) 10 in
          Ok (LOG_KEY_MSG (mkKey up local))
      else Err E_VALUE
  end.

(** ** UIDVALIDITY pairs *)

Definition marshal_uidvlds `{Alloc} (up dn : Z) : stm dstr unit :=
  FMT "%x:%x" [FU up; FU dn].

Definition parse_uidvlds (inp : bytes) : res (Z * Z) :=
  let! ws := do_dstr_split2 inp (lit ":") 3 true in
  if negb (length ws =? 2)%nat then Err E_PARAM
  else
    let! up := dstr_tou (out ws 0) 10 in
    let! dn := dstr_tou (out ws 1) 10 in
    Ok (up, dn).

(** ** Dates *)

Definition marshal_date `{Alloc} (t : imap_time_t) : stm dstr unit :=
  FMT "%x.%x.%x.%x.%x.%x.%x.%x"
    [FI (year t); FI (month t); FI (day t); FI (hour t); FI (min t); FI (sec t);
     FI (z_hour t); FI (z_min t)].

Definition parse_date (d : bytes) : res imap_time_t :=
  let! fields := do_dstr_split d (lit ".") 8 false in
  if negb (length fields =? 8)%nat then Err E_PARAM
  else
    let! year := dstr_toi (out fields 0) 10 in
    let! month := dstr_toi (out fields 1) 10 in
    let! day := dstr_toi (out fields 2) 10 in
    let! hour := dstr_toi (out fields 3) 10 in
    let! min := dstr_toi (out fields 4) 10 in
    let! sec := dstr_toi (out fields 5) 10 in
    let! z_hour := dstr_toi (out fields 6) 10 in
    let! z_min := dstr_toi (out fields 7) 10 in
    Ok (mkTime year month day hour min sec z_hour z_min).

(** ** Flags *)

Definition is_letter (c : Z) (lower upper : string) : bool :=
  (c =? chr lower) || (c =? chr upper).

Fixpoint parse_flags_loop (s : bytes) (temp : msg_flags_t) : res msg_flags_t :=
  match s with
  | [] => Ok temp
  | c :: s' =>
      let '(mkFlags a f se d x) := temp in
      if is_letter c "a" "A" then parse_flags_loop s' (mkFlags true f se d x)
      else if is_letter c "f" "F" then parse_flags_loop s' (mkFlags a true se d x)
      else if is_letter c "s" "S" then parse_flags_loop s' (mkFlags a f true d x)
      else if is_letter c "d" "D" then parse_flags_loop s' (mkFlags a f se true x)
      else if is_letter c "x" "X" then parse_flags_loop s' (mkFlags a f se d true)
      else Err E_PARAM
  end.

Definition no_flags : msg_flags_t := mkFlags false false false false false.
Definition parse_flags (s : bytes) : res msg_flags_t := parse_flags_loop s no_flags.

(** ** Values *)

Definition marshal_message `{Alloc} (m : msg_t) : stm dstr unit :=
  do! _ := FMT "%x:%x:%x:" [FD log_format_version; FU (m_uid_dn m); FU (modseq (m_mod m))] in
  do! statechar :=
    match m_state m with
    | MSG_UNFILLED => st_ret (lit "u")
    | MSG_FILLED => st_ret (lit "f")
    | MSG_NOT4ME => st_ret (lit "n")
    | MSG_EXPUNGED => st_fail E_INTERNAL
    end in
  do! _ := FMT "%x:" [FD statechar] in
  do! _ := append_flags (m_flags m) in
  do! _ := dstr_append_quiet (lit ":") in
  marshal_date (m_internaldate m).

Definition marshal_expunge `{Alloc} (e : msg_expunge_t) : stm dstr unit :=
  do! _ := FMT "%x:%x:%x:" [FD log_format_version; FU (e_uid_dn e); FU (modseq (e_mod e))] in
  let statechar :=
    match e_state e with
    | MSG_EXPUNGE_UNPUSHED => lit "e"
    | MSG_EXPUNGE_PUSHED => lit "x"
    end in
  FMT "%x" [FD statechar].

Definition parse_value (inp : bytes) (key : msg_key_t) : res (msg_t + msg_expunge_t) :=
  let! vs := do_dstr_split2 inp (lit ":") 2 true in
  if negb (dstr_cmp2 (out vs 0) log_format_version =? 0) then Err E_PARAM
  else
    let! ws := do_dstr_split2 (out vs 1) (lit ":") 6 true in
    let n := length ws in
    if negb (n =? 5)%nat && negb (n =? 3)%nat then Err E_PARAM
    else
      let! uid_dn := dstr_tou (out ws 0) 10 in
      let! modseq := dstr_tou64 (out ws 1) 10 in
      match out ws 2 with
      | [c] =>
          if (c =? chr "u") || (c =? chr "f") || (c =? chr "n") then
            if negb (n =? 5)%nat then Err E_VALUE
            else
              let state := if c =? chr "u" then MSG_UNFILLED
                           else if c =? chr "n" then MSG_NOT4ME
                           else MSG_FILLED in
              let! flags := parse_flags (out ws 3) in
              let! intdate := parse_date (out ws 4) in
              Ok (inl (msg_new key uid_dn state intdate flags modseq))
          else if (c =? chr "e") || (c =? chr "x") then
            if negb (n =? 3)%nat then Err E_VALUE
            else
              let state := if c =? chr "e" then MSG_EXPUNGE_UNPUSHED
                           else MSG_EXPUNGE_PUSHED in
              Ok (inr (msg_expunge_new key uid_dn state modseq))
          else Err E_VALUE
      | _ => Err E_PARAM
      end.

(** ** Texts *)

Definition key_wf (k : msg_key_t) : Prop := is_u32 (uid_up k) /\ is_u32 (uid_local k).
Definition log_key_wf (lk : log_key_t) : Prop :=
  match lk with LOG_KEY_MSG k => key_wf k | _ => True end.
Definition is_int (i : Z) : Prop := - 2 ^ 31 <= i < 2 ^ 31.
Definition time_wf (t : imap_time_t) : Prop :=
  Forall is_int [year t; month t; day t; hour t; min t; sec t; z_hour t; z_min t].

(** What the formats above render to, as joined words. *)
Definition key_words (k : msg_key_t) : list bytes :=
  [lit "m"; dec (uid_up k); dec (uid_local k)].
Definition date_words (t : imap_time_t) : list bytes :=
  map dec_signed [year t; month t; day t; hour t; min t; sec t; z_hour t; z_min t].

(** Replace [m] appends [bs] by equal texts, to be computed. *)
Lemma appends_eq `{Alloc} m a b s : a = b -> appends m a s -> appends m b s.
Proof. by intros ->. Qed.

Lemma appends_key `{Alloc} k :
  appends (log_key_marshal (LOG_KEY_MSG k)) (joinb (chr ".") (key_words k)) 1.
Proof. eapply appends_eq; [|apply appends_FMT]. render_norm. reflexivity. Qed.

Lemma appends_date `{Alloc} t :
  appends (marshal_date t) (joinb (chr ".") (date_words t)) 1.
Proof. eapply appends_eq; [|apply appends_FMT]. render_norm. reflexivity. Qed.

Lemma appends_uidvlds `{Alloc} up dn :
  appends (marshal_uidvlds up dn) (joinb (chr ":") [dec up; dec dn]) 1.
Proof. eapply appends_eq; [|apply appends_FMT]. render_norm. reflexivity. Qed.

Lemma not_digit c : (c <? 48) || (57 <? c) = true -> ~ is_digit c.
Proof. unfold is_digit. chr_norm. intros H. apply orb_true_iff in H. lia. Qed.

(** Side conditions of the splits: a separator is not a digit or a minus sign. *)
Ltac sep :=
  intros; repeat constructor; cbn;
  try (apply not_in_dec; by apply not_digit);
  try (apply not_in_dec_signed; [by apply not_digit|done]);
  try match goal with |- _ ∉ lit _ => vm_compute; set_solver end.

Lemma log_key_unmarshal_words k :
  key_wf k -> log_key_unmarshal (joinb (chr ".") (key_words k)) = Ok (LOG_KEY_MSG k).
Proof.
  intros [Hu Hl]. unfold log_key_unmarshal.
  destruct (joinb (chr ".") (key_words k)) as [|c rest] eqn:E; [by destruct k|].
  assert (c = chr "m") as -> by (by inv E).
  change (chr "m" =? chr "v") with false. change (chr "m" =? chr "h") with false.
  change (chr "m" =? chr "d") with false. change (chr "m" =? chr "m") with true.
  cbv iota. rewrite <- E.
  change (lit ".") with [chr "."].
  change (key_words k) with ([lit "m"; dec (uid_up k)] ++ [dec (uid_local k)]).
  rewrite split2_join; [|sep..|done]. cbn [length app negb Nat.eqb].
  cbn.
  unfold out. cbn. rewrite !tou_dec by done. cbn. by destruct k.
Qed.

Lemma parse_uidvlds_words up dn :
  is_u32 up -> is_u32 dn -> parse_uidvlds (joinb (chr ":") [dec up; dec dn]) = Ok (up, dn).
Proof.
  intros Hu Hd. unfold parse_uidvlds. change (lit ":") with [chr ":"].
  change [dec up; dec dn] with ([dec up] ++ [dec dn]).
  rewrite split2_join; [|sep..|simpl; lia].
  unfold out. cbn. by rewrite !tou_dec by done.
Qed.

Lemma parse_date_words t :
  time_wf t -> parse_date (joinb (chr ".") (date_words t)) = Ok t.
Proof.
  intros Ht. unfold parse_date. change (lit ".") with [chr "."].
  change (date_words t) with
    (map dec_signed [year t; month t; day t; hour t; min t; sec t; z_hour t]
       ++ [dec_signed (z_min t)]).
  rewrite split_join; [|sep..|simpl; lia].
  unfold time_wf in Ht. rewrite !Forall_cons in Ht. destruct Ht as (?&?&?&?&?&?&?&?&_).
  unfold out. cbn. rewrite !toi_dec_signed by done. cbn. by destruct t.
Qed.

Lemma parse_flags_letters f : parse_flags (flag_letters f) = Ok f.
Proof. destruct f as [[] [] [] [] []]; vm_compute; reflexivity. Qed.

Lemma not_in_letters f : chr ":" ∉ flag_letters f.
Proof. destruct f as [[] [] [] [] []]; vm_compute; set_solver. Qed.

Lemma not_in_joinb c d ws : c <> d -> Forall (fun w => c ∉ w) ws -> c ∉ joinb d ws.
Proof.
  intros Hcd Hws. induction ws as [|w ws IH]; [set_solver|].
  inv Hws. destruct ws; [done|]. rewrite joinb_cons by done. set_solver.
Qed.

Lemma not_in_date t : chr ":" ∉ joinb (chr ".") (date_words t).
Proof. apply not_in_joinb; [done|]. unfold date_words. sep. Qed.

(** The words of a value, the version first. *)
Definition value_words (dn modseq : Z) (st : bytes) (rest : list bytes) : list bytes :=
  [dec dn; dec modseq; st] ++ rest.
Definition state_letter (s : msg_state_e) : bytes :=
  match s with
  | MSG_UNFILLED => lit "u" | MSG_FILLED => lit "f"
  | MSG_NOT4ME => lit "n" | MSG_EXPUNGED => []
  end.
Definition expunge_letter (s : msg_expunge_state_e) : bytes :=
  match s with
  | MSG_EXPUNGE_UNPUSHED => lit "e" | MSG_EXPUNGE_PUSHED => lit "x"
  end.
Definition message_words (m : msg_t) : list bytes :=
  value_words (m_uid_dn m) (modseq (m_mod m)) (state_letter (m_state m))
    [flag_letters (m_flags m); joinb (chr ".") (date_words (m_internaldate m))].
Definition expunge_words (e : msg_expunge_t) : list bytes :=
  value_words (e_uid_dn e) (modseq (e_mod e)) (expunge_letter (e_state e)) [].

Definition value_text (ws : list bytes) : bytes :=
  joinb (chr ":") [log_format_version; joinb (chr ":") ws].

Lemma appends_message `{Alloc} m :
  m_state m <> MSG_EXPUNGED ->
  appends (marshal_message m) (value_text (message_words m)) 3.
Proof.
  intros Hs. unfold marshal_message.
  eapply (appends_eq _
    (render (lit "%x:%x:%x:") [FD log_format_version; FU (m_uid_dn m); FU (modseq (m_mod m))]
     ++ render (lit "%x:") [FD (state_letter (m_state m))]
     ++ flag_letters (m_flags m) ++ lit ":" ++ joinb (chr ".") (date_words (m_internaldate m)))).
  { render_norm. unfold value_text, message_words, value_words. lit_norm. chr_norm.
    cbn [joinb app]. app_norm. done. }
  destruct (m_state m); [| |done|];
    (change 3 with (1 + (2 + 0)); apply appends_bind; [lia|lia|apply appends_FMT|]);
    (eapply (appends_bind (FMT _ _) _ _ _ 1 1); [lia|lia|apply appends_FMT|]);
    (eapply (appends_bind (append_flags _) _ _ _ 0 1); [lia|lia|apply appends_flags|]);
    (eapply (appends_bind (dstr_append_quiet _) _ _ _ 0 1); [lia|lia|apply appends_append|]);
    apply appends_date.
Qed.

Lemma appends_expunge `{Alloc} e :
  appends (marshal_expunge e) (value_text (expunge_words e)) 2.
Proof.
  unfold marshal_expunge.
  eapply (appends_eq _
    (render (lit "%x:%x:%x:") [FD log_format_version; FU (e_uid_dn e); FU (modseq (e_mod e))]
     ++ render (lit "%x") [FD (expunge_letter (e_state e))])).
  { render_norm. unfold value_text, expunge_words, value_words. lit_norm. chr_norm.
    cbn [joinb app]. app_norm. done. }
  apply (appends_bind _ _ _ _ 1 1); [lia|lia|apply appends_FMT|].
  destruct (e_state e); apply appends_FMT.
Qed.

(** The version and the words after it come back. *)
Lemma value_split ws last :
  Forall (fun w => chr ":" ∉ w) (ws ++ [last]) -> (length ws + 1 <= 6)%nat ->
  do_dstr_split2 (value_text (ws ++ [last])) [chr ":"] 2 true
    = Ok [log_format_version; joinb (chr ":") (ws ++ [last])] /\
  do_dstr_split2 (joinb (chr ":") (ws ++ [last])) [chr ":"] 6 true = Ok (ws ++ [last]).
Proof.
  intros Hw Hl. apply Forall_app in Hw as [Hw Hlast]. inv Hlast. split.
  - unfold value_text.
    change [log_format_version; joinb (chr ":") (ws ++ [last])] with
      ([log_format_version] ++ [joinb (chr ":") (ws ++ [last])]).
    apply split2_join; [repeat constructor; vm_compute; set_solver| |simpl; lia]. intros [?|Hc]; [done|simpl in Hc; lia].
  - by apply split2_join.
Qed.

Definition msg_wf (m : msg_t) : Prop :=
  is_u32 (m_uid_dn m) /\ is_u64 (modseq (m_mod m)) /\ time_wf (m_internaldate m) /\
  m_state m <> MSG_EXPUNGED.
Definition expunge_wf (e : msg_expunge_t) : Prop :=
  is_u32 (e_uid_dn e) /\ is_u64 (modseq (e_mod e)).

Lemma parse_value_message m key :
  msg_wf m ->
  parse_value (value_text (message_words m)) key
    = Ok (inl (msg_new key (m_uid_dn m) (m_state m) (m_internaldate m) (m_flags m)
                 (modseq (m_mod m)))).
Proof.
  intros (Hd & Hm & Ht & Hs). unfold parse_value. change (lit ":") with [chr ":"].
  destruct (value_split
    [dec (m_uid_dn m); dec (modseq (m_mod m)); state_letter (m_state m);
     flag_letters (m_flags m)] (joinb (chr ".") (date_words (m_internaldate m))))
    as [E1 E2]; [|simpl; lia|].
  { cbn [app]. repeat apply Forall_cons_2; [sep|sep|by destruct (m_state m); vm_compute; set_solver
      | | |done]; [apply not_in_letters|apply not_in_date]. }
  change (_ ++ [joinb (chr ".") _]) with (message_words m) in E1, E2.
  rewrite E1. unfold out. cbn -[joinb message_words]. rewrite E2.
  cbn -[parse_flags parse_date flag_letters joinb date_words].
  rewrite tou_dec, tou64_dec by done. cbn -[parse_flags parse_date flag_letters joinb date_words].
  rewrite parse_flags_letters, parse_date_words by done.
  by destruct (m_state m).
Qed.

Lemma parse_value_expunge e key :
  expunge_wf e ->
  parse_value (value_text (expunge_words e)) key
    = Ok (inr (msg_expunge_new key (e_uid_dn e) (e_state e) (modseq (e_mod e)))).
Proof.
  intros (Hd & Hm). unfold parse_value. change (lit ":") with [chr ":"].
  destruct (value_split [dec (e_uid_dn e); dec (modseq (e_mod e))]
    (expunge_letter (e_state e))) as [E1 E2]; [|simpl; lia|].
  { cbn [app]. repeat apply Forall_cons_2;
      [sep|sep|by destruct (e_state e); vm_compute; set_solver|done]. }
  change (_ ++ [expunge_letter (e_state e)]) with (expunge_words e) in E1, E2.
  rewrite E1. unfold out. cbn -[joinb message_words expunge_words]. rewrite E2. cbn.
  rewrite tou_dec, tou64_dec by done. by destruct (e_state e).
Qed.

(** ** Lengths: every key and value fits in a line buffer *)

Lemma joinb_length c ws :
  ws <> [] -> zlen (joinb c ws) = foldr (fun w n => zlen w + n) 0 ws + zlen ws - 1.
Proof.
  induction ws as [|w ws IH]; [done|]. intros _. destruct ws as [|w' ws].
  - simpl. autorewrite with zlen. lia.
  - rewrite joinb_cons, zlen_app, zlen_cons, IH by done. simpl. autorewrite with zlen. lia.
Qed.

Lemma key_text_length k : key_wf k -> zlen (joinb (chr ".") (key_words k)) <= 23.
Proof.
  intros [Hu Hl]. rewrite joinb_length by done. unfold key_words. cbn -[zlen].
  pose proof (dec_length_u32 _ Hu). pose proof (dec_length_u32 _ Hl).
  autorewrite with zlen. change (zlen (lit "m")) with 1. lia.
Qed.

Lemma date_text_length t : time_wf t -> zlen (joinb (chr ".") (date_words t)) <= 95.
Proof.
  intros Ht. unfold time_wf in Ht. rewrite !Forall_cons in Ht.
  destruct Ht as (H1&H2&H3&H4&H5&H6&H7&H8&_).
  apply dec_signed_length_int in H1, H2, H3, H4, H5, H6, H7, H8.
  rewrite joinb_length by done. unfold date_words. cbn -[zlen]. autorewrite with zlen. lia.
Qed.

Lemma flag_letters_length f : zlen (flag_letters f) <= 5.
Proof. destruct f as [[] [] [] [] []]; vm_compute; discriminate. Qed.

Lemma message_text_length m : msg_wf m -> zlen (value_text (message_words m)) <= 141.
Proof.
  intros (Hd & _ & Ht & _). pose proof (date_text_length _ Ht).
  pose proof (dec_length_u32 _ Hd). pose proof (dec_length (modseq (m_mod m))).
  pose proof (flag_letters_length (m_flags m)).
  assert (zlen (state_letter (m_state m)) <= 1) by (destruct (m_state m); vm_compute; congruence).
  unfold value_text. rewrite joinb_length by done. cbn -[zlen joinb date_words]. rewrite (joinb_length (chr ":")) by done.
  cbn -[zlen joinb date_words]. autorewrite with zlen. change (zlen log_format_version) with 1. lia.
Qed.

Lemma expunge_text_length e : expunge_wf e -> zlen (value_text (expunge_words e)) <= 35.
Proof.
  intros (Hd & _). pose proof (dec_length_u32 _ Hd). pose proof (dec_length (modseq (e_mod e))).
  assert (zlen (expunge_letter (e_state e)) <= 1) by (destruct (e_state e); vm_compute; congruence).
  unfold value_text. rewrite joinb_length by done. cbn -[zlen joinb date_words]. rewrite joinb_length by done.
  cbn -[zlen joinb date_words]. autorewrite with zlen. change (zlen log_format_version) with 1. lia.
Qed.

(** ** Round trips *)

(** Every log key is written as a short text that [log_key_unmarshal] maps back to
    the same key; the UIDVALIDITY pair stored under the [v] key round-trips as well. *)
Theorem log_key_roundtrip `{Alloc} lk up dn :
  log_key_wf lk -> is_u32 up -> is_u32 dn ->
  (exists text, zlen text <= 23 /\ appends (log_key_marshal lk) text 1 /\
     log_key_unmarshal text = Ok lk) /\
  (exists text, appends (marshal_uidvlds up dn) text 1 /\ parse_uidvlds text = Ok (up, dn)).
Proof.
  intros Hk Hu Hd. split.
  - destruct lk.
    1-3: (eexists (render (lit _) []); splits; [|apply (appends_FMT _ [])|]; done).
    eexists. splits; [by apply key_text_length|apply appends_key|by apply log_key_unmarshal_words].
  - eexists. split; [apply appends_uidvlds|by apply parse_uidvlds_words].
Qed.

Lemma log_key_roundtrip_witness :
  exists text, zlen text <= 23 /\
    appends (H := fun _ => true) (log_key_marshal (H := fun _ => true) (LOG_KEY_MSG (mkKey 7 0))) text 1 /\
    log_key_unmarshal text = Ok (LOG_KEY_MSG (mkKey 7 0)).
Proof.
  refine (proj1 (log_key_roundtrip (H := fun _ => true) (LOG_KEY_MSG (mkKey 7 0)) 1 2 _ _ _));
    vm_compute; intuition congruence.
Defined.

(** C8: the value of a message that is not expunged, and of an expunge, is written as a text of
    bounded length that [parse_value] reads back field by field (the file of the message
    is not stored); an EXPUNGED message is refused with E_INTERNAL. *)
Theorem log_value_roundtrip `{Alloc} key m ex :
  msg_wf m -> expunge_wf ex ->
  (exists text, zlen text <= 141 /\ appends (marshal_message m) text 3 /\
     parse_value text key = Ok (inl (msg_new key (m_uid_dn m) (m_state m)
       (m_internaldate m) (m_flags m) (modseq (m_mod m))))) /\
  (exists text, zlen text <= 35 /\ appends (marshal_expunge ex) text 2 /\
     parse_value text key = Ok (inr (msg_expunge_new key (e_uid_dn ex) (e_state ex)
       (modseq (e_mod ex))))) /\
  (forall x d, m_state x = MSG_EXPUNGED -> room d 64 ->
     fst (marshal_message x d) = Err E_INTERNAL).
Proof.
  intros Hm He. splits.
  - eexists. splits; [by apply message_text_length| |by apply parse_value_message].
    apply appends_message. apply Hm.
  - eexists. splits; [by apply expunge_text_length|apply appends_expunge
      |by apply parse_value_expunge].
  - intros x d Hx Hr. unfold marshal_message. rewrite Hx. unfold st_bind at 1.
    destruct (FMT_ok "%x:%x:%x:" [FD log_format_version; FU (m_uid_dn x); FU (modseq (m_mod x))] d 0)
      as (d' & -> & _); [|lia|done].
    eapply room_mono; [done|]. render_norm. autorewrite with zlen.
    pose proof (dec_length (m_uid_dn x)). pose proof (dec_length (modseq (m_mod x))).
    change (zlen log_format_version) with 1. lia.
Qed.

Lemma log_value_roundtrip_witness :
  let t := mkTime 2024 2 29 23 59 60 (-7) 30 in
  let m := msg_new (KEY_UP 5) 6 MSG_FILLED t (mkFlags true false true false true) (2 ^ 40) in
  exists text, zlen text <= 141 /\
    appends (H := always) (marshal_message (H := always) m) text 3 /\
    parse_value text (KEY_UP 5) = Ok (inl m).
Proof.
  refine (proj1 (log_value_roundtrip (H := always) (KEY_UP 5)
    (msg_new (KEY_UP 5) 6 MSG_FILLED (mkTime 2024 2 29 23 59 60 (-7) 30)
       (mkFlags true false true false true) (2 ^ 40))
    (msg_expunge_new (KEY_UP 5) 6 MSG_EXPUNGE_PUSHED 9) _ _)).
  - repeat split; try done. repeat constructor; done.
  - split; done.
Defined.
