(* ===== verification/MaildirName.v ===== *)
(** * Maildir file names (libimaildir/name.c)

    [UNIQ[:INFO]] with [UNIQ = EPOCH.DELIV_ID.HOST] and
    [DELIV_ID = VER,UIDUP,UIDLOCAL,LEN]: writing a name and parsing it back. *)

From S2P Require Import Prelude Dstr Fmt Cvt Msg MaildirLog.

Definition deliv_id_ver : Z := 1.

(** ** Parsing *)

(** The outputs of the parser; a NULL pointer is [None]. *)
Record name_outs := mkOuts {
  o_epoch : option Z;
  o_key : option msg_key_t;
  o_len : option Z;
  o_host : option dstr;
  o_info : option dstr
}.

(** [if(p != NULL) *p = v;] *)
Definition set_epoch (v : Z) : stm name_outs unit := fun o =>
  (Ok tt, mkOuts ((fun _ => v) <$> o_epoch o) (o_key o) (o_len o) (o_host o) (o_info o)).
Definition set_key (v : msg_key_t) : stm name_outs unit := fun o =>
  (Ok tt, mkOuts (o_epoch o) ((fun _ => v) <$> o_key o) (o_len o) (o_host o) (o_info o)).
Definition set_len (v : Z) : stm name_outs unit := fun o =>
  (Ok tt, mkOuts (o_epoch o) (o_key o) ((fun _ => v) <$> o_len o) (o_host o) (o_info o)).
Definition copy_host `{Alloc} (b : bytes) : stm name_outs unit := fun o =>
  match o_host o with
  | None => (Ok tt, o)
  | Some d =>
      let '(r, d) := dstr_copystrn b d in
      (r, mkOuts (o_epoch o) (o_key o) (o_len o) (Some d) (o_info o))
  end.
Definition copy_info `{Alloc} (b : option bytes) : stm name_outs unit := fun o =>
  match o_info o with
  | None => (Ok tt, o)
  | Some d =>
      let '(r, d) :=
        match b with
        | Some b => dstr_copystrn b d
        | None => (Ok tt, set_data [] d)
        end in
      (r, mkOuts (o_epoch o) (o_key o) (o_len o) (o_host o) (Some d))
  end.

Definition maildir_name_parse `{Alloc} (name : bytes) : stm name_outs unit :=
  if zlen name <? 16 then st_ret tt
  else
    do! major :=
      match do_dstr_split name (lit ":") 2 false with
      | Err E_FIXEDSIZE => st_fail E_PARAM
      | r => st_lift r
      end in
    do! minor := st_lift (do_dstr_split (out major 0) (lit ".") 3 true) in
    if negb (length minor =? 3)%nat then st_fail E_PARAM
    else
      do! fields := st_lift (do_dstr_split2 (out minor 1) (lit ",") 5 true) in
      do! version := st_lift (dstr_tou (out fields 0) 10) in
      if negb (version =? deliv_id_ver) then st_fail E_INTERNAL
      else if negb (length fields =? 4)%nat then st_fail E_PARAM
      else
        do! temp_epoch := st_lift (dstr_tou64 (out minor 0) 10) in
        do! _ := set_epoch temp_epoch in
        do! up := st_lift (dstr_tou (out fields 1) 10) in
        do! local := st_lift (dstr_tou (out fields 2) 10) in
        if Bool.eqb (up =? 0) (local =? 0) then st_fail E_PARAM
        else
          do! _ := set_key (mkKey up local) in
          do! temp_len := st_lift (dstr_tosize (out fields 3) 10) in
          do! _ := set_len temp_len in
          do! _ := copy_host (out minor 2) in
          copy_info (if (length major =? 2)%nat then Some (out major 1) else None).

(** ** Writing *)

Definition maildir_name_mod_hostname `{Alloc} (host : bytes) : stm dstr unit :=
  dstr_recode host [lit "/"; lit ":"] [lit "057"; lit "072"] true.

Definition maildir_name_write `{Alloc} (epoch : Z) (key : msg_key_t) (len : Z)
  (host : bytes) (info : option bytes) : stm dstr unit :=
  do! _ := FMT "%x.%x,%x,%x,%x."
    [FU epoch; FU deliv_id_ver; FU (uid_up key); FU (uid_local key); FU len] in
  do! _ := maildir_name_mod_hostname host in
  match info with
  | Some i => if zlen i >? 0 then FMT ":%x" [FD i] else st_ret tt
  | None => st_ret tt
  end.

(** ** The modified host name *)

Definition mod_host (host : bytes) : bytes :=
  concat (map (fun c =>
    if c =? chr "/" then lit "057" else if c =? chr ":" then lit "072" else [c]) host).

Lemma mod_host_id w : chr "/" ∉ w -> chr ":" ∉ w -> mod_host w = w.
Proof.
  unfold mod_host. induction w as [|c w IH]; intros H1 H2; [done|]. simpl.
  destruct (Z.eqb_spec c (chr "/")); [set_solver|].
  destruct (Z.eqb_spec c (chr ":")); [set_solver|].
  by rewrite IH by set_solver.
Qed.

Lemma mod_host_app a b : mod_host (a ++ b) = mod_host a ++ mod_host b.
Proof. unfold mod_host. by rewrite map_app, concat_app. Qed.

(** Where the search stops: at the first slash or colon. *)
Lemma find_host inp i :
  (exists a c b, inp = a ++ c :: b /\ chr "/" ∉ a /\ chr ":" ∉ a /\
     find_loop inp [lit "/"; lit ":"] i 0 =
       (Some (i + zlen a, if c =? chr "/" then 0 else 1), 0) /\
     (c = chr "/" \/ c = chr ":")) \/
  (chr "/" ∉ inp /\ chr ":" ∉ inp /\ fst (find_loop inp [lit "/"; lit ":"] i 0) = None).
Proof.
  lit_norm. chr_norm. revert i. induction inp as [|c inp IH]; intros i.
  - right. splits; [set_solver..|done].
  - destruct (Z.eqb_spec c 47) as [->|H1]; [|destruct (Z.eqb_spec c 58) as [->|H2]].
    + left. exists [], 47, inp. splits; [done|set_solver..| |by left].
      simpl. by rewrite Z.add_0_r.
    + left. exists [], 58, inp. splits; [done|set_solver..| |by right].
      simpl. by rewrite Z.add_0_r.
    + assert (Hs : find_loop (c :: inp) [[47]; [58]] i 0 = find_loop inp [[47]; [58]] (i + 1) 0).
      { simpl. apply Z.eqb_neq in H1, H2. by rewrite H1, H2. }
      rewrite Hs. destruct (IH (i + 1)) as [(a & c' & b & -> & Ha & Hb & E & Hc)|(Ha & Hb & E)].
      * left. exists (c :: a), c', b. rewrite zlen_cons. splits; [done|set_solver..| |done].
        rewrite E. do 3 f_equal. lia.
      * right. splits; [set_solver..|done].
Qed.

Lemma appends_recode `{Alloc} f inp :
  (length inp < f)%nat ->
  appends (recode_loop f inp [lit "/"; lit ":"] [lit "057"; lit "072"]) (mod_host inp) 0.
Proof.
  revert inp. induction f as [|f IH]; intros inp Hf; [lia|].
  simpl. destruct inp as [|c0 inp0] eqn:Ei; [apply appends_ret|]. rewrite <- Ei in *.
  clear c0 inp0 Ei. unfold dstr_find.
  destruct (find_host inp 0) as [(a & c & b & -> & Ha & Hb & -> & Hc)|(Ha & Hb & E)].
  2: { rewrite E, mod_host_id by done. apply appends_append. }
  cbn [fst]. rewrite Z.add_0_l.
  set (r := if c =? chr "/" then lit "057" else lit "072").
  rewrite mod_host_app, (mod_host_id a) by done.
  assert (Hm : mod_host (c :: b) = r ++ mod_host b) by (destruct Hc as [-> | ->]; reflexivity).
  rewrite Hm. apply (appends_bind _ _ _ _ 0 0); [lia|lia| |].
  { rewrite Z.gtb_ltb. unfold zlen at 1. destruct (Z.ltb_spec 0 (Z.of_nat (length a))) as [Hl|Hl].
    - unfold zlen. rewrite Nat2Z.id, take_app_length. apply appends_append.
    - destruct a; [apply appends_ret|simpl in Hl; lia]. }
  apply (appends_bind _ _ _ _ 0 0); [lia|lia| |].
  - replace (default [] ([lit "057"; lit "072"] !! Z.to_nat (if c =? chr "/" then 0 else 1)))
      with r by (unfold r; by destruct (c =? chr "/")).
    apply appends_append.
  - replace (drop _ (a ++ c :: b)) with b.
    + apply IH. rewrite length_app in Hf. simpl in Hf. lia.
    + replace (zlen (default [] ([lit "/"; lit ":"] !! Z.to_nat (if c =? chr "/" then 0 else 1))))
        with 1 by (by destruct (c =? chr "/")).
      replace (Z.to_nat (zlen a + 1)) with (length (a ++ [c]))
        by (rewrite length_app; unfold zlen; simpl; lia).
      by rewrite <- (drop_app_length (a ++ [c]) b) at 1; rewrite <- app_assoc.
Qed.

Lemma mod_host_no c host : c = chr "/" \/ c = chr ":" -> c ∉ mod_host host.
Proof.
  intros Hc. unfold mod_host. induction host as [|x host IH]; [set_solver|]. simpl.
  rewrite not_elem_of_app. split; [|done].
  destruct (Z.eqb_spec x (chr "/")); [|destruct (Z.eqb_spec x (chr ":"))];
    destruct Hc as [-> | ->]; lit_norm; chr_norm; set_solver.
Qed.

Lemma mod_host_length host : zlen host <= zlen (mod_host host) <= 3 * zlen host.
Proof.
  unfold mod_host. induction host as [|x host IH]; [done|]. simpl.
  rewrite zlen_app, zlen_cons.
  destruct (x =? chr "/"); [|destruct (x =? chr ":")]; lit_norm; autorewrite with zlen; lia.
Qed.

(** ** The written name *)

Definition id_words (key : msg_key_t) (len : Z) : list bytes :=
  [dec deliv_id_ver; dec (uid_up key); dec (uid_local key)] ++ [dec len].
Definition uniq_text (epoch : Z) (key : msg_key_t) (len : Z) (host : bytes) : bytes :=
  joinb (chr ".") ([dec epoch; joinb (chr ",") (id_words key len)] ++ [mod_host host]).
Definition name_text epoch key len host (info : option bytes) : bytes :=
  match info with
  | Some (c :: i) => joinb (chr ":") ([uniq_text epoch key len host] ++ [c :: i])
  | _ => joinb (chr ":") ([] ++ [uniq_text epoch key len host])
  end.

Lemma appends_name `{Alloc} epoch key len host info :
  appends (maildir_name_write epoch key len host info) (name_text epoch key len host info) 2.
Proof.
  unfold maildir_name_write.
  set (i := match info with Some (c :: i) => chr ":" :: c :: i | _ => [] end).
  eapply (appends_eq _ (render (lit "%x.%x,%x,%x,%x.")
    [FU epoch; FU deliv_id_ver; FU (uid_up key); FU (uid_local key); FU len]
    ++ mod_host host ++ i)).
  { render_norm. unfold name_text, i, uniq_text, id_words. lit_norm. chr_norm.
    destruct info as [[|c info]|]; cbn [joinb app]; app_norm; done. }
  apply (appends_bind _ _ _ _ 1 1); [lia|lia|apply appends_FMT|].
  apply (appends_bind _ _ _ _ 0 1); [lia|lia|apply appends_recode; lia|].
  unfold i. destruct info as [[|c info]|].
  - intros d n Hr Hn. apply appends_ret; [|done]. eapply room_mono; [done|]. lia.
  - rewrite zlen_cons. pose proof (zlen_nonneg info).
    destruct (Z.gtb_spec (1 + zlen info) 0); [|lia].
    eapply appends_eq; [|apply appends_FMT]. by render_norm.
  - intros d n Hr Hn. apply appends_ret; [|done]. eapply room_mono; [done|]. lia.
Qed.

(** ** Parsing what was written *)

Lemma uniq_no_colon epoch key len host : chr ":" ∉ uniq_text epoch key len host.
Proof.
  unfold uniq_text. apply not_in_joinb; [done|]. cbn [app].
  repeat apply Forall_cons_2; [sep| | |done].
  - apply not_in_joinb; [done|]. unfold id_words. sep.
  - apply mod_host_no. by right.
Qed.

Lemma id_no_dot key len : chr "." ∉ joinb (chr ",") (id_words key len).
Proof. apply not_in_joinb; [done|]. unfold id_words. sep. Qed.

Lemma name_text_length epoch key len host info :
  10 ^ 9 <= epoch < 2 ^ 64 -> 16 <= zlen (name_text epoch key len host info).
Proof.
  intros He.
  assert (Hd : 10 <= zlen (dec epoch)).
  { pose proof (dec_length_lower epoch 9) as Hl. change (10 ^ Z.of_nat 9) with (10 ^ 9) in Hl. lia. }
  assert (Hu : 16 <= zlen (uniq_text epoch key len host)).
  { unfold uniq_text, id_words. rewrite joinb_length by done.
    cbn -[zlen joinb mod_host]. rewrite joinb_length by done. cbn -[zlen mod_host].
    pose proof (dec_length deliv_id_ver). pose proof (dec_length (uid_up key)).
    pose proof (dec_length (uid_local key)). pose proof (dec_length len).
    pose proof (zlen_nonneg (mod_host host)). autorewrite with zlen. lia. }
  unfold name_text. destruct info as [[|c i]|]; [done| |done].
  cbn [app]. rewrite joinb_cons, zlen_app by done.
  pose proof (zlen_nonneg (chr ":" :: joinb (chr ":") [c :: i])). lia.
Qed.

Lemma copystrn_ok `{Alloc} d b :
  room (set_data [] d) (zlen b) ->
  exists d', dstr_copystrn b d = (Ok tt, d') /\ d_data d' = b.
Proof.
  intros Hr. unfold dstr_copystrn. destruct (Z.eqb_spec (zlen b) 0) as [Hz|Hz].
  - eexists. split; [done|]. by rewrite (zlen_0_nil _ Hz).
  - unfold st_bind, dstr_grow_quiet. destruct Hr as [Hwf Hr].
    unfold dstr_wf, d_len in *. cbn [d_data d_size d_fixed set_data] in *.
    rewrite zlen_nil in *. pose proof (zlen_nonneg b).
    destruct (d_size d >=? zlen b) eqn:Hs; [by eexists|].
    rewrite Z.geb_leb in Hs. apply Z.leb_gt in Hs.
    destruct (d_fixed d); [lia|]. destruct Hr as [Hb Ha].
    destruct (grow_loop_ok grow_fuel (Z.max (d_size d) 2) (zlen b)) as (z & -> & ? & ?);
      [lia|lia| |rewrite Ha; by eexists].
    change (2 ^ Z.of_nat grow_fuel) with (2 ^ 64). lia.
Qed.

Definition name_key_wf (key : msg_key_t) : Prop :=
  key_wf key /\ (uid_up key = 0 <-> uid_local key <> 0).

(** The parts of a name, and their digits read back. *)
Lemma name_parts `{Alloc} epoch key len host info :
  chr ":" ∉ default [] info ->
  let u := uniq_text epoch key len host in
  do_dstr_split (name_text epoch key len host info) [chr ":"] 2 false
    = Ok (match info with Some (c :: i) => [u; c :: i] | _ => [u] end) /\
  do_dstr_split u [chr "."] 3 true
    = Ok [dec epoch; joinb (chr ",") (id_words key len); mod_host host] /\
  do_dstr_split2 (joinb (chr ",") (id_words key len)) [chr ","] 5 true
    = Ok (id_words key len).
Proof.
  intros Hi u. splits.
  - unfold name_text. destruct info as [[|c i]|].
    + rewrite split_join; [done|by constructor|intros _; apply uniq_no_colon|simpl; lia].
    + rewrite split_join; [done|repeat constructor; apply uniq_no_colon|done|simpl; lia].
    + rewrite split_join; [done|by constructor|intros _; apply uniq_no_colon|simpl; lia].
  - unfold u, uniq_text. rewrite split_join; [done| | |simpl; lia].
    + repeat apply Forall_cons_2; [sep|apply id_no_dot|done].
    + intros [?|Hl]; [done|simpl in Hl; lia].
  - unfold id_words. apply split2_join; [sep|sep|simpl; lia].
Qed.

(** C9: a name written for a message is parsed back into its epoch, key and length, the host name
    with its slashes and colons replaced, and the info part; requested outputs only are
    touched. [2 ^ 64 > epoch >= 10 ^ 9] is any time after September 2001. *)
Theorem maildir_name_roundtrip `{Alloc} epoch key len host info o hd id :
  10 ^ 9 <= epoch < 2 ^ 64 -> name_key_wf key -> is_u64 len -> chr ":" ∉ default [] info ->
  o_host o = Some hd -> room (set_data [] hd) (zlen (mod_host host)) ->
  o_info o = Some id -> room (set_data [] id) (zlen (default [] info)) ->
  exists text, appends (maildir_name_write epoch key len host info) text 2 /\
    exists o', maildir_name_parse text o = (Ok tt, o') /\
      o_epoch o' = (fun _ => epoch) <$> o_epoch o /\ o_key o' = (fun _ => key) <$> o_key o /\
      o_len o' = (fun _ => len) <$> o_len o /\
      d_data <$> o_host o' = Some (mod_host host) /\
      d_data <$> o_info o' = Some (default [] info).
Proof.
  intros He [[Hu Hl] Hx] Hlen Hc Hh Hrh Hi Hri.
  exists (name_text epoch key len host info). split; [apply appends_name|].
  unfold maildir_name_parse. pose proof (name_text_length epoch key len host info He).
  destruct (Z.ltb_spec (zlen (name_text epoch key len host info)) 16); [lia|].
  change (lit ":") with [chr ":"]. change (lit ".") with [chr "."].
  change (lit ",") with [chr ","].
  destruct (name_parts epoch key len host info Hc) as (-> & E2 & E3).
  unfold st_lift at 1. cbn -[uniq_text joinb id_words mod_host].
  replace (out _ 0) with (uniq_text epoch key len host) by (by destruct info as [[|c i]|]).
  rewrite E2. cbn -[uniq_text joinb id_words mod_host]. unfold out at 1.
  cbn -[uniq_text joinb id_words mod_host]. rewrite E3.
  unfold st_bind, st_lift, out. cbn -[uniq_text joinb mod_host].
  rewrite !tou_dec, tou64_dec by (done || (unfold is_u64; lia)).
  cbn -[uniq_text joinb mod_host].
  destruct (Bool.eqb (uid_up key =? 0) (uid_local key =? 0)) eqn:Ek.
  { apply eqb_prop in Ek. destruct (Z.eqb_spec (uid_up key) 0), (Z.eqb_spec (uid_local key) 0); naive_solver. }
  change dstr_tosize with dstr_tou64. rewrite tou64_dec by done.
  unfold copy_host. cbn. rewrite Hh.
  destruct (copystrn_ok hd _ Hrh) as (hd' & -> & Eh). unfold copy_info. cbn. rewrite Hi.
  destruct (copystrn_ok id _ Hri) as (id' & Ec & Ei).
  assert (Hk : mkKey (uid_up key) (uid_local key) = key) by (by destruct key). rewrite Hk.
  destruct info as [[|c i]|]; cbn.
  - eexists. splits; [done|done|done|done|cbn; by rewrite Eh|done].
  - cbn in Ec. rewrite Ec. eexists. splits; [done|done|done|done|cbn; by rewrite Eh|cbn; by rewrite Ei].
  - eexists. splits; [done|done|done|done|cbn; by rewrite Eh|done].
Qed.

Lemma maildir_name_roundtrip_witness :
  exists text,
    appends (H := always) (maildir_name_write (H := always) 1700000000 (KEY_UP 522) 3
      (lit "my.computer/a:b") (Some (lit "2,S"))) text 2 /\
    exists o', maildir_name_parse (H := always) text
        (mkOuts (Some 0) (Some (KEY_UP 0)) (Some 0) (Some (mkD [] 64 true)) (Some (mkD [] 8 true)))
        = (Ok tt, o') /\
      o_epoch o' = Some 1700000000 /\ o_key o' = Some (KEY_UP 522) /\ o_len o' = Some 3 /\
      d_data <$> o_host o' = Some (lit "my.computer057a072b") /\
      d_data <$> o_info o' = Some (lit "2,S").
Proof.
  refine (maildir_name_roundtrip (H := always) 1700000000 (KEY_UP 522) 3
    (lit "my.computer/a:b") (Some (lit "2,S"))
    (mkOuts (Some 0) (Some (KEY_UP 0)) (Some 0) (Some (mkD [] 64 true)) (Some (mkD [] 8 true)))
    (mkD [] 64 true) (mkD [] 8 true) _ _ _ _ eq_refl _ eq_refl _).
  - lia.
  - vm_compute. intuition congruence.
  - vm_compute. intuition congruence.
  - vm_compute. set_solver.
  - vm_compute. intuition congruence.
  - vm_compute. intuition congruence.
Defined.

Lemma tou_range b v : dstr_tou b 10 = Ok v -> is_u32 v.
Proof.
  intros H. apply to_unsigned_spec in H; [|unfold UINT32_MAX, UINTMAX_MAX, UINT64_MAX; lia].
  destruct H as [Hn Hv]. apply number_value_nonneg in Hn. unfold is_u32, UINT32_MAX in *. lia.
Qed.

Lemma copy_keeps_key `{Alloc} h i o r o1 o2 :
  copy_host h o = (Ok r, o1) -> copy_info i o1 = (Ok r, o2) -> o_key o2 = o_key o.
Proof.
  unfold copy_host, copy_info. intros H1 H2.
  destruct (o_host o); [destruct (dstr_copystrn h d)|]; simplify_eq;
    (destruct (o_info _) eqn:?; [destruct (match i with Some _ => _ | _ => _ end)|]); by simplify_eq.
Qed.

(** When the parser succeeds, either the name was shorter than 16 bytes and no output was
    written at all, or the key reported names a message: exactly one of its two uids is set
    and both are 32-bit. *)
Theorem maildir_name_parse_key `{Alloc} name o o' k :
  o_key o = Some k -> maildir_name_parse name o = (Ok tt, o') ->
  (zlen name < 16 /\ o' = o) \/
  (16 <= zlen name /\ exists key, o_key o' = Some key /\ name_key_wf key).
Proof.
  intros Hk. unfold maildir_name_parse. destruct (Z.ltb_spec (zlen name) 16) as [Hn|Hn].
  { intros [= <-]. by left. }
  intros Hp. right. split; [lia|].
  st_step Hp. assert (s = o) as ->
    by (repeat case_match; unfold st_lift, st_fail in *; by simplify_eq).
  st_step Hp. destruct (negb _) in Hp; [discriminate|].
  st_step Hp. st_step Hp. do 2 (destruct (negb _) in Hp; [discriminate|]).
  st_step Hp. apply st_bind_ok in Hp as ([] & s2 & [= <-] & Hp).
  apply st_bind_ok in Hp as (up & s3 & Hup & Hp). apply st_lift_ok in Hup as [Hup ->].
  apply st_bind_ok in Hp as (lo & s3 & Hlo & Hp). apply st_lift_ok in Hlo as [Hlo ->].
  destruct (Bool.eqb (up =? 0) (lo =? 0)) eqn:Hx; [discriminate|].
  apply st_bind_ok in Hp as ([] & s3 & [= <-] & Hp).
  st_step Hp. apply st_bind_ok in Hp as ([] & s4 & [= <-] & Hp).
  apply st_bind_ok in Hp as ([] & s5 & Hch & Hp).
  exists (mkKey up lo). split.
  - rewrite (copy_keeps_key _ _ _ _ _ _ Hch Hp). cbn. by rewrite Hk.
  - apply tou_range in Hup, Hlo. split; [by split|]. cbn.
    apply eqb_false_iff in Hx. revert Hx.
    destruct (Z.eqb_spec up 0), (Z.eqb_spec lo 0); naive_solver.
Qed.

Lemma maildir_name_parse_key_witness :
  (zlen (lit "short") < 16 /\
     mkOuts None (Some (KEY_UP 0)) None None None = mkOuts None (Some (KEY_UP 0)) None None None) \/
  (16 <= zlen (lit "short") /\ exists key, Some (KEY_UP 0) = Some key /\ name_key_wf key).
Proof.
  exact (maildir_name_parse_key (H := always) (lit "short")
    (mkOuts None (Some (KEY_UP 0)) None None None) (mkOuts None (Some (KEY_UP 0)) None None None)
    (KEY_UP 0) eq_refl eq_refl).
Defined.
