(* ===== verification/Link.v ===== *)
(** * Circular linked lists (libdstr/link.c)

    The memory of [link_t] nodes is a finite map from addresses; every operation
    is the sequence of loads and stores of the source. [ring] says which
    sequence of links hangs on a head. *)

From S2P Require Import Prelude.

(** ** Memory *)

Abbreviation addr := Z.
Definition NULL : addr := 0.

Record link_t := mkLink { l_prev : addr; l_next : addr }.
Abbreviation store := (gmap addr link_t).

(** A load through a pointer that is not a [link_t] is out of bounds. *)
Definition ld_prev (a : addr) : stm store addr := fun m =>
  match m !! a with Some l => (Ok (l_prev l), m) | None => (Stop OutOfBounds, m) end.
Definition ld_next (a : addr) : stm store addr := fun m =>
  match m !! a with Some l => (Ok (l_next l), m) | None => (Stop OutOfBounds, m) end.
Definition st_prev (a v : addr) : stm store unit := fun m =>
  match m !! a with
  | Some l => (Ok tt, <[a := mkLink v (l_next l)]> m)
  | None => (Stop OutOfBounds, m)
  end.
Definition st_next (a v : addr) : stm store unit := fun m =>
  match m !! a with
  | Some l => (Ok tt, <[a := mkLink (l_prev l) v]> m)
  | None => (Stop OutOfBounds, m)
  end.
Definition st_stop {S A} (x : stop) : stm S A := fun s => (Stop x, s).

(** ** Operations *)

Definition link_init (l : addr) : stm store unit :=
  do! _ := st_prev l l in st_next l l.

(** [if(!head->next) link_init(head);] *)
Definition init_if_zero (head : addr) : stm store unit :=
  do! n := ld_next head in
  if n =? NULL then link_init head else st_ret tt.

(** [if(link->next && link->next != link) LOG_FATAL(...)] *)
Definition check_unlinked (link : addr) : stm store unit :=
  do! n := ld_next link in
  if negb (n =? NULL) && negb (n =? link) then st_stop Fatal else st_ret tt.

Definition link_list_prepend (head link : addr) : stm store unit :=
  do! _ := init_if_zero head in
  do! _ := check_unlinked link in
  do! old_next := ld_next head in
  do! _ := st_next head link in
  do! _ := st_prev old_next link in
  do! _ := st_prev link head in
  st_next link old_next.

Definition link_list_append (head link : addr) : stm store unit :=
  do! _ := init_if_zero head in
  do! _ := check_unlinked link in
  do! old_prev := ld_prev head in
  do! _ := st_next old_prev link in
  do! _ := st_prev head link in
  do! _ := st_prev link old_prev in
  st_next link head.

Definition link_list_isempty (head : addr) : stm store bool :=
  do! n := ld_next head in st_ret ((head =? n) || (n =? NULL)).

Definition link_list_append_list (recip donor : addr) : stm store unit :=
  do! _ := init_if_zero recip in
  do! _ := init_if_zero donor in
  do! empty := link_list_isempty donor in
  if empty then st_ret tt
  else
    do! _ := init_if_zero recip in
    do! _ := init_if_zero donor in
    do! donor_first := ld_next donor in
    do! donor_last := ld_prev donor in
    do! p := ld_prev recip in
    do! _ := st_next p donor_first in
    do! p := ld_prev recip in
    do! _ := st_prev donor_first p in
    do! _ := st_prev recip donor_last in
    do! _ := st_next donor_last recip in
    link_init donor.

Definition link_list_prepend_list (recip donor : addr) : stm store unit :=
  do! _ := init_if_zero recip in
  do! _ := init_if_zero donor in
  do! empty := link_list_isempty donor in
  if empty then st_ret tt
  else
    do! donor_first := ld_next donor in
    do! donor_last := ld_prev donor in
    do! n := ld_next recip in
    do! _ := st_prev n donor_last in
    do! n := ld_next recip in
    do! _ := st_next donor_last n in
    do! _ := st_next recip donor_first in
    do! _ := st_prev donor_first recip in
    link_init donor.

Definition link_remove (link : addr) : stm store unit :=
  do! n := ld_next link in
  if n =? NULL then st_ret tt
  else
    do! p := ld_prev link in
    do! _ := st_prev n p in
    do! p := ld_prev link in
    do! n := ld_next link in
    do! _ := st_next p n in
    do! _ := st_next link link in
    st_prev link link.

(** The link taken off, NULL if there is none. *)
Definition link_list_pop_first (head : addr) : stm store addr :=
  do! first := ld_next head in
  if first =? NULL then st_ret NULL
  else if first =? head then st_ret NULL
  else do! _ := link_remove first in st_ret first.

Definition link_list_pop_last (head : addr) : stm store addr :=
  do! n := ld_next head in
  if n =? NULL then st_ret NULL
  else
    do! last := ld_prev head in
    if last =? head then st_ret NULL
    else do! _ := link_remove last in st_ret last.

(** [link_list_pop_first_n] and [link_list_pop_last_n]. The outputs are distinct
    variables; [done] holds the heads already popped with what was popped from
    them, the last one first, which is the order they are put back in. *)
Fixpoint put_back (put : addr -> addr -> stm store unit) (done : list (addr * addr))
  : stm store unit :=
  match done with
  | [] => st_ret tt
  | (head, link) :: rest => do! _ := put head link in put_back put rest
  end.

Fixpoint pop_n (pop : addr -> stm store addr) (put : addr -> addr -> stm store unit)
  (heads : list addr) (done : list (addr * addr)) : stm store (option (list addr)) :=
  match heads with
  | [] => st_ret (Some (rev (map snd done)))
  | head :: rest =>
      do! link := pop head in
      if link =? NULL then do! _ := put_back put done in st_ret None
      else pop_n pop put rest ((head, link) :: done)
  end.

Definition link_list_pop_first_n (heads : list addr) : stm store (option (list addr)) :=
  pop_n link_list_pop_first link_list_prepend heads [].
Definition link_list_pop_last_n (heads : list addr) : stm store (option (list addr)) :=
  pop_n link_list_pop_last link_list_append heads [].

Fixpoint count_links (fuel : nat) (head ptr : addr) (count : Z) : stm store Z :=
  match fuel with
  | O => st_stop OutOfFuel
  | S f =>
      if ptr =? head then st_ret count
      else do! n := ld_next ptr in count_links f head n (count + 1)
  end.

(** A list visits each link of the memory at most once. *)
Definition link_list_count (head : addr) : stm store Z := fun m =>
  (do! ptr := ld_next head in
   if ptr =? NULL then st_ret 0 else count_links (S (size m)) head ptr 0) m.

(** ** What a memory holds *)

Definition nxt (m : store) (a : addr) : option addr := l_next <$> m !! a.
Definition prv (m : store) (a : addr) : option addr := l_prev <$> m !! a.

Definition edge (m : store) (a b : addr) : Prop := nxt m a = Some b /\ prv m b = Some a.

(** Consecutive nodes point at each other. *)
Fixpoint chain (m : store) (c : list addr) : Prop :=
  match c with
  | a :: ((b :: _) as r) => edge m a b /\ chain m r
  | _ => True
  end.

(** The links [l], in this order, hang on the initialised head [h]. *)
Definition ring (m : store) (h : addr) (l : list addr) : Prop :=
  chain m (h :: l ++ [h]) /\ NoDup (h :: l) /\ NULL ∉ h :: l.

(** A zeroized head is an empty list. *)
Definition list_at (m : store) (h : addr) (l : list addr) : Prop :=
  ring m h l \/ (l = [] /\ h <> NULL /\ m !! h = Some (mkLink NULL NULL)).

(** A link in no list: zeroized, or pointing at itself. *)
Definition unlinked (m : store) (x : addr) : Prop :=
  x <> NULL /\ (m !! x = Some (mkLink NULL NULL) \/ m !! x = Some (mkLink x x)).

(** The memory outside [s] is untouched. *)
Definition same_outside (s : list addr) (m m' : store) : Prop :=
  forall a, a ∉ s -> m' !! a = m !! a.

(** *** Stores *)

Definition sets_next (a v : addr) (m m' : store) : Prop :=
  (forall b, nxt m' b = if decide (b = a) then Some v else nxt m b) /\
  (forall b, prv m' b = prv m b) /\ same_outside [a] m m'.
Definition sets_prev (a v : addr) (m m' : store) : Prop :=
  (forall b, prv m' b = if decide (b = a) then Some v else prv m b) /\
  (forall b, nxt m' b = nxt m b) /\ same_outside [a] m m'.

Lemma nxt_prv_dom m a v : nxt m a = Some v -> exists w, prv m a = Some w.
Proof. unfold nxt, prv. destruct (m !! a); simpl; [eauto|done]. Qed.
Lemma prv_nxt_dom m a v : prv m a = Some v -> exists w, nxt m a = Some w.
Proof. unfold nxt, prv. destruct (m !! a); simpl; [eauto|done]. Qed.

Lemma run_next {B} a v (k : unit -> stm store B) m (Q : res B * store -> Prop) :
  nxt m a <> None -> (forall m', sets_next a v m m' -> Q (k tt m')) ->
  Q (st_bind (st_next a v) k m).
Proof.
  unfold nxt, st_bind, st_next. destruct (m !! a) as [l|] eqn:E; [|done]. intros _ HQ.
  apply HQ. unfold sets_next, nxt, prv, same_outside. splits; intros b.
  - destruct (decide (b = a)) as [->|]; [by rewrite lookup_insert_eq|by rewrite lookup_insert_ne].
  - destruct (decide (b = a)) as [->|]; [by rewrite lookup_insert_eq, E|by rewrite lookup_insert_ne].
  - intros Hb. rewrite lookup_insert_ne; [done|set_solver].
Qed.

Lemma run_prev {B} a v (k : unit -> stm store B) m (Q : res B * store -> Prop) :
  prv m a <> None -> (forall m', sets_prev a v m m' -> Q (k tt m')) ->
  Q (st_bind (st_prev a v) k m).
Proof.
  unfold prv, st_bind, st_prev. destruct (m !! a) as [l|] eqn:E; [|done]. intros _ HQ.
  apply HQ. unfold sets_prev, nxt, prv, same_outside. splits; intros b.
  - destruct (decide (b = a)) as [->|]; [by rewrite lookup_insert_eq|by rewrite lookup_insert_ne].
  - destruct (decide (b = a)) as [->|]; [by rewrite lookup_insert_eq, E|by rewrite lookup_insert_ne].
  - intros Hb. rewrite lookup_insert_ne; [done|set_solver].
Qed.

Lemma run_ld_next {B} a (k : addr -> stm store B) m w :
  nxt m a = Some w -> st_bind (ld_next a) k m = k w m.
Proof.
  unfold nxt, st_bind, ld_next. destruct (m !! a); simpl; [|done]. by intros [= ->].
Qed.
Lemma run_ld_prev {B} a (k : addr -> stm store B) m w :
  prv m a = Some w -> st_bind (ld_prev a) k m = k w m.
Proof.
  unfold prv, st_bind, ld_prev. destruct (m !! a); simpl; [|done]. by intros [= ->].
Qed.
Lemma run_last (f : stm store unit) m (Q : res unit * store -> Prop) :
  Q (st_bind f st_ret m) -> Q (f m).
Proof. unfold st_bind, st_ret. by destruct (f m) as [[[]| |] ?]. Qed.

(** *** Chains *)

Lemma chain_cons m a b r : chain m (a :: b :: r) <-> edge m a b /\ chain m (b :: r).
Proof. done. Qed.

Lemma chain_app m p x q : chain m (p ++ x :: q) <-> chain m (p ++ [x]) /\ chain m (x :: q).
Proof.
  induction p as [|a p IH]; simpl; [tauto|].
  destruct p as [|b p]; simpl in *; [|rewrite IH]; tauto.
Qed.

Lemma chain_frame m m' c :
  (forall a p x q, c = p ++ a :: x :: q -> nxt m' a = nxt m a) ->
  (forall a p x q, c = p ++ x :: a :: q -> prv m' a = prv m a) ->
  chain m c -> chain m' c.
Proof.
  induction c as [|a c IH]; [done|]. destruct c as [|b c]; [done|].
  intros Hn Hp [[E1 E2] Hc]. split; [split|].
  - by rewrite (Hn a [] b c).
  - by rewrite (Hp b [] a c).
  - apply IH; [| |done].
    + intros x p y q Ex. apply (Hn x (a :: p) y q). by rewrite Ex.
    + intros x p y q Ex. apply (Hp x (a :: p) y q). by rewrite Ex.
Qed.

Lemma chain_frame_path m m' c f z :
  NoDup c -> head c = Some f -> last c = Some z ->
  (forall a, a ∈ c -> a <> z -> nxt m' a = nxt m a) ->
  (forall a, a ∈ c -> a <> f -> prv m' a = prv m a) ->
  chain m c -> chain m' c.
Proof.
  intros Hnd Hf Hz Hn Hp. apply chain_frame; intros a p x q ->.
  - apply Hn; [set_solver|]. intros ->.
    rewrite last_app_cons, last_cons_cons in Hz. apply last_Some_elem_of in Hz.
    apply NoDup_app in Hnd as (_ & _ & Hnd). inv Hnd. done.
  - apply Hp; [set_solver|]. intros ->. destruct p as [|y p]; simpl in *; simplify_eq.
    + inv Hnd. set_solver.
    + inv Hnd. set_solver.
Qed.

(** The node before the links [l] of head [h], and the one after them. *)
Definition before (h : addr) (l1 : list addr) : addr := default h (last l1).
Definition after (h : addr) (l2 : list addr) : addr := default h (head l2).

Lemma before_split h l1 : exists q, h :: l1 = q ++ [before h l1].
Proof.
  unfold before. destruct l1 as [|x l1 _] using rev_ind; [by exists []|].
  exists (h :: l1). by rewrite last_snoc.
Qed.
Lemma after_split h l2 : exists q, l2 ++ [h] = after h l2 :: q.
Proof. destruct l2; simpl; eauto. Qed.

Lemma chain_parts m h l1 B l2 :
  chain m (h :: (l1 ++ B ++ l2) ++ [h]) <->
  chain m (h :: l1) /\ chain m (before h l1 :: B ++ [after h l2]) /\ chain m (l2 ++ [h]).
Proof.
  destruct (before_split h l1) as [q1 E1]. destruct (after_split h l2) as [q2 E2].
  assert (E : h :: (l1 ++ B ++ l2) ++ [h] = (h :: l1) ++ B ++ (l2 ++ [h])) by (by app_norm).
  rewrite E, E1, E2, <- app_assoc. cbn [app].
  rewrite chain_app, <- E1, app_comm_cons, chain_app. done.
Qed.

(** Replace the segment [A] of a ring by [B]: only the outgoing pointer of the
    node before it and the incoming pointer of the node after it may change. *)
Lemma ring_replace m m' h l1 A B l2 :
  ring m h (l1 ++ A ++ l2) ->
  chain m' (before h l1 :: B ++ [after h l2]) ->
  NoDup B -> (forall x, x ∈ B -> x ∉ h :: l1 ++ l2 /\ x <> NULL) ->
  (forall a, a ∈ h :: l1 ++ l2 -> a <> before h l1 -> nxt m' a = nxt m a) ->
  (forall a, a ∈ h :: l1 ++ l2 -> a <> after h l2 -> prv m' a = prv m a) ->
  ring m' h (l1 ++ B ++ l2).
Proof.
  intros (Hc & Hnd & H0) HB HndB Hdis Hn Hp. apply chain_parts in Hc as (C1 & _ & C2).
  assert (N1 : NoDup (h :: l1 ++ l2)).
  { eapply sublist_NoDup; [exact Hnd|]. apply sublist_skip, sublist_app; [done|]. by apply sublist_inserts_l. }
  unfold ring. splits.
  - apply chain_parts. splits; [|done|].
    + eapply (chain_frame_path m m' _ h (before h l1)); [|done| | | |done].
      * inv N1. apply NoDup_app in H3. constructor; [set_solver|tauto].
      * destruct (before_split h l1) as [q ->]. by rewrite last_snoc.
      * intros a Ha. apply Hn. set_solver.
      * intros a Ha Hah. apply Hp; [set_solver|]. intros ->. unfold after in *.
        inv N1. apply NoDup_app in H3 as (_ & Hd & _).
        destruct l2 as [|y l2]; simpl in *; [done|]. set_solver.
    + eapply (chain_frame_path m m' _ (after h l2) h); [| | | | |done].
      * inv N1. apply NoDup_app in H3 as (_ & _ & ?). apply NoDup_app.
        splits; [done|set_solver|apply NoDup_singleton].
      * destruct (after_split h l2) as [q ->]. done.
      * by rewrite last_snoc.
      * intros a Ha Hah. apply Hn; [set_solver|]. intros ->. unfold before in *.
        inv N1. apply NoDup_app in H3 as (_ & Hd & _).
        destruct (last l1) eqn:El; simpl in *; [|done].
        apply last_Some_elem_of in El. set_solver.
      * intros a Ha. apply Hp. set_solver.
  - inv N1. apply NoDup_app in H3 as (? & Hd & ?). constructor.
    + intros Hin. set_solver.
    + apply NoDup_app. splits; [done|set_solver|]. apply NoDup_app. splits; [done|set_solver|done].
  - set_solver.
Qed.

(** *** Running operations *)

Lemma ring_edge m h l1 l2 : ring m h (l1 ++ l2) -> edge m (before h l1) (after h l2).
Proof. intros (Hc & _). apply (chain_parts m h l1 [] l2) in Hc as (_ & [He _] & _). done. Qed.

Lemma same_outside_sub s t m m' : same_outside s m m' -> s ⊆ t -> same_outside t m m'.
Proof. intros H Hs a Ha. apply H. set_solver. Qed.
Lemma same_outside_trans s m1 m2 m3 :
  same_outside s m1 m2 -> same_outside s m2 m3 -> same_outside s m1 m3.
Proof. intros H1 H2 a Ha. by rewrite H2, H1. Qed.
Lemma same_outside_refl s m : same_outside s m m.
Proof. by intros a _. Qed.

Lemma same_outside_nxt s m m' a : same_outside s m m' -> a ∉ s -> nxt m' a = nxt m a.
Proof. unfold nxt. intros H Ha. by rewrite H. Qed.
Lemma same_outside_prv s m m' a : same_outside s m m' -> a ∉ s -> prv m' a = prv m a.
Proof. unfold prv. intros H Ha. by rewrite H. Qed.

(** A ring whose nodes are untouched stays a ring. *)
Lemma ring_same s m m' h l :
  ring m h l -> same_outside s m m' -> (forall a, a ∈ h :: l -> a ∉ s) -> ring m' h l.
Proof.
  intros (Hc & Hr) Hs Hd. split; [|done]. revert Hc.
  apply chain_frame; intros a p x q E;
    [apply (same_outside_nxt s)|apply (same_outside_prv s)]; try done; apply Hd;
    assert (a ∈ h :: l ++ [h]) by (rewrite E; set_solver); set_solver.
Qed.

(** Reading a field after stores: unfold what each store did. *)
Ltac mem_facts :=
  repeat match goal with
  | H : sets_next _ _ _ _ |- _ => destruct H as (? & ? & ?)
  | H : sets_prev _ _ _ _ |- _ => destruct H as (? & ? & ?)
  end.
Ltac mem_read :=
  repeat match goal with
  | H : forall b, nxt ?m b = _ |- context [nxt ?m _] => rewrite H
  | H : forall b, prv ?m b = _ |- context [prv ?m _] => rewrite H
  | |- context [decide (?a = ?b)] => destruct (decide (a = b))
  end.
Ltac mem_ok := mem_facts; mem_read; congruence.
(** The fields the stores did not touch. *)
Ltac mem_frame := let a := fresh "a" in intros a ? ?; mem_facts; mem_read; set_solver.
Ltac mem_same :=
  mem_facts;
  repeat (eapply same_outside_trans; [|eapply same_outside_sub; [eassumption|set_solver]]);
  first [apply same_outside_refl | eapply same_outside_sub; [eassumption|set_solver]].

Lemma link_init_run {B} l m (k : unit -> stm store B) (Q : res B * store -> Prop) v :
  nxt m l = Some v ->
  (forall m', nxt m' l = Some l -> prv m' l = Some l -> same_outside [l] m m' -> Q (k tt m')) ->
  Q (st_bind (link_init l) k m).
Proof.
  intros Hv HQ. unfold link_init.
  assert (E : st_bind (do! _ := st_prev l l in st_next l l) k m
    = st_bind (st_prev l l) (fun _ => st_bind (st_next l l) k) m).
  { unfold st_bind. by destruct (st_prev l l m) as [[]]. }
  rewrite E. destruct (nxt_prv_dom _ _ _ Hv) as [w Hw].
  apply run_prev; [congruence|]. intros m1 H1.
  apply run_next; [mem_facts; mem_read; congruence|]. intros m2 H2.
  apply HQ; [| |mem_same]; mem_facts; mem_read; congruence.
Qed.

Lemma link_init_ok m l v :
  nxt m l = Some v ->
  exists m', link_init l m = (Ok tt, m') /\ nxt m' l = Some l /\ prv m' l = Some l /\
    same_outside [l] m m'.
Proof.
  intros Hv. apply (run_last (link_init l) m (fun r => exists m', r = _ /\ _)).
  eapply link_init_run; [done|]. intros m' H1 H2 H3. by exists m'.
Qed.

Lemma lookup_nxt m a l : m !! a = Some l -> nxt m a = Some (l_next l).
Proof. unfold nxt. by intros ->. Qed.
Lemma lookup_prv m a l : m !! a = Some l -> prv m a = Some (l_prev l).
Proof. unfold prv. by intros ->. Qed.

Lemma ring_nil m h : h <> NULL -> nxt m h = Some h -> prv m h = Some h -> ring m h [].
Proof.
  intros H0 Hn Hp. unfold ring. splits; [done|apply NoDup_singleton|set_solver].
Qed.

Lemma init_ok {B} m h l (k : unit -> stm store B) (Q : res B * store -> Prop) :
  list_at m h l ->
  (forall m', ring m' h l -> same_outside [h] m m' -> Q (k tt m')) ->
  Q (st_bind (init_if_zero h) k m).
Proof.
  intros Hl HQ. unfold init_if_zero.
  assert (E : forall f : addr -> stm store unit,
    st_bind (st_bind (ld_next h) f) k m = st_bind (ld_next h) (fun a => st_bind (f a) k) m).
  { intros f. unfold st_bind. by destruct (ld_next h m) as [[]]. }
  rewrite E. destruct Hl as [Hr|(-> & H0 & Hz)].
  - pose proof (ring_edge m h [] l Hr) as [En _]. rewrite (run_ld_next _ _ _ _ En).
    destruct (Z.eqb_spec (after h l) NULL) as [Ez|_].
    { destruct Hr as (_ & _ & H0). exfalso. apply H0. rewrite <- Ez. unfold after.
      destruct l; set_solver. }
    apply HQ; [done|apply same_outside_refl].
  - pose proof (lookup_nxt _ _ _ Hz) as En. rewrite (run_ld_next _ _ _ _ En). cbn.
    eapply link_init_run; [done|]. intros m' H1 H2 H3. apply HQ; [|done]. by apply ring_nil.
Qed.

Lemma check_ok {B} m x (k : unit -> stm store B) :
  unlinked m x -> st_bind (check_unlinked x) k m = k tt m.
Proof.
  intros [H0 Hx]. unfold check_unlinked, st_bind, ld_next.
  destruct Hx as [-> | ->]; cbn; [done|]. rewrite Z.eqb_refl. by rewrite andb_false_r.
Qed.

Lemma unlinked_same s m m' x : unlinked m x -> same_outside s m m' -> x ∉ s -> unlinked m' x.
Proof. unfold unlinked. intros [? Hx] Hs Hn. by rewrite (Hs x). Qed.

Lemma unlinked_dom m x : unlinked m x -> exists v w, nxt m x = Some v /\ prv m x = Some w.
Proof. unfold nxt, prv. intros [_ [-> | ->]]; cbn; eauto. Qed.

(** The goal as a predicate of the outcome of the code that is left to run. *)
Ltac as_post :=
  match goal with |- context [st_bind ?f ?k ?m] => pattern (st_bind f k m) end.

(** One store, in a memory where its target is known to be a link. *)
Ltac mem_step m' :=
  as_post; first [apply run_next | apply run_prev]; [mem_ok|]; intros m' ?.
Ltac mem_last m' :=
  match goal with
  | |- context [st_next ?a ?v ?m] => pattern (st_next a v m); apply run_last, run_next
  | |- context [st_prev ?a ?v ?m] => pattern (st_prev a v m); apply run_last, run_prev
  end; [mem_ok|]; intros m' ?.

(** *** The operations on rings *)

Lemma append_link_ok m h l x :
  list_at m h l -> unlinked m x -> x ∉ h :: l ->
  exists m', link_list_append h x m = (Ok tt, m') /\ ring m' h (l ++ [x]) /\
    same_outside (h :: x :: l) m m'.
Proof.
  intros Hl Hx Hnx. unfold link_list_append.
  apply (init_ok _ _ _ _ (fun r => exists m', r = _ /\ _) Hl). intros m1 Hr Hs.
  assert (Hx1 : unlinked m1 x) by (eapply unlinked_same; [done..|set_solver]).
  rewrite check_ok by done.
  pose proof (ring_edge m1 h l [] ltac:(by rewrite app_nil_r)) as [Ez Eh].
  change (after h []) with h in *. rewrite (run_ld_prev _ _ _ _ Eh).
  destruct (unlinked_dom _ _ Hx1) as (v & w & Hv & Hw).
  assert (Hz : before h l ∈ h :: l) by (destruct (before_split h l) as [q ->]; set_solver).
  mem_step m2. mem_step m3. mem_step m4. mem_last m5.
  exists m5. split; [done|]. split; [|mem_same].
  pose proof (ring_replace m1 m5 h l [] [x] []) as Hrep. rewrite !app_nil_r in Hrep.
  apply Hrep; clear Hrep; [done| |apply NoDup_singleton| | |].
  - cbn. unfold edge. mem_facts. splits; try done; mem_read; set_solver.
  - destruct Hx1. set_solver.
  - mem_frame.
  - mem_frame.
Qed.

Lemma prepend_link_ok m h l x :
  list_at m h l -> unlinked m x -> x ∉ h :: l ->
  exists m', link_list_prepend h x m = (Ok tt, m') /\ ring m' h (x :: l) /\
    same_outside (h :: x :: l) m m'.
Proof.
  intros Hl Hx Hnx. unfold link_list_prepend.
  apply (init_ok _ _ _ _ (fun r => exists m', r = _ /\ _) Hl). intros m1 Hr Hs.
  assert (Hx1 : unlinked m1 x) by (eapply unlinked_same; [done..|set_solver]).
  rewrite check_ok by done.
  pose proof (ring_edge m1 h [] l Hr) as [Eh Ez]. change (before h []) with h in *.
  rewrite (run_ld_next _ _ _ _ Eh).
  destruct (unlinked_dom _ _ Hx1) as (v & w & Hv & Hw).
  assert (Hz : after h l ∈ h :: l) by (unfold after; destruct l; set_solver).
  mem_step m2. mem_step m3. mem_step m4. mem_last m5.
  exists m5. split; [done|]. split; [|mem_same].
  apply (ring_replace m1 m5 h [] [] [x] l); [done| |apply NoDup_singleton| | |].
  - change (before h []) with h. cbn. unfold edge. mem_facts. splits; try done; mem_read; set_solver.
  - destruct Hx1. set_solver.
  - mem_frame.
  - mem_frame.
Qed.

Lemma remove_link_ok m h l1 x l2 :
  ring m h (l1 ++ x :: l2) ->
  exists m', link_remove x m = (Ok tt, m') /\ ring m' h (l1 ++ l2) /\ unlinked m' x /\
    same_outside (h :: l1 ++ x :: l2) m m'.
Proof.
  intros Hr. unfold link_remove.
  pose proof (ring_edge m h l1 (x :: l2) Hr) as [Ep Exp].
  pose proof (ring_edge m h (l1 ++ [x]) l2 ltac:(by rewrite <- app_assoc)) as [Exn En].
  change (after h (x :: l2)) with x in *.
  replace (before h (l1 ++ [x])) with x in * by (unfold before; by rewrite last_snoc).
  destruct Hr as (Hc & Hnd & H0).
  assert (Hp : before h l1 ∈ h :: l1) by (destruct (before_split h l1) as [q ->]; set_solver).
  assert (Hn : after h l2 ∈ h :: l2) by (unfold after; destruct l2; set_solver).
  assert (Hx : x <> NULL /\ x ∉ h :: l1 /\ x ∉ h :: l2).
  { inv Hnd. apply NoDup_app in H3 as (_ & Hd & H3). inv H3. set_solver. }
  destruct Hx as (Hx0 & Hx1 & Hx2).
  rewrite (run_ld_next _ _ _ _ Exn).
  destruct (Z.eqb_spec (after h l2) NULL) as [En0|_]; [exfalso; apply H0; rewrite <- En0; set_solver|].
  rewrite (run_ld_prev _ _ _ _ Exp). mem_step m1.
  assert (Ex1 : prv m1 x = Some (before h l1)) by (mem_facts; mem_read; set_solver).
  assert (Ex2 : nxt m1 x = Some (after h l2)) by (mem_facts; mem_read; set_solver).
  rewrite (run_ld_prev _ _ _ _ Ex1), (run_ld_next _ _ _ _ Ex2).
  mem_step m2. mem_step m3. mem_last m4.
  exists m4. split; [done|]. splits; [|split; [done|right]|mem_same].
  - apply (ring_replace m m4 h l1 [x] [] l2); [done| |apply NoDup_nil_2|set_solver| |].
    + cbn. unfold edge. mem_facts. splits; try done; mem_read; set_solver.
    + mem_frame.
    + mem_frame.
  - assert (E1 : nxt m4 x = Some x) by (mem_facts; mem_read; set_solver).
    assert (E2 : prv m4 x = Some x) by (mem_facts; mem_read; set_solver).
    unfold nxt, prv in E1, E2. destruct (m4 !! x) as [[p n']|]; [|done]. cbn in *. congruence.
Qed.

Lemma chain_wrap m z k h :
  k <> [] ->
  chain m (z :: k ++ [h]) <-> edge m z (after h k) /\ chain m k /\ edge m (before z k) h.
Proof.
  intros Hk. destruct k as [|f k]; [done|]. clear Hk.
  change (after h (f :: k)) with f. destruct (before_split z (f :: k)) as [q E].
  destruct q as [|z' q]; [done|]. injection E as <- E.
  change (z :: (f :: k) ++ [h]) with (z :: f :: k ++ [h]). rewrite chain_cons.
  change (f :: k ++ [h]) with ((f :: k) ++ [h]). rewrite E at 1.
  rewrite <- app_assoc. cbn [app]. rewrite chain_app, <- E. cbn [chain]. tauto.
Qed.

Lemma after_in h k : k <> [] -> after h k ∈ k.
Proof. destruct k; [done|]. intros _. cbn. set_solver. Qed.
Lemma before_in h k : k <> [] -> before h k ∈ k.
Proof.
  intros Hk. unfold before. destruct (last k) eqn:E; [by apply last_Some_elem_of|].
  by apply last_None in E.
Qed.
Lemma before_indep h h' k : k <> [] -> before h k = before h' k.
Proof. unfold before. destruct (last k) eqn:E; [done|]. by apply last_None in E. Qed.

Lemma isempty_ok {B} m h l (k : bool -> stm store B) :
  ring m h l -> st_bind (link_list_isempty h) k m = k (bool_decide (l = [])) m.
Proof.
  intros Hr. pose proof (ring_edge m h [] l Hr) as [En _]. change (before h []) with h in En.
  destruct Hr as (_ & Hnd & H0).
  unfold link_list_isempty, st_bind, ld_next, st_ret. unfold nxt in En.
  destruct (m !! h); [|done]. injection En as ->. f_equal.
  destruct l as [|x l].
  - cbn. by rewrite Z.eqb_refl.
  - change (after h (x :: l)) with x. rewrite bool_decide_eq_false_2 by done.
    destruct (Z.eqb_spec h x); [inv Hnd; set_solver|]. destruct (Z.eqb_spec x NULL); set_solver.
Qed.

(** The donor's links as a path, once its head is initialised. *)
Lemma donor_path m d k :
  ring m d k -> k <> [] ->
  edge m d (after d k) /\ chain m k /\ edge m (before d k) d /\ NoDup k /\ NULL ∉ k /\ d ∉ k.
Proof.
  intros (Hc & Hnd & H0) Hk. apply chain_wrap in Hc; [|done]. inv Hnd. set_solver.
Qed.

Lemma append_list_ok m r l d k :
  list_at m r l -> list_at m d k -> (forall a, a ∈ r :: l -> a ∉ d :: k) ->
  exists m', link_list_append_list r d m = (Ok tt, m') /\
    ring m' r (l ++ k) /\ ring m' d [] /\ same_outside (r :: d :: l ++ k) m m'.
Proof.
  intros Hl Hk Hdis. unfold link_list_append_list.
  apply (init_ok _ _ _ _ (fun r => exists m', r = _ /\ _) Hl). intros m1 Hr1 Hs1.
  assert (Hk1 : list_at m1 d k).
  { destruct Hk as [Hk|(-> & H0 & Hz)]; [left; eapply ring_same; [done..|set_solver]|].
    right. split; [done|]. split; [done|]. rewrite (Hs1 d); set_solver. }
  as_post. apply (init_ok _ _ _ _ _ Hk1). intros m2 Hd2 Hs2.
  assert (Hr2 : ring m2 r l) by (eapply ring_same; [done..|set_solver]).
  rewrite (isempty_ok _ _ _ _ Hd2). case_bool_decide as Ek.
  { subst k. exists m2. rewrite app_nil_r. splits; [done..|]. mem_same. }
  as_post. apply (init_ok _ _ _ _ _ (or_introl Hr2)). intros m3 Hr3 Hs3.
  assert (Hd3 : ring m3 d k) by (eapply ring_same; [done..|set_solver]).
  as_post. apply (init_ok _ _ _ _ _ (or_introl Hd3)). intros m4 Hd4 Hs4.
  assert (Hr4 : ring m4 r l) by (eapply ring_same; [done..|set_solver]).
  clear Hr1 Hk1 Hd2 Hr2 Hr3 Hd3.
  destruct (donor_path _ _ _ Hd4 Ek) as ([En Ef] & Hck & [Ey Ep] & Hnd & H0k & Hdk).
  rewrite (run_ld_next _ _ _ _ En), (run_ld_prev _ _ _ _ Ep).
  pose proof (ring_edge m4 r l [] ltac:(by rewrite app_nil_r)) as [Ez Er].
  change (after r []) with r in *. rewrite (run_ld_prev _ _ _ _ Er).
  assert (Hz : before r l ∈ r :: l) by (destruct (before_split r l) as [q ->]; set_solver).
  pose proof (after_in d k Ek) as Hf. pose proof (before_in d k Ek) as Hy.
  assert (Hrk : forall a, a ∈ k -> a ∉ r :: l /\ a <> NULL) by set_solver.
  destruct (Hrk _ Hf) as [Hf1 _]. destruct (Hrk _ Hy) as [Hy1 _].
  assert (Hd1 : d ∉ r :: l) by set_solver. clear Hdis.
  assert (r <> d /\ before r l <> d /\ after d k <> d /\ before d k <> d /\ after d k <> r /\
    before d k <> r /\ before r l <> after d k /\ before r l <> before d k)
    as (N1 & N2 & N3 & N4 & N5 & N6 & N7 & N8).
  { splits; intros E; rewrite ?E in *; set_solver. }
  mem_step m5.
  assert (Er5 : prv m5 r = Some (before r l)) by mem_ok.
  rewrite (run_ld_prev _ _ _ _ Er5). mem_step m6. mem_step m7. mem_step m8.
  destruct (link_init_ok m8 d (after d k)) as (m9 & -> & M9 & P9 & S9); [mem_ok|].
  exists m9. split; [done|]. splits; [|apply ring_nil; [|done..]|].
  - assert (Hr8 : ring m8 r (l ++ k)).
    { pose proof (ring_replace m4 m8 r l [] k []) as Hrep. rewrite !app_nil_r in Hrep.
      change (after r []) with r in Hrep.
      apply Hrep; clear Hrep; [done| |done|done| |].
      - apply chain_wrap; [done|]. rewrite (before_indep (before r l) d k) by done.
        replace (after r k) with (after d k) by (by destruct k). unfold edge.
        splits; [mem_ok|mem_ok| |mem_ok|mem_ok].
        eapply (chain_frame_path m4 m8 k (after d k) (before d k)); [done| | | | |done].
        + by destruct k.
        + unfold before. destruct (last k) eqn:E; [done|by apply last_None in E].
        + intros a Ha Hne. assert (a <> before r l) by (intros ->; by destruct (Hrk _ Ha)). mem_ok.
        + intros a Ha Hne. assert (a <> r) by (intros ->; destruct (Hrk _ Ha); set_solver). mem_ok.
      - intros a Ha Hne. assert (a <> before d k) by (intros ->; done). mem_ok.
      - intros a Ha Hne. assert (a <> after d k) by (intros ->; done). mem_ok. }
    eapply ring_same; [done..|]. intros a Ha ->%list_elem_of_singleton. set_solver.
  - destruct Hd4 as (_ & _ & ?). set_solver.
  - clear -H H0 H1 H2 S9 Hs1 Hs2 Hs3 Hs4 Hz Hf Hy. mem_same.
Qed.

Lemma prepend_list_ok m r l d k :
  list_at m r l -> list_at m d k -> (forall a, a ∈ r :: l -> a ∉ d :: k) ->
  exists m', link_list_prepend_list r d m = (Ok tt, m') /\
    ring m' r (k ++ l) /\ ring m' d [] /\ same_outside (r :: d :: l ++ k) m m'.
Proof.
  intros Hl Hk Hdis. unfold link_list_prepend_list.
  apply (init_ok _ _ _ _ (fun r => exists m', r = _ /\ _) Hl). intros m1 Hr1 Hs1.
  assert (Hk1 : list_at m1 d k).
  { destruct Hk as [Hk|(-> & H0 & Hz)]; [left; eapply ring_same; [done..|set_solver]|].
    right. split; [done|]. split; [done|]. rewrite (Hs1 d); set_solver. }
  as_post. apply (init_ok _ _ _ _ _ Hk1). intros m4 Hd4 Hs4.
  assert (Hr4 : ring m4 r l) by (eapply ring_same; [done..|set_solver]).
  rewrite (isempty_ok _ _ _ _ Hd4). case_bool_decide as Ek.
  { subst k. exists m4. splits; [done..|]. mem_same. }
  clear Hr1 Hk1.
  destruct (donor_path _ _ _ Hd4 Ek) as ([En Ef] & Hck & [Ey Ep] & Hnd & H0k & Hdk).
  rewrite (run_ld_next _ _ _ _ En), (run_ld_prev _ _ _ _ Ep).
  pose proof (ring_edge m4 r [] l Hr4) as [Er Ez]. change (before r []) with r in *.
  rewrite (run_ld_next _ _ _ _ Er).
  assert (Hz : after r l ∈ r :: l) by (unfold after; destruct l; set_solver).
  pose proof (after_in d k Ek) as Hf. pose proof (before_in d k Ek) as Hy.
  assert (Hrk : forall a, a ∈ k -> a ∉ r :: l /\ a <> NULL) by set_solver.
  destruct (Hrk _ Hf) as [Hf1 _]. destruct (Hrk _ Hy) as [Hy1 _].
  assert (Hd1 : d ∉ r :: l) by set_solver. clear Hdis.
  assert (r <> d /\ after r l <> d /\ after d k <> d /\ before d k <> d /\ after d k <> r /\
    before d k <> r /\ after r l <> after d k /\ after r l <> before d k)
    as (N1 & N2 & N3 & N4 & N5 & N6 & N7 & N8).
  { splits; intros E; rewrite ?E in *; set_solver. }
  mem_step m5.
  assert (Er5 : nxt m5 r = Some (after r l)) by mem_ok.
  rewrite (run_ld_next _ _ _ _ Er5). mem_step m6. mem_step m7. mem_step m8.
  destruct (link_init_ok m8 d (after d k)) as (m9 & -> & M9 & P9 & S9); [mem_ok|].
  exists m9. split; [done|]. splits; [|apply ring_nil; [|done..]|].
  - assert (Hr8 : ring m8 r (k ++ l)).
    { apply (ring_replace m4 m8 r [] [] k l); [done| |done|done| |].
      - change (before r []) with r. apply chain_wrap; [done|].
        rewrite (before_indep r d k) by done.
        replace (after (after r l) k) with (after d k) by (by destruct k). unfold edge.
        splits; [mem_ok|mem_ok| |mem_ok|mem_ok].
        eapply (chain_frame_path m4 m8 k (after d k) (before d k)); [done| | | | |done].
        + by destruct k.
        + unfold before. destruct (last k) eqn:E; [done|by apply last_None in E].
        + intros a Ha Hne. assert (a <> r) by (intros ->; destruct (Hrk _ Ha); set_solver). mem_ok.
        + intros a Ha Hne. assert (a <> after r l) by (intros ->; by destruct (Hrk _ Ha)). mem_ok.
      - change (before r []) with r. intros a Ha Hne.
        assert (a <> before d k) by (intros ->; done). mem_ok.
      - intros a Ha Hne. assert (a <> after d k) by (intros ->; done). mem_ok. }
    eapply ring_same; [done..|]. intros a Ha ->%list_elem_of_singleton. set_solver.
  - destruct Hd4 as (_ & _ & ?). set_solver.
  - clear -H H0 H1 H2 S9 Hs1 Hs4 Hz Hf Hy. mem_same.
Qed.

Lemma pop_first_ok m h x l :
  ring m h (x :: l) ->
  exists m', link_list_pop_first h m = (Ok x, m') /\ ring m' h l /\ unlinked m' x /\
    same_outside (h :: x :: l) m m'.
Proof.
  intros Hr. pose proof (ring_edge m h [] (x :: l) Hr) as [En _].
  change (before h []) with h in En. change (after h (x :: l)) with x in En.
  unfold link_list_pop_first. rewrite (run_ld_next _ _ _ _ En).
  destruct (remove_link_ok m h [] x l Hr) as (m' & E & Hr' & Hu & Hs).
  destruct Hr as (_ & Hnd & H0).
  destruct (Z.eqb_spec x NULL); [set_solver|]. destruct (Z.eqb_spec x h); [inv Hnd; set_solver|].
  exists m'. unfold st_bind. rewrite E. done.
Qed.

Lemma pop_last_ok m h x l :
  ring m h (l ++ [x]) ->
  exists m', link_list_pop_last h m = (Ok x, m') /\ ring m' h l /\ unlinked m' x /\
    same_outside (h :: x :: l) m m'.
Proof.
  intros Hr. pose proof (ring_edge m h [] (l ++ [x]) Hr) as [En _].
  pose proof (ring_edge m h (l ++ [x]) [] ltac:(by rewrite app_nil_r)) as [_ Ep].
  change (before h []) with h in En. change (after h []) with h in Ep.
  replace (before h (l ++ [x])) with x in Ep by (unfold before; by rewrite last_snoc).
  unfold link_list_pop_last. rewrite (run_ld_next _ _ _ _ En).
  destruct (remove_link_ok m h l x [] Hr) as (m' & E & Hr' & Hu & Hs).
  destruct Hr as (_ & Hnd & H0).
  assert (after h (l ++ [x]) <> NULL).
  { intros En0. apply H0. rewrite <- En0. unfold after. destruct l; set_solver. }
  destruct (Z.eqb_spec (after h (l ++ [x])) NULL); [done|].
  rewrite (run_ld_prev _ _ _ _ Ep).
  destruct (Z.eqb_spec x h); [inv Hnd; set_solver|].
  exists m'. unfold st_bind. rewrite E. rewrite app_nil_r in Hr'. splits; [done..|].
  eapply same_outside_sub; [done|]. set_solver.
Qed.

Lemma pop_empty_ok m h :
  list_at m h [] ->
  link_list_pop_first h m = (Ok NULL, m) /\ link_list_pop_last h m = (Ok NULL, m).
Proof.
  unfold link_list_pop_first, link_list_pop_last. intros [Hr|(_ & H0 & Hz)].
  - destruct (ring_edge m h [] [] Hr) as [En Ep].
    change (before h []) with h in *. change (after h []) with h in *.
    rewrite !(run_ld_next _ _ _ _ En). destruct (h =? NULL); [done|].
    by rewrite (run_ld_prev _ _ _ _ Ep), Z.eqb_refl.
  - by rewrite !(run_ld_next _ _ _ _ (lookup_nxt _ _ _ Hz)).
Qed.

Lemma count_ok m h l :
  list_at m h l -> link_list_count h m = (Ok (zlen l), m).
Proof.
  intros [Hr|(-> & H0 & Hz)]; unfold link_list_count; cycle 1.
  { by rewrite (run_ld_next _ _ _ _ (lookup_nxt _ _ _ Hz)). }
  pose proof (ring_edge m h [] l Hr) as [En _]. change (before h []) with h in En.
  rewrite (run_ld_next _ _ _ _ En).
  assert (Hsz : (length l < size m)%nat).
  { destruct Hr as (Hc & Hnd & _). rewrite <- size_dom.
    assert (Hsub : list_to_set (h :: l) ⊆ dom m).
    { intros a Ha. apply elem_of_list_to_set in Ha. apply elem_of_dom.
      apply list_elem_of_split in Ha as (p & q & Epq).
      assert (Hca : chain m (p ++ a :: q ++ [h])) by (by rewrite app_comm_cons, app_assoc, <- Epq).
      apply chain_app in Hca as [_ Hca].
      destruct (q ++ [h]) as [|b r] eqn:Eq; [by destruct q|]. destruct Hca as [[Ha _] _].
      unfold nxt in Ha. by destruct (m !! a). }
    apply subseteq_size in Hsub. rewrite size_list_to_set in Hsub by done. simpl in Hsub. lia. }
  destruct Hr as (Hc & Hnd & H0). destruct (Z.eqb_spec (after h l) NULL) as [En0|_].
  { exfalso. apply H0. rewrite <- En0. unfold after. destruct l; set_solver. }
  change (zlen l) with (0 + zlen l) at 1. generalize 0 as c.
  assert (Hh : h ∉ l) by (by inv Hnd).
  assert (Hfuel : (length l < S (size m))%nat) by lia. clear Hsz En.
  assert (Hc' : chain m (l ++ [h])) by (destruct l; [done|by destruct Hc]).
  revert l Hfuel Hh Hc' H0 Hnd Hc.
  generalize (S (size m)) as f. intros f l Hf Hh Hc' _ _ _. revert l Hf Hh Hc'.
  induction f as [|f IH]; intros l Hf Hh Hc c; [lia|]. destruct l as [|x l].
  - change (after h []) with h. cbn. by rewrite Z.eqb_refl, Z.add_0_r.
  - change (after h (x :: l)) with x. cbn [count_links].
    destruct (Z.eqb_spec x h); [set_solver|].
    assert (En : nxt m x = Some (after h l)) by (destruct l; by destruct Hc as [[? _] _]).
    rewrite (run_ld_next _ _ _ _ En), IH.
    + rewrite zlen_cons. do 2 f_equal. lia.
    + simpl in Hf. lia.
    + set_solver.
    + destruct l; [done|by destruct Hc].
Qed.

(** ** A memory of disjoint lists *)

(** Every head of [L] carries its list, and no link is in two of them. *)
Definition lists_at (m : store) (L : gmap addr (list addr)) : Prop :=
  (forall h l, L !! h = Some l -> list_at m h l) /\
  (forall h1 l1 h2 l2 a, L !! h1 = Some l1 -> L !! h2 = Some l2 ->
     a ∈ h1 :: l1 -> a ∈ h2 :: l2 -> h1 = h2).

(** [x] is a link in none of the lists. *)
Definition spare (m : store) (L : gmap addr (list addr)) (x : addr) : Prop :=
  unlinked m x /\ forall h l, L !! h = Some l -> x ∉ h :: l.

(** A list is changed and the rest of the memory stays: the other lists stay. *)
Lemma lists_update m m' L h l l' s :
  lists_at m L -> L !! h = Some l -> ring m' h l' -> same_outside (h :: s) m m' ->
  (forall a, a ∈ l' ++ s -> a ∈ l \/ forall h2 l2, L !! h2 = Some l2 -> a ∉ h2 :: l2) ->
  lists_at m' (<[h := l']> L).
Proof.
  intros [Hat Hdis] Hh Hr Hs Hnew. split.
  - intros h2 l2. destruct (decide (h2 = h)) as [->|Hne].
    { rewrite lookup_insert_eq. intros [= <-]. by left. }
    rewrite lookup_insert_ne by done. intros H2.
    assert (Hout : forall a, a ∈ h2 :: l2 -> a ∉ h :: s).
    { intros a Ha [->|Has]%elem_of_cons.
      - by rewrite (Hdis h2 l2 h l h) in Hne by set_solver.
      - destruct (Hnew a) as [Hal|Hno]; [set_solver| |by apply (Hno h2 l2)].
        apply Hne. apply (Hdis h2 l2 h l a); set_solver. }
    destruct (Hat h2 l2 H2) as [Hr2|(-> & H0 & Hz)].
    + left. by eapply ring_same.
    + right. split; [done|]. split; [done|]. rewrite (Hs h2); [done|]. apply Hout. set_solver.
  - assert (Hother : forall h2 l2 a, h2 <> h -> L !! h2 = Some l2 -> a ∈ h2 :: l2 -> a ∉ h :: l').
    { intros h2 l2 a Hne H2 Ha Hin.
      assert (Hal : a ∈ h :: l).
      { apply elem_of_cons in Hin as [->|Hin]; [set_solver|].
        destruct (Hnew a) as [?|Hno]; [set_solver|set_solver|]. by destruct (Hno h2 l2). }
      by rewrite (Hdis h2 l2 h l a) in Hne. }
    intros h1 l1 h2 l2 a H1 H2 Ha1 Ha2.
    destruct (decide (h1 = h)) as [->|N1], (decide (h2 = h)) as [->|N2]; [done| | |].
    + rewrite lookup_insert_eq in H1. rewrite lookup_insert_ne in H2 by done.
      injection H1 as <-. by destruct (Hother h2 l2 a).
    + rewrite lookup_insert_ne in H1 by done. rewrite lookup_insert_eq in H2.
      injection H2 as <-. by destruct (Hother h1 l1 a).
    + rewrite !lookup_insert_ne in H1, H2 by done. by apply (Hdis h1 l1 h2 l2 a).
Qed.

(** One end of a list: how a link is taken off and put back there. *)
Record list_end := mkEnd {
  take_end : list addr -> option (addr * list addr);
  give_end : addr -> list addr -> list addr;
  pop_end : addr -> stm store addr;
  put_end : addr -> addr -> stm store unit
}.

Record end_laws (e : list_end) : Prop := {
  end_take : forall l, match take_end e l with
                       | Some (x, l') => l = give_end e x l'
                       | None => l = []
                       end;
  end_perm : forall x l, give_end e x l ≡ₚ x :: l;
  end_pop : forall m h x l, ring m h (give_end e x l) ->
    exists m', pop_end e h m = (Ok x, m') /\ ring m' h l /\ unlinked m' x /\
      same_outside (h :: x :: l) m m';
  end_pop_empty : forall m h, list_at m h [] -> pop_end e h m = (Ok NULL, m);
  end_put : forall m h l x, list_at m h l -> unlinked m x -> x ∉ h :: l ->
    exists m', put_end e h x m = (Ok tt, m') /\ ring m' h (give_end e x l) /\
      same_outside (h :: x :: l) m m'
}.

Definition first_end : list_end :=
  mkEnd (fun l => match l with [] => None | x :: l' => Some (x, l') end) cons
    link_list_pop_first link_list_prepend.
Definition last_end : list_end :=
  mkEnd (fun l => match rev l with [] => None | x :: l' => Some (x, rev l') end)
    (fun x l => l ++ [x]) link_list_pop_last link_list_append.

Lemma first_end_laws : end_laws first_end.
Proof.
  split; cbn.
  - by intros [|x l].
  - done.
  - intros. by apply pop_first_ok.
  - intros. by apply pop_empty_ok.
  - intros. by apply prepend_link_ok.
Qed.

Lemma last_end_laws : end_laws last_end.
Proof.
  split; cbn.
  - intros l. destruct (rev l) as [|x k] eqn:E; apply (f_equal (@rev addr)) in E; rewrite rev_involutive in E;
      by subst.
  - intros x l. by rewrite <- Permutation_cons_append.
  - intros. by apply pop_last_ok.
  - intros. by apply pop_empty_ok.
  - intros. by apply append_link_ok.
Qed.

Section pop_n.
Context (e : list_end) (Hlaws : end_laws e).

Lemma end_give a x l : a ∈ give_end e x l <-> a = x \/ a ∈ l.
Proof. rewrite (end_perm e Hlaws). set_solver. Qed.

(** One pop and one put, at the level of the lists. *)
Lemma lists_pop m L h l x l' :
  lists_at m L -> L !! h = Some l -> take_end e l = Some (x, l') ->
  exists m', pop_end e h m = (Ok x, m') /\ lists_at m' (<[h := l']> L) /\
    spare m' (<[h := l']> L) x /\ same_outside (h :: x :: l') m m' /\
    l = give_end e x l'.
Proof.
  intros HL Hh Ht. pose proof (end_take e Hlaws l) as El. rewrite Ht in El.
  assert (Hin : x ∈ l) by (rewrite El; apply end_give; auto).
  assert (Hr : ring m h (give_end e x l')).
  { rewrite <- El. destruct HL as [Hat _]. destruct (Hat h l Hh) as [?|(-> & _)]; [done|set_solver]. }
  destruct (end_pop e Hlaws _ _ _ _ Hr) as (m' & E & Hr' & Hu & Hs).
  exists m'. splits; [done| |split; [done|]|done|done].
  - eapply (lists_update m m' L h l l' (x :: l')); [done..|].
    intros a Ha. left. rewrite El. apply end_give. set_solver.
  - intros h2 l2 H2 Hx. destruct (decide (h2 = h)) as [->|Hne].
    + rewrite lookup_insert_eq in H2. injection H2 as <-. destruct Hr as (_ & Hnd & _).
      rewrite (end_perm e Hlaws) in Hnd. rewrite !NoDup_cons in Hnd. set_solver.
    + rewrite lookup_insert_ne in H2 by done. apply Hne. destruct HL as [_ Hdis].
      eapply (Hdis h2 l2 h l x); [done..|]. set_solver.
Qed.

Lemma lists_put m L h l x :
  lists_at m L -> L !! h = Some l -> spare m L x ->
  exists m', put_end e h x m = (Ok tt, m') /\ lists_at m' (<[h := give_end e x l]> L) /\
    same_outside (h :: x :: l) m m'.
Proof.
  intros HL Hh [Hu Hn]. pose proof HL as [Hat _].
  destruct (end_put e Hlaws m h l x) as (m' & E & Hr & Hs); [by apply Hat|done|by apply Hn|].
  exists m'. splits; [done| |done].
  eapply (lists_update m m' L h l _ (x :: l)); [done..|].
  intros a Ha. rewrite elem_of_app, end_give in Ha.
  destruct (decide (a = x)) as [->|]; [right; apply Hn|left; set_solver].
Qed.

(** The specification: one link from each list in turn, or nothing at all. *)
Fixpoint take_n (L : gmap addr (list addr)) (heads : list addr)
  : option (list addr * gmap addr (list addr)) :=
  match heads with
  | [] => Some ([], L)
  | h :: rest =>
      l ← L !! h; '(x, l') ← take_end e l;
      '(xs, L') ← take_n (<[h := l']> L) rest; Some (x :: xs, L')
  end.

(** Giving back what was taken. *)
Fixpoint undo (L : gmap addr (list addr)) (taken : list (addr * addr)) : gmap addr (list addr) :=
  match taken with
  | [] => L
  | (h, x) :: rest => undo (<[h := give_end e x (default [] (L !! h))]> L) rest
  end.

Definition taken_ok (m : store) (L : gmap addr (list addr)) (taken : list (addr * addr)) : Prop :=
  NoDup (map snd taken) /\
  Forall (fun '(h, x) => spare m L x /\ is_Some (L !! h)) taken.

Lemma spare_same m m' L L' h l l' x s :
  spare m L x -> L !! h = Some l -> L' = <[h := l']> L -> same_outside (h :: s) m m' ->
  x ∉ l' -> x ∉ s -> spare m' L' x.
Proof.
  intros [Hu Hn] Hh -> Hs Hl' Hx. split.
  - eapply unlinked_same; [done..|]. pose proof (Hn h l Hh). set_solver.
  - intros h2 l2. destruct (decide (h2 = h)) as [->|Hne].
    + rewrite lookup_insert_eq. intros [= <-]. pose proof (Hn h l Hh). set_solver.
    + rewrite lookup_insert_ne by done. apply Hn.
Qed.

Lemma put_back_ok m L taken :
  lists_at m L -> taken_ok m L taken ->
  exists m', put_back (put_end e) taken m = (Ok tt, m') /\ lists_at m' (undo L taken).
Proof.
  revert m L. induction taken as [|[h x] taken IH]; intros m L HL [Hnd Hall]; simpl.
  { exists m. done. }
  cbn in Hnd. apply NoDup_cons in Hnd as [Hnx Hnd].
  apply Forall_cons in Hall as [[Hx [l Hl]] Hall]. rewrite Hl. simpl.
  destruct (lists_put m L h l x HL Hl Hx) as (m1 & E & HL1 & Hs).
  unfold st_bind. rewrite E. apply IH; [done|]. split; [done|].
  apply Forall_forall. intros [h2 x2] Hin. rewrite Forall_forall in Hall.
  destruct (Hall _ Hin) as [Hx2 [l2 Hl2]].
  assert (x2 <> x).
  { intros ->. apply Hnx. apply list_elem_of_fmap. by exists (h2, x). }
  assert (x2 ∉ l) by (destruct Hx2 as [_ Hn]; specialize (Hn h l Hl); set_solver).
  split.
  - eapply (spare_same m m1 L _ h l); [done..| |set_solver]. rewrite end_give. naive_solver.
  - destruct (decide (h2 = h)) as [->|]; [by rewrite lookup_insert_eq|by rewrite lookup_insert_ne].
Qed.

Lemma pop_n_ok m L heads done_ :
  lists_at m L -> (forall h, h ∈ heads -> is_Some (L !! h)) -> taken_ok m L done_ ->
  exists m' r, pop_n (pop_end e) (put_end e) heads done_ m = (Ok r, m') /\
    match take_n L heads with
    | None => r = None /\ lists_at m' (undo L done_)
    | Some (xs, L') => r = Some (rev (map snd done_) ++ xs) /\ lists_at m' L'
    end.
Proof.
  revert m L done_. induction heads as [|h heads IH]; intros m L dn HL Hdom Hdn.
  { exists m, (Some (rev (map snd dn))). cbn. by rewrite app_nil_r. }
  cbn [pop_n take_n]. destruct (Hdom h) as [l Hl]; [set_solver|]. rewrite Hl. cbn.
  pose proof (end_take e Hlaws l) as Ht. destruct (take_end e l) as [[x l']|] eqn:Et; cbn.
  - destruct (lists_pop m L h l x l' HL Hl Et) as (m1 & E & HL1 & Hsp & Hs & Hg).
    unfold st_bind at 1. rewrite E.
    destruct (Z.eqb_spec x NULL) as [Ez|_]; [by destruct Hsp as [[? _] _]|].
    destruct Hdn as [Hnd Hall]. rewrite Forall_forall in Hall.
    assert (Hxd : forall h2 x2, (h2, x2) ∈ dn -> x2 ∉ l).
    { intros h2 x2 Hin. destruct (Hall _ Hin) as [[_ Hn] _]. specialize (Hn h l Hl). set_solver. }
    assert (Hxl : x ∈ l) by (rewrite Hg; apply end_give; auto).
    assert (Hu : undo (<[h := l']> L) ((h, x) :: dn) = undo L dn).
    { simpl. rewrite lookup_insert_eq. simpl. rewrite insert_insert_eq, <- Hg.
      by rewrite insert_id. }
    destruct (IH m1 (<[h := l']> L) ((h, x) :: dn) HL1) as (m2 & r & E2 & Hr).
    + intros h2 Hin. destruct (decide (h2 = h)) as [->|].
      * by rewrite lookup_insert_eq.
      * rewrite lookup_insert_ne by done. apply Hdom. set_solver.
    + split.
      * cbn. apply NoDup_cons. split; [|done]. intros [[h2 x2] [-> Hin]]%list_elem_of_fmap.
        by apply (Hxd h2 x2).
      * apply Forall_cons. split; [split; [done|by rewrite lookup_insert_eq]|].
        apply Forall_forall. intros [h2 x2] Hin. destruct (Hall _ Hin) as [Hsp2 Hd2].
        pose proof (Hxd _ _ Hin) as Hn2. split.
        -- eapply (spare_same m m1 L _ h l l' x2 (x :: l')); [done..| |].
           ++ intros Hin'. apply Hn2. rewrite Hg. apply end_give. auto.
           ++ intros Hin'. apply Hn2. rewrite Hg. apply end_give. set_solver.
        -- destruct (decide (h2 = h)) as [->|];
             [by rewrite lookup_insert_eq|by rewrite lookup_insert_ne].
    + exists m2, r. split; [done|]. destruct (take_n _ heads) as [[xs L']|]; cbn.
      * destruct Hr as [-> HL']. split; [|done]. cbn. by rewrite <- app_assoc.
      * by rewrite <- Hu.
  - subst l. unfold st_bind at 1. rewrite (end_pop_empty e Hlaws) by (by apply HL).
    change (NULL =? NULL) with true. cbv iota.
    destruct (put_back_ok m L dn HL Hdn) as (m' & E & HL'). unfold st_bind. rewrite E.
    exists m', None. done.
Qed.
End pop_n.

(** ** Moving a whole list *)

Lemma lists_delete m L d : lists_at m L -> lists_at m (delete d L).
Proof.
  intros [Hat Hdis]. split.
  - intros h l Hl. apply lookup_delete_Some in Hl as [_ Hl]. auto.
  - intros h1 l1 h2 l2 a H1 H2. apply lookup_delete_Some in H1 as [_ H1], H2 as [_ H2]. eauto.
Qed.

Lemma lists_add m L d :
  lists_at m L -> ring m d [] -> (forall h l, L !! h = Some l -> d ∉ h :: l) ->
  lists_at m (<[d := []]> L).
Proof.
  intros [Hat Hdis] Hr Hd. split.
  - intros h l [[<- <-]|[_ Hl]]%lookup_insert_Some; [by left|auto].
  - intros h1 l1 h2 l2 a [[<- <-]|[_ H1]]%lookup_insert_Some [[<- <-]|[_ H2]]%lookup_insert_Some Ha1 Ha2;
      [done| | |by apply (Hdis h1 l1 h2 l2 a)].
    + apply list_elem_of_singleton in Ha1 as ->. by apply Hd in H2.
    + apply list_elem_of_singleton in Ha2 as ->. by apply Hd in H1.
Qed.

Lemma lists_move m m' L h l d k new :
  lists_at m L -> L !! h = Some l -> L !! d = Some k -> h <> d ->
  new ≡ₚ l ++ k -> ring m' h new -> ring m' d [] -> same_outside (h :: d :: l ++ k) m m' ->
  lists_at m' (<[d := []]> (<[h := new]> L)).
Proof.
  intros HL Hh Hd Hne Hnew Hr Hrd Hs. pose proof HL as [_ Hdis].
  assert (E : <[d := []]> (<[h := new]> L) = <[d := []]> (<[h := new]> (delete d L))).
  { rewrite <- (insert_delete_eq (<[h := new]> L)), delete_insert_ne by done. done. }
  rewrite E. apply lists_add; [|done|].
  - eapply (lists_update m m' (delete d L) h l new (d :: l ++ k));
      [by apply lists_delete|by rewrite lookup_delete_ne|done|done|].
    intros a Ha. assert (Ha' : a ∈ l \/ a ∈ d :: k) by (rewrite Hnew in Ha; set_solver).
    destruct Ha' as [?|Ha']; [by left|right]. intros h2 l2 H2 Hin.
    apply lookup_delete_Some in H2 as [Hne2 H2]. apply Hne2. by apply (Hdis d k h2 l2 a).
  - intros h2 l2 [[<- <-]|[_ H2]]%lookup_insert_Some Hin.
    + rewrite Hnew in Hin. apply elem_of_cons in Hin as [->|Hin]; [done|].
      apply elem_of_app in Hin as [Hin|Hin].
      * apply Hne. apply (Hdis h l d k d); set_solver.
      * assert (Hat : list_at m d k) by (by apply HL).
        destruct Hat as [(_ & Hnd & _)|(-> & _)]; [inv Hnd; done|set_solver].
    + apply lookup_delete_Some in H2 as [Hne2 H2]. apply Hne2.
      apply (Hdis d k h2 l2 d); set_solver.
Qed.

Lemma isempty_list_at m h l :
  list_at m h l -> link_list_isempty h m = (Ok (bool_decide (l = [])), m).
Proof.
  intros [Hr|(-> & H0 & Hz)].
  - pose proof (isempty_ok m h l st_ret Hr) as E. unfold st_bind, st_ret in E.
    destruct (link_list_isempty h m) as [[b| |] m'] eqn:Em; congruence.
  - unfold link_list_isempty. rewrite (run_ld_next _ _ _ _ (lookup_nxt _ _ _ Hz)). cbn.
    by rewrite orb_true_r.
Qed.

(** ** Claims *)

(** C24: on a memory of disjoint circular lists, zeroized heads included, every operation of
    link.c implements the list operation it stands for: it does not fail, every other list is
    untouched, and a link that was taken out is in no list. *)
Theorem link_operations m L h l :
  lists_at m L -> L !! h = Some l ->
  (forall x, spare m L x ->
     (exists m', link_list_append h x m = (Ok tt, m') /\ lists_at m' (<[h := l ++ [x]]> L)) /\
     (exists m', link_list_prepend h x m = (Ok tt, m') /\ lists_at m' (<[h := x :: l]> L))) /\
  (forall l1 x l2, l = l1 ++ x :: l2 ->
     exists m', link_remove x m = (Ok tt, m') /\ lists_at m' (<[h := l1 ++ l2]> L) /\
       unlinked m' x) /\
  (forall d k, L !! d = Some k -> d <> h ->
     (exists m', link_list_append_list h d m = (Ok tt, m') /\
        lists_at m' (<[d := []]> (<[h := l ++ k]> L))) /\
     (exists m', link_list_prepend_list h d m = (Ok tt, m') /\
        lists_at m' (<[d := []]> (<[h := k ++ l]> L)))) /\
  link_list_isempty h m = (Ok (bool_decide (l = [])), m) /\
  link_list_count h m = (Ok (zlen l), m).
Proof.
  intros HL Hh. pose proof HL as [Hat Hdis]. pose proof (Hat h l Hh) as Hl. splits.
  - intros x Hx. split.
    + destruct (lists_put last_end last_end_laws m L h l x HL Hh Hx) as (m' & ? & ? & _). eauto.
    + destruct (lists_put first_end first_end_laws m L h l x HL Hh Hx) as (m' & ? & ? & _). eauto.
  - intros l1 x l2 ->. destruct Hl as [Hr|(Hn & _)]; [|by destruct l1].
    destruct (remove_link_ok m h l1 x l2 Hr) as (m' & E & Hr' & Hu & Hs).
    exists m'. splits; [done| |done].
    eapply (lists_update m m' L h _ _ (l1 ++ x :: l2)); [done..|].
    intros a Ha. left. set_solver.
  - intros d k Hd Hne.
    assert (Hdj : forall a, a ∈ h :: l -> a ∉ d :: k)
      by (intros a Ha1 Ha2; apply Hne; symmetry; by apply (Hdis h l d k a)).
    split.
    + destruct (append_list_ok m h l d k Hl (Hat d k Hd) Hdj) as (m' & E & Hr & Hrd & Hs).
      exists m'. split; [done|]. by apply (lists_move m m' L h l d k).
    + destruct (prepend_list_ok m h l d k Hl (Hat d k Hd) Hdj) as (m' & E & Hr & Hrd & Hs).
      exists m'. split; [done|]. apply (lists_move m m' L h l d k); try done.
      apply Permutation_app_comm.
  - by apply isempty_list_at.
  - by apply count_ok.
Qed.

(** A memory with the list [10, 20] on head 1, an empty list on the zeroized head 2, and two
    unlinked nodes. *)
Definition sample_store : store :=
  list_to_map [(1, mkLink 20 10); (10, mkLink 1 20); (20, mkLink 10 1); (2, mkLink 0 0);
               (30, mkLink 30 30); (40, mkLink 0 0)].
Definition sample_lists : gmap addr (list addr) := list_to_map [(1, [10; 20]); (2, [])].

Lemma sample_lists_at : lists_at sample_store sample_lists.
Proof.
  split.
  - intros h l Hl. assert (Hin : (h, l) ∈ [(1, [10; 20]); (2, [])])
      by (by apply elem_of_list_to_map_2).
    rewrite !elem_of_cons in Hin. destruct Hin as [[= -> ->]|[[= -> ->]|Hin]]; [| |by apply not_elem_of_nil in Hin].
    + left. split; [|split]; [|by apply (bool_decide_eq_true_1 (NoDup [1; 10; 20]))
        |by apply (bool_decide_eq_true_1 (NULL ∉ [1; 10; 20]))]. cbn. unfold edge. splits; done.
    + right. done.
  - intros h1 l1 h2 l2 a H1 H2 Ha1 Ha2.
    assert (I1 : (h1, l1) ∈ [(1, [10; 20]); (2, [])]) by (by apply elem_of_list_to_map_2).
    assert (I2 : (h2, l2) ∈ [(1, [10; 20]); (2, [])]) by (by apply elem_of_list_to_map_2).
    assert (N : 2 ∉ [1; 10; 20]) by (by apply (bool_decide_eq_true_1 (2 ∉ [1; 10; 20]))).
    rewrite !elem_of_cons in I1, I2.
    destruct I1 as [[= -> ->]|[[= -> ->]|I1]], I2 as [[= -> ->]|[[= -> ->]|I2]];
      try done; try (by apply not_elem_of_nil in I1); try (by apply not_elem_of_nil in I2).
    + apply list_elem_of_singleton in Ha2 as ->. done.
    + apply list_elem_of_singleton in Ha1 as ->. done.
Qed.

Lemma link_operations_witness :
  exists m', link_list_append_list 2 1 sample_store = (Ok tt, m') /\
    lists_at m' (<[1 := []]> (<[2 := [] ++ [10; 20]]> sample_lists)).
Proof.
  refine (proj1 (proj1 (proj2 (proj2 (link_operations sample_store sample_lists 2 []
    sample_lists_at _))) 1 [10; 20] _ _)); [reflexivity|reflexivity|done].
Defined.

(** C25: [link_list_pop_first_n] and [link_list_pop_last_n] are atomic: either every listed head
    (repetitions allowed) gives up one link, in order, or some list is too short and every
    list is as before. *)
Theorem pop_n_atomic m L heads :
  lists_at m L -> (forall h, h ∈ heads -> is_Some (L !! h)) ->
  (exists m' r, link_list_pop_first_n heads m = (Ok r, m') /\
     match take_n first_end L heads with
     | None => r = None /\ lists_at m' L
     | Some (xs, L') => r = Some xs /\ lists_at m' L'
     end) /\
  (exists m' r, link_list_pop_last_n heads m = (Ok r, m') /\
     match take_n last_end L heads with
     | None => r = None /\ lists_at m' L
     | Some (xs, L') => r = Some xs /\ lists_at m' L'
     end).
Proof.
  intros HL Hd.
  split; [apply (pop_n_ok first_end first_end_laws m L heads []) |
          apply (pop_n_ok last_end last_end_laws m L heads [])]; try done;
    (split; [apply NoDup_nil_2|constructor]).
Qed.

Lemma pop_n_atomic_witness :
  exists m' r, link_list_pop_first_n [1; 1; 2] sample_store = (Ok r, m') /\
    r = None /\ lists_at m' sample_lists.
Proof.
  refine (proj1 (pop_n_atomic sample_store sample_lists [1; 1; 2] sample_lists_at _)).
  intros h. rewrite !elem_of_cons. intros [->|[->|[->|Hn]]]; [by eexists..|by apply not_elem_of_nil in Hn].
Defined.
