(* ===== verification/Hashmap.v ===== *)
(** * Hash maps (libdstr/hashmap.c)

    A table of buckets chained through intrusive elements. An element is named by
    the object that owns it; the chain hanging from a bucket is a list. The
    [KeyMap] interface at the end is what clients may rely on. *)

From S2P Require Import Prelude Dstr.

(** ** Data *)

Inductive hash_key_t := key_str (d : bytes) | key_uint (u : Z).

#[export] Instance hash_key_eq_dec : EqDecision hash_key_t.
Proof. solve_decision. Defined.
#[export] Instance hash_key_countable : Countable hash_key_t.
Proof.
  apply (inj_countable' (fun k => match k with key_str d => inl d | key_uint u => inr u end)
    (fun s => match s with inl d => key_str d | inr u => key_uint u end)).
  by intros [].
Defined.

Record hash_elem_t := mkElem { el_owner : Z; el_key : hash_key_t; el_hash : Z }.

#[export] Instance hash_elem_eq_dec : EqDecision hash_elem_t.
Proof. solve_decision. Defined.

Record hashmap_t := mkMap {
  h_num_elems : Z;
  h_buckets : list (list hash_elem_t);
  h_mask : Z
}.
Definition h_num_buckets (h : hashmap_t) : Z := zlen (h_buckets h).
Definition set_buckets (b : list (list hash_elem_t)) (h : hashmap_t) : hashmap_t :=
  mkMap (h_num_elems h) b (h_mask h).
Definition set_num_elems (n : Z) (h : hashmap_t) : hashmap_t :=
  mkMap n (h_buckets h) (h_mask h).

(** ** Hash functions *)

Definition hash_uint (ukey : Z) : Z :=
  let ukey := u32 (ukey + u32 (Z.shiftl ukey 12)) in
  let ukey := Z.lxor ukey (Z.shiftr ukey 22) in
  let ukey := u32 (ukey + u32 (Z.shiftl ukey 4)) in
  let ukey := Z.lxor ukey (Z.shiftr ukey 9) in
  let ukey := u32 (ukey + u32 (Z.shiftl ukey 10)) in
  let ukey := Z.lxor ukey (Z.shiftr ukey 2) in
  let ukey := u32 (ukey + u32 (Z.shiftl ukey 7)) in
  let ukey := Z.lxor ukey (Z.shiftr ukey 12) in
  u32 (Z.land (Z.shiftr ukey 3 * 2654435761) 4294967295).

Definition hash_str (skey : bytes) : Z :=
  fold_left (fun x c => Z.lxor (u32 (x * 33)) c) skey 0.

Definition hash_key (k : hash_key_t) : Z :=
  match k with key_str d => hash_str d | key_uint u => hash_uint u end.

Definition hash_elem_match (a b : hash_key_t) : bool :=
  match a, b with
  | key_str x, key_str y => dstr_eq x y
  | key_uint x, key_uint y => x =? y
  | _, _ => false
  end.

(** ** Creation and growth *)

Definition INIT_NUM_BUCKETS : Z := 32.

(** The smallest 32 * 2^n that holds the bucket pointers. *)
Definition table_size (num_buckets : Z) : res Z := grow_loop 64 32 (num_buckets * 8).

Definition hashmap_init `{Alloc} : res hashmap_t :=
  let! new_size := table_size INIT_NUM_BUCKETS in
  if alloc_ok new_size
  then Ok (mkMap 0 (replicate (Z.to_nat INIT_NUM_BUCKETS) []) (INIT_NUM_BUCKETS - 1))
  else Err E_NOMEM.

(** The two halves of a bucket; each element is pushed on the front of its half. *)
Definition split_bucket (upper_bit : Z) (old : list hash_elem_t)
  : list hash_elem_t * list hash_elem_t :=
  fold_left (fun '(lo, hi) e =>
    if Z.land (el_hash e) upper_bit =? 0 then (e :: lo, hi) else (lo, e :: hi)) old ([], []).

(** A failed allocation leaves the table as it is, to try again later. *)
Definition check_rehash `{Alloc} (h : hashmap_t) : res hashmap_t :=
  if h_num_elems h / h_num_buckets h <? 1 then Ok h
  else
    let new_num_buckets := h_num_buckets h * 2 in
    let! new_size := table_size new_num_buckets in
    if negb (alloc_ok new_size) then Ok h
    else
      let mask := Z.land (new_num_buckets - 1) 4294967295 in
      let upper_bit := Z.lxor mask (h_mask h) in
      let halves := map (split_bucket upper_bit) (h_buckets h) in
      Ok (mkMap (h_num_elems h) (map fst halves ++ map snd halves) mask).

(** ** Access *)

(** [elem->next != NULL]: the element is in the table. *)
Definition linked (h : hashmap_t) (owner : Z) : bool :=
  existsb (fun e => el_owner e =? owner) (concat (h_buckets h)).

(** Walk a bucket: replace the element with the key of [elem], if there is one. *)
Fixpoint replace_elem (elem : hash_elem_t) (bucket : list hash_elem_t)
  : option (hash_elem_t * list hash_elem_t) :=
  match bucket with
  | [] => None
  | e :: rest =>
      if hash_elem_match (el_key elem) (el_key e) then Some (e, elem :: rest)
      else '(old, rest') ← replace_elem elem rest; Some (old, e :: rest')
  end.

Definition bucket_idx (h : hashmap_t) (hash : Z) : Z := Z.land hash (h_mask h).

(** [unique] is [old == NULL] in the source: a duplicate is refused. *)
Definition hashmap_set `{Alloc} (unique : bool) (key : hash_key_t) (owner : Z)
  : stm hashmap_t (option hash_elem_t) := fun h =>
  if linked h owner then (Stop Fatal, h)
  else
    let elem := mkElem owner key (hash_key key) in
    let idx := bucket_idx h (el_hash elem) in
    match rd (h_buckets h) idx with
    | Ok bucket =>
        match replace_elem elem bucket with
        | Some (old, bucket') =>
            if unique then (Err E_PARAM, h)
            else (Ok (Some old), set_buckets (<[Z.to_nat idx := bucket']> (h_buckets h)) h)
        | None =>
            let h := set_buckets (<[Z.to_nat idx := bucket ++ [elem]]> (h_buckets h)) h in
            let h := set_num_elems (u64 (h_num_elems h + 1)) h in
            match check_rehash h with
            | Ok h => (Ok None, h)
            | Err e => (Err e, h)
            | Stop x => (Stop x, h)
            end
        end
    | Err e => (Err e, h)
    | Stop x => (Stop x, h)
    end.

Definition hashmap_sets `{Alloc} (key : bytes) := hashmap_set false (key_str key).
Definition hashmap_setu `{Alloc} (key : Z) := hashmap_set false (key_uint key).
Definition hashmap_sets_unique `{Alloc} (key : bytes) := hashmap_set true (key_str key).
Definition hashmap_setu_unique `{Alloc} (key : Z) := hashmap_set true (key_uint key).

Definition hashmap_get (key : hash_key_t) (h : hashmap_t) : res (option hash_elem_t) :=
  let! bucket := rd (h_buckets h) (bucket_idx h (hash_key key)) in
  Ok (List.find (fun e => hash_elem_match key (el_key e)) bucket).

Definition hashmap_gets (key : bytes) := hashmap_get (key_str key).
Definition hashmap_getu (key : Z) := hashmap_get (key_uint key).

(** Unlink the first element of a bucket that passes the test. *)
Fixpoint unlink (test : hash_elem_t -> bool) (bucket : list hash_elem_t)
  : option (hash_elem_t * list hash_elem_t) :=
  match bucket with
  | [] => None
  | e :: rest =>
      if test e then Some (e, rest)
      else '(x, rest') ← unlink test rest; Some (x, e :: rest')
  end.

(** [if(!h->num_elems--) LOG_FATAL(...)] *)
Definition dec_elems (b : list (list hash_elem_t)) : stm hashmap_t unit := fun h =>
  let h := set_buckets b h in
  if h_num_elems h =? 0 then (Stop Fatal, h)
  else (Ok tt, set_num_elems (h_num_elems h - 1) h).

Definition hashmap_del (key : hash_key_t) : stm hashmap_t (option hash_elem_t) := fun h =>
  let idx := bucket_idx h (hash_key key) in
  match rd (h_buckets h) idx with
  | Ok bucket =>
      match unlink (fun e => hash_elem_match key (el_key e)) bucket with
      | Some (deleted, bucket') =>
          (do! _ := dec_elems (<[Z.to_nat idx := bucket']> (h_buckets h)) in
           st_ret (Some deleted)) h
      | None => (Ok None, h)
      end
  | Err e => (Err e, h)
  | Stop x => (Stop x, h)
  end.

Definition hashmap_dels (key : bytes) := hashmap_del (key_str key).
Definition hashmap_delu (key : Z) := hashmap_del (key_uint key).

(** The sentinel at the end of its chain leads an element to its table. *)
Definition hash_elem_remove (owner : Z) : stm hashmap_t unit := fun h =>
  match List.find (fun e => el_owner e =? owner) (concat (h_buckets h)) with
  | None => (Ok tt, h)
  | Some elem =>
      if h_num_elems h =? 0 then (Stop Fatal, h)
      else
        let h := set_num_elems (h_num_elems h - 1) h in
        let idx := bucket_idx h (el_hash elem) in
        match rd (h_buckets h) idx with
        | Ok bucket =>
            match unlink (fun e => el_owner e =? owner) bucket with
            | Some (_, bucket') =>
                (Ok tt, set_buckets (<[Z.to_nat idx := bucket']> (h_buckets h)) h)
            | None => (Stop Fatal, h)
            end
        | Err e => (Err e, h)
        | Stop x => (Stop x, h)
        end
  end.

(** ** Iteration *)

(** The buckets from index [i] on: the first one that is not empty. *)
Fixpoint next_nonempty_bucket (bs : list (list hash_elem_t)) (i : Z)
  : option (Z * list hash_elem_t) :=
  match bs with
  | [] => None
  | [] :: rest => next_nonempty_bucket rest (i + 1)
  | b :: _ => Some (i, b)
  end.

(** [t_next] is the chain that hangs from [trav->next]: the caller may remove
    the current element only, which leaves that chain as it is. *)
Record hashmap_trav_t := mkTrav {
  t_bucket_idx : Z;
  t_current : option hash_elem_t;
  t_next : list hash_elem_t
}.

Definition from_bucket (h : hashmap_t) (i : Z) : option (hash_elem_t * hashmap_trav_t) :=
  match next_nonempty_bucket (drop (Z.to_nat i) (h_buckets h)) i with
  | Some (i, e :: rest) => Some (e, mkTrav i (Some e) rest)
  | _ => None
  end.

Definition hashmap_next (h : hashmap_t) (t : hashmap_trav_t)
  : option (hash_elem_t * hashmap_trav_t) :=
  match t_current t with
  | Some _ =>
      match t_next t with
      | e :: rest => Some (e, mkTrav (t_bucket_idx t) (Some e) rest)
      | [] => from_bucket h (t_bucket_idx t + 1)
      end
  | None => from_bucket h (t_bucket_idx t)
  end.
Definition hashmap_iter (h : hashmap_t) : option (hash_elem_t * hashmap_trav_t) :=
  hashmap_next h (mkTrav 0 None []).

Definition hashmap_pop_next (i : Z) : stm hashmap_t (option (hash_elem_t * Z)) := fun h =>
  match next_nonempty_bucket (drop (Z.to_nat i) (h_buckets h)) i with
  | Some (i, e :: rest) =>
      (do! _ := dec_elems (<[Z.to_nat i := rest]> (h_buckets h)) in st_ret (Some (e, i))) h
  | _ => (Ok None, h)
  end.
Definition hashmap_pop_iter : stm hashmap_t (option (hash_elem_t * Z)) := hashmap_pop_next 0.

(** ** Well-formed tables *)

Definition hkey_wf (k : hash_key_t) : Prop :=
  match k with key_str d => is_bytes d | key_uint u => is_u32 u end.

Definition elems (h : hashmap_t) : list hash_elem_t := concat (h_buckets h).

Definition elem_ok (e : hash_elem_t) : Prop :=
  hkey_wf (el_key e) /\ el_hash e = hash_key (el_key e).

(** Every element is in the bucket of its hash. *)
Definition placed (k : Z) (bs : list (list hash_elem_t)) : Prop :=
  zlen bs = 2 ^ k /\
  forall i b e, bs !! i = Some b -> e ∈ b -> elem_ok e /\ el_hash e mod 2 ^ k = Z.of_nat i.

Record map_ok (h : hashmap_t) : Prop := {
  ok_size : exists k, 5 <= k <= 32 /\ placed k (h_buckets h) /\ h_mask h = 2 ^ k - 1;
  ok_keys : NoDup (map el_key (elems h));
  ok_owners : NoDup (map el_owner (elems h));
  ok_count : h_num_elems h = zlen (elems h) /\ zlen (elems h) < 2 ^ 32
}.

(** What a client sees: the owner stored under each key. *)
Definition view (h : hashmap_t) : gmap hash_key_t Z :=
  list_to_map (map (fun e => (el_key e, el_owner e)) (elems h)).

(** *** Hashes *)

Lemma hash_uint_range u : is_u32 (hash_uint u).
Proof. unfold hash_uint. apply u32_range. Qed.

Lemma lxor_u32 a b : is_u32 a -> is_u32 b -> is_u32 (Z.lxor a b).
Proof.
  unfold is_u32. intros Ha Hb. split; [apply Z.lxor_nonneg; lia|].
  destruct (Z.eq_dec (Z.lxor a b) 0) as [->|Hn]; [lia|].
  assert (0 <= Z.lxor a b) by (apply Z.lxor_nonneg; lia).
  apply Z.log2_lt_pow2; [lia|].
  pose proof (Z.log2_lxor a b ltac:(lia) ltac:(lia)).
  assert (Hl : forall x, 0 <= x < 2 ^ 32 -> Z.log2 x < 32).
  { intros x Hx. destruct (Z.eq_dec x 0) as [->|]; [done|]. apply Z.log2_lt_pow2; lia. }
  pose proof (Hl a Ha). pose proof (Hl b Hb). lia.
Qed.

Lemma hash_str_range s : is_bytes s -> is_u32 (hash_str s).
Proof.
  intros Hs. unfold hash_str. assert (H0 : is_u32 0) by (unfold is_u32; lia). revert H0.
  generalize 0 as x. induction Hs as [|c s Hc Hs IH]; intros x Hx; [done|]. simpl. apply IH.
  apply lxor_u32; [apply u32_range|]. unfold is_byte, is_u32 in *. lia.
Qed.

Lemma hash_key_range k : hkey_wf k -> is_u32 (hash_key k).
Proof. destruct k; [apply hash_str_range|intros _; apply hash_uint_range]. Qed.

Lemma match_spec a b : hkey_wf a -> hkey_wf b -> hash_elem_match a b = true <-> a = b.
Proof.
  destruct a, b; simpl; intros Ha Hb; [|done|done|].
  - rewrite dstr_eq_spec by done. split; congruence.
  - rewrite Z.eqb_eq. split; congruence.
Qed.

Lemma land_mask x k : 0 <= k -> Z.land x (2 ^ k - 1) = x mod 2 ^ k.
Proof. intros Hk. rewrite <- Z.land_ones by done. by rewrite Z.ones_equiv, Z.sub_1_r. Qed.

Lemma land_pow2 x k : 0 <= k -> (Z.land x (2 ^ k) =? 0) = negb (Z.testbit x k).
Proof.
  intros Hk. destruct (Z.testbit x k) eqn:E; simpl.
  - apply Z.eqb_neq. intros H0. apply (f_equal (fun z => Z.testbit z k)) in H0.
    rewrite Z.land_spec, E, Z.pow2_bits_true, Z.bits_0 in H0 by done. done.
  - apply Z.eqb_eq, Z.bits_inj'. intros n Hn. rewrite Z.land_spec, Z.bits_0.
    destruct (Z.eq_dec k n) as [<-|]; [by rewrite E|].
    rewrite Z.pow2_bits_false by done. apply andb_false_r.
Qed.

(** One more bit of the hash. *)
Lemma mod_pow2_succ x k :
  0 <= k -> x mod 2 ^ (k + 1) = x mod 2 ^ k + (if Z.testbit x k then 2 ^ k else 0).
Proof.
  intros Hk. rewrite Z.pow_add_r by lia. change (2 ^ 1) with 2.
  rewrite Z.rem_mul_r by lia. f_equal. pose proof (Z.testbit_spec' x k Hk) as Hb.
  destruct (Z.testbit x k); simpl in Hb; rewrite <- Hb; lia.
Qed.

Lemma upper_bit k : 0 <= k -> Z.lxor (2 ^ (k + 1) - 1) (2 ^ k - 1) = 2 ^ k.
Proof.
  intros Hk. 
  replace (2 ^ (k + 1) - 1) with (Z.ones (k + 1)) by (rewrite Z.ones_equiv; lia).
  replace (2 ^ k - 1) with (Z.ones k) by (rewrite Z.ones_equiv; lia).
  apply Z.bits_inj'. intros n Hn. rewrite Z.lxor_spec.
  destruct (Z.lt_trichotomy n k) as [Hl|[->|Hl]].
  - rewrite !Z.ones_spec_low, Z.pow2_bits_false by lia. done.
  - rewrite Z.ones_spec_low, Z.ones_spec_high, Z.pow2_bits_true by lia. done.
  - rewrite !Z.ones_spec_high, Z.pow2_bits_false by lia. done.
Qed.

(** *** Buckets *)

Lemma bucket_of h k hash :
  placed k (h_buckets h) -> h_mask h = 2 ^ k - 1 -> 0 <= k -> 0 <= hash ->
  bucket_idx h hash = hash mod 2 ^ k /\
  exists b, rd (h_buckets h) (bucket_idx h hash) = Ok b /\
    h_buckets h !! Z.to_nat (hash mod 2 ^ k) = Some b.
Proof.
  intros [Hl _] Hm Hk Hh. unfold bucket_idx. rewrite Hm, land_mask by done. split; [done|].
  apply rd_ok. rewrite Hl. apply Z.mod_pos_bound. lia.
Qed.

Lemma buckets_split {A} (bs : list (list A)) i b :
  bs !! i = Some b ->
  exists B1 B2, bs = B1 ++ b :: B2 /\ length B1 = i /\
    concat bs = concat B1 ++ b ++ concat B2 /\
    forall b', concat (<[i := b']> bs) = concat B1 ++ b' ++ concat B2.
Proof.
  intros Hb. exists (take i bs), (drop (S i) bs).
  pose proof (lookup_lt_Some _ _ _ Hb) as Hi.
  rewrite take_drop_middle by done. splits; [done|rewrite length_take; lia| |].
  - rewrite <- (take_drop_middle bs i b Hb) at 1. by rewrite concat_app.
  - intros b'. rewrite insert_take_drop by done. by rewrite concat_app.
Qed.

(** Every bucket of the element with a key is the bucket of that key's hash. *)
Lemma in_bucket h k key hash e b :
  placed k (h_buckets h) -> 0 <= k -> hash = hash_key key ->
  h_buckets h !! Z.to_nat (hash mod 2 ^ k) = Some b ->
  e ∈ elems h -> el_key e = key -> e ∈ b.
Proof.
  intros [Hl Hp] Hk Hh Hb He Hkey. unfold elems in He.
  apply list_elem_of_In, in_concat in He as (b2 & Hb2 & He).
  apply list_elem_of_In, list_elem_of_lookup in Hb2 as [i Hi]. apply list_elem_of_In in He.
  destruct (Hp i b2 e Hi He) as [[_ Ho] Hm]. rewrite Ho, Hkey, <- Hh in Hm.
  rewrite Hm, Nat2Z.id in Hb. congruence.
Qed.

Lemma find_key key b :
  hkey_wf key -> (forall e, e ∈ b -> elem_ok e) ->
  forall r, List.find (fun e => hash_elem_match key (el_key e)) b = r ->
  match r with
  | Some e => e ∈ b /\ el_key e = key
  | None => forall e, e ∈ b -> el_key e <> key
  end.
Proof.
  intros Hk Hb r Hr. destruct r as [e|].
  - apply find_some in Hr as [Hin Hm]. apply list_elem_of_In in Hin.
    split; [done|]. symmetry. apply match_spec; [done|by apply Hb|done].
  - intros e He Hkey. apply list_elem_of_In in He.
    pose proof (find_none _ _ Hr e He) as Hm. simpl in Hm.
    apply list_elem_of_In in He. destruct (Hb e He) as [Hw _].
    by rewrite (proj2 (match_spec key (el_key e) Hk Hw)) in Hm.
Qed.

Lemma view_lookup h key o :
  NoDup (map el_key (elems h)) ->
  view h !! key = Some o <-> exists e, e ∈ elems h /\ el_key e = key /\ el_owner e = o.
Proof.
  intros Hnd. unfold view.
  assert (Hnd' : NoDup (map (fun e => (el_key e, el_owner e)) (elems h)).*1)
    by (by rewrite <- list_fmap_compose).
  rewrite <- elem_of_list_to_map by done.
  change (map ?f ?l) with (f <$> l). rewrite list_elem_of_fmap. naive_solver.
Qed.

Lemma view_none h key :
  NoDup (map el_key (elems h)) ->
  view h !! key = None <-> forall e, e ∈ elems h -> el_key e <> key.
Proof.
  intros Hnd. rewrite eq_None_not_Some. split.
  - intros Hn e He Hk. apply Hn. exists (el_owner e). apply view_lookup; eauto.
  - intros Hn [o Ho]. apply view_lookup in Ho as (e & He & Hk & _); [|done]. by apply (Hn e).
Qed.

(** A table with the elements of another has its view. *)
Lemma view_perm (l1 l2 : list hash_elem_t) :
  NoDup (map el_key l1) -> l1 ≡ₚ l2 ->
  list_to_map (M := gmap hash_key_t Z) (map (fun e => (el_key e, el_owner e)) l1)
    = list_to_map (map (fun e => (el_key e, el_owner e)) l2).
Proof.
  intros Hnd Hp. apply list_to_map_proper.
  - by rewrite <- list_fmap_compose.
  - by apply Permutation_map.
Qed.

Lemma get_ok h key :
  map_ok h -> hkey_wf key ->
  exists r, hashmap_get key h = Ok r /\ el_owner <$> r = view h !! key /\
    (forall e, r = Some e -> e ∈ elems h /\ el_key e = key).
Proof.
  intros [(k & Hk & Hp & Hm) Hnd Ho Hc] Hw.
  pose proof (hash_key_range key Hw) as Hh. unfold is_u32 in Hh.
  destruct (bucket_of h k (hash_key key) Hp Hm) as (_ & b & E & Hb); [lia|lia|].
  unfold hashmap_get. rewrite E. cbn. eexists. split; [done|].
  assert (Hok : forall e, e ∈ b -> elem_ok e) by (intros e He; by eapply Hp).
  pose proof (find_key key b Hw Hok _ eq_refl) as Hf.
  destruct (List.find _ b) as [e|] eqn:Ef; cbn.
  - destruct Hf as [Hin Hkey]. assert (He : e ∈ elems h).
    { unfold elems. apply list_elem_of_In, in_concat. exists b. split; apply list_elem_of_In; [|done].
      by eapply list_elem_of_lookup_2. }
    split; [|by intros ? [= <-]]. symmetry. apply view_lookup; eauto.
  - split; [|done]. symmetry. apply view_none; [done|]. intros e He Hkey.
    apply (Hf e); [|done]. eapply in_bucket; [done|lia|done|done|done|done].
Qed.

(** *** Creation *)

Lemma init_map_ok `{Alloc} h : hashmap_init = Ok h -> map_ok h /\ view h = ∅.
Proof.
  unfold hashmap_init. change (table_size INIT_NUM_BUCKETS) with (Ok 256 : res Z). cbn [res_bind].
  destruct (alloc_ok 256); [|done]. intros [= <-]. split; [|done]. split.
  - exists 5. split; [lia|]. split; [|done]. split; [done|].
    intros i b e Hi He. cbn in Hi. do 32 (destruct i as [|i]; [injection Hi as <-; set_solver|]). done.
  - apply NoDup_nil_2.
  - apply NoDup_nil_2.
  - done.
Qed.

Lemma nodup_map_inj {A B} (f : A -> B) l x y :
  NoDup (map f l) -> x ∈ l -> y ∈ l -> f x = f y -> x = y.
Proof.
  induction l as [|a l IH]; [set_solver|]. simpl. intros [Ha Hnd]%NoDup_cons.
  assert (Hin : forall z, z ∈ l -> f z <> f a).
  { intros z Hz E. apply Ha. apply list_elem_of_fmap. by exists z. }
  intros [->|Hx]%elem_of_cons [->|Hy]%elem_of_cons Hf; [done| | |by apply IH].
  - by destruct (Hin y Hy).
  - by destruct (Hin x Hx).
Qed.

(** *** Growth *)

Lemma split_bucket_spec ub old :
  let '(lo, hi) := split_bucket ub old in
  lo ++ hi ≡ₚ old /\
  (forall e, e ∈ lo -> e ∈ old /\ Z.land (el_hash e) ub = 0) /\
  (forall e, e ∈ hi -> e ∈ old /\ Z.land (el_hash e) ub <> 0).
Proof.
  unfold split_bucket.
  assert (H : forall old lo0 hi0,
    let '(lo, hi) := fold_left (fun '(lo, hi) e =>
      if Z.land (el_hash e) ub =? 0 then (e :: lo, hi) else (lo, e :: hi)) old (lo0, hi0) in
    lo ++ hi ≡ₚ lo0 ++ hi0 ++ old /\
    (forall e, e ∈ lo -> e ∈ lo0 \/ e ∈ old /\ Z.land (el_hash e) ub = 0) /\
    (forall e, e ∈ hi -> e ∈ hi0 \/ e ∈ old /\ Z.land (el_hash e) ub <> 0)).
  { clear old. induction old as [|x old IH]; intros lo0 hi0; simpl.
    - rewrite app_nil_r. auto.
    - destruct (Z.eqb_spec (Z.land (el_hash x) ub) 0) as [Ex|Ex].
      + specialize (IH (x :: lo0) hi0). destruct (fold_left _ old _) as [lo hi].
        destruct IH as (H1 & H2 & H3). splits.
        * rewrite H1. simpl. rewrite <- !Permutation_middle. done.
        * intros e He. destruct (H2 e He) as [[->|?]%elem_of_cons|[? ?]]; set_solver.
        * intros e He. destruct (H3 e He) as [?|[? ?]]; set_solver.
      + specialize (IH lo0 (x :: hi0)). destruct (fold_left _ old _) as [lo hi].
        destruct IH as (H1 & H2 & H3). splits.
        * rewrite H1. simpl. rewrite <- !Permutation_middle. done.
        * intros e He. destruct (H2 e He) as [?|[? ?]]; set_solver.
        * intros e He. destruct (H3 e He) as [[->|?]%elem_of_cons|[? ?]]; set_solver. }
  specialize (H old [] []). destruct (fold_left _ old _) as [lo hi].
  destruct H as (H1 & H2 & H3). splits; [done| |]; intros e He.
  - destruct (H2 e He) as [?|?]; [set_solver|done].
  - destruct (H3 e He) as [?|?]; [set_solver|done].
Qed.

Lemma table_size_ok k : 5 <= k <= 32 -> exists n, table_size (2 ^ k) = Ok n.
Proof.
  intros Hk. unfold table_size.
  assert (2 ^ k <= 2 ^ 32) by (apply Z.pow_le_mono_r; lia).
  assert (2 ^ 5 <= 2 ^ k) by (apply Z.pow_le_mono_r; lia).
  destruct (grow_loop_ok 64 32 (2 ^ k * 8)) as (n & -> & _); [lia|lia| |eauto].
  change (2 ^ Z.of_nat 64) with (2 ^ 64). lia.
Qed.

Lemma perm_nodup {A} (f : hash_elem_t -> A) l1 l2 : l1 ≡ₚ l2 -> NoDup (map f l2) -> NoDup (map f l1).
Proof. intros Hp. by rewrite (Permutation_map f Hp). Qed.

Lemma halves_perm ub bs :
  concat (map fst (map (split_bucket ub) bs) ++ map snd (map (split_bucket ub) bs)) ≡ₚ concat bs.
Proof.
  rewrite concat_app. induction bs as [|b bs IH]; [done|]. simpl.
  pose proof (split_bucket_spec ub b) as Hs. destruct (split_bucket ub b) as [lo hi].
  destruct Hs as [Hs _]. simpl. rewrite <- Hs, <- IH.
  rewrite <- !app_assoc. apply Permutation_app_head.
  rewrite !app_assoc. apply Permutation_app_tail. apply Permutation_app_comm.
Qed.

Lemma placed_halves k bs :
  0 <= k -> placed k bs -> let hs := map (split_bucket (2 ^ k)) bs in
  placed (k + 1) (map fst hs ++ map snd hs).
Proof.
  intros Hk [Hl Hp] hs. unfold placed.
  assert (Hlen : Z.of_nat (length bs) = 2 ^ k) by done.
  rewrite zlen_app. unfold hs, zlen. rewrite !length_map, Hlen, Z.pow_add_r by lia.
  split; [lia|]. intros i b e Hi He. rewrite <- (Z.pow_add_r 2 k 1) by lia.
  rewrite mod_pow2_succ by done.
  apply lookup_app_Some in Hi as [Hi|[Hge Hi]];
    change (map ?f ?l) with (f <$> l) in Hi; unfold hs in Hi;
    change (map ?f ?l) with (f <$> l) in Hi;
    rewrite !list_lookup_fmap in Hi; rewrite ?length_fmap, ?length_map in *;
    (destruct (bs !! _) as [old|] eqn:Eb in Hi; [|done]); simpl in Hi; injection Hi as <-;
    pose proof (split_bucket_spec (2 ^ k) old) as Hs;
    destruct (split_bucket (2 ^ k) old) as [lo hi]; destruct Hs as (_ & Hlo & Hhi); simpl in He.
  - destruct (Hlo e He) as [Hin Hz]. destruct (Hp i old e Eb Hin) as [Hok Hm].
    split; [done|]. apply Z.eqb_eq in Hz. rewrite land_pow2 in Hz by done.
    apply negb_true_iff in Hz. rewrite Hz. lia.
  - destruct (Hhi e He) as [Hin Hz]. destruct (Hp _ old e Eb Hin) as [Hok Hm].
    split; [done|]. apply Z.eqb_neq in Hz. rewrite land_pow2 in Hz by done.
    apply negb_false_iff in Hz. rewrite Hz. lia.
Qed.

Lemma rehash_ok `{Alloc} h :
  map_ok h -> exists h', check_rehash h = Ok h' /\ map_ok h' /\ elems h' ≡ₚ elems h.
Proof.
  intros Hok. pose proof Hok as [(k & Hk & Hp & Hm) Hnd Ho [Hc Hlt]]. unfold check_rehash.
  assert (Hnb : h_num_buckets h = 2 ^ k) by (apply Hp). rewrite Hnb.
  assert (H0 : 0 < 2 ^ k) by (apply Z.pow_pos_nonneg; lia).
  destruct (Z.ltb_spec (h_num_elems h / 2 ^ k) 1) as [Hld|Hld]; [by exists h|].
  assert (Hk2 : k < 32).
  { destruct (Z.eq_dec k 32) as [->|]; [|lia]. rewrite Hc in Hld.
    rewrite Z.div_small in Hld; [lia|]. pose proof (zlen_nonneg (elems h)). lia. }
  replace (2 ^ k * 2) with (2 ^ (k + 1)) by (rewrite Z.pow_add_r by lia; lia).
  destruct (table_size_ok (k + 1)) as [n ->]; [lia|]. cbn [res_bind].
  destruct (negb (alloc_ok n)); [by exists h|].
  assert (Em : Z.land (2 ^ (k + 1) - 1) 4294967295 = 2 ^ (k + 1) - 1).
  { change 4294967295 with (2 ^ 32 - 1). rewrite land_mask by lia. apply Z.mod_small.
    assert (2 ^ (k + 1) <= 2 ^ 32) by (apply Z.pow_le_mono_r; lia).
    assert (0 < 2 ^ (k + 1)) by (apply Z.pow_pos_nonneg; lia). lia. }
  rewrite Em, Hm, upper_bit by lia.
  eexists. split; [done|]. pose proof (halves_perm (2 ^ k) (h_buckets h)) as Hperm.
  split; [|done]. split.
  - exists (k + 1). split; [lia|]. split; [|done]. apply placed_halves; [lia|done].
  - eapply perm_nodup; done.
  - eapply perm_nodup; done.
  - unfold elems, zlen in *. cbn. by rewrite (Permutation_length Hperm).
Qed.

(** *** Changing one bucket *)

Lemma replace_elem_spec elem b :
  hkey_wf (el_key elem) -> (forall e, e ∈ b -> elem_ok e) ->
  match replace_elem elem b with
  | Some (old, b') => exists p q, b = p ++ old :: q /\ b' = p ++ elem :: q /\
      el_key old = el_key elem
  | None => forall e, e ∈ b -> el_key e <> el_key elem
  end.
Proof.
  intros Hw. induction b as [|x b IH]; intros Hb; simpl; [set_solver|].
  assert (Hx : elem_ok x) by (apply Hb; set_solver).
  destruct (hash_elem_match (el_key elem) (el_key x)) eqn:Em.
  - apply match_spec in Em; [|done|apply Hx]. by exists [], b.
  - assert (Hne : el_key x <> el_key elem).
    { intros E. rewrite E in Em. by rewrite (proj2 (match_spec _ _ Hw Hw)) in Em. }
    specialize (IH ltac:(set_solver)). destruct (replace_elem elem b) as [[old b']|]; simpl.
    + destruct IH as (p & q & -> & -> & Hk). by exists (x :: p), q.
    + intros e [->|He]%elem_of_cons; auto.
Qed.

Lemma unlink_spec test b :
  match unlink test b with
  | Some (x, b') => exists p q, b = p ++ x :: q /\ b' = p ++ q /\ test x = true /\
      forall e, e ∈ p -> test e = false
  | None => forall e, e ∈ b -> test e = false
  end.
Proof.
  induction b as [|x b IH]; simpl; [set_solver|]. destruct (test x) eqn:Et.
  - exists [], b. splits; [done..|set_solver].
  - destruct (unlink test b) as [[y b']|]; simpl.
    + destruct IH as (p & q & -> & -> & Hy & Hp). exists (x :: p), q.
      splits; [done..|]. intros e [->|He]%elem_of_cons; auto.
    + intros e [->|He]%elem_of_cons; auto.
Qed.

Lemma linked_spec h o : linked h o = false <-> o ∉ map el_owner (elems h).
Proof.
  unfold linked. rewrite <- not_true_iff_false, existsb_exists.
  change (map ?f ?l) with (f <$> l). rewrite list_elem_of_fmap. unfold elems.
  split; intros Hn.
  - intros (e & -> & He). apply Hn. exists e. split; [by apply list_elem_of_In|apply Z.eqb_refl].
  - intros (e & He & Ho). apply Hn. apply Z.eqb_eq in Ho. exists e.
    split; [done|by apply list_elem_of_In].
Qed.

Lemma placed_insert k bs i b b' :
  placed k bs -> bs !! i = Some b ->
  (forall e, e ∈ b' -> e ∈ b \/ elem_ok e /\ el_hash e mod 2 ^ k = Z.of_nat i) ->
  placed k (<[i := b']> bs).
Proof.
  intros [Hl Hp] Hb Hb'. split; [unfold zlen in *; by rewrite length_insert|].
  intros j c e Hj He. apply list_lookup_insert_Some in Hj as [(<- & <- & _)|[Hne Hj]].
  - destruct (Hb' e He) as [Hin|?]; [by eapply Hp|done].
  - by eapply Hp.
Qed.

(** The elements before and after a bucket changes. *)
Lemma elems_insert h i b :
  h_buckets h !! i = Some b ->
  exists R, elems h ≡ₚ b ++ R /\
    forall b', concat (<[i := b']> (h_buckets h)) ≡ₚ b' ++ R.
Proof.
  intros Hb. destruct (buckets_split _ _ _ Hb) as (B1 & B2 & _ & _ & E & E').
  exists (concat B1 ++ concat B2). unfold elems. rewrite E. split.
  - rewrite !app_assoc. apply Permutation_app_tail, Permutation_app_comm.
  - intros b'. rewrite E', !app_assoc. apply Permutation_app_tail, Permutation_app_comm.
Qed.

Lemma view_of (l : list hash_elem_t) h :
  NoDup (map el_key l) -> elems h ≡ₚ l ->
  view h = list_to_map (map (fun e => (el_key e, el_owner e)) l).
Proof. intros Hnd Hp. symmetry. by apply view_perm. Qed.

Lemma middle_out {A} (l p q R : list A) x : l ≡ₚ (p ++ x :: q) ++ R -> l ≡ₚ x :: p ++ q ++ R.
Proof. intros ->. rewrite <- app_assoc. symmetry. apply Permutation_middle. Qed.

Lemma set_ok `{Alloc} unique h key o :
  map_ok h -> hkey_wf key -> linked h o = false -> h_num_elems h < 2 ^ 32 - 1 ->
  match view h !! key, unique with
  | Some _, true => hashmap_set unique key o h = (Err E_PARAM, h)
  | old, _ => exists r h', hashmap_set unique key o h = (Ok r, h') /\ map_ok h' /\
      view h' = <[key := o]> (view h) /\ el_owner <$> r = old
  end.
Proof.
  intros Hok Hw Hl Hlt. pose proof Hok as [(k & Hk & Hp & Hm) Hnd Ho [Hc Hc2]].
  pose proof (hash_key_range key Hw) as Hh. unfold is_u32 in Hh.
  destruct (bucket_of h k (hash_key key) Hp Hm) as (Hidx & b & E & Hb); [lia|lia|].
  unfold hashmap_set. rewrite Hl. cbn [el_hash]. rewrite E, Hidx. clear E.
  set (elem := mkElem o key (hash_key key)).
  assert (Hokb : forall e, e ∈ b -> elem_ok e) by (intros e He; by eapply Hp).
  assert (Hel : elem_ok elem /\ el_hash elem mod 2 ^ k
    = Z.of_nat (Z.to_nat (hash_key key mod 2 ^ k))).
  { split; [done|]. simpl. rewrite Z2Nat.id; [done|]. apply Z.mod_pos_bound. lia. }
  pose proof (replace_elem_spec elem b Hw Hokb) as Hr.
  destruct (elems_insert h _ _ Hb) as (R & Ep & Ep').
  apply linked_spec in Hl.
  destruct (replace_elem elem b) as [[old b']|].
  - destruct Hr as (p & q & -> & -> & Hko). simpl in Hko.
    assert (P1 : elems h ≡ₚ old :: p ++ q ++ R) by (by apply middle_out).
    assert (N1 : NoDup (map el_key (old :: p ++ q ++ R))) by (eapply perm_nodup; [symmetry|]; done).
    assert (V1 : view h = <[key := el_owner old]> (list_to_map (map (fun e => (el_key e, el_owner e)) (p ++ q ++ R))))
      by (rewrite (view_of _ _ N1 P1); simpl; by rewrite Hko).
    rewrite V1, lookup_insert_eq. destruct unique; [done|]. rewrite insert_insert_eq.
    eexists _, _. split; [done|]. set (h' := set_buckets _ h).
    assert (P2 : elems h' ≡ₚ elem :: p ++ q ++ R).
    { apply middle_out, Ep'. }
    assert (N2 : NoDup (map el_key (elem :: p ++ q ++ R))) by (simpl in *; by rewrite <- Hko).
    split; [|split; [by rewrite (view_of _ _ N2 P2)|done]]. split.
    + exists k. split; [done|]. split; [|done]. eapply placed_insert; [done|done|].
      intros e He. destruct (decide (e = elem)) as [->|]; [by right|left; set_solver].
    + eapply perm_nodup; [exact P2|done].
    + eapply perm_nodup; [exact P2|]. rewrite P1 in Hl. simpl in Hl |- *.
      apply (perm_nodup el_owner) with (l1 := old :: p ++ q ++ R) in Ho; [|by symmetry].
      simpl in Ho. apply NoDup_cons in Ho as [_ Ho]. apply NoDup_cons. set_solver.
    + assert (El : zlen (elems h') = zlen (elems h))
        by (unfold zlen; by rewrite (Permutation_length P1), (Permutation_length P2)).
      rewrite El. done.
  - assert (Hv : view h !! key = None).
    { apply view_none; [done|]. intros e He Hkey. apply (Hr e); [|done].
      eapply in_bucket; [done|lia|done|done|done|done]. }
    rewrite Hv.
    set (h1 := set_num_elems _ _).
    assert (P1 : elems h1 ≡ₚ elem :: elems h).
    { rewrite Ep. unfold h1, elems. cbn. rewrite Ep', <- app_assoc. symmetry. apply Permutation_middle. }
    assert (N1 : NoDup (map el_key (elem :: elems h))).
    { simpl. apply NoDup_cons. split; [|done]. rewrite list_elem_of_fmap.
      intros (e & Ee & He). by apply (proj1 (view_none h key Hnd) Hv e). }
    assert (Hok1 : map_ok h1).
    { split.
      - exists k. split; [done|]. split; [|done]. eapply placed_insert; [done|done|].
        intros e [?|Hs]%elem_of_app; [by left|]. apply list_elem_of_singleton in Hs as ->. by right.
      - eapply perm_nodup; [exact P1|done].
      - eapply perm_nodup; [exact P1|]. simpl. by apply NoDup_cons.
      - change (h_num_elems h1) with (u64 (h_num_elems h + 1)).
        assert (El : zlen (elems h1) = h_num_elems h + 1).
        { unfold zlen. rewrite (Permutation_length P1). simpl. rewrite Hc. unfold zlen. lia. }
        rewrite El. pose proof (zlen_nonneg (elems h)).
        rewrite u64_small by (unfold is_u64; lia). lia. }
    destruct (rehash_ok h1 Hok1) as (h2 & E2 & Hok2 & P2). fold h1. rewrite E2.
    assert (V : view h2 = <[key := o]> (view h)).
    { by rewrite (view_of (elem :: elems h) h2 N1) by (by rewrite P2). }
    destruct unique; (eexists _, _; split; [done|]; done).
Qed.

(** Taking [x] out of its bucket. *)
Lemma shrink_ok h k i p x q :
  map_ok h -> placed k (h_buckets h) -> h_mask h = 2 ^ k - 1 -> 5 <= k <= 32 ->
  h_buckets h !! i = Some (p ++ x :: q) ->
  let h' := mkMap (h_num_elems h - 1) (<[i := p ++ q]> (h_buckets h)) (h_mask h) in
  h_num_elems h <> 0 /\ map_ok h' /\ elems h ≡ₚ x :: elems h' /\
  view h' = delete (el_key x) (view h).
Proof.
  intros [_ Hnd Ho [Hc Hc2]] Hp Hm Hk Hb h'.
  destruct (elems_insert h _ _ Hb) as (R & Ep & Ep').
  assert (P : elems h ≡ₚ x :: elems h').
  { apply middle_out in Ep. rewrite Ep. apply perm_skip. unfold h', elems. cbn.
    by rewrite Ep', <- app_assoc. }
  assert (El : zlen (elems h) = 1 + zlen (elems h'))
    by (unfold zlen; rewrite (Permutation_length P); simpl; lia).
  pose proof (zlen_nonneg (elems h')).
  assert (N1 : NoDup (map el_key (x :: elems h'))) by (eapply perm_nodup; [symmetry|]; done).
  assert (N2 : NoDup (map el_owner (x :: elems h'))) by (eapply perm_nodup; [symmetry|]; done).
  simpl in N1, N2. apply NoDup_cons in N2 as [_ N2].
  splits; [lia| |done|].
  - split.
    + exists k. split; [done|]. split; [|done]. eapply placed_insert; [done|done|].
      intros e He. left. set_solver.
    + apply NoDup_cons in N1. apply N1.
    + done.
    + change (h_num_elems h') with (h_num_elems h - 1). lia.
  - rewrite (view_of (x :: elems h') h N1 P). simpl. rewrite delete_insert_id; [done|].
    apply not_elem_of_list_to_map_1. rewrite <- list_fmap_compose.
    by apply NoDup_cons in N1 as [? _].
Qed.

Lemma del_ok h key :
  map_ok h -> hkey_wf key ->
  exists r h', hashmap_del key h = (Ok r, h') /\ map_ok h' /\
    view h' = delete key (view h) /\ el_owner <$> r = view h !! key.
Proof.
  intros Hok Hw. pose proof Hok as [(k & Hk & Hp & Hm) Hnd _ _].
  pose proof (hash_key_range key Hw) as Hh. unfold is_u32 in Hh.
  destruct (bucket_of h k (hash_key key) Hp Hm) as (Hidx & b & E & Hb); [lia|lia|].
  unfold hashmap_del. rewrite E, Hidx.
  assert (Hokb : forall e, e ∈ b -> elem_ok e) by (intros e He; by eapply Hp).
  pose proof (unlink_spec (fun e => hash_elem_match key (el_key e)) b) as Hu.
  destruct (unlink _ b) as [[x b']|].
  - destruct Hu as (p & q & -> & -> & Hx & _).
    destruct (shrink_ok h k _ p x q Hok Hp Hm Hk Hb) as (Hn0 & Hok' & P & V).
    apply match_spec in Hx; [|done|apply Hokb; set_solver]. subst key.
    unfold st_bind, dec_elems. cbn [set_buckets h_num_elems].
    destruct (Z.eqb_spec (h_num_elems h) 0); [done|].
    eexists _, _. split; [done|]. split; [exact Hok'|]. split; [exact V|].
    symmetry. apply view_lookup; [done|]. exists x. splits; [|done|done].
    rewrite P. set_solver.
  - assert (Hv : view h !! key = None).
    { apply view_none; [done|]. intros e He Hkey. subst key.
      assert (Hin : e ∈ b) by (eapply in_bucket; [done|lia|done|done|done|done]).
      specialize (Hu e Hin). simpl in Hu. by rewrite (proj2 (match_spec _ _ Hw Hw)) in Hu. }
    exists None, h. rewrite Hv, delete_id by done. done.
Qed.

Lemma remove_ok h o :
  map_ok h ->
  exists h', hash_elem_remove o h = (Ok tt, h') /\ map_ok h' /\
    match List.find (fun e => el_owner e =? o) (elems h) with
    | None => h' = h /\ o ∉ map el_owner (elems h)
    | Some x => el_owner x = o /\ elems h ≡ₚ x :: elems h' /\
        view h' = delete (el_key x) (view h) /\ h_mask h' = h_mask h /\
        (forall i b, h_buckets h !! i = Some b -> x ∈ b ->
           drop (S i) (h_buckets h') = drop (S i) (h_buckets h))
    end.
Proof.
  intros Hok. pose proof Hok as [(k & Hk & Hp & Hm) Hnd Ho [Hc _]].
  unfold hash_elem_remove. fold (elems h).
  destruct (List.find _ (elems h)) as [x|] eqn:Ef.
  - apply find_some in Ef as [Hin Hx]. apply Z.eqb_eq in Hx. apply list_elem_of_In in Hin.
    destruct (Z.eqb_spec (h_num_elems h) 0) as [H0|_].
    { rewrite H0 in Hc. symmetry in Hc. apply zlen_0_nil in Hc. rewrite Hc in Hin. set_solver. }
    pose proof Hin as Hin2. unfold elems in Hin2.
    apply list_elem_of_In, in_concat in Hin2 as (b0 & Hb0 & Hin0).
    apply list_elem_of_In in Hin0. apply list_elem_of_In, list_elem_of_lookup in Hb0 as [i0 Hb0].
    destruct Hp as [Hpl Hpp] eqn:EHp. clear EHp. pose proof (conj Hpl Hpp) as Hp'.
    destruct (Hpp _ _ _ Hb0 Hin0) as [[Hxw Hxh] Hxi].
    pose proof (hash_key_range _ Hxw) as Hh. unfold is_u32 in Hh. rewrite <- Hxh in Hh.
    destruct (bucket_of h k (el_hash x) Hp' Hm) as (Hidx & b & E & Hb); [lia|lia|].
    unfold bucket_idx, set_num_elems, set_buckets in *. cbn [h_buckets h_mask h_num_elems] in *.
    rewrite E, Hidx. rewrite Hxi, Nat2Z.id in *. assert (b = b0) as -> by congruence.
    pose proof (unlink_spec (fun e => el_owner e =? o) b0) as Hu.
    destruct (unlink _ b0) as [[y b']|].
    + destruct Hu as (p & q & -> & -> & Hy & _). apply Z.eqb_eq in Hy.
      destruct (shrink_ok h k i0 p y q Hok Hp' Hm Hk Hb) as (_ & Hok' & P & V).
      assert (y = x) as ->.
      { apply (nodup_map_inj el_owner (elems h)); [done| |done|congruence].
        rewrite P. set_solver. }
      eexists. split; [done|]. split; [exact Hok'|]. split; [done|]. split; [exact P|].
      split; [exact V|]. split; [done|]. intros i b Hi Hxb. destruct (Hpp _ _ _ Hi Hxb) as [_ Hm'].
      assert (i = i0) as -> by lia. cbn. by rewrite drop_insert_lt by lia.
    + specialize (Hu x Hin0). simpl in Hu. by apply Z.eqb_neq in Hu.
  - exists h. splits; [done..|]. change (map ?f ?l) with (f <$> l).
    intros (e & -> & He)%list_elem_of_fmap. apply list_elem_of_In in He.
    pose proof (find_none _ _ Ef e He) as Hf. simpl in Hf. by apply Z.eqb_neq in Hf.
Qed.

(** *** Iteration *)

(** The elements an iterator has still to return. *)
Definition remaining (h : hashmap_t) (t : hashmap_trav_t) : list hash_elem_t :=
  match t_current t with
  | None => concat (drop (Z.to_nat (t_bucket_idx t)) (h_buckets h))
  | Some _ => t_next t ++ concat (drop (Z.to_nat (t_bucket_idx t + 1)) (h_buckets h))
  end.

Lemma next_nonempty_spec bs i :
  match next_nonempty_bucket bs i with
  | None => concat bs = []
  | Some (j, b) => exists n, j = i + Z.of_nat n /\ bs !! n = Some b /\ b <> [] /\
      concat bs = b ++ concat (drop (S n) bs)
  end.
Proof.
  revert i. induction bs as [|[|e b] bs IH]; intros i; simpl; [done| |].
  - specialize (IH (i + 1)). destruct (next_nonempty_bucket bs (i + 1)) as [[j b]|]; [|done].
    destruct IH as (n & -> & Hn & Hb & Hc). exists (S n). splits; [lia|done|done|done].
  - exists 0%nat. splits; [lia|done|done|done].
Qed.

(** A cursor of the iterator: what hangs from [next] is in its bucket. *)
Definition trav_ok (h : hashmap_t) (t : hashmap_trav_t) : Prop :=
  0 <= t_bucket_idx t /\
  forall e, e ∈ t_next t -> e ∈ elems h /\ bucket_idx h (el_hash e) = t_bucket_idx t.

Lemma own_bucket h e :
  map_ok h -> e ∈ elems h ->
  0 <= bucket_idx h (el_hash e) /\
  exists b, h_buckets h !! Z.to_nat (bucket_idx h (el_hash e)) = Some b /\ e ∈ b.
Proof.
  intros [(k & Hk & Hp & Hm) _ _ _] He. pose proof Hp as [_ Hpp].
  apply list_elem_of_In, in_concat in He as (b & Hb & He).
  apply list_elem_of_In in He. apply list_elem_of_In, list_elem_of_lookup in Hb as [i Hb].
  destruct (Hpp i b e Hb He) as [_ Hi]. unfold bucket_idx. rewrite Hm, land_mask, Hi by lia.
  split; [lia|]. rewrite Nat2Z.id. eauto.
Qed.

Lemma bucket_elems h i b e :
  map_ok h -> h_buckets h !! i = Some b -> e ∈ b ->
  e ∈ elems h /\ bucket_idx h (el_hash e) = Z.of_nat i.
Proof.
  intros [(k & Hk & [_ Hp] & Hm) _ _ _] Hb He. split.
  - apply list_elem_of_In, in_concat. exists b. split; apply list_elem_of_In; [|done].
    by eapply list_elem_of_lookup_2.
  - destruct (Hp i b e Hb He) as [_ Hi]. unfold bucket_idx. by rewrite Hm, land_mask by lia.
Qed.

Lemma from_bucket_spec h i :
  map_ok h -> 0 <= i ->
  match from_bucket h i with
  | None => concat (drop (Z.to_nat i) (h_buckets h)) = []
  | Some (e, t) => concat (drop (Z.to_nat i) (h_buckets h)) = e :: remaining h t /\
      trav_ok h t /\ e ∈ elems h /\ bucket_idx h (el_hash e) = t_bucket_idx t /\
      t_current t = Some e
  end.
Proof.
  intros Hok Hi. unfold from_bucket.
  pose proof (next_nonempty_spec (drop (Z.to_nat i) (h_buckets h)) i) as Hs.
  destruct (next_nonempty_bucket _ _) as [[j [|e b]]|]; [by destruct Hs as (? & _ & _ & ? & _)| |done].
  destruct Hs as (n & -> & Hn & _ & Hc). rewrite lookup_drop in Hn.
  assert (Hall : forall x, x ∈ e :: b ->
    x ∈ elems h /\ bucket_idx h (el_hash x) = i + Z.of_nat n).
  { intros x Hx. destruct (bucket_elems h _ _ x Hok Hn Hx). split; [done|lia]. }
  splits.
  - rewrite Hc. unfold remaining. simpl. rewrite drop_drop. do 4 f_equal. lia.
  - split; [simpl; lia|]. intros x Hx. apply Hall. simpl in Hx. set_solver.
  - apply Hall. set_solver.
  - apply Hall. set_solver.
  - done.
Qed.

Lemma next_spec h t :
  map_ok h -> trav_ok h t ->
  match hashmap_next h t with
  | None => remaining h t = []
  | Some (e, t') => remaining h t = e :: remaining h t' /\
      trav_ok h t' /\ e ∈ elems h /\ bucket_idx h (el_hash e) = t_bucket_idx t' /\
      t_current t' = Some e
  end.
Proof.
  intros Hok [H0 Hn]. destruct t as [i c n]. unfold hashmap_next.
  cbn [t_current t_next t_bucket_idx] in *. destruct c as [c|].
  - change (remaining h (mkTrav i (Some c) n)) with
      (n ++ concat (drop (Z.to_nat (i + 1)) (h_buckets h))).
    destruct n as [|e rest].
    + apply from_bucket_spec; [done|lia].
    + splits; [done| |apply Hn; set_solver|apply Hn; set_solver|done].
      split; [done|]. intros x Hx. simpl in Hx. apply Hn. set_solver.
  - change (remaining h (mkTrav i None n)) with (concat (drop (Z.to_nat i) (h_buckets h))).
    by apply from_bucket_spec.
Qed.

(** A whole traversal; the elements [keep] rejects are removed while visited. *)
Fixpoint visit (fuel : nat) (keep : hash_elem_t -> bool) (h : hashmap_t) (t : hashmap_trav_t)
  : list hash_elem_t * hashmap_t :=
  match fuel with
  | O => ([], h)
  | S f =>
      match hashmap_next h t with
      | None => ([], h)
      | Some (e, t') =>
          let h' := if keep e then h else snd (hash_elem_remove (el_owner e) h) in
          let '(r, h'') := visit f keep h' t' in (e :: r, h'')
      end
  end.

Lemma remove_elem_ok h e :
  map_ok h -> e ∈ elems h ->
  exists h', hash_elem_remove (el_owner e) h = (Ok tt, h') /\ map_ok h' /\
    elems h ≡ₚ e :: elems h' /\ view h' = delete (el_key e) (view h) /\ h_mask h' = h_mask h /\
    (forall i b, h_buckets h !! i = Some b -> e ∈ b ->
       drop (S i) (h_buckets h') = drop (S i) (h_buckets h)).
Proof.
  intros Hok He. destruct (remove_ok h (el_owner e) Hok) as (h' & E & Hok' & Hr).
  destruct (List.find _ (elems h)) as [x|] eqn:Ef.
  - destruct Hr as (Ho & P & V & M & D). assert (x = e) as ->; [|by exists h'].
    apply find_some in Ef as [Hin _]. apply list_elem_of_In in Hin.
    apply (nodup_map_inj el_owner (elems h)); [apply Hok|done|done|done].
  - destruct Hr as [_ Hn]. destruct Hn. apply list_elem_of_fmap. by exists e.
Qed.

Lemma visit_ok f keep h t l :
  map_ok h -> trav_ok h t -> remaining h t = l -> (length l < f)%nat -> NoDup l ->
  exists h', visit f keep h t = (l, h') /\ map_ok h' /\
    elems h ≡ₚ filter (fun e => keep e = false) l ++ elems h'.
Proof.
  revert h t l. induction f as [|f IH]; intros h t l Hok Ht Hl Hf Hnd; [lia|]. simpl.
  pose proof (next_spec h t Hok Ht) as Hn. destruct (hashmap_next h t) as [[e t']|].
  - destruct Hn as (Hr & Ht' & He & Hi & Hcur). rewrite Hr in Hl. subst l. simpl in Hf.
    apply NoDup_cons in Hnd as [Hne Hnd].
    destruct (keep e) eqn:Ek.
    + destruct (IH h t' _ Hok Ht' eq_refl) as (h' & -> & Hok' & P); [lia|done|].
      exists h'. splits; [done..|]. by rewrite filter_cons_False by congruence.
    + destruct (remove_elem_ok h e Hok He) as (h1 & E & Hok1 & P1 & _ & M & D). rewrite E. simpl.
      destruct (own_bucket h e Hok He) as (Hi0 & b & Hb & Heb). rewrite Hi in Hb, Hi0.
      specialize (D _ b Hb Heb).
      assert (Hrem : remaining h1 t' = remaining h t').
      { unfold remaining. rewrite Hcur.
        replace (Z.to_nat (t_bucket_idx t' + 1)) with (S (Z.to_nat (t_bucket_idx t'))) by lia.
        by rewrite D. }
      assert (Ht1 : trav_ok h1 t').
      { split; [apply Ht'|]. intros x Hx. destruct (proj2 Ht' x Hx) as [Hxe Hxi]. split.
        - rewrite P1 in Hxe. apply elem_of_cons in Hxe as [->|?]; [|done].
          destruct Hne. unfold remaining. rewrite Hcur. set_solver.
        - unfold bucket_idx in *. by rewrite M. }
      destruct (IH h1 t' _ Hok1 Ht1 eq_refl) as (h' & E2 & Hok' & P);
        [rewrite Hrem; lia|by rewrite Hrem|].
      rewrite E2. exists h'. rewrite Hrem. splits; [done..|].
      rewrite filter_cons_True by done. simpl. rewrite P1, P, Hrem. done.
  - subst l. exists h. rewrite Hn. done.
Qed.

(** ** The interface of a map from keys to owners

    What a client of a hash map relies on: a view as a finite map, and what each
    operation does to it. [fits] says a table can take one more element. *)
Class KeyMap (M : Type) := {
  km_ok : M -> Prop;
  km_view : M -> gmap hash_key_t Z;
  km_get : hash_key_t -> M -> res (option Z);
  km_set : hash_key_t -> Z -> M -> res (option Z) * M;
  km_del : hash_key_t -> M -> res (option Z) * M;
  km_fits : hash_key_t -> Z -> M -> Prop
}.
Class KeyMapLaws M `{KeyMap M} := {
  km_get_spec : forall m k, km_ok m -> hkey_wf k -> km_get k m = Ok (km_view m !! k);
  km_set_spec : forall m k o, km_ok m -> hkey_wf k -> km_fits k o m ->
    exists m', km_set k o m = (Ok (km_view m !! k), m') /\ km_ok m' /\
      km_view m' = <[k := o]> (km_view m);
  km_del_spec : forall m k, km_ok m -> hkey_wf k ->
    exists m', km_del k m = (Ok (km_view m !! k), m') /\ km_ok m' /\
      km_view m' = delete k (km_view m)
}.

(** The owners of the elements an operation returns. *)
Definition owners (r : res (option hash_elem_t) * hashmap_t) : res (option Z) * hashmap_t :=
  ((let! x := fst r in Ok (el_owner <$> x)), snd r).

#[export] Instance hashmap_keymap `{Alloc} : KeyMap hashmap_t := {
  km_ok := map_ok;
  km_view := view;
  km_get k h := let! x := hashmap_get k h in Ok (el_owner <$> x);
  km_set k o h := owners (hashmap_set false k o h);
  km_del k h := owners (hashmap_del k h);
  km_fits k o h := linked h o = false /\ h_num_elems h < 2 ^ 32 - 1
}.

#[export] Instance hashmap_keymap_laws `{Alloc} : KeyMapLaws hashmap_t.
Proof.
  split; cbn.
  - intros m k Hok Hw. destruct (get_ok m k Hok Hw) as (r & -> & Hr & _). cbn. by rewrite Hr.
  - intros m k o Hok Hw [Hl Hn]. pose proof (set_ok false m k o Hok Hw Hl Hn) as Hs.
    destruct (view m !! k); destruct Hs as (r & m' & E & Hok' & V & Hr);
      exists m'; unfold owners; rewrite E; cbn; by rewrite Hr.
  - intros m k Hok Hw. destruct (del_ok m k Hok Hw) as (r & m' & E & Hok' & V & Hr).
    exists m'. unfold owners. rewrite E. cbn. by rewrite Hr.
Qed.

(** ** Claims *)

(** C26: a hash map of fewer than 2^32 - 1 elements behaves as a finite map from keys to owners,
    through growth and whether or not the allocations of growth succeed: lookups, inserts,
    unique inserts (E_PARAM on a duplicate), deletes, and removal of an element. *)
Theorem hashmap_refines_map `{Alloc} h k o :
  map_ok h -> hkey_wf k ->
  (exists r, hashmap_get k h = Ok r /\ el_owner <$> r = view h !! k) /\
  (linked h o = false -> h_num_elems h < 2 ^ 32 - 1 ->
     (exists r h', hashmap_set false k o h = (Ok r, h') /\ map_ok h' /\
        view h' = <[k := o]> (view h) /\ el_owner <$> r = view h !! k) /\
     (if decide (is_Some (view h !! k))
      then hashmap_set true k o h = (Err E_PARAM, h)
      else exists h', hashmap_set true k o h = (Ok None, h') /\ map_ok h' /\
        view h' = <[k := o]> (view h))) /\
  (exists r h', hashmap_del k h = (Ok r, h') /\ map_ok h' /\
     view h' = delete k (view h) /\ el_owner <$> r = view h !! k) /\
  (forall e, e ∈ elems h -> exists h', hash_elem_remove (el_owner e) h = (Ok tt, h') /\
     map_ok h' /\ view h' = delete (el_key e) (view h)).
Proof.
  intros Hok Hw. splits.
  - destruct (get_ok h k Hok Hw) as (r & ? & ? & _). eauto.
  - intros Hl Hn. pose proof (set_ok false h k o Hok Hw Hl Hn) as H1.
    pose proof (set_ok true h k o Hok Hw Hl Hn) as H2. split.
    + by destruct (view h !! k).
    + destruct (view h !! k) as [x|]; case_decide as Hd; [done|by destruct Hd|by destruct Hd|].
      destruct H2 as (r & h' & E & ? & ? & Hr). destruct r; [done|]. eauto.
  - by apply del_ok.
  - intros e He. destruct (remove_elem_ok h e Hok He) as (h' & ? & ? & _ & ? & _). eauto.
Qed.

(** C27: a traversal returns every element exactly once, in bucket order, even when the caller
    removes elements as it visits them; what it kept is what is left. *)
Theorem hashmap_traversal h keep :
  map_ok h ->
  exists h', visit (S (length (elems h))) keep h (mkTrav 0 None []) = (elems h, h') /\ map_ok h' /\
    elems h ≡ₚ filter (fun e => keep e = false) (elems h) ++ elems h'.
Proof.
  intros Hok. apply visit_ok; [done| |done|lia|].
  - split; [done|]. intros e He. simpl in He. set_solver.
  - apply (NoDup_fmap_1 el_owner). apply Hok.
Qed.

(** A table with two elements. *)
Definition empty_map : hashmap_t := mkMap 0 (replicate 32 []) 31.
Definition one_map : hashmap_t := snd (hashmap_set (H := always) false (key_uint 7) 1 empty_map).
Definition two_map : hashmap_t := snd (hashmap_set (H := always) false (key_str (lit "ab")) 2 one_map).

Lemma set_map_ok `{Alloc} h key o :
  map_ok h -> hkey_wf key -> linked h o = false -> h_num_elems h < 2 ^ 32 - 1 ->
  map_ok (snd (hashmap_set false key o h)).
Proof.
  intros Hok Hw Hl Hn. pose proof (set_ok false h key o Hok Hw Hl Hn) as Hs.
  destruct (view h !! key); destruct Hs as (r & h' & -> & Hok' & _); done.
Qed.

Lemma two_map_ok : map_ok two_map.
Proof.
  apply set_map_ok; [apply set_map_ok| | |]; try done.
  - apply (init_map_ok (H := always)). reflexivity.
  - apply (bool_decide_unpack _). vm_compute. done.
Qed.

Lemma hashmap_refines_map_witness :
  exists r h', hashmap_del (key_uint 7) two_map = (Ok r, h') /\ map_ok h' /\
    view h' = delete (key_uint 7) (view two_map) /\ el_owner <$> r = view two_map !! key_uint 7.
Proof.
  refine (proj1 (proj2 (proj2 (hashmap_refines_map (H := always) two_map (key_uint 7) 0
    two_map_ok _)))).
  vm_compute. intuition congruence.
Defined.

Lemma hashmap_traversal_witness :
  exists h', visit 3 (fun e => el_owner e =? 1) two_map (mkTrav 0 None []) = (elems two_map, h') /\
    map_ok h' /\
    elems two_map ≡ₚ filter (fun e => (el_owner e =? 1) = false) (elems two_map) ++ elems h'.
Proof. exact (hashmap_traversal two_map (fun e => el_owner e =? 1) two_map_ok). Defined.
