(* ===== verification/LogFile.v ===== *)
(** * The log of a mailbox (libimaildir/log_file.c)

    A file of lines, one per write; a later line for the same key replaces an earlier one,
    and a file with many replaced lines is compacted. The file system is an oracle that
    may let any operation fail, a write after any number of bytes. Reading and writing the
    temporary file of a compaction or of [imaildir_log_open] count as one operation where the
    code has several that can only fail; the rename is atomic. Allocations outside the hash map
    succeed. *)

From stdpp Require Import gmultiset.
From S2P Require Import Prelude Dstr Fmt Cvt Msg MaildirLog Hashmap.

#[export] Instance msg_key_countable : Countable msg_key_t.
Proof.
  apply (inj_countable' (fun k => (uid_up k, uid_local k)) (fun p => mkKey p.1 p.2)). by intros [].
Defined.

(** ** State *)

Definition MAX_LINE_LEN : Z := 1024.

(** [l_f] is whether the stream is open. *)
Record log_t := mkLog { l_f : bool; l_lines : Z; l_updates : Z; l_uidvld_up : Z; l_uidvld_dn : Z; l_himodseq_up : Z }.
(** The log, the file and the number of file operations so far. *)
Record world := mkWorld { w_log : log_t; w_cache : bytes; w_tick : Z }.

(** Whether an operation succeeds, and how much of a failed write is in the file. *)
Class Io := { io_ok : Z -> bool; io_written : Z -> nat }.

Section log_file.
Context `{Alloc} `{Io}.

Definition get_w : stm world world := fun w => (Ok w, w).
Definition mod_log (f : log_t -> log_t) : stm world unit := fun w => (Ok tt, mkWorld (f (w_log w)) (w_cache w) (w_tick w)).
Definition set_f (b : bool) (l : log_t) : log_t := mkLog b (l_lines l) (l_updates l) (l_uidvld_up l) (l_uidvld_dn l) (l_himodseq_up l).
Definition set_counts (lines updates : Z) (l : log_t) : log_t := mkLog (l_f l) lines updates (l_uidvld_up l) (l_uidvld_dn l) (l_himodseq_up l).
Definition set_vlds (up dn : Z) (l : log_t) : log_t := mkLog (l_f l) (l_lines l) (l_updates l) up dn (l_himodseq_up l).
Definition set_himodseq (n : Z) (l : log_t) : log_t := mkLog (l_f l) (l_lines l) (l_updates l) (l_uidvld_up l) (l_uidvld_dn l) n.
Definition set_cache (s : bytes) : stm world unit := fun w => (Ok tt, mkWorld (w_log w) s (w_tick w)).

(** An operation on a file that has no other effect here: opening, reading, fsync. *)
Definition io : stm world unit := fun w =>
  (if io_ok (w_tick w) then Ok tt else Err E_OS, mkWorld (w_log w) (w_cache w) (w_tick w + 1)).
(** [dstr_fwrite(log->f, &buf)] *)
Definition fwrite_f (text : bytes) : stm world unit := fun w =>
  if negb (l_f (w_log w)) then (Stop OutOfBounds, w)
  else if io_ok (w_tick w) then (Ok tt, mkWorld (w_log w) (w_cache w ++ text) (w_tick w + 1))
  else (Err E_OS, mkWorld (w_log w) (w_cache w ++ take (io_written (w_tick w)) text) (w_tick w + 1)).

(** ** Lines *)

Definition nl : Z := 10.
Definition nls : string := String (Ascii.ascii_of_nat 10) EmptyString.

(** [fgets] with room for [n] characters: the line, whether the end of the file was reached, the rest. *)
Fixpoint fgets (n : nat) (f : bytes) : bytes * bool * bytes :=
  match n, f with
  | O, _ => ([], false, f)
  | _, [] => ([], true, [])
  | S n, c :: f => if c =? nl then ([c], false, f) else let '(l, feof, r) := fgets n f in (c :: l, feof, r)
  end.
Fixpoint strnlen (s : bytes) : Z := match s with [] => 0 | c :: s => if c =? 0 then 0 else 1 + strnlen s end.

(** A line without its newline, or [None] for one that has none, with feof; then its length and the rest. *)
Definition next_line (f : bytes) : res (option bytes * bool * Z * bytes) :=
  let '(line, feof, rest) := fgets (Z.to_nat (MAX_LINE_LEN - 1)) f in
  let len := strnlen line in
  let! last := rd line (len - 1) in
  Ok (if last =? nl then (Some (take (Z.to_nat (len - 1)) line), feof, len, rest) else (None, feof, len, rest)).

(** ** Compaction *)

(** The structs of the hash map by address, and the next address. *)
Record mss_t := mkMss { s_h : hashmap_t; s_objs : gmap Z (bytes * bytes); s_next : Z }.

Definition compact_line (dline : bytes) (s : mss_t) : res mss_t :=
  let! ws := do_dstr_split2 dline (lit "|") 2 true in
  if negb (length ws =? 2)%nat then Err E_PARAM
  else
    let key := out ws 0 in
    let val := out ws 1 in
    if dstr_eq val (lit "1:0:0:x") then Ok s
    else
      match hashmap_sets key (s_next s) (s_h s) with
      | (Ok old, h) =>
          let objs := <[s_next s := (key, val)]> (s_objs s) in
          Ok (mkMss h (match old with Some e => delete (el_owner e) objs | None => objs end) (s_next s + 1))
      | (Err e, _) => Err e
      | (Stop x, _) => Stop x
      end.
Fixpoint compact_read (fuel : nat) (f : bytes) (s : mss_t) : stm world mss_t :=
  match fuel with
  | O => st_lift (Stop OutOfFuel)
  | S fuel =>
      do! _ := io in
      match f with
      | [] => st_ret s
      | _ =>
          do! (line, _, _, rest) := st_lift (next_line f) in
          match line with
          | None => st_fail E_PARAM
          | Some dline => do! s := st_lift (compact_line dline s) in compact_read fuel rest s
          end
      end
  end.
(** The contents of the temporary file and its lines. *)
Fixpoint compact_write (fuel : nat) (i : Z) (h : hashmap_t) (objs : gmap Z (bytes * bytes)) (text : bytes) (lines : Z) : stm world (bytes * Z) :=
  match fuel with
  | O => st_lift (Stop OutOfFuel)
  | S fuel =>
      match hashmap_pop_next i h with
      | (Ok None, _) => st_ret (text, lines)
      | (Ok (Some (elem, i)), h) =>
          match objs !! el_owner elem with
          | None => st_lift (Stop OutOfBounds)
          | Some (key, val) =>
              do! _ := io in
              compact_write fuel i h objs (text ++ render (lit ("%x|%x" ++ nls)) [FD key; FD val]) (u64 (lines + 1))
          end
      | (Err e, _) => st_fail e
      | (Stop x, _) => st_lift (Stop x)
      end
  end.

Definition maybe_compact : stm world unit :=
  do! w := get_w in
  if l_lines (w_log w) <? 1000 then st_ret tt
  else if u64 (l_lines (w_log w) * 3) >? u64 (l_updates (w_log w) * 4) then st_ret tt
  else
    do! _ := mod_log (set_f false) in
    do! h := st_lift hashmap_init in
    do! _ := io in
    do! s := compact_read (S (length (w_cache w))) (w_cache w) (mkMss h ∅ 0) in
    do! _ := io in
    do! (text, lines) := compact_write (S (Z.to_nat (h_num_elems (s_h s)))) 0 (s_h s) (s_objs s) [] 0 in
    do! _ := io in
    do! _ := io in
    do! _ := set_cache text in
    do! _ := mod_log (set_counts lines 0) in
    do! _ := io in
    mod_log (set_f true).

(** ** Writing *)

(** [DSTR_VAR(buf, MAX_LINE_LEN)] and what is put into it. *)
Definition buffer (m : stm dstr unit) : res bytes :=
  match m (mkD [] MAX_LINE_LEN true) with
  | (Ok _, d) => Ok (d_data d)
  | (Err e, _) => Err e
  | (Stop x, _) => Stop x
  end.
Definition write_line (m : stm dstr unit) : stm world unit :=
  do! line := st_lift (buffer m) in
  do! _ := fwrite_f line in
  do! _ := io in
  do! _ := mod_log (fun l => set_counts (u64 (l_lines l + 1)) (u64 (l_updates l + 1)) l) in
  maybe_compact.

Definition set_uidvlds (uidvld_up uidvld_dn : Z) : stm world unit :=
  do! _ := mod_log (set_vlds uidvld_up uidvld_dn) in
  write_line (do! _ := log_key_marshal LOG_KEY_UIDVLDS in FMT ("|%x:%x" ++ nls) [FU uidvld_up; FU uidvld_dn]).
Definition set_himodseq_up (himodseq_up : Z) : stm world unit :=
  do! _ := mod_log (set_himodseq himodseq_up) in
  write_line (do! _ := log_key_marshal LOG_KEY_HIMODSEQUP in FMT ("|%x" ++ nls) [FU himodseq_up]).
Definition set_explicit_modseq_dn (modseq_dn : Z) : stm world unit :=
  write_line (do! _ := log_key_marshal LOG_KEY_MODSEQDN in FMT ("|%x" ++ nls) [FU modseq_dn]).
Definition update_msg (msg : msg_t) : stm world unit :=
  write_line (do! _ := log_key_marshal (LOG_KEY_MSG (m_key msg)) in do! _ := dstr_append_quiet (lit "|") in
              do! _ := marshal_message msg in dstr_append_quiet (lit nls)).
Definition update_expunge (expunge : msg_expunge_t) : stm world unit :=
  write_line (do! _ := log_key_marshal (LOG_KEY_MSG (e_key expunge)) in do! _ := dstr_append_quiet (lit "|") in
              do! _ := marshal_expunge expunge in dstr_append_quiet (lit nls)).
Definition iface_close : stm world unit := mod_log (set_f false).

(** ** Opening *)

(** The log and the trees of the mailbox; the nodes of [mods] are their modseqs. *)
Record db_t := mkDb {
  db_log : log_t; db_msgs : gmap msg_key_t msg_t; db_expunged : gmap msg_key_t msg_expunge_t; db_mods : gmultiset Z; db_himodseq_dn : Z
}.

Definition read_one_value (key : msg_key_t) (value : bytes) (db : db_t) : res db_t :=
  let update l := set_counts (l_lines l) (u64 (l_updates l + 1)) l in
  let '(mkDb log msgs expunged mods hi) := db in
  let '(log, msgs, expunged, mods) :=
    match msgs !! key with
    | Some msg =>
        (update log, delete key msgs, expunged,
         if modseq (m_mod msg) >? 0 then mods ∖ {[+ modseq (m_mod msg) +]} else mods)
    | None =>
        match expunged !! key with
        | Some expunge => (update log, msgs, delete key expunged, mods ∖ {[+ modseq (e_mod expunge) +]})
        | None => (log, msgs, expunged, mods)
        end
    end in
  let! v := parse_value value key in
  match v with
  | inl msg =>
      let filled := bool_decide (m_state msg = MSG_FILLED) in
      if negb (modseq (m_mod msg) =? 0) && negb filled then Err E_INTERNAL
      else if (modseq (m_mod msg) =? 0) && filled then Err E_INTERNAL
      else Ok (mkDb log (<[key := msg]> msgs) expunged
                 (if modseq (m_mod msg) =? 0 then mods else mods ⊎ {[+ modseq (m_mod msg) +]}) hi)
  | inr expunge =>
      if (e_uid_dn expunge =? 0) && (modseq (e_mod expunge) =? 0) then Ok (mkDb (update log) msgs expunged mods hi)
      else Ok (mkDb log msgs (<[key := expunge]> expunged)
                 (if modseq (e_mod expunge) =? 0 then mods else mods ⊎ {[+ modseq (e_mod expunge) +]}) hi)
  end.

Definition read_line (dline : bytes) (db : db_t) : res db_t :=
  let update_if (b : bool) l := if b then set_counts (l_lines l) (u64 (l_updates l + 1)) l else l in
  let! ws := do_dstr_split2 dline (lit "|") 2 true in
  if negb (length ws =? 2)%nat then Err E_PARAM
  else
    let val := out ws 1 in
    let! lk := log_key_unmarshal (out ws 0) in
    let '(mkDb log msgs expunged mods hi) := db in
    match lk with
    | LOG_KEY_UIDVLDS =>
        let! (up, dn) := parse_uidvlds val in
        Ok (mkDb (set_vlds up dn (update_if (l_uidvld_up log >? 0) log)) msgs expunged mods hi)
    | LOG_KEY_HIMODSEQUP =>
        let! n := dstr_tou64 val 10 in
        Ok (mkDb (set_himodseq n (update_if (l_himodseq_up log >? 0) log)) msgs expunged mods hi)
    | LOG_KEY_MODSEQDN =>
        let! temp := dstr_tou64 val 10 in
        Ok (mkDb (update_if (l_himodseq_up log >? 0) log) msgs expunged mods (Z.max hi temp))
    | LOG_KEY_MSG key => read_one_value key val db
    end.

(** The trees, the length of the whole lines and whether the rest is to be cut off. *)
Fixpoint read_all_lines (fuel : nat) (f : bytes) (db : db_t) (valid_len : Z) : stm world (db_t * Z * bool) :=
  match fuel with
  | O => st_lift (Stop OutOfFuel)
  | S fuel =>
      do! _ := io in
      match f with
      | [] => st_ret (db, valid_len, false)
      | _ =>
          do! (line, feof, len, rest) := st_lift (next_line f) in
          match line with
          | None => if feof : bool then st_ret (db, valid_len, true) else st_fail E_PARAM
          | Some dline =>
              let log := db_log db in
              do! db := st_lift (read_line dline
                (mkDb (set_counts (u64 (l_lines log + 1)) (l_updates log) log) (db_msgs db) (db_expunged db) (db_mods db) (db_himodseq_dn db))) in
              read_all_lines fuel rest db (valid_len + len)
          end
      end
  end.
Definition read_all_keys (f : bytes) : stm world (db_t * Z * bool) :=
  do! (db, valid_len, want_trunc) := read_all_lines (S (length f)) f (mkDb (mkLog false 0 0 0 0 0) ∅ ∅ ∅ 1) 0 in
  let hi := match elements (db_mods db) with [] => db_himodseq_dn db | ms => Z.max (db_himodseq_dn db) (foldr Z.max 0 ms) end in
  st_ret (mkDb (db_log db) (db_msgs db) (db_expunged db) (db_mods db) hi, valid_len, want_trunc).

(** On an error no log is open. *)
Definition imaildir_log_open : stm world db_t :=
  do! _ := io in
  do! _ := io in
  do! w := get_w in
  do! (db, valid_len, want_trunc) := read_all_keys (w_cache w) in
  do! _ := (if want_trunc : bool then
              do! _ := io in
              do! _ := io in
              do! _ := io in
              if zlen (w_cache w) <? valid_len then st_fail E_PARAM
              else
                do! _ := io in
                do! _ := io in
                set_cache (take (Z.to_nat valid_len) (w_cache w))
            else st_ret tt) in
  do! _ := io in
  do! _ := mod_log (fun _ => set_f true (db_log db)) in
  st_ret db.
End log_file.

(** ** Runs that may fail *)

Section outcomes.
Context {S : Type}.
(** The program returns, with the first property when it succeeds, with the second when it fails. *)
Definition outcome {A} (m : stm S A) (s : S) (Q : A -> S -> Prop) (R : S -> Prop) : Prop :=
  match m s with
  | (Ok a, s') => Q a s'
  | (Err _, s') => R s'
  | (Stop _, _) => False
  end.
Lemma out_ret {A} (a : A) s (Q : A -> S -> Prop) R : Q a s -> outcome (st_ret a) s Q R.
Proof. done. Qed.
Lemma out_bind {A B} (m : stm S A) (k : A -> stm S B) s Q R :
  outcome m s (fun a s' => outcome (k a) s' Q R) R -> outcome (st_bind m k) s Q R.
Proof. unfold outcome, st_bind. by destruct (m s) as [[a|e|x] s']. Qed.
Lemma out_mono {A} (m : stm S A) s (P Q : A -> S -> Prop) (P' Q' : S -> Prop) :
  outcome m s P P' -> (forall a s', P a s' -> Q a s') -> (forall s', P' s' -> Q' s') -> outcome m s Q Q'.
Proof. unfold outcome. destruct (m s) as [[a|e|x] s']; auto. Qed.
Lemma out_step {A B} (m : stm S A) (k : A -> stm S B) s (P : A -> S -> Prop) Q R :
  outcome m s P R -> (forall a s', P a s' -> outcome (k a) s' Q R) -> outcome (st_bind m k) s Q R.
Proof. intros Hm Hk. apply out_bind. by eapply out_mono. Qed.
Lemma out_lift {A} (m : res A) s a (Q : A -> S -> Prop) R : m = Ok a -> Q a s -> outcome (st_lift m) s Q R.
Proof. by intros ->. Qed.
End outcomes.

(** ** Lines of the file *)

Definition entry_text (p : bytes * bytes) : bytes := p.1 ++ chr "|" :: p.2.
Definition file_of (ps : list (bytes * bytes)) : bytes := concat (map (fun p => entry_text p ++ [nl]) ps).
(** A byte of a text without newline and NUL. *)
Definition plain (s : bytes) : Prop := Forall (fun c => is_byte c /\ c <> 0 /\ c <> nl) s.
Record pair_ok (p : bytes * bytes) : Prop := {
  pk_key : plain p.1; pk_val : plain p.2; pk_bar : chr "|" ∉ p.1; pk_len : zlen p.1 + zlen p.2 < 1000
}.

Lemma plain_app a b : plain (a ++ b) <-> plain a /\ plain b.
Proof. apply Forall_app. Qed.
Lemma plain_text p : pair_ok p -> plain (entry_text p) /\ entry_text p <> [] /\ zlen (entry_text p) < 1001.
Proof.
  intros [Hk Hv _ Hl]. unfold entry_text. split; [|split; [by destruct p.1|rewrite zlen_app, zlen_cons; lia]].
  apply plain_app. split; [done|]. constructor; [by vm_compute|done].
Qed.
Lemma file_of_app ps qs : file_of (ps ++ qs) = file_of ps ++ file_of qs.
Proof. unfold file_of. by rewrite map_app, concat_app. Qed.

Lemma file_of_cons p ps : file_of (p :: ps) = entry_text p ++ nl :: file_of ps.
Proof. unfold file_of. cbn [map concat]. by rewrite <- app_assoc. Qed.

Lemma file_of_length ps : (length ps <= length (file_of ps))%nat.
Proof. induction ps as [|p ps IH]; [done|]. rewrite file_of_cons, length_app. cbn. lia. Qed.

Lemma fgets_whole n l rest : plain l -> (length l < n)%nat -> fgets n (l ++ nl :: rest) = (l ++ [nl], false, rest).
Proof.
  revert n. induction l as [|c l IH]; intros [|n] Hp Hn; try (cbn in Hn; lia); [done|]. inversion Hp as [|? ? (_ & _ & Hc) Hp']; subst.
  cbn [app fgets]. rewrite (proj2 (Z.eqb_neq c nl) Hc), IH by (done || (cbn in Hn; lia)). done.
Qed.
Lemma fgets_part n l : plain l -> (length l < n)%nat -> fgets n l = (l, true, []).
Proof.
  revert n. induction l as [|c l IH]; intros [|n] Hp Hn; try (cbn in Hn; lia); [done|]. inversion Hp as [|? ? (_ & _ & Hc) Hp']; subst.
  cbn [fgets]. by rewrite (proj2 (Z.eqb_neq c nl) Hc), IH by (done || (cbn in Hn; lia)).
Qed.
Lemma strnlen_full s : Forall (fun c => c <> 0) s -> strnlen s = zlen s.
Proof. induction 1 as [|c s Hc _ IH]; [done|]. cbn. by rewrite (proj2 (Z.eqb_neq c 0) Hc), IH, zlen_cons, Z.add_comm. Qed.
Lemma plain_nonzero s : plain s -> Forall (fun c => c <> 0) s.
Proof. intros Hp. eapply Forall_impl; [exact Hp|]. cbn. tauto. Qed.

Lemma rd_last (l : bytes) c : rd (l ++ [c]) (zlen l) = Ok c.
Proof. rewrite <- (Z.add_0_r (zlen l)), rd_app_r by lia. done. Qed.
Lemma next_whole l rest : plain l -> zlen l < 1001 ->
  exists feof, next_line (l ++ nl :: rest) = Ok (Some l, feof, zlen l + 1, rest).
Proof.
  intros Hp Hl. unfold next_line. rewrite fgets_whole by (done || (unfold zlen, MAX_LINE_LEN in *; lia)).
  rewrite strnlen_full by (apply Forall_app; split; [by apply plain_nonzero|by repeat constructor]).
  rewrite zlen_app. change (zlen [nl]) with 1. replace (zlen l + 1 - 1) with (zlen l) by lia.
  rewrite rd_last. cbn [res_bind]. rewrite Z.eqb_refl. eexists.
  unfold zlen. by rewrite Nat2Z.id, take_app_length.
Qed.
Lemma next_part l : plain l -> zlen l < 1001 -> l <> [] -> next_line l = Ok (None, true, zlen l, []).
Proof.
  intros Hp Hl Hn. unfold next_line. rewrite fgets_part by (done || (unfold zlen, MAX_LINE_LEN in *; lia)).
  rewrite strnlen_full by (by apply plain_nonzero). destruct (exists_last (l := l)) as (l' & c & ->); [done|].
  rewrite zlen_app in *. change (zlen [c]) with 1 in *. replace (zlen l' + 1 - 1) with (zlen l') by lia.
  rewrite rd_last. cbn [res_bind]. apply plain_app in Hp as [_ Hc]. inversion Hc as [|? ? (_ & _ & Hc') _]; subst.
  rewrite (proj2 (Z.eqb_neq c nl) Hc'). done.
Qed.
Lemma split_entry p : pair_ok p -> do_dstr_split2 (entry_text p) (lit "|") 2 true = Ok [p.1; p.2].
Proof.
  intros [_ _ Hb _]. change (lit "|") with [chr "|"]. change (entry_text p) with (joinb (chr "|") ([p.1] ++ [p.2])).
  by rewrite split2_join; [|repeat constructor|intros [?|?]; [done|cbn in *; lia]|cbn; lia].
Qed.

(** ** What a file says *)

Definition content (ps : list (bytes * bytes)) : gmap bytes bytes := fold_left (fun m p => <[p.1 := p.2]> m) ps ∅.
Lemma content_snoc ps p : content (ps ++ [p]) = <[p.1 := p.2]> (content ps).
Proof. unfold content. by rewrite fold_left_app. Qed.
Lemma content_in ps k v : content ps !! k = Some v -> (k, v) ∈ ps.
Proof.
  induction ps as [|[a b] ps IH] using rev_ind; [done|]. rewrite content_snoc. cbn [fst snd]. intros Hl.
  apply elem_of_app. apply lookup_insert_Some in Hl as [[-> ->]|[_ Hl]]; [right; by left|left; by apply IH].
Qed.
Lemma content_nodup ps k v : NoDup ps.*1 -> content ps !! k = Some v <-> (k, v) ∈ ps.
Proof.
  intros Hn. split; [apply content_in|]. revert Hn. induction ps as [|[a b] ps IH] using rev_ind; intros Hn Hin; [by apply elem_of_nil in Hin|].
  rewrite content_snoc. cbn [fst snd]. rewrite fmap_app in Hn. apply NoDup_app in Hn as (Hn & Hd & _).
  apply elem_of_app in Hin as [Hin|Hin%list_elem_of_singleton]; [|injection Hin as -> ->; by rewrite lookup_insert_eq].
  rewrite lookup_insert_ne; [by apply IH|]. intros <-. apply (Hd a); [by apply (list_elem_of_fmap_2 fst) in Hin|by left].
Qed.

(** ** Compaction *)

(** The structs in the hash map make up a finite map. *)
Record mss_ok (s : mss_t) (m : gmap bytes bytes) : Prop := {
  ms_map : map_ok (s_h s);
  ms_in : forall k o, view (s_h s) !! k = Some o -> exists t v, k = key_str t /\ s_objs s !! o = Some (t, v) /\ m !! t = Some v /\ o < s_next s;
  ms_all : forall t v, m !! t = Some v -> is_Some (view (s_h s) !! key_str t);
  ms_count : h_num_elems (s_h s) <= s_next s
}.

Lemma num_elems_size h : map_ok h -> h_num_elems h = Z.of_nat (size (view h)).
Proof.
  intros [_ Hk _ [-> _]]. unfold view, zlen. rewrite map_size_list_to_map by (by rewrite <- list_fmap_compose). by rewrite length_map.
Qed.
Lemma owner_inj h k1 k2 o : map_ok h -> view h !! k1 = Some o -> view h !! k2 = Some o -> k1 = k2.
Proof.
  intros [_ Hk Ho _] (e1 & H1 & <- & E1)%view_lookup (e2 & H2 & <- & E2)%view_lookup; [|done..].
  f_equal. eapply (nodup_map_inj el_owner); [exact Ho|done|done|congruence].
Qed.

Section compaction.
Context `{Alloc} `{Io}.

Definition skipped (p : bytes * bytes) : bool := dstr_eq p.2 (lit "1:0:0:x").
Lemma compact_line_ok s m p : mss_ok s m -> pair_ok p -> 0 <= s_next s < 2 ^ 32 - 1 ->
  exists s', compact_line (entry_text p) s = Ok s' /\ mss_ok s' (if skipped p then m else <[p.1 := p.2]> m) /\ s_next s <= s_next s' <= s_next s + 1.
Proof.
  intros Hok Hp Hn. pose proof Hok as [Hm Hin Hall Hc]. unfold compact_line. rewrite split_entry by done. cbn [res_bind length negb Nat.eqb]. unfold out. cbn [lookup list_lookup default]. unfold id.
  change (dstr_eq p.2 _) with (skipped p). destruct (skipped p); [exists s; split; [done|split; [done|lia]]|].
  assert (hkey_wf (key_str p.1)) as Hw.
  { cbn. eapply Forall_impl; [apply (pk_key _ Hp)|]. cbn. tauto. }
  assert (linked (s_h s) (s_next s) = false) as Hl.
  { apply linked_spec. intros (e & Ee & He)%list_elem_of_fmap. destruct (Hin (el_key e) (el_owner e)) as (_ & _ & _ & _ & _ & ?); [|lia].
    apply view_lookup; [apply Hm|]. by exists e. }
  pose proof (set_ok false (s_h s) (key_str p.1) (s_next s) Hm Hw Hl) as Hs.
  assert (exists r h', hashmap_set false (key_str p.1) (s_next s) (s_h s) = (Ok r, h') /\ map_ok h' /\
      view h' = <[key_str p.1 := s_next s]> (view (s_h s)) /\ el_owner <$> r = view (s_h s) !! key_str p.1) as (r & h' & E & Hm' & Ev & Er).
  { destruct (view (s_h s) !! key_str p.1); apply Hs; lia. }
  unfold hashmap_sets. rewrite E. eexists. split; [done|]. cbn [s_h s_objs s_next]. split; [|lia]. constructor; cbn [s_h s_objs s_next].
  - done.
  - intros k o Hk. rewrite Ev in Hk. apply lookup_insert_Some in Hk as [[<- <-]|[Hne Hk]].
    + exists p.1, p.2. split; [done|]. split; [|split; [by rewrite lookup_insert_eq|lia]].
      destruct r as [e|]; [|by rewrite lookup_insert_eq, <- surjective_pairing].
      cbn in Er. symmetry in Er. destruct (Hin _ _ Er) as (_ & _ & _ & _ & _ & ?).
      rewrite lookup_delete_ne by lia. by rewrite lookup_insert_eq, <- surjective_pairing.
    + destruct (Hin _ _ Hk) as (t & v & -> & Ho & Hv & Hlt). exists t, v. split; [done|]. split; [|split; [|lia]].
      * assert (s_next s <> o) by lia. destruct r as [e|]; [|by rewrite lookup_insert_ne].
        rewrite lookup_delete_ne; [by rewrite lookup_insert_ne|]. intros Eo. apply Hne. cbn in Er. symmetry in Er. rewrite Eo in Er.
        exact (owner_inj _ _ _ _ Hm Er Hk).
      * rewrite lookup_insert_ne; [done|]. intros Et. apply Hne. by rewrite Et.
  - intros t v Hv. rewrite Ev. destruct (decide (key_str p.1 = key_str t)) as [Ek|Ek]; [rewrite Ek, lookup_insert_eq; by eexists|].
    rewrite lookup_insert_ne by done. rewrite lookup_insert_ne in Hv by (intros Et; by rewrite Et in Ek). by eapply Hall.
  - rewrite num_elems_size, Ev, map_size_insert by done. rewrite num_elems_size in Hc by done. destruct (view (s_h s) !! key_str p.1); cbn; lia.
Qed.

(** Only the count of file operations changes. *)
Definition same (w w' : world) : Prop := w_log w' = w_log w /\ w_cache w' = w_cache w.
Lemma out_io w (Q : unit -> world -> Prop) (R : world -> Prop) : (forall w', same w w' -> Q tt w' /\ R w') -> outcome io w Q R.
Proof. intros Hq. unfold outcome, io. destruct (Hq (mkWorld (w_log w) (w_cache w) (w_tick w + 1))); [done|]. by destruct (io_ok _). Qed.
Lemma io_step {A} w (k : unit -> stm world A) Q R : (forall w', same w w' -> R w' /\ outcome (k tt) w' Q R) -> outcome (st_bind io k) w Q R.
Proof. intros Hk. apply out_bind, out_io. intros w' Hs. destruct (Hk w' Hs). done. Qed.
Lemma same_trans w1 w2 w3 : same w1 w2 -> same w2 w3 -> same w1 w3.
Proof. intros [A B] [C D]. split; congruence. Qed.

Definition kept (ps : list (bytes * bytes)) : list (bytes * bytes) := filter (fun p => skipped p = false) ps.
Lemma compact_read_ok ps : forall fuel w s m, Forall pair_ok ps -> (length ps < fuel)%nat -> mss_ok s m -> 0 <= s_next s -> s_next s + zlen ps < 2 ^ 32 ->
  outcome (compact_read fuel (file_of ps) s) w
    (fun s' w' => same w w' /\ mss_ok s' (fold_left (fun m p => <[p.1 := p.2]> m) (kept ps) m)) (same w).
Proof.
  induction ps as [|p ps IH]; intros [|fuel] w s m Hp Hf Hs Hn Hz; try (cbn in Hf; lia).
  - cbn [compact_read file_of map concat]. apply io_step. intros w' Hw. split; [done|]. by apply out_ret.
  - inversion Hp as [|? ? Hpp Hps]; subst. cbn [compact_read]. apply io_step. intros w' Hw. split; [done|].
    rewrite file_of_cons. destruct (plain_text p Hpp) as (Ht & Hne & Hl). destruct (next_whole (entry_text p) (file_of ps) Ht Hl) as (feof & En).
    destruct (entry_text p ++ nl :: file_of ps) as [|c rest] eqn:Ef; [by destruct (entry_text p)|].
    apply out_bind. eapply out_lift; [exact En|]. rewrite zlen_cons in Hz. pose proof (zlen_nonneg ps).
    destruct (compact_line_ok s m p Hs Hpp) as (s' & E & Hs' & Hn'); [lia|]. apply out_bind. eapply out_lift; [exact E|].
    eapply out_mono; [apply (IH fuel w' s' (if skipped p then m else <[p.1 := p.2]> m) Hps); [cbn in Hf; lia|exact Hs'|lia|lia]| |].
    + intros s2 w2 [Hw2 Hs2]. split; [by eapply same_trans|]. revert Hs2. unfold kept. rewrite filter_cons. by destruct (skipped p).
    + intros w2 Hw2. by eapply same_trans.
Qed.

(** *** Popping all elements *)
Definition left (i : Z) (h : hashmap_t) : list hash_elem_t := concat (drop (Z.to_nat i) (h_buckets h)).
Lemma pop_next_ok h i : 0 <= i -> h_num_elems h = zlen (left i h) ->
  match left i h with
  | [] => hashmap_pop_next i h = (Ok None, h)
  | e :: rest => exists i' h', hashmap_pop_next i h = (Ok (Some (e, i')), h') /\ 0 <= i' /\ left i' h' = rest /\ h_num_elems h' = zlen rest
  end.
Proof.
  intros Hi Hn. unfold hashmap_pop_next. pose proof (next_nonempty_spec (drop (Z.to_nat i) (h_buckets h)) i) as Hs. unfold left in *.
  destruct (next_nonempty_bucket _ _) as [[j b]|]; [|by rewrite Hs].
  destruct Hs as (n & -> & Hb & Hne & Hc). destruct b as [|e b]; [done|]. rewrite Hc in *. cbn [app] in *.
  rewrite lookup_drop in Hb. unfold st_bind, dec_elems. cbn [h_num_elems set_buckets]. rewrite zlen_cons in Hn.
  pose proof (zlen_nonneg (b ++ concat (drop (S n) (drop (Z.to_nat i) (h_buckets h))))).
  rewrite (proj2 (Z.eqb_neq _ _)) by lia. eexists _, _. split; [done|]. split; [lia|]. cbn [h_buckets set_num_elems set_buckets h_num_elems]. split; [|lia].
  replace (Z.to_nat (i + Z.of_nat n)) with (Z.to_nat i + n)%nat by lia.
  apply lookup_lt_Some in Hb as Hlt. rewrite (drop_S _ b) by (by rewrite list_lookup_insert_eq by lia).
  cbn [concat]. rewrite drop_insert_lt by lia. rewrite drop_drop. do 3 f_equal. lia.
Qed.

Lemma compact_write_ok kvs : forall fuel w i h objs text n, 0 <= i -> h_num_elems h = zlen (left i h) ->
  Forall2 (fun e kv => objs !! el_owner e = Some kv) (left i h) kvs -> (length kvs < fuel)%nat ->
  outcome (compact_write fuel i h objs text n) w (fun r w' => same w w' /\ r.1 = text ++ file_of kvs) (same w).
Proof.
  induction kvs as [|[k v] kvs IH]; intros [|fuel] w i h objs text n Hi Hn Hf Hl; try (cbn in Hl; lia);
    pose proof (pop_next_ok h i Hi Hn) as Hp; cbn [compact_write].
  - apply Forall2_nil_inv_r in Hf. rewrite Hf in Hp. rewrite Hp. apply out_ret. by rewrite app_nil_r.
  - apply Forall2_cons_inv_r in Hf as (e & l & Ho & Hf & El). rewrite El in Hp. destruct Hp as (i' & h' & Ep & Hi' & Hl' & Hn'). rewrite Ep, Ho.
    apply io_step. intros w' Hw. split; [done|]. eapply out_mono; [apply (IH fuel w'); [done|by rewrite Hl'|by rewrite Hl'|cbn in Hl; lia]| |].
    + intros r w2 [Hw2 Er]. split; [by eapply same_trans|]. rewrite Er, file_of_cons, <- app_assoc. f_equal. unfold entry_text. render_norm. unfold nl. chr_norm. app_norm.
      cbn [fst snd]. by app_norm.
    + intros w2 Hw2. by eapply same_trans.
Qed.

(** The lines [ps'] say the same as [ps]. *)
Definition compacted (ps ps' : list (bytes * bytes)) : Prop := ps' = ps \/ NoDup ps'.*1 /\ content ps' = content (kept ps).
Lemma compacted_in ps ps' p : compacted ps ps' -> p ∈ ps' -> p ∈ ps.
Proof.
  intros [->|[Hn Hc]] Hp; [done|]. destruct p as [k v]. apply (content_nodup _ _ _ Hn) in Hp. rewrite Hc in Hp. apply content_in in Hp.
  by apply list_elem_of_filter in Hp as [_ ?].
Qed.
Lemma compacted_length ps ps' : compacted ps ps' -> zlen ps' <= zlen ps.
Proof.
  intros Hc. destruct (Hc) as [->|[Hn _]]; [done|]. unfold zlen. apply Nat2Z.inj_le.
  apply submseteq_length, NoDup_submseteq; [by apply NoDup_fmap_1 in Hn|]. intros p. by apply compacted_in.
Qed.

Lemma mss_ok_init h : hashmap_init = Ok h -> mss_ok (mkMss h ∅ 0) ∅.
Proof.
  intros E. destruct (init_map_ok h E) as [Hm Hv]. constructor; cbn [s_h s_objs s_next]; [done| |done|].
  - intros k o. by rewrite Hv.
  - by rewrite num_elems_size, Hv by done.
Qed.
Lemma Forall2_map_r {A B} (P : A -> B -> Prop) (f : A -> B) l : (forall a, a ∈ l -> P a (f a)) -> Forall2 P l (f <$> l).
Proof. induction l as [|a l IH]; intros Hp; constructor; [apply Hp; by left|]. apply IH. intros b Hb. apply Hp. by right. Qed.
(** What is popped from the hash map. *)
Lemma mss_pairs s m : mss_ok s m ->
  exists kvs, Forall2 (fun e kv => s_objs s !! el_owner e = Some kv) (elems (s_h s)) kvs /\ NoDup kvs.*1 /\ content kvs = m.
Proof.
  intros [Hm Hin Hall _]. assert (Hm' := Hm). destruct Hm as [_ Hk Ho _].
  pose (kv := fun e => default ([], []) (s_objs s !! el_owner e)).
  assert (forall e, e ∈ elems (s_h s) -> exists t v, el_key e = key_str t /\ s_objs s !! el_owner e = Some (t, v) /\ m !! t = Some v) as He.
  { intros e He. destruct (Hin (el_key e) (el_owner e)) as (t & v & Ek & Eo & Ev & _); [|by exists t, v]. apply view_lookup; [done|]. by exists e. }
  assert (NoDup (kv <$> elems (s_h s)).*1) as Hnd.
  { rewrite <- list_fmap_compose. clear Hall Hin Hm' Ho. induction (elems (s_h s)) as [|e l IH]; [constructor|]. cbn in Hk |- *.
    apply NoDup_cons in Hk as [Hn Hk]. apply NoDup_cons. split; [|apply IH; [done|intros e' He'; apply He; by right]].
    intros (e' & E & He')%list_elem_of_fmap. apply Hn. destruct (He e) as (t & v & Ek & Eo & _); [by left|]. destruct (He e') as (t' & v' & Ek' & Eo' & _); [by right|].
    unfold kv in E. cbn in E. rewrite Eo, Eo' in E. cbn in E. subst t'. apply list_elem_of_fmap. exists e'. by rewrite Ek. }
  exists (kv <$> elems (s_h s)). split; [|split; [done|]].
  - apply Forall2_map_r. intros e Hel. destruct (He e Hel) as (t & v & _ & Eo & _). unfold kv. by rewrite Eo.
  - apply map_eq. intros t. apply option_eq. intros v. rewrite content_nodup by done. rewrite list_elem_of_fmap. split.
    + intros (e & Ee & Hel). destruct (He e Hel) as (t' & v' & _ & Eo & Ev). unfold kv in Ee. rewrite Eo in Ee. cbn in Ee. by injection Ee as -> ->.
    + intros Hv. destruct (Hall t v Hv) as [o Hvw]. destruct (Hin _ _ Hvw) as (t' & v' & [= <-] & Eo & Ev & _).
      apply view_lookup in Hvw as (e & Hel & _ & <-); [|done]. exists e. split; [|done]. unfold kv. rewrite Eo. cbn. congruence.
Qed.

Definition says (ps : list (bytes * bytes)) (w : world) : Prop := exists ps', w_cache w = file_of ps' /\ compacted ps ps'.
Lemma says_same ps w w' : w_cache w' = w_cache w -> says ps w -> says ps w'.
Proof. intros E (ps' & ? & ?). exists ps'. by rewrite E. Qed.
Lemma maybe_compact_ok ps w : w_cache w = file_of ps -> Forall pair_ok ps -> zlen ps < 2 ^ 32 - 1 -> l_f (w_log w) = true ->
  outcome maybe_compact w (fun _ w' => says ps w' /\ l_f (w_log w') = true) (says ps).
Proof.
  intros Ec Hp Hz Hf. assert (forall w', w_cache w' = w_cache w -> says ps w') as Hsame.
  { intros w' E. exists ps. rewrite E. split; [done|by left]. }
  unfold maybe_compact. apply out_bind. unfold outcome at 1, get_w. cbn [w_log].
  destruct (_ <? 1000); [apply out_ret; split; [by apply Hsame|done]|]. destruct (_ >? _); [apply out_ret; split; [by apply Hsame|done]|].
  apply out_bind. unfold outcome at 1, mod_log. set (w1 := mkWorld _ _ _).
  assert (w_cache w1 = w_cache w) as E1 by done. clearbody w1. apply out_bind. unfold outcome at 1, st_lift.
  destruct hashmap_init as [h|e|x] eqn:Eh; [|by apply Hsame|unfold hashmap_init in Eh; change (table_size INIT_NUM_BUCKETS) with (Ok 256 : res Z) in Eh; cbn [res_bind] in Eh; by destruct (alloc_ok 256)].
  apply io_step. intros w2 [_ E2]. rewrite E1 in E2. split; [by apply Hsame|].
  assert (forall w', same w2 w' -> w_cache w' = w_cache w) as Hs2 by (intros w' [_ ->]; done).
  eapply out_step; [eapply out_mono; [rewrite Ec; eapply (compact_read_ok ps)| |]|].
  - done.
  - pose proof (file_of_length ps). lia.
  - by apply mss_ok_init.
  - done.
  - cbn. lia.
  - intros s w' Hq. exact Hq.
  - intros w' Hw. by apply Hsame, Hs2.
  - intros s w3 [Hw3 Hs]. apply io_step. intros w4 [_ E4]. rewrite (Hs2 _ Hw3) in E4. split; [by apply Hsame|].
    destruct (mss_pairs s _ Hs) as (kvs & Hkv & Hnd & Hct). destruct Hs as [Hm _ _ _]. pose proof (ok_count _ Hm) as [Hcnt _].
    eapply out_step; [eapply out_mono; [apply (compact_write_ok kvs); [done|done|exact Hkv|]| |]|].
    + apply Forall2_length in Hkv. unfold zlen in Hcnt. lia.
    + intros r w' Hq. exact Hq.
    + intros w' [_ E5]. apply Hsame. congruence.
    + intros [text lines] w5 [[_ E5] Et]. cbn [fst app] in Et.
      apply io_step. intros w6 [_ E6]. split; [apply Hsame; congruence|]. apply io_step. intros w7 [_ E7]. split; [apply Hsame; congruence|].
      apply out_bind. unfold outcome at 1, set_cache. apply out_bind. unfold outcome at 1, mod_log. set (w8 := mkWorld _ _ _).
      assert (says ps w8) as H8 by (exists kvs; split; [exact Et|right; split; [done|exact Hct]]).
      apply io_step. intros w9 [_ E9]. split; [by eapply says_same|]. unfold outcome, mod_log. split; [by eapply says_same|done].
Qed.
End compaction.

(** ** Entries *)

Inductive entry :=
| EUidvlds (up dn : Z)
| EHimodseqUp (n : Z)
| EModseqDn (n : Z)
| EMsg (msg : msg_t)
| EExpunge (expunge : msg_expunge_t).
Definition entry_lk (e : entry) : log_key_t :=
  match e with
  | EUidvlds _ _ => LOG_KEY_UIDVLDS
  | EHimodseqUp _ => LOG_KEY_HIMODSEQUP
  | EModseqDn _ => LOG_KEY_MODSEQDN
  | EMsg m => LOG_KEY_MSG (m_key m)
  | EExpunge x => LOG_KEY_MSG (e_key x)
  end.
Definition write `{Alloc} `{Io} (e : entry) : stm world unit :=
  match e with
  | EUidvlds up dn => set_uidvlds up dn
  | EHimodseqUp n => set_himodseq_up n
  | EModseqDn n => set_explicit_modseq_dn n
  | EMsg m => update_msg m
  | EExpunge x => update_expunge x
  end.
(** What the mailbox writes: numbers in range, a modseq exactly for FILLED messages. *)
Definition entry_ok (e : entry) : Prop :=
  match e with
  | EUidvlds up dn => is_u32 up /\ is_u32 dn
  | EHimodseqUp n | EModseqDn n => is_u64 n
  | EMsg m => key_wf (m_key m) /\ msg_wf m /\ (modseq (m_mod m) = 0 <-> m_state m <> MSG_FILLED)
  | EExpunge x => key_wf (e_key x) /\ expunge_wf x
  end.

Definition lk_text (lk : log_key_t) : bytes :=
  match lk with
  | LOG_KEY_UIDVLDS => lit "v" | LOG_KEY_HIMODSEQUP => lit "h" | LOG_KEY_MODSEQDN => lit "d"
  | LOG_KEY_MSG k => joinb (chr ".") (key_words k)
  end.
Definition val_text (e : entry) : bytes :=
  match e with
  | EUidvlds up dn => joinb (chr ":") [dec up; dec dn]
  | EHimodseqUp n | EModseqDn n => dec n
  | EMsg m => value_text (message_words m)
  | EExpunge x => value_text (expunge_words x)
  end.
Definition entry_pair (e : entry) : bytes * bytes := (lk_text (entry_lk e), val_text e).

Lemma entry_lk_wf e : entry_ok e -> log_key_wf (entry_lk e).
Proof. destruct e; cbn; tauto. Qed.
Lemma lk_unmarshal lk : log_key_wf lk -> log_key_unmarshal (lk_text lk) = Ok lk.
Proof. destruct lk; [done..|]. apply log_key_unmarshal_words. Qed.
Lemma lk_text_inj lk lk' : log_key_wf lk -> log_key_wf lk' -> lk_text lk = lk_text lk' -> lk = lk'.
Proof. intros H1 H2 E. apply lk_unmarshal in H1, H2. rewrite E in H1. congruence. Qed.

Lemma plain_dec n : plain (dec n).
Proof.
  eapply Forall_impl; [apply dec_digits|]. intros c Hc. unfold is_digit, is_byte, nl in *. chr_norm. lia.
Qed.
Lemma plain_signed n : plain (dec_signed n).
Proof.
  eapply Forall_impl; [apply dec_signed_chars|]. intros c Hc. unfold is_digit, is_byte, nl in *. chr_norm. lia.
Qed.
Lemma plain_join c ws : plain [c] -> Forall plain ws -> plain (joinb c ws).
Proof.
  intros Hc Hw. induction Hw as [|w ws Hp Hw IH]; [constructor|]. destruct ws as [|w' ws]; [done|].
  rewrite joinb_cons by done. apply plain_app. split; [done|]. by apply (plain_app [c]).
Qed.
#[local] Instance plain_dec_inst s : Decision (plain s).
Proof. unfold plain, is_byte. apply _. Defined.
Ltac each := repeat match goal with |- Forall plain (_ :: _) => apply Forall_cons_2 | |- Forall plain [] => apply Forall_nil_2 end.
Ltac plain_lit := match goal with |- plain ?s => by apply (bool_decide_unpack (plain s)); vm_compute end.
Lemma plain_value ws : Forall plain ws -> plain (value_text ws).
Proof. intros Hw. apply plain_join; [plain_lit|]. each; [plain_lit|]. apply plain_join; [plain_lit|done]. Qed.
Lemma plain_flags f : plain (flag_letters f).
Proof. destruct f as [[] [] [] [] []]; plain_lit. Qed.
Lemma plain_date t : plain (joinb (chr ".") (date_words t)).
Proof. apply plain_join; [plain_lit|]. unfold date_words. cbn [map]. each; apply plain_signed. Qed.
Lemma plain_key k : plain (joinb (chr ".") (key_words k)).
Proof. apply plain_join; [plain_lit|]. unfold key_words. each; [plain_lit|apply plain_dec..]. Qed.

Lemma entry_pair_ok e : entry_ok e -> pair_ok (entry_pair e).
Proof.
  intros He. constructor; cbn [entry_pair fst snd].
  - destruct e; cbn [entry_lk lk_text]; [plain_lit..|apply plain_key|apply plain_key].
  - destruct e; cbn [val_text]; try apply plain_dec.
    + apply plain_join; [plain_lit|]. each; apply plain_dec.
    + apply plain_value. unfold message_words, value_words. cbn [app]. each; try apply plain_dec; [destruct (m_state msg); plain_lit|apply plain_flags|apply plain_date].
    + apply plain_value. unfold expunge_words, value_words. cbn [app]. each; try apply plain_dec. destruct (e_state expunge); plain_lit.
  - destruct e; cbn [entry_lk lk_text]; [by vm_compute; set_solver..| |]; (apply not_in_joinb; [done|]); unfold key_words; sep.
  - destruct e; cbn [entry_lk lk_text val_text entry_ok] in *.
    + pose proof (dec_length up). pose proof (dec_length dn). rewrite joinb_length by done. cbn [map length foldr]. autorewrite with zlen. 
      change (zlen (lit "v")) with 1. cbn. lia.
    + pose proof (dec_length n). change (zlen (lit "h")) with 1. lia.
    + pose proof (dec_length n). change (zlen (lit "d")) with 1. lia.
    + destruct He as (Hk & Hm & _). pose proof (key_text_length _ Hk). pose proof (message_text_length _ Hm). lia.
    + destruct He as (Hk & Hm). pose proof (key_text_length _ Hk). pose proof (expunge_text_length _ Hm). lia.
Qed.

(** ** Writing *)

Section writing.
Context `{Alloc} `{Io}.

Definition entry_line (e : entry) : stm dstr unit :=
  match e with
  | EUidvlds up dn => do! _ := log_key_marshal LOG_KEY_UIDVLDS in FMT ("|%x:%x" ++ nls) [FU up; FU dn]
  | EHimodseqUp n => do! _ := log_key_marshal LOG_KEY_HIMODSEQUP in FMT ("|%x" ++ nls) [FU n]
  | EModseqDn n => do! _ := log_key_marshal LOG_KEY_MODSEQDN in FMT ("|%x" ++ nls) [FU n]
  | EMsg m => do! _ := log_key_marshal (LOG_KEY_MSG (m_key m)) in do! _ := dstr_append_quiet (lit "|") in
              do! _ := marshal_message m in dstr_append_quiet (lit nls)
  | EExpunge x => do! _ := log_key_marshal (LOG_KEY_MSG (e_key x)) in do! _ := dstr_append_quiet (lit "|") in
                  do! _ := marshal_expunge x in dstr_append_quiet (lit nls)
  end.
Lemma appends_key_text lk : appends (log_key_marshal lk) (lk_text lk) 1.
Proof. destruct lk; [apply (appends_FMT "v" [])|apply (appends_FMT "h" [])|apply (appends_FMT "d" [])|apply appends_key]. Qed.
Lemma appends_mono m b s1 s2 : s1 <= s2 -> appends m b s1 -> appends m b s2.
Proof.
  intros Hs Hm d n Hr Hn. destruct (Hm d n) as (d' & ? & ? & ?); [eapply room_mono; [exact Hr|lia]|done|]. by exists d'.
Qed.
Lemma entry_line_ok e : entry_ok e -> appends (entry_line e) (entry_text (entry_pair e) ++ [nl]) 4.
Proof.
  intros He. unfold entry_text. cbn [entry_pair fst snd]. rewrite <- app_assoc. destruct e; cbn [entry_line].
  1-3: eapply (appends_mono _ _ 2 4); [lia|]; apply (appends_bind _ _ _ _ 1 1); [lia|lia|apply (appends_key_text)|];
    eapply appends_eq; [|apply appends_FMT]; render_norm; unfold nl; chr_norm; cbn [val_text joinb app]; by app_norm.
  - apply (appends_bind _ _ _ _ 1 3); [lia|lia|apply (appends_key_text (LOG_KEY_MSG (m_key msg)))|].
    change (chr "|" :: val_text (EMsg msg)) with (lit "|" ++ val_text (EMsg msg)). rewrite <- app_assoc.
    apply (appends_bind _ _ _ _ 0 3); [lia|lia|apply appends_append|]. apply (appends_bind _ _ _ _ 3 0); [lia|lia| |apply (appends_append (lit nls))].
    apply appends_message. apply He.
  - apply (appends_bind _ _ _ _ 1 3); [lia|lia|apply (appends_key_text (LOG_KEY_MSG (e_key expunge)))|].
    change (chr "|" :: val_text (EExpunge expunge)) with (lit "|" ++ val_text (EExpunge expunge)). rewrite <- app_assoc.
    apply (appends_bind _ _ _ _ 0 3); [lia|lia|apply appends_append|]. eapply (appends_mono _ _ (2 + 0) 3); [lia|].
    apply (appends_bind _ _ _ _ 2 0); [lia|lia|apply appends_expunge|apply (appends_append (lit nls))].
Qed.
Lemma buffer_ok m text slack : appends m text slack -> zlen text + slack <= MAX_LINE_LEN -> buffer m = Ok text.
Proof.
  intros Ha Hl. destruct (Ha (mkD [] MAX_LINE_LEN true) 0) as (d' & E & Ed & _); [|lia|].
  - split; [by vm_compute|]. cbn [d_fixed d_size d_len d_data]. unfold d_len. cbn [d_data]. change (zlen (@nil Z)) with 0. lia.
  - unfold buffer. rewrite E. by rewrite Ed.
Qed.

Lemma buffer_entry e : entry_ok e -> buffer (entry_line e) = Ok (entry_text (entry_pair e) ++ [nl]).
Proof.
  intros He. destruct (plain_text _ (entry_pair_ok e He)) as (_ & _ & Hl). eapply buffer_ok; [by apply entry_line_ok|].
  rewrite zlen_app. change (zlen [nl]) with 1. unfold MAX_LINE_LEN. lia.
Qed.

(** A line is written in whole, or the write fails after part of it. *)
Definition torn (ps : list (bytes * bytes)) (p : bytes * bytes) (w : world) : Prop :=
  exists tail, w_cache w = file_of ps ++ tail /\ plain tail /\ zlen tail < 1001.
Lemma write_line_ok e ps w : entry_ok e -> w_cache w = file_of ps -> Forall pair_ok ps -> (io_ok (w_tick w) = true -> zlen ps < 2 ^ 32 - 2) -> l_f (w_log w) = true ->
  outcome (write_line (entry_line e)) w (fun _ w' => says (ps ++ [entry_pair e]) w' /\ l_f (w_log w') = true)
    (fun w' => says (ps ++ [entry_pair e]) w' \/ torn ps (entry_pair e) w').
Proof.
  intros He Ec Hp Hz Hf. pose proof (entry_pair_ok e He) as Hpe. destruct (plain_text _ Hpe) as (Ht & _ & Hl).
  unfold write_line. apply out_bind. eapply out_lift; [by apply buffer_entry|].
  assert (file_of (ps ++ [entry_pair e]) = file_of ps ++ entry_text (entry_pair e) ++ [nl]) as Ef.
  { rewrite file_of_app. unfold file_of at 2. cbn [map concat]. by rewrite app_nil_r. }
  assert (forall w', w_cache w' = file_of (ps ++ [entry_pair e]) -> says (ps ++ [entry_pair e]) w') as Hsays.
  { intros w' E. eexists. split; [exact E|by left]. }
  apply out_bind. unfold outcome at 1, fwrite_f. rewrite Hf. cbn [negb]. destruct (io_ok (w_tick w)) eqn:Eio.
  - set (w1 := mkWorld _ _ _). assert (w_cache w1 = file_of (ps ++ [entry_pair e])) as E1 by (rewrite Ef, <- Ec; done).
    assert (l_f (w_log w1) = true) as F1 by done. clearbody w1. apply io_step. intros w2 [L2 E2]. rewrite E1 in E2. split; [left; by apply Hsays|].
    apply out_bind. unfold outcome at 1, mod_log. set (w3 := mkWorld _ _ _).
    eapply out_mono; [apply (maybe_compact_ok (ps ++ [entry_pair e]) w3)|intros [] w' Hw; exact Hw|by left].
    + exact E2.
    + apply Forall_app. split; [done|]. by constructor.
    + specialize (Hz eq_refl). rewrite zlen_app. change (zlen [_]) with 1. lia.
    + cbn. by rewrite L2.
  - set (n := io_written (w_tick w)). destruct (decide (n <= length (entry_text (entry_pair e)))%nat) as [Hn|Hn].
    + right. exists (take n (entry_text (entry_pair e))). cbn [w_cache]. rewrite Ec, take_app_le by lia. split; [done|]. split; [by apply Forall_take|].
      unfold zlen in *. rewrite length_take. lia.
    + left. apply Hsays. cbn [w_cache]. rewrite take_ge, Ec, Ef; [done|]. rewrite length_app. change (length [nl]) with 1%nat. lia.
Qed.
Lemma write_ok e ps w : entry_ok e -> w_cache w = file_of ps -> Forall pair_ok ps -> (io_ok (w_tick w) = true -> zlen ps < 2 ^ 32 - 2) -> l_f (w_log w) = true ->
  outcome (write e) w (fun _ w' => says (ps ++ [entry_pair e]) w' /\ l_f (w_log w') = true)
    (fun w' => says (ps ++ [entry_pair e]) w' \/ torn ps (entry_pair e) w').
Proof.
  intros He Ec Hp Hz Hf. pose proof (fun w => write_line_ok e ps w He) as Hw.
  destruct e; cbn [write]; first [by apply Hw|apply out_bind; unfold outcome at 1, mod_log; by apply Hw].
Qed.
End writing.
