(* ===== verification/LogDurable.v ===== *)
(** * The log of a mailbox survives (libimaildir/log_file.c)

    What a log says, in terms of the entries that were written to it; that opening the log
    reads just this; that every step, a torn write or a compaction included, keeps it; and
    [log_durable], for any sequence of steps. *)

From Stdlib Require Import Sorted.
From stdpp Require Import gmultiset.
From S2P Require Import Prelude Dstr Fmt Cvt Msg MaildirLog Hashmap LogFile.

(** ** What is read back *)

#[export] Instance log_key_eq_dec : EqDecision log_key_t.
Proof. solve_decision. Defined.

(** What is read of an entry; the file of a message is not in the log. *)
Definition as_read (e : entry) : entry :=
  match e with
  | EMsg m => EMsg (msg_new (m_key m) (m_uid_dn m) (m_state m) (m_internaldate m) (m_flags m) (modseq (m_mod m)))
  | EExpunge x => EExpunge (msg_expunge_new (e_key x) (e_uid_dn x) (e_state x) (modseq (e_mod x)))
  | e => e
  end.
(** The last entry for a key. *)
Definition last_for (lk : log_key_t) (es : list entry) : option entry := as_read <$> list.last (filter (fun e => entry_lk e = lk) es).

Lemma last_for_snoc lk es e : last_for lk (es ++ [e]) = if decide (entry_lk e = lk) then Some (as_read e) else last_for lk es.
Proof.
  unfold last_for. rewrite filter_app, filter_cons, filter_nil. case_decide; [by rewrite last_snoc|by rewrite app_nil_r].
Qed.
Lemma last_some lk es x : last_for lk es = Some x -> exists e, e ∈ es /\ entry_lk e = lk /\ x = as_read e.
Proof.
  unfold last_for. intros (e & He%last_Some_elem_of & ->)%fmap_Some. apply list_elem_of_filter in He as [E He]. by exists e.
Qed.

Definition parse_back (lk : log_key_t) (t : bytes) : res entry :=
  match lk with
  | LOG_KEY_UIDVLDS => let! (up, dn) := parse_uidvlds t in Ok (EUidvlds up dn)
  | LOG_KEY_HIMODSEQUP => let! n := dstr_tou64 t 10 in Ok (EHimodseqUp n)
  | LOG_KEY_MODSEQDN => let! n := dstr_tou64 t 10 in Ok (EModseqDn n)
  | LOG_KEY_MSG k => let! v := parse_value t k in Ok (match v with inl m => EMsg m | inr x => EExpunge x end)
  end.
Lemma parse_as_read e : entry_ok e -> parse_back (entry_lk e) (val_text e) = Ok (as_read e).
Proof.
  destruct e; cbn [entry_ok entry_lk parse_back val_text]; intros He.
  - destruct He as [Hu Hd]. by rewrite (parse_uidvlds_words _ _ Hu Hd).
  - by rewrite tou64_dec.
  - by rewrite tou64_dec.
  - destruct He as (_ & Hm & _). by rewrite parse_value_message.
  - destruct He as (_ & Hx). by rewrite parse_value_expunge.
Qed.
Lemma as_read_inj e e' : entry_ok e -> entry_ok e' -> entry_lk e = entry_lk e' -> val_text e = val_text e' -> as_read e = as_read e'.
Proof. intros H1 H2 El Ev. apply parse_as_read in H1, H2. rewrite El, Ev in H1. congruence. Qed.
(** The expunge of a message that was never given out; compaction drops such lines. *)
Definition forgets (e : entry) : Prop :=
  match e with EExpunge x => e_uid_dn x = 0 /\ modseq (e_mod x) = 0 /\ e_state x = MSG_EXPUNGE_PUSHED | _ => False end.
Lemma skipped_forgets e : entry_ok e -> skipped (entry_pair e) = true -> forgets e.
Proof.
  intros He. unfold skipped. cbn [entry_pair snd]. pose proof (pk_val _ (entry_pair_ok e He)) as Hp.
  rewrite dstr_eq_spec; [|eapply Forall_impl; [exact Hp|cbn; tauto]|apply lit_is_bytes]. intros E. pose proof (parse_as_read e He) as Hs. rewrite E in Hs.
  destruct e; cbn [entry_lk parse_back] in Hs; [done..| |].
  - by change (Ok (EExpunge (msg_expunge_new (m_key msg) 0 MSG_EXPUNGE_PUSHED 0)) = Ok (as_read (EMsg msg)) :> res entry) in Hs.
  - change (Ok (EExpunge (msg_expunge_new (e_key expunge) 0 MSG_EXPUNGE_PUSHED 0)) = Ok (as_read (EExpunge expunge)) :> res entry) in Hs.
    injection Hs as E1 E2 E3. cbn. split_and!; congruence.
Qed.

Lemma content_last es lk : Forall entry_ok es -> log_key_wf lk -> content (map entry_pair es) !! lk_text lk = val_text <$> last_for lk es.
Proof.
  intros He Hl. induction es as [|e es IH] using rev_ind; [done|]. apply Forall_app in He as [He Hee]. inversion Hee as [|? ? Hee' _]; subst.
  rewrite map_app. cbn [map]. rewrite content_snoc, last_for_snoc. cbn [entry_pair fst snd]. case_decide as Ek.
  - rewrite Ek, lookup_insert_eq. cbn. by destruct e.
  - rewrite lookup_insert_ne; [by apply IH|]. intros E. apply lk_text_inj in E; [done|by apply entry_lk_wf|done].
Qed.
Lemma same_last es es' : Forall entry_ok es -> Forall entry_ok es' -> content (map entry_pair es) = content (map entry_pair es') ->
  forall lk, last_for lk es = last_for lk es'.
Proof.
  intros H1 H2 Ec lk. rewrite Forall_forall in H1, H2.
  assert (forall es, (forall e, e ∈ es -> entry_ok e) -> ~ log_key_wf lk -> last_for lk es = None) as Hno.
  { intros l Hl Hn. destruct (last_for lk l) as [x|] eqn:E; [|done]. apply last_some in E as (e & Hin & <- & _). destruct Hn. by apply entry_lk_wf, Hl. }
  assert (log_key_wf lk \/ ~ log_key_wf lk) as [Hw|Hw]; [destruct lk; cbn; try tauto; unfold key_wf, is_u32; lia| |by rewrite !Hno].
  pose proof (content_last es lk) as C1. pose proof (content_last es' lk) as C2. rewrite Forall_forall in C1, C2. specialize (C1 H1 Hw). specialize (C2 H2 Hw).
  rewrite Ec, C2 in C1. destruct (last_for lk es) as [x|] eqn:E1, (last_for lk es') as [y|] eqn:E2; try done.
  apply last_some in E1 as (e & I1 & L1 & ->), E2 as (e' & I2 & L2 & ->). cbn in C1. f_equal.
  assert (forall e, val_text (as_read e) = val_text e) as Hs by (by intros []). rewrite !Hs in C1.
  apply as_read_inj; [by apply H1|by apply H2|congruence|congruence].
Qed.

(** *** The tree of modseqs *)
Definition nz (n : Z) : gmultiset Z := if n =? 0 then ∅ else {[+ n +]}.
Definition msum {V} (f : V -> Z) (m : gmap msg_key_t V) : gmultiset Z := list_to_set_disj (filter (fun n => n <> 0) (f <$> (map_to_list m).*2)).
Lemma msum_cons {V} (f : V -> Z) k v l : list_to_set_disj (filter (fun n => n <> 0) (f <$> ((k, v) :: l : list (msg_key_t * V)).*2)) =@{gmultiset Z}
  nz (f v) ⊎ list_to_set_disj (filter (fun n => n <> 0) (f <$> l.*2)).
Proof.
  rewrite !fmap_cons, filter_cons. unfold nz. cbn [snd]. destruct (Z.eqb_spec (f v) 0); case_decide; try done. multiset_solver.
Qed.
Lemma msum_insert {V} (f : V -> Z) k v (m : gmap msg_key_t V) : m !! k = None -> msum f (<[k := v]> m) = nz (f v) ⊎ msum f m.
Proof. intros Hm. unfold msum. rewrite (map_to_list_insert m k v Hm). apply msum_cons. Qed.
Lemma msum_delete {V} (f : V -> Z) k v (m : gmap msg_key_t V) : m !! k = Some v -> msum f m = nz (f v) ⊎ msum f (delete k m).
Proof. intros Hm. unfold msum. rewrite <- (map_to_list_delete m k v Hm). apply msum_cons. Qed.
Definition msg_modseq (m : msg_t) : Z := modseq (m_mod m).
Definition exp_modseq (x : msg_expunge_t) : Z := modseq (e_mod x).

(** *** What the entries of a log say *)
Definition uidvlds_of (es : list entry) : Z * Z :=
  match last_for LOG_KEY_UIDVLDS es with Some (EUidvlds up dn) => (up, dn) | _ => (0, 0) end.
Definition himodseq_up_of (es : list entry) : Z := match last_for LOG_KEY_HIMODSEQUP es with Some (EHimodseqUp n) => n | _ => 0 end.
Definition msg_of (es : list entry) (k : msg_key_t) : option msg_t := match last_for (LOG_KEY_MSG k) es with Some (EMsg m) => Some m | _ => None end.
Definition expunge_of (es : list entry) (k : msg_key_t) : option msg_expunge_t :=
  match last_for (LOG_KEY_MSG k) es with
  | Some (EExpunge x) => if (e_uid_dn x =? 0) && (modseq (e_mod x) =? 0) then None else Some x
  | _ => None
  end.
Definition explicit (es : list entry) : list Z := omap (fun e => match e with EModseqDn n => Some n | _ => None end) es.
Definition explicit_dn (es : list entry) : Z := foldr Z.max 1 (explicit es).
Definition tree_modseqs (db : db_t) : gmultiset Z := msum msg_modseq (db_msgs db) ⊎ msum exp_modseq (db_expunged db).

Record reads (es : list entry) (db : db_t) : Prop := {
  rd_vlds : (l_uidvld_up (db_log db), l_uidvld_dn (db_log db)) = uidvlds_of es;
  rd_himodseq : l_himodseq_up (db_log db) = himodseq_up_of es;
  rd_msgs : forall k, db_msgs db !! k = msg_of es k;
  rd_expunged : forall k, db_expunged db !! k = expunge_of es k;
  rd_mods : db_mods db = tree_modseqs db;
  rd_dn : db_himodseq_dn db = explicit_dn es
}.

Lemma explicit_snoc es e : explicit_dn (es ++ [e]) = match e with EModseqDn n => Z.max (explicit_dn es) n | _ => explicit_dn es end.
Proof.
  unfold explicit_dn, explicit. rewrite omap_app, foldr_app. destruct e; cbn; try done. induction (omap _ es) as [|m l IH]; cbn; lia.
Qed.
Lemma msum_nonzero {V} (f : V -> Z) m : 0 ∉ msum f m.
Proof. unfold msum. rewrite elem_of_list_to_set_disj. by intros [? _]%list_elem_of_filter. Qed.
Lemma last_msg es k e : Forall entry_ok es -> last_for (LOG_KEY_MSG k) es = Some e ->
  match e with EMsg m => 0 <= msg_modseq m | EExpunge x => 0 <= exp_modseq x | _ => False end.
Proof.
  intros Hes (x & Hin & Hk & ->)%last_some. rewrite Forall_forall in Hes. specialize (Hes x Hin). destruct x; try done; cbn in *.
  - destruct Hes as (_ & (_ & Hm & _) & _). unfold is_u64, msg_modseq in *. cbn. lia.
  - destruct Hes as (_ & _ & Hm). unfold is_u64, exp_modseq in *. cbn. lia.
Qed.
Lemma drop_nz n (M : gmultiset Z) : n <> 0 -> (nz n ⊎ M) ∖ {[+ n +]} = M.
Proof. intros Hn. unfold nz. rewrite (proj2 (Z.eqb_neq n 0) Hn). multiset_solver. Qed.
(** The old value of a key is erased. *)
Definition erase (key : msg_key_t) (db : db_t) : db_t :=
  mkDb (db_log db) (delete key (db_msgs db)) (delete key (db_expunged db)) (msum msg_modseq (delete key (db_msgs db)) ⊎ msum exp_modseq (delete key (db_expunged db))) (db_himodseq_dn db).
Definition vals (l : log_t) : Z * Z * Z := (l_uidvld_up l, l_uidvld_dn l, l_himodseq_up l).
Lemma read_value_ok key value db es : Forall entry_ok es -> reads es db ->
  exists l, vals l = vals (db_log db) /\
    read_one_value key value db = read_one_value key value (mkDb l (db_msgs (erase key db)) (db_expunged (erase key db)) (db_mods (erase key db)) (db_himodseq_dn db)).
Proof.
  intros Hes [_ _ Hm Hx Hmods _]. specialize (Hm key). specialize (Hx key). pose proof (last_msg es key) as Hl. unfold msg_of, expunge_of in Hm, Hx.
  destruct db as [l msgs expunged mods hi]. cbn [db_log db_msgs db_expunged db_mods db_himodseq_dn erase] in *. unfold tree_modseqs in Hmods. cbn [db_msgs db_expunged] in Hmods.
  pose proof (lookup_delete_eq msgs key) as Dm. pose proof (lookup_delete_eq expunged key) as Dx.
  destruct (msgs !! key) as [m|] eqn:Em; [|destruct (expunged !! key) as [x|] eqn:Ex].
  - exists (set_counts (l_lines l) (u64 (l_updates l + 1)) l). split; [by destruct l|]. unfold read_one_value. rewrite Em, Dm, Dx.
    destruct (last_for (LOG_KEY_MSG key) es) as [[]|]; try done. injection Hm as <-. specialize (Hl _ Hes eq_refl). cbn in Hl.
    assert (expunged !! key = None) as Ex by (by rewrite Hx). rewrite (delete_id expunged) by done.
    replace (if modseq (m_mod m) >? 0 then mods ∖ {[+ modseq (m_mod m) +]} else mods) with (msum msg_modseq (delete key msgs) ⊎ msum exp_modseq expunged); [done|].
    rewrite Hmods, (msum_delete _ _ _ _ Em). change (modseq (m_mod m)) with (msg_modseq m). 
    destruct (Z.gtb_spec (msg_modseq m) 0) as [Hg|Hg]; [|replace (msg_modseq m) with 0 by lia; change (nz 0) with (∅ : gmultiset Z); by rewrite (left_id_L ∅ (⊎))].
    rewrite <- (assoc_L (⊎)). by rewrite drop_nz by lia.
  - exists (set_counts (l_lines l) (u64 (l_updates l + 1)) l). split; [by destruct l|]. unfold read_one_value. rewrite Em, Ex, Dm, Dx.
    rewrite (delete_id msgs) by done.
    replace (mods ∖ {[+ modseq (e_mod x) +]}) with (msum msg_modseq msgs ⊎ msum exp_modseq (delete key expunged)); [done|].
    rewrite Hmods, (msum_delete _ _ _ _ Ex). change (modseq (e_mod x)) with (exp_modseq x).
    pose proof (msum_nonzero msg_modseq msgs). pose proof (msum_nonzero exp_modseq (delete key expunged)). unfold nz.
    destruct (Z.eqb_spec (exp_modseq x) 0) as [->|]; multiset_solver.
  - exists l. split; [done|]. rewrite !delete_id by done. by rewrite Hmods.
Qed.

Lemma add_nz (M : gmultiset Z) n : (if n =? 0 then M else M ⊎ {[+ n +]}) = nz n ⊎ M.
Proof. unfold nz. destruct (n =? 0); multiset_solver. Qed.
Lemma nz_swap n (A B : gmultiset Z) : nz n ⊎ (A ⊎ B) = A ⊎ (nz n ⊎ B).
Proof. multiset_solver. Qed.
Lemma other_snoc es e lk : entry_lk e <> lk -> last_for lk (es ++ [e]) = last_for lk es.
Proof. intros Hn. rewrite last_for_snoc. by case_decide. Qed.
(** The lines other than those of the messages. *)
Lemma reads_other es db e l hi : reads es db -> (forall k, entry_lk e <> LOG_KEY_MSG k) ->
  (l_uidvld_up l, l_uidvld_dn l) = uidvlds_of (es ++ [e]) -> l_himodseq_up l = himodseq_up_of (es ++ [e]) -> hi = explicit_dn (es ++ [e]) ->
  reads (es ++ [e]) (mkDb l (db_msgs db) (db_expunged db) (db_mods db) hi).
Proof.
  intros [_ _ Hm Hx Hmods _] Hk Hv Hh Hd. constructor; cbn; try done.
  - intros k. rewrite Hm. unfold msg_of. by rewrite other_snoc.
  - intros k. rewrite Hx. unfold expunge_of. by rewrite other_snoc.
Qed.
(** The lines of the messages. *)
Lemma reads_msg es db l e k msgs expunged : reads es db -> entry_lk e = LOG_KEY_MSG k -> vals l = vals (db_log db) ->
  (forall k', msgs !! k' = if decide (k = k') then match as_read e with EMsg m => Some m | _ => None end else db_msgs db !! k') ->
  (forall k', expunged !! k' = if decide (k = k') then expunge_of [e] k else db_expunged db !! k') ->
  reads (es ++ [e]) (mkDb l msgs expunged (msum msg_modseq msgs ⊎ msum exp_modseq expunged) (db_himodseq_dn db)).
Proof.
  intros [Hv Hh Hm Hx _ Hd] Hk [= V1 V2 V3] Em Ex. constructor; cbn [db_log db_msgs db_expunged db_mods db_himodseq_dn].
  - rewrite V1, V2, Hv. unfold uidvlds_of. by rewrite other_snoc by (by rewrite Hk).
  - rewrite V3, Hh. unfold himodseq_up_of. by rewrite other_snoc by (by rewrite Hk).
  - intros k'. rewrite Em. unfold msg_of. rewrite last_for_snoc, Hk. by repeat case_decide; try congruence; try apply Hm.
  - intros k'. rewrite Ex. unfold expunge_of. rewrite (last_for_snoc _ es), Hk. repeat case_decide; try congruence; try apply Hx.
    rewrite (last_for_snoc _ [] e : last_for (LOG_KEY_MSG k) [e] = _), Hk. by rewrite decide_True by done.
  - done.
  - rewrite explicit_snoc, Hd. by destruct e.
Qed.
Lemma read_line_ok es db e : Forall entry_ok es -> entry_ok e -> reads es db ->
  exists db', read_line (entry_text (entry_pair e)) db = Ok db' /\ reads (es ++ [e]) db'.
Proof.
  intros Hes He Hr. unfold read_line. rewrite split_entry by (by apply entry_pair_ok). cbn [res_bind length negb Nat.eqb]. unfold out. cbn [lookup list_lookup default]. unfold id.
  cbn [entry_pair fst snd]. rewrite lk_unmarshal by (by apply entry_lk_wf). cbn [res_bind].
  pose proof (read_value_ok (match e with EMsg m => m_key m | EExpunge x => e_key x | _ => mkKey 0 0 end) (val_text e) db es Hes Hr) as (l & Hl & Ev).
  pose proof (parse_as_read e He) as Hp. pose proof Hr as [Hv Hh _ _ _ Hd].
  destruct db as [l0 msgs expunged mods hi]. cbn [db_log db_himodseq_dn] in *.
  destruct e as [up dn|n|n|m|x]; cbn [entry_lk parse_back as_read] in *.
  - destruct (parse_uidvlds _) as [[a b]|?|?]; cbn [res_bind] in Hp |- *; [|done..]. injection Hp as -> ->. eexists. split; [done|].
    apply (reads_other _ _ _ _ _ Hr); [done|..].
    + unfold uidvlds_of. by rewrite last_for_snoc.
    + unfold himodseq_up_of. rewrite other_snoc by done. fold (himodseq_up_of es). rewrite <- Hh. by destruct (_ >? 0).
    + by rewrite explicit_snoc.
  - destruct (dstr_tou64 _ _) as [a|?|?]; cbn [res_bind] in Hp |- *; [|done..]. injection Hp as ->. eexists. split; [done|].
    apply (reads_other _ _ _ _ _ Hr); [done|..].
    + unfold uidvlds_of. rewrite other_snoc by done. fold (uidvlds_of es). rewrite <- Hv. by destruct (_ >? 0).
    + unfold himodseq_up_of. by rewrite last_for_snoc.
    + by rewrite explicit_snoc.
  - destruct (dstr_tou64 _ _) as [a|?|?]; cbn [res_bind] in Hp |- *; [|done..]. injection Hp as ->. eexists. split; [done|].
    apply (reads_other _ _ _ _ _ Hr); [done|..].
    + unfold uidvlds_of. rewrite other_snoc by done. fold (uidvlds_of es). rewrite <- Hv. by destruct (_ >? 0).
    + unfold himodseq_up_of. rewrite other_snoc by done. fold (himodseq_up_of es). rewrite <- Hh. by destruct (_ >? 0).
    + by rewrite explicit_snoc, <- Hd.
  - destruct (parse_value _ _) as [v|?|?] eqn:E; cbn [res_bind] in Hp; [|done..]. rewrite Ev. unfold read_one_value. cbn [db_msgs db_expunged db_mods erase].
    rewrite !lookup_delete_eq, E. cbn [res_bind]. destruct v as [m'|]; [|done]. injection Hp as ->. destruct He as (_ & _ & Hst).
    cbn [msg_new m_mod modseq m_state]. fold (msg_modseq m).
    pose proof (Z.eqb_spec (msg_modseq m) 0) as Hz. change (modseq (m_mod m)) with (msg_modseq m) in *.
    match goal with |- context [<[m_key m := ?m']> _] => set (m1 := m') end.
    rewrite add_nz, (assoc_L (⊎)). replace (nz (msg_modseq m)) with (nz (msg_modseq m1)) by done. rewrite <- (msum_insert msg_modseq (m_key m) m1) by (apply lookup_delete_eq).
    assert (forall A (a b c : A), (if negb (msg_modseq m =? 0) && negb (bool_decide (m_state m = MSG_FILLED)) then a
      else if (msg_modseq m =? 0) && bool_decide (m_state m = MSG_FILLED) then b else c) = c) as Hstate.
    { intros A a b c. case_bool_decide; inversion Hz; cbn; tauto. }
    assert (expunge_of [EMsg m] (m_key m) = None) as Hx.
    { unfold expunge_of. by rewrite (last_for_snoc _ [] (EMsg m) : last_for (LOG_KEY_MSG (m_key m)) [EMsg m] = _), decide_True. }
    rewrite Hstate. eexists. split; [done|].
    apply (reads_msg _ _ _ (EMsg m) (m_key m) _ _ Hr); [done|done|..]; cbn [db_msgs db_expunged]; intros k'; (destruct (decide (m_key m = k')) as [<-|]);
      by rewrite ?Hx, ?lookup_insert_eq, ?lookup_insert_ne, ?lookup_delete_eq, ?lookup_delete_ne by done.
  - destruct (parse_value _ _) as [v|?|?] eqn:E; cbn [res_bind] in Hp; [|done..]. rewrite Ev. unfold read_one_value. cbn [db_msgs db_expunged db_mods erase].
    rewrite !lookup_delete_eq, E. cbn [res_bind]. destruct v as [|x']; [done|]. injection Hp as ->. cbn [msg_expunge_new e_mod modseq e_uid_dn].
    match goal with |- context [<[e_key x := ?x']> _] => set (x1 := x') end.
    assert (expunge_of [EExpunge x] (e_key x) = if (e_uid_dn x =? 0) && (modseq (e_mod x) =? 0) then None else Some x1) as Hx.
    { unfold expunge_of. by rewrite (last_for_snoc _ [] (EExpunge x) : last_for (LOG_KEY_MSG (e_key x)) [EExpunge x] = _), decide_True. }
    rewrite add_nz, nz_swap. replace (nz (modseq (e_mod x))) with (nz (exp_modseq x1)) by done.
    rewrite <- (msum_insert exp_modseq (e_key x) x1) by (apply lookup_delete_eq).
    destruct (_ && _); (eexists; split; [done|]); (eapply (reads_msg _ _ _ (EExpunge x) (e_key x) _ _ Hr); [done|by destruct l|..]);
      cbn [db_msgs db_expunged as_read]; intros k'; (destruct (decide (e_key x = k')) as [<-|]); rewrite ?Hx;
      by rewrite ?lookup_insert_eq, ?lookup_insert_ne, ?lookup_delete_eq, ?lookup_delete_ne by done.
Qed.

Section reading.
Context `{Alloc} `{Io}.

(** The run failed because a file operation did, and the file is as before. *)
Definition broken (w w' : world) : Prop := same w w' /\ exists t, io_ok t = false.
Lemma io_try {A} w (k : unit -> stm world A) Q R :
  (forall w', same w w' -> ((exists t, io_ok t = false) -> R w') /\ outcome (k tt) w' Q R) -> outcome (st_bind io k) w Q R.
Proof.
  intros Hk. apply out_bind. unfold outcome at 1, io. set (w1 := mkWorld _ _ _). assert (same w w1) as H1 by done. destruct (Hk _ H1).
  destruct (io_ok (w_tick w)) eqn:E; [done|]. eauto.
Qed.
Lemma io_broken {A} w0 w (k : unit -> stm world A) Q : same w0 w -> (forall w', same w0 w' -> outcome (k tt) w' Q (broken w0)) -> outcome (st_bind io k) w Q (broken w0).
Proof. intros Hs Hk. apply io_try. intros w' Hw. assert (same w0 w') by (by eapply same_trans). split; [by split|auto]. Qed.
Lemma reads_counts es db lines updates : reads es db ->
  reads es (mkDb (set_counts lines updates (db_log db)) (db_msgs db) (db_expunged db) (db_mods db) (db_himodseq_dn db)).
Proof. intros []. by constructor. Qed.
Lemma read_all_lines_ok w0 tail fs : forall es fuel w db n, same w0 w -> Forall entry_ok es -> Forall entry_ok fs -> reads es db ->
  plain tail -> zlen tail < 1001 -> (length fs < fuel)%nat ->
  outcome (read_all_lines fuel (file_of (map entry_pair fs) ++ tail) db n) w
    (fun r w' => let '(db', len, trunc) := r in
       same w0 w' /\ reads (es ++ fs) db' /\ len = n + zlen (file_of (map entry_pair fs)) /\ (trunc = false -> tail = [])) (broken w0).
Proof.
  induction fs as [|f fs IH]; intros es [|fuel] w db n Hw Hes Hfs Hr Hp Ht Hf; try (cbn in Hf; lia); cbn [read_all_lines]; apply io_broken; [done| |done|].
  - intros w' Hw'. cbn [map file_of concat app]. rewrite app_nil_r, Z.add_0_r. destruct tail as [|c tail]; [by apply out_ret|].
    apply out_bind. eapply out_lift; [by apply next_part|]. by apply out_ret.
  - intros w' Hw'. inversion Hfs as [|? ? Hf1 Hfs']; subst. cbn [map]. rewrite file_of_cons, <- app_assoc. cbn [app].
    pose proof (entry_pair_ok f Hf1) as Hpf. destruct (plain_text _ Hpf) as (Hpt & Hne & Hl).
    destruct (next_whole _ (file_of (map entry_pair fs) ++ tail) Hpt Hl) as (feof & En).
    destruct (entry_text (entry_pair f) ++ nl :: _) as [|c rest] eqn:Ef; [by destruct (entry_text (entry_pair f))|].
    apply out_bind. eapply out_lift; [exact En|].
    destruct (read_line_ok es _ f Hes Hf1 (reads_counts es db (u64 (l_lines (db_log db) + 1)) (l_updates (db_log db)) Hr)) as (db' & E & Hr').
    apply out_bind. eapply out_lift; [exact E|]. eapply out_mono; [apply (IH (es ++ [f])); try done| |done].
    + apply Forall_app. by repeat constructor.
    + cbn in Hf. lia.
    + intros [[db2 len] trunc] w2. rewrite <- app_assoc. intros (? & ? & -> & ?). split_and!; try done. rewrite zlen_app, zlen_cons. lia.
Qed.

(** What opening gives: the trees of the entries. *)
Record opened (es : list entry) (db : db_t) : Prop := {
  op_vlds : (l_uidvld_up (db_log db), l_uidvld_dn (db_log db)) = uidvlds_of es;
  op_himodseq : l_himodseq_up (db_log db) = himodseq_up_of es;
  op_msgs : forall k, db_msgs db !! k = msg_of es k;
  op_expunged : forall k, db_expunged db !! k = expunge_of es k;
  op_mods : db_mods db = tree_modseqs db;
  op_dn : db_himodseq_dn db = foldr Z.max (explicit_dn es) (elements (db_mods db))
}.
Lemma explicit_pos es : 1 <= explicit_dn es.
Proof. unfold explicit_dn. induction (explicit es); cbn; lia. Qed.
Lemma max_fold b ms : 0 <= b -> Z.max b (foldr Z.max 0 ms) = foldr Z.max b ms.
Proof. intros Hb. induction ms as [|m ms IH]; cbn; lia. Qed.

Lemma open_ok fs tail w : w_cache w = file_of (map entry_pair fs) ++ tail -> Forall entry_ok fs -> plain tail -> zlen tail < 1001 ->
  outcome imaildir_log_open w
    (fun db w' => opened fs db /\ w_cache w' = file_of (map entry_pair fs) /\ l_f (w_log w') = true)
    (fun w' => (exists tail', w_cache w' = file_of (map entry_pair fs) ++ tail' /\ plain tail' /\ zlen tail' < 1001) /\ exists t, io_ok t = false).
Proof.
  intros Ec Hfs Hp Ht. set (text := file_of _) in *.
  set (R := fun w' : world => _ /\ exists t, _). assert (forall w' tail', w_cache w' = text ++ tail' -> tail' = tail \/ tail' = [] -> (exists t, io_ok t = false) -> R w') as HR.
  { intros w' tail' E Hor Hb. split; [|done]. exists tail'. destruct Hor as [->| ->]; [done|]. split; [done|]. split; [constructor|done]. }
  clearbody R. unfold imaildir_log_open. apply io_try. intros w1 [_ H1]. rewrite Ec in H1. split; [eauto|]. apply io_try. intros w2 [_ H2]. rewrite H1 in H2. split; [eauto|].
  apply out_bind. unfold outcome at 1, get_w. rewrite H2.
  apply (out_step _ _ _ (fun r w' => let '(db, len, trunc) := r in w_cache w' = text ++ tail /\ opened fs db /\ len = zlen text /\ (trunc = false -> tail = []))).
  - unfold read_all_keys. eapply out_step; [eapply out_mono; [apply (read_all_lines_ok w2 tail fs []); try done| |]|].
    + rewrite length_app. pose proof (file_of_length (map entry_pair fs)). rewrite length_map in *. unfold text. lia.
    + intros r w' Hq. exact Hq.
    + intros w' [[_ E] Hb]. rewrite H2 in E. eauto.
    + intros [[db len] trunc] w3 ([_ E3] & [Hv Hh Hm Hx Hmods Hd] & Hlen & Htr). apply out_ret. split_and!; [by rewrite E3|constructor; cbn; try done|done|done].
      pose proof (explicit_pos fs). cbn [app] in Hd. rewrite Hd. destruct (elements (db_mods db)) as [|m ms]; [done|]. by apply (max_fold _ (m :: ms)); lia.
  - intros [[db len] trunc] w3 (H3 & Ho & -> & Htr).
    apply (out_step _ _ _ (fun _ w' => w_cache w' = text)).
    + destruct trunc; [|apply out_ret; by rewrite H3, Htr, app_nil_r].
      apply io_try. intros w4 [_ H4]. rewrite H3 in H4. split; [eauto|]. apply io_try. intros w5 [_ H5]. rewrite H4 in H5. split; [eauto|].
      apply io_try. intros w6 [_ H6]. rewrite H5 in H6. split; [eauto|]. rewrite zlen_app. pose proof (zlen_nonneg tail) as Hnn. rewrite (proj2 (Z.ltb_ge _ _)) by lia.
      apply io_try. intros w7 [_ H7]. rewrite H6 in H7. split; [eauto|]. apply io_try. intros w8 [_ H8]. rewrite H7 in H8. split; [eauto|].
      unfold outcome, set_cache. cbn [w_cache]. unfold zlen. by rewrite Nat2Z.id, take_app_length.
    + intros _ w4 H4. apply io_try. intros w5 [_ H5]. rewrite H4 in H5. split; [rewrite <- (app_nil_r text) in H5; eauto|].
      apply out_bind. unfold outcome, mod_log. by apply out_ret.
Qed.
End reading.

(** ** Histories *)

(** The last entry of the key is not one that compaction drops. *)
Definition remembered (lk : log_key_t) (es : list entry) : Prop := forall e, last_for lk es = Some e -> ~ forgets e.
(** What opening has to give: the last values of the keys. *)
Record restored (es : list entry) (db : db_t) : Prop := {
  rs_vlds : (l_uidvld_up (db_log db), l_uidvld_dn (db_log db)) = uidvlds_of es;
  rs_himodseq : l_himodseq_up (db_log db) = himodseq_up_of es;
  rs_msgs : forall k, remembered (LOG_KEY_MSG k) es -> db_msgs db !! k = msg_of es k;
  rs_expunged : forall k, remembered (LOG_KEY_MSG k) es -> db_expunged db !! k = expunge_of es k;
  rs_mods : db_mods db = tree_modseqs db;
  rs_dn : StronglySorted Z.le (explicit es) -> db_himodseq_dn db = foldr Z.max (explicit_dn es) (elements (db_mods db))
}.
(** The entries that are in the file: all that were acknowledged, and some of the others. *)
Inductive survivors : list (entry * bool) -> list entry -> Prop :=
| sv_new : survivors [] []
| sv_kept hs es e ack : survivors hs es -> survivors (hs ++ [(e, ack)]) (es ++ [e])
| sv_lost hs es e : survivors hs es -> survivors (hs ++ [(e, false)]) es.
(** The entries written since the file was made, and whether the write returned without error. A process
    may stop at any time; after an error the mailbox closes the log. *)
Inductive history `{Alloc} `{Io} : list (entry * bool) -> world -> Prop :=
| hist_new w : w_cache w = [] -> l_f (w_log w) = false -> history [] w
| hist_open hs w db w' : history hs w -> imaildir_log_open w = (Ok db, w') -> history hs w'
| hist_not_opened hs w x w' : history hs w -> imaildir_log_open w = (Err x, w') -> history hs (iface_close w').2
| hist_write hs w e w' : history hs w -> l_f (w_log w) = true -> entry_ok e -> write e w = (Ok tt, w') -> history (hs ++ [(e, true)]) w'
| hist_not_written hs w e x w' : history hs w -> l_f (w_log w) = true -> entry_ok e -> write e w = (Err x, w') -> history (hs ++ [(e, false)]) (iface_close w').2
| hist_close hs w : history hs w -> history hs (iface_close w).2.

(** The file has whole lines [fs] that say what [es] says, and perhaps a part of a line. *)
Record file_says (es fs : list entry) (w : world) : Prop := {
  fl_file : exists tail, w_cache w = file_of (map entry_pair fs) ++ tail /\ plain tail /\ zlen tail < 1001 /\ (l_f (w_log w) = true -> tail = []);
  fl_ok : Forall entry_ok es;
  fl_in : fs ⊆ es;
  fl_len : zlen fs <= zlen es;
  fl_last : forall lk, remembered lk es -> last_for lk fs = last_for lk es
}.

Lemma remembered_same lk es fs : last_for lk fs = last_for lk es -> remembered lk es -> remembered lk fs.
Proof. unfold remembered. by intros ->. Qed.
Lemma fl_ok_fs es fs w : file_says es fs w -> Forall entry_ok fs.
Proof. intros [_ Ho Hi _ _]. rewrite Forall_forall in *. auto. Qed.

(** *** Compaction keeps what is remembered *)
Definition live (es : list entry) : list entry := filter (fun e => skipped (entry_pair e) = false) es.
Lemma kept_live es : kept (map entry_pair es) = map entry_pair (live es).
Proof. unfold kept, live. induction es as [|e es IH]; [done|]. cbn [map]. rewrite !filter_cons, IH. by case_decide. Qed.
Lemma last_live lk es : Forall entry_ok es -> remembered lk es -> last_for lk (live es) = last_for lk es.
Proof.
  induction es as [|e es IH] using rev_ind; [done|]. intros Ho Hr. apply Forall_app in Ho as [Ho He]. apply Forall_inv in He.
  unfold remembered in Hr. rewrite last_for_snoc in Hr |- *. unfold live. rewrite filter_app, filter_cons, filter_nil. fold (live es).
  destruct (decide (skipped (entry_pair e) = false)) as [E|E%not_false_iff_true].
  - rewrite last_for_snoc. case_decide; auto.
  - rewrite app_nil_r. case_decide; [|auto]. destruct (Hr _ eq_refl). apply skipped_forgets in E; [|done]. by destruct e.
Qed.
Lemma pairs_of ps fs : (forall p, p ∈ ps -> p ∈ map entry_pair fs) -> exists fs', ps = map entry_pair fs' /\ fs' ⊆ fs.
Proof.
  induction ps as [|p ps IH]; intros Hp; [exists []; split; [done|apply list_subseteq_nil]|]. destruct IH as (fs' & -> & Hs); [intros q Hq; apply Hp; by right|].
  assert (p ∈ map entry_pair fs) as (f & -> & Hf)%list_elem_of_fmap by (apply Hp; by left). exists (f :: fs'). split; [done|]. set_solver.
Qed.
Lemma compacted_says fs ps' : Forall entry_ok fs -> compacted (map entry_pair fs) ps' ->
  exists fs', ps' = map entry_pair fs' /\ fs' ⊆ fs /\ zlen fs' <= zlen fs /\ forall lk, remembered lk fs -> last_for lk fs' = last_for lk fs.
Proof.
  intros Ho Hc. destruct (pairs_of ps' fs) as (fs' & -> & Hs); [intros p; by apply compacted_in|]. exists fs'.
  pose proof (compacted_length _ _ Hc) as Hl. unfold zlen in *. rewrite !length_map in Hl. split_and!; try done. intros lk Hr.
  assert (Forall entry_ok fs') as Ho' by (rewrite Forall_forall in *; auto).
  destruct Hc as [E|[_ Hc]].
  - apply same_last; try done. by rewrite E.
  - rewrite kept_live in Hc. rewrite <- (last_live lk fs) by done. apply same_last; try done. rewrite Forall_forall in *. intros e [_ He]%list_elem_of_filter. auto.
Qed.

(** *** Every step keeps it *)
Section steps.
Context `{Alloc} `{Io}.

Lemma says_kept es fs e w0 w : file_says es fs w0 -> entry_ok e -> says (map entry_pair fs ++ [entry_pair e]) w -> exists fs', file_says (es ++ [e]) fs' w.
Proof.
  intros Hf He (ps' & Ec & Hc). pose proof (fl_ok_fs _ _ _ Hf) as Hfs. destruct Hf as [_ Ho Hi Hl Hlast].
  change [entry_pair e] with (map entry_pair [e]) in Hc. rewrite <- map_app in Hc.
  assert (Forall entry_ok (fs ++ [e])) as Hfs' by (apply Forall_app; by repeat constructor).
  destruct (compacted_says _ _ Hfs' Hc) as (fs' & -> & Hs & Hl' & Hlast'). exists fs'. rewrite zlen_app in Hl'. constructor.
  - exists []. rewrite app_nil_r. split_and!; try done. constructor.
  - apply Forall_app. by repeat constructor.
  - set_solver.
  - rewrite zlen_app. lia.
  - intros lk Hr. assert (last_for lk (fs ++ [e]) = last_for lk (es ++ [e])) as Hsame.
    { unfold remembered in Hr. rewrite last_for_snoc in Hr |- *. rewrite last_for_snoc. case_decide; [done|by apply Hlast]. }
    rewrite <- Hsame. apply Hlast'. by eapply remembered_same.
Qed.
Lemma torn_lost es fs p w w' : file_says es fs w -> torn (map entry_pair fs) p w' -> file_says es fs (iface_close w').2.
Proof. intros [_ ? ? ? ?] (tail & Ec & Hp & Hl). constructor; try done. by exists tail. Qed.
Lemma file_closed es fs w : file_says es fs w -> file_says es fs (iface_close w).2.
Proof. intros [(tail & ? & ? & ? & _) ? ? ? ?]. constructor; try done. by exists tail. Qed.

(** An open log takes a write without undefined behaviour; then the line is in the file, or not at all. *)
Lemma write_says es fs e w : file_says es fs w -> (io_ok (w_tick w) = true -> zlen es < 2 ^ 32 - 2) -> l_f (w_log w) = true -> entry_ok e ->
  outcome (write e) w (fun _ w' => (exists fs', file_says (es ++ [e]) fs' w') /\ l_f (w_log w') = true)
    (fun w' => file_says es fs (iface_close w').2 \/ exists fs', file_says (es ++ [e]) fs' (iface_close w').2).
Proof.
  intros Hf Hz Hopen He. pose proof (fl_ok_fs _ _ _ Hf) as Hfs. destruct (fl_file _ _ _ Hf) as (tail & Ec & _ & _ & Ht).
  rewrite (Ht Hopen), app_nil_r in Ec. pose proof (fl_len _ _ _ Hf).
  eapply out_mono; [apply (write_ok e (map entry_pair fs)); try done| |].
  - apply Forall_map. eapply Forall_impl; [exact Hfs|]. apply entry_pair_ok.
  - intros Hio. specialize (Hz Hio). unfold zlen in *. rewrite length_map. lia.
  - intros [] w' [Hs Hl]. split; [by apply (says_kept es fs e w)|done].
  - intros w' [Hs|Hs]; [right|left; by eapply torn_lost]. destruct (says_kept es fs e w w' Hf He Hs) as [fs' Hf']. exists fs'. by apply file_closed.
Qed.
Lemma history_says hs w : history hs w -> zlen hs < 2 ^ 32 - 1 -> exists es fs, survivors hs es /\ zlen es <= zlen hs /\ file_says es fs w.
Proof.
  induction 1 as [w Hw Hc|hs w db w' _ IH E|hs w x w' _ IH E|hs w e w' _ IH Hopen He E|hs w e x w' _ IH Hopen He E|hs w _ IH]; intros Hz.
  - exists [], []. split; [constructor|]. split; [done|]. constructor; try done. exists []. rewrite Hw. split_and!; try done. constructor.
  - destruct (IH Hz) as (es & fs & Hsv & Hl & Hf). exists es, fs. split; [done|]. split; [done|]. pose proof (fl_ok_fs _ _ _ Hf) as Hfs.
    destruct Hf as [(tail & Ec & Hp & Ht & _) ? ? ? ?]. pose proof (open_ok fs tail w Ec Hfs Hp Ht) as Ho. unfold outcome in Ho. rewrite E in Ho.
    destruct Ho as (_ & Ec' & _). constructor; try done. exists []. rewrite app_nil_r. split_and!; try done. constructor.
  - destruct (IH Hz) as (es & fs & Hsv & Hl & Hf). exists es, fs. split; [done|]. split; [done|]. pose proof (fl_ok_fs _ _ _ Hf) as Hfs.
    destruct Hf as [(tail & Ec & Hp & Ht & _) ? ? ? ?]. pose proof (open_ok fs tail w Ec Hfs Hp Ht) as Ho. unfold outcome in Ho. rewrite E in Ho.
    destruct Ho as [(tail' & ? & ? & ?) _]. constructor; try done. by exists tail'.
  - rewrite zlen_app in *. change (zlen [_]) with 1 in *. destruct IH as (es & fs & Hsv & Hl & Hf); [lia|].
    pose proof (write_says es fs e w Hf ltac:(intros _; lia) Hopen He) as Ho. unfold outcome in Ho. rewrite E in Ho. destruct Ho as [[fs' Hf'] _].
    exists (es ++ [e]), fs'. split; [by constructor|]. rewrite zlen_app. change (zlen [_]) with 1. split; [lia|done].
  - rewrite zlen_app in *. change (zlen [_]) with 1 in *. destruct IH as (es & fs & Hsv & Hl & Hf); [lia|].
    pose proof (write_says es fs e w Hf ltac:(intros _; lia) Hopen He) as Ho. unfold outcome in Ho. rewrite E in Ho. destruct Ho as [Hf'|[fs' Hf']].
    + exists es, fs. split; [by constructor|]. split; [lia|done].
    + exists (es ++ [e]), fs'. split; [by constructor|]. rewrite zlen_app. change (zlen [_]) with 1. split; [lia|done].
  - destruct (IH Hz) as (es & fs & Hsv & Hl & Hf). exists es, fs. split; [done|]. split; [done|]. by apply file_closed.
Qed.

(** *** What is read *)
Lemma in_explicit n es : n ∈ explicit es <-> EModseqDn n ∈ es.
Proof.
  unfold explicit. rewrite list_elem_of_omap. split; [by intros ([] & Hin & [= ->])|]. intros Hin. by eexists.
Qed.
Lemma max_of (l : list Z) b m : m ∈ l -> (forall n, n ∈ l -> n <= m) -> foldr Z.max b l = Z.max b m.
Proof.
  revert m. induction l as [|a l IH]; intros m Hm Hl; [by apply elem_of_nil in Hm|]. cbn.
  destruct (decide (m ∈ l)) as [Hin|Hout].
  - rewrite (IH m Hin) by (intros n Hn; apply Hl; by right). specialize (Hl a ltac:(by left)). lia.
  - apply elem_of_cons in Hm as [->|]; [|done]. clear IH Hout. assert (forall n, n ∈ l -> n <= a) as Hl' by (intros n Hn; apply Hl; by right). clear Hl.
    induction l as [|c l IH]; cbn; [lia|]. specialize (Hl' c ltac:(by left)) as Hc.
    assert (Z.max a (foldr Z.max b l) = Z.max b a) by (apply IH; intros n Hn; apply Hl'; by right). lia.
Qed.
Lemma last_explicit es : last_for LOG_KEY_MODSEQDN es = EModseqDn <$> list.last (explicit es).
Proof.
  induction es as [|e es IH] using rev_ind; [done|]. rewrite last_for_snoc. unfold explicit. rewrite omap_app. fold (explicit es).
  destruct e; cbn [entry_lk omap list_omap]; rewrite ?app_nil_r; first [rewrite decide_False by done; exact IH|by rewrite last_snoc].
Qed.
Lemma last_largest (l : list Z) m : StronglySorted Z.le l -> list.last l = Some m -> forall n, n ∈ l -> n <= m.
Proof.
  induction 1 as [|a l Hs IH Ha]; [done|]. intros Hl n Hn. rewrite List.Forall_forall in Ha. destruct l as [|c l].
  - cbn in Hl. injection Hl as ->. apply list_elem_of_singleton in Hn as ->. done.
  - change (list.last (c :: l) = Some m) in Hl. specialize (IH Hl). apply elem_of_cons in Hn as [->|Hn]; [|auto]. apply Ha, list_elem_of_In. by apply last_Some_elem_of in Hl.
Qed.
Lemma explicit_same es fs : fs ⊆ es -> last_for LOG_KEY_MODSEQDN fs = last_for LOG_KEY_MODSEQDN es ->
  StronglySorted Z.le (explicit es) -> explicit_dn fs = explicit_dn es.
Proof.
  intros Hs Hl Ho. rewrite !last_explicit in Hl. unfold explicit_dn. destruct (list.last (explicit es)) as [m|] eqn:Em.
  - pose proof (last_largest _ _ Ho Em) as Hle. destruct (list.last (explicit fs)) as [m'|] eqn:Ef; [|done]. injection Hl as ->.
    rewrite !(max_of _ _ m); try done; [by apply last_Some_elem_of|by apply last_Some_elem_of|]. intros n Hn%in_explicit. by apply Hle, in_explicit, Hs.
  - destruct (list.last (explicit fs)) eqn:Ef; [done|]. apply last_None in Em, Ef. by rewrite Em, Ef.
Qed.
Lemma opened_restored es fs w db : file_says es fs w -> opened fs db -> restored es db.
Proof.
  intros [_ Ho Hi _ Hlast] [Hv Hh Hm Hx Hmods Hd].
  assert (forall lk, (forall k, lk <> LOG_KEY_MSG k) -> last_for lk fs = last_for lk es) as Hother.
  { intros lk Hlk. apply Hlast. intros e (e' & _ & Hk & ->)%last_some. destruct e'; try tauto. cbn in Hk. by destruct (Hlk (e_key expunge)). }
  constructor; try done.
  - rewrite Hv. unfold uidvlds_of. by rewrite Hother.
  - rewrite Hh. unfold himodseq_up_of. by rewrite Hother.
  - intros k Hk. rewrite Hm. unfold msg_of. by rewrite Hlast.
  - intros k Hk. rewrite Hx. unfold expunge_of. by rewrite Hlast.
  - intros Hs. rewrite Hd. f_equal. apply explicit_same; [done| |done]. by apply Hother.
Qed.

End steps.

(** ** Examples *)

(** The file operation number [n] fails, a write after five characters. *)
Definition io_but (n : Z) : Io := {| io_ok := fun t => negb (t =? n); io_written := fun _ => 5%nat |}.
Definition fresh : world := mkWorld (mkLog false 0 0 0 0 0) [] 0.
Definition unfilled : msg_t := msg_new (mkKey 5 0) 0 MSG_UNFILLED (mkTime 2021 1 2 3 4 5 0 0) (mkFlags false true false false false) 0.
Definition torn_run : world := Eval vm_compute in
  let _ := always in let _ := io_but 6 in
  (iface_close (write (EHimodseqUp 7) (write (EMsg unfilled) (imaildir_log_open fresh).2).2).2).2.


(** No file operation fails. *)
Definition writes (es : list entry) : world :=
  let _ := always in let _ := io_but (-1) in foldl (fun w e => (write e w).2) (imaildir_log_open fresh).2 es.
Definition reopened (es : list entry) : res db_t :=
  let _ := always in let _ := io_but (-1) in (imaildir_log_open (iface_close (writes es)).2).1.
Definition pulled_and_expunged (n : nat) : list entry :=
  EMsg unfilled :: EExpunge (msg_expunge_new (mkKey 5 0) 0 MSG_EXPUNGE_PUSHED 0) :: replicate n (EHimodseqUp 7).
(** The exception of [log_durable] is real: a message that was expunged before it was downloaded is gone when
    the log is read again, but comes back once the log has been compacted, since the compaction drops the line
    of the expunge and not the line it replaces. *)
Theorem compaction_limits :
  (exists db, reopened (pulled_and_expunged 997) = Ok db /\ db_msgs db !! mkKey 5 0 = None) /\
  (exists db, reopened (pulled_and_expunged 998) = Ok db /\ db_msgs db !! mkKey 5 0 = Some unfilled).
Proof. split; (eexists; split; [vm_compute; reflexivity|by vm_compute]). Qed.
