(* ===== verification/Heap.v ===== *)
(** * Binary heaps of intrusive nodes (libdstr/heap.c)

    The nodes live in a memory indexed by address and point at their parent and
    children; the root hangs from [root_parent], a node of the heap itself. The
    operations are the pointer manipulations of the source; trees describe what
    the memory holds. *)

From S2P Require Import Prelude.

Abbreviation addr := Z.
Definition NULL : addr := 0.

Record hnode_t := mkNode {
  n_parent : addr;
  n_child0 : addr;
  n_child1 : addr;
  n_balance : Z
}.
Abbreviation memory := (gmap addr hnode_t).

Definition child (n : hnode_t) (dir : bool) : addr := if dir then n_child1 n else n_child0 n.
Definition set_child (dir : bool) (c : addr) (n : hnode_t) : hnode_t :=
  if dir then mkNode (n_parent n) (n_child0 n) c (n_balance n)
  else mkNode (n_parent n) c (n_child1 n) (n_balance n).
Definition set_parent (p : addr) (n : hnode_t) : hnode_t :=
  mkNode p (n_child0 n) (n_child1 n) (n_balance n).
Definition set_balance (b : Z) (n : hnode_t) : hnode_t :=
  mkNode (n_parent n) (n_child0 n) (n_child1 n) b.

Definition ld (a : addr) : stm memory hnode_t := fun m =>
  match m !! a with Some n => (Ok n, m) | None => (Stop OutOfBounds, m) end.
Definition modify (a : addr) (f : hnode_t -> hnode_t) : stm memory unit := fun m =>
  match m !! a with
  | Some n => (Ok tt, <[a := f n]> m)
  | None => (Stop OutOfBounds, m)
  end.
Definition write (a : addr) (n : hnode_t) : stm memory unit := modify a (fun _ => n).

(** [2*dir - 1] *)
Definition sign (dir : bool) : Z := if dir then 1 else -1.

Section heap.
(** The key of the object that owns a node, and how keys compare. *)
Context {K : Type} (get : addr -> K) (cmp : K -> K -> Z) (want_max : bool).

(** [(cmp(a, b) > 0) == want_max] *)
Definition better (a b : addr) : bool := Bool.eqb (cmp (get a) (get b) >? 0) want_max.

Definition fix_parent (c p : addr) : stm memory unit :=
  if c =? NULL then st_ret tt else modify c (set_parent p).

(** [hnode] takes the place of [p], whose slot is [ptr] = (parent, dir). *)
Definition replace (ptr : addr * bool) (p hnode : addr) : stm memory unit :=
  do! _ := modify (fst ptr) (set_child (snd ptr) hnode) in
  do! np := ld p in
  do! _ := modify hnode (fun n => mkNode (n_parent np) (n_child0 np) (n_child1 np) (n_balance np)) in
  do! n := ld hnode in
  do! _ := fix_parent (n_child0 n) hnode in
  fix_parent (n_child1 n) hnode.

(** The loop of heap_put, [ptr] being the address of a child slot. *)
Fixpoint put_loop (fuel : nat) (hnode : addr) (ptr : addr * bool) : stm memory unit :=
  match fuel with
  | O => fun m => (Stop OutOfFuel, m)
  | S f =>
      do! n := ld (fst ptr) in
      let p := child n (snd ptr) in
      if p =? NULL then
        do! _ := write hnode (mkNode (fst ptr) NULL NULL 0) in
        modify (fst ptr) (set_child (snd ptr) hnode)
      else
        let swap := better hnode p in
        do! _ := (if swap then replace ptr p hnode else st_ret tt) in
        let '(hnode, p) := if swap then (p, hnode) else (hnode, p) in
        do! np := ld p in
        let dir := n_balance np <? 0 in
        do! _ := modify p (set_balance (n_balance np + sign dir)) in
        put_loop f hnode (p, dir)
  end.

Definition heap_put (root_parent hnode : addr) : stm memory unit := fun m =>
  put_loop (S (size m)) hnode (root_parent, false) m.

Definition heap_peek (root_parent : addr) : stm memory addr :=
  do! n := ld root_parent in st_ret (n_child0 n).

(** Up to [root_parent], fixing the balances. *)
Fixpoint climb (fuel : nat) (parent child_ : addr) : stm memory addr :=
  match fuel with
  | O => fun m => (Stop OutOfFuel, m)
  | S f =>
      do! np := ld parent in
      if n_parent np =? NULL then st_ret parent
      else
        let dir := n_child1 np =? child_ in
        do! _ := modify parent (fun n => set_balance (n_balance n - sign dir) n) in
        climb f (n_parent np) parent
  end.

(** Down from the slot of the removed node, promoting the better child. *)
Fixpoint promote (fuel : nat) (parent : addr) (parent_dir : bool) (l r : addr)
  (old_balance : Z) : stm memory unit :=
  match fuel with
  | O => fun m => (Stop OutOfFuel, m)
  | S f =>
      if negb (l =? NULL) && negb (r =? NULL) then
        let dir := Bool.eqb (cmp (get l) (get r) <? 0) want_max in
        let best := if dir then r else l in
        let worst := if dir then l else r in
        do! nb := ld best in
        do! _ := modify parent (set_child parent_dir best) in
        do! _ := modify best (set_parent parent) in
        do! _ := modify best (set_child (negb dir) worst) in
        do! _ := modify worst (set_parent best) in
        do! _ := modify best (set_balance (old_balance - sign dir)) in
        promote f best dir (n_child0 nb) (n_child1 nb) (n_balance nb)
      else if negb (l =? NULL) || negb (r =? NULL) then
        let best := if l =? NULL then r else l in
        do! _ := modify parent (set_child parent_dir best) in
        modify best (set_parent parent)
      else modify parent (set_child parent_dir NULL)
  end.

Definition hnode_remove (hnode : addr) : stm memory unit := fun m =>
  (do! n := ld hnode in
   if n_parent n =? NULL then st_ret tt
   else
     do! _ := climb (S (size m)) (n_parent n) hnode in
     do! np := ld (n_parent n) in
     let parent_dir := n_child1 np =? hnode in
     do! n := ld hnode in
     do! _ := write hnode (mkNode NULL NULL NULL 0) in
     promote (S (size m)) (n_parent n) parent_dir (n_child0 n) (n_child1 n) (n_balance n)) m.

Definition heap_pop (root_parent : addr) : stm memory addr :=
  do! out := heap_peek root_parent in
  if out =? NULL then st_ret NULL
  else do! _ := hnode_remove out in st_ret out.

(** ** Trees in memory *)

Inductive tree := Leaf | Node (a : addr) (b : Z) (l r : tree).

Definition ptr_of (t : tree) : addr := match t with Leaf => NULL | Node a _ _ _ => a end.
Fixpoint addrs (t : tree) : list addr :=
  match t with Leaf => [] | Node a _ l r => a :: addrs l ++ addrs r end.
Definition sub (t : tree) (dir : bool) : tree :=
  match t with Leaf => Leaf | Node _ _ l r => if dir then r else l end.
(** A node with its children on the side [dir] and the other. *)
Definition node (a : addr) (b : Z) (dir : bool) (t other : tree) : tree :=
  if dir then Node a b other t else Node a b t other.

Fixpoint tree_at (m : memory) (parent : addr) (t : tree) : Prop :=
  match t with
  | Leaf => True
  | Node a b l r => a <> NULL /\ m !! a = Some (mkNode parent (ptr_of l) (ptr_of r) b) /\
      tree_at m a l /\ tree_at m a r
  end.

(** The heap under [root_parent] holds the tree [t]. *)
Definition heap_at (m : memory) (root : addr) (t : tree) : Prop :=
  (exists b, m !! root = Some (mkNode NULL (ptr_of t) NULL b)) /\
  tree_at m root t /\ NoDup (root :: addrs t) /\ root <> NULL.

Definition same_outside (s : list addr) (m m' : memory) : Prop :=
  forall a, a ∉ s -> m' !! a = m !! a.

(** ** The operations on trees *)

Fixpoint put (x : addr) (t : tree) : tree :=
  match t with
  | Leaf => Node x 0 Leaf Leaf
  | Node p b l r =>
      let '(top, x) := if better x p then (x, p) else (p, x) in
      if b <? 0 then Node top (b + 1) l (put x r) else Node top (b - 1) (put x l) r
  end.

(** Remove the root. *)
Fixpoint pull (t : tree) : tree :=
  match t with
  | Leaf => Leaf
  | Node _ b l r =>
      match l, r with
      | Leaf, _ => r
      | _, Leaf => l
      | Node lx _ _ _, Node rx _ _ _ =>
          if Bool.eqb (cmp (get lx) (get rx) <? 0) want_max
          then Node rx (b - 1) l (pull r)
          else Node lx (b + 1) (pull l) r
      end
  end.

Fixpoint remove (x : addr) (t : tree) : tree :=
  match t with
  | Leaf => Leaf
  | Node y b l r =>
      if decide (x = y) then pull t
      else if decide (x ∈ addrs r) then Node y (b - 1) l (remove x r)
      else if decide (x ∈ addrs l) then Node y (b + 1) (remove x l) r
      else t
  end.

(** *** Memory lemmas *)

Lemma run_ld {B} a (k : hnode_t -> stm memory B) m n :
  m !! a = Some n -> st_bind (ld a) k m = k n m.
Proof. unfold st_bind, ld. by intros ->. Qed.
Lemma run_modify {B} a f (k : unit -> stm memory B) m n :
  m !! a = Some n -> st_bind (modify a f) k m = k tt (<[a := f n]> m).
Proof. unfold st_bind, modify. by intros ->. Qed.
Lemma run_modify_last a f m n : m !! a = Some n -> modify a f m = (Ok tt, <[a := f n]> m).
Proof. unfold modify. by intros ->. Qed.
Lemma run_write_last a v m n : m !! a = Some n -> write a v m = (Ok tt, <[a := v]> m).
Proof. unfold write, modify. by intros ->. Qed.

Lemma heap_outside_sub s t m m' : same_outside s m m' -> s ⊆ t -> same_outside t m m'.
Proof. intros H Hs a Ha. apply H. set_solver. Qed.
Lemma heap_outside_trans s m1 m2 m3 :
  same_outside s m1 m2 -> same_outside s m2 m3 -> same_outside s m1 m3.
Proof. intros H1 H2 a Ha. by rewrite H2, H1. Qed.
Lemma heap_outside_insert s m a n : a ∈ s -> same_outside s m (<[a := n]> m).
Proof. intros Ha b Hb. rewrite lookup_insert_ne; [done|]. by intros ->. Qed.
Lemma heap_outside_refl s m : same_outside s m m.
Proof. by intros a _. Qed.

Lemma tree_at_same s m m' p t :
  tree_at m p t -> same_outside s m m' -> (forall a, a ∈ addrs t -> a ∉ s) -> tree_at m' p t.
Proof.
  revert p. induction t as [|a b l IHl r IHr]; intros p; simpl; [done|].
  intros (H0 & Ha & Hl & Hr) Hs Hd. splits; [done| | |].
  - rewrite Hs; [done|]. apply Hd. set_solver.
  - apply IHl; [done..|]. intros x Hx. apply Hd. set_solver.
  - apply IHr; [done..|]. intros x Hx. apply Hd. set_solver.
Qed.

Lemma ptr_in t : ptr_of t = NULL /\ t = Leaf \/ ptr_of t ∈ addrs t.
Proof. destruct t; simpl; [by left|right; set_solver]. Qed.
Lemma tree_ptr m p t : tree_at m p t -> ptr_of t = NULL <-> t = Leaf.
Proof. destruct t; simpl; [done|]. intros (H0 & _). split; [done|discriminate]. Qed.

Lemma ctree_child m p t x : tree_at m p t -> ptr_of t = x -> x <> NULL -> exists b l r, t = Node x b l r.
Proof. destruct t; simpl; [congruence|]. intros _ ->. eauto. Qed.

(** A tree hangs under another parent when its root's pointer moves. *)
Lemma tree_reparent m p q a b l r :
  tree_at m p (Node a b l r) -> NoDup (a :: addrs l ++ addrs r) ->
  tree_at (<[a := set_parent q (mkNode p (ptr_of l) (ptr_of r) b)]> m) q (Node a b l r).
Proof.
  intros (H0 & Ha & Hl & Hr) [Hna Hnd]%NoDup_cons.
  assert (Hs : same_outside [a] m (<[a := mkNode q (ptr_of l) (ptr_of r) b]> m))
    by (apply heap_outside_insert; set_solver).
  simpl. splits; [done|by rewrite lookup_insert_eq| |]; (eapply tree_at_same; [done..|]); set_solver.
Qed.

Lemma fix_parent_ok {B} m p q t (k : unit -> stm memory B) :
  tree_at m p t -> NoDup (addrs t) ->
  exists m', st_bind (fix_parent (ptr_of t) q) k m = k tt m' /\ tree_at m' q t /\
    same_outside (addrs t) m m'.
Proof.
  intros Ht Hnd. unfold fix_parent. destruct t as [|a b l r].
  - exists m. splits; [done|done|apply heap_outside_refl].
  - cbn [ptr_of]. destruct Ht as (H0 & Ha & Hlr) eqn:Et. clear Et.
    destruct (Z.eqb_spec a NULL); [done|]. rewrite (run_modify _ _ _ _ _ Ha).
    eexists. split; [done|]. split.
    + apply (tree_reparent m p q a b l r); done.
    + apply heap_outside_insert. simpl. set_solver.
Qed.

(** *** Insertion *)

Lemma child_set n dir c : child (set_child dir c n) dir = c.
Proof. by destruct dir. Qed.

Lemma put_addrs t x : addrs (put x t) ≡ₚ x :: addrs t.
Proof.
  revert x. induction t as [|p b l IHl r IHr]; intros x; [done|]. simpl.
  assert (E : forall top y, addrs (if b <? 0 then Node top (b + 1) l (put y r)
      else Node top (b - 1) (put y l) r) ≡ₚ y :: top :: addrs l ++ addrs r).
  { intros top y. rewrite Permutation_swap. destruct (b <? 0); simpl; apply perm_skip.
    - rewrite IHr. symmetry. apply Permutation_middle.
    - by rewrite IHl. }
  destruct (better x p); rewrite E; [apply Permutation_swap|done].
Qed.

(** The specification of a put into the slot [(par, d)] that holds [t]. *)
Definition put_spec (t : tree) : Prop :=
  forall fuel m par d np hn,
  (length (addrs t) < fuel)%nat -> m !! par = Some np -> child np d = ptr_of t ->
  tree_at m par t -> NoDup (hn :: par :: addrs t) -> hn <> NULL -> par <> NULL ->
  is_Some (m !! hn) ->
  exists m', put_loop fuel hn (par, d) m = (Ok tt, m') /\ tree_at m' par (put hn t) /\
    m' !! par = Some (set_child d (ptr_of (put hn t)) np) /\
    same_outside (hn :: par :: addrs t) m m'.

(** Going down on one side of [top], with [x] still to place. *)
Lemma put_below (l r : tree) fuel m par d np top x b :
  put_spec l -> put_spec r -> let dir := b <? 0 in
  (length (addrs l ++ addrs r) < fuel)%nat ->
  m !! top = Some (mkNode par (ptr_of l) (ptr_of r) (b + sign dir)) ->
  tree_at m top l -> tree_at m top r -> NoDup (x :: top :: par :: addrs l ++ addrs r) ->
  x <> NULL -> top <> NULL -> is_Some (m !! x) -> m !! par = Some (set_child d top np) ->
  exists m', put_loop fuel x (top, dir) m = (Ok tt, m') /\
    tree_at m' par (if b <? 0 then Node top (b + 1) l (put x r)
                    else Node top (b - 1) (put x l) r) /\
    m' !! par = Some (set_child d top np) /\
    same_outside (x :: top :: addrs l ++ addrs r) m m'.
Proof.
  intros IHl IHr dir Hf Ht Hl Hr Hnd Hx0 Ht0 Hx Hp. rewrite length_app in Hf.
  rewrite !NoDup_cons, NoDup_app in Hnd. destruct Hnd as (Nx & Nt & Np & Nl & Nd & Nr).
  subst dir. destruct (b <? 0).
  - destruct (IHr fuel m top true _ x ltac:(lia) Ht eq_refl Hr) as (m' & E & Ht' & Hs & Ho);
      [|done|done|done|].
    { rewrite !NoDup_cons. set_solver. }
    exists m'. split; [done|]. simpl in *. splits; [done| | |done| |].
    + rewrite Hs. done.
    + eapply tree_at_same; [done..|]. intros a Ha Hin. set_solver.
    + rewrite Ho; [done|]. set_solver.
    + eapply heap_outside_sub; [done|]. set_solver.
  - destruct (IHl fuel m top false _ x ltac:(lia) Ht eq_refl Hl) as (m' & E & Ht' & Hs & Ho);
      [|done|done|done|].
    { rewrite !NoDup_cons. set_solver. }
    exists m'. split; [done|]. simpl in *. splits; [done| |done| | |].
    + rewrite Hs. done.
    + eapply tree_at_same; [done..|]. intros a Ha Hin. set_solver.
    + rewrite Ho; [done|]. set_solver.
    + eapply heap_outside_sub; [done|]. set_solver.
Qed.

(** [hnode] in the place of the root [p] of a tree. *)
Lemma replace_ok {B} m par d np hn p b l r (k : unit -> stm memory B) :
  m !! par = Some np -> tree_at m par (Node p b l r) -> is_Some (m !! hn) ->
  NoDup (hn :: par :: p :: addrs l ++ addrs r) ->
  exists m', st_bind (replace (par, d) p hn) k m = k tt m' /\
    m' !! hn = Some (mkNode par (ptr_of l) (ptr_of r) b) /\
    tree_at m' hn l /\ tree_at m' hn r /\ m' !! par = Some (set_child d hn np) /\
    is_Some (m' !! p) /\ same_outside (hn :: par :: addrs l ++ addrs r) m m'.
Proof.
  intros Hp (H0 & Ha & Hl & Hr) [nh Hh] Hnd.
  rewrite !NoDup_cons, NoDup_app in Hnd. destruct Hnd as (Nh & Np & Na & Nl & Nd & Nr).
  set (m1 := <[par := set_child d hn np]> m).
  set (m2 := <[hn := mkNode par (ptr_of l) (ptr_of r) b]> m1).
  assert (S2 : same_outside [hn; par] m m2).
  { intros x Hx. unfold m2, m1. rewrite !lookup_insert_ne by set_solver. done. }
  assert (Hl2 : tree_at m2 p l) by (eapply tree_at_same; [done..|set_solver]).
  assert (Hr2 : tree_at m2 p r) by (eapply tree_at_same; [done..|set_solver]).
  assert (E : forall k' : unit -> stm memory B, st_bind (replace (par, d) p hn) k' m =
    st_bind (fix_parent (ptr_of l) hn) (fun _ => st_bind (fix_parent (ptr_of r) hn) k') m2).
  { intros k'. unfold replace, st_bind, modify, ld. cbn [fst snd]. rewrite Hp. fold m1.
    unfold m1 at 1. rewrite lookup_insert_ne by set_solver. rewrite Ha. cbn [n_parent n_child0 n_child1 n_balance].
    unfold m1 at 1. rewrite lookup_insert_ne by set_solver. rewrite Hh.
    fold m2. unfold m2 at 1. rewrite lookup_insert_eq. cbn [n_child0 n_child1].
    destruct (fix_parent (ptr_of l) hn m2) as [[[]| |] ?]; done. }
  rewrite E. destruct (fix_parent_ok m2 p hn l (fun _ => st_bind (fix_parent (ptr_of r) hn) k) Hl2 Nl)
    as (m3 & -> & Hl3 & S3).
  assert (Hr3 : tree_at m3 p r) by (eapply tree_at_same; [done..|set_solver]).
  destruct (fix_parent_ok m3 p hn r k Hr3 Nr) as (m4 & -> & Hr4 & S4).
  exists m4. splits; [done| | |done| | |].
  - rewrite S4, S3 by set_solver. unfold m2. by rewrite lookup_insert_eq.
  - eapply tree_at_same; [done..|set_solver].
  - rewrite S4, S3 by set_solver. unfold m2, m1.
    rewrite lookup_insert_ne by set_solver. by rewrite lookup_insert_eq.
  - rewrite S4, S3, S2 by set_solver. by exists (mkNode par (ptr_of l) (ptr_of r) b).
  - eapply heap_outside_trans; [|eapply heap_outside_sub; [exact S4|set_solver]].
    eapply heap_outside_trans; [|eapply heap_outside_sub; [exact S3|set_solver]].
    eapply heap_outside_sub; [exact S2|set_solver].
Qed.

Lemma put_loop_ok t : put_spec t.
Proof.
  induction t as [|p b l IHl r IHr]; intros fuel m par d np hn Hf Hp Hc Ht Hnd H0 Hp0 Hh;
    (destruct fuel as [|fuel]; [lia|]); cbn [put_loop fst snd];
    rewrite (run_ld _ _ _ _ Hp), Hc; cbn [ptr_of].
  - cbn. rewrite !NoDup_cons in Hnd. destruct Hh as [nh Hh].
    unfold write. rewrite (run_modify _ _ _ _ _ Hh).
    rewrite (run_modify_last _ _ _ np) by (by rewrite lookup_insert_ne by set_solver).
    eexists. split; [done|]. splits.
    + done.
    + rewrite lookup_insert_ne by set_solver. by rewrite lookup_insert_eq.
    + done.
    + done.
    + by rewrite lookup_insert_eq.
    + intros a Ha. rewrite !lookup_insert_ne by set_solver. done.
  - pose proof Ht as (Hpz & Ha & Hl & Hr). destruct (Z.eqb_spec p NULL) as [|_]; [done|].
    simpl in Hf, Hnd. assert (Hnd' := Hnd). rewrite !NoDup_cons in Hnd.
    destruct (better hn p) eqn:Eb; cbn [put].
    + cbv iota beta zeta.
      match goal with |- context [st_bind (replace _ _ _) ?k m] =>
        destruct (replace_ok m par d np hn p b l r k Hp Ht Hh Hnd')
          as (m1 & E & Hh1 & Hl1 & Hr1 & Hp1 & Hi1 & S1) end.
      rewrite E, (run_ld _ _ _ _ Hh1). cbn [n_balance].
      rewrite (run_modify _ _ _ _ _ Hh1). unfold set_balance. cbn [n_parent n_child0 n_child1 n_balance].
      set (m2 := <[hn := _]> m1).
      assert (S2 : same_outside [hn] m1 m2) by (apply heap_outside_insert; set_solver).
      destruct (put_below l r fuel m2 par d np hn p b) as (m3 & E3 & Ht3 & Hp3 & S3); try done.
      * lia.
      * unfold m2. by rewrite lookup_insert_eq.
      * eapply tree_at_same; [done..|set_solver].
      * eapply tree_at_same; [done..|set_solver].
      * rewrite !NoDup_cons. set_solver.
      * rewrite S2; [done|set_solver].
      * rewrite S2; [done|set_solver].
      * exists m3. rewrite Eb. splits; [done|done| |].
        -- rewrite Hp3. by destruct (b <? 0).
        -- eapply heap_outside_trans; [|eapply heap_outside_sub; [exact S3|set_solver]].
           eapply heap_outside_trans; [|eapply heap_outside_sub; [exact S2|set_solver]].
           eapply heap_outside_sub; [exact S1|set_solver].
    + cbv iota beta zeta. change (st_bind (st_ret tt) ?k m) with (k tt m).
      cbv iota beta zeta.
      rewrite (run_ld _ _ _ _ Ha). cbn [n_balance].
      rewrite (run_modify _ _ _ _ _ Ha). unfold set_balance. cbn [n_parent n_child0 n_child1 n_balance].
      set (m2 := <[p := _]> m).
      assert (S2 : same_outside [p] m m2) by (apply heap_outside_insert; set_solver).
      assert (Hpn : set_child d p np = np) by (destruct np, d; simpl in Hc; by subst).
      destruct (put_below l r fuel m2 par d np p hn b) as (m3 & E3 & Ht3 & Hp3 & S3); try done.
      * lia.
      * unfold m2. by rewrite lookup_insert_eq.
      * eapply tree_at_same; [done..|set_solver].
      * eapply tree_at_same; [done..|set_solver].
      * rewrite !NoDup_cons. set_solver.
      * rewrite S2; [done|set_solver].
      * rewrite S2; [by rewrite Hpn|set_solver].
      * exists m3. rewrite Eb. splits; [done|done| |].
        -- rewrite Hp3. by destruct (b <? 0).
        -- eapply heap_outside_trans; [|eapply heap_outside_sub; [exact S3|set_solver]].
           eapply heap_outside_sub; [exact S2|set_solver].
Qed.

Lemma addrs_size m p t : tree_at m p t -> NoDup (addrs t) -> (length (addrs t) <= size m)%nat.
Proof.
  intros Ht Hnd. rewrite <- size_dom.
  assert (Hsub : forall p, tree_at m p t -> list_to_set (addrs t) ⊆ dom m).
  { clear. induction t as [|a b l IHl r IHr]; intros p; simpl; [set_solver|].
    intros (_ & Ha & Hl & Hr). apply IHl in Hl. apply IHr in Hr. rewrite list_to_set_app_L.
    assert (a ∈ dom m) by (by apply elem_of_dom_2 in Ha). set_solver. }
  specialize (Hsub p Ht). apply subseteq_size in Hsub. by rewrite size_list_to_set in Hsub.
Qed.

Lemma heap_put_ok m root t x :
  heap_at m root t -> x ∉ root :: addrs t -> x <> NULL -> is_Some (m !! x) ->
  exists m', heap_put root x m = (Ok tt, m') /\ heap_at m' root (put x t) /\
    same_outside (x :: root :: addrs t) m m'.
Proof.
  intros ([b Hb] & Ht & Hnd & Hr0) Hx Hx0 Hi. unfold heap_put.
  pose proof (addrs_size _ _ _ Ht) as Hsz. assert (Hnd' := Hnd). apply NoDup_cons in Hnd' as [Hra Hnd'].
  destruct (put_loop_ok t (S (size m)) m root false (mkNode NULL (ptr_of t) NULL b) x) as (m' & E & Ht' & Hb' & S');
    [specialize (Hsz Hnd'); lia|exact Hb|done|done|by constructor|done|done|done|].
  exists m'. split; [done|]. split; [|done]. split; [by exists b|]. split; [done|].
  split; [|done]. apply NoDup_cons. rewrite (put_addrs t x). split; [set_solver|].
  apply NoDup_cons. set_solver.
Qed.

(** *** Removal: promoting children *)

Lemma tree_node m p a b dir t o :
  tree_at m p (node a b dir t o) <->
  a <> NULL /\ m !! a = Some (mkNode p (ptr_of (if dir then o else t)) (ptr_of (if dir then t else o)) b) /\
  tree_at m a t /\ tree_at m a o.
Proof. destruct dir; simpl; tauto. Qed.

Definition promote_spec (fuel : nat) (x b : Z) (l r : tree) : Prop :=
  forall m par d np q,
  m !! par = Some np -> par <> NULL -> tree_at m q l -> tree_at m q r ->
  NoDup (par :: addrs l ++ addrs r) ->
  exists m', promote fuel par d (ptr_of l) (ptr_of r) b m = (Ok tt, m') /\
    tree_at m' par (pull (Node x b l r)) /\
    m' !! par = Some (set_child d (ptr_of (pull (Node x b l r))) np) /\
    same_outside (par :: addrs l ++ addrs r) m m'.

(** The better child [a] goes up, the other tree [o] becomes its child. *)
Lemma promote_step fuel a b1 l1 r1 o dir b m par d np q :
  promote_spec fuel a b1 l1 r1 ->
  m !! par = Some np -> par <> NULL -> tree_at m q (Node a b1 l1 r1) -> tree_at m q o ->
  o <> Leaf -> NoDup (par :: addrs (Node a b1 l1 r1) ++ addrs o) ->
  let t' := node a (b - sign dir) dir (pull (Node a b1 l1 r1)) o in
  exists m',
    (do! nb := ld a in
     do! _ := modify par (set_child d a) in
     do! _ := modify a (set_parent par) in
     do! _ := modify a (set_child (negb dir) (ptr_of o)) in
     do! _ := modify (ptr_of o) (set_parent a) in
     do! _ := modify a (set_balance (b - sign dir)) in
     promote fuel a dir (n_child0 nb) (n_child1 nb) (n_balance nb)) m = (Ok tt, m') /\
    tree_at m' par t' /\ m' !! par = Some (set_child d (ptr_of t') np) /\
    same_outside (par :: addrs (Node a b1 l1 r1) ++ addrs o) m m'.
Proof.
  intros IH Hp Hp0 (Ha0 & Ha & Hl1 & Hr1) Ho Hol Hnd t'.
  destruct o as [|w bw lw rw]; [done|]. cbn [ptr_of]. simpl in Hnd.
  rewrite !NoDup_cons, !NoDup_app, NoDup_cons in Hnd. pose proof Ho as (Hw0 & Hw & Hlw & Hrw).
  destruct Hnd as (Np & Na & (Nl & Ndl & Nr) & Nd & Nw & No).
  rewrite (run_ld _ _ _ _ Ha). cbn [n_child0 n_child1 n_balance].
  rewrite (run_modify _ _ _ _ _ Hp). set (m1 := <[par := _]> m).
  assert (S1 : same_outside [par] m m1) by (apply heap_outside_insert; set_solver).
  rewrite (run_modify _ _ _ m1 (mkNode q (ptr_of l1) (ptr_of r1) b1)) by (rewrite S1; [done|set_solver]).
  set (m2 := <[a := _]> m1).
  assert (S2 : same_outside [a] m1 m2) by (apply heap_outside_insert; set_solver).
  rewrite (run_modify _ _ _ m2 (mkNode par (ptr_of l1) (ptr_of r1) b1))
    by (unfold m2; by rewrite lookup_insert_eq).
  set (m3 := <[a := _]> m2).
  assert (S3 : same_outside [a] m2 m3) by (apply heap_outside_insert; set_solver).
  assert (S03 : same_outside [a; par] m m3).
  { eapply heap_outside_trans; [|eapply heap_outside_sub; [exact S3|set_solver]].
    eapply heap_outside_trans; [|eapply heap_outside_sub; [exact S2|set_solver]].
    eapply heap_outside_sub; [exact S1|set_solver]. }
  assert (Ho3 : tree_at m3 q (Node w bw lw rw)) by (eapply tree_at_same; [done..|simpl; set_solver]).
  assert (Hw3 : m3 !! w = Some (mkNode q (ptr_of lw) (ptr_of rw) bw)) by (rewrite S03; [done|set_solver]).
  rewrite (run_modify _ _ _ _ _ Hw3). set (m4 := <[w := _]> m3).
  assert (S4 : same_outside [w] m3 m4) by (apply heap_outside_insert; set_solver).
  assert (Ho4 : tree_at m4 a (Node w bw lw rw)).
  { apply tree_reparent; [done|]. by apply NoDup_cons. }
  set (na := set_child (negb dir) w (mkNode par (ptr_of l1) (ptr_of r1) b1)) in *.
  rewrite (run_modify _ _ _ m4 na)
    by (rewrite S4; [unfold m3; by rewrite lookup_insert_eq|set_solver]).
  set (m5 := <[a := _]> m4).
  assert (S5 : same_outside [a] m4 m5) by (apply heap_outside_insert; set_solver).
  assert (S05 : same_outside [a; par; w] m m5).
  { eapply heap_outside_trans; [|eapply heap_outside_sub; [exact S5|set_solver]].
    eapply heap_outside_trans; [|eapply heap_outside_sub; [exact S4|set_solver]].
    eapply heap_outside_sub; [exact S03|set_solver]. }
  destruct (IH m5 a dir (set_balance (b - sign dir) na) a) as (m6 & E & Ht6 & Ha6 & S6).
  - unfold m5. by rewrite lookup_insert_eq.
  - done.
  - eapply tree_at_same; [done..|set_solver].
  - eapply tree_at_same; [done..|set_solver].
  - rewrite NoDup_cons, NoDup_app. set_solver.
  - exists m6. split; [exact E|]. split; [|split].
    + unfold t'. apply tree_node. splits; [done| |done|].
      * rewrite Ha6. unfold na. by destruct dir.
      * eapply tree_at_same; [eapply tree_at_same; [exact Ho4|exact S5|simpl; set_solver]|exact S6|].
        simpl. set_solver.
    + rewrite S6, S5, S4, S3, S2 by set_solver. unfold m1. rewrite lookup_insert_eq.
      unfold t'. by destruct dir.
    + eapply heap_outside_trans; [|eapply heap_outside_sub; [exact S6|simpl; set_solver]].
      eapply heap_outside_sub; [exact S05|simpl; set_solver].
Qed.

(** One child only: it takes the place of the node. *)
Lemma promote_one m par d np q t :
  m !! par = Some np -> tree_at m q t -> t <> Leaf -> NoDup (par :: addrs t) ->
  exists m', (do! _ := modify par (set_child d (ptr_of t)) in
              modify (ptr_of t) (set_parent par)) m = (Ok tt, m') /\
    tree_at m' par t /\ m' !! par = Some (set_child d (ptr_of t) np) /\
    same_outside (par :: addrs t) m m'.
Proof.
  intros Hp Ht Hn Hnd. apply NoDup_cons in Hnd as [Np Nt].
  destruct t as [|a b l r]; [done|]. pose proof Ht as (Ha0 & Ha & _). cbn [ptr_of].
  rewrite (run_modify _ _ _ _ _ Hp). set (m1 := <[par := _]> m).
  assert (S1 : same_outside [par] m m1) by (apply heap_outside_insert; set_solver).
  assert (Ht1 : tree_at m1 q (Node a b l r)) by (eapply tree_at_same; [done..|set_solver]).
  pose proof Ht1 as (_ & Ha1 & _). rewrite (run_modify_last _ _ _ _ Ha1).
  eexists. split; [done|]. split; [|split].
  - by apply tree_reparent.
  - simpl in Np. rewrite lookup_insert_ne by set_solver. unfold m1. by rewrite lookup_insert_eq.
  - eapply heap_outside_trans; [eapply heap_outside_sub; [exact S1|set_solver]|].
    apply heap_outside_insert. simpl. set_solver.
Qed.

Lemma promote_ok fuel x b l r :
  (length (addrs l ++ addrs r) < fuel)%nat -> promote_spec fuel x b l r.
Proof.
  revert x b l r. induction fuel as [|fuel IH]; intros x b l r Hf; [lia|].
  intros m par d np q Hp Hp0 Hl Hr Hnd. cbn [promote pull].
  destruct l as [|lx lb ll lr].
  - cbn [ptr_of]. change (negb (NULL =? NULL)) with false. cbn [andb orb app] in *.
    destruct r as [|rx rb rl rr].
    + cbn. rewrite (run_modify_last _ _ _ _ Hp). eexists. splits; [done|done| |].
      * by rewrite lookup_insert_eq.
      * apply heap_outside_insert. set_solver.
    + pose proof Hr as (Hr0 & _). cbn [ptr_of]. destruct (Z.eqb_spec rx NULL); [done|].
      cbn [negb]. change (NULL =? NULL) with true. cbv iota.
      by apply (promote_one m par d np q (Node rx rb rl rr)).
  - pose proof Hl as (Hl0 & _). cbn [ptr_of]. destruct (Z.eqb_spec lx NULL); [done|].
    cbn [negb andb orb]. destruct r as [|rx rb rl rr].
    + cbn [ptr_of]. change (negb (NULL =? NULL)) with false. cbv iota.
      assert (Hsame : addrs (Node lx lb ll lr) ++ addrs Leaf = addrs (Node lx lb ll lr))
        by apply app_nil_r. rewrite Hsame in *.
      by apply (promote_one m par d np q (Node lx lb ll lr)).
    + pose proof Hr as (Hr0 & _). cbn [ptr_of]. destruct (Z.eqb_spec rx NULL); [done|].
      cbn [negb]. rewrite length_app in Hf. simpl in Hf. rewrite length_app in Hf. simpl in Hf.
      destruct (Bool.eqb _ want_max).
      * destruct (promote_step fuel rx rb rl rr (Node lx lb ll lr) true b m par d np q)
          as (m' & E & Ht & Hs & So); try done.
        -- apply IH. rewrite length_app in *. lia.
        -- rewrite Permutation_app_comm. done.
        -- exists m'. split; [exact E|]. split; [exact Ht|]. split; [exact Hs|].
           eapply heap_outside_sub; [exact So|]. set_solver.
      * destruct (promote_step fuel lx lb ll lr (Node rx rb rl rr) false b m par d np q)
          as (m' & E & Ht & Hs & So); try done.
        -- apply IH. rewrite length_app in *. lia.
        -- exists m'. split; [exact E|]. simpl in Ht, Hs. replace (b + 1) with (b - -1) by lia.
           split; [exact Ht|]. split; [exact Hs|exact So].
Qed.

(** *** Removal: the way up *)

(** A tree with a hole; the frame nearest to the hole comes first. *)
Record frame := mkFrame { f_node : addr; f_bal : Z; f_dir : bool; f_other : tree }.

Fixpoint plug (path : list frame) (t : tree) : tree :=
  match path with
  | [] => t
  | f :: rest => plug rest (node (f_node f) (f_bal f) (f_dir f) t (f_other f))
  end.
Definition par_of (root : addr) (path : list frame) : addr :=
  match path with [] => root | f :: _ => f_node f end.
Definition ctx_addrs (path : list frame) : list addr :=
  concat (map (fun f => f_node f :: addrs (f_other f)) path).

(** The memory around a hole that holds the pointer [c]. *)
Fixpoint ctx_at (m : memory) (root : addr) (path : list frame) (c : addr) : Prop :=
  match path with
  | [] => exists b, m !! root = Some (mkNode NULL c NULL b)
  | f :: rest =>
      let o := ptr_of (f_other f) in
      f_node f <> NULL /\
      m !! f_node f = Some (mkNode (par_of root rest) (if f_dir f then o else c)
                              (if f_dir f then c else o) (f_bal f)) /\
      tree_at m (f_node f) (f_other f) /\ ctx_at m root rest (f_node f)
  end.

(** What the way up does to the balances. *)
Definition adjust (f : frame) : frame :=
  mkFrame (f_node f) (f_bal f - sign (f_dir f)) (f_dir f) (f_other f).

Lemma ctx_unplug m root path t b :
  m !! root = Some (mkNode NULL (ptr_of (plug path t)) NULL b) ->
  tree_at m root (plug path t) ->
  ctx_at m root path (ptr_of t) /\ tree_at m (par_of root path) t.
Proof.
  intros Hr. revert t Hr. induction path as [|f path IH]; intros t Hr Ht; simpl in *; [by eauto|].
  destruct (IH _ Hr Ht) as [Hc Hn]. apply tree_node in Hn as (Ha0 & Ha & Ht' & Ho).
  splits; [done| |done| |done].
  - rewrite Ha. by destruct (f_dir f).
  - by destruct (f_dir f).
Qed.

Lemma ctx_plug m root path t :
  ctx_at m root path (ptr_of t) -> tree_at m (par_of root path) t ->
  (exists b, m !! root = Some (mkNode NULL (ptr_of (plug path t)) NULL b)) /\
  tree_at m root (plug path t).
Proof.
  revert t. induction path as [|f path IH]; intros t; simpl; [done|].
  intros (Ha0 & Ha & Ho & Hc) Ht. apply IH.
  - by destruct (f_dir f).
  - apply tree_node. splits; [done| |done|done]. rewrite Ha. by destruct (f_dir f).
Qed.

Lemma plug_addrs path t : addrs (plug path t) ≡ₚ addrs t ++ ctx_addrs path.
Proof.
  revert t. induction path as [|f path IH]; intros t; simpl; [by rewrite app_nil_r|].
  rewrite IH. unfold ctx_addrs. simpl. fold (ctx_addrs path).
  rewrite app_comm_cons, (app_assoc (addrs t)). apply Permutation_app_tail.
  unfold node. destruct (f_dir f); simpl; [rewrite (Permutation_app_comm (addrs (f_other f)))|];
    apply (Permutation_middle (addrs t)).
Qed.

Lemma par_in root path : par_of root path ∈ root :: ctx_addrs path.
Proof. destruct path; simpl; unfold ctx_addrs; simpl; set_solver. Qed.

Lemma ctx_same s m m' root path c :
  ctx_at m root path c -> same_outside s m m' ->
  (forall a, a ∈ root :: ctx_addrs path -> a ∉ s) -> ctx_at m' root path c.
Proof.
  revert c. induction path as [|f path IH]; intros c; simpl.
  - intros [b Hb] Hs Hd. exists b. rewrite Hs; [done|]. apply Hd. set_solver.
  - unfold ctx_addrs. simpl. fold (ctx_addrs path).
    intros (H0 & Ha & Ho & Hc) Hs Hd. splits; [done| | |].
    + rewrite Hs; [done|]. apply Hd. set_solver.
    + eapply tree_at_same; [done..|]. intros a Hin. apply Hd. set_solver.
    + apply IH; [done..|]. intros a Hin. apply Hd. set_solver.
Qed.

(** Only the slot of the hole changes. *)
Lemma ctx_fill s m m' root path c c' np :
  ctx_at m root path c -> m !! par_of root path = Some np ->
  m' !! par_of root path =
    Some (set_child (match path with [] => false | f :: _ => f_dir f end) c' np) ->
  same_outside s m m' -> NoDup (root :: ctx_addrs path) ->
  (forall a, a ∈ root :: ctx_addrs path -> a <> par_of root path -> a ∉ s) ->
  ctx_at m' root path c'.
Proof.
  destruct path as [|f path]; simpl.
  - intros [b Hb] Hn Hn' _ _ _. exists b. rewrite Hn'. rewrite Hb in Hn. by injection Hn as <-.
  - unfold ctx_addrs. simpl. fold (ctx_addrs path).
    intros (H0 & Ha & Ho & Hc) Hn Hn' Hs Hnd Hd.
    rewrite !NoDup_cons, NoDup_app in Hnd. destruct Hnd as (N1 & N2 & N3 & N4 & N5).
    splits; [done| | |].
    + rewrite Hn'. rewrite Ha in Hn. injection Hn as <-. by destruct (f_dir f).
    + eapply tree_at_same; [done..|]. intros a Hin. apply Hd; set_solver.
    + eapply ctx_same; [done..|]. intros a Hin. apply Hd; set_solver.
Qed.

Lemma climb_ok root path : forall fuel m c,
  ctx_at m root path c -> root <> NULL -> c <> NULL -> c ∉ ctx_addrs path ->
  NoDup (root :: ctx_addrs path) -> (length path < fuel)%nat ->
  exists m', climb fuel (par_of root path) c m = (Ok root, m') /\
    ctx_at m' root (map adjust path) c /\ same_outside (ctx_addrs path) m m'.
Proof.
  induction path as [|f path IH]; intros fuel m c Hc Hr0 Hc0 Hnc Hnd Hf;
    (destruct fuel as [|fuel]; [simpl in Hf; lia|]); cbn [climb par_of map].
  - destruct Hc as [b Hb]. rewrite (run_ld _ _ _ _ Hb). cbn. exists m.
    splits; [done|by exists b|apply heap_outside_refl].
  - destruct Hc as (Ha0 & Ha & Ho & Hc). unfold ctx_addrs in *. simpl in Hnd, Hnc, Hf.
    fold (ctx_addrs path) in *. rewrite !NoDup_cons, NoDup_app in Hnd.
    destruct Hnd as (N1 & N2 & N3 & N4 & N5).
    rewrite (run_ld _ _ _ _ Ha). cbn [n_parent n_child1].
    assert (Hpz : par_of root path <> NULL).
    { destruct path as [|g path]; [done|]. simpl in Hc |- *. apply Hc. }
    destruct (Z.eqb_spec (par_of root path) NULL) as [|_]; [done|].
    assert (Hdir : ((if f_dir f then c else ptr_of (f_other f)) =? c) = f_dir f).
    { destruct (f_dir f); [apply Z.eqb_refl|]. apply Z.eqb_neq. intros E.
      destruct (ptr_in (f_other f)) as [[En _]|Hin]; [congruence|]. rewrite E in Hin. set_solver. }
    rewrite Hdir, (run_modify _ _ _ _ _ Ha). set (m1 := <[f_node f := _]> m).
    assert (S1 : same_outside [f_node f] m m1) by (apply heap_outside_insert; set_solver).
    destruct (IH fuel m1 (f_node f)) as (m' & E & Hc' & S2); try done.
    + eapply ctx_same; [done..|]. set_solver.
    + set_solver.
    + apply NoDup_cons. set_solver.
    + lia.
    + exists m'. split; [exact E|]. split.
      * cbn [map ctx_at adjust f_node f_bal f_dir f_other]. splits; [done| | |done].
        -- rewrite S2 by set_solver. unfold m1. rewrite lookup_insert_eq.
           unfold set_balance. simpl. f_equal. f_equal. by destruct path.
        -- eapply tree_at_same; [eapply tree_at_same; [exact Ho|exact S1|set_solver]|exact S2|].
           set_solver.
      * simpl. eapply heap_outside_trans; [eapply heap_outside_sub; [exact S1|set_solver]|].
        eapply heap_outside_sub; [exact S2|set_solver].
Qed.

Lemma plug_snoc path f t :
  plug (path ++ [f]) t = node (f_node f) (f_bal f) (f_dir f) (plug path t) (f_other f).
Proof. revert t. induction path as [|g path IH]; intros t; simpl; [done|]. by rewrite IH. Qed.

(** A node of a tree is at the bottom of a path, and removing it adjusts the
    balances along the path. *)
Lemma find_path t x :
  x ∈ addrs t -> NoDup (addrs t) ->
  exists path b l r, t = plug path (Node x b l r) /\
    remove x t = plug (map adjust path) (pull (Node x b l r)).
Proof.
  induction t as [|y b l IHl r IHr]; cbn [addrs remove]; [set_solver|].
  intros Hx Hnd. rewrite NoDup_cons, NoDup_app in Hnd. destruct Hnd as (N1 & N2 & N3 & N4).
  case_decide as Ey; [subst y; by exists [], b, l, r|].
  case_decide as Er; [|case_decide as El; [|set_solver]].
  - destruct (IHr Er N4) as (path & b' & l' & r' & E & E').
    exists (path ++ [mkFrame y b true l]), b', l', r'.
    rewrite map_app. cbn [map]. rewrite !plug_snoc. cbn [adjust f_node f_bal f_dir f_other node].
    rewrite <- E'. split; [by rewrite <- E|done].
  - destruct (IHl El N2) as (path & b' & l' & r' & E & E').
    exists (path ++ [mkFrame y b false r]), b', l', r'.
    rewrite map_app. cbn [map]. rewrite !plug_snoc. cbn [adjust f_node f_bal f_dir f_other node].
    rewrite <- E'. split; [by rewrite <- E|]. done.
Qed.

Lemma adjust_addrs path : ctx_addrs (map adjust path) = ctx_addrs path.
Proof. unfold ctx_addrs. by rewrite map_map. Qed.
Lemma adjust_par root path : par_of root (map adjust path) = par_of root path.
Proof. by destruct path. Qed.
Lemma path_length path : (length path <= length (ctx_addrs path))%nat.
Proof.
  unfold ctx_addrs. induction path as [|f path IH]; simpl; [lia|]. rewrite length_app. lia.
Qed.

Lemma ctx_par m root path c :
  ctx_at m root path c -> root <> NULL -> c <> NULL -> c ∉ ctx_addrs path ->
  par_of root path <> NULL /\
  exists np, m !! par_of root path = Some np /\
    (n_child1 np =? c) = match path with [] => false | f :: _ => f_dir f end.
Proof.
  destruct path as [|f path]; simpl.
  - intros [b Hb] H0 Hc _. split; [done|]. exists (mkNode NULL c NULL b). split; [done|].
    apply Z.eqb_neq. simpl. congruence.
  - intros (Ha0 & Ha & Ho & Hc) _ Hc0 Hnc. split; [done|]. eexists. split; [done|]. simpl.
    destruct (f_dir f); [apply Z.eqb_refl|]. apply Z.eqb_neq. intros E.
    unfold ctx_addrs in Hnc. simpl in Hnc.
    destruct (ptr_in (f_other f)) as [[En _]|Hin]; [congruence|]. rewrite E in Hin. set_solver.
Qed.

Lemma pull_addrs t : match t with Leaf => True | Node a _ _ _ => addrs t ≡ₚ a :: addrs (pull t) end.
Proof.
  induction t as [|a b l IHl r IHr]; [done|]. cbn [addrs pull]. apply perm_skip.
  destruct l as [|la lb ll lr]; [done|]. destruct r as [|ra rb rl rr].
  - simpl. by rewrite app_nil_r.
  - destruct (Bool.eqb _ want_max); cbn [addrs] in *.
    + rewrite IHr. symmetry. apply (Permutation_middle (la :: addrs ll ++ addrs lr)).
    + by rewrite IHl.
Qed.

Lemma hnode_remove_ok m root t x :
  heap_at m root t -> x ∈ addrs t ->
  exists m', hnode_remove x m = (Ok tt, m') /\ heap_at m' root (remove x t) /\
    m' !! x = Some (mkNode NULL NULL NULL 0) /\ same_outside (root :: addrs t) m m'.
Proof.
  intros ([br Hbr] & Ht & Hnd & Hr0) Hx. apply NoDup_cons in Hnd as [Nr Nt].
  pose proof (addrs_size _ _ _ Ht Nt) as Hsz.
  destruct (find_path t x Hx Nt) as (path & b & l & r & -> & ->).
  destruct (ctx_unplug m root path (Node x b l r) br Hbr Ht) as [Hc Hn]. cbn [ptr_of] in Hc.
  pose proof Hn as (Hx0 & Hxm & Hl & Hr).
  rewrite (plug_addrs path) in Nt, Nr. simpl in Nt, Nr.
  rewrite NoDup_cons, NoDup_app in Nt. destruct Nt as (N1 & N2 & N3 & N4).
  assert (Hlen : (length path < S (size m) /\ length (addrs l ++ addrs r) < S (size m))%nat).
  { rewrite (Permutation_length (plug_addrs _ _)) in Hsz. simpl in Hsz.
    rewrite length_app in Hsz. pose proof (path_length path). lia. }
  assert (Nroot : NoDup (root :: ctx_addrs path)) by (apply NoDup_cons; set_solver).
  assert (Hxc : x ∉ ctx_addrs path) by set_solver.
  unfold hnode_remove. rewrite (run_ld _ _ _ _ Hxm). cbn [n_parent].
  destruct (ctx_par _ _ _ _ Hc Hr0 Hx0 Hxc) as (Hp0 & _).
  destruct (Z.eqb_spec (par_of root path) NULL) as [|_]; [done|].
  destruct (climb_ok root path (S (size m)) m x Hc Hr0 Hx0 Hxc Nroot) as (m1 & E1 & Hc1 & S1); [lia|].
  unfold st_bind at 1. rewrite E1.
  assert (Hxc1 : x ∉ ctx_addrs (map adjust path)) by (by rewrite adjust_addrs).
  destruct (ctx_par _ _ _ _ Hc1 Hr0 Hx0 Hxc1) as (_ & np & Hnp & Hdir). rewrite adjust_par in Hnp.
  assert (Hdir' : match map adjust path with [] => false | f :: _ => f_dir f end =
    match path with [] => false | f :: _ => f_dir f end) by (by destruct path).
  rewrite (run_ld _ _ _ _ Hnp), Hdir.
  assert (Hx1 : m1 !! x = Some (mkNode (par_of root path) (ptr_of l) (ptr_of r) b))
    by (rewrite S1; [done|set_solver]).
  rewrite (run_ld _ _ _ _ Hx1). cbn [n_parent n_child0 n_child1 n_balance].
  unfold write. rewrite (run_modify _ _ _ _ _ Hx1). set (m2 := <[x := _]> m1).
  assert (S2 : same_outside [x] m1 m2) by (apply heap_outside_insert; set_solver).
  pose proof (par_in root path) as Hpin.
  assert (Hrc : forall a, a ∈ root :: ctx_addrs path -> a <> x /\ a ∉ addrs l ++ addrs r).
  { clear -Nr N1 N3. intros a [->|Ha]%elem_of_cons; [set_solver|].
    split; [intros ->; set_solver|]. intros Hin. by apply (N3 a). }
  destruct (Hrc _ Hpin) as [Hpx Hpl].
  assert (Hsub : forall a, a ∈ addrs l \/ a ∈ addrs r -> a ∉ [x] /\ a ∉ ctx_addrs path).
  { clear -N1 N3. intros a Ha. split; [set_solver|]. apply N3. set_solver. }
  set (d := match map adjust path with [] => false | f :: _ => f_dir f end) in *.
  destruct (promote_ok (S (size m)) x b l r (proj2 Hlen) m2 (par_of root path) d np x)
    as (m3 & E3 & Ht3 & Hp3 & S3).
  - rewrite S2; [done|]. by rewrite list_elem_of_singleton.
  - done.
  - eapply tree_at_same; [eapply tree_at_same; [exact Hl|exact S1|]|exact S2|];
      intros a Ha; by apply Hsub; left.
  - eapply tree_at_same; [eapply tree_at_same; [exact Hr|exact S1|]|exact S2|];
      intros a Ha; by apply Hsub; right.
  - by apply NoDup_cons.
  - set (t' := pull (Node x b l r)) in *.
    pose proof (pull_addrs (Node x b l r)) as Hpa. cbn [addrs] in Hpa. fold t' in Hpa.
    assert (Hin : forall a, a ∈ addrs l ++ addrs r <-> a ∈ addrs t').
    { intros a. apply Permutation_cons_inv in Hpa. by rewrite Hpa. }
    exists m3. split; [exact E3|]. split; [|split].
    + assert (Hc3 : ctx_at m3 root (map adjust path) (ptr_of t')).
      { eapply (ctx_fill (par_of root path :: addrs l ++ addrs r) m2 m3); rewrite ?adjust_par, ?adjust_addrs.
        - eapply ctx_same; [exact Hc1|exact S2|]. rewrite adjust_addrs.
          intros a Ha. rewrite list_elem_of_singleton. by apply Hrc.
        - rewrite S2; [exact Hnp|by rewrite list_elem_of_singleton].
        - exact Hp3.
        - exact S3.
        - done.
        - intros a Ha Hne [?|?]%elem_of_cons; [done|]. by apply (Hrc a). }
      destruct (ctx_plug m3 root (map adjust path) t' Hc3) as [Hb3 Htt]; [by rewrite adjust_par|].
      split; [done|]. split; [done|]. split; [|done]. apply NoDup_cons.
      apply Permutation_cons_inv in Hpa.
      rewrite (plug_addrs (map adjust path)), adjust_addrs, <- Hpa.
      split; [clear -Nr; set_solver|]. by rewrite NoDup_app.
    + rewrite S3 by (clear -Hpx N1; set_solver). unfold m2. by rewrite lookup_insert_eq.
    + apply (heap_outside_sub (root :: (x :: addrs l ++ addrs r) ++ ctx_addrs path));
        [|intros a; by rewrite !elem_of_cons, (plug_addrs path)].
      eapply heap_outside_trans; [|eapply heap_outside_sub; [exact S3|clear -Hpin; set_solver]].
      eapply heap_outside_trans; [|eapply heap_outside_sub; [exact S2|clear; set_solver]].
      eapply heap_outside_sub; [exact S1|clear; set_solver].
Qed.

(** ** Order and balance *)

(** The contract of a comparison function: a total preorder. *)
Definition cmp_laws : Prop :=
  (forall a b, cmp a b > 0 <-> cmp b a < 0) /\
  (forall a b c, cmp a b <= 0 -> cmp b c <= 0 -> cmp a c <= 0).

(** [p] may stand above [c]. *)
Definition above (p c : addr) : Prop :=
  if want_max then cmp (get c) (get p) <= 0 else cmp (get p) (get c) <= 0.

Fixpoint ordered (t : tree) : Prop :=
  match t with
  | Leaf => True
  | Node a _ l r => (forall x, x ∈ addrs l ++ addrs r -> above a x) /\ ordered l /\ ordered r
  end.

(** The balance of a node is the size of its right side less that of its left. *)
Fixpoint balanced (t : tree) : Prop :=
  match t with
  | Leaf => True
  | Node _ b l r => b = zlen (addrs r) - zlen (addrs l) /\ balanced l /\ balanced r
  end.

Lemma zlen_perm {A} (l k : list A) : l ≡ₚ k -> zlen l = zlen k.
Proof. intros H. unfold zlen. by rewrite (Permutation_length H). Qed.

Lemma put_balanced t x : balanced t -> balanced (put x t).
Proof.
  revert x. induction t as [|p b l IHl r IHr]; intros x; [done|]. intros (-> & Hl & Hr). simpl.
  assert (E : forall y t, zlen (addrs (put y t)) = 1 + zlen (addrs t))
    by (intros y t; by rewrite (zlen_perm _ _ (put_addrs t y)), zlen_cons).
  destruct (better x p); destruct (_ <? 0); simpl; rewrite E; splits; auto; lia.
Qed.

Lemma pull_length t : t <> Leaf -> zlen (addrs t) = 1 + zlen (addrs (pull t)).
Proof.
  intros Ht. pose proof (pull_addrs t) as Hp. destruct t as [|a b l r]; [done|].
  by rewrite (zlen_perm _ _ Hp), zlen_cons.
Qed.

Lemma pull_node a b la lb ll lr ra rb rl rr :
  let l := Node la lb ll lr in let r := Node ra rb rl rr in
  pull (Node a b l r) = if Bool.eqb (cmp (get la) (get ra) <? 0) want_max
    then Node ra (b - 1) l (pull r) else Node la (b + 1) (pull l) r.
Proof. reflexivity. Qed.

Lemma pull_balanced t : balanced t -> balanced (pull t).
Proof.
  induction t as [|a b l IHl r IHr]; [done|]. intros (-> & Hl & Hr).
  destruct l as [|la lb ll lr]; [done|]. destruct r as [|ra rb rl rr]; [done|].
  pose proof (pull_length (Node la lb ll lr) ltac:(done)) as El.
  pose proof (pull_length (Node ra rb rl rr) ltac:(done)) as Er.
  rewrite pull_node. destruct (Bool.eqb _ want_max);
    (split; [lia|split; [first [exact Hl|by apply IHl]|first [exact Hr|by apply IHr]]]).
Qed.

Lemma remove_addrs t x : x ∈ addrs t -> NoDup (addrs t) -> addrs t ≡ₚ x :: addrs (remove x t).
Proof.
  intros Hx Hnd. destruct (find_path t x Hx Hnd) as (path & b & l & r & E & ->).
  rewrite E at 1. rewrite !plug_addrs, adjust_addrs, (pull_addrs (Node x b l r)). done.
Qed.

Lemma remove_balanced t x : x ∈ addrs t -> NoDup (addrs t) -> balanced t -> balanced (remove x t).
Proof.
  induction t as [|y b l IHl r IHr]; [done|]. intros Hx Hnd Hbal.
  cbn [remove addrs] in *. rewrite NoDup_cons, NoDup_app in Hnd. destruct Hnd as (N1 & N2 & N3 & N4).
  case_decide; [by apply pull_balanced|]. destruct Hbal as (-> & Hl & Hr).
  case_decide as Er; [|case_decide as El; [|done]]; cbn [balanced].
  - rewrite (zlen_perm _ _ (remove_addrs r x Er N4)), zlen_cons. splits; auto; lia.
  - rewrite (zlen_perm _ _ (remove_addrs l x El N2)), zlen_cons. splits; auto; lia.
Qed.

Section order.
Context (Hcmp : cmp_laws).

Lemma above_refl a : above a a.
Proof.
  destruct Hcmp as [H1 _]. pose proof (H1 (get a) (get a)). unfold above.
  destruct want_max; lia.
Qed.
Lemma above_trans a b c : above a b -> above b c -> above a c.
Proof. destruct Hcmp as [_ H2]. unfold above. destruct want_max; eauto. Qed.

Lemma better_above a b : if better a b then above a b else above b a.
Proof.
  destruct Hcmp as [H1 _]. unfold better, above.
  pose proof (H1 (get a) (get b)). pose proof (H1 (get b) (get a)).
  destruct (Z.gtb_spec (cmp (get a) (get b)) 0), want_max; simpl; lia.
Qed.

Lemma put_ordered t x : ordered t -> ordered (put x t).
Proof.
  revert x. induction t as [|p b l IHl r IHr]; intros x; simpl; [set_solver|].
  intros (Ha & Hl & Hr). pose proof (better_above x p) as Hb.
  assert (E : forall top y, above top y -> (forall z, z ∈ addrs l ++ addrs r -> above top z) ->
    ordered (if b <? 0 then Node top (b + 1) l (put y r) else Node top (b - 1) (put y l) r)).
  { intros top y Hy Hall. destruct (b <? 0); simpl; splits; auto; intros z;
      rewrite (put_addrs _ y); rewrite elem_of_app; intros Hz; set_solver. }
  destruct (better x p); apply E; auto. intros z Hz. by apply (above_trans x p z); auto.
Qed.

Lemma root_above t : ordered t -> forall x, x ∈ addrs t -> above (ptr_of t) x.
Proof.
  destruct t as [|a b l r]; simpl; [set_solver|]. intros (Ha & _) x [->|Hx]%elem_of_cons;
    [apply above_refl|by apply Ha].
Qed.

Lemma pull_in t x : x ∈ addrs (pull t) -> x ∈ addrs t.
Proof.
  intros Hx. pose proof (pull_addrs t) as Hp. destruct t as [|a b l r]; [done|].
  rewrite Hp. set_solver.
Qed.

Lemma pull_ordered t : ordered t -> ordered (pull t).
Proof.
  induction t as [|a b l IHl r IHr]; [done|]. intros (Ha & Hl & Hr).
  destruct l as [|la lb ll lr]; [done|]. destruct r as [|ra rb rl rr]; [done|].
  rewrite pull_node. pose proof (root_above _ Hl) as Al. pose proof (root_above _ Hr) as Ar.
  cbn [ptr_of] in *. destruct Hcmp as [H1 _]. pose proof (H1 (get la) (get ra)) as H1a.
  pose proof (H1 (get ra) (get la)) as H1b.
  destruct (Bool.eqb (cmp (get la) (get ra) <? 0) want_max) eqn:Eb.
  - assert (Hlr : above ra la).
    { unfold above. apply eqb_prop in Eb. destruct (Z.ltb_spec (cmp (get la) (get ra)) 0), want_max; lia. }
    split; [|split; [exact Hl|by apply IHr]].
    intros x [Hx|Hx]%elem_of_app; [by eapply above_trans; [exact Hlr|apply Al]|].
    apply Ar. by apply pull_in.
  - assert (Hlr : above la ra).
    { unfold above. apply eqb_false_iff in Eb. destruct (Z.ltb_spec (cmp (get la) (get ra)) 0), want_max; try lia; congruence. }
    split; [|split; [by apply IHl|exact Hr]].
    intros x [Hx|Hx]%elem_of_app; [apply Al; by apply pull_in|].
    by eapply above_trans; [exact Hlr|apply Ar].
Qed.

Lemma remove_in t x y : y ∈ addrs (remove x t) -> y ∈ addrs t.
Proof.
  induction t as [|a b l IHl r IHr]; [done|]. cbn [remove].
  case_decide; [apply pull_in|]. case_decide; [|case_decide; [|done]]; cbn [addrs]; set_solver.
Qed.

Lemma remove_ordered t x : ordered t -> ordered (remove x t).
Proof.
  induction t as [|a b l IHl r IHr]; [done|]. intros Ho. cbn [remove].
  case_decide; [by apply pull_ordered|]. destruct Ho as (Ha & Hl & Hr).
  case_decide; [|case_decide; [|done]]; cbn [ordered]; splits; auto;
    intros y [Hy|Hy]%elem_of_app; apply Ha; try apply remove_in in Hy; set_solver.
Qed.
End order.

(** A heap that respects its order and its balances. *)
Definition heap_ok (m : memory) (root : addr) (t : tree) : Prop :=
  heap_at m root t /\ ordered t /\ balanced t.

Lemma heap_peek_ok m root t : heap_at m root t -> heap_peek root m = (Ok (ptr_of t), m).
Proof. intros ([b Hb] & _). unfold heap_peek. by rewrite (run_ld _ _ _ _ Hb). Qed.
End heap.

(** ** Claims *)

(** C31: under a total preorder of keys, a heap in memory is a priority queue: heap_put adds the
    node, hnode_remove takes a node out from wherever it is (and does nothing to a node that
    is in no heap), heap_pop takes out a node at least as good as every other; order and
    balances are kept, and nothing else in memory changes. *)
Theorem heap_operations {K} (get : addr -> K) (cmp : K -> K -> Z) (want_max : bool) m root t :
  cmp_laws cmp -> heap_ok get cmp want_max m root t ->
  (forall x, x ∉ root :: addrs t -> x <> NULL -> is_Some (m !! x) ->
     exists m' t', heap_put get cmp want_max root x m = (Ok tt, m') /\
       heap_ok get cmp want_max m' root t' /\ addrs t' ≡ₚ x :: addrs t /\
       same_outside (x :: root :: addrs t) m m') /\
  (forall x, x ∈ addrs t ->
     exists m' t', hnode_remove get cmp want_max x m = (Ok tt, m') /\
       heap_ok get cmp want_max m' root t' /\ addrs t ≡ₚ x :: addrs t' /\
       m' !! x = Some (mkNode NULL NULL NULL 0) /\ same_outside (root :: addrs t) m m') /\
  (forall x n, m !! x = Some n -> n_parent n = NULL ->
     hnode_remove get cmp want_max x m = (Ok tt, m)) /\
  (exists m' x, heap_pop get cmp want_max root m = (Ok x, m') /\
     if decide (addrs t = []) then x = NULL /\ m' = m
     else (forall y, y ∈ addrs t -> above get cmp want_max x y) /\
       exists t', heap_ok get cmp want_max m' root t' /\ addrs t ≡ₚ x :: addrs t').
Proof.
  intros Hc (Hat & Ho & Hb). pose proof Hat as (_ & Ht & Hnd & _). apply NoDup_cons in Hnd as [_ Hnd].
  assert (Hrem : forall x, x ∈ addrs t ->
     exists m', hnode_remove get cmp want_max x m = (Ok tt, m') /\
       heap_ok get cmp want_max m' root (remove get cmp want_max x t) /\
       addrs t ≡ₚ x :: addrs (remove get cmp want_max x t) /\
       m' !! x = Some (mkNode NULL NULL NULL 0) /\ same_outside (root :: addrs t) m m').
  { intros x Hx. destruct (hnode_remove_ok get cmp want_max m root t x Hat Hx)
      as (m' & E & Hat' & Hz & Hs).
    exists m'. split; [done|]. split; [|split; [by apply remove_addrs|done]].
    split; [done|]. split; [by apply remove_ordered|by apply remove_balanced]. }
  splits.
  - intros x Hx Hx0 Hi.
    destruct (heap_put_ok get cmp want_max m root t x Hat Hx Hx0 Hi) as (m' & E & Hat' & Hs).
    exists m', (put get cmp want_max x t). split; [done|]. split; [|split; [apply put_addrs|done]].
    split; [done|]. split; [by apply put_ordered|by apply put_balanced].
  - intros x Hx. destruct (Hrem x Hx) as (m' & H). eauto.
  - intros x n Hx Hn. unfold hnode_remove. rewrite (run_ld _ _ _ _ Hx), Hn. done.
  - unfold heap_pop. pose proof (heap_peek_ok m root t Hat) as Ep.
    destruct t as [|a b l r].
    + exists m, NULL. unfold st_bind. rewrite Ep. done.
    + destruct Ht as (Ha0 & _). destruct (Hrem a) as (m' & E & Hok & P & _); [simpl; set_solver|].
      exists m', a. unfold st_bind. rewrite Ep. cbn [ptr_of].
      destruct (Z.eqb_spec a NULL); [done|]. rewrite E. split; [done|].
      rewrite decide_False by done. split; [|eauto].
      intros y Hy. by apply (root_above get cmp want_max Hc _ Ho y Hy).
Qed.

(** A min-heap of two nodes whose keys are their addresses. *)
Definition sample_memory : memory :=
  list_to_map [(1, mkNode 0 10 0 0); (10, mkNode 1 20 0 (-1)); (20, mkNode 10 0 0 0);
               (5, mkNode 0 0 0 0)].

Lemma heap_operations_witness :
  exists m' t', heap_put id Z.sub false 1 5 sample_memory = (Ok tt, m') /\
    heap_ok id Z.sub false m' 1 t' /\
    addrs t' ≡ₚ 5 :: [10; 20] /\ same_outside (5 :: 1 :: [10; 20]) sample_memory m'.
Proof.
  refine (proj1 (heap_operations (K := Z) id Z.sub false sample_memory 1
    (Node 10 (-1) (Node 20 0 Leaf Leaf) Leaf) _ _) 5 _ _ _).
  - split; intros; lia.
  - split; [|split].
    + split; [by exists 0|]. split; [vm_compute; intuition congruence|].
      split; [by apply (bool_decide_unpack (NoDup [1; 10; 20]))|done].
    + split; [|repeat split; intros x Hx; by apply not_elem_of_nil in Hx].
      intros x [->|Hx]%elem_of_cons; [vm_compute; congruence|by apply not_elem_of_nil in Hx].
    + vm_compute. repeat split.
  - by apply (bool_decide_unpack (5 ∉ [1; 10; 20])).
  - done.
  - by eexists.
Defined.
