(* ===== verification/Atree.v ===== *)
(** * Andersson trees (libdstr/jsw_atree.c)

    Ordered trees with subtree counts. The nodes have no parent pointers, so a
    tree is a value; the stack of ancestors that the source keeps in an array of
    64 entries is a list of frames, and pushing on a full one is out of bounds. *)

From stdpp Require Import sorting.
From S2P Require Import Prelude.

(** ** Data *)

(** A node: level, count, left subtree, the object that owns it, right subtree.
    The sentinel [nil] has level 0, count 0 and itself as links. *)
Inductive atree := Nil | Node (level count : Z) (l : atree) (owner : Z) (r : atree).

Definition JSW_AHEIGHT_LIMIT : nat := 64.

Definition level (t : atree) : Z := match t with Nil => 0 | Node lv _ _ _ _ => lv end.
Definition count (t : atree) : Z := match t with Nil => 0 | Node _ c _ _ _ => c end.
Definition left (t : atree) : atree := match t with Nil => Nil | Node _ _ l _ _ => l end.
Definition right (t : atree) : atree := match t with Nil => Nil | Node _ _ _ _ r => r end.
Definition link (t : atree) (dir : bool) : atree := if dir then right t else left t.
Definition owner (t : atree) : option Z := match t with Nil => None | Node _ _ _ x _ => Some x end.

(** [tree->size] is kept beside the root. *)
Record jsw_atree_t := mkTree { root : atree; size : Z }.

(** ** Rebalancing *)

(** Remove left horizontal links. *)
Definition skew (t : atree) : atree :=
  match t with
  | Node lv c (Node ll lc a y b) x r =>
      if (ll =? lv) && negb (lv =? 0)
      then Node ll c a y (Node lv (count b + count r + 1) b x r)
      else t
  | _ => t
  end.

(** Remove consecutive horizontal links. *)
Definition split (t : atree) : atree :=
  match t with
  | Node lv c l x (Node rl rc a y b) =>
      if (level b =? lv) && negb (lv =? 0)
      then Node (rl + 1) c (Node lv (count l + count a + 1) l x a) y b
      else t
  | _ => t
  end.

Definition set_level (lv : Z) (t : atree) : atree :=
  match t with Nil => Nil | Node _ c l x r => Node lv c l x r end.
Definition on_right (f : atree -> atree) (t : atree) : atree :=
  match t with Nil => Nil | Node lv c l x r => Node lv c l x (f r) end.

(** The body of the walk back of jsw_aerase, after [up->count--]. *)
Definition rebalance (up : atree) : atree :=
  match up with
  | Nil => Nil
  | Node lv c l x r =>
      if (level l <? lv - 1) || (level r <? lv - 1) then
        let lv := lv - 1 in
        let r := if level r >? lv then set_level lv r else r in
        let up := skew (Node lv c l x r) in
        let up := on_right skew up in
        let up := on_right (on_right skew) up in
        let up := split up in
        on_right split up
      else up
  end.

(** ** Searching *)

(** A comparison with the searched value: negative when the node is before it. *)
Abbreviation probe := (Z -> Z).

(** JSW_NUM_CMP, for an object that is its own key. *)
Definition num_cmp (x : Z) : probe := fun y => if y <? x then -1 else if x <? y then 1 else 0.

Fixpoint afind_loop (cmp : probe) (it : atree) (left_count : Z) : option Z * Z :=
  match it with
  | Nil => (None, left_count)
  | Node _ _ l x r =>
      if cmp x =? 0 then (Some x, left_count + count l)
      else if cmp x <? 0 then afind_loop cmp r (left_count + (count l + 1))
      else afind_loop cmp l left_count
  end.
Definition jsw_afind_ex (cmp : probe) (t : jsw_atree_t) : option Z * Z :=
  afind_loop cmp (root t) 0.

Fixpoint index_loop (it : atree) (idx left_count : Z) : res Z :=
  match it with
  | Nil => Stop OutOfFuel
  | Node _ _ l x r =>
      let cur := left_count + count l in
      if cur =? idx then Ok x
      else if cur <? idx then index_loop r idx (left_count + (count l + 1))
      else index_loop l idx left_count
  end.
Definition jsw_aindex (t : jsw_atree_t) (idx : Z) : res (option Z) :=
  if idx >=? size t then Ok None
  else let! x := index_loop (root t) idx 0 in Ok (Some x).

(** ** The stack of ancestors *)

(** An ancestor without the child the path goes through. *)
Record aframe := mkFrame {
  f_level : Z; f_count : Z; f_dir : bool; f_owner : Z; f_other : atree
}.
Definition fill (f : aframe) (t : atree) : atree :=
  if f_dir f then Node (f_level f) (f_count f) (f_other f) (f_owner f) t
  else Node (f_level f) (f_count f) t (f_owner f) (f_other f).

(** [path[top++] = it] *)
Definition push (f : aframe) (path : list aframe) : res (list aframe) :=
  if (length path <? JSW_AHEIGHT_LIMIT)%nat then Ok (f :: path) else Stop OutOfBounds.

(** [while ( --top >= 0 )]: each ancestor takes the new subtree and is repaired. *)
Definition walk_back (repair : atree -> atree) (path : list aframe) (t : atree) : atree :=
  fold_left (fun t f => repair (fill f t)) path t.

(** ** Insertion *)

Definition place_node (x : Z) : atree := Node 1 1 Nil x Nil.

Fixpoint insert_path (cmp : probe) (it : atree) (path : list aframe) : res (list aframe) :=
  match it with
  | Nil => Ok path
  | Node lv c l y r =>
      let dir := cmp y <? 0 in
      let! path := push (mkFrame lv (c + 1) dir y (if dir then l else r)) path in
      insert_path cmp (if dir then r else l) path
  end.

Definition jsw_ainsert (cmp : probe) (x : Z) (t : jsw_atree_t) : res jsw_atree_t :=
  let! path := insert_path cmp (root t) [] in
  let root := walk_back (fun t => split (skew t)) path (place_node x) in
  Ok (mkTree root (size t + 1)).

(** ** Removal *)

(** The path to the node to remove. Its frame is pushed too, but nothing hangs
    from it yet; the sentinel takes a place on the stack before it is noticed. *)
Fixpoint erase_path (cmp : probe) (it : atree) (path : list aframe)
  : res (option (atree * list aframe)) :=
  match it with
  | Nil => if (length path <? JSW_AHEIGHT_LIMIT)%nat then Ok None else Stop OutOfBounds
  | Node lv c l y r =>
      if cmp y =? 0 then
        if (length path <? JSW_AHEIGHT_LIMIT)%nat then Ok (Some (it, path)) else Stop OutOfBounds
      else
        let dir := cmp y <? 0 in
        let! path := push (mkFrame lv c dir y (if dir then l else r)) path in
        erase_path cmp (if dir then r else l) path
  end.

(** From the right child down to the next node in order, the heir. *)
Fixpoint heir_path (heir : atree) (path : list aframe) : res (option (Z * atree * list aframe)) :=
  match heir with
  | Nil => Ok None
  | Node lv c l y r =>
      match l with
      | Nil => Ok (Some (y, r, path))
      | _ =>
          let! path := push (mkFrame lv c false y r) path in
          heir_path l path
      end
  end.

(** [up->count--], then the repair. *)
Definition dec_count (t : atree) : atree :=
  match t with Nil => Nil | Node lv c l x r => Node lv (c - 1) l x r end.
Definition erase_repair (t : atree) : atree := rebalance (dec_count t).

Definition is_nil (t : atree) : bool := match t with Nil => true | _ => false end.

Definition jsw_aerase (cmp : probe) (t : jsw_atree_t) : res (option Z * jsw_atree_t) :=
  if is_nil (root t) then Ok (None, t)
  else
    let! found := erase_path cmp (root t) [] in
    match found with
    | Some (Node lv c l y r, path) =>
        let done_ root := Ok (Some y, mkTree root (size t - 1)) in
        if is_nil l || is_nil r then
          let dir2 := is_nil l in
          match path with
          | [] => done_ r
          | _ => done_ (walk_back erase_repair path (if dir2 then r else l))
          end
        else
          (* the frame of the removed node stays empty until its heir is known *)
          let! path' := push (mkFrame lv c true y l) path in
          let! h := heir_path r path' in
          match h with
          | None => Stop OutOfBounds
          | Some (heir, heir_right, path'') =>
              let below := take (length path'' - length path') path'' in
              let path'' := below ++ mkFrame lv c true heir l :: path in
              done_ (walk_back erase_repair path'' heir_right)
          end
    | _ => Ok (None, t)
    end.

Definition jsw_ainit : jsw_atree_t := mkTree Nil 0.
Definition jsw_asize (t : jsw_atree_t) : Z := size t.

Definition jsw_apop (cmp : Z -> probe) (t : jsw_atree_t) : res (option Z * jsw_atree_t) :=
  match root t with
  | Nil => Ok (None, t)
  | Node _ _ _ x _ => jsw_aerase (cmp x) t
  end.

(** ** Traversal *)

(** [trav->it] with what hangs from it, and the ancestors on the stack. *)
Record jsw_atrav_t := mkTrav { it : atree; path : list atree }.

Definition push_node (t : atree) (path : list atree) : res (list atree) :=
  if (length path <? JSW_AHEIGHT_LIMIT)%nat then Ok (t :: path) else Stop OutOfBounds.

(** Down in direction [dir] as far as possible. *)
Fixpoint down (fuel : nat) (dir : bool) (it : atree) (path : list atree) : res jsw_atrav_t :=
  match fuel with
  | O => Stop OutOfFuel
  | S f =>
      if is_nil (link it dir) then Ok (mkTrav it path)
      else let! path := push_node it path in down f dir (link it dir) path
  end.

Fixpoint height (t : atree) : nat :=
  match t with Nil => 0 | Node _ _ l _ r => S (Nat.max (height l) (height r)) end.

Definition start (dir : bool) (t : jsw_atree_t) : res jsw_atrav_t :=
  if is_nil (root t) then Ok (mkTrav Nil []) else down (S (height (root t))) dir (root t) [].

(** [do { ... last = it; it = path[--top]; } while ( last == it->link[dir] )]:
    nodes are compared by the objects that own them. *)
Fixpoint up (dir : bool) (last : atree) (path : list atree) : jsw_atrav_t :=
  match path with
  | [] => mkTrav Nil []
  | t :: rest =>
      if bool_decide (owner last = owner (link t dir)) then up dir t rest else mkTrav t rest
  end.

Definition move (dir : bool) (trav : jsw_atrav_t) : res jsw_atrav_t :=
  if negb (is_nil (link (it trav) dir)) then
    let! path := push_node (it trav) (path trav) in
    down (S (height (it trav))) (negb dir) (link (it trav) dir) path
  else Ok (up dir (it trav) (path trav)).

Definition jsw_atfirst : jsw_atree_t -> res jsw_atrav_t := start false.
Definition jsw_atlast : jsw_atree_t -> res jsw_atrav_t := start true.
Definition jsw_atnext : jsw_atrav_t -> res jsw_atrav_t := move true.
Definition jsw_atprev : jsw_atrav_t -> res jsw_atrav_t := move false.

Fixpoint node_loop (cmp : probe) (it : atree) (path : list atree) : res jsw_atrav_t :=
  match it with
  | Nil => Ok (mkTrav Nil path)
  | Node _ _ l x r =>
      if cmp x =? 0 then Ok (mkTrav it path)
      else
        let! path := push_node it path in
        if cmp x <? 0 then node_loop cmp r path else node_loop cmp l path
  end.
Definition jsw_atnode (cmp : probe) (t : jsw_atree_t) : res jsw_atrav_t :=
  node_loop cmp (root t) [].

(** Returns the current node, which is removed, and the cursor on the next one. *)
Definition pop_move (cmp : Z -> probe) (dir : bool) (t : jsw_atree_t) (trav : jsw_atrav_t)
  : res (jsw_atree_t * jsw_atrav_t) :=
  match it trav with
  | Nil => Ok (t, trav)
  | Node _ _ _ pop_node _ =>
      let! trav := move dir trav in
      let! erased := jsw_aerase (cmp pop_node) t in
      let t := snd erased in
      match it trav with
      | Nil =>
          (* simulate walking off the end *)
          let! trav := start dir t in
          let! trav := move dir trav in
          Ok (t, trav)
      | Node _ _ _ ret_node _ => let! trav := jsw_atnode (cmp ret_node) t in Ok (t, trav)
      end
  end.
Definition jsw_pop_atnext cmp := pop_move cmp true.
Definition jsw_pop_atprev cmp := pop_move cmp false.

(** ** Contents, counts and the Andersson invariant *)

Fixpoint inorder (t : atree) : list Z :=
  match t with Nil => [] | Node _ _ l x r => inorder l ++ x :: inorder r end.

Fixpoint counted (t : atree) : Prop :=
  match t with
  | Nil => True
  | Node _ c l _ r => c = zlen (inorder l) + zlen (inorder r) + 1 /\ counted l /\ counted r
  end.

(** A left child is one level down; a right child is too, or is on the level of
    its parent and has a right child one level down. *)
Fixpoint invar (t : atree) : Prop :=
  match t with
  | Nil => True
  | Node lv _ l _ r =>
      level l = lv - 1 /\
      (level r = lv - 1 \/ level r = lv /\ level (right r) = lv - 1) /\ invar l /\ invar r
  end.

(** No right child on the same level. *)
Definition sngl (t : atree) : Prop :=
  match t with Nil => False | Node lv _ _ _ r => level r < lv end.

(** The searched value falls in one place of a list: the elements before it
    first, then those equal to it, then those after it. *)
Definition mono (cmp : probe) (l : list Z) : Prop :=
  StronglySorted (fun a b => Z.sgn (cmp a) <= Z.sgn (cmp b)) l.

Record tree_ok (t : jsw_atree_t) : Prop := {
  ok_invar : invar (root t);
  ok_counted : counted (root t);
  ok_size : size t = zlen (inorder (root t))
}.

#[local] Arguments Z.eqb : simpl never.
#[local] Arguments Z.ltb : simpl never.
#[local] Arguments Z.add : simpl never.
#[local] Arguments Z.sub : simpl never.

(** ** The two rotations *)

Lemma count_inorder t : counted t -> count t = zlen (inorder t).
Proof. destruct t; simpl; [done|]. intros (-> & _). autorewrite with zlen. lia. Qed.

Lemma level_nonneg t : invar t -> 0 <= level t.
Proof. induction t; simpl; [lia|]. intros (? & ? & Hl & Hr). specialize (IHt1 Hl). lia. Qed.

Lemma skew_inorder t : inorder (skew t) = inorder t.
Proof.
  destruct t as [|lv c [|ll lc a y b] x r]; try done. simpl. case_match; [|done].
  simpl. by rewrite <- app_assoc.
Qed.

Lemma split_inorder t : inorder (split t) = inorder t.
Proof.
  destruct t as [|lv c l x [|ll lc a y b]]; try done. simpl. case_match; [|done].
  simpl. by rewrite <- app_assoc.
Qed.

Lemma on_right_inorder f t :
  (forall t, inorder (f t) = inorder t) -> inorder (on_right f t) = inorder t.
Proof. intros Hf. destruct t; [done|]. simpl. by rewrite Hf. Qed.

Lemma set_level_inorder lv t : inorder (set_level lv t) = inorder t.
Proof. by destruct t. Qed.

Lemma skew_counted t : counted t -> counted (skew t).
Proof.
  destruct t as [|lv c [|ll lc a y b] x r]; try done. simpl. case_match; [|done].
  intros (-> & (-> & Ha & Hb) & Hr). simpl. rewrite (count_inorder b Hb), (count_inorder r Hr).
  autorewrite with zlen. splits; auto; lia.
Qed.

Lemma split_counted t : counted t -> counted (split t).
Proof.
  destruct t as [|lv c l x [|ll lc a y b]]; try done. simpl. case_match; [|done].
  intros (-> & Hl & (-> & Ha & Hb)). simpl. rewrite (count_inorder a Ha), (count_inorder l Hl).
  autorewrite with zlen. splits; auto; lia.
Qed.

Lemma on_right_counted f t :
  (forall t, inorder (f t) = inorder t) -> (forall t, counted t -> counted (f t)) ->
  counted t -> counted (on_right f t).
Proof. intros Hi Hc. destruct t; [done|]. simpl. rewrite Hi. naive_solver. Qed.

Lemma set_level_counted lv t : counted t -> counted (set_level lv t).
Proof. by destruct t. Qed.

#[export] Hint Resolve skew_inorder split_inorder on_right_inorder set_level_inorder
  skew_counted split_counted on_right_counted set_level_counted : atree.

Lemma rebalance_inorder t : inorder (rebalance t) = inorder t.
Proof.
  destruct t as [|lv c l x r]; [done|]. unfold rebalance. case_match; [|done]. cbv zeta.
  rewrite on_right_inorder, split_inorder, on_right_inorder, on_right_inorder, skew_inorder
    by auto with atree.
  simpl. case_match; by rewrite ?set_level_inorder.
Qed.

Lemma rebalance_counted t : counted t -> counted (rebalance t).
Proof.
  destruct t as [|lv c l x r]; [done|]. unfold rebalance. case_match; [|done]. cbv zeta.
  intros (Hc & Hl & Hr). apply on_right_counted; [auto with atree..|].
  apply split_counted, on_right_counted; [auto with atree..|].
  apply on_right_counted; [auto with atree..|]. apply skew_counted. simpl.
  case_match; rewrite ?set_level_inorder; auto with atree.
Qed.

(** ** The invariant through repairs *)

(** Decide the comparisons of levels that arithmetic settles. *)
Ltac levels :=
  repeat (simpl in *; match goal with
  | |- context [?a =? ?b] => destruct (Z.eqb_spec a b); try (exfalso; lia)
  | |- context [?a <? ?b] => destruct (Z.ltb_spec a b); try (exfalso; lia)
  | |- context [?a >? ?b] => rewrite (Z.gtb_ltb a b)
  end); simpl in *.

(** What an insertion and a removal do to the level of a subtree. *)
Definition grown (t t' : atree) : Prop :=
  invar t' /\ (level t' = level t \/ level t' = level t + 1 /\ sngl t' /\ ~ sngl t).
Definition shrunk (t t' : atree) : Prop :=
  invar t' /\ (level t' = level t /\ (sngl t -> sngl t') \/ level t' = level t - 1).

Definition insert_repair (t : atree) : atree := split (skew t).

Lemma insert_repair_left lv c c' l l' x r :
  invar (Node lv c l x r) -> grown l l' ->
  grown (Node lv c l x r) (insert_repair (Node lv c' l' x r)).
Proof.
  intros (Hl & Hr & Il & Ir) (Il' & Hg). unfold insert_repair, grown.
  pose proof (level_nonneg _ Il). pose proof (level_nonneg _ Ir).
  destruct l' as [|ll lc a y b]; [simpl in *; destruct r as [|rl rc d z e]; levels; intuition lia|].
  destruct r as [|rl rc d z e]; levels; intuition lia.
Qed.

Lemma insert_repair_right lv c c' l x r r' :
  invar (Node lv c l x r) -> grown r r' ->
  grown (Node lv c l x r) (insert_repair (Node lv c' l x r')).
Proof.
  intros (Hl & Hr & Il & Ir) (Ir' & Hg). unfold insert_repair, grown.
  pose proof (level_nonneg _ Il). pose proof (level_nonneg _ Ir).
  destruct l as [|ll lc a y b], r' as [|rl rc d z e], r as [|ql qc f w g]; levels; intuition lia.
Qed.

(** When a rotation happens, and when it does not. *)
Lemma skew_on lv c lc a y b x r :
  lv <> 0 -> skew (Node lv c (Node lv lc a y b) x r)
             = Node lv c a y (Node lv (count b + count r + 1) b x r).
Proof. intros. simpl. rewrite Z.eqb_refl. by destruct (Z.eqb_spec lv 0). Qed.

Lemma skew_off t : level (left t) <> level t -> skew t = t.
Proof.
  destruct t as [|lv c [|ll lc a y b] x r]; try done. simpl. intros.
  by destruct (Z.eqb_spec ll lv).
Qed.

Lemma split_on lv c l x rl rc a y b :
  lv <> 0 -> level b = lv ->
  split (Node lv c l x (Node rl rc a y b))
  = Node (rl + 1) c (Node lv (count l + count a + 1) l x a) y b.
Proof. intros ? <-. simpl. rewrite Z.eqb_refl. by destruct (Z.eqb_spec (level b) 0). Qed.

Lemma split_off t : level (right (right t)) <> level t -> split t = t.
Proof.
  destruct t as [|lv c l x [|rl rc a y b]]; try done. simpl. intros.
  by destruct (Z.eqb_spec (level b) lv).
Qed.

Lemma level_right_right t : invar t -> t <> Nil -> level (right (right t)) < level t.
Proof.
  destruct t as [|lv c l x [|rl rc a y b]]; try done; simpl; intuition lia.
Qed.

Lemma skew_id t : invar t -> skew t = t.
Proof. intros H. destruct t; [done|]. apply skew_off. simpl in *. lia. Qed.
Lemma split_id t : invar t -> split t = t.
Proof.
  intros H. destruct t as [|lv c l x r]; [done|].
  apply split_off. pose proof (level_right_right _ H) as Hr. specialize (Hr ltac:(done)). lia.
Qed.

Lemma on_right_node f lv c l x r : on_right f (Node lv c l x r) = Node lv c l x (f r).
Proof. done. Qed.

Lemma node_of_level t : 0 < level t -> exists lv c l x r, t = Node lv c l x r.
Proof. destruct t; simpl; [lia|]. eauto 6. Qed.

(** The repaired node, before its rotations. *)
Lemma rebalance_short lv c l x r :
  level l < lv - 1 \/ level r < lv - 1 ->
  rebalance (Node lv c l x r) =
  on_right split (split (on_right (on_right skew) (on_right skew (skew
    (Node (lv - 1) c l x (if level r >? lv - 1 then set_level (lv - 1) r else r)))))).
Proof.
  intros H. unfold rebalance.
  destruct (Z.ltb_spec (level l) (lv - 1)), (Z.ltb_spec (level r) (lv - 1)); simpl; try lia; done.
Qed.

Lemma rebalance_long lv c l x r :
  lv - 1 <= level l -> lv - 1 <= level r -> rebalance (Node lv c l x r) = Node lv c l x r.
Proof.
  intros. unfold rebalance.
  destruct (Z.ltb_spec (level l) (lv - 1)), (Z.ltb_spec (level r) (lv - 1)); try lia; done.
Qed.

Ltac rotate :=
  repeat first
    [ rewrite on_right_node
    | rewrite skew_on by lia
    | rewrite split_on by (simpl; lia)
    | rewrite skew_id by (simpl in *; intuition lia)
    | rewrite split_id by (simpl in *; intuition lia)
    | rewrite skew_off by (simpl in *; lia)
    | rewrite split_off by (simpl in *; lia) ].

(** The left subtree became short; the right one is on the level below. *)
Lemma rebalance_left_black lv c c' l l' x r :
  invar (Node lv c l x r) -> invar l' -> level l' = lv - 2 -> level r = lv - 1 ->
  shrunk (Node lv c l x r) (rebalance (Node lv c' l' x r)).
Proof.
  intros (Hl & _ & _ & Ir) Il' Hl' Hr. pose proof (level_nonneg _ Il').
  destruct (node_of_level r) as (rl & rc & a & y & b & ->); [lia|]. simpl in Hr. subst rl.
  rewrite rebalance_short by lia. simpl level.
  replace (lv - 1 >? lv - 1) with false by lia.
  simpl in Ir. destruct Ir as (Ha & Hb & Ia & Ib). pose proof (level_nonneg _ Ib).
  unfold shrunk. destruct (decide (level b = lv - 1)).
  - rotate. simpl. intuition lia.
  - rotate. simpl. intuition lia.
Qed.

(** The left subtree became short; the right one is on the level of the node. *)
Lemma rebalance_left_red lv c c' l l' x r :
  invar (Node lv c l x r) -> invar l' -> level l' = lv - 2 -> level r = lv ->
  shrunk (Node lv c l x r) (rebalance (Node lv c' l' x r)).
Proof.
  intros (Hl & Hrr & _ & Ir) Il' Hl' Hr. pose proof (level_nonneg _ Il').
  destruct (node_of_level r) as (rl & rc & a & y & b & ->); [lia|]. simpl in Hr. subst rl.
  rewrite rebalance_short by lia. simpl level. simpl in Hrr.
  replace (lv >? lv - 1) with true by lia.
  simpl in Ir. destruct Ir as (Ha & _ & Ia & Ib).
  assert (level b = lv - 1) as Hb by lia. clear Hrr.
  destruct (node_of_level a) as (al & ac & a1 & z & a2 & ->); [lia|]. simpl in Ha. subst al.
  simpl in Ia. destruct Ia as (Ha1 & Ha2 & Ia1 & Ia2). unfold shrunk.
  destruct (node_of_level b) as (bl & bc & b1 & w & b2 & ->); [lia|]. simpl in Hb. subst bl.
  simpl in Ib. destruct Ib as (Hb1 & Hb2 & Ib1 & Ib2). simpl set_level.
  pose proof (level_nonneg _ Ia1).
  destruct (decide (level a2 = lv - 1)) as [Ha2'|].
  - destruct (node_of_level a2) as (al & ac2 & a21 & v & a22 & ->); [lia|].
    simpl in Ha2'. subst al. simpl in Ia2, Ha2. destruct Ia2 as (Ha21 & Ha22 & Ia21 & Ia22).
    rotate. simpl. intuition lia.
  - destruct (decide (level b2 = lv - 1)); rotate; simpl; intuition lia.
Qed.

(** The right subtree became short. *)
Lemma rebalance_right_short lv c c' l x r r' :
  invar (Node lv c l x r) -> invar r' -> level r' = lv - 2 ->
  level r = lv - 1 ->
  shrunk (Node lv c l x r) (rebalance (Node lv c' l x r')).
Proof.
  intros (Hl & _ & Il & _) Ir' Hr' Hr. pose proof (level_nonneg _ Ir').
  destruct (node_of_level l) as (ll & lc & a & y & b & ->); [lia|]. simpl in Hl. subst ll.
  rewrite rebalance_short by lia.
  replace (level r' >? lv - 1) with false by lia.
  simpl in Il. destruct Il as (Ha & Hb & Ia & Ib). unfold shrunk.
  destruct (decide (level b = lv - 1)) as [Hb'|].
  - destruct (node_of_level b) as (bl & bc & b1 & w & b2 & ->); [lia|]. simpl in Hb'. subst bl.
    simpl in Ib, Hb. destruct Ib as (Hb1 & Hb2 & Ib1 & Ib2).
    pose proof (level_nonneg _ Ib1). rotate. simpl. intuition lia.
  - rotate. simpl. intuition lia.
Qed.

Lemma rebalance_left lv c c' l l' x r :
  invar (Node lv c l x r) -> shrunk l l' ->
  shrunk (Node lv c l x r) (rebalance (Node lv c' l' x r)).
Proof.
  intros I (Il' & [[Heq _]|Hne]); pose proof I as (Hl & Hr & Il & Ir).
  - rewrite rebalance_long by lia. unfold shrunk. simpl. intuition lia.
  - destruct Hr as [Hr|[Hr _]];
      [eapply rebalance_left_black | eapply rebalance_left_red]; eauto; lia.
Qed.

Lemma rebalance_right lv c c' l x r r' :
  invar (Node lv c l x r) -> shrunk r r' ->
  shrunk (Node lv c l x r) (rebalance (Node lv c' l x r')).
Proof.
  intros I (Ir' & Hs); pose proof I as (Hl & Hr & Il & Ir).
  destruct (decide (level r' < lv - 1)).
  - eapply rebalance_right_short; eauto; lia.
  - rewrite rebalance_long by lia. unfold shrunk. simpl.
    destruct r as [|rl rc a y b], r' as [|rl' rc' a' y' b']; simpl in *; intuition lia.
Qed.

(** ** Insertion and removal as recursive functions *)

Fixpoint ins (cmp : probe) (x : Z) (t : atree) : atree :=
  match t with
  | Nil => place_node x
  | Node lv c l y r =>
      insert_repair (if cmp y <? 0 then Node lv (c + 1) l y (ins cmp x r)
                     else Node lv (c + 1) (ins cmp x l) y r)
  end.

(** The tree without its first node, and that node. *)
Fixpoint del_min (t : atree) : atree :=
  match t with
  | Nil => Nil
  | Node lv c Nil y r => r
  | Node lv c l y r => erase_repair (Node lv c (del_min l) y r)
  end.
Fixpoint minimum (t : atree) : option Z :=
  match t with
  | Nil => None
  | Node _ _ Nil y _ => Some y
  | Node _ _ l _ _ => minimum l
  end.

Fixpoint del (cmp : probe) (t : atree) : atree :=
  match t with
  | Nil => Nil
  | Node lv c l y r =>
      if cmp y =? 0 then
        if is_nil l then r
        else if is_nil r then l
        else erase_repair (Node lv c l (default y (minimum r)) (del_min r))
      else erase_repair (if cmp y <? 0 then Node lv c l y (del cmp r) else Node lv c (del cmp l) y r)
  end.

(** The node that a search finds. *)
Definition hit (cmp : probe) (t : atree) : option Z := fst (afind_loop cmp t 0).

Lemma walk_back_app repair p q t :
  walk_back repair (p ++ q) t = walk_back repair q (walk_back repair p t).
Proof. apply fold_left_app. Qed.

Lemma height_left lv c l x r : (S (height l) <= height (Node lv c l x r))%nat.
Proof. simpl. lia. Qed.
Lemma height_right lv c l x r : (S (height r) <= height (Node lv c l x r))%nat.
Proof. simpl. lia. Qed.

Lemma push_ok f path : (length path < JSW_AHEIGHT_LIMIT)%nat -> push f path = Ok (f :: path).
Proof. intros. unfold push. by destruct (Nat.ltb_spec (length path) JSW_AHEIGHT_LIMIT); [|lia]. Qed.

Lemma insert_path_walk cmp x t path :
  (length path + height t <= JSW_AHEIGHT_LIMIT)%nat ->
  exists p, insert_path cmp t path = Ok p /\
    walk_back insert_repair p (place_node x) = walk_back insert_repair path (ins cmp x t).
Proof.
  revert path. induction t as [|lv c l IHl y r IHr]; intros path Hh; [by exists path|].
  pose proof (height_left lv c l y r). pose proof (height_right lv c l y r).
  cbn [insert_path ins]. rewrite push_ok by lia. cbn [res_bind].
  destruct (cmp y <? 0).
  - edestruct IHr as (p & -> & E); [|exists p; split; [done|]; rewrite E; done]. simpl. lia.
  - edestruct IHl as (p & -> & E); [|exists p; split; [done|]; rewrite E; done]. simpl. lia.
Qed.

Lemma heir_path_walk t path :
  t <> Nil -> (length path + height t <= JSW_AHEIGHT_LIMIT)%nat ->
  exists m hr below, heir_path t path = Ok (Some (m, hr, below ++ path)) /\
    minimum t = Some m /\ walk_back erase_repair below hr = del_min t.
Proof.
  revert path. induction t as [|lv c l IHl y r _]; intros path Hn Hh; [done|].
  pose proof (height_left lv c l y r).
  destruct l as [|llv lc ll ly lr]; [by exists y, r, []|].
  cbn [heir_path]. rewrite push_ok by lia. cbn [res_bind].
  destruct (IHl (mkFrame lv c false y r :: path)) as (m & hr & below & E & Hm & Hw);
    [done | simpl in *; lia |].
  exists m, hr, (below ++ [mkFrame lv c false y r]). cbn [heir_path] in E. rewrite E.
  rewrite <- app_assoc. split_and!; [done | done |].
  rewrite walk_back_app, Hw. done.
Qed.

(** The whole removal below a node, given the frames above it. *)
Definition erase_from (cmp : probe) (t : atree) (path : list aframe) : res (option (Z * atree)) :=
  let! found := erase_path cmp t path in
  match found with
  | Some (Node lv c l y r, path) =>
      if is_nil l || is_nil r then
        Ok (Some (y, walk_back erase_repair path (if is_nil l then r else l)))
      else
        let! path' := push (mkFrame lv c true y l) path in
        let! h := heir_path r path' in
        match h with
        | None => Stop OutOfBounds
        | Some (heir, heir_right, path'') =>
            let below := take (length path'' - length path') path'' in
            Ok (Some (y, walk_back erase_repair (below ++ mkFrame lv c true heir l :: path) heir_right))
        end
  | _ => Ok None
  end.

Lemma hit_node cmp lv c l y r k :
  fst (afind_loop cmp (Node lv c l y r) k) =
  if cmp y =? 0 then Some y else if cmp y <? 0 then hit cmp r else hit cmp l.
Proof.
  assert (forall t k k', fst (afind_loop cmp t k) = fst (afind_loop cmp t k')) as Hk.
  { induction t; simpl; intros; [done|]. repeat case_match; eauto. }
  simpl. repeat case_match; simpl; [done|apply Hk..].
Qed.

Lemma erase_from_del cmp t path :
  (length path + height t < JSW_AHEIGHT_LIMIT)%nat ->
  erase_from cmp t path =
  Ok (match hit cmp t with
      | None => None
      | Some y => Some (y, walk_back erase_repair path (del cmp t))
      end).
Proof.
  revert path. induction t as [|lv c l IHl y r IHr]; intros path Hh.
  - unfold erase_from. simpl. by destruct (Nat.ltb_spec (length path) JSW_AHEIGHT_LIMIT); [|lia].
  - pose proof (height_left lv c l y r). pose proof (height_right lv c l y r).
    unfold erase_from, hit. rewrite hit_node. cbn [erase_path del].
    destruct (cmp y =? 0).
    + destruct (Nat.ltb_spec (length path) JSW_AHEIGHT_LIMIT); [|lia]. cbn [res_bind].
      destruct (is_nil l) eqn:El; [done|]. destruct (is_nil r) eqn:Er; [done|]. cbn [orb].
      rewrite push_ok by lia. cbn [res_bind].
      destruct (heir_path_walk r (mkFrame lv c true y l :: path)) as (m & hr & below & -> & -> & Hw);
        [by intros -> | simpl in *; lia |]. cbn [res_bind].
      rewrite length_app. replace (_ + _ - _)%nat with (length below) by lia.
      rewrite take_app_length, walk_back_app, Hw. done.
    + rewrite push_ok by lia. cbn [res_bind].
      destruct (cmp y <? 0).
      * specialize (IHr (mkFrame lv c true y l :: path)). unfold erase_from in IHr.
        rewrite IHr by (simpl; lia). done.
      * specialize (IHl (mkFrame lv c false y r :: path)). unfold erase_from in IHl.
        rewrite IHl by (simpl; lia). done.
Qed.

Lemma insert_repair_inorder t : inorder (insert_repair t) = inorder t.
Proof. unfold insert_repair. by rewrite split_inorder, skew_inorder. Qed.
Lemma insert_repair_counted t : counted t -> counted (insert_repair t).
Proof. unfold insert_repair. auto with atree. Qed.

(** A search that goes left or right splits the elements of the tree. *)
Lemma mono_node cmp lv c l y r :
  mono cmp (inorder (Node lv c l y r)) ->
  mono cmp (inorder l) /\ mono cmp (inorder r) /\
  Forall (fun a => Z.sgn (cmp a) <= Z.sgn (cmp y)) (inorder l) /\
  Forall (fun a => Z.sgn (cmp y) <= Z.sgn (cmp a)) (inorder r).
Proof.
  unfold mono. simpl. intros H. apply StronglySorted_app in H as (Hx & Hl & Hr).
  inversion Hr; subst. split_and!; [done..| |done].
  apply Forall_forall. intros a Ha. apply Hx; [done|left].
Qed.

Lemma ins_contents cmp x t :
  mono cmp (inorder t) -> counted t ->
  counted (ins cmp x t) /\
  exists l1 l2, inorder t = l1 ++ l2 /\ inorder (ins cmp x t) = l1 ++ x :: l2 /\
    Forall (fun y => cmp y < 0) l1 /\ Forall (fun y => 0 <= cmp y) l2.
Proof.
  induction t as [|lv c l IHl y r IHr]; intros Hm Hc.
  { split; [done|]. by exists [], []. }
  apply mono_node in Hm as (Hml & Hmr & Hfl & Hfr). simpl in Hc. destruct Hc as (-> & Hcl & Hcr).
  cbn [ins]. rewrite insert_repair_inorder.
  destruct (Z.ltb_spec (cmp y) 0).
  - destruct (IHr Hmr Hcr) as (Hc' & l1 & l2 & E & E' & H1 & H2). split.
    { apply insert_repair_counted. simpl. rewrite E', E. autorewrite with zlen.
      split; [lia|done]. }
    exists (inorder l ++ y :: l1), l2. simpl. rewrite E, E', <- !app_assoc. split_and!; try done.
    apply Forall_app. split; [|by constructor].
    eapply Forall_impl; [exact Hfl|]. simpl. intros. lia.
  - destruct (IHl Hml Hcl) as (Hc' & l1 & l2 & E & E' & H1 & H2). split.
    { apply insert_repair_counted. simpl. rewrite E', E. autorewrite with zlen.
      split; [lia|done]. }
    exists l1, (l2 ++ y :: inorder r). simpl. rewrite E, E', <- !app_assoc. split_and!; try done.
    apply Forall_app. split; [done|]. constructor; [done|].
    eapply Forall_impl; [exact Hfr|]. simpl. intros. lia.
Qed.

Lemma ins_grown cmp x t : invar t -> grown t (ins cmp x t).
Proof.
  induction t as [|lv c l IHl y r IHr]; intros Hi.
  - unfold grown. simpl. intuition lia.
  - pose proof Hi as (_ & _ & Hil & Hir). cbn [ins].
    destruct (cmp y <? 0); [apply insert_repair_right | apply insert_repair_left]; auto.
Qed.

Lemma erase_repair_inorder t : inorder (erase_repair t) = inorder t.
Proof. unfold erase_repair. rewrite rebalance_inorder. by destruct t. Qed.

Lemma erase_repair_counted lv c l y r :
  counted l -> counted r -> c = zlen (inorder l) + zlen (inorder r) + 2 ->
  counted (erase_repair (Node lv c l y r)).
Proof. intros. apply rebalance_counted. simpl. split; [lia|done]. Qed.

Lemma del_min_contents t m :
  minimum t = Some m -> counted t -> counted (del_min t) /\ inorder t = m :: inorder (del_min t).
Proof.
  induction t as [|lv c l IHl y r _]; intros Hm Hc; [done|].
  destruct l as [|ll lc a z b]; [injection Hm as ->; simpl in *; naive_solver|].
  destruct Hc as (-> & Hcl & Hcr). destruct (IHl Hm Hcl) as (Hc' & E).
  change (del_min (Node lv (zlen (inorder (Node ll lc a z b)) + zlen (inorder r) + 1) (Node ll lc a z b) y r))
    with (erase_repair (Node lv (zlen (inorder (Node ll lc a z b)) + zlen (inorder r) + 1)
            (del_min (Node ll lc a z b)) y r)).
  rewrite erase_repair_inorder. rewrite E in *. split.
  - apply erase_repair_counted; [done..|]. autorewrite with zlen. lia.
  - change (inorder (Node ll lc a z b) ++ y :: inorder r
            = m :: inorder (del_min (Node ll lc a z b)) ++ y :: inorder r). by rewrite E.
Qed.

Lemma del_min_shrunk t : invar t -> t <> Nil -> shrunk t (del_min t).
Proof.
  induction t as [|lv c l IHl y r _]; intros Hi Hn; [done|].
  pose proof Hi as (Hll & Hlr & Hil & Hir). pose proof (level_nonneg _ Hir).
  destruct l as [|ll lc a z b].
  - unfold shrunk. simpl in *. split; [done|]. destruct r as [|rl rc d w e]; simpl in *; intuition lia.
  - change (del_min (Node lv c (Node ll lc a z b) y r))
      with (rebalance (Node lv (c - 1) (del_min (Node ll lc a z b)) y r)).
    eapply rebalance_left; [exact Hi|]. by apply IHl.
Qed.

Lemma minimum_some t : t <> Nil -> is_Some (minimum t).
Proof.
  induction t as [|lv c [|ll lc a z b] IHl y r _]; intros Hn; [done|by eexists|].
  by apply IHl.
Qed.

Lemma is_nil_spec t : is_nil t = true <-> t = Nil.
Proof. by destruct t. Qed.

Lemma level_0_nil t : invar t -> level t = 0 -> t = Nil.
Proof.
  destruct t as [|lv c l y r]; [done|]. simpl. intros (H & _ & Hl & _).
  pose proof (level_nonneg _ Hl). lia.
Qed.

(** Without a right child there is no left child. *)
Lemma single_child lv c l y r : invar (Node lv c l y r) -> is_nil r = true -> l = Nil.
Proof.
  intros (Hl & Hr & Hil & _) ->%is_nil_spec. simpl in Hr. apply level_0_nil; [done|].
  pose proof (level_nonneg _ Hil). lia.
Qed.

Lemma del_contents cmp t :
  mono cmp (inorder t) -> counted t ->
  match hit cmp t with
  | Some y => counted (del cmp t) /\ cmp y = 0 /\
      exists l1 l2, inorder t = l1 ++ y :: l2 /\ inorder (del cmp t) = l1 ++ l2
  | None => Forall (fun y => cmp y <> 0) (inorder t)
  end.
Proof.
  induction t as [|lv c l IHl y r IHr]; intros Hm Hc; [by constructor|].
  apply mono_node in Hm as (Hml & Hmr & Hfl & Hfr). simpl in Hc. destruct Hc as (-> & Hcl & Hcr).
  unfold hit. rewrite hit_node. cbn [del].
  destruct (Z.eqb_spec (cmp y) 0) as [H0|H0].
  - destruct (is_nil l) eqn:El; [apply is_nil_spec in El as ->|].
    { split_and!; [done..|]. by exists [], (inorder r). }
    destruct (is_nil r) eqn:Er; [apply is_nil_spec in Er as ->|].
    { split_and!; [done..|]. exists (inorder l), []. split; [done|]. by rewrite app_nil_r. }
    destruct (minimum_some r) as [m Em]; [by intros ->|]. rewrite Em. simpl default.
    destruct (del_min_contents _ _ Em Hcr) as (Hc' & E). rewrite erase_repair_inorder.
    split_and!; [|done|].
    + apply erase_repair_counted; [done..|]. rewrite E. autorewrite with zlen. lia.
    + exists (inorder l), (inorder r). simpl. by rewrite E.
  - rewrite erase_repair_inorder. destruct (Z.ltb_spec (cmp y) 0).
    + specialize (IHr Hmr Hcr). destruct (hit cmp r) as [z|].
      * destruct IHr as (Hc' & Hz & l1 & l2 & E & E'). split_and!; [|done|].
        -- apply erase_repair_counted; [done..|]. rewrite E, E'. autorewrite with zlen. lia.
        -- exists (inorder l ++ y :: l1), l2. simpl. by rewrite E, E', <- !app_assoc.
      * simpl. apply Forall_app. split; [|by constructor].
        eapply Forall_impl; [exact Hfl|]. simpl. intros. lia.
    + specialize (IHl Hml Hcl). destruct (hit cmp l) as [z|].
      * destruct IHl as (Hc' & Hz & l1 & l2 & E & E'). split_and!; [|done|].
        -- apply erase_repair_counted; [done..|]. rewrite E, E'. autorewrite with zlen. lia.
        -- exists l1, (l2 ++ y :: inorder r). simpl. by rewrite E, E', <- !app_assoc.
      * simpl. apply Forall_app. split; [done|]. constructor; [done|].
        eapply Forall_impl; [exact Hfr|]. simpl. intros. lia.
Qed.

Lemma del_shrunk cmp t : invar t -> is_Some (hit cmp t) -> shrunk t (del cmp t).
Proof.
  induction t as [|lv c l IHl y r IHr]; intros Hi [z Hz]; [done|].
  pose proof Hi as (Hll & Hlr & Hil & Hir). pose proof (level_nonneg _ Hir).
  unfold hit in Hz. rewrite hit_node in Hz. cbn [del].
  destruct (cmp y =? 0).
  - destruct (is_nil l) eqn:El; [apply is_nil_spec in El as ->|].
    { unfold shrunk. simpl in *. split; [done|]. destruct r as [|rl rc d w e]; simpl in *; intuition lia. }
    destruct (is_nil r) eqn:Er; [pose proof (single_child _ _ _ _ _ Hi Er) as ->; done|].
    apply (rebalance_right lv c (c - 1) l (default y (minimum r)) r); [done|].
    apply del_min_shrunk; [done|]. by intros ->.
  - destruct (cmp y <? 0).
    + apply (rebalance_right lv c (c - 1) l y r); [done|]. by apply IHr.
    + eapply rebalance_left; [exact Hi|]. by apply IHl.
Qed.

(** ** The stack of 64 ancestors is enough *)

Lemma height_level t : invar t ->
  (Z.of_nat (height t) <= 2 * level t) /\ (sngl t -> Z.of_nat (height t) <= 2 * level t - 1).
Proof.
  induction t as [|lv c l IHl y r IHr]; [simpl; lia|].
  intros (Hl & Hr & Hil & Hir). simpl in *. destruct (IHl Hil) as [? _]. destruct (IHr Hir) as [? Hs].
  destruct r as [|rl rc a z b]; simpl in *; intuition lia.
Qed.

Lemma size_level t : invar t -> 2 ^ level t - 1 <= zlen (inorder t).
Proof.
  induction t as [|lv c l IHl y r IHr]; [simpl; autorewrite with zlen; lia|].
  intros (Hl & Hr & Hil & Hir). specialize (IHl Hil). specialize (IHr Hir).
  pose proof (level_nonneg _ Hil) as H0. simpl. autorewrite with zlen.
  rewrite Hl in *.
  assert (2 ^ (lv - 1) <= 2 ^ level r) by (apply Z.pow_le_mono_r; lia).
  replace (2 ^ lv) with (2 * 2 ^ (lv - 1)); [lia|].
  rewrite <- Z.pow_succ_r by lia. f_equal. lia.
Qed.

Lemma height_bound t :
  invar t -> zlen (inorder t) < 2 ^ 32 - 1 -> (height t < JSW_AHEIGHT_LIMIT)%nat.
Proof.
  intros Hi Hz. pose proof (size_level t Hi). pose proof (height_level t Hi) as [? _].
  assert (level t < 32).
  { destruct (Z.lt_ge_cases (level t) 32); [done|].
    assert (2 ^ 32 <= 2 ^ level t) by (apply Z.pow_le_mono_r; lia). lia. }
  unfold JSW_AHEIGHT_LIMIT. lia.
Qed.

(** ** Search *)

Lemma find_spec cmp t k :
  mono cmp (inorder t) -> counted t ->
  exists l1 l2, inorder t = l1 ++ l2 /\ snd (afind_loop cmp t k) = k + zlen l1 /\
    match fst (afind_loop cmp t k) with
    | Some y => cmp y = 0 /\ head l2 = Some y
    | None => Forall (fun y => cmp y < 0) l1 /\ Forall (fun y => 0 < cmp y) l2
    end.
Proof.
  revert k. induction t as [|lv c l IHl y r IHr]; intros k Hm Hc.
  { exists [], []. simpl. autorewrite with zlen. split_and!; [done|lia|done..]. }
  apply mono_node in Hm as (Hml & Hmr & Hfl & Hfr). simpl in Hc. destruct Hc as (-> & Hcl & Hcr).
  simpl. rewrite (count_inorder l Hcl).
  destruct (Z.eqb_spec (cmp y) 0); [|destruct (Z.ltb_spec (cmp y) 0)].
  - by exists (inorder l), (y :: inorder r).
  - destruct (IHr (k + (zlen (inorder l) + 1)) Hmr Hcr) as (l1 & l2 & E & Es & Hf).
    exists (inorder l ++ y :: l1), l2. rewrite E, Es, <- !app_assoc. autorewrite with zlen.
    split_and!; [done|lia|]. case_match; [done|]. destruct Hf. split; [|done].
    apply Forall_app. split; [|by constructor].
    eapply Forall_impl; [exact Hfl|]. simpl. intros. lia.
  - destruct (IHl k Hml Hcl) as (l1 & l2 & E & Es & Hf).
    exists l1, (l2 ++ y :: inorder r). rewrite E, Es, <- !app_assoc.
    split_and!; [done|lia|]. case_match.
    + destruct Hf as [? Hh]. split; [done|]. by destruct l2.
    + destruct Hf. split; [done|]. apply Forall_app. split; [done|]. constructor; [lia|].
      eapply Forall_impl; [exact Hfr|]. simpl. intros. lia.
Qed.

Lemma index_spec t idx k :
  counted t -> 0 <= idx - k < zlen (inorder t) ->
  exists x, index_loop t idx k = Ok x /\ inorder t !! Z.to_nat (idx - k) = Some x.
Proof.
  revert k. induction t as [|lv c l IHl y r IHr]; intros k Hc Hk.
  { simpl in Hk. autorewrite with zlen in Hk. lia. }
  simpl in Hc. destruct Hc as (-> & Hcl & Hcr). simpl in *. autorewrite with zlen in Hk.
  rewrite (count_inorder l Hcl). pose proof (zlen_nonneg (inorder l)).
  destruct (Z.eqb_spec (k + zlen (inorder l)) idx); [|destruct (Z.ltb_spec (k + zlen (inorder l)) idx)].
  - exists y. split; [done|]. rewrite lookup_app_r by (unfold zlen in *; lia).
    by replace (_ - _)%nat with 0%nat by (unfold zlen in *; lia).
  - destruct (IHr (k + (zlen (inorder l) + 1)) Hcr) as (x & -> & E); [lia|].
    exists x. split; [done|]. rewrite lookup_app_r by (unfold zlen in *; lia).
    rewrite lookup_cons_ne_0 by (unfold zlen in *; lia). rewrite <- E. f_equal. unfold zlen in *. lia.
  - destruct (IHl k Hcl) as (x & -> & E); [lia|].
    exists x. split; [done|]. rewrite lookup_app_l by (unfold zlen in *; lia). done.
Qed.

Lemma erase_path_length cmp t path n p :
  erase_path cmp t path = Ok (Some (n, p)) -> (length path <= length p)%nat.
Proof.
  revert path. induction t as [|lv c l IHl y r IHr]; intros path; cbn [erase_path].
  { by case_match. }
  case_match; [case_match; [|done]; intros [= <- <-]; lia|].
  unfold push. case_match; [|done]. cbn [res_bind]. intros Hr.
  destruct (cmp y <? 0); [apply IHr in Hr | apply IHl in Hr]; simpl in Hr; lia.
Qed.

Lemma jsw_aerase_del cmp t :
  tree_ok t -> size t < 2 ^ 32 - 1 ->
  jsw_aerase cmp t =
  Ok (match hit cmp (root t) with
      | None => (None, t)
      | Some y => (Some y, mkTree (del cmp (root t)) (size t - 1))
      end).
Proof.
  intros [Hi Hc Hs] Hsz. rewrite Hs in Hsz. pose proof (height_bound _ Hi Hsz) as Hh.
  pose proof (erase_from_del cmp (root t) []) as E. unfold erase_from in E.
  unfold jsw_aerase. destruct (root t) as [|lv c l y r] eqn:Er; [done|]. cbn [is_nil].
  specialize (E ltac:(simpl in *; lia)). revert E. generalize (del cmp (Node lv c l y r)). intros d E.
  destruct (erase_path cmp (Node lv c l y r) []) as [[[[|lv' c' l' y' r'] p]|]| |] eqn:Ep; try done;
    cbn [res_bind] in *.
  - by destruct (hit cmp (Node lv c l y r)).
  - destruct (is_nil l' || is_nil r') eqn:Eb.
    + destruct (hit cmp (Node lv c l y r)); [|done]. injection E as -> E.
      destruct p as [|f p]; [|by rewrite E]. change (walk_back _ [] ?q) with q in E. rewrite <- E.
      destruct (is_nil l') eqn:El; [done|]. exfalso.
      assert (Node lv' c' l' z r' = Node lv c l y r) as [= -> -> -> -> ->].
      { cbn [erase_path] in Ep. destruct (cmp y =? 0); [simpl in Ep; congruence|].
        destruct (push _ []) as [q| |] eqn:Eq; try done.
        unfold push in Eq. simpl in Eq. injection Eq as <-.
        cbn [res_bind] in Ep. apply erase_path_length in Ep. simpl in Ep. lia. }
      simpl in Eb. pose proof (single_child _ _ _ _ _ Hi Eb) as ->. done.
    + destruct (push _ p) as [p'| |]; try done; cbn [res_bind] in *.
      destruct (heir_path r' p') as [[[[heir hr] p'']|]| |]; try done; cbn [res_bind] in *.
      destruct (hit cmp (Node lv c l y r)); [|done]. by injection E as -> ->.
  - by destruct (hit cmp (Node lv c l y r)).
Qed.

(** ** Traversal *)

(** What is left to visit: in direction [true] a subtree from left to right. *)
Fixpoint walk (dir : bool) (t : atree) : list Z :=
  match t with
  | Nil => []
  | Node _ _ l x r => if dir then walk dir l ++ x :: walk dir r else walk dir r ++ x :: walk dir l
  end.

Definition self (t : atree) : list Z := option_list (owner t).

(** What the ancestors of [child] still have to give. *)
Fixpoint pending (dir : bool) (child : atree) (path : list atree) : list Z :=
  match path with
  | [] => []
  | t :: rest =>
      (if bool_decide (owner child = owner (link t dir)) then [] else self t ++ walk dir (link t dir))
        ++ pending dir t rest
  end.

Fixpoint linked (top child : atree) (path : list atree) : Prop :=
  match path with
  | [] => child = top
  | t :: rest => (child = left t \/ child = right t) /\ t <> Nil /\ linked top t rest
  end.

(** The cursor is on a node of the tree, whose ancestors are on the stack. *)
Definition trav_ok (top : atree) (trav : jsw_atrav_t) : Prop :=
  linked top (it trav) (path trav).

(** The elements from the cursor on. *)
Definition ahead (dir : bool) (trav : jsw_atrav_t) : list Z :=
  self (it trav) ++ walk dir (link (it trav) dir) ++ pending dir (it trav) (path trav).

Lemma walk_inorder t : walk true t = inorder t.
Proof. induction t; simpl; by rewrite ?IHt1, ?IHt2. Qed.
Lemma walk_reverse t : walk false t = reverse (inorder t).
Proof.
  induction t; simpl; [done|]. rewrite reverse_app, reverse_cons, IHt1, IHt2. by rewrite <- app_assoc.
Qed.

Lemma walk_link dir t : walk dir t = walk dir (link t (negb dir)) ++ self t ++ walk dir (link t dir).
Proof. destruct t, dir; done. Qed.

(** Visit until the cursor falls off, as the callers' loops do. *)
Fixpoint visit (dir : bool) (fuel : nat) (trav : jsw_atrav_t) : res (list Z) :=
  match fuel, owner (it trav) with
  | _, None => Ok []
  | O, _ => Stop OutOfFuel
  | S fuel, Some x =>
      let! trav := move dir trav in
      let! xs := visit dir fuel trav in Ok (x :: xs)
  end.

Lemma push_node_ok t p :
  (length p < JSW_AHEIGHT_LIMIT)%nat -> push_node t p = Ok (t :: p).
Proof. intros. unfold push_node. by destruct (Nat.ltb_spec (length p) JSW_AHEIGHT_LIMIT); [|lia]. Qed.

Lemma height_link t dir : t <> Nil -> (S (height (link t dir)) <= height t)%nat.
Proof. destruct t, dir; simpl; try done; lia. Qed.

Lemma linked_inorder top child p x :
  linked top child p -> x ∈ inorder child -> x ∈ inorder top.
Proof.
  revert child. induction p as [|t p IH]; intros child; simpl; [by intros ->|].
  intros (Hc & Hn & Hl) Hx. apply (IH t Hl). destruct t as [|lv c l y r]; [done|].
  simpl in *. destruct Hc as [-> | ->]; set_solver.
Qed.

Lemma linked_nodup top child p : linked top child p -> NoDup (inorder top) -> NoDup (inorder child).
Proof.
  revert child. induction p as [|t p IH]; intros child; simpl; [by intros ->|].
  intros (Hc & Hn & Hl) Hd. specialize (IH t Hl Hd). destruct t as [|lv c l y r]; [done|].
  simpl in *. apply NoDup_app in IH as (H1 & _ & H2). inversion H2; subst.
  by destruct Hc as [-> | ->].
Qed.

Lemma owner_inorder t x : owner t = Some x -> x ∈ inorder t.
Proof. destruct t; simpl; [done|]. intros [= ->]. set_solver. Qed.

Lemma linked_height top child p : linked top child p -> (length p + height child <= height top)%nat.
Proof.
  revert child. induction p as [|t p IH]; intros child; simpl; [by intros ->|].
  intros (Hc & Hn & Hl). specialize (IH t Hl).
  pose proof (height_link t false Hn). pose proof (height_link t true Hn).
  destruct Hc as [-> | ->]; simpl in *; lia.
Qed.

(** The two subtrees of a node are told apart by their owners. *)
Lemma links_distinct t dir :
  NoDup (inorder t) -> link t (negb dir) <> Nil -> owner (link t (negb dir)) <> owner (link t dir).
Proof.
  destruct t as [|lv c l y r]; [by destruct dir|]. intros Hd Hn He.
  destruct (owner (link (Node lv c l y r) (negb dir))) as [z|] eqn:Eo;
    [|by destruct (link (Node lv c l y r) (negb dir))].
  symmetry in He. apply owner_inorder in He, Eo. simpl in Hd.
  apply NoDup_app in Hd as (_ & Hx & _).
  destruct dir; simpl in *; eapply Hx; try eassumption; set_solver.
Qed.

Lemma pending_far dir child t p :
  child = link t (negb dir) -> child <> Nil -> NoDup (inorder t) ->
  pending dir child (t :: p) = self t ++ walk dir (link t dir) ++ pending dir t p.
Proof.
  intros -> Hn Hd. cbn [pending]. rewrite bool_decide_eq_false_2; [by rewrite app_assoc|].
  by apply links_distinct.
Qed.

Lemma pending_near dir child t p : child = link t dir -> pending dir child (t :: p) = pending dir t p.
Proof. intros ->. cbn [pending]. by rewrite bool_decide_eq_true_2. Qed.

Lemma down_spec top dir fuel child p :
  child <> Nil -> (height child < fuel)%nat ->
  NoDup (inorder top) -> (height top <= JSW_AHEIGHT_LIMIT)%nat ->
  trav_ok top (mkTrav child p) ->
  exists t', down fuel (negb dir) child p = Ok t' /\ trav_ok top t' /\ it t' <> Nil /\
    ahead dir t' = walk dir child ++ pending dir child p.
Proof.
  intros Hn Hf Hd Ht. revert child p Hn Hf.
  induction fuel as [|fuel IH]; intros child p Hn Hf Hl; [lia|].
  unfold trav_ok in Hl. simpl in Hl. pose proof (linked_height _ _ _ Hl).
  cbn [down]. destruct (is_nil (link child (negb dir))) eqn:Ei.
  - apply is_nil_spec in Ei. exists (mkTrav child p). split_and!; try done.
    unfold ahead. simpl. rewrite (walk_link dir child), Ei. simpl. by rewrite <- app_assoc.
  - pose proof (height_link child (negb dir) Hn).
    rewrite push_node_ok by lia. cbn [res_bind].
    assert (link child (negb dir) <> Nil) as Hn' by (by intros E; rewrite E in Ei).
    destruct (IH (link child (negb dir)) (child :: p)) as (t' & -> & Ho & Hi & Ha); [done|lia| |].
    { unfold trav_ok. simpl. split_and!; try done. destruct dir; simpl; auto. }
    exists t'. split_and!; try done. rewrite Ha, pending_far; try done.
    + rewrite (walk_link dir child). by rewrite <- !app_assoc.
    + by eapply linked_nodup.
Qed.

Lemma up_spec top dir last p :
  NoDup (inorder top) -> last <> Nil -> linked top last p ->
  ahead dir (up dir last p) = pending dir last p /\
  (up dir last p = mkTrav Nil [] \/
   it (up dir last p) <> Nil /\ trav_ok top (up dir last p)).
Proof.
  intros Hd. revert last. induction p as [|t p IH]; intros last Hn Hl.
  { split; [by destruct dir|]. by left. }
  cbn [up]. simpl in Hl. destruct Hl as (Hc & Ht & Hl).
  case_bool_decide as Eb.
  - assert (link t dir = last) as <-.
    { pose proof (links_distinct t dir (linked_nodup _ _ _ Hl Hd)) as Hx.
      destruct dir; simpl in *; destruct Hc as [-> | ->]; try done; by destruct (Hx Hn). }
    rewrite pending_near by done. by apply IH.
  - assert (link t (negb dir) = last) as <-.
    { destruct dir; simpl in *; destruct Hc as [-> | ->]; done. }
    rewrite pending_far by (done || by eapply linked_nodup).
    split; [done|]. by right.
Qed.

(** One step of a traversal. *)
Definition off_or_ok (top : atree) (trav : jsw_atrav_t) : Prop :=
  trav = mkTrav Nil [] \/ it trav <> Nil /\ trav_ok top trav.

Lemma move_spec top dir trav :
  NoDup (inorder top) -> (height top <= JSW_AHEIGHT_LIMIT)%nat ->
  it trav <> Nil -> trav_ok top trav ->
  exists t', move dir trav = Ok t' /\ off_or_ok top t' /\
    ahead dir trav = self (it trav) ++ ahead dir t'.
Proof.
  destruct trav as [t p]. unfold trav_ok. simpl. intros Hd Hh Hn Hl.
  unfold move, off_or_ok. cbn [it path]. pose proof (linked_height _ _ _ Hl).
  pose proof (height_link t dir Hn).
  destruct (is_nil (link t dir)) eqn:Ei; cbn [negb].
  - apply is_nil_spec in Ei. destruct (up_spec top dir t p Hd Hn Hl) as (Ha & Ho).
    eexists. split_and!; [done|done|]. rewrite Ha. unfold ahead. simpl. by rewrite Ei.
  - rewrite push_node_ok by lia. cbn [res_bind].
    destruct (down_spec top dir (S (height t)) (link t dir) (t :: p)) as (t' & -> & Ho & Hi & Ha);
      [by intros E; rewrite E in Ei | lia | done | done | |].
    { unfold trav_ok. simpl. split_and!; try done. destruct dir; auto. }
    exists t'. split_and!; [done|by right|]. rewrite Ha, pending_near by done. done.
Qed.

Lemma start_spec dir t :
  NoDup (inorder (root t)) -> (height (root t) <= JSW_AHEIGHT_LIMIT)%nat ->
  exists t', start (negb dir) t = Ok t' /\ off_or_ok (root t) t' /\ ahead dir t' = walk dir (root t).
Proof.
  intros Hd Hh. unfold start, off_or_ok. destruct (is_nil (root t)) eqn:Ei.
  { apply is_nil_spec in Ei as ->. eexists. split; [done|]. split; [by left|]. by destruct dir. }
  destruct (down_spec (root t) dir (S (height (root t))) (root t) []) as (t' & -> & Ho & Hi & Ha);
    [by intros E; rewrite E in Ei | lia | done | done | done |].
  exists t'. split_and!; [done|by right|]. rewrite Ha. simpl. by rewrite app_nil_r.
Qed.

Lemma visit_spec top dir fuel trav :
  NoDup (inorder top) -> (height top <= JSW_AHEIGHT_LIMIT)%nat ->
  off_or_ok top trav -> (length (ahead dir trav) <= fuel)%nat ->
  visit dir fuel trav = Ok (ahead dir trav).
Proof.
  intros Hd Hh. revert trav. induction fuel as [|fuel IH]; intros trav [->|[Hn Hl]] Hf;
    try by destruct dir.
  - exfalso. unfold ahead in Hf. destruct (it trav); simpl in Hf; [done|lia].
  - destruct (move_spec top dir trav Hd Hh Hn Hl) as (t' & Em & Ho & Ha).
    rewrite Ha in Hf |- *. destruct (it trav) as [|lv c l x r] eqn:Ei; [done|].
    cbn [visit]. rewrite Ei. cbn [owner]. rewrite Em. cbn [res_bind].
    rewrite IH; [done|done|]. simpl in Hf. lia.
Qed.

(** The cursor on a node that is searched. *)
Lemma node_loop_spec top cmp t p :
  (height top <= JSW_AHEIGHT_LIMIT)%nat -> linked top t p ->
  exists t', node_loop cmp t p = Ok t' /\ owner (it t') = hit cmp t /\
    (is_Some (hit cmp t) -> it t' <> Nil /\ trav_ok top t').
Proof.
  intros Hh. revert p. induction t as [|lv c l IHl y r IHr]; intros p Hl.
  { eexists. split_and!; [done|done|]. by intros []. }
  pose proof (linked_height _ _ _ Hl). unfold hit. rewrite hit_node. cbn [node_loop].
  destruct (cmp y =? 0); [eexists; by split_and!|].
  pose proof (height_left lv c l y r). rewrite push_node_ok by lia. cbn [res_bind].
  destruct (cmp y <? 0); [apply IHr | apply IHl]; simpl; auto.
Qed.

(** ** Removal during a traversal *)

Lemma walk_negb dir t : walk (negb dir) t = reverse (walk dir t).
Proof. destruct dir; simpl; [by rewrite walk_reverse, walk_inorder|]. rewrite walk_reverse, walk_inorder. by rewrite reverse_involutive. Qed.

Lemma ahead_suffix top dir child p :
  NoDup (inorder top) -> linked top child p ->
  exists pre, walk dir top = pre ++ walk dir child ++ pending dir child p.
Proof.
  intros Hd. revert child. induction p as [|t p IH]; intros child Hl.
  { exists []. simpl in *. by rewrite Hl, app_nil_r. }
  simpl in Hl. destruct Hl as (Hc & Hn & Hl). destruct (IH t Hl) as [pre Hp].
  rewrite Hp, (walk_link dir t).
  destruct (decide (is_nil child = true)) as [->%is_nil_spec|Hc'].
  - cbn [pending]. case_bool_decide.
    + assert (link t dir = Nil) as -> by (destruct (link t dir); done).
      exists (pre ++ walk dir (link t (negb dir)) ++ self t). app_norm. done.
    + exists (pre ++ walk dir (link t (negb dir))). by app_norm.
  - assert (child = link t dir \/ child = link t (negb dir)) as [E|E]
      by (destruct dir; simpl; tauto).
    + rewrite pending_near by done. rewrite <- E.
      exists (pre ++ walk dir (link t (negb dir)) ++ self t). by app_norm.
    + rewrite pending_far; [|done|by intros ->|by eapply linked_nodup].
      rewrite <- E. exists pre. by app_norm.
Qed.

Lemma ahead_cursor top dir trav x :
  NoDup (inorder top) -> trav_ok top trav -> owner (it trav) = Some x ->
  exists pre rest, walk dir top = pre ++ x :: rest /\ ahead dir trav = x :: rest.
Proof.
  destruct trav as [t p]. unfold trav_ok, ahead. simpl. intros Hd Hl Ho.
  destruct (ahead_suffix _ dir _ _ Hd Hl) as [pre Hp]. rewrite (walk_link dir t) in Hp.
  unfold self in *. rewrite Ho in *. simpl in *.
  exists (pre ++ walk dir (link t (negb dir))). eexists. split; [|done].
  rewrite Hp. by app_norm.
Qed.

Lemma nodup_split_unique {A} (a b c d : list A) x :
  NoDup (a ++ x :: b) -> a ++ x :: b = c ++ x :: d -> a = c /\ b = d.
Proof.
  revert c. induction a as [|y a IH]; intros [|z c] Hd E; simplify_eq/=; [done| | |].
  - exfalso. inversion Hd; subst. set_solver.
  - exfalso. inversion Hd; subst. set_solver.
  - inversion Hd; subst. destruct (IH c) as [-> ->]; auto.
Qed.

Lemma nodup_walk dir t : NoDup (inorder t) <-> NoDup (walk dir t).
Proof. destruct dir; [by rewrite walk_inorder|]. by rewrite walk_reverse, reverse_Permutation. Qed.

(** A removed element, in the order of a direction. *)
Lemma walk_removed dir t t' l1 x l2 :
  inorder t = l1 ++ x :: l2 -> inorder t' = l1 ++ l2 ->
  exists a b, walk dir t = a ++ x :: b /\ walk dir t' = a ++ b.
Proof.
  intros E E'. destruct dir.
  - exists l1, l2. by rewrite !walk_inorder.
  - exists (reverse l2), (reverse l1). rewrite !walk_reverse, E, E', !reverse_app, reverse_cons.
    by app_norm.
Qed.

(** Walking off the end. *)
Lemma start_move_off dir t :
  NoDup (inorder (root t)) -> (height (root t) <= JSW_AHEIGHT_LIMIT)%nat ->
  exists trav, start dir t = Ok trav /\ move dir trav = Ok (mkTrav Nil []).
Proof.
  intros Hd Hh. destruct (start_spec (negb dir) t Hd Hh) as (trav & Es & Ho & Ha).
  rewrite negb_involutive in Es. exists trav. split; [done|].
  destruct Ho as [->|[Hn Hl]]; [by destruct dir|].
  destruct (it trav) as [|lv c l x r] eqn:Ei; [done|].
  destruct (ahead_cursor _ dir _ x Hd Hl) as (pre & rest & Hw & Hr); [by rewrite Ei|].
  assert (rest = []) as ->.
  { rewrite walk_negb, Hw in Ha. unfold ahead in Ha. rewrite Ei in Ha. simpl in Ha.
    apply (f_equal reverse) in Ha. rewrite reverse_involutive in Ha.
    unfold self in Ha. simpl in Ha. rewrite reverse_cons in Ha.
    apply (nodup_walk dir) in Hd. rewrite Hw in Hd. symmetry in Ha.
    by apply (nodup_split_unique _ _ _ [] x Hd) in Ha as [_ ?]. }
  destruct (move_spec (root t) dir trav Hd Hh) as (t' & Em & Ho & Ham); [by rewrite Ei|done|].
  rewrite Hr, Ei in Ham. injection Ham as Ham. rewrite Em. f_equal.
  destruct Ho as [->|[Hn' _]]; [done|]. unfold ahead in Ham. by destruct (it t').
Qed.

(** A family of comparisons that orders the elements of a list strictly. *)
Definition strict (cmp : Z -> probe) (l : list Z) : Prop :=
  NoDup l /\ (forall x, x ∈ l -> mono (cmp x) l) /\
  (forall x y, x ∈ l -> y ∈ l -> cmp x y = 0 <-> x = y).

Lemma jsw_aerase_spec cmp t :
  tree_ok t -> size t < 2 ^ 32 - 1 -> mono cmp (inorder (root t)) ->
  exists found t', jsw_aerase cmp t = Ok (found, t') /\ tree_ok t' /\
    match found with
    | Some y => cmp y = 0 /\ size t' = size t - 1 /\
        exists l1 l2, inorder (root t) = l1 ++ y :: l2 /\ inorder (root t') = l1 ++ l2
    | None => t' = t /\ Forall (fun y => cmp y <> 0) (inorder (root t))
    end.
Proof.
  intros Ho Hsz Hm. rewrite jsw_aerase_del by done. pose proof Ho as [Hi Hc Hs].
  pose proof (del_contents cmp (root t) Hm Hc) as Hd.
  pose proof (del_shrunk cmp (root t) Hi) as Hsh.
  destruct (hit cmp (root t)) as [y|]; [|by exists None, t].
  destruct Hd as (Hcd & Hy & l1 & l2 & E & E'). eexists (Some y), _. split; [done|].
  split_and!; [|done|done|by exists l1, l2].
  constructor; simpl; [by apply Hsh|done|]. rewrite Hs, E, E'. autorewrite with zlen. lia.
Qed.

Lemma hit_unique cmp t x :
  strict cmp (inorder t) -> counted t -> x ∈ inorder t -> hit (cmp x) t = Some x.
Proof.
  intros (Hd & Hm & Hx) Hc Hin. pose proof (del_contents (cmp x) t (Hm x Hin) Hc) as H.
  destruct (hit (cmp x) t) as [y|].
  - destruct H as (_ & Hy & l1 & l2 & E & _). f_equal. symmetry. apply Hx; [done| |done].
    rewrite E. set_solver.
  - rewrite Forall_forall in H. destruct (H x Hin). by apply Hx.
Qed.

Lemma strict_removed cmp l1 x l2 : strict cmp (l1 ++ x :: l2) -> strict cmp (l1 ++ l2).
Proof.
  intros (Hd & Hm & Hx).
  assert (l1 ++ l2 `sublist_of` l1 ++ x :: l2) as Hsub by (apply sublist_app; [done|by constructor]).
  assert (forall z, z ∈ l1 ++ l2 -> z ∈ l1 ++ x :: l2) as Hin by set_solver.
  split_and!.
  - apply NoDup_app in Hd as (? & ? & Hd). inversion Hd; subst. apply NoDup_app. set_solver.
  - intros y Hy. specialize (Hm y (Hin y Hy)). unfold mono in *.
    apply StronglySorted_app in Hm as (Hs & H1 & H2). inversion H2; subst.
    apply StronglySorted_app. split_and!; [|done..]. intros a b Ha Hb. apply Hs; [done|by right].
  - intros y z Hy Hz. apply Hx; auto.
Qed.

Lemma pop_move_spec cmp dir t trav x :
  tree_ok t -> size t < 2 ^ 32 - 1 -> strict cmp (inorder (root t)) ->
  trav_ok (root t) trav -> owner (it trav) = Some x ->
  exists t' trav', pop_move cmp dir t trav = Ok (t', trav') /\ tree_ok t' /\
    off_or_ok (root t') trav' /\ ahead dir trav = x :: ahead dir trav' /\
    exists l1 l2, inorder (root t) = l1 ++ x :: l2 /\ inorder (root t') = l1 ++ l2.
Proof.
  intros Ho Hsz Hst Hl Hx. pose proof Ho as [Hi Hc Hs]. pose proof Hst as (Hd & Hm & Hu).
  assert (x ∈ inorder (root t)) as Hin.
  { eapply linked_inorder; [exact Hl|]. by apply owner_inorder. }
  rewrite Hs in Hsz. pose proof (height_bound _ Hi Hsz) as Hh. rewrite <- Hs in Hsz.
  unfold pop_move. destruct (it trav) as [|lv c l y r] eqn:Ei; [done|]. injection Hx as ->.
  destruct (move_spec (root t) dir trav Hd ltac:(lia)) as (tv & Em & Hoff & Ha);
    [by rewrite Ei|done|]. rewrite Em, Ei in *. cbn [res_bind]. simpl in Ha.
  destruct (jsw_aerase_spec (cmp x) t Ho Hsz (Hm x Hin)) as (found & t' & Ee & Ho' & Hf).
  assert (found = Some x) as ->.
  { rewrite jsw_aerase_del in Ee by done. rewrite (hit_unique _ _ _ Hst Hc Hin) in Ee.
    by injection Ee. }
  rewrite Ee. cbn [res_bind snd]. destruct Hf as (_ & Hsz' & l1 & l2 & E & E').
  pose proof Ho' as [Hi' Hc' Hs'].
  assert (height (root t') < JSW_AHEIGHT_LIMIT)%nat as Hh' by (apply height_bound; [done|lia]).
  assert (strict cmp (inorder (root t'))) as Hst'.
  { rewrite E'. rewrite E in Hst. by eapply strict_removed. }
  pose proof Hst' as (Hd' & _ & _).
  destruct (ahead_cursor _ dir _ x Hd Hl) as (pre & rest & Hw & Hr); [by rewrite Ei|].
  destruct (walk_removed dir _ _ _ _ _ E E') as (a & b & Ea & Eb).
  assert (a = pre /\ b = rest) as [-> ->].
  { apply (nodup_split_unique a b pre rest x); [rewrite <- Ea; by apply nodup_walk|congruence]. }
  rewrite Hr in Ha. injection Ha as Ha. rewrite Hr, Ha in *.
  destruct (it tv) as [|lv' c' l' z r'] eqn:Ev.
  - assert (ahead dir tv = []) as E0.
    { destruct Hoff as [->|[Hn _]]; [by destruct dir|by rewrite Ev in Hn]. }
    destruct (start_move_off dir t' Hd' ltac:(lia)) as (tv' & -> & Em'). cbn [res_bind].
    rewrite Em'. cbn [res_bind]. eexists _, _. split_and!; [done|done|by left| |by exists l1, l2].
    f_equal. rewrite E0. by destruct dir.
  - destruct Hoff as [->|[_ Hl']]; [done|].
    destruct (ahead_cursor _ dir _ z Hd Hl') as (pre' & rest' & Hw' & Hr'); [by rewrite Ev|].
    assert (z ∈ inorder (root t')) as Hz.
    { assert (z ∈ walk dir (root t')) by (rewrite Eb, Hr'; set_solver).
      destruct dir; [by rewrite <- walk_inorder|]. rewrite walk_reverse in *. set_solver. }
    destruct (node_loop_spec (root t') (cmp z) (root t') []) as (tv' & Ej & Hov & Hok);
      [lia|done|]. unfold jsw_atnode. rewrite Ej. cbn [res_bind].
    rewrite (hit_unique _ _ _ Hst' Hc' Hz) in *. destruct Hok as [Hn Hk]; [by eexists|].
    eexists _, _. split_and!; [done|done|by right| |by exists l1, l2].
    destruct (ahead_cursor _ dir _ z Hd' Hk Hov) as (pre2 & rest2 & Hw2 & Hr2).
    rewrite Hr', Hr2. rewrite Hr', Hw2 in Eb.
    apply nodup_split_unique in Eb as [_ ->]; [done|]. rewrite <- Hw2. by apply nodup_walk.
Qed.

Lemma jsw_ainsert_spec cmp x t :
  tree_ok t -> size t < 2 ^ 32 - 1 -> mono cmp (inorder (root t)) ->
  exists t' l1 l2, jsw_ainsert cmp x t = Ok t' /\ tree_ok t' /\ jsw_asize t' = jsw_asize t + 1 /\
    inorder (root t) = l1 ++ l2 /\ inorder (root t') = l1 ++ x :: l2 /\
    Forall (fun y => cmp y < 0) l1 /\ Forall (fun y => 0 <= cmp y) l2.
Proof.
  intros Ho Hsz Hm. pose proof Ho as [Hi Hc Hs].
  rewrite Hs in Hsz. pose proof (height_bound _ Hi Hsz) as Hh.
  destruct (insert_path_walk cmp x (root t) []) as (p & Ep & Ew); [simpl; lia|].
  destruct (ins_contents cmp x (root t) Hm Hc) as (Hc' & l1 & l2 & E & E' & H1 & H2).
  eexists _, l1, l2. unfold jsw_ainsert. rewrite Ep. cbn [res_bind].
  change (fun t => split (skew t)) with insert_repair. rewrite Ew.
  split; [done|]. split_and!; try done.
  constructor; simpl; [by apply ins_grown|done|].
  change (size t + 1 = zlen (inorder (ins cmp x (root t)))). rewrite Hs, E, E'. autorewrite with zlen. lia.
Qed.

Lemma jsw_afind_spec cmp t :
  tree_ok t -> mono cmp (inorder (root t)) ->
  exists l1 l2, inorder (root t) = l1 ++ l2 /\ snd (jsw_afind_ex cmp t) = zlen l1 /\
    match fst (jsw_afind_ex cmp t) return Prop with
    | Some y => cmp y = 0 /\ head l2 = Some y
    | None => Forall (fun y => cmp y < 0) l1 /\ Forall (fun y => 0 < cmp y) l2
    end.
Proof.
  intros [_ Hc _] Hm. destruct (find_spec cmp (root t) 0 Hm Hc) as (l1 & l2 & E & Es & Hf).
  exists l1, l2. by split_and!.
Qed.

Lemma jsw_aindex_spec t idx :
  tree_ok t -> 0 <= idx -> jsw_aindex t idx = Ok (inorder (root t) !! Z.to_nat idx).
Proof.
  intros [_ Hc Hs] H0. unfold jsw_aindex. rewrite Hs. destruct (Z.geb_spec idx (zlen (inorder (root t)))).
  - rewrite lookup_ge_None_2; [done|]. unfold zlen in *. lia.
  - destruct (index_spec (root t) idx 0 Hc) as (y & -> & Ey); [lia|].
    rewrite Z.sub_0_r in Ey. by rewrite Ey.
Qed.

(** Loops over the whole tree: from one end to the other, and from an end away. *)
Lemma visit_all dir t :
  tree_ok t -> size t < 2 ^ 32 - 1 -> NoDup (inorder (root t)) ->
  exists c, start (negb dir) t = Ok c /\ visit dir (Z.to_nat (size t)) c = Ok (walk dir (root t)).
Proof.
  intros [Hi Hc Hs] Hsz Hd. rewrite Hs in Hsz. pose proof (height_bound _ Hi Hsz) as Hh.
  destruct (start_spec dir t Hd ltac:(lia)) as (c & Ec & Hoff & Ha). exists c. split; [done|].
  rewrite (visit_spec (root t) dir); [by rewrite Ha|done|lia|done|].
  rewrite Ha, Hs. destruct dir; [rewrite walk_inorder|rewrite walk_reverse, length_reverse]; unfold zlen; lia.
Qed.

Lemma visit_away dir t :
  tree_ok t -> size t < 2 ^ 32 - 1 -> NoDup (inorder (root t)) ->
  exists c, start dir t = Ok c /\ visit dir (Z.to_nat (size t)) c = Ok (option_list (last (walk dir (root t)))).
Proof.
  intros [Hi Hc Hs] Hsz Hd. rewrite Hs in Hsz. pose proof (height_bound _ Hi Hsz) as Hh.
  destruct (start_move_off dir t Hd ltac:(lia)) as (c & Ec & Em). exists c. split; [done|].
  destruct (start_spec (negb dir) t Hd ltac:(lia)) as (c' & Ec' & Ho & Ha).
  rewrite negb_involutive, Ec in Ec'. injection Ec' as <-. rewrite walk_negb in Ha.
  destruct Ho as [->|[Hn Hl]].
  { assert (walk dir (root t) = []) as -> by (rewrite <- (reverse_involutive (walk dir (root t))), <- Ha; by destruct dir).
    by destruct (Z.to_nat (size t)). }
  destruct (it c) as [|lv k l x r] eqn:Ei; [done|].
  destruct (ahead_cursor _ (negb dir) _ x Hd Hl) as (pre & rest & Hw & Hr); [by rewrite Ei|].
  assert (last (walk dir (root t)) = Some x) as ->.
  { rewrite <- (reverse_involutive (walk dir (root t))), last_reverse, <- Ha, Hr. done. }
  destruct (Z.to_nat (size t)) eqn:En.
  { exfalso. assert (inorder (root t) = []) as E0 by (apply zlen_0_nil; unfold zlen in *; lia).
    destruct dir; simpl in Hw; rewrite ?walk_inorder, ?walk_reverse, E0 in Hw; by destruct pre. }
  cbn [visit]. rewrite Ei. cbn [owner]. rewrite Em. cbn [res_bind]. by destruct n.
Qed.

(** ** The component's theorems *)

(** C32: an Andersson tree whose invariant holds keeps its elements in order with
    their subtree counts, whatever is done to it: inserting puts the node before
    the first element that is not less; erasing removes one equal element or
    reports that there is none and changes nothing; the search reports an equal
    element with its position; the position lookup returns the element there, and
    NULL past the end. The stack of 64 ancestors never overflows below 2^32 - 1
    nodes, and every operation terminates with the invariant restored. *)
Theorem atree_operations cmp x t :
  tree_ok t -> size t < 2 ^ 32 - 1 -> mono cmp (inorder (root t)) ->
  (exists t' l1 l2, jsw_ainsert cmp x t = Ok t' /\ tree_ok t' /\ jsw_asize t' = jsw_asize t + 1 /\
     inorder (root t) = l1 ++ l2 /\ inorder (root t') = l1 ++ x :: l2 /\
     Forall (fun y => cmp y < 0) l1 /\ Forall (fun y => 0 <= cmp y) l2) /\
  (exists found t', jsw_aerase cmp t = Ok (found, t') /\ tree_ok t' /\
     match found with
     | Some y => cmp y = 0 /\ jsw_asize t' = jsw_asize t - 1 /\
         exists l1 l2, inorder (root t) = l1 ++ y :: l2 /\ inorder (root t') = l1 ++ l2
     | None => t' = t /\ Forall (fun y => cmp y <> 0) (inorder (root t))
     end) /\
  (exists l1 l2, inorder (root t) = l1 ++ l2 /\ snd (jsw_afind_ex cmp t) = zlen l1 /\
     match fst (jsw_afind_ex cmp t) return Prop with
     | Some y => cmp y = 0 /\ head l2 = Some y
     | None => Forall (fun y => cmp y < 0) l1 /\ Forall (fun y => 0 < cmp y) l2
     end) /\
  (forall idx, 0 <= idx -> jsw_aindex t idx = Ok (inorder (root t) !! Z.to_nat idx)).
Proof.
  intros Ho Hsz Hm. split_and!.
  - by apply jsw_ainsert_spec.
  - by apply jsw_aerase_spec.
  - by apply jsw_afind_spec.
  - intros. by apply jsw_aindex_spec.
Qed.

(** C33: visiting from jsw_atfirst by jsw_atnext returns the elements in order, and
    from jsw_atlast by jsw_atprev in reverse; popping at a cursor, in either
    direction, removes exactly the element under the cursor and leaves the cursor
    where the traversal goes on, or past the end when nothing is left. *)
Theorem atree_traversal cmp t :
  tree_ok t -> size t < 2 ^ 32 - 1 -> strict cmp (inorder (root t)) ->
  (exists c, jsw_atfirst t = Ok c /\ visit true (Z.to_nat (size t)) c = Ok (inorder (root t))) /\
  (exists c, jsw_atlast t = Ok c /\
     visit false (Z.to_nat (size t)) c = Ok (reverse (inorder (root t)))) /\
  (forall (dir : bool) c x, trav_ok (root t) c -> owner (it c) = Some x ->
     exists t' c', (if dir then jsw_pop_atnext cmp t c else jsw_pop_atprev cmp t c) = Ok (t', c') /\
       tree_ok t' /\ off_or_ok (root t') c' /\ ahead dir c = x :: ahead dir c' /\
       exists l1 l2, inorder (root t) = l1 ++ x :: l2 /\ inorder (root t') = l1 ++ l2).
Proof.
  intros Ho Hsz Hst. pose proof Hst as (Hd & _ & _).
  destruct (visit_all true t Ho Hsz Hd) as (c1 & E1 & V1). destruct (visit_all false t Ho Hsz Hd) as (c2 & E2 & V2).
  rewrite walk_inorder in V1. rewrite walk_reverse in V2. split_and!; [by exists c1|by exists c2|].
  - intros dir c x Hl Hx. destruct (pop_move_spec cmp dir t c x Ho Hsz Hst Hl Hx)
      as (t' & c' & Ep & H). exists t', c'. destruct dir; done.
Qed.

(** *** A concrete tree *)

Definition sample : res jsw_atree_t :=
  let! t := jsw_ainsert (num_cmp 5) 5 jsw_ainit in
  let! t := jsw_ainsert (num_cmp 2) 2 t in
  let! t := jsw_ainsert (num_cmp 9) 9 t in
  jsw_ainsert (num_cmp 7) 7 t.
Definition sample_tree : jsw_atree_t :=
  Eval vm_compute in match sample with Ok t => t | Err _ => jsw_ainit | Stop _ => jsw_ainit end.

Lemma sample_ok : tree_ok sample_tree /\ size sample_tree < 2 ^ 32 - 1 /\
  strict num_cmp (inorder (root sample_tree)).
Proof.
  assert (forall x : Z, mono (num_cmp x) (inorder (root sample_tree))) as Hm.
  { intros x. cbn. unfold mono, num_cmp.
    repeat (apply SSorted_cons || apply SSorted_nil || apply Forall_cons_2 || apply Forall_nil_2);
    repeat case_match; simpl; lia. }
  split_and!; [|done|].
  - constructor; cbn; [|vm_compute; by split_and!|done]. split_and!; try done; lia.
  - split_and!; [|done|].
    + by apply (bool_decide_unpack (NoDup _)).
    + intros x y _ _. unfold num_cmp. repeat case_match; lia.
Qed.

Lemma atree_operations_witness :
  exists t', jsw_ainsert (num_cmp 6) 6 sample_tree = Ok t' /\ tree_ok t'.
Proof.
  destruct sample_ok as (Ho & Hsz & Hst).
  destruct (atree_operations (num_cmp 6) 6 sample_tree Ho Hsz) as ((t' & _ & _ & E & Ht & _) & _).
  - cbn. unfold mono, num_cmp.
    repeat (apply SSorted_cons || apply SSorted_nil || apply Forall_cons_2 || apply Forall_nil_2);
      simpl; lia.
  - by exists t'.
Defined.

Lemma atree_traversal_witness :
  exists c, jsw_atfirst sample_tree = Ok c /\ visit true 4 c = Ok [2; 5; 7; 9].
Proof.
  destruct sample_ok as (Ho & Hsz & Hst).
  exact (proj1 (atree_traversal num_cmp sample_tree Ho Hsz Hst)).
Defined.
