(* ===== verification/KvpPkts.v ===== *)
(** * Packets of the key-value sync protocol (server/libkvpsync/pkts.c)

    UPDATE and ACK packets: big-endian integers and length-prefixed strings. A
    [char key[255]] with its length is the list of its used bytes. *)

From S2P Require Import Prelude Dstr Msg.

(** ** Data *)

Definition KVPSYNC_MAX_LEN : Z := 255.

Definition KVP_UPDATE_EMPTY : Z := 0.
Definition KVP_UPDATE_FLUSH : Z := 1.
Definition KVP_UPDATE_START : Z := 2.
Definition KVP_UPDATE_INSERT : Z := 3.
Definition KVP_UPDATE_DELETE : Z := 4.

(** The type is a bit field of 8 bits, which the reader fills with any byte. *)
Record kvp_update_t := mkUpdate {
  ok_expiry : Z; sync_id : Z; update_id : Z; utype : Z;
  resync_id : Z; key : bytes; delete_id : Z; val : bytes
}.
Record kvp_ack_t := mkAck { ack_sync_id : Z; ack_update_id : Z }.

#[export] Instance kvp_update_eq_dec : EqDecision kvp_update_t.
Proof. solve_decision. Defined.
#[export] Instance kvp_ack_eq_dec : EqDecision kvp_ack_t.
Proof. solve_decision. Defined.

(** Random bytes are drawn until they are not all zero; a draw can fail. *)
Fixpoint pick_id (draws : list (res Z)) : res Z :=
  match draws with
  | [] => Stop OutOfFuel
  | d :: draws => let! id := d in if id =? 0 then pick_id draws else Ok id
  end.

(** ** Reading *)

(** [size_t pos] and [bool ok], which the readers share. *)
Record cursor := mkCur { pos : Z; ok : bool }.

(** [n] more bytes are shifted into [u], an integer of [w] bits. *)
Fixpoint read_be (n : nat) (w : Z) (rbuf : bytes) (u p : Z) : res (Z * Z) :=
  match n with
  | O => Ok (u, p)
  | S n =>
      let! b := rd rbuf p in
      read_be n w rbuf (Z.lor (Z.shiftl u 8) b mod 2 ^ w) (p + 1)
  end.

Definition read_uint (n : nat) (rbuf : bytes) (c : cursor) : res (Z * cursor) :=
  if negb (ok c) then Ok (0, c)
  else if pos c + Z.of_nat n >? zlen rbuf then Ok (0, mkCur (pos c) false)
  else let! r := read_be n (8 * Z.of_nat n) rbuf 0 (pos c) in
       Ok (fst r, mkCur (snd r) true).
Definition read_uint64 := read_uint 8.
Definition read_uint32 := read_uint 4.
Definition read_uint8 := read_uint 1.

(** memcpy of [len] bytes of the packet, which the caller has found to be there. *)
Definition read_bytes (rbuf : bytes) (p len : Z) : res bytes :=
  if p + len <=? zlen rbuf then Ok (slice rbuf p len) else Stop OutOfBounds.

(** After the type: the boolean is the return value, and [*out] is filled as far
    as the reader got. *)
Definition read_rest (rbuf : bytes) (c : cursor) (ok_expiry sync_id update_id type : Z)
  : res (bool * kvp_update_t) :=
  let out := mkUpdate ok_expiry sync_id update_id type in
  if (type =? KVP_UPDATE_EMPTY) || (type =? KVP_UPDATE_FLUSH) then
    Ok (true, out 0 [] 0 [])
  else if type =? KVP_UPDATE_START then
    if negb (update_id =? 1) then Ok (false, out 0 [] 0 [])
    else
      let! r5 := read_uint32 rbuf c in
      Ok (ok (snd r5), out (fst r5) [] 0 [])
  else if negb ((type =? KVP_UPDATE_INSERT) || (type =? KVP_UPDATE_DELETE)) then
    Ok (false, out 0 [] 0 [])
  else
    let! rk := read_uint8 rbuf c in
    let klen := fst rk in
    let c := snd rk in
    if negb (ok c) then Ok (false, out 0 [] 0 [])
    else if pos c + klen >? zlen rbuf then Ok (false, out 0 [] 0 [])
    else
      let! k := read_bytes rbuf (pos c) klen in
      let c := mkCur (pos c + klen) true in
      if type =? KVP_UPDATE_DELETE then
        let! rd := read_uint32 rbuf c in
        Ok (ok (snd rd), out 0 k (fst rd) [])
      else
        let! rv := read_uint8 rbuf c in
        let vlen := fst rv in
        let c := snd rv in
        if negb (ok c) then Ok (false, out 0 k 0 [])
        else if pos c + vlen >? zlen rbuf then Ok (false, out 0 k 0 [])
        else
          let! v := read_bytes rbuf (pos c) vlen in
          Ok (true, out 0 k 0 v).

Definition kvpsync_update_read (rbuf : bytes) : res (bool * kvp_update_t) :=
  let! r1 := read_uint64 rbuf (mkCur 0 true) in
  let! r2 := read_uint32 rbuf (snd r1) in
  let! r3 := read_uint32 rbuf (snd r2) in
  let! r4 := read_uint8 rbuf (snd r3) in
  if negb (ok (snd r4)) then Ok (false, mkUpdate (fst r1) (fst r2) (fst r3) (fst r4) 0 [] 0 [])
  else read_rest rbuf (snd r4) (fst r1) (fst r2) (fst r3) (fst r4).

Definition kvpsync_ack_read (rbuf : bytes) : res (bool * kvp_ack_t) :=
  let! r1 := read_uint32 rbuf (mkCur 0 true) in
  let! r2 := read_uint32 rbuf (snd r1) in
  Ok (ok (snd r2), mkAck (fst r1) (fst r2)).

(** ** Writing *)

(** [dstr_grow(out, out->len + n)], then [n] bytes are stored at the end. *)
Definition put_bytes `{Alloc} (b : bytes) : stm dstr unit := fun ds =>
  (do! _ := dstr_grow_quiet (d_len ds + zlen b) in
   fun ds => (Ok tt, set_data (d_data ds ++ b) ds)) ds.

(** [(u >> 8 * i) & 0xFF] for [i] from [n - 1] down to 0. *)
Fixpoint be_bytes (n : nat) (u : Z) : bytes :=
  match n with
  | O => []
  | S n => Z.land (Z.shiftr u (8 * Z.of_nat n)) 255 :: be_bytes n u
  end.

Definition write_uint64 `{Alloc} (u : Z) : stm dstr unit := put_bytes (be_bytes 8 u).
Definition write_uint32 `{Alloc} (u : Z) : stm dstr unit := put_bytes (be_bytes 4 u).
Definition write_uint8 `{Alloc} (u : Z) : stm dstr unit := put_bytes (be_bytes 1 u).

Definition kvpsync_update_write `{Alloc} (u : kvp_update_t) : stm dstr unit :=
  do! _ := write_uint64 (ok_expiry u) in
  do! _ := write_uint32 (sync_id u) in
  do! _ := write_uint32 (update_id u) in
  do! _ := write_uint8 (utype u) in
  let type := utype u in
  if (type =? KVP_UPDATE_EMPTY) || (type =? KVP_UPDATE_FLUSH) then st_ret tt
  else if type =? KVP_UPDATE_START then
    if negb (update_id u =? 1) then st_fail E_INTERNAL
    else write_uint32 (resync_id u)
  else if negb ((type =? KVP_UPDATE_INSERT) || (type =? KVP_UPDATE_DELETE)) then
    st_fail E_INTERNAL
  else
    do! _ := write_uint8 (zlen (key u)) in
    do! _ := put_bytes (key u) in
    if type =? KVP_UPDATE_DELETE then write_uint32 (delete_id u)
    else
      do! _ := write_uint8 (zlen (val u)) in
      put_bytes (val u).

Definition kvpsync_ack_write `{Alloc} (a : kvp_ack_t) : stm dstr unit :=
  do! _ := write_uint32 (ack_sync_id a) in
  write_uint32 (ack_update_id a).

Lemma pick_id_nonzero draws id : pick_id draws = Ok id -> id <> 0.
Proof.
  induction draws as [|d draws IH]; [done|]. cbn [pick_id]. destruct d as [z| |]; [|done|done]. cbn [res_bind]. intros H.
  destruct (Z.eqb_spec z 0); [auto|congruence].
Qed.

(** ** Integers *)

(** The value of big-endian bytes. *)
Definition be_value (b : bytes) : Z := fold_left (fun u x => u * 256 + x) b 0.

Lemma be_value_app a b : be_value (a ++ b) = be_value a * 256 ^ zlen b + be_value b.
Proof.
  unfold be_value. rewrite fold_left_app. generalize (fold_left (fun u x => u * 256 + x) a 0).
  induction b as [|x b IH]; intros u; simpl; [autorewrite with zlen; lia|].
  rewrite IH, (IH (0 * 256 + x)), zlen_cons. rewrite Z.pow_add_r by (pose proof (zlen_nonneg b); lia). lia.
Qed.

Lemma be_bytes_range n u : is_bytes (be_bytes n u).
Proof.
  induction n; constructor; [|done]. change 255 with (Z.ones 8).
  rewrite Z.land_ones by lia. apply (Z.mod_pos_bound _ (2 ^ 8)). lia.
Qed.

Lemma be_bytes_length n u : zlen (be_bytes n u) = Z.of_nat n.
Proof. induction n; [done|]. cbn [be_bytes]. rewrite zlen_cons, IHn. lia. Qed.

Lemma be_bytes_value n u : be_value (be_bytes n u) = u mod 256 ^ Z.of_nat n.
Proof.
  induction n as [|n IH]; [by rewrite Z.mod_1_r|].
  cbn [be_bytes]. change (?a :: ?b) with ([a] ++ b). rewrite be_value_app, IH, be_bytes_length.
  unfold be_value. simpl fold_left. change 255 with (Z.ones 8). rewrite Z.land_ones by lia.
  rewrite Z.shiftr_div_pow2 by lia.
  replace (2 ^ (8 * Z.of_nat n)) with (256 ^ Z.of_nat n) by (rewrite Z.pow_mul_r by lia; done).
  change (2 ^ 8) with 256.
  rewrite Nat2Z.inj_succ, Z.pow_succ_r, (Z.mul_comm 256), Z.rem_mul_r by lia. lia.
Qed.

#[global] Arguments be_bytes n u : simpl never.

Lemma be_value_cons x b : be_value (x :: b) = x * 256 ^ zlen b + be_value b.
Proof. change (x :: b) with ([x] ++ b). by rewrite be_value_app. Qed.

Lemma be_value_range b : is_bytes b -> 0 <= be_value b < 256 ^ zlen b.
Proof.
  induction 1 as [|x b Hx Hb IH]; [done|]. rewrite be_value_cons, zlen_cons.
  rewrite Z.pow_add_r by (pose proof (zlen_nonneg b); lia). unfold is_byte in Hx. nia.
Qed.

Lemma be_value_inj a b :
  is_bytes a -> is_bytes b -> zlen a = zlen b -> be_value a = be_value b -> a = b.
Proof.
  intros Ha. revert b. induction Ha as [|x a Hx Ha IH]; intros [|y b] Hb Hl Hv;
    try (unfold zlen in Hl; simpl in Hl; lia); [done|]. rewrite !zlen_cons in Hl.
  apply Forall_cons in Hb as [Hy Hb]. rewrite !be_value_cons in Hv.
  assert (zlen a = zlen b) as E by lia. rewrite E in Hv.
  pose proof (be_value_range a Ha). pose proof (be_value_range b Hb). rewrite E in *.
  assert (x = y) as -> by nia. f_equal. apply IH; [done|done|lia].
Qed.

Lemma be_bytes_of_value b : is_bytes b -> be_bytes (length b) (be_value b) = b.
Proof.
  intros Hb. apply be_value_inj; [apply be_bytes_range|done|by rewrite be_bytes_length|].
  rewrite be_bytes_value. apply Z.mod_small, (be_value_range b Hb).
Qed.

(** A byte shifted into an integer. *)
Lemma shift_in u x : 0 <= x < 256 -> Z.lor (Z.shiftl u 8) x = u * 256 + x.
Proof.
  intros Hx. assert (Z.land (Z.shiftl u 8) x = 0) as H0.
  { apply Z.bits_inj'. intros i Hi. rewrite Z.land_spec, Z.bits_0.
    destruct (Z.lt_ge_cases i 8); [by rewrite Z.shiftl_spec_low by lia|].
    replace x with (x mod 2 ^ 8) by (apply Z.mod_small; lia).
    rewrite Z.mod_pow2_bits_high by lia. apply andb_false_r. }
  rewrite <- Z.lxor_lor, <- Z.add_nocarry_lxor by done.
  rewrite Z.shiftl_mul_pow2 by lia. lia.
Qed.

(** Reading an integer at a position is reading the bytes there. *)
Lemma read_be_ok n w pre b post u :
  zlen b = Z.of_nat n -> is_bytes b -> 0 <= u -> 8 * Z.of_nat n <= w ->
  u * 256 ^ Z.of_nat n + be_value b < 2 ^ w ->
  read_be n w (pre ++ b ++ post) u (zlen pre)
  = Ok (u * 256 ^ Z.of_nat n + be_value b, zlen pre + Z.of_nat n).
Proof.
  revert pre b u. induction n as [|n IH]; intros pre b u Hl Hb Hu Hw Hv.
  { apply zlen_0_nil in Hl as ->. simpl. unfold be_value. simpl. do 2 f_equal; lia. }
  destruct b as [|x b]; [rewrite zlen_nil in Hl; lia|]. rewrite zlen_cons in Hl.
  apply Forall_cons in Hb as [Hx Hb]. unfold is_byte in Hx.
  assert (zlen b = Z.of_nat n) as Hlb by lia. pose proof (be_value_range b Hb) as Hr.
  rewrite be_value_cons in *. rewrite Hlb in *. rewrite Nat2Z.inj_succ in *.
  rewrite Z.pow_succ_r in * by lia.
  cbn [read_be]. rewrite <- (Z.add_0_r (zlen pre)) at 1. rewrite rd_app_r by lia.
  change (rd ((x :: b) ++ post) 0) with (Ok x). cbn [res_bind].
  rewrite shift_in by done.
  assert (0 < 256 ^ Z.of_nat n) by lia.
  rewrite Z.mod_small by nia.
  replace (pre ++ (x :: b) ++ post) with ((pre ++ [x]) ++ b ++ post) by by rewrite <- app_assoc.
  replace (zlen pre + 1) with (zlen (pre ++ [x])) by by rewrite zlen_app.
  rewrite IH; [|lia|done|nia|lia|nia]. rewrite zlen_app. change (zlen [x]) with 1.
  do 2 f_equal; lia.
Qed.

Lemma read_uint_at n pre b post :
  zlen b = Z.of_nat n -> is_bytes b ->
  read_uint n (pre ++ b ++ post) (mkCur (zlen pre) true)
  = Ok (be_value b, mkCur (zlen (pre ++ b)) true).
Proof.
  intros Hl Hb. unfold read_uint. cbn [ok negb pos]. rewrite !zlen_app.
  pose proof (zlen_nonneg post). destruct (Z.gtb_spec (zlen pre + Z.of_nat n) (zlen pre + (zlen b + zlen post))); [lia|].
  pose proof (be_value_range b Hb) as Hr. rewrite Hl in Hr.
  rewrite read_be_ok; [|done|done|lia|lia|].
  { cbn [res_bind fst snd]. by rewrite Hl. }
  replace (2 ^ (8 * Z.of_nat n)) with (256 ^ Z.of_nat n) by (rewrite Z.pow_mul_r by lia; done). lia.
Qed.

Lemma read_uint_short n rbuf p :
  zlen rbuf < p + Z.of_nat n -> read_uint n rbuf (mkCur p true) = Ok (0, mkCur p false).
Proof.
  intros. unfold read_uint. cbn. by destruct (Z.gtb_spec (p + Z.of_nat n) (zlen rbuf)); [|lia].
Qed.

Lemma read_uint_stuck n rbuf p : read_uint n rbuf (mkCur p false) = Ok (0, mkCur p false).
Proof. done. Qed.

(** A buffer of which [pre] has been read either holds [n] more bytes or not. *)
Lemma more_bytes n (pre rest : bytes) :
  0 <= n ->
  zlen (pre ++ rest) < zlen pre + n \/ exists b post, rest = b ++ post /\ zlen b = n.
Proof.
  intros Hn. destruct (Z.lt_ge_cases (zlen rest) n); [left; rewrite zlen_app; lia|right].
  exists (take (Z.to_nat n) rest), (drop (Z.to_nat n) rest).
  rewrite take_drop, zlen_take. split; [done|lia].
Qed.

Lemma read_bytes_at pre b post : read_bytes (pre ++ b ++ post) (zlen pre) (zlen b) = Ok b.
Proof.
  unfold read_bytes. rewrite slice_app_mid, !zlen_app. pose proof (zlen_nonneg post).
  by destruct (Z.leb_spec (zlen pre + zlen b) (zlen pre + (zlen b + zlen post))); [|lia].
Qed.

(** ** Packets as texts *)

Definition update_text (u : kvp_update_t) : bytes :=
  be_bytes 8 (ok_expiry u) ++ be_bytes 4 (sync_id u) ++ be_bytes 4 (update_id u) ++
  be_bytes 1 (utype u) ++
  (if utype u =? KVP_UPDATE_START then be_bytes 4 (resync_id u)
   else if utype u =? KVP_UPDATE_INSERT then
     be_bytes 1 (zlen (key u)) ++ key u ++ be_bytes 1 (zlen (val u)) ++ val u
   else if utype u =? KVP_UPDATE_DELETE then
     be_bytes 1 (zlen (key u)) ++ key u ++ be_bytes 4 (delete_id u)
   else []).

Definition ack_text (a : kvp_ack_t) : bytes :=
  be_bytes 4 (ack_sync_id a) ++ be_bytes 4 (ack_update_id a).

(** The fields are in their widths, and those the type does not have are zero. *)
Record update_ok (u : kvp_update_t) : Prop := {
  uok_expiry : is_u64 (ok_expiry u);
  uok_sync : is_u32 (sync_id u);
  uok_update : is_u32 (update_id u);
  uok_resync : is_u32 (resync_id u);
  uok_delete : is_u32 (delete_id u);
  uok_key : is_bytes (key u) /\ zlen (key u) <= KVPSYNC_MAX_LEN;
  uok_val : is_bytes (val u) /\ zlen (val u) <= KVPSYNC_MAX_LEN;
  uok_type : utype u = KVP_UPDATE_EMPTY \/ utype u = KVP_UPDATE_FLUSH \/
    utype u = KVP_UPDATE_START \/ utype u = KVP_UPDATE_INSERT \/ utype u = KVP_UPDATE_DELETE;
  uok_start : utype u = KVP_UPDATE_START -> update_id u = 1;
  uok_no_resync : utype u <> KVP_UPDATE_START -> resync_id u = 0;
  uok_no_key : utype u <> KVP_UPDATE_INSERT -> utype u <> KVP_UPDATE_DELETE -> key u = [];
  uok_no_delete : utype u <> KVP_UPDATE_DELETE -> delete_id u = 0;
  uok_no_val : utype u <> KVP_UPDATE_INSERT -> val u = []
}.

Definition ack_ok (a : kvp_ack_t) : Prop := is_u32 (ack_sync_id a) /\ is_u32 (ack_update_id a).

Lemma be_value_small n v : 0 <= v < 256 ^ Z.of_nat n -> be_value (be_bytes n v) = v.
Proof. intros. rewrite be_bytes_value. by apply Z.mod_small. Qed.

Lemma read_value_at n pre v post :
  0 <= v < 256 ^ Z.of_nat n ->
  read_uint n (pre ++ be_bytes n v ++ post) (mkCur (zlen pre) true)
  = Ok (v, mkCur (zlen (pre ++ be_bytes n v)) true).
Proof.
  intros Hv. rewrite read_uint_at; [|apply be_bytes_length|apply be_bytes_range].
  by rewrite be_value_small.
Qed.

(** [p] bytes have been read and [rest] is what is left. *)
Definition left_at (rbuf : bytes) (p : Z) (rest : bytes) : Prop :=
  exists pre, rbuf = pre ++ rest /\ zlen pre = p.

Lemma left_at_start rbuf : left_at rbuf 0 rbuf.
Proof. by exists []. Qed.

Lemma left_at_len rbuf p rest : left_at rbuf p rest -> zlen rbuf = p + zlen rest.
Proof. intros (pre & -> & <-). apply zlen_app. Qed.

Lemma left_at_skip rbuf p b rest : left_at rbuf p (b ++ rest) -> left_at rbuf (p + zlen b) rest.
Proof. intros (pre & -> & <-). exists (pre ++ b). by rewrite zlen_app, app_assoc. Qed.

Lemma read_left n rbuf p b rest :
  left_at rbuf p (b ++ rest) -> zlen b = Z.of_nat n -> is_bytes b ->
  read_uint n rbuf (mkCur p true) = Ok (be_value b, mkCur (p + Z.of_nat n) true) /\
  left_at rbuf (p + Z.of_nat n) rest.
Proof.
  intros Hl Hn Hb. pose proof (left_at_skip _ _ _ _ Hl) as Hs. rewrite Hn in Hs. split; [|done].
  destruct Hl as (pre & -> & <-). rewrite read_uint_at by done. by rewrite zlen_app, Hn.
Qed.

Lemma read_value n rbuf p v rest :
  left_at rbuf p (be_bytes n v ++ rest) -> 0 <= v < 256 ^ Z.of_nat n ->
  read_uint n rbuf (mkCur p true) = Ok (v, mkCur (p + Z.of_nat n) true) /\
  left_at rbuf (p + Z.of_nat n) rest.
Proof.
  intros Hl Hv. pose proof (read_left n rbuf p _ rest Hl (be_bytes_length n v)) as H.
  rewrite be_value_small in H by done. apply H, be_bytes_range.
Qed.

Lemma read_left_bytes rbuf p b rest :
  left_at rbuf p (b ++ rest) ->
  (p + zlen b >? zlen rbuf) = false /\ read_bytes rbuf p (zlen b) = Ok b /\
  left_at rbuf (p + zlen b) rest.
Proof.
  intros Hl. pose proof (left_at_len _ _ _ Hl) as E. rewrite zlen_app in E.
  pose proof (zlen_nonneg rest). pose proof (left_at_skip _ _ _ _ Hl).
  split_and!; [destruct (Z.gtb_spec (p + zlen b) (zlen rbuf)); [lia|done]| |done].
  destruct Hl as (pre & -> & <-). apply read_bytes_at.
Qed.

(** The next [n] bytes are there, or the read fails. *)
Lemma read_any n rbuf p rest :
  left_at rbuf p rest -> is_bytes rest ->
  read_uint n rbuf (mkCur p true) = Ok (0, mkCur p false) \/
  exists v rest', rest = be_bytes n v ++ rest' /\ 0 <= v < 256 ^ Z.of_nat n /\
    read_uint n rbuf (mkCur p true) = Ok (v, mkCur (p + Z.of_nat n) true) /\
    left_at rbuf (p + Z.of_nat n) rest' /\ is_bytes rest'.
Proof.
  intros Hl Hb. pose proof (left_at_len _ _ _ Hl) as E.
  destruct (more_bytes (Z.of_nat n) [] rest) as [Hs|(b & post & -> & Hn)]; [lia| |].
  - left. apply read_uint_short. cbn [app] in Hs. rewrite zlen_nil in Hs. lia.
  - right. apply is_bytes_app in Hb as [Hb Hp].
    destruct (read_left n rbuf p b post Hl Hn Hb) as [-> Hl'].
    exists (be_value b), post. assert (length b = n) as <- by (unfold zlen in Hn; lia).
    rewrite be_bytes_of_value by done. split_and!; try done; apply (be_value_range b Hb).
Qed.

(** One read of a buffer that starts with an integer. *)
Ltac next_value L :=
  let E := fresh "E" in
  let L' := fresh "L" in
  destruct (read_value _ _ _ _ _ L) as [E L'];
  [simpl; unfold is_u32, is_u64 in *; try lia
  |rewrite E; cbn [res_bind fst snd ok negb pos]; clear E L; rename L' into L].

Lemma ack_read_text a post rbuf :
  ack_ok a -> left_at rbuf 0 (ack_text a ++ post) -> kvpsync_ack_read rbuf = Ok (true, a).
Proof.
  intros [H1 H2] L. unfold kvpsync_ack_read, read_uint32.
  unfold ack_text in L. rewrite <- app_assoc in L.
  next_value L. next_value L. by destruct a.
Qed.

Lemma u8_small x : 0 <= x <= 255 -> 0 <= x < 256 ^ Z.of_nat 1.
Proof. simpl. lia. Qed.

Lemma update_read_text u post rbuf :
  update_ok u -> left_at rbuf 0 (update_text u ++ post) ->
  kvpsync_update_read rbuf = Ok (true, u).
Proof.
  intros [He Hs Hu Hr Hd [Hkb Hk] [Hvb Hv] Ht Hst Hnr Hnk Hnd Hnv] L.
  unfold kvpsync_update_read, read_rest, read_uint32, read_uint64, read_uint8, KVPSYNC_MAX_LEN in *.
  unfold update_text in L. rewrite <- !app_assoc in L.
  pose proof (zlen_nonneg (key u)). pose proof (zlen_nonneg (val u)).
  next_value L. next_value L. next_value L.
  destruct u as [e s i t r k d v].
  cbn [ok_expiry sync_id update_id utype resync_id key delete_id val] in *.
  next_value L; [destruct Ht as [->|[->|[->|[->| ->]]]]; done|].
  unfold KVP_UPDATE_EMPTY, KVP_UPDATE_FLUSH, KVP_UPDATE_START, KVP_UPDATE_INSERT,
    KVP_UPDATE_DELETE in *.
  destruct Ht as [->|[->|[->|[->| ->]]]]; cbn [Z.eqb orb negb Pos.eqb] in *.
  - rewrite Hnr, Hnk, Hnd, Hnv by lia. done.
  - rewrite Hnr, Hnk, Hnd, Hnv by lia. done.
  - rewrite Hst by lia. cbn [Z.eqb negb Pos.eqb]. next_value L. rewrite Hnk, Hnd, Hnv by lia. done.
  - rewrite <- !app_assoc in L. next_value L.
    destruct (read_left_bytes _ _ _ _ L) as (-> & -> & L'). cbn [res_bind]. clear L. rename L' into L.
    next_value L.
    destruct (read_left_bytes _ _ _ _ L) as (-> & -> & _). cbn [res_bind].
    rewrite Hnr, Hnd by lia. done.
  - rewrite <- !app_assoc in L. next_value L.
    destruct (read_left_bytes _ _ _ _ L) as (-> & -> & L'). cbn [res_bind]. clear L. rename L' into L.
    next_value L. rewrite Hnr, Hnv by lia. done.
Qed.

(** The part of a packet after its type. *)
Definition body_text (u : kvp_update_t) : bytes :=
  if utype u =? KVP_UPDATE_START then be_bytes 4 (resync_id u)
  else if utype u =? KVP_UPDATE_INSERT then
    be_bytes 1 (zlen (key u)) ++ key u ++ be_bytes 1 (zlen (val u)) ++ val u
  else if utype u =? KVP_UPDATE_DELETE then
    be_bytes 1 (zlen (key u)) ++ key u ++ be_bytes 4 (delete_id u)
  else [].

(** A length byte and that many bytes. *)
Lemma read_string rbuf p rest :
  left_at rbuf p rest -> is_bytes rest ->
  read_uint 1 rbuf (mkCur p true) = Ok (0, mkCur p false) \/
  exists n, 0 <= n <= 255 /\ read_uint 1 rbuf (mkCur p true) = Ok (n, mkCur (p + 1) true) /\
    ((p + 1 + n >? zlen rbuf) = true \/
     exists k rest', n = zlen k /\ rest = be_bytes 1 (zlen k) ++ k ++ rest' /\
       (p + 1 + n >? zlen rbuf) = false /\ read_bytes rbuf (p + 1) n = Ok k /\
       is_bytes k /\ is_bytes rest' /\ left_at rbuf (p + 1 + n) rest').
Proof.
  intros L Hb. destruct (read_any 1 _ _ _ L Hb) as [->|(n & r & -> & Hn & -> & L' & Hr)]; [by left|].
  right. exists n. change (256 ^ Z.of_nat 1) with 256 in Hn. change (Z.of_nat 1) with 1 in *.
  split_and!; [lia|lia|done|]. pose proof (left_at_len _ _ _ L') as E.
  destruct (Z.gtb_spec (p + 1 + n) (zlen rbuf)); [by left|right].
  destruct (more_bytes n [] r) as [Hs|(k & r' & -> & <-)];
    [lia|cbn [app] in Hs; rewrite zlen_nil in Hs; lia|].
  destruct (read_left_bytes _ _ _ _ L') as (_ & Hk & L''). apply is_bytes_app in Hr as [? ?].
  exists k, r'. by split_and!.
Qed.
Ltac update_facts :=
  constructor; cbn [ok_expiry sync_id update_id utype resync_id key delete_id val];
  unfold is_u32, is_u64, KVPSYNC_MAX_LEN, KVP_UPDATE_EMPTY, KVP_UPDATE_FLUSH,
    KVP_UPDATE_START, KVP_UPDATE_INSERT, KVP_UPDATE_DELETE in *;
  try split; try lia; try done; try (by constructor).

Lemma read_rest_sound rbuf p rest e s i t :
  left_at rbuf p rest -> is_bytes rest -> is_u64 e -> is_u32 s -> is_u32 i ->
  exists b u, read_rest rbuf (mkCur p true) e s i t = Ok (b, u) /\
    (b = true -> update_ok u /\ ok_expiry u = e /\ sync_id u = s /\ update_id u = i /\
       utype u = t /\ exists post, rest = body_text u ++ post).
Proof.
  intros L Hb He Hs Hi. unfold read_rest, read_uint32, read_uint8, body_text.
  destruct ((t =? KVP_UPDATE_EMPTY) || (t =? KVP_UPDATE_FLUSH)) eqn:Ee.
  { eexists _, _. split; [done|]. intros _.
    assert (t = 0 \/ t = 1) as [-> | ->] by (apply orb_true_iff in Ee; unfold KVP_UPDATE_EMPTY, KVP_UPDATE_FLUSH in Ee; lia);
      (split; [update_facts|split_and!; try done; by exists rest]). }
  apply orb_false_iff in Ee as [Ee Ef]. destruct (Z.eqb_spec t KVP_UPDATE_START) as [->|Hns].
  { destruct (Z.eqb_spec i 1) as [->|]; cbn [negb]; [|by eexists false, _].
    destruct (read_any 4 _ _ _ L Hb) as [->|(r & r1 & -> & Hr & -> & L1 & Hb1)];
      cbn [res_bind fst snd ok]; [by eexists false, _|].
    change (256 ^ Z.of_nat 4) with (2 ^ 32) in Hr.
    eexists _, _. split; [done|]. intros _. split; [update_facts|split_and!; try done; by exists r1]. }
  destruct ((t =? KVP_UPDATE_INSERT) || (t =? KVP_UPDATE_DELETE)) eqn:Et; cbn [negb];
    [|by eexists false, _].
  destruct (read_string _ _ _ L Hb) as [->|(n & Hn & -> & [Hl|Hk])]; cbn [res_bind fst snd ok negb pos];
    [by eexists false, _|rewrite Hl; by eexists false, _|].
  destruct Hk as (k & r1 & -> & -> & -> & -> & Hkb & Hb1 & L1). cbn [res_bind].
  destruct (Z.eqb_spec t KVP_UPDATE_DELETE) as [->|Hnd].
  { destruct (read_any 4 _ _ _ L1 Hb1) as [->|(r & r2 & -> & Hr & -> & L2 & Hb2)];
      cbn [res_bind fst snd ok]; [by eexists false, _|].
    change (256 ^ Z.of_nat 4) with (2 ^ 32) in Hr.
    eexists _, _. split; [done|]. intros _.
    split; [update_facts|split_and!; try done; exists r2; cbn; by rewrite <- !app_assoc]. }
  assert (t = KVP_UPDATE_INSERT) as -> by (apply orb_true_iff in Et; lia).
  destruct (read_string _ _ _ L1 Hb1) as [->|(m & Hm & -> & [Hl|Hv])]; cbn [res_bind fst snd ok negb pos];
    [by eexists false, _|rewrite Hl; by eexists false, _|].
  destruct Hv as (v & r2 & -> & -> & -> & -> & Hvb & Hb2 & L2). cbn [res_bind].
  eexists _, _. split; [done|]. intros _.
  split; [update_facts|split_and!; try done; exists r2; cbn; by rewrite <- !app_assoc].
Qed.

(** What a successful read has read. *)
Lemma update_read_sound rbuf rest :
  left_at rbuf 0 rest -> is_bytes rest ->
  exists b u, kvpsync_update_read rbuf = Ok (b, u) /\
    (b = true -> update_ok u /\ exists post, rest = update_text u ++ post).
Proof.
  intros L Hb. unfold kvpsync_update_read, read_uint32, read_uint64, read_uint8.
  assert (forall u, exists b v, Ok (false, u) = Ok (b, v) /\
    (b = true -> update_ok v /\ exists post, rest = update_text v ++ post)) as Hfail by (intros u; by exists false, u).
  destruct (read_any 8 _ _ _ L Hb) as [->|(e & r1 & E1 & He & -> & L1 & Hb1)].
  { cbn. apply Hfail. }
  cbn [res_bind fst snd].
  destruct (read_any 4 _ _ _ L1 Hb1) as [->|(s & r2 & E2 & Hs & -> & L2 & Hb2)].
  { cbn. apply Hfail. }
  cbn [res_bind fst snd].
  destruct (read_any 4 _ _ _ L2 Hb2) as [->|(i & r3 & E3 & Hi & -> & L3 & Hb3)].
  { cbn. apply Hfail. }
  cbn [res_bind fst snd].
  destruct (read_any 1 _ _ _ L3 Hb3) as [->|(t & r4 & E4 & Ht & -> & L4 & Hb4)].
  { cbn. apply Hfail. }
  cbn [res_bind fst snd ok negb]. clear L L1 L2 L3 Hb Hb1 Hb2 Hb3.
  change (256 ^ Z.of_nat 8) with (2 ^ 64) in He. change (256 ^ Z.of_nat 4) with (2 ^ 32) in *.
  change (256 ^ Z.of_nat 1) with 256 in Ht.
  destruct (read_rest_sound rbuf _ r4 e s i t L4 Hb4) as (b & u & -> & H); [done..|].
  exists b, u. split; [done|]. intros E.
  destruct (H E) as (Hu & <- & <- & <- & <- & post & ->). split; [done|].
  exists post. unfold update_text. rewrite <- !app_assoc. by rewrite E1, E2, E3, E4.
Qed.

Lemma ack_read_sound rbuf rest :
  left_at rbuf 0 rest -> is_bytes rest ->
  exists b a, kvpsync_ack_read rbuf = Ok (b, a) /\
    (b = true -> ack_ok a /\ exists post, rest = ack_text a ++ post).
Proof.
  intros L Hb. unfold kvpsync_ack_read, read_uint32.
  destruct (read_any 4 _ _ _ L Hb) as [->|(s & r1 & E1 & Hs & -> & L1 & Hb1)].
  { by eexists false, _. }
  cbn [res_bind fst snd].
  destruct (read_any 4 _ _ _ L1 Hb1) as [->|(i & r2 & E2 & Hi & -> & L2 & Hb2)];
    cbn [res_bind fst snd ok]; [by eexists false, _|].
  eexists _, _. split; [done|]. intros _. split; [done|]. exists r2.
  unfold ack_text. cbn. by rewrite E1, E2, <- app_assoc.
Qed.

(** ** Writing *)

Lemma appends_put `{Alloc} b : appends (put_bytes b) b 0.
Proof.
  intros d n Hr Hn. rewrite Z.add_0_r in Hr. unfold put_bytes.
  apply (extend_ok d b n true Hr Hn). done.
Qed.

(** Append the next piece of a packet. *)
Ltac put_next := apply (appends_bind _ _ _ _ 0 0); [lia|lia|apply appends_put|].

Lemma appends_update `{Alloc} u : update_ok u -> appends (kvpsync_update_write u) (update_text u) 0.
Proof.
  intros [_ _ _ _ _ _ _ Ht Hst _ _ _ _].
  unfold kvpsync_update_write, update_text, write_uint64, write_uint32, write_uint8.
  do 4 put_next. cbv zeta.
  destruct Ht as [->|[->|[E|[->| ->]]]]; [apply appends_ret|apply appends_ret| | |].
  - rewrite (Hst E), E. apply appends_put.
  - do 3 put_next. apply appends_put.
  - do 2 put_next. apply appends_put.
Qed.

Lemma put_then `{Alloc} b d n :
  room d (zlen b + n) -> 0 <= n ->
  exists d', (forall k : unit -> stm dstr unit, st_bind (put_bytes b) k d = k tt d') /\ room d' n.
Proof.
  intros Hr Hn. destruct (appends_put b d n) as (d' & E & _ & Hr'); [by rewrite Z.add_0_r|done|].
  exists d'. split; [|done]. intros k. unfold st_bind. by rewrite E.
Qed.

(** The writer refuses a START packet that does not start its sequence. *)
Lemma update_write_start `{Alloc} u d :
  room d 17 -> utype u = KVP_UPDATE_START -> update_id u <> 1 ->
  fst (kvpsync_update_write u d) = Err E_INTERNAL.
Proof.
  intros Hr Ht Hi. unfold kvpsync_update_write, write_uint64, write_uint32, write_uint8.
  destruct (put_then (be_bytes 8 (ok_expiry u)) d 9 Hr ltac:(lia)) as (d1 & -> & R1).
  destruct (put_then (be_bytes 4 (sync_id u)) d1 5 R1 ltac:(lia)) as (d2 & -> & R2).
  destruct (put_then (be_bytes 4 (update_id u)) d2 1 R2 ltac:(lia)) as (d3 & -> & R3).
  destruct (put_then (be_bytes 1 (utype u)) d3 0 R3 ltac:(lia)) as (d4 & -> & _).
  rewrite Ht. cbn. by destruct (Z.eqb_spec (update_id u) 1).
Qed.

Lemma appends_ack `{Alloc} a : appends (kvpsync_ack_write a) (ack_text a) 0.
Proof. unfold kvpsync_ack_write, ack_text, write_uint32. put_next. apply appends_put. Qed.

Lemma update_text_length u : update_ok u -> zlen (update_text u) <= 529.
Proof.
  intros [_ _ _ _ _ [_ Hk] [_ Hv] Ht _ _ _ _ _]. unfold update_text, KVPSYNC_MAX_LEN in *.
  rewrite !zlen_app, !be_bytes_length.
  destruct Ht as [->|[->|[->|[->| ->]]]];
    cbn [Z.eqb Pos.eqb KVP_UPDATE_EMPTY KVP_UPDATE_FLUSH KVP_UPDATE_START KVP_UPDATE_INSERT KVP_UPDATE_DELETE];
    rewrite ?zlen_app, ?be_bytes_length, ?zlen_nil; lia.
Qed.

Lemma update_text_bytes u : update_ok u -> is_bytes (update_text u).
Proof.
  intros [_ _ _ _ _ [Hk _] [Hv _] _ _ _ _ _ _]. unfold update_text.
  repeat (apply is_bytes_app; split; [apply be_bytes_range|]).
  repeat case_match; repeat (apply is_bytes_app; split); try apply be_bytes_range; try done; by constructor.
Qed.

(** ** The component's theorems *)

(** C22: every packet the writer can be given is written into at most 529 bytes and
    reads back as itself whatever follows it; nothing shorter reads as a packet, so
    a truncated datagram is refused. The same holds for acks, which take 8 bytes. A
    START packet whose update_id is not 1 is refused by the writer. *)
Theorem update_roundtrip `{Alloc} u a d post :
  update_ok u -> ack_ok a -> is_bytes post -> room d 529 ->
  (exists d', kvpsync_update_write u d = (Ok tt, d') /\ d_data d' = d_data d ++ update_text u) /\
  zlen (update_text u) <= 529 /\
  kvpsync_update_read (update_text u ++ post) = Ok (true, u) /\
  (forall n, (n < length (update_text u))%nat ->
     exists v, kvpsync_update_read (take n (update_text u)) = Ok (false, v)) /\
  (exists d', kvpsync_ack_write a d = (Ok tt, d') /\ d_data d' = d_data d ++ ack_text a) /\
  kvpsync_ack_read (ack_text a ++ post) = Ok (true, a) /\
  (forall w, utype w = KVP_UPDATE_START -> update_id w <> 1 ->
     fst (kvpsync_update_write w d) = Err E_INTERNAL).
Proof.
  intros Hu Ha Hp Hr. pose proof (update_text_length u Hu) as Hlen. split_and!.
  - destruct (appends_update u Hu d 0) as (d' & E & D & _); [eapply room_mono; [done|lia]|lia|].
    by exists d'.
  - done.
  - apply (update_read_text u post); [done|apply left_at_start].
  - intros n Hn.
    destruct (update_read_sound (take n (update_text u)) _ (left_at_start _)) as (b & v & E & Hb).
    { apply is_bytes_take. by apply update_text_bytes. }
    exists v. destruct b; [exfalso|done]. destruct Hb as (Hv & post' & Ep); [done|].
    pose proof (update_read_text v (post' ++ drop n (update_text u)) (update_text u) Hv) as E1.
    rewrite app_assoc, <- Ep, take_drop in E1. specialize (E1 (left_at_start _)).
    pose proof (update_read_text u [] (update_text u) Hu) as E2.
    rewrite app_nil_r in E2. specialize (E2 (left_at_start _)). rewrite E1 in E2.
    injection E2 as ->. apply (f_equal length) in Ep. rewrite length_take, length_app in Ep. lia.
  - destruct (appends_ack a d 0) as (d' & E & D & _); [|lia|by exists d'].
    eapply room_mono; [done|]. unfold ack_text. rewrite zlen_app, !be_bytes_length. lia.
  - apply (ack_read_text a post); [done|apply left_at_start].
  - intros w Ht Hi. apply update_write_start; [eapply room_mono; [done|lia]|done..].
Qed.

Definition sample_update : kvp_update_t :=
  mkUpdate 1700000000000000000 7 3 KVP_UPDATE_INSERT 0 (lit "_acme") 0 (lit "token").

Lemma update_roundtrip_witness :
  kvpsync_update_read (update_text sample_update ++ [0]) = Ok (true, sample_update).
Proof.
  assert (update_ok sample_update) as Hu.
  { unfold sample_update, KVP_UPDATE_INSERT. update_facts; try apply lit_is_bytes;
      by vm_compute. }
  assert (ack_ok (mkAck 7 3)) as Ha by (by split).
  destruct (@update_roundtrip always sample_update (mkAck 7 3) (mkD [] 1024 true) [0] Hu Ha)
    as (_ & _ & E & _); [by repeat constructor|by vm_compute|exact E].
Defined.

(** C23: the readers never access a byte outside the datagram and always answer;
    what they accept is exactly the text of a well-formed packet, with whatever
    follows it ignored. *)
Theorem update_read_safe rbuf :
  is_bytes rbuf ->
  (exists b u, kvpsync_update_read rbuf = Ok (b, u) /\
     (b = true <-> exists v post, update_ok v /\ rbuf = update_text v ++ post) /\
     (b = true -> update_ok u /\ exists post, rbuf = update_text u ++ post)) /\
  (exists b a, kvpsync_ack_read rbuf = Ok (b, a) /\ (b = true <-> 8 <= zlen rbuf) /\
     (b = true -> ack_ok a /\ exists post, rbuf = ack_text a ++ post)).
Proof.
  intros Hb. split.
  - destruct (update_read_sound rbuf rbuf (left_at_start _) Hb) as (b & u & E & Hs).
    exists b, u. split_and!; [done| |done]. split; [naive_solver|].
    intros (v & post & Hv & Ev).
    pose proof (update_read_text v post rbuf Hv) as Er. rewrite <- Ev in Er.
    rewrite Er in E by apply left_at_start. by injection E as <-.
  - destruct (ack_read_sound rbuf rbuf (left_at_start _) Hb) as (b & u & E & Hs).
    exists b, u. split_and!; [done| |done]. split.
    + intros ->. destruct Hs as (_ & post & ->); [done|]. unfold ack_text.
      rewrite !zlen_app, !be_bytes_length. pose proof (zlen_nonneg post). lia.
    + intros H8. destruct (more_bytes 4 [] rbuf) as [Hx|(x & r & -> & Hx)];
        [lia|cbn [app] in Hx; rewrite zlen_nil in Hx; lia|]. rewrite zlen_app in H8.
      destruct (more_bytes 4 [] r) as [Hy|(y & q & -> & Hy)];
        [lia|cbn [app] in Hy; rewrite zlen_nil in Hy; lia|].
      apply is_bytes_app in Hb as [Hbx Hb]. apply is_bytes_app in Hb as [Hby _].
      pose proof (ack_read_text (mkAck (be_value x) (be_value y)) q (x ++ y ++ q)) as Er.
      pose proof (be_value_range x Hbx) as Rx. pose proof (be_value_range y Hby) as Ry.
      rewrite Hx in Rx. rewrite Hy in Ry.
      rewrite E in Er. assert (Ok (b, u) = Ok (true, mkAck (be_value x) (be_value y))) as [= -> _]; [|done].
      apply Er; [split; unfold is_u32; simpl in *; lia|]. unfold ack_text.
      cbn [ack_sync_id ack_update_id].
      replace 4%nat with (length x) at 1 by (unfold zlen in Hx; lia).
      replace 4%nat with (length y) at 1 by (unfold zlen in Hy; lia).
      rewrite !be_bytes_of_value by done. rewrite <- app_assoc. apply left_at_start.
Qed.

Lemma update_read_safe_witness : exists b u, kvpsync_update_read [1; 2; 3] = Ok (b, u).
Proof.
  destruct (update_read_safe [1; 2; 3]) as [(b & u & E & _) _]; [by repeat constructor|].
  by exists b, u.
Defined.
