(* ===== verification/KvpRecv.v ===== *)
(** * The receiver of the key-value sync protocol (server/libkvpsync/recv.c)

    Data are objects that are linked in two lists, the list of their key and the
    list of collectable data: they are addresses in a heap, so that freeing one
    that is still linked somewhere shows. *)

From S2P Require Import Prelude KvpPkts.

(** ** Data *)

Abbreviation addr := Z.

(** [data] is the key of the recv_data_t the datum is listed in. *)
Record recv_datum_t := mkDatum {
  data : bytes; d_sync_id : Z; d_update_id : Z; d_delete_id : Z; d_val : bytes; gc_time : Z
}.

(** A recv_data_t is its key and the list of its data; [h] maps keys to these lists. *)
Record kvpsync_recv_t := mkRecv {
  heap : gmap addr recv_datum_t;
  next_addr : addr;
  h : gmap bytes (list addr);
  recv_id : Z;
  r_sync_id : Z;
  initial_sync_acked : bool;
  r_ok_expiry : Z;
  gc : list addr
}.

(** Nanoseconds, as the caller's clock counts. *)
Definition GC_DELAY : Z := 255.
Definition SECOND : Z := 1000000000.

Definition set_heap (m : gmap addr recv_datum_t) (r : kvpsync_recv_t) : kvpsync_recv_t :=
  mkRecv m (next_addr r) (h r) (recv_id r) (r_sync_id r) (initial_sync_acked r) (r_ok_expiry r) (gc r).
Definition set_h (m : gmap bytes (list addr)) (r : kvpsync_recv_t) : kvpsync_recv_t :=
  mkRecv (heap r) (next_addr r) m (recv_id r) (r_sync_id r) (initial_sync_acked r) (r_ok_expiry r) (gc r).
Definition set_gc (l : list addr) (r : kvpsync_recv_t) : kvpsync_recv_t :=
  mkRecv (heap r) (next_addr r) (h r) (recv_id r) (r_sync_id r) (initial_sync_acked r) (r_ok_expiry r) l.
Definition set_state (s : Z) (acked : bool) (e : Z) (r : kvpsync_recv_t) : kvpsync_recv_t :=
  mkRecv (heap r) (next_addr r) (h r) (recv_id r) s acked e (gc r).

Abbreviation recv := (stm kvpsync_recv_t).
Definition get_state : recv kvpsync_recv_t := fun r => (Ok r, r).
Definition modify (f : kvpsync_recv_t -> kvpsync_recv_t) : recv unit := fun r => (Ok tt, f r).

(** Reading an object that has been freed is an access out of bounds. *)
Definition deref (a : addr) : recv recv_datum_t := fun r =>
  match heap r !! a with
  | Some d => (Ok d, r)
  | None => (Stop OutOfBounds, r)
  end.

(** Walking or changing the gc list touches its members. *)
Definition touch_gc : recv unit := fun r =>
  if forallb (fun a => bool_decide (is_Some (heap r !! a))) (gc r) then (Ok tt, r)
  else (Stop OutOfBounds, r).

Definition free_datum (a : addr) (r : kvpsync_recv_t) : kvpsync_recv_t :=
  set_heap (delete a (heap r)) r.

(** The list of a key, and that list without [a]. *)
Definition list_of (k : bytes) (r : kvpsync_recv_t) : list addr := default [] (h r !! k).
Definition without (a : addr) (l : list addr) : list addr := filter (fun b => b <> a) l.
Definition unlink (k : bytes) (a : addr) (r : kvpsync_recv_t) : kvpsync_recv_t :=
  set_h (<[k := without a (list_of k r)]> (h r)) r.

(** ** Objects *)

(** [mem] tells whether the allocations of a call succeed. *)
Definition recv_datum_new (mem : bool) (k : bytes) (sync_id update_id delete_id : Z) (val : bytes)
  : recv addr :=
  if zlen val >? KVPSYNC_MAX_LEN then st_fail E_INTERNAL
  else if negb mem then st_fail E_NOMEM
  else fun r =>
    let a := next_addr r in
    (Ok a, mkRecv (<[a := mkDatum k sync_id update_id delete_id val 0]> (heap r)) (a + 1)
             (h r) (recv_id r) (r_sync_id r) (initial_sync_acked r) (r_ok_expiry r) (gc r)).

Definition recv_data_new (mem : bool) (k : bytes) : recv unit :=
  if zlen k >? KVPSYNC_MAX_LEN then st_fail E_INTERNAL
  else if negb mem then st_fail E_NOMEM
  else st_ret tt.

(** Whether the data of the key still exists. *)
Definition data_remove_datum (k : bytes) (a : addr) : recv bool :=
  do! _ := touch_gc in
  do! _ := modify (fun r => set_gc (without a (gc r)) r) in
  do! _ := modify (unlink k a) in
  do! _ := modify (free_datum a) in
  do! r := get_state in
  match list_of k r with
  | [] => do! _ := modify (fun r => set_h (delete k (h r)) r) in st_ret false
  | _ => st_ret true
  end.

Definition recv_fresh (recv_id : Z) : kvpsync_recv_t :=
  mkRecv ∅ 0 ∅ recv_id 0 false 0 [].
Definition kvpsync_recv_init (mem : bool) (draws : list (res Z)) : res kvpsync_recv_t :=
  let! recv_id := pick_id draws in
  if mem then Ok (recv_fresh recv_id) else Err E_NOMEM.

(** ** Collection *)

Fixpoint free_list (should_free : kvpsync_recv_t -> recv_datum_t -> bool) (k : bytes)
  (l : list addr) : recv unit :=
  match l with
  | [] => st_ret tt
  | a :: l =>
      do! r := get_state in
      do! d := deref a in
      if should_free r d then
        do! data_ok := data_remove_datum k a in
        if data_ok then free_list should_free k l else st_ret tt
      else free_list should_free k l
  end.

Fixpoint for_keys (should_free : kvpsync_recv_t -> recv_datum_t -> bool) (ks : list bytes)
  : recv unit :=
  match ks with
  | [] => st_ret tt
  | k :: ks =>
      do! r := get_state in
      do! _ := free_list should_free k (list_of k r) in
      for_keys should_free ks
  end.

(** The traversal visits every key once; what is left does not depend on the order. *)
Definition for_each_datum (should_free : kvpsync_recv_t -> recv_datum_t -> bool) : recv unit :=
  do! r := get_state in
  for_keys should_free (map_to_list (h r)).*1.

Definition always_should_free (r : kvpsync_recv_t) (d : recv_datum_t) : bool := true.
Definition kvpsync_recv_free : recv unit := for_each_datum always_should_free.

Fixpoint gc_loop (now : Z) (l : list addr) : recv unit :=
  match l with
  | [] => st_ret tt
  | a :: l =>
      do! d := deref a in
      if now <? gc_time d then st_ret tt
      else
        do! _ := data_remove_datum (data d) a in
        gc_loop now l
  end.
Definition do_gc (now : Z) : recv unit :=
  do! r := get_state in gc_loop now (gc r).

Definition flush_should_free (r : kvpsync_recv_t) (d : recv_datum_t) : bool :=
  negb (d_sync_id d =? r_sync_id r).
Definition flush_stale_data : recv unit := for_each_datum flush_should_free.

(** ** Updates *)

Definition set_gc_time (t : Z) (d : recv_datum_t) : recv_datum_t :=
  mkDatum (data d) (d_sync_id d) (d_update_id d) (d_delete_id d) (d_val d) t.

(** [a->gc_time = t], then it is appended to the gc list. *)
Definition put_on_timer (a : addr) (t : Z) : recv unit :=
  do! _ := deref a in
  do! _ := touch_gc in
  modify (fun r => set_gc (gc r ++ [a]) (set_heap (alter (set_gc_time t) a (heap r)) r)).

(** The loop over the other data of the key: [None] is an early return, and
    otherwise the gc time of the new datum. *)
Fixpoint others_loop (now : Z) (k : bytes) (sync_id update_id delete_id : Z)
  (l : list addr) (gc_time_ : Z) : recv (option Z) :=
  match l with
  | [] => st_ret (Some gc_time_)
  | a :: l =>
      do! other := deref a in
      if negb (d_sync_id other =? sync_id) then
        others_loop now k sync_id update_id delete_id l gc_time_
      else if d_update_id other =? update_id then st_ret None
      else if negb (delete_id =? 0) && (d_update_id other =? delete_id) then
        (* only the list of the key is left, the gc list is not *)
        do! _ := modify (unlink k a) in
        do! _ := modify (free_datum a) in
        others_loop now k sync_id update_id delete_id l (u64 (now + GC_DELAY))
      else if (delete_id =? 0) && (d_delete_id other =? update_id) then
        if negb (gc_time other =? 0) then st_ret None
        else
          do! _ := put_on_timer a (u64 (now + GC_DELAY)) in
          st_ret None
      else others_loop now k sync_id update_id delete_id l gc_time_
  end.

Definition handle_recv_or_delete (mem : bool) (now sync_id update_id : Z) (key : bytes)
  (delete_id : Z) (val : bytes) : recv unit :=
  do! r := get_state in
  match h r !! key with
  | None =>
      do! _ := recv_data_new mem key in
      do! a := recv_datum_new mem key sync_id update_id delete_id val in
      modify (fun r => set_h (<[key := [a]]> (h r)) r)
  | Some l =>
      do! go := others_loop now key sync_id update_id delete_id l 0 in
      match go with
      | None => st_ret tt
      | Some t =>
          do! a := recv_datum_new mem key sync_id update_id delete_id val in
          do! _ := modify (fun r => set_h (<[key := list_of key r ++ [a]]> (h r)) r) in
          if negb (t =? 0) then put_on_timer a t else st_ret tt
      end
  end.

Definition kvpsync_recv_handle_update (mem : bool) (now : Z) (update : kvp_update_t)
  : recv kvp_ack_t :=
  let ack := mkAck (sync_id update) (update_id update) in
  let type := utype update in
  do! r := get_state in
  if negb (initial_sync_acked r) then
    if negb (type =? KVP_UPDATE_START) || negb (resync_id update =? recv_id r) then
      st_ret (mkAck (recv_id r) 0)
    else
      do! _ := modify (set_state (r_sync_id r) true (r_ok_expiry r)) in
      st_ret ack
  else
    do! _ := do_gc now in
    do! _ := modify (fun r =>
      if sync_id update =? r_sync_id r
      then set_state (r_sync_id r) true (Z.max (ok_expiry update) (r_ok_expiry r)) r else r) in
    if (type =? KVP_UPDATE_EMPTY) || (type =? KVP_UPDATE_START) then st_ret ack
    else if type =? KVP_UPDATE_FLUSH then
      do! _ := modify (fun r =>
        set_state (sync_id update) true (Z.max (r_ok_expiry r) (ok_expiry update)) r) in
      do! _ := flush_stale_data in
      st_ret ack
    else if (type =? KVP_UPDATE_INSERT) || (type =? KVP_UPDATE_DELETE) then
      do! _ := handle_recv_or_delete mem now (sync_id update) (update_id update) (key update)
                 (delete_id update) (val update) in
      st_ret ack
    else st_lift (Stop Fatal).

(** ** Answers *)

Inductive answer := NULL | UNSURE | Answer (v : bytes).
#[export] Instance answer_eq_dec : EqDecision answer.
Proof. solve_decision. Defined.

(** The datum with the highest update_id; [None] before any matches. *)
Fixpoint best_loop (sync_id : Z) (l : list addr) (ans : option bytes) (ans_update_id : Z)
  : recv (option bytes * Z) :=
  match l with
  | [] => st_ret (ans, ans_update_id)
  | a :: l =>
      do! d := deref a in
      if negb (d_sync_id d =? sync_id) then best_loop sync_id l ans ans_update_id
      else if d_update_id d <? ans_update_id then best_loop sync_id l ans ans_update_id
      else best_loop sync_id l (if d_delete_id d =? 0 then Some (d_val d) else None) (d_update_id d)
  end.

Definition kvpsync_recv_get_value (now : Z) (key : bytes) : recv answer :=
  do! _ := do_gc now in
  do! r := get_state in
  let no_information := if now <? r_ok_expiry r then NULL else UNSURE in
  if r_sync_id r =? 0 then st_ret UNSURE
  else
    match h r !! key with
    | None => st_ret no_information
    | Some l =>
        do! best := best_loop (r_sync_id r) l None 0 in
        if snd best =? 0 then st_ret no_information
        else
          match fst best with
          | None => st_ret no_information
          | Some v => st_ret (Answer v)
          end
    end.

(** ** What a sender sends *)

(** The packets of every sync, by their update_id. *)
Definition sender_log := Z -> Z -> option kvp_update_t.

(** Update ids count from 1; a deletion names an earlier insertion of its key. *)
Definition honest_packet (log : sender_log) (s i : Z) (p : kvp_update_t) : Prop :=
  sync_id p = s /\ update_id p = i /\ 1 <= i /\
  zlen (key p) <= KVPSYNC_MAX_LEN /\ zlen (val p) <= KVPSYNC_MAX_LEN /\
  (utype p = KVP_UPDATE_EMPTY \/ utype p = KVP_UPDATE_START \/ utype p = KVP_UPDATE_FLUSH \/
   utype p = KVP_UPDATE_INSERT /\ delete_id p = 0 \/
   utype p = KVP_UPDATE_DELETE /\ 1 <= delete_id p < i /\
     exists q, log s (delete_id p) = Some q /\ utype q = KVP_UPDATE_INSERT /\ key q = key p).
Definition honest (log : sender_log) : Prop :=
  forall s i p, log s i = Some p -> honest_packet log s i p.

(** The datum that a packet leaves. *)
Definition datum_of (p : kvp_update_t) (t : Z) : recv_datum_t :=
  mkDatum (key p) (sync_id p) (update_id p) (delete_id p) (val p) t.
Definition is_datum (p : kvp_update_t) : Prop :=
  utype p = KVP_UPDATE_INSERT \/ utype p = KVP_UPDATE_DELETE.
Definition from_log (log : sender_log) (d : recv_datum_t) : Prop :=
  exists p, log (d_sync_id d) (d_update_id d) = Some p /\ is_datum p /\ d = datum_of p (gc_time d).

(** A list without one of its elements. *)
Lemma without_in a b l : b ∈ without a l <-> b <> a /\ b ∈ l.
Proof. unfold without. by rewrite list_elem_of_filter. Qed.

Lemma without_nodup a l : NoDup l -> NoDup (without a l).
Proof. apply NoDup_filter. Qed.

Lemma without_cons a b l :
  without a (b :: l) = if decide (b = a) then without a l else b :: without a l.
Proof. unfold without. rewrite filter_cons. by destruct (decide (b = a)), (decide (b <> a)). Qed.

Lemma without_app a l k : without a (l ++ k) = without a l ++ without a k.
Proof. apply filter_app. Qed.

Lemma without_absent a l : a ∉ l -> without a l = l.
Proof.
  induction l as [|b l IH]; [done|]. intros Hn. unfold without in *. rewrite filter_cons.
  rewrite decide_True by set_solver. f_equal. apply IH. set_solver.
Qed.

Lemma without_head a l : NoDup (a :: l) -> without a (a :: l) = l.
Proof.
  intros Hd. inversion Hd; subst. unfold without. rewrite filter_cons, decide_False by auto.
  by apply (without_absent a l).
Qed.

(** ** Well-formed receivers *)

Section receiver.
Context (log : sender_log) (Hlog : honest log).

(** The lists of the keys partition the heap, there is one datum per packet, a
    deletion and what it deletes are never both there, and the gc list holds
    exactly the deletions that are on a timer. *)
Record wf (r : kvpsync_recv_t) : Prop := {
  wf_list : forall k l, h r !! k = Some l -> NoDup l;
  wf_in : forall k a, a ∈ list_of k r <-> exists d, heap r !! a = Some d /\ data d = k;
  wf_log : forall a d, heap r !! a = Some d -> a < next_addr r /\ from_log log d;
  wf_one : forall a b d e, heap r !! a = Some d -> heap r !! b = Some e ->
    d_sync_id d = d_sync_id e -> d_update_id d = d_update_id e -> a = b;
  wf_pair : forall a b d e, heap r !! a = Some d -> heap r !! b = Some e ->
    d_sync_id d = d_sync_id e -> d_delete_id d <> d_update_id e;
  wf_gc_list : NoDup (gc r);
  wf_gc : forall a, a ∈ gc r -> exists d, heap r !! a = Some d /\ gc_time d <> 0;
  wf_timer : forall a d, heap r !! a = Some d -> gc_time d <> 0 -> a ∈ gc r /\ d_delete_id d <> 0
}.

Lemma wf_init id : wf (recv_fresh id).
Proof.
  constructor; simpl; try done; try (by constructor); try set_solver.
Qed.

Lemma run_deref a d r : heap r !! a = Some d -> deref a r = (Ok d, r).
Proof. unfold deref. by intros ->. Qed.

Lemma run_touch r : wf r -> touch_gc r = (Ok tt, r).
Proof.
  intros Hw. unfold touch_gc. replace (forallb _ (gc r)) with true; [done|].
  symmetry. apply forallb_forall. intros a Ha. apply bool_decide_eq_true.
  destruct (wf_gc r Hw a) as (d & -> & _); [by apply list_elem_of_In|by eexists].
Qed.

(** The state after a datum is taken out. *)
Definition taken (k : bytes) (a : addr) (r : kvpsync_recv_t) : kvpsync_recv_t :=
  let l := without a (list_of k r) in
  set_h (match l with [] => delete k (h r) | _ => <[k := l]> (h r) end)
    (set_heap (delete a (heap r)) (set_gc (without a (gc r)) r)).

Lemma list_of_insert k l k' m r :
  h r = <[k := l]> m -> list_of k' r = if decide (k' = k) then l else default [] (m !! k').
Proof. unfold list_of. intros ->. case_decide; subst; [by rewrite lookup_insert_eq|by rewrite lookup_insert_ne]. Qed.

Lemma run_remove k a r :
  wf r -> data_remove_datum k a r = (Ok (negb (bool_decide (without a (list_of k r) = []))), taken k a r).
Proof.
  intros Hw. unfold data_remove_datum. rewrite (st_run _ _ _ _ _ (run_touch r Hw)).
  unfold modify, st_bind, get_state, unlink, free_datum, taken, st_ret. simpl.
  rewrite (list_of_insert k (without a (list_of k r)) k (h r)) by done. rewrite decide_True by done.
  unfold list_of. simpl. destruct (without a _) eqn:E; simpl; [|done].
  by rewrite delete_insert_eq.
Qed.

Lemma wf_taken k a d r : wf r -> heap r !! a = Some d -> data d = k -> wf (taken k a r).
Proof.
  intros Hw Ha Hk. pose proof Hw as [Hl Hin Hlg Hone Hp Hgl Hg Ht].
  assert (forall k', list_of k' (taken k a r) = if decide (k' = k) then without a (list_of k r) else list_of k' r) as El.
  { intros k'. unfold taken, list_of. simpl. destruct (without a _) eqn:E; case_decide; subst;
      rewrite ?lookup_delete_eq, ?lookup_insert_eq, ?lookup_delete_ne, ?lookup_insert_ne by done; done. }
  constructor; simpl.
  - intros k' l El'. assert (list_of k' (taken k a r) = l) as E by (unfold list_of; simpl; by rewrite El').
    rewrite El in E. subst l. assert (forall q, NoDup (list_of q r)) as Hq.
    { intros q. unfold list_of. destruct (h r !! q) eqn:Eq; simpl; [by eapply Hl|by constructor]. }
    case_decide; [by apply without_nodup|done].
  - intros k' b. rewrite El. case_decide as Ek.
    + rewrite without_in, Hin. subst k'. split.
      * intros (Hne & e & He & Hke). exists e. by rewrite lookup_delete_ne.
      * intros (e & He & Hke). apply lookup_delete_Some in He as [? ?]. eauto.
    + rewrite Hin. split.
      * intros (e & He & Hke). exists e. rewrite lookup_delete_ne; [done|]. intros ->. simplify_eq.
      * intros (e & He & Hke). apply lookup_delete_Some in He as [? ?]. eauto.
  - intros b e He. apply lookup_delete_Some in He as [_ He]. eauto.
  - intros b c e f He Hf. apply lookup_delete_Some in He as [_ He]. apply lookup_delete_Some in Hf as [_ Hf]. eauto.
  - intros b c e f He Hf. apply lookup_delete_Some in He as [_ He]. apply lookup_delete_Some in Hf as [_ Hf]. eauto.
  - by apply without_nodup.
  - intros b Hb. apply without_in in Hb as [Hne Hb]. destruct (Hg b Hb) as (e & He & Hte).
    exists e. by rewrite lookup_delete_ne.
  - intros b e He Hte. apply lookup_delete_Some in He as [Hne He]. destruct (Ht b e He Hte).
    split; [by apply without_in|done].
Qed.

(** ** Collection *)

Definition same_regs (r r' : kvpsync_recv_t) : Prop :=
  recv_id r' = recv_id r /\ r_sync_id r' = r_sync_id r /\
  initial_sync_acked r' = initial_sync_acked r /\ r_ok_expiry r' = r_ok_expiry r.

Lemma same_regs_trans r1 r2 r3 : same_regs r1 r2 -> same_regs r2 r3 -> same_regs r1 r3.
Proof. unfold same_regs. intuition congruence. Qed.

Lemma gc_loop_spec now l r :
  wf r -> gc r = l ->
  exists r', gc_loop now l r = (Ok tt, r') /\ wf r' /\ same_regs r r' /\ heap r' ⊆ heap r /\
    (forall a d, heap r !! a = Some d -> heap r' !! a = None -> gc_time d <> 0 /\ gc_time d <= now) /\
    ((forall a d, a ∈ gc r -> heap r !! a = Some d -> now < gc_time d) -> r' = r).
Proof.
  revert r. induction l as [|a l IH]; intros r Hw Hg.
  { exists r. split_and!; try done. intros b d H1 H2. by rewrite H1 in H2. }
  destruct (wf_gc r Hw a) as (d & Ha & Ht); [rewrite Hg; set_solver|].
  cbn [gc_loop]. rewrite (st_run _ _ _ _ _ (run_deref a d r Ha)).
  destruct (Z.ltb_spec now (gc_time d)) as [Hlt|Hle].
  { exists r. split_and!; try done. intros b e H1 H2. by rewrite H1 in H2. }
  rewrite (st_run _ _ _ _ _ (run_remove (data d) a r Hw)).
  pose proof (wf_taken (data d) a d r Hw Ha eq_refl) as Hw'.
  destruct (IH (taken (data d) a r) Hw') as (r' & -> & Hwr & Hs & Hsub & Hgone & _).
  { simpl. rewrite Hg. apply without_head. rewrite <- Hg. by apply wf_gc_list. }
  exists r'. split_and!; [done|done|by eapply same_regs_trans; [|exact Hs]| | |].
  - etrans; [exact Hsub|]. apply delete_subseteq.
  - intros b e Hb Hb'. destruct (decide (b = a)) as [->|Hne]; [by simplify_eq|].
    apply (Hgone b e); [|done]. simpl. by rewrite lookup_delete_ne.
  - intros H. specialize (H a d ltac:(rewrite Hg; set_solver) Ha). lia.
Qed.

Lemma do_gc_spec now r :
  wf r ->
  exists r', do_gc now r = (Ok tt, r') /\ wf r' /\ same_regs r r' /\ heap r' ⊆ heap r /\
    (forall a d, heap r !! a = Some d -> heap r' !! a = None -> gc_time d <> 0 /\ gc_time d <= now) /\
    ((forall a d, a ∈ gc r -> heap r !! a = Some d -> now < gc_time d) -> r' = r).
Proof. intros Hw. by apply (gc_loop_spec now (gc r) r). Qed.

(** A test that does not depend on the data. *)
Definition stable (f : kvpsync_recv_t -> recv_datum_t -> bool) : Prop :=
  forall r r' d, same_regs r r' -> f r' d = f r d.

Lemma list_of_nodup k r : wf r -> NoDup (list_of k r).
Proof.
  intros Hw. unfold list_of. destruct (h r !! k) eqn:E; simpl; [by eapply wf_list|by constructor].
Qed.

Lemma free_list_spec f k l r :
  stable f -> wf r -> NoDup l -> (forall a, a ∈ l -> a ∈ list_of k r) ->
  exists r', free_list f k l r = (Ok tt, r') /\ wf r' /\ same_regs r r' /\
    (forall a, heap r' !! a = match heap r !! a with
                              | Some d => if bool_decide (a ∈ l) && f r d then None else Some d
                              | None => None end).
Proof.
  intros Hf. revert r. induction l as [|a l IH]; intros r Hw Hd Hin.
  { exists r. split_and!; [done..|]. intros a. by destruct (heap r !! a). }
  inversion Hd as [|? ? Hna Hd']; subst.
  destruct (wf_in r Hw k a) as [Hx _]. destruct Hx as (d & Ha & Hk); [set_solver|].
  cbn [free_list]. unfold get_state at 1. rewrite (st_run _ _ r r r) by done.
  rewrite (st_run _ _ _ _ _ (run_deref a d r Ha)).
  assert (forall b (m : option recv_datum_t), b <> a ->
    match m with Some e => if bool_decide (b ∈ l) && f r e then None else Some e | None => None end =
    match m with Some e => if bool_decide (b ∈ a :: l) && f r e then None else Some e | None => None end) as Hskip.
  { intros b m Hne. destruct m; [|done]. rewrite (bool_decide_ext (b ∈ a :: l) (b ∈ l)); [done|set_solver]. }
  destruct (f r d) eqn:Ef.
  - rewrite (st_run _ _ _ _ _ (run_remove k a r Hw)).
    pose proof (wf_taken k a d r Hw Ha Hk) as Hw'.
    assert (forall b, b ∈ l -> b ∈ without a (list_of k r)) as Hl.
    { intros b Hb. apply without_in. split; [set_solver|]. apply Hin. set_solver. }
    assert (forall r', wf r' -> same_regs (taken k a r) r' ->
      (forall b, heap r' !! b = match heap (taken k a r) !! b with
         Some e => if bool_decide (b ∈ l) && f (taken k a r) e then None else Some e | None => None end) ->
      forall b, heap r' !! b = match heap r !! b with
         Some e => if bool_decide (b ∈ a :: l) && f r e then None else Some e | None => None end) as Hfin.
    { intros r' _ _ Hh b. rewrite Hh. simpl. destruct (decide (b = a)) as [->|Hne].
      - rewrite lookup_delete_eq, Ha. rewrite bool_decide_eq_true_2 by set_solver. by rewrite Ef.
      - rewrite lookup_delete_ne by done. rewrite <- Hskip by done.
        destruct (heap r !! b); [|done]. by rewrite (Hf r (taken k a r)). }
    case_bool_decide as El; cbn [negb].
    + exists (taken k a r). split_and!; [done|done|done|]. apply Hfin; [done|done|]. intros b.
      destruct (heap _ !! b); [|done]. rewrite bool_decide_eq_false_2; [done|].
      intros Hb. apply Hl in Hb. rewrite El in Hb. set_solver.
    + destruct (IH (taken k a r) Hw' Hd') as (r' & -> & Hwr & Hs & Hh).
      { intros b Hb. apply (wf_in _ Hw'). apply Hl in Hb. apply without_in in Hb as [Hne Hb].
        apply (wf_in r Hw) in Hb as (e & He & Hke). exists e. simpl. by rewrite lookup_delete_ne. }
      exists r'. split_and!; [done|done|done|]. by apply Hfin.
  - destruct (IH r Hw Hd') as (r' & -> & Hwr & Hs & Hh); [set_solver|].
    exists r'. split_and!; [done..|]. intros b. rewrite Hh.
    destruct (decide (b = a)) as [->|Hne]; [|by apply Hskip].
    rewrite Ha, Ef. by rewrite !andb_false_r.
Qed.

Lemma for_keys_spec f ks r :
  stable f -> wf r -> NoDup ks ->
  exists r', for_keys f ks r = (Ok tt, r') /\ wf r' /\ same_regs r r' /\
    (forall a, heap r' !! a = match heap r !! a with
                              | Some d => if bool_decide (data d ∈ ks) && f r d then None else Some d
                              | None => None end).
Proof.
  intros Hf. revert r. induction ks as [|k ks IH]; intros r Hw Hd.
  { exists r. split_and!; [done..|]. intros a. by destruct (heap r !! a). }
  inversion Hd as [|? ? Hnk Hd']; subst. cbn [for_keys].
  unfold get_state at 1. rewrite (st_run _ _ r r r) by done.
  destruct (free_list_spec f k (list_of k r) r Hf Hw (list_of_nodup k r Hw)) as (r1 & E1 & Hw1 & Hs1 & Hh1);
    [done|]. rewrite (st_run _ _ _ _ _ E1).
  destruct (IH r1 Hw1 Hd') as (r' & -> & Hw' & Hs' & Hh').
  exists r'. split_and!; [done|done|by eapply same_regs_trans|]. intros a. rewrite Hh', Hh1.
  destruct (heap r !! a) as [d|] eqn:Ea; [|done].
  assert (a ∈ list_of k r <-> data d = k) as Hin.
  { rewrite (wf_in r Hw). split; [intros (e & He & <-); by simplify_eq|eauto]. }
  destruct (decide (data d = k)) as [Ek|Ek].
  - rewrite (bool_decide_eq_true_2 (a ∈ _)) by tauto.
    rewrite (bool_decide_eq_true_2 (data d ∈ k :: ks)) by set_solver. cbn [andb].
    destruct (f r d); [done|]. rewrite bool_decide_eq_false_2; [done|]. by rewrite Ek.
  - rewrite (bool_decide_eq_false_2 (a ∈ _)) by tauto. cbn [andb]. rewrite (Hf r r1) by done.
    rewrite (bool_decide_ext (data d ∈ k :: ks) (data d ∈ ks)); [done|set_solver].
Qed.

Lemma for_each_spec f r :
  stable f -> wf r ->
  exists r', for_each_datum f r = (Ok tt, r') /\ wf r' /\ same_regs r r' /\
    (forall a, heap r' !! a = match heap r !! a with
                              | Some d => if f r d then None else Some d
                              | None => None end).
Proof.
  intros Hf Hw. unfold for_each_datum, get_state. rewrite (st_run _ _ r r r) by done.
  destruct (for_keys_spec f (map_to_list (h r)).*1 r Hf Hw (NoDup_fst_map_to_list _))
    as (r' & -> & Hw' & Hs & Hh).
  exists r'. split_and!; [done..|]. intros a. rewrite Hh. destruct (heap r !! a) as [d|] eqn:Ea; [|done].
  rewrite bool_decide_eq_true_2; [done|].
  assert (a ∈ list_of (data d) r) as Ha by (apply (wf_in r Hw); eauto).
  unfold list_of in Ha. destruct (h r !! data d) as [l|] eqn:Ek; [|simpl in Ha; set_solver].
  apply list_elem_of_fmap. exists (data d, l). split; [done|]. by apply elem_of_map_to_list.
Qed.

Lemma flush_stable : stable flush_should_free.
Proof. intros r r' d (_ & E & _). unfold flush_should_free. by rewrite E. Qed.

(** ** A new datum *)

(** Whether [d] is about the packet [p]: a duplicate, or one of the two is a
    deletion of the other. *)
Definition duplicate (p : kvp_update_t) (d : recv_datum_t) : Prop :=
  d_sync_id d = sync_id p /\ d_update_id d = update_id p.
Definition deleted_by (p : kvp_update_t) (d : recv_datum_t) : Prop :=
  d_sync_id d = sync_id p /\ delete_id p <> 0 /\ d_update_id d = delete_id p.
Definition deletes (p : kvp_update_t) (d : recv_datum_t) : Prop :=
  d_sync_id d = sync_id p /\ delete_id p = 0 /\ d_delete_id d = update_id p.
Definition concerns (p : kvp_update_t) (d : recv_datum_t) : Prop :=
  duplicate p d \/ deleted_by p d \/ deletes p d.

#[local] Instance concerns_dec p d : Decision (concerns p d).
Proof. unfold concerns, duplicate, deleted_by, deletes. apply _. Defined.

Abbreviation loop_for now p := (others_loop now (key p) (sync_id p) (update_id p) (delete_id p)).

Lemma others_skip now p l1 l2 t r :
  (forall a, a ∈ l1 -> exists d, heap r !! a = Some d /\ ~ concerns p d) ->
  loop_for now p (l1 ++ l2) t r = loop_for now p l2 t r.
Proof.
  induction l1 as [|a l1 IH]; intros H; [done|]. cbn [app others_loop].
  destruct (H a) as (d & Ha & Hn); [set_solver|]. rewrite (st_run _ _ _ _ _ (run_deref a d r Ha)).
  unfold concerns, duplicate, deleted_by, deletes in Hn.
  specialize (IH ltac:(set_solver)).
  destruct (Z.eqb_spec (d_sync_id d) (sync_id p)); cbn [negb]; [|done].
  destruct (Z.eqb_spec (d_update_id d) (update_id p)); [tauto|].
  destruct (Z.eqb_spec (delete_id p) 0); cbn [negb andb].
  - destruct (Z.eqb_spec (d_delete_id d) (update_id p)); [tauto|done].
  - destruct (Z.eqb_spec (d_update_id d) (delete_id p)); [tauto|done].
Qed.

Lemma others_none now p l t r :
  (forall a, a ∈ l -> exists d, heap r !! a = Some d /\ ~ concerns p d) ->
  loop_for now p l t r = (Ok (Some t), r).
Proof. intros H. rewrite <- (app_nil_r l). by rewrite others_skip. Qed.

(** The first datum of a list that a packet is about. *)
Lemma find_concerned p l r :
  (forall a, a ∈ l -> exists d, heap r !! a = Some d) ->
  (forall a, a ∈ l -> exists d, heap r !! a = Some d /\ ~ concerns p d) \/
  exists l1 a d l2, l = l1 ++ a :: l2 /\ heap r !! a = Some d /\ concerns p d /\
    (forall b, b ∈ l1 -> exists e, heap r !! b = Some e /\ ~ concerns p e).
Proof.
  induction l as [|a l IH]; intros H; [left; set_solver|].
  destruct (H a) as [d Ha]; [set_solver|]. destruct (decide (concerns p d)).
  - right. exists [], a, d, l. split_and!; [done|done|done|set_solver].
  - destruct IH as [Hn|(l1 & b & e & l2 & -> & Hb & Hc & Hp)]; [set_solver| |].
    + left. intros b Hb. apply elem_of_cons in Hb as [->|Hb]; eauto.
    + right. exists (a :: l1), b, e, l2. split_and!; [done|done|done|].
      intros c Hc'. apply elem_of_cons in Hc' as [->|Hc']; eauto.
Qed.

(** What the loop over the other data of the key does: nothing is about the packet;
    it is a duplicate; a deletion takes its insertion out and gets a timer; or an
    insertion finds its deletion, which gets a timer if it has none. *)
Inductive others_result (now : Z) (p : kvp_update_t) (r : kvpsync_recv_t)
  : option Z -> kvpsync_recv_t -> Prop :=
| others_new :
    (forall a d, heap r !! a = Some d -> data d = key p -> ~ concerns p d) ->
    others_result now p r (Some 0) r
| others_duplicate a d :
    heap r !! a = Some d -> duplicate p d -> others_result now p r None r
| others_deleted a d :
    heap r !! a = Some d -> data d = key p -> deleted_by p d ->
    (forall b e, heap r !! b = Some e -> ~ duplicate p e) ->
    others_result now p r (Some (u64 (now + GC_DELAY))) (free_datum a (unlink (key p) a r))
| others_canceled a d :
    heap r !! a = Some d -> deletes p d -> gc_time d <> 0 -> others_result now p r None r
| others_timer a d :
    heap r !! a = Some d -> deletes p d -> gc_time d = 0 ->
    others_result now p r None
      (set_gc (gc r ++ [a]) (set_heap (alter (set_gc_time (u64 (now + GC_DELAY))) a (heap r)) r)).

Lemma from_log_dup p d :
  log (sync_id p) (update_id p) = Some p -> from_log log d -> duplicate p d ->
  d = datum_of p (gc_time d).
Proof. intros Hp (q & Hq & _ & Hd) [Hs Hu]. rewrite Hs, Hu, Hp in Hq. by injection Hq as <-. Qed.

(** A datum that the packet deletes is not there together with the packet's own. *)
Lemma deleted_alone p r a d b e :
  wf r -> log (sync_id p) (update_id p) = Some p ->
  heap r !! a = Some d -> deleted_by p d -> heap r !! b = Some e -> ~ duplicate p e.
Proof.
  intros Hw Hp Ha (Hs & _ & Hu) Hb Hdup. destruct (wf_log r Hw b e Hb) as [_ Hl].
  pose proof (from_log_dup p e Hp Hl Hdup) as He. destruct Hdup as [Hse _].
  apply (wf_pair r Hw b a e d Hb Ha); [congruence|]. rewrite He. simpl. by rewrite Hu.
Qed.

Lemma run_timer a d t r :
  wf r -> heap r !! a = Some d ->
  put_on_timer a t r = (Ok tt, set_gc (gc r ++ [a]) (set_heap (alter (set_gc_time t) a (heap r)) r)).
Proof.
  intros Hw Ha. unfold put_on_timer. rewrite (st_run _ _ _ _ _ (run_deref a d r Ha)).
  by rewrite (st_run _ _ _ _ _ (run_touch r Hw)).
Qed.

Lemma others_spec now p r :
  wf r -> log (sync_id p) (update_id p) = Some p ->
  exists o r', loop_for now p (list_of (key p) r) 0 r = (Ok o, r') /\ others_result now p r o r'.
Proof.
  intros Hw Hp.
  assert (forall a, a ∈ list_of (key p) r -> exists d, heap r !! a = Some d /\ data d = key p) as Hin
    by (intros a; apply (wf_in r Hw)).
  destruct (find_concerned p (list_of (key p) r) r) as [Hn|(l1 & a & d & l2 & El & Ha & Hc & Hp1)];
    [intros a H; destruct (Hin a H) as (d & ? & _); eauto| |].
  - exists (Some 0), r. split; [by apply others_none|]. apply others_new. intros a d Ha Hk Hc.
    destruct (Hn a) as (e & He & Hne); [apply (wf_in r Hw); eauto|]. by simplify_eq.
  - pose proof (list_of_nodup (key p) r Hw) as Hd. rewrite El in Hd |- *. rewrite others_skip by done.
    destruct (Hin a) as (d' & Ha' & Hk); [rewrite El; set_solver|].
    assert (d' = d) as -> by congruence. clear Ha'.
    cbn [others_loop]. rewrite (st_run _ _ _ _ _ (run_deref a d r Ha)).
    assert (d_sync_id d = sync_id p) as Hs by (destruct Hc as [[]|[[]|[]]]; done).
    rewrite Hs, Z.eqb_refl. cbn [negb].
    destruct (Z.eqb_spec (d_update_id d) (update_id p)) as [Hu|Hu].
    { exists None, r. split; [done|]. by eapply others_duplicate. }
    destruct (Z.eqb_spec (delete_id p) 0) as [H0|H0]; cbn [negb andb].
    + assert (d_delete_id d = update_id p) as Hdel
        by (destruct Hc as [[]|[(_ & ? & _)|(_ & _ & ?)]]; done).
      rewrite Hdel, Z.eqb_refl. destruct (Z.eqb_spec (gc_time d) 0) as [Ht|Ht]; cbn [negb].
      * rewrite (st_run _ _ _ _ _ (run_timer a d _ r Hw Ha)). eexists _, _. split; [done|].
        by eapply others_timer.
      * exists None, r. split; [done|]. by eapply others_canceled.
    + assert (d_update_id d = delete_id p) as Hdel
        by (destruct Hc as [[]|[(_ & _ & ?)|(_ & ? & _)]]; done).
      rewrite Hdel, Z.eqb_refl. unfold modify.
      assert (deleted_by p d) as Hby by done.
      rewrite (st_run _ _ r tt (unlink (key p) a r)) by done.
      rewrite (st_run _ _ _ tt (free_datum a (unlink (key p) a r))) by done.
      eexists _, _. split; 
        [|eapply others_deleted; [done|done|done|intros b e He; by eapply (deleted_alone p r a d b e)]].
      apply others_none. intros b Hb. apply NoDup_app in Hd as (_ & _ & Hd). inversion Hd; subst.
      destruct (Hin b) as (e & He & Hke); [rewrite El; set_solver|]. exists e.
      assert (b <> a) as Hne by set_solver. split; [simpl; by rewrite lookup_delete_ne|].
      intros [Hdup|[(Hse & _ & Hue)|(_ & ? & _)]]; [|apply Hne; eapply wf_one; eauto; congruence|done].
      by eapply (deleted_alone p r a d b e).
Qed.

(** ** Keeping receivers well formed *)

(** Only the gc time of a datum changes when it is put on a timer. *)
Lemma timed_lookup a t (m : gmap addr recv_datum_t) b e :
  alter (set_gc_time t) a m !! b = Some e <->
  exists d, m !! b = Some d /\ e = if bool_decide (b = a) then set_gc_time t d else d.
Proof.
  case_bool_decide; subst.
  - rewrite lookup_alter_eq. destruct (m !! a); simpl; naive_solver.
  - rewrite lookup_alter_ne by done. naive_solver.
Qed.

Lemma from_log_timed t d : from_log log d -> from_log log (set_gc_time t d).
Proof. intros (p & H1 & H2 & H3). exists p. split_and!; [done..|]. by rewrite H3. Qed.

Lemma wf_timed a d t r :
  wf r -> heap r !! a = Some d -> gc_time d = 0 -> d_delete_id d <> 0 -> t <> 0 ->
  wf (set_gc (gc r ++ [a]) (set_heap (alter (set_gc_time t) a (heap r)) r)).
Proof.
  intros Hw Ha Ht Hd Hne. pose proof Hw as [Hl Hin Hlg Hone Hp Hgl Hg Htm].
  constructor; simpl.
  - done.
  - intros k b. etrans; [exact (Hin k b)|]. split.
    + intros (e & He & Hk). eexists. rewrite timed_lookup. split; [eauto|]. by case_bool_decide.
    + intros (e & He & Hk). apply timed_lookup in He as (e' & He & ->). exists e'. by case_bool_decide.
  - intros b e He. apply timed_lookup in He as (e' & He & ->). destruct (Hlg b e' He).
    case_bool_decide; [|done]. split; [done|by apply from_log_timed].
  - intros b c e f He Hf. apply timed_lookup in He as (e' & He & ->).
    apply timed_lookup in Hf as (f' & Hf & ->). intros. eapply Hone; [exact He|exact Hf|..];
      destruct (bool_decide (b = a)), (bool_decide (c = a)); done.
  - intros b c e f He Hf. apply timed_lookup in He as (e' & He & ->).
    apply timed_lookup in Hf as (f' & Hf & ->). pose proof (Hp b c e' f' He Hf).
    destruct (bool_decide (b = a)), (bool_decide (c = a)); done.
  - apply NoDup_app. split_and!; [done| |apply NoDup_singleton].
    intros b Hb Hb'. apply list_elem_of_singleton in Hb' as ->. destruct (Hg a Hb) as (e & He & Hte).
    by simplify_eq.
  - intros b Hb. apply elem_of_app in Hb as [Hb|Hb].
    + destruct (Hg b Hb) as (e & He & Hte). eexists. rewrite timed_lookup. split; [eauto|].
      by case_bool_decide.
    + apply list_elem_of_singleton in Hb as ->. eexists. rewrite timed_lookup. split; [eauto|].
      by rewrite bool_decide_eq_true_2.
  - intros b e He Hte. apply timed_lookup in He as (e' & He & ->). case_bool_decide as Eb.
    + subst. simplify_eq. split; [set_solver|done].
    + destruct (Htm b e' He Hte). split; [set_solver|done].
Qed.

Lemma wf_unlinked a d r :
  wf r -> heap r !! a = Some d -> gc_time d = 0 -> wf (free_datum a (unlink (data d) a r)).
Proof.
  intros Hw Ha Ht. pose proof Hw as [Hl Hin Hlg Hone Hp Hgl Hg Htm].
  assert (forall k, list_of k (free_datum a (unlink (data d) a r)) =
    if decide (k = data d) then without a (list_of (data d) r) else list_of k r) as El.
  { intros k. by apply (list_of_insert _ _ k (h r)). }
  assert (forall b e, delete a (heap r) !! b = Some e <-> b <> a /\ heap r !! b = Some e) as Ed.
  { intros b e. rewrite lookup_delete_Some. naive_solver. }
  constructor; simpl.
  - intros k l Ek. pose proof (El k) as E. unfold list_of in E at 1. simpl in E. rewrite Ek in E.
    simpl in E. subst l. case_decide; [by apply without_nodup, list_of_nodup|by apply list_of_nodup].
  - intros k b. rewrite El. setoid_rewrite Ed. case_decide as Ek.
    + rewrite without_in, Hin. subst. naive_solver.
    + rewrite Hin. naive_solver.
  - intros b e He. apply Ed in He as [_ He]. eauto.
  - intros b c e f He Hf. apply Ed in He as [_ He]. apply Ed in Hf as [_ Hf]. eauto.
  - intros b c e f He Hf. apply Ed in He as [_ He]. apply Ed in Hf as [_ Hf]. eauto.
  - done.
  - intros b Hb. destruct (Hg b Hb) as (e & He & Hte). exists e. split; [|done]. apply Ed.
    split; [|done]. intros ->. by simplify_eq.
  - intros b e He Hte. apply Ed in He as [Hne He]. eauto.
Qed.

(** The state with a new datum at the end of its key's list. *)
Definition added (p : kvp_update_t) (r : kvpsync_recv_t) : kvpsync_recv_t :=
  let a := next_addr r in
  mkRecv (<[a := datum_of p 0]> (heap r)) (a + 1)
    (<[key p := list_of (key p) r ++ [a]]> (h r)) (recv_id r) (r_sync_id r)
    (initial_sync_acked r) (r_ok_expiry r) (gc r).

(** Two data of one sync are only about each other when they have the same key. *)
Lemma concerns_key p d :
  log (sync_id p) (update_id p) = Some p -> is_datum p -> from_log log d -> concerns p d ->
  data d = key p.
Proof.
  intros Hp Hdt (q & Hq & Hdq & Hd) Hc. rewrite Hd. simpl.
  destruct (Hlog _ _ _ Hp) as (_ & _ & Hi & _ & _ & Ht).
  destruct (Hlog _ _ _ Hq) as (_ & _ & Hiq & _ & _ & Htq).
  destruct Hc as [[Hs Hu]|[(Hs & Hn & Hu)|(Hs & H0 & Hu)]].
  - rewrite Hs, Hu, Hp in Hq. by injection Hq as <-.
  - destruct Ht as [E|[E|[E|[[_ E]|(_ & _ & q' & Hq' & _ & <-)]]]];
      try (destruct Hdt as [E'|E']; rewrite E in E'; done); [done|].
    rewrite <- Hu, <- Hs, Hq in Hq'. by injection Hq' as <-.
  - rewrite Hd in Hu. simpl in Hu.
    destruct Htq as [E|[E|[E|[[_ E]|(_ & _ & q' & Hq' & _ & Hk)]]]];
      try (destruct Hdq as [E'|E']; rewrite E in E'; done); [lia|].
    rewrite Hu, Hs, Hp in Hq'. by injection Hq' as ->.
Qed.

Lemma not_concerned p r :
  wf r -> log (sync_id p) (update_id p) = Some p -> is_datum p ->
  (forall a d, heap r !! a = Some d -> data d = key p -> ~ concerns p d) ->
  forall a d, heap r !! a = Some d -> ~ concerns p d.
Proof.
  intros Hw Hp Hdt Hn a d Ha Hc. apply (Hn a d Ha); [|done].
  eapply concerns_key; eauto. by apply (wf_log r Hw a).
Qed.

Lemma wf_added p r :
  wf r -> log (sync_id p) (update_id p) = Some p -> is_datum p ->
  (forall a d, heap r !! a = Some d -> ~ concerns p d) -> wf (added p r).
Proof.
  intros Hw Hlp Hdt Hn. pose proof Hw as [Hl Hin Hlg Hone Hp Hgl Hg Htm].
  destruct (Hlog _ _ _ Hlp) as (_ & _ & Hi & _ & _ & Ht).
  assert (heap r !! next_addr r = None) as Hfresh.
  { destruct (heap r !! next_addr r) eqn:E; [|done]. destruct (Hlg _ _ E). lia. }
  assert (forall k, list_of k (added p r) =
    if decide (k = key p) then list_of (key p) r ++ [next_addr r] else list_of k r) as El.
  { intros k. by apply (list_of_insert _ _ k (h r)). }
  assert (forall b e, <[next_addr r := datum_of p 0]> (heap r) !! b = Some e <->
    b = next_addr r /\ e = datum_of p 0 \/ b <> next_addr r /\ heap r !! b = Some e) as Ei.
  { intros b e. rewrite lookup_insert_Some. naive_solver. }
  assert (delete_id p <> update_id p) as Hself.
  { destruct Ht as [E|[E|[E|[[_ E]|(_ & ? & _)]]]]; try lia;
      destruct Hdt as [E'|E']; rewrite E in E'; done. }
  unfold concerns, duplicate, deleted_by, deletes in Hn.
  constructor; simpl.
  - intros k l Ek. pose proof (El k) as E. unfold list_of in E at 1. simpl in E. rewrite Ek in E.
    simpl in E. subst l. case_decide; [|by apply list_of_nodup].
    apply NoDup_app. split_and!; [by apply list_of_nodup| |apply NoDup_singleton].
    intros b Hb Hb'. apply list_elem_of_singleton in Hb' as ->. apply Hin in Hb as (e & He & _).
    by rewrite Hfresh in He.
  - intros k b. rewrite El. setoid_rewrite Ei. case_decide as Ek.
    + rewrite elem_of_app, list_elem_of_singleton, Hin. subst k. split.
      * intros [(e & He & Hke)| ->]; [|by eexists; split; [left|]].
        exists e. split; [|done]. right. split; [|done]. intros ->. by rewrite Hfresh in He.
      * intros (e & [[-> ->]|[? He]] & Hke); [by right|left; eauto].
    + rewrite Hin. split.
      * intros (e & He & Hke). exists e. split; [|done]. right. split; [|done].
        intros ->. by rewrite Hfresh in He.
      * intros (e & [[-> ->]|[? He]] & Hke); [by destruct Ek|eauto].
  - intros b e He. apply Ei in He as [[-> ->]|[_ He]].
    + split; [lia|]. exists p. by split_and!.
    + destruct (Hlg b e He). split; [lia|done].
  - intros b c e f He Hf. apply Ei in He as [[-> ->]|[_ He]], Hf as [[-> ->]|[_ Hf]]; simpl;
      [done|intros; exfalso..|by eapply Hone].
    + apply (Hn c f Hf). left. by split.
    + apply (Hn b e He). left. by split.
  - intros b c e f He Hf. apply Ei in He as [[-> ->]|[_ He]], Hf as [[-> ->]|[_ Hf]]; simpl;
      [done|intros Hs Hx; exfalso..|by eapply Hp].
    + destruct (Hlg c f Hf) as [_ (q & Hq & _ & Hfd)]. destruct (Hlog _ _ _ Hq) as (_ & _ & ? & _).
      apply (Hn c f Hf). right. left. split_and!; [done|lia|done].
    + apply (Hn b e He). destruct (Z.eq_dec (delete_id p) 0); [right; right; by split_and!|].
      (* a deletion of a deletion *)
      destruct (Hlg b e He) as [_ (q & Hq & _ & He')]. rewrite He' in Hx. simpl in Hx.
      destruct (Hlog _ _ _ Hq) as (_ & _ & _ & _ & _ & Htq).
      destruct Htq as [E|[E|[E|[[_ E]|(_ & _ & q' & Hq' & Htq' & _)]]]];
        [exfalso|exfalso|exfalso|lia|].
      1-3: destruct (Hlg b e He) as [_ (q2 & Hq2 & Hd2 & _)]; rewrite Hq in Hq2; injection Hq2 as <-;
        destruct Hd2 as [E'|E']; rewrite E in E'; done.
      exfalso. rewrite Hx, Hs, Hlp in Hq'. injection Hq' as <-.
      destruct Ht as [E|[E|[E|[[_ E]|(E & _)]]]]; try (rewrite Htq' in E; done); lia.
  - done.
  - intros b Hb. destruct (Hg b Hb) as (e & He & Hte). exists e. split; [|done]. apply Ei. right.
    split; [|done]. intros ->. by rewrite Hfresh in He.
  - intros b e He Hte. apply Ei in He as [[-> ->]|[_ He]]; [done|eauto].
Qed.

(** ** Handling an insertion or a deletion *)

(** What a packet does to the data. *)
Inductive handled (now : Z) (p : kvp_update_t) (m : gmap addr recv_datum_t)
  : gmap addr recv_datum_t -> Prop :=
| handled_new a :
    m !! a = None -> (forall b e, m !! b = Some e -> ~ concerns p e) ->
    handled now p m (<[a := datum_of p 0]> m)
| handled_duplicate a d : m !! a = Some d -> duplicate p d -> handled now p m m
| handled_deletion a d b :
    m !! a = Some d -> deleted_by p d -> (forall c e, m !! c = Some e -> ~ duplicate p e) ->
    m !! b = None -> 
    handled now p m (<[b := datum_of p (u64 (now + GC_DELAY))]> (delete a m))
| handled_canceled a d : m !! a = Some d -> deletes p d -> gc_time d <> 0 -> handled now p m m
| handled_timer a d :
    m !! a = Some d -> deletes p d -> gc_time d = 0 ->
    handled now p m (alter (set_gc_time (u64 (now + GC_DELAY))) a m).

Lemma run_datum_new p (k : bytes) r :
  zlen (val p) <= KVPSYNC_MAX_LEN ->
  recv_datum_new true k (sync_id p) (update_id p) (delete_id p) (val p) r
  = (Ok (next_addr r), mkRecv (<[next_addr r := mkDatum k (sync_id p) (update_id p) (delete_id p) (val p) 0]> (heap r))
       (next_addr r + 1) (h r) (recv_id r) (r_sync_id r) (initial_sync_acked r) (r_ok_expiry r) (gc r)).
Proof.
  intros Hv. unfold recv_datum_new. by destruct (Z.gtb_spec (zlen (val p)) KVPSYNC_MAX_LEN); [lia|].
Qed.

Lemma run_datum_fail p (k : bytes) r :
  zlen (val p) <= KVPSYNC_MAX_LEN ->
  recv_datum_new false k (sync_id p) (update_id p) (delete_id p) (val p) r = (Err E_NOMEM, r).
Proof.
  intros Hv. unfold recv_datum_new. by destruct (Z.gtb_spec (zlen (val p)) KVPSYNC_MAX_LEN); [lia|].
Qed.

(** The list of the key exists or not: the new datum comes at its end. *)
Lemma run_append p r :
  zlen (val p) <= KVPSYNC_MAX_LEN ->
  (do! a := recv_datum_new true (key p) (sync_id p) (update_id p) (delete_id p) (val p) in
   modify (fun r => set_h (<[key p := list_of (key p) r ++ [a]]> (h r)) r)) r = (Ok tt, added p r).
Proof. intros Hv. by rewrite (st_run _ _ _ _ _ (run_datum_new p (key p) r Hv)). Qed.

Lemma timer_nonzero now : 0 <= now < 2 ^ 63 -> u64 (now + GC_DELAY) = now + GC_DELAY /\ now + GC_DELAY <> 0.
Proof. intros. unfold GC_DELAY. rewrite u64_small; [lia|]. unfold is_u64. lia. Qed.

Lemma deleted_is_insert p r a d :
  wf r -> log (sync_id p) (update_id p) = Some p -> is_datum p -> heap r !! a = Some d -> deleted_by p d ->
  gc_time d = 0 /\ data d = key p /\ delete_id p <> 0.
Proof.
  intros Hw Hlp Hdt Ha Hby. destruct (wf_log r Hw a d Ha) as [_ Hl].
  split; [|split; [|by destruct Hby as (_ & ? & _)]].
  - destruct (Z.eq_dec (gc_time d) 0) as [|Ht]; [done|exfalso].
    destruct (wf_timer r Hw a d Ha Ht) as [_ Hdd].
    destruct (Hlog _ _ _ Hlp) as (_ & _ & _ & _ & _ & Hty).
    destruct Hby as (Hs & Hn & Hu). destruct Hl as (q & Hq & _ & Hd). rewrite Hd in Hdd. simpl in Hdd.
    destruct (Hlog _ _ _ Hq) as (_ & _ & _ & _ & _ & Htq). rewrite Hs, Hu in Hq.
    destruct Hty as [E|[E|[E|[[_ E]|(_ & _ & q' & Hq' & Htq' & _)]]]];
      try (destruct Hdt as [E'|E']; rewrite E in E'; done); [lia|].
    rewrite Hq in Hq'. injection Hq' as <-.
    destruct Htq as [E|[E|[E|[[_ E]|(E & _)]]]]; try (rewrite Htq' in E; done); lia.
  - eapply (concerns_key p d); try done. by right; left.
Qed.

Lemma deletes_is_delete p r a d :
  wf r -> log (sync_id p) (update_id p) = Some p -> heap r !! a = Some d -> deletes p d ->
  d_delete_id d <> 0.
Proof.
  intros Hw Hlp Ha (_ & _ & E). rewrite E. destruct (Hlog _ _ _ Hlp) as (_ & _ & ? & _). lia.
Qed.

(** The packet is added after the loop, on a timer when it deleted something. *)
Lemma handle_deleted now p r a d :
  wf r -> log (sync_id p) (update_id p) = Some p -> is_datum p -> 0 <= now < 2 ^ 63 ->
  heap r !! a = Some d -> deleted_by p d ->
  let r1 := free_datum a (unlink (key p) a r) in
  let r2 := added p r1 in
  let r3 := set_gc (gc r2 ++ [next_addr r1])
              (set_heap (alter (set_gc_time (u64 (now + GC_DELAY))) (next_addr r1) (heap r2)) r2) in
  wf r1 /\ wf r2 /\ wf r3 /\ handled now p (heap r) (heap r3) /\
  put_on_timer (next_addr r1) (u64 (now + GC_DELAY)) r2 = (Ok tt, r3).
Proof.
  intros Hw Hlp Hdt Hnow Ha Hby r1 r2 r3.
  destruct (deleted_is_insert p r a d Hw Hlp Hdt Ha Hby) as (Ht & Hk & Hn).
  assert (wf r1) as Hw1 by (unfold r1; rewrite <- Hk; by apply wf_unlinked).
  assert (wf r2) as Hw2.
  { apply wf_added; [done..|]. intros b e He Hc. unfold r1 in He. simpl in He.
    apply lookup_delete_Some in He as [Hne He].
    destruct Hc as [Hd|[Hd|(_ & ? & _)]]; [by eapply (deleted_alone p r a d b e)| |done].
    destruct Hby as (Hs & _ & Hu), Hd as (Hse & _ & Hue). apply Hne, (wf_one r Hw a b d e Ha He); congruence. }
  destruct (timer_nonzero now Hnow) as [Eu Hnz].
  assert (heap r2 !! next_addr r1 = Some (datum_of p 0)) as Hnew by apply lookup_insert_eq.
  split_and!; [done|done| | |by eapply run_timer].
  - eapply wf_timed; [done|exact Hnew|done..|]. by rewrite Eu.
  - unfold r3. simpl.
    assert (alter (set_gc_time (u64 (now + GC_DELAY))) (next_addr r)
             (<[next_addr r := datum_of p 0]> (delete a (heap r)))
            = <[next_addr r := datum_of p (u64 (now + GC_DELAY))]> (delete a (heap r))) as ->.
    { by rewrite alter_insert_eq. }
    eapply handled_deletion; [exact Ha|done| |].
    + intros c e He. by eapply (deleted_alone p r a d c e).
    + destruct (heap r !! next_addr r) eqn:E; [|done]. apply (wf_log r Hw) in E as [? _]. lia.
Qed.

Lemma handle_spec mem now p r :
  wf r -> log (sync_id p) (update_id p) = Some p -> is_datum p -> 0 <= now < 2 ^ 63 ->
  exists res r', handle_recv_or_delete mem now (sync_id p) (update_id p) (key p) (delete_id p) (val p) r
      = (res, r') /\ wf r' /\ same_regs r r' /\
    (if mem then res = Ok tt /\ handled now p (heap r) (heap r') else res = Ok tt \/ res = Err E_NOMEM).
Proof.
  intros Hw Hlp Hdt Hnow. destruct (Hlog _ _ _ Hlp) as (_ & _ & _ & Hkl & Hvl & _).
  assert (heap r !! next_addr r = None) as Hfresh.
  { destruct (heap r !! next_addr r) eqn:E; [|done]. apply (wf_log r Hw) in E as [? _]. lia. }
  unfold handle_recv_or_delete, get_state. rewrite (st_run _ _ r r r) by done.
  destruct (h r !! key p) as [l|] eqn:El.
  - assert (list_of (key p) r = l) as <- by (unfold list_of; by rewrite El).
    destruct (others_spec now p r Hw Hlp) as (o & r1 & E & Hres).
    rewrite (st_run _ _ _ _ _ E).
    destruct Hres as [Hn|a d Ha Hd|a d Ha Hk Hby Hnd|a d Ha Hds Ht|a d Ha Hds Ht].
    + pose proof (not_concerned p r Hw Hlp Hdt Hn) as Hn'.
      destruct mem; [|rewrite (st_fail_bind _ _ _ _ _ (run_datum_fail p (key p) r Hvl));
        eexists _, r; split_and!; [done|done|done|by right]].
      rewrite (st_run _ _ _ _ _ (run_datum_new p (key p) r Hvl)).
      exists (Ok tt), (added p r). split_and!; [done|by apply wf_added|done|done|by apply handled_new].
    + exists (Ok tt), r. split_and!; try done. destruct mem; [split; [done|by eapply handled_duplicate]|by left].
    + destruct (handle_deleted now p r a d Hw Hlp Hdt Hnow Ha Hby) as (Hw1 & Hw2 & Hw3 & Hh & Et).
      destruct mem; [|rewrite (st_fail_bind _ _ _ _ _ (run_datum_fail p (key p) _ Hvl));
        eexists _, _; split_and!; [done|done|done|by right]].
      rewrite (st_run _ _ _ _ _ (run_datum_new p (key p) _ Hvl)).
      destruct (timer_nonzero now Hnow) as [Eu Hnz].
      destruct (Z.eqb_spec (u64 (now + GC_DELAY)) 0); [lia|].
      unfold modify at 1. rewrite (st_run _ _ _ tt (added p (free_datum a (unlink (key p) a r)))) by done.
      cbn [negb]. exists (Ok tt). eexists. split_and!; [exact Et|done|done|done|done].
    + exists (Ok tt), r. split_and!; try done. destruct mem; [split; [done|by eapply handled_canceled]|by left].
    + eexists (Ok tt), _. split_and!; [done| |done|].
      * destruct (timer_nonzero now Hnow) as [Eu Hnz].
        eapply wf_timed; [done|exact Ha|done|by eapply (deletes_is_delete p r)|by rewrite Eu].
      * destruct mem; [split; [done|by eapply handled_timer]|by left].
  - assert (list_of (key p) r = []) as Enil by (unfold list_of; by rewrite El).
    assert (forall a d, heap r !! a = Some d -> ~ concerns p d) as Hn.
    { apply (not_concerned p r Hw Hlp Hdt). intros a d Ha Hk.
      assert (a ∈ list_of (key p) r) as Hin by (apply (wf_in r Hw); eauto). rewrite Enil in Hin. set_solver. }
    unfold recv_data_new. destruct (Z.gtb_spec (zlen (key p)) KVPSYNC_MAX_LEN); [lia|].
    destruct mem; cbn [negb].
    + rewrite (st_run _ _ r tt r) by done.
      rewrite (st_run _ _ _ _ _ (run_datum_new p (key p) r Hvl)). unfold modify.
      assert (added p r = set_h (<[key p := [next_addr r]]> (h r))
        (mkRecv (<[next_addr r := datum_of p 0]> (heap r)) (next_addr r + 1) (h r) (recv_id r)
           (r_sync_id r) (initial_sync_acked r) (r_ok_expiry r) (gc r))) as Ea
        by (unfold added; by rewrite Enil).
      eexists (Ok tt), (added p r). rewrite Ea at 1. split_and!; [done|by apply wf_added|done|done|by apply handled_new].
    + rewrite (st_fail_bind _ _ r E_NOMEM r) by done. eexists _, r. split_and!; [done|done|done|by right].
Qed.

(** ** Whole updates *)

(** The heap and lists of two states are the same. *)
Lemma wf_regs s acked e r : wf r -> wf (set_state s acked e r).
Proof. by intros []. Qed.

(** A packet that is sent again has another expiry. *)
Definition strip (p : kvp_update_t) : kvp_update_t :=
  mkUpdate 0 (sync_id p) (update_id p) (utype p) (resync_id p) (key p) (delete_id p) (val p).

(** An update of a receiver that is past its START, by type. *)
Lemma update_spec mem now p r :
  wf r -> log (sync_id p) (update_id p) = Some (strip p) -> 0 <= now < 2 ^ 63 ->
  initial_sync_acked r = true ->
  exists res r0 r', do_gc now r = (Ok tt, r0) /\ wf r0 /\ same_regs r r0 /\
    kvpsync_recv_handle_update mem now p r = (res, r') /\ wf r' /\
    initial_sync_acked r' = true /\ recv_id r' = recv_id r /\
    (res = Ok (mkAck (sync_id p) (update_id p)) \/ mem = false /\ res = Err E_NOMEM) /\
    r_sync_id r' = (if utype p =? KVP_UPDATE_FLUSH then sync_id p else r_sync_id r) /\
    r_ok_expiry r' = (if (sync_id p =? r_sync_id r) || (utype p =? KVP_UPDATE_FLUSH)
                      then Z.max (ok_expiry p) (r_ok_expiry r) else r_ok_expiry r) /\
    (if utype p =? KVP_UPDATE_FLUSH then
       forall a, heap r' !! a = match heap r0 !! a with
                                | Some d => if d_sync_id d =? sync_id p then Some d else None
                                | None => None end
     else if (utype p =? KVP_UPDATE_INSERT) || (utype p =? KVP_UPDATE_DELETE) then
       mem = true -> handled now (strip p) (heap r0) (heap r')
     else heap r' = heap r0).
Proof.
  intros Hw Hlp Hnow Hack. destruct (do_gc_spec now r Hw) as (r0 & Eg & Hw0 & Hs0 & _).
  pose proof Hs0 as (Hid & Hsync & Hack0 & Hok).
  set (r1 := if sync_id p =? r_sync_id r0
             then set_state (r_sync_id r0) true (Z.max (ok_expiry p) (r_ok_expiry r0)) r0 else r0).
  assert (wf r1) as Hw1 by (unfold r1; case_match; [by apply wf_regs|done]).
  assert (r_sync_id r1 = r_sync_id r0 /\ recv_id r1 = recv_id r0 /\ heap r1 = heap r0 /\
    initial_sync_acked r1 = true /\
    r_ok_expiry r1 = if sync_id p =? r_sync_id r0 then Z.max (ok_expiry p) (r_ok_expiry r0) else r_ok_expiry r0)
    as (H1s & H1i & H1h & H1a & H1e) by (unfold r1; case_match; simpl; split_and!; congruence).
  unfold kvpsync_recv_handle_update, get_state. rewrite (st_run _ _ r r r) by done.
  rewrite Hack. cbn [negb]. rewrite (st_run _ _ _ _ _ Eg). unfold modify at 1.
  rewrite (st_run _ _ r0 tt r1) by done.
  destruct (Hlog _ _ _ Hlp) as (_ & _ & _ & _ & _ & Hty). cbn [strip utype delete_id] in Hty.
  rewrite Hsync, Hok in H1e.
  destruct Hty as [E|[E|[E|Hty]]].
  - rewrite E. cbn. eexists _, r0, r1. split_and!; try done; try congruence; [by left|].
    by rewrite orb_false_r.
  - rewrite E. cbn. eexists _, r0, r1. split_and!; try done; try congruence; [by left|].
    by rewrite orb_false_r.
  - rewrite E. cbn [Z.eqb Pos.eqb orb KVP_UPDATE_FLUSH KVP_UPDATE_EMPTY KVP_UPDATE_START]. unfold modify.
    set (r2 := set_state (sync_id p) true (Z.max (r_ok_expiry r1) (ok_expiry p)) r1).
    rewrite (st_run _ _ r1 tt r2) by done.
    destruct (for_each_spec flush_should_free r2 flush_stable (wf_regs _ _ _ _ Hw1)) as (r3 & Ef & Hw3 & Hs3 & Hh3).
    unfold flush_stale_data. rewrite (st_run _ _ _ _ _ Ef). pose proof Hs3 as (Hi3 & Hsy3 & Ha3 & He3).
    eexists _, r0, r3. split_and!; try done; try (by left); try (by rewrite ?Ha3, ?Hi3, ?Hsy3; simpl; congruence).
    + rewrite He3. simpl. rewrite H1e, orb_true_r. case_match; lia.
    + intros a. rewrite Hh3. simpl. rewrite H1h. destruct (heap r0 !! a) as [d|]; [|done].
      unfold flush_should_free. simpl. by destruct (d_sync_id d =? sync_id p).
  - assert (is_datum (strip p)) as Hdt by (unfold is_datum; cbn [strip utype]; tauto).
    assert (utype p =? KVP_UPDATE_FLUSH = false /\
      (utype p =? KVP_UPDATE_EMPTY) || (utype p =? KVP_UPDATE_START) = false /\
      (utype p =? KVP_UPDATE_INSERT) || (utype p =? KVP_UPDATE_DELETE) = true) as (-> & -> & ->)
      by (unfold is_datum in Hdt; cbn [strip utype] in Hdt; destruct Hdt as [-> | ->]; done).
    destruct (handle_spec mem now (strip p) r1 Hw1 Hlp Hdt Hnow) as (res & r2 & Eh & Hw2 & Hs2 & Hres).
    cbn [strip sync_id update_id key delete_id val] in Eh.
    pose proof Hs2 as (Hi2 & Hsy2 & Ha2 & He2).
    assert (res = Ok tt \/ mem = false /\ res = Err E_NOMEM) as Hr.
    { destruct mem; [left; apply Hres|]. destruct Hres; [by left|by right]. }
    destruct Hr as [-> |[-> ->]].
    + rewrite (st_run _ _ _ _ _ Eh). eexists _, r0, r2. split_and!; try done; try congruence; [by left| |].
      * rewrite He2, H1e. by rewrite orb_false_r.
      * intros ->. destruct Hres as [_ Hres]. by rewrite <- H1h.
    + rewrite (st_fail_bind _ _ _ _ _ Eh). eexists _, r0, r2. split_and!; try done; try congruence; [by right|].
      rewrite He2, H1e. by rewrite orb_false_r.
Qed.

(** ** Answers *)

Lemma best_spec s l r ans uid :
  (forall a, a ∈ l -> exists d, heap r !! a = Some d) ->
  exists ans' uid', best_loop s l ans uid r = (Ok (ans', uid'), r) /\ uid <= uid' /\
    (forall a d, a ∈ l -> heap r !! a = Some d -> d_sync_id d = s -> d_update_id d <= uid') /\
    ((ans' = ans /\ uid' = uid) \/
     exists a d, a ∈ l /\ heap r !! a = Some d /\ d_sync_id d = s /\ uid' = d_update_id d /\
       ans' = if d_delete_id d =? 0 then Some (d_val d) else None).
Proof.
  revert ans uid. induction l as [|a l IH]; intros ans uid Hin.
  { exists ans, uid. split_and!; [done|lia|set_solver|by left]. }
  destruct (Hin a) as [d Ha]; [set_solver|]. cbn [best_loop].
  rewrite (st_run _ _ _ _ _ (run_deref a d r Ha)).
  assert (forall b, b ∈ l -> exists e, heap r !! b = Some e) as Hin' by set_solver.
  destruct (Z.eqb_spec (d_sync_id d) s) as [Hs|Hs]; cbn [negb].
  2: { destruct (IH ans uid Hin') as (ans' & uid' & -> & Hu & Hm & Hc). exists ans', uid'.
    split_and!; [done|done| |destruct Hc as [|(b & e & ? & ?)]; [by left|right; exists b, e; split; [set_solver|done]]].
    intros b e Hb He Hse. apply elem_of_cons in Hb as [-> |Hb]; [by simplify_eq|eauto]. }
  destruct (Z.ltb_spec (d_update_id d) uid) as [Hlt|Hge].
  - destruct (IH ans uid Hin') as (ans' & uid' & -> & Hu & Hm & Hc). exists ans', uid'.
    split_and!; [done|done| |destruct Hc as [|(b & e & ? & ?)]; [by left|right; exists b, e; split; [set_solver|done]]].
    intros b e Hb He Hse. apply elem_of_cons in Hb as [-> |Hb]; [simplify_eq; lia|eauto].
  - destruct (IH (if d_delete_id d =? 0 then Some (d_val d) else None) (d_update_id d) Hin')
      as (ans' & uid' & -> & Hu & Hm & Hc). exists ans', uid'. split_and!; [done|lia| |].
    + intros b e Hb He Hse. apply elem_of_cons in Hb as [-> |Hb]; [by simplify_eq|eauto].
    + right. destruct Hc as [[-> ->]|(b & e & ? & ?)]; [exists a, d|exists b, e]; split; try set_solver; done.
Qed.

(** ** One sync *)

Section sync.
Context (s t0 : Z).

(** Some deletion among the received packets [R] names the update [i]. *)
Definition erased (R : list Z) (i : Z) : Prop :=
  exists j q, j ∈ R /\ log s j = Some q /\ utype q = KVP_UPDATE_DELETE /\ delete_id q = i.

(** The heap holds exactly the received data that no received packet deletes, and
    no timer runs out before the end of the window. *)
Record knows (R : list Z) (m : gmap addr recv_datum_t) : Prop := {
  kn_only : forall a d, m !! a = Some d ->
    d_sync_id d = s /\ d_update_id d ∈ R /\ ~ erased R (d_update_id d);
  kn_all : forall i p, i ∈ R -> log s i = Some p -> is_datum p -> ~ erased R i ->
    exists a d, m !! a = Some d /\ d_update_id d = i;
  kn_timer : forall a d, m !! a = Some d -> gc_time d <> 0 -> t0 + GC_DELAY <= gc_time d
}.

Lemma insert_not_delete p i : log s i = Some p -> utype p = KVP_UPDATE_INSERT -> delete_id p = 0.
Proof.
  intros Hp Hi. destruct (Hlog _ _ _ Hp) as (_ & _ & _ & _ & _ & [E|[E|[E|[[_ E]|(E & _)]]]]);
    try done; rewrite Hi in E; done.
Qed.

Lemma delete_target p i :
  log s i = Some p -> utype p = KVP_UPDATE_DELETE ->
  1 <= delete_id p < i /\
  exists q, log s (delete_id p) = Some q /\ utype q = KVP_UPDATE_INSERT /\ key q = key p.
Proof.
  intros Hp Hi. destruct (Hlog _ _ _ Hp) as (_ & _ & _ & _ & _ & [E|[E|[E|[[E _]|(_ & H)]]]]);
    try done; rewrite Hi in E; done.
Qed.

(** Deletions are never erased. *)
Lemma delete_kept R i p : log s i = Some p -> utype p = KVP_UPDATE_DELETE -> ~ erased R i.
Proof.
  intros Hp Ht (j & q & _ & Hq & Htq & <-). destruct (delete_target q j Hq Htq) as (_ & q' & Hq' & Hi & _).
  rewrite Hp in Hq'. injection Hq' as <-. rewrite Ht in Hi. done.
Qed.

Lemma knows_same R R' m :
  (forall i, i ∈ R <-> i ∈ R') -> knows R m -> knows R' m.
Proof.
  intros HR [K1 K2 K3].
  assert (forall i, erased R i <-> erased R' i) as He by (intros i; unfold erased; by setoid_rewrite HR).
  constructor; [|intros i p Hi; rewrite <- HR in Hi; rewrite <- He; by apply (K2 i p)|done].
  intros a d Ha. rewrite <- HR, <- He. by apply (K1 a).
Qed.

(** A packet that is no data changes nothing. *)
Lemma knows_other R m p i :
  log s i = Some p -> ~ is_datum p -> knows R m -> knows (i :: R) m.
Proof.
  intros Hp Hn [K1 K2 K3].
  assert (forall k, erased (i :: R) k -> erased R k) as He.
  { intros k (j & q & Hj & Hq & Ht & Hd). apply elem_of_cons in Hj as [-> |Hj]; [|by exists j, q].
    rewrite Hp in Hq. injection Hq as <-. destruct Hn. by right. }
  assert (forall k, erased R k -> erased (i :: R) k) as He'.
  { intros k (j & q & Hj & ?). exists j, q. split; [set_solver|done]. }
  constructor; [| |done].
  - intros a d Ha. destruct (K1 a d Ha) as (? & ? & ?). split_and!; [done|set_solver|auto].
  - intros k q Hk Hq Hd Hne. apply elem_of_cons in Hk as [-> |Hk]; [|by apply (K2 k q); auto].
    rewrite Hp in Hq. by injection Hq as <-.
Qed.

(** An insertion that comes after its deletion is not stored. *)
Lemma canceled_knows p R m a d :
  log s (update_id p) = Some p -> sync_id p = s -> is_datum p ->
  (forall a d, m !! a = Some d -> from_log log d) ->
  m !! a = Some d -> deletes p d -> knows R m -> knows (update_id p :: R) m.
Proof.
  intros Hp Hsp Hdt Hfl Ha (_ & H0 & Hd) [K1 K2 K3].
  assert (utype p <> KVP_UPDATE_DELETE) as Hnd.
  { intros Ht. destruct (delete_target p _ Hp Ht). lia. }
  assert (erased R (update_id p)) as Her.
  { destruct (Hfl a d Ha) as (q & Hq & _ & Ed). destruct (K1 a d Ha) as (Hs & Hin & _).
    rewrite Hs in Hq. rewrite Ed in Hd. simpl in Hd.
    exists (d_update_id d), q. split_and!; [done|done| |done].
    destruct (Hlog _ _ _ Hq) as (_ & _ & _ & _ & _ & Ht). destruct (Hlog _ _ _ Hp) as (_ & _ & ? & _).
    destruct (Hfl a d Ha) as (q' & Hq' & Hdq & _). rewrite Hs, Hq in Hq'. injection Hq' as <-.
    destruct Hdq as [Ht'|Ht']; [|done]. rewrite (insert_not_delete q _ Hq Ht') in Hd. lia. }
  assert (forall k, erased (update_id p :: R) k -> erased R k) as Hinv.
  { intros k (j & q & Hj & Hq & Ht & Hk). apply elem_of_cons in Hj as [-> |Hj]; [|by exists j, q].
    rewrite Hp in Hq. by injection Hq as <-. }
  constructor; [| |done].
  - intros c e Hc. destruct (K1 c e Hc) as (? & ? & ?). split_and!; [done|set_solver|auto].
  - intros k q Hk Hq Hdq Hne. apply elem_of_cons in Hk as [-> |Hk].
    + destruct Hne. destruct Her as (j & q' & Hj & ?). exists j, q'. split; [set_solver|done].
    + apply (K2 k q); try done. intros (j & q' & Hj & ?). apply Hne. exists j, q'. split; [set_solver|done].
Qed.

Lemma timed_knows now R m a :
  t0 <= now < 2 ^ 63 -> 0 <= t0 -> knows R m -> knows R (alter (set_gc_time (u64 (now + GC_DELAY))) a m).
Proof.
  intros Hnow Ht0 [K1 K2 K3]. destruct (timer_nonzero now) as [-> _]; [lia|]. constructor.
  - intros b e He. apply timed_lookup in He as (d & Hd & ->). destruct (K1 b d Hd) as (? & ? & ?).
    by case_bool_decide.
  - intros i p Hi Hp Hdt Hne. destruct (K2 i p Hi Hp Hdt Hne) as (b & d & Hb & Hd).
    exists b. eexists. rewrite timed_lookup. split; [eauto|]. by case_bool_decide.
  - intros b e He Hte. apply timed_lookup in He as (d & Hd & ->). case_bool_decide; simpl; [lia|eauto].
Qed.

Lemma handled_knows now p R m m' :
  log s (update_id p) = Some p -> sync_id p = s -> is_datum p -> t0 <= now < 2 ^ 63 -> 0 <= t0 ->
  (forall a d, m !! a = Some d -> from_log log d) ->
  (forall a b d e, m !! a = Some d -> m !! b = Some e -> d_sync_id d = d_sync_id e ->
     d_update_id d = d_update_id e -> a = b) ->
  handled now p m m' -> knows R m -> knows (update_id p :: R) m'.
Proof.
  intros Hp Hsp Hdt Hnow Ht0 Hfl Hone Hh [K1 K2 K3].
  set (i := update_id p) in *.
  assert (1 <= i) as Hi by apply (Hlog _ _ _ Hp).
  assert (forall k, erased R k -> erased (i :: R) k) as Hmono.
  { intros k (j & q & Hj & ?). exists j, q. split; [set_solver|done]. }
  assert (forall k, erased (i :: R) k -> erased R k \/ utype p = KVP_UPDATE_DELETE /\ k = delete_id p) as Hinv.
  { intros k (j & q & Hj & Hq & Ht & Hd). apply elem_of_cons in Hj as [-> |Hj]; [|left; by exists j, q].
    rewrite Hp in Hq. injection Hq as <-. by right. }
  assert (utype p = KVP_UPDATE_DELETE -> delete_id p <> 0) as Hnz.
  { intros Ht. destruct (delete_target p i Hp Ht). lia. }
  assert (delete_id p <> 0 -> utype p = KVP_UPDATE_DELETE) as Hdel.
  { intros Hn. destruct Hdt as [Ht|Ht]; [|done]. by rewrite (insert_not_delete p i Hp Ht) in Hn. }
  destruct Hh as [a Ha Hn|a d Ha Hd|a d b Ha Hby Hnd Hb|a d Ha Hds Ht|a d Ha Hds Ht].
  - (* nothing is about the packet *)
    assert (~ erased (i :: R) i) as Hkeep.
    { intros Her. apply Hinv in Her as [(j & q & Hj & Hq & Ht & Hdi)|[Ht Hid]].
      - destruct (K2 j q Hj Hq) as (c & e & Hc & He); [by right|by eapply delete_kept|].
        destruct (Hfl c e Hc) as (q' & Hq' & _ & Ee). destruct (K1 c e Hc) as (Hse & _).
        rewrite Hse, He, Hq in Hq'. injection Hq' as <-.
        destruct (delete_target q j Hq Ht) as (_ & q2 & Hq2 & Hins & _). rewrite Hdi, Hp in Hq2.
        injection Hq2 as <-. apply (Hn c e Hc). right; right.
        split_and!; [by rewrite Hsp|by eapply insert_not_delete|]. by rewrite Ee.
      - destruct (delete_target p i Hp Ht). lia. }
    constructor.
    + intros c e Hc. apply lookup_insert_Some in Hc as [[<- <-]|[Hne Hc]].
      { split_and!; [done|simpl; set_solver|done]. }
      destruct (K1 c e Hc) as (? & ? & Hk). split_and!; [done|set_solver|]. intros Her.
      apply Hinv in Her as [?|[Ht Hk']]; [done|]. apply (Hn c e Hc). right; left.
      split_and!; [congruence|by apply Hnz|done].
    + intros k q Hk Hq Hdq Hne. apply elem_of_cons in Hk as [-> |Hk].
      { exists a. eexists. by rewrite lookup_insert_eq. }
      destruct (K2 k q Hk Hq Hdq) as (c & e & Hc & He); [auto|]. exists c, e. split; [|done].
      rewrite lookup_insert_ne; [done|]. intros ->. by rewrite Ha in Hc.
    + intros c e Hc Htc. apply lookup_insert_Some in Hc as [[<- <-]|[Hne Hc]]; [done|eauto].
  - (* a duplicate *)
    apply (knows_same R); [|done]. destruct (K1 a d Ha) as (_ & Hin & _). destruct Hd as [_ Hu].
    intros k. fold i in Hu. rewrite Hu in Hin. set_solver.
  - (* a deletion takes its insertion out *)
    destruct Hby as (Hs & Hn & Hu). pose proof (Hdel Hn) as Ht.
    constructor.
    + intros c e Hc. apply lookup_insert_Some in Hc as [[<- <-]|[Hne Hc]].
      { split_and!; [done|simpl; set_solver|]. by eapply delete_kept. }
      apply lookup_delete_Some in Hc as [Hne' Hc]. destruct (K1 c e Hc) as (? & ? & Hk).
      split_and!; [done|set_solver|]. intros Her. apply Hinv in Her as [?|[_ Hk']]; [done|].
      apply Hne'. apply (Hone a c d e Ha Hc); congruence.
    + intros k q Hk Hq Hdq Hne. apply elem_of_cons in Hk as [-> |Hk].
      { exists b. eexists. by rewrite lookup_insert_eq. }
      destruct (K2 k q Hk Hq Hdq) as (c & e & Hc & He); [auto|]. exists c, e. split; [|done].
      rewrite lookup_insert_ne by congruence.
      rewrite lookup_delete_ne; [done|]. intros ->. rewrite Ha in Hc. injection Hc as <-.
      apply Hne. exists i, p. split_and!; [set_solver|done|done|congruence].
    + intros c e Hc Htc. apply lookup_insert_Some in Hc as [[<- <-]|[Hne Hc]].
      { simpl. destruct (timer_nonzero now) as [-> _]; unfold GC_DELAY in *; lia. }
      apply lookup_delete_Some in Hc as [_ Hc]. eauto.
  - (* the deletion of an insertion came first *)
    by apply (canceled_knows p R m a d).
  - apply timed_knows; [lia|lia|].
    by apply (canceled_knows p R m a d).
Qed.

(** ** Deliveries *)

Definition is_flush (i : Z) : bool :=
  match log s i with Some p => utype p =? KVP_UPDATE_FLUSH | None => false end.
Definition flushed (R : list Z) : bool := existsb is_flush R.

(** The last received packet about a key, up to update_id [n]. *)
Definition touches (k : bytes) (p : kvp_update_t) : bool :=
  ((utype p =? KVP_UPDATE_INSERT) || (utype p =? KVP_UPDATE_DELETE)) && bool_decide (key p = k).
Fixpoint latest (R : list Z) (k : bytes) (n : nat) : option kvp_update_t :=
  match n with
  | O => None
  | S m =>
      match log s (Z.of_nat n) with
      | Some p => if bool_decide (Z.of_nat n ∈ R) && touches k p then Some p else latest R k m
      | None => latest R k m
      end
  end.
Definition value_of (o : option kvp_update_t) : option bytes :=
  match o with
  | Some p => if utype p =? KVP_UPDATE_INSERT then Some (val p) else None
  | None => None
  end.

(** The sender's map after its first [n] updates. *)
Fixpoint replay (n : nat) : gmap bytes bytes :=
  match n with
  | O => ∅
  | S m =>
      match log s (Z.of_nat n) with
      | Some p =>
          if utype p =? KVP_UPDATE_INSERT then <[key p := val p]> (replay m)
          else if utype p =? KVP_UPDATE_DELETE then delete (key p) (replay m)
          else replay m
      | None => replay m
      end
  end.

Lemma replay_latest R k n :
  (forall i p, log s i = Some p -> i ∈ R) -> replay n !! k = value_of (latest R k n).
Proof.
  intros HR. induction n as [|n IH]; [apply lookup_empty|]. cbn [replay latest].
  destruct (log s (Z.of_nat (S n))) as [p|] eqn:Ep; [|done].
  rewrite (bool_decide_eq_true_2 _ (HR _ _ Ep)). unfold touches.
  destruct (Z.eqb_spec (utype p) KVP_UPDATE_INSERT) as [E|E].
  - case_bool_decide; subst; simpl; [by rewrite lookup_insert_eq, E|by rewrite lookup_insert_ne].
  - destruct (Z.eqb_spec (utype p) KVP_UPDATE_DELETE) as [Ed|Ed]; [|done].
    case_bool_decide; subst; simpl; [by rewrite lookup_delete_eq, Ed|by rewrite lookup_delete_ne].
Qed.

Lemma latest_spec R k n :
  match latest R k n with
  | Some p => exists i, log s i = Some p /\ i ∈ R /\ touches k p = true /\
      forall j q, j <= Z.of_nat n -> j ∈ R -> log s j = Some q -> touches k q = true -> j <= i
  | None => forall j q, j <= Z.of_nat n -> j ∈ R -> log s j = Some q -> touches k q = true -> False
  end.
Proof.
  induction n as [|n IH]; cbn [latest].
  { intros j q Hj _ Hq _. destruct (Hlog _ _ _ Hq) as (_ & _ & ? & _). lia. }
  assert (forall j, j <= Z.of_nat (S n) -> j = Z.of_nat (S n) \/ j <= Z.of_nat n) as Hj by lia.
  destruct (log s (Z.of_nat (S n))) as [p|] eqn:Ep.
  - destruct (bool_decide (Z.of_nat (S n) ∈ R) && touches k p) eqn:Eb.
    + apply andb_true_iff in Eb as [Hin%bool_decide_eq_true Ht]. exists (Z.of_nat (S n)). by split_and!.
    + assert (forall q, Z.of_nat (S n) ∈ R -> log s (Z.of_nat (S n)) = Some q -> touches k q = true -> False) as Hno.
      { intros q Hin Hq Ht. rewrite Ep in Hq. injection Hq as <-. rewrite Ht, andb_true_r in Eb.
        by apply bool_decide_eq_false in Eb. }
      destruct (latest R k n) as [q|].
      * destruct IH as (i & Hi & Hin & Ht & Hm). exists i. split_and!; try done.
        intros j q' Hjn Hjr Hq' Ht'. destruct (Hj j Hjn) as [-> |]; [by destruct (Hno q')|eauto].
      * intros j q' Hjn Hjr Hq' Ht'. destruct (Hj j Hjn) as [-> |]; [by destruct (Hno q')|eauto].
  - destruct (latest R k n) as [q|].
    + destruct IH as (i & Hi & Hin & Ht & Hm). exists i. split_and!; try done.
      intros j q' Hjn Hjr Hq' Ht'. destruct (Hj j Hjn) as [-> |]; [by rewrite Ep in Hq'|eauto].
    + intros j q' Hjn Hjr Hq' Ht'. destruct (Hj j Hjn) as [-> |]; [by rewrite Ep in Hq'|eauto].
Qed.

(** A receiver that has acked its START and has received the packets [R], which
    carried the expiries [X]. *)
Record synced (R X : list Z) (r : kvpsync_recv_t) : Prop := {
  sy_wf : wf r;
  sy_knows : knows R (heap r);
  sy_acked : initial_sync_acked r = true;
  sy_sync : r_sync_id r = if flushed R then s else 0;
  sy_expiry : r_ok_expiry r = 0 \/ r_ok_expiry r ∈ X
}.

Lemma quiet_gc R X r now :
  synced R X r -> now < t0 + GC_DELAY -> do_gc now r = (Ok tt, r).
Proof.
  intros [Hw [_ _ K3] _ _ _] Hnow. destruct (do_gc_spec now r Hw) as (r' & E & _ & _ & _ & _ & Hsame).
  rewrite E. do 2 f_equal. apply Hsame. intros a d Hg Ha. destruct (wf_gc r Hw a Hg) as (d' & Ha' & Ht).
  rewrite Ha in Ha'. injection Ha' as <-. pose proof (K3 a d Ha Ht). lia.
Qed.

Lemma deliver_one R X r now p :
  synced R X r -> log s (update_id p) = Some (strip p) -> sync_id p = s -> s <> 0 ->
  0 <= t0 <= now -> now < t0 + GC_DELAY -> t0 + GC_DELAY < 2 ^ 63 ->
  exists r', kvpsync_recv_handle_update true now p r = (Ok (mkAck s (update_id p)), r') /\
    synced (update_id p :: R) (ok_expiry p :: X) r'.
Proof.
  intros Hsy Hp Hsp Hs0 Hnow Hn Hmax. pose proof (quiet_gc R X r now Hsy Hn) as Eg.
  destruct Hsy as [Hw Hk Ha Hsync Hexp].
  destruct (update_spec true now p r Hw ltac:(by rewrite Hsp) ltac:(lia) Ha)
    as (res & r0 & r' & Eg' & Hw0 & _ & E & Hw' & Ha' & _ & Hres & Hs' & He' & Hh).
  rewrite Eg in Eg'. injection Eg' as <-.
  destruct Hres as [-> |[? _]]; [|done]. exists r'. rewrite E, Hsp. split; [done|].
  constructor; [done| |done| |].
  - destruct (Z.eqb_spec (utype p) KVP_UPDATE_FLUSH) as [Ef|Ef].
    + assert (heap r' = heap r) as ->.
      { apply map_eq. intros a. rewrite Hh. destruct (heap r !! a) as [d|] eqn:Ed; [|done].
        destruct (kn_only R _ Hk a d Ed) as (-> & _). by rewrite Hsp, Z.eqb_refl. }
      apply (knows_other R _ (strip p)); [done| |done]. unfold is_datum. cbn [strip utype]. rewrite Ef. by intros [].
    + destruct ((utype p =? KVP_UPDATE_INSERT) || (utype p =? KVP_UPDATE_DELETE)) eqn:Ed.
      * assert (is_datum (strip p)) as Hdt by (unfold is_datum; cbn [strip utype]; apply orb_true_iff in Ed; lia).
        eapply (handled_knows now (strip p) R); [done|done|done|lia|lia| |exact (wf_one r Hw)|by apply Hh|done].
        intros a d Had. by apply (wf_log r Hw a).
      * rewrite Hh. apply (knows_other R _ (strip p)); [done| |done]. unfold is_datum.
        cbn [strip utype]. apply orb_false_iff in Ed. lia.
  - rewrite Hs', Hsync, Hsp. unfold flushed. cbn [existsb].
    replace (is_flush (update_id p)) with (utype p =? KVP_UPDATE_FLUSH)
      by (unfold is_flush; by rewrite Hp).
    by destruct (utype p =? KVP_UPDATE_FLUSH).
  - assert (r_ok_expiry r = 0 \/ r_ok_expiry r ∈ ok_expiry p :: X) as Hold
      by (destruct Hexp as [|?]; [by left|right; by right]).
    rewrite He'. destruct (_ || _); [|exact Hold].
    destruct (Z.max_spec (ok_expiry p) (r_ok_expiry r)) as [[_ ->]|[_ ->]]; [done|right; by left].
Qed.

Lemma synced_answer R X r now k n :
  synced R X r -> s <> 0 -> now < t0 + GC_DELAY -> (forall i, i ∈ R -> i <= Z.of_nat n) ->
  kvpsync_recv_get_value now k r =
  (Ok (if flushed R then
         match value_of (latest R k n) with
         | Some v => Answer v
         | None => if now <? r_ok_expiry r then NULL else UNSURE
         end
       else UNSURE), r).
Proof.
  intros Hsy Hs0 Hn Hmax. pose proof (quiet_gc R X r now Hsy Hn) as Eg.
  destruct Hsy as [Hw [K1 K2 _] _ Hsync _].
  unfold kvpsync_recv_get_value, get_state. rewrite (st_run _ _ _ _ _ Eg), (st_run _ _ r r r) by done.
  rewrite Hsync. destruct (flushed R); [|done]. destruct (Z.eqb_spec s 0); [done|].
  assert (forall a d, heap r !! a = Some d -> exists p, log s (d_update_id d) = Some p /\ d = datum_of p (gc_time d) /\
    d_update_id d ∈ R /\ (data d = k -> touches k p = true)) as Hd.
  { intros a d Ha. destruct (wf_log r Hw a d Ha) as [_ (p & Hp & Hdt & Ed)].
    destruct (K1 a d Ha) as (Hsd & Hin & _). rewrite Hsd in Hp. exists p. split_and!; [done..|].
    intros Hk. unfold touches. rewrite Ed in Hk. simpl in Hk. rewrite bool_decide_eq_true_2 by done.
    unfold is_datum in Hdt. destruct Hdt as [-> | ->]; done. }
  assert (forall p i, latest R k n = Some p -> log s i = Some p -> i ∈ R -> touches k p = true ->
    (forall j q, j <= Z.of_nat n -> j ∈ R -> log s j = Some q -> touches k q = true -> j <= i) ->
    exists a d, a ∈ list_of k r /\ heap r !! a = Some d /\ d_update_id d = i) as Hstored.
  { intros p i _ Hp Hin Ht Hm. unfold touches in Ht. apply andb_true_iff in Ht as [Ht Hk%bool_decide_eq_true].
    destruct (K2 i p Hin Hp) as (a & d & Ha & Hu).
    - unfold is_datum. apply orb_true_iff in Ht. lia.
    - intros (j & q & Hj & Hq & Htq & Hdi). destruct (delete_target q j Hq Htq) as (Hlt & q' & Hq' & _ & Hkq).
      rewrite Hdi, Hp in Hq'. injection Hq' as <-.
      assert (j <= i); [|lia]. apply (Hm j q); [by apply Hmax|done|done|].
      unfold touches. rewrite Htq. by rewrite bool_decide_eq_true_2 by congruence.
    - exists a, d. split_and!; [|done|done]. apply (wf_in r Hw). exists d. split; [done|].
      destruct (Hd a d Ha) as (p' & Hp' & Ed & _). rewrite Hu, Hp in Hp'. injection Hp' as <-.
      rewrite Ed. simpl. by symmetry in Hk. }
  pose proof (latest_spec R k n) as Hlat. destruct (h r !! k) as [l|] eqn:El.
  2: { destruct (latest R k n) as [p|] eqn:Elat; [|done].
    destruct Hlat as (i & Hp & Hin & Ht & Hm). destruct (Hstored p i eq_refl Hp Hin Ht Hm) as (a & d & Ha & _).
    unfold list_of in Ha. rewrite El in Ha. simpl in Ha. set_solver. }
  assert (list_of k r = l) as <- by (unfold list_of; by rewrite El).
  destruct (best_spec s (list_of k r) r None 0) as (ans & uid & Eb & _ & Hub & Hc).
  { intros a Ha. apply (wf_in r Hw) in Ha as (d & ? & _). eauto. }
  rewrite (st_run _ _ _ _ _ Eb). cbn [fst snd].
  destruct Hc as [[-> ->]|(a & d & Ha & Hda & Hsd & -> & ->)].
  - rewrite Z.eqb_refl. destruct (latest R k n) as [p|] eqn:Elat; [|done].
    destruct Hlat as (i & Hp & Hin & Ht & Hm). destruct (Hstored p i eq_refl Hp Hin Ht Hm) as (a & d & Ha & Hda & Hu).
    pose proof (Hub a d Ha Hda) as Hle. destruct (K1 a d Hda) as (Hs & _). specialize (Hle Hs).
    destruct (Hlog _ _ _ Hp) as (_ & _ & ? & _). lia.
  - destruct (Hd a d Hda) as (p & Hp & Ed & Hin & Ht).
    apply (wf_in r Hw) in Ha as (d' & Hd' & Hk). rewrite Hda in Hd'. injection Hd' as <-. specialize (Ht Hk).
    assert (1 <= d_update_id d) as Hpos by apply (Hlog _ _ _ Hp).
    destruct (Z.eqb_spec (d_update_id d) 0); [lia|].
    destruct (latest R k n) as [q|] eqn:Elat.
    + destruct Hlat as (i & Hq & Hqin & Hqt & Hm).
      destruct (Hstored q i eq_refl Hq Hqin Hqt Hm) as (b & e & Hb & Hbe & Hu).
      pose proof (Hub b e Hb Hbe) as Hle. destruct (K1 b e Hbe) as (Hs & _). specialize (Hle Hs).
      pose proof (Hm (d_update_id d) p (Hmax _ Hin) Hin Hp Ht).
      assert (d_update_id d = i) as Ei by lia. rewrite Ei, Hq in Hp. injection Hp as ->.
      rewrite Ed. simpl. unfold value_of.
      destruct (Hlog _ _ _ Hq) as (_ & _ & _ & _ & _ & Hty).
      unfold touches in Ht. apply andb_true_iff in Ht as [Ht _]. apply orb_true_iff in Ht.
      destruct Hty as [E|[E|[E|[[E ->]|(E & ? & _)]]]]; try (rewrite E in Ht; destruct Ht; done).
      * by rewrite E.
      * rewrite E. by destruct (Z.eqb_spec (delete_id p) 0); [lia|].
    + exfalso. by apply (Hlat (d_update_id d) p (Hmax _ Hin) Hin Hp).
Qed.
End sync.
End receiver.

(** ** Sequences of packets *)

(** Deliveries that all succeed. *)
Fixpoint deliver (es : list (Z * kvp_update_t)) : recv unit :=
  match es with
  | [] => st_ret tt
  | e :: es =>
      do! _ := kvpsync_recv_handle_update true (fst e) (snd e) in
      deliver es
  end.

(** Deliveries with allocations that may fail: the caller logs an error and goes on. *)
Fixpoint run (es : list (bool * Z * kvp_update_t)) (r : kvpsync_recv_t) : option kvpsync_recv_t :=
  match es with
  | [] => Some r
  | e :: es =>
      match kvpsync_recv_handle_update (fst (fst e)) (snd (fst e)) (snd e) r with
      | (Stop _, _) => None
      | (_, r) => run es r
      end
  end.

(** The receiver that [recv_fresh] made, once its START is acked. *)
Definition started (id : Z) : kvpsync_recv_t := set_state 0 true 0 (recv_fresh id).

Lemma deliver_synced log s t0 es R X r :
  honest log -> s <> 0 -> 0 <= t0 -> t0 + GC_DELAY < 2 ^ 63 ->
  Forall (fun e => sync_id (snd e) = s /\ log s (update_id (snd e)) = Some (strip (snd e)) /\
                   t0 <= fst e < t0 + GC_DELAY) es ->
  synced log s t0 R X r ->
  exists r', deliver es r = (Ok tt, r') /\
    synced log s t0 (reverse (map (fun e => update_id (snd e)) es) ++ R)
      (reverse (map (fun e => ok_expiry (snd e)) es) ++ X) r'.
Proof.
  intros Hlog Hs Ht0 Hmax. revert R X r. induction es as [|[now p] es IH]; intros R X r Hes Hsy.
  { by exists r. }
  apply Forall_cons in Hes as [(Hsp & Hp & Hnow) Hes]. cbn [fst snd] in Hsp, Hp, Hnow. cbn [deliver fst snd].
  destruct (deliver_one log Hlog s t0 R X r now p Hsy Hp Hsp Hs) as (r1 & E & Hsy1); [lia..|].
  rewrite (st_run _ _ _ _ _ E). destruct (IH _ _ _ Hes Hsy1) as (r' & -> & Hsy').
  exists r'. split; [done|]. cbn [map snd]. by rewrite !reverse_cons, <- !app_assoc.
Qed.

Lemma synced_started log s t0 id : honest log -> synced log s t0 [] [] (started id).
Proof.
  intros Hlog. unfold started. constructor; [by apply wf_regs, wf_init| |done|done|by left].
  constructor; [done| |done]. intros i p Hi. by apply elem_of_nil in Hi.
Qed.

Lemma latest_same log s R R' k n :
  (forall i, i ∈ R <-> i ∈ R') -> latest log s R k n = latest log s R' k n.
Proof.
  intros H. induction n as [|n IH]; [done|]. cbn [latest].
  rewrite IH. by rewrite (bool_decide_ext _ _ (H _)).
Qed.

Lemma flushed_same log s R R' :
  (forall i, i ∈ R <-> i ∈ R') -> flushed log s R = flushed log s R'.
Proof.
  intros H. unfold flushed. apply eq_true_iff_eq. rewrite !existsb_exists.
  setoid_rewrite <- list_elem_of_In. by setoid_rewrite H.
Qed.

(** What a receiver answers after deliveries of one sync. *)
Lemma deliver_answer log s t0 es id now k n :
  honest log -> s <> 0 -> 0 <= t0 <= now -> now < t0 + GC_DELAY -> t0 + GC_DELAY < 2 ^ 63 ->
  Forall (fun e => sync_id (snd e) = s /\ log s (update_id (snd e)) = Some (strip (snd e)) /\
                   t0 <= fst e < t0 + GC_DELAY /\ update_id (snd e) <= Z.of_nat n) es ->
  let R := map (fun e => update_id (snd e)) es in
  exists r, deliver es (started id) = (Ok tt, r) /\
    kvpsync_recv_get_value now k r =
    (Ok (if flushed log s R then
           match value_of (latest log s R k n) with
           | Some v => Answer v
           | None => if now <? r_ok_expiry r then NULL else UNSURE
           end
         else UNSURE), r) /\
    ((forall i p, log s i = Some p -> i ∈ R) -> value_of (latest log s R k n) = replay log s n !! k) /\
    (r_ok_expiry r = 0 \/ exists e, e ∈ es /\ r_ok_expiry r = ok_expiry (snd e)).
Proof.
  intros Hlog Hs Ht0 Hnow Hmax Hes R.
  destruct (deliver_synced log s t0 es [] [] (started id) Hlog Hs) as (r & E & Hsy);
    [lia|done| |by apply synced_started|].
  { eapply Forall_impl; [exact Hes|]. simpl. tauto. }
  fold R in Hsy. rewrite !app_nil_r in Hsy.
  assert (forall i, i ∈ reverse R <-> i ∈ R) as HR by (intros i; apply elem_of_reverse).
  exists r. split_and!; [done| | |].
  - rewrite (synced_answer log Hlog s t0 (reverse R) _ r now k n Hsy Hs Hnow).
    + by rewrite (flushed_same _ _ _ _ HR), (latest_same _ _ _ _ _ _ HR).
    + intros i. rewrite HR. unfold R. intros Hi%list_elem_of_fmap. destruct Hi as (e & -> & He).
      rewrite Forall_forall in Hes. by apply (Hes e).
  - intros Hall. symmetry. by apply replay_latest.
  - destruct (sy_expiry _ _ _ _ _ _ Hsy) as [|Hi]; [by left|right].
    apply elem_of_reverse, list_elem_of_fmap in Hi as (e & -> & He). by exists e.
Qed.


(** One packet, whether the receiver waits for its START or not. *)
Lemma handle_update_wf log mem now p r :
  honest log -> log (sync_id p) (update_id p) = Some (strip p) -> 0 <= now < 2 ^ 63 -> wf log r ->
  exists res r', kvpsync_recv_handle_update mem now p r = (res, r') /\ wf log r' /\
    ((exists ack, res = Ok ack) \/ mem = false /\ res = Err E_NOMEM).
Proof.
  intros Hlog Hp Hnow Hw. destruct (initial_sync_acked r) eqn:Ea.
  - destruct (update_spec log Hlog mem now p r Hw Hp Hnow Ea)
      as (res & r0 & r' & _ & _ & _ & -> & Hw' & _ & _ & Hres & _).
    exists res, r'. split_and!; [done|done|]. destruct Hres as [->|Hres]; [left; eauto|by right].
  - unfold kvpsync_recv_handle_update, get_state. rewrite (st_run _ _ r r r) by done.
    rewrite Ea. cbn [negb]. destruct (_ || _); [eexists _, r; split_and!; [done|done|left; eauto]|].
    unfold modify. rewrite (st_run _ _ _ tt (set_state (r_sync_id r) true (r_ok_expiry r) r)) by done.
    eexists _, _. split_and!; [done|by apply wf_regs|left; eauto].
Qed.

Lemma run_wf log es r :
  honest log ->
  Forall (fun e => log (sync_id (snd e)) (update_id (snd e)) = Some (strip (snd e)) /\ 0 <= snd (fst e) < 2 ^ 63) es ->
  wf log r -> exists r', run es r = Some r' /\ wf log r'.
Proof.
  intros Hlog. revert r. induction es as [|[[mem now] p] es IH]; intros r Hes Hw; [by exists r|].
  apply Forall_cons in Hes as [[Hp Hnow] Hes]. simpl in Hp, Hnow. cbn [run fst snd].
  destruct (handle_update_wf log mem now p r Hlog Hp Hnow Hw) as (res & r' & -> & Hw' & [[ack ->]|[_ ->]]); by apply IH.
Qed.

(** A lookup always answers, and what it answers fits a packet. *)
Lemma get_value_wf log now k r :
  honest log -> wf log r ->
  exists a r', kvpsync_recv_get_value now k r = (Ok a, r') /\ wf log r' /\
    (r_sync_id r = 0 -> a = UNSURE) /\ (forall v, a = Answer v -> zlen v <= KVPSYNC_MAX_LEN).
Proof.
  intros Hlog Hw. destruct (do_gc_spec log Hlog now r Hw) as (r0 & Eg & Hw0 & (_ & Hs & _) & _).
  unfold kvpsync_recv_get_value, get_state. rewrite (st_run _ _ _ _ _ Eg), (st_run _ _ r0 r0 r0) by done.
  rewrite Hs. destruct (Z.eqb_spec (r_sync_id r) 0); [by eexists _, r0|].
  assert (forall a, (r_sync_id r = 0 -> a = UNSURE) /\ (forall v, a = Answer v -> zlen v <= KVPSYNC_MAX_LEN) ->
    exists a' r', st_ret a r0 = (Ok a', r') /\ wf log r' /\
      (r_sync_id r = 0 -> a' = UNSURE) /\ (forall v, a' = Answer v -> zlen v <= KVPSYNC_MAX_LEN)) as Hret by (intros a ?; by exists a, r0).
  assert (forall b : bool, (r_sync_id r = 0 -> (if b then NULL else UNSURE) = UNSURE) /\
    (forall v, (if b then NULL else UNSURE) = Answer v -> zlen v <= KVPSYNC_MAX_LEN)) as Hno by (intros []; by split).
  destruct (h r0 !! k) as [l|] eqn:El; [|by apply Hret].
  destruct (best_spec log Hlog (r_sync_id r) l r0 None 0) as (ans & uid & Eb & _ & _ & Hans).
  { intros a Ha. assert (a ∈ list_of k r0) as Hin by (unfold list_of; by rewrite El).
    apply (wf_in log r0 Hw0) in Hin as (d & ? & _). eauto. }
  rewrite (st_run _ _ _ _ _ Eb). cbn [fst snd].
  destruct (uid =? 0); [by apply Hret|]. destruct ans as [v|]; [|by apply Hret].
  apply Hret. split; [done|]. intros w [= <-].
  destruct Hans as [[? _]|(a & d & _ & Ha & _ & _ & Ev)]; [done|].
  destruct (d_delete_id d =? 0); [|done]. injection Ev as ->.
  destruct (wf_log log r0 Hw0 a d Ha) as [_ (p & Hp & _ & ->)]. by apply (Hlog _ _ _ Hp).
Qed.


(** ** A concrete sync *)

Definition p_start : kvp_update_t := mkUpdate 0 7 1 KVP_UPDATE_START 99 [] 0 [].
Definition p_insert : kvp_update_t := mkUpdate 0 7 2 KVP_UPDATE_INSERT 0 (lit "A") 0 (lit "old").
Definition p_flush : kvp_update_t := mkUpdate (100 * SECOND) 7 3 KVP_UPDATE_FLUSH 0 [] 0 [].
Definition p_delete : kvp_update_t := mkUpdate 0 7 4 KVP_UPDATE_DELETE 0 (lit "A") 2 [].
Definition p_again : kvp_update_t := mkUpdate 0 7 5 KVP_UPDATE_DELETE 0 (lit "A") 4 [].

Definition sample_log : sender_log := fun s i =>
  if s =? 7 then
    if i =? 1 then Some (strip p_start) else if i =? 2 then Some (strip p_insert)
    else if i =? 3 then Some (strip p_flush) else if i =? 4 then Some (strip p_delete) else None
  else None.

Lemma sample_honest : honest sample_log.
Proof.
  intros s i p H. unfold sample_log in H. destruct (Z.eqb_spec s 7) as [->|]; [|done].
  destruct (Z.eqb_spec i 1) as [->|]; [|destruct (Z.eqb_spec i 2) as [->|];
    [|destruct (Z.eqb_spec i 3) as [->|]; [|destruct (Z.eqb_spec i 4) as [->|]; [|done]]]];
    apply (inj Some) in H as <-; split_and!; try done.
  - by right; left.
  - by right; right; right; left.
  - by right; right; left.
  - right; right; right; right. split_and!; [done..|]. by exists (strip p_insert).
Qed.

(** Out of order and with duplicates, the last with a new expiry. *)
Definition sample_events : list (Z * kvp_update_t) :=
  [(10, p_delete); (11, p_flush); (12, p_insert); (12, p_delete);
   (13, mkUpdate 50 7 2 KVP_UPDATE_INSERT 0 (lit "A") 0 (lit "old"))].



(** The answer for a key at the end of a run; [None] when the run stops. *)
Definition ask (es : list (bool * Z * kvp_update_t)) (now : Z) (k : bytes) : option (res answer) :=
  match run es (recv_fresh 99) with
  | Some r => Some (fst (kvpsync_recv_get_value now k r))
  | None => None
  end.

