(* ===== verification/KvpSend.v ===== *)
(** * The sender of the key-value sync protocol (server/libkvpsync/send.c)

    Packets are objects shared by the cache, the unsent and sent lists, the table of
    unacked packets and the list of the oldest insertions, with a count of
    references: they are addresses in a heap. Callbacks are recorded in the order
    they are made. *)

From S2P Require Import Prelude KvpPkts KvpRecv.

(** ** Data *)

Definition MIN_INFLIGHT : Z := 1.
Definition INCREASE_PKTS : Z := 1.
Definition DECREASE_BY_FACTOR (n : Z) : Z := Z.quot (n * 4) 5.
Definition DECREASE_BACKOFF : Z := 1 * SECOND.
Definition MIN_RESPONSE : Z := 15 * SECOND.

Record send_data_t := mkSendData {
  update : kvp_update_t;
  nrefs : Z;
  d_inflight : bool;
  inflight_at_send : Z;
  d_congest_validity : Z;
  sent_time : Z;
  cb : option Z;
  deadline : Z
}.

(** A call of the owner: the state callback, or the callback of a key. *)
Inductive call := StateCb (recv_ok : bool) | KeyCb (cb : Z).

(** Congestion control. *)
Record congestion := mkCongestion {
  inflight : Z; inflight_limit : Z; decrease_backoff : Z; congest_validity : Z; last_recv : Z
}.
(** What the sender knows of the receiver. *)
Record peer_state := mkPeer {
  recv_ok : bool; old_recv_ok : bool; s_ok_expiry : Z; last_extend_ok : Z
}.
Record sync_flags := mkSyncFlags {
  blocked : bool; synced : bool; start_done : bool; start_sent : bool; sync_done : bool; sync_sent : bool
}.

Record kvpsync_send_t := mkSend {
  heap : gmap addr send_data_t;
  next_addr : addr;
  s_sync_id : Z;
  s_resync_id : Z;
  s_update_id : Z;
  cache : gmap bytes addr;
  unsent : list addr;
  unacked : gmap Z addr;
  sent : list addr;
  oldest : list addr;
  cong : congestion;
  peer : peer_state;
  flags : sync_flags;
  state_cb : bool;
  calls : list call
}.

Definition upd_heap f s := mkSend (f (heap s)) (next_addr s) (s_sync_id s) (s_resync_id s) (s_update_id s)
  (cache s) (unsent s) (unacked s) (sent s) (oldest s) (cong s) (peer s) (flags s) (state_cb s) (calls s).
Definition set_ids sid rid uid s := mkSend (heap s) (next_addr s) sid rid uid
  (cache s) (unsent s) (unacked s) (sent s) (oldest s) (cong s) (peer s) (flags s) (state_cb s) (calls s).
Definition upd_cache f s := mkSend (heap s) (next_addr s) (s_sync_id s) (s_resync_id s) (s_update_id s)
  (f (cache s)) (unsent s) (unacked s) (sent s) (oldest s) (cong s) (peer s) (flags s) (state_cb s) (calls s).
Definition upd_unacked f s := mkSend (heap s) (next_addr s) (s_sync_id s) (s_resync_id s) (s_update_id s)
  (cache s) (unsent s) (f (unacked s)) (sent s) (oldest s) (cong s) (peer s) (flags s) (state_cb s) (calls s).
Definition set_lists u t s := mkSend (heap s) (next_addr s) (s_sync_id s) (s_resync_id s) (s_update_id s)
  (cache s) u (unacked s) t (oldest s) (cong s) (peer s) (flags s) (state_cb s) (calls s).
Definition upd_oldest f s := mkSend (heap s) (next_addr s) (s_sync_id s) (s_resync_id s) (s_update_id s)
  (cache s) (unsent s) (unacked s) (sent s) (f (oldest s)) (cong s) (peer s) (flags s) (state_cb s) (calls s).
Definition upd_cong f s := mkSend (heap s) (next_addr s) (s_sync_id s) (s_resync_id s) (s_update_id s)
  (cache s) (unsent s) (unacked s) (sent s) (oldest s) (f (cong s)) (peer s) (flags s) (state_cb s) (calls s).
Definition upd_peer f s := mkSend (heap s) (next_addr s) (s_sync_id s) (s_resync_id s) (s_update_id s)
  (cache s) (unsent s) (unacked s) (sent s) (oldest s) (cong s) (f (peer s)) (flags s) (state_cb s) (calls s).
Definition upd_flags f s := mkSend (heap s) (next_addr s) (s_sync_id s) (s_resync_id s) (s_update_id s)
  (cache s) (unsent s) (unacked s) (sent s) (oldest s) (cong s) (peer s) (f (flags s)) (state_cb s) (calls s).
Definition add_call c s := mkSend (heap s) (next_addr s) (s_sync_id s) (s_resync_id s) (s_update_id s)
  (cache s) (unsent s) (unacked s) (sent s) (oldest s) (cong s) (peer s) (flags s) (state_cb s) (calls s ++ [c]).

(** The order in which a traversal of the cache visits its data. *)
Class HashOrder := hash_order : gmap bytes addr -> list addr.

Abbreviation send := (stm kvpsync_send_t).
Definition get_send : send kvpsync_send_t := fun s => (Ok s, s).
Definition mod_send (f : kvpsync_send_t -> kvpsync_send_t) : send unit := fun s => (Ok tt, f s).
Definition fatal {A} : send A := st_lift (Stop Fatal).

Definition deref_data (a : addr) : send send_data_t := fun s =>
  match heap s !! a with
  | Some d => (Ok d, s)
  | None => (Stop OutOfBounds, s)
  end.
Definition put_data (a : addr) (d : send_data_t) : send unit :=
  mod_send (upd_heap (fun m => <[a := d]> m)).

Definition set_update u d := mkSendData u (nrefs d) (d_inflight d) (inflight_at_send d)
  (d_congest_validity d) (sent_time d) (cb d) (deadline d).
Definition set_nrefs n d := mkSendData (update d) n (d_inflight d) (inflight_at_send d)
  (d_congest_validity d) (sent_time d) (cb d) (deadline d).
Definition set_inflight b d := mkSendData (update d) (nrefs d) b (inflight_at_send d)
  (d_congest_validity d) (sent_time d) (cb d) (deadline d).
Definition set_sent (u : kvp_update_t) (n v t : Z) d := mkSendData u (nrefs d) true n v t (cb d) (deadline d).
Definition set_cb c d := mkSendData (update d) (nrefs d) (d_inflight d) (inflight_at_send d)
  (d_congest_validity d) (sent_time d) c (deadline d).

Definition with_inflight n c := mkCongestion n (inflight_limit c) (decrease_backoff c) (congest_validity c) (last_recv c).
Definition with_ids sync_id_ update_id_ u := mkUpdate (ok_expiry u) sync_id_ update_id_ (utype u)
  (resync_id u) (key u) (delete_id u) (val u).
Definition with_expiry e u := mkUpdate e (sync_id u) (update_id u) (utype u) (resync_id u) (key u) (delete_id u) (val u).

(** ** Objects *)

(** Aborts when memory runs out. *)
Definition send_data_xnew (mem : bool) (u : kvp_update_t) (cb_ : option Z) (deadline_ : Z) : send addr :=
  if negb mem then fatal
  else fun s =>
    let a := next_addr s in
    (Ok a, mkSend (<[a := mkSendData u 1 false 0 0 0 cb_ deadline_]> (heap s)) (a + 1) (s_sync_id s)
       (s_resync_id s) (s_update_id s) (cache s) (unsent s) (unacked s) (sent s) (oldest s) (cong s)
       (peer s) (flags s) (state_cb s) (calls s)).

Definition data_downref (a : addr) : send unit :=
  do! d := deref_data a in
  if negb (nrefs d - 1 =? 0) then put_data a (set_nrefs (nrefs d - 1) d)
  else mod_send (fun s => upd_heap (delete a) (upd_oldest (without a) s)).

Definition peek (l : list addr) : option addr := head l.

(** Remove from sent or unsent or wherever. *)
Definition data_remove (a : addr) : send unit :=
  do! d := deref_data a in
  do! s := get_send in
  do! _ := mod_send (set_lists (without a (unsent s)) (without a (sent s))) in
  let n := inflight (cong s) - (if d_inflight d then 1 else 0) in
  do! _ := mod_send (upd_cong (with_inflight n)) in
  if n <? 0 then fatal else put_data a (set_inflight false d).

Definition send_fresh (sync_id_ now : Z) (has_cb : bool) : kvpsync_send_t :=
  mkSend ∅ 0 sync_id_ 0 0 ∅ [] ∅ [] [] (mkCongestion 0 MIN_INFLIGHT 0 0 0)
    (mkPeer false false (u64 (now + MIN_RESPONSE)) 0)
    (mkSyncFlags false false false false false false) has_cb [].
Definition kvpsync_send_init (mem : bool) (draws : list (res Z)) (now : Z) (has_cb : bool) : res kvpsync_send_t :=
  let! sync_id_ := pick_id draws in
  if mem then Ok (send_fresh sync_id_ now has_cb) else Err E_NOMEM.

Definition maybe_state_cb : send unit :=
  do! s := get_send in
  let p := peer s in
  if negb (state_cb s) || Bool.eqb (old_recv_ok p) (recv_ok p) then st_ret tt
  else
    do! _ := mod_send (add_call (StateCb (recv_ok p))) in
    mod_send (upd_peer (fun p => mkPeer (recv_ok p) (recv_ok p) (s_ok_expiry p) (last_extend_ok p))).

(** [while((data = peek(list)))]: every step takes the head off. *)
Fixpoint empty_list (l : list addr) : send unit :=
  match l with
  | [] => st_ret tt
  | a :: l =>
      do! _ := data_remove a in
      do! _ := data_downref a in
      empty_list l
  end.

Definition drop_data : send unit :=
  do! _ := mod_send (upd_unacked (fun _ => ∅)) in
  do! s := get_send in
  do! _ := empty_list (unsent s) in
  do! s := get_send in
  empty_list (sent s).

Fixpoint downref_all (l : list addr) : send unit :=
  match l with
  | [] => st_ret tt
  | a :: l => do! _ := data_downref a in downref_all l
  end.
Definition kvpsync_send_free `{HashOrder} : send unit :=
  do! _ := drop_data in
  do! s := get_send in
  do! _ := mod_send (upd_cache (fun _ => ∅)) in
  downref_all (hash_order (cache s)).

(** Put something in unsent for the first time. *)
Definition data_queue (a : addr) : send unit :=
  do! d := deref_data a in
  do! s := get_send in
  let update_id_ := u32 (s_update_id s + 1) in
  do! _ := mod_send (set_ids (s_sync_id s) (s_resync_id s) update_id_) in
  do! _ := put_data a (set_update (with_ids (s_sync_id s) update_id_ (update d)) d) in
  do! _ := mod_send (set_lists (unsent s ++ [a]) (sent s)) in
  do! _ := mod_send (upd_unacked (fun m => <[update_id_ := a]> m)) in
  match unacked s !! update_id_ with
  | Some b => if b =? a then st_ret tt else fatal
  | None => st_ret tt
  end.

Definition calculate_ok_expiry (now : Z) : send Z :=
  do! s := get_send in
  let p := peer s in
  if negb (recv_ok p) then st_ret 0
  else
    let e := s_ok_expiry p in
    let e := if last_recv (cong s) >? last_extend_ok p then u64 (now + MIN_RESPONSE) else e in
    do! e :=
      match peek (oldest s) with
      | None => st_ret e
      | Some a => do! d := deref_data a in st_ret (Z.min (deadline d) e)
      end in
    do! _ := (if e >? s_ok_expiry p
              then mod_send (upd_peer (fun p => mkPeer (recv_ok p) (old_recv_ok p) e now))
              else st_ret tt) in
    st_ret e.

(** The result is the packet written to the wire. *)
Definition data_send (a : addr) (now : Z) : send kvp_update_t :=
  do! _ := data_remove a in
  do! s := get_send in
  do! _ := mod_send (set_lists (unsent s) (sent s ++ [a])) in
  let n := inflight (cong s) + 1 in
  do! _ := mod_send (upd_cong (with_inflight n)) in
  do! e := calculate_ok_expiry now in
  do! d := deref_data a in
  let u := with_expiry e (update d) in
  do! _ := put_data a (set_sent u n (congest_validity (cong s)) now d) in
  st_ret u.

(** ** Queueing *)

(** A packet of the type alone; ids are given when it is queued. *)
Definition bare (type resync_id_ : Z) : kvp_update_t := mkUpdate 0 0 0 type resync_id_ [] 0 [].

Definition queue_start (mem : bool) : send unit :=
  do! s := get_send in
  do! a := send_data_xnew mem (bare KVP_UPDATE_START (s_resync_id s)) None 0 in data_queue a.
Definition queue_flush (mem : bool) : send unit :=
  do! a := send_data_xnew mem (bare KVP_UPDATE_FLUSH 0) None 0 in data_queue a.
Definition queue_empty (mem : bool) : send unit :=
  do! a := send_data_xnew mem (bare KVP_UPDATE_EMPTY 0) None 0 in data_queue a.

Fixpoint queue_each (l : list addr) : send unit :=
  match l with
  | [] => st_ret tt
  | a :: l =>
      do! d := deref_data a in
      do! _ := put_data a (set_nrefs (nrefs d + 1) d) in
      if negb (nrefs d =? 1) then fatal
      else do! _ := data_queue a in queue_each l
  end.
(** Whether there was something to queue. *)
Definition queue_all_inserts `{HashOrder} : send bool :=
  do! s := get_send in
  let l := hash_order (cache s) in
  do! _ := queue_each l in
  st_ret (negb (bool_decide (l = []))).

Definition kvpsync_send_resync (resync_id_ : Z) : send unit :=
  do! s := get_send in
  let sid := u32 (s_sync_id s + (1 + (if s_sync_id s =? UINT32_MAX then 1 else 0))) in
  do! _ := mod_send (set_ids sid resync_id_ 0) in
  do! _ := mod_send (upd_peer (fun p => mkPeer false (old_recv_ok p) (s_ok_expiry p) 0)) in
  do! _ := drop_data in
  do! _ := mod_send (upd_cong (with_inflight 0)) in
  do! _ := mod_send (upd_peer (fun p => mkPeer (recv_ok p) (old_recv_ok p) 0 (last_extend_ok p))) in
  mod_send (upd_flags (fun _ => mkSyncFlags false false false false false false)).

Definition set_blocked b f := mkSyncFlags b (synced f) (start_done f) (start_sent f) (sync_done f) (sync_sent f).

(** The start packet, until it is acked: [false] when it returns early. *)
Definition advance_start (mem : bool) : send bool :=
  do! s := get_send in
  if start_done (flags s) then st_ret true
  else
    do! _ := (if start_sent (flags s) then st_ret tt
              else
                do! _ := queue_start mem in
                mod_send (upd_flags (fun f => mkSyncFlags true (synced f) (start_done f) true (sync_done f) (sync_sent f)))) in
    do! s := get_send in
    if blocked (flags s) then st_ret false
    else
      do! _ := mod_send (upd_flags (fun f => mkSyncFlags (blocked f) (synced f) true (start_sent f) (sync_done f) (sync_sent f))) in
      st_ret true.

(** The sync content, until it is acked. *)
Definition advance_sync `{HashOrder} : send bool :=
  do! s := get_send in
  if sync_done (flags s) then st_ret true
  else
    do! _ := (if sync_sent (flags s) then st_ret tt
              else
                do! nonempty := queue_all_inserts in
                mod_send (upd_flags (fun f => mkSyncFlags nonempty (synced f) (start_done f) (start_sent f) (sync_done f) true))) in
    do! s := get_send in
    if blocked (flags s) then st_ret false
    else
      do! _ := mod_send (upd_flags (fun f => mkSyncFlags (blocked f) (synced f) (start_done f) (start_sent f) true (sync_sent f))) in
      st_ret true.

Definition advance_state `{HashOrder} (mem : bool) (now : Z) : send unit :=
  do! s := get_send in
  if synced (flags s) then st_ret tt
  else
    do! go := advance_start mem in
    if negb go then st_ret tt
    else
      do! go := advance_sync in
      if negb go then st_ret tt
      else
        do! _ := mod_send (upd_peer (fun p => mkPeer true (old_recv_ok p) (s_ok_expiry p) (last_extend_ok p))) in
        do! _ := calculate_ok_expiry now in
        do! _ := queue_flush mem in
        mod_send (upd_flags (fun f => mkSyncFlags (blocked f) true (start_done f) (start_sent f) (sync_done f) (sync_sent f))).

(** ** Acks *)

Definition successful_packet (d : send_data_t) : send unit :=
  mod_send (upd_cong (fun c =>
    if negb (d_congest_validity d =? congest_validity c) then c
    else if inflight_at_send d <? inflight_limit c then c
    else mkCongestion (inflight c) (inflight_limit c + INCREASE_PKTS) (decrease_backoff c)
           (u32 (congest_validity c + 1)) (last_recv c))).

Definition handle_ack (ack : kvp_ack_t) (now : Z) : send unit :=
  do! _ := mod_send (upd_cong (fun c => mkCongestion (inflight c) (inflight_limit c) (decrease_backoff c) (congest_validity c) now)) in
  do! s := get_send in
  if ack_update_id ack =? 0 then
    if ack_sync_id ack =? s_resync_id s then st_ret tt
    else kvpsync_send_resync (ack_sync_id ack)
  else if negb (ack_sync_id ack =? s_sync_id s) then st_ret tt
  else
    match unacked s !! ack_update_id ack with
    | None => st_ret tt
    | Some a =>
        do! _ := mod_send (upd_unacked (delete (ack_update_id ack))) in
        do! _ := data_remove a in
        do! _ := mod_send (fun s =>
          if bool_decide (sent s = []) && bool_decide (unsent s = []) then upd_flags (set_blocked false) s else s) in
        do! d := deref_data a in
        do! _ := successful_packet d in
        do! _ :=
          match cb d with
          | None => st_ret tt
          | Some c =>
              do! _ := mod_send (upd_oldest (without a)) in
              do! _ := mod_send (add_call (KeyCb c)) in
              put_data a (set_cb None d)
          end in
        data_downref a
    end.

Definition kvpsync_send_handle_ack (ack : kvp_ack_t) (now : Z) : send unit :=
  do! _ := handle_ack ack now in maybe_state_cb.

(** ** Running *)

Definition fault_time (d : send_data_t) : Z := u64 (sent_time d + 1 * SECOND).
Definition inflight_is_full (s : kvpsync_send_t) : bool := inflight (cong s) >=? inflight_limit (cong s).

Definition fault_detected (d : send_data_t) (now : Z) : send unit :=
  mod_send (upd_cong (fun c =>
    if negb (d_congest_validity d =? congest_validity c) then c
    else if now <? decrease_backoff c then c
    else mkCongestion (inflight c) (Z.max (DECREASE_BY_FACTOR (inflight_limit c)) MIN_INFLIGHT)
           (u64 (now + DECREASE_BACKOFF)) (u32 (congest_validity c + 1)) (last_recv c))).

(** [while((data = peek(&s->sent)))]: everything that was sent goes before [ptr],
    which is the first unsent packet, or the end of the list. *)
Fixpoint resend_all (l : list addr) (before after : list addr) : send unit :=
  match l with
  | [] => st_ret tt
  | a :: l =>
      do! _ := data_remove a in
      do! _ := mod_send (fun s => set_lists (before ++ a :: after) (sent s) s) in
      resend_all l (before ++ [a]) after
  end.

(** Packets past their fault time go to the end of unsent. *)
Fixpoint resend_late (now : Z) (l : list addr) : send unit :=
  match l with
  | [] => st_ret tt
  | a :: l =>
      do! d := deref_data a in
      if now >=? fault_time d then
        do! _ := data_remove a in
        do! _ := mod_send (fun s => set_lists (unsent s ++ [a]) (sent s) s) in
        do! _ := fault_detected d now in
        resend_late now l
      else st_ret tt
  end.

(** An unresponsive peer: everything is sent again, one packet at a time. *)
Definition check_unresponsive (now : Z) : send unit :=
  do! s := get_send in
  match peek (sent s) with
  | None => st_ret tt
  | Some a =>
      do! d := deref_data a in
      if (now >=? fault_time d) && (last_recv (cong s) <=? sent_time d) then
        do! _ := resend_all (sent s) [] (unsent s) in
        do! s := get_send in
        if negb (inflight (cong s) =? 0) then fatal
        else mod_send (upd_cong (fun c => mkCongestion (inflight c) MIN_INFLIGHT (decrease_backoff c) (congest_validity c) (last_recv c)))
      else st_ret tt
  end.

Record kvpsync_run_t := mkRun { pkt : option kvp_update_t; run_deadline : Z }.

(** The fault time of the oldest sent packet, which must exist. *)
Definition first_fault : send Z :=
  do! s := get_send in
  match peek (sent s) with
  | None => st_lift (Stop OutOfBounds)
  | Some a => do! d := deref_data a in st_ret (fault_time d)
  end.

(** What to send now, and the deadline before it is adjusted. *)
Definition choose_packet (mem : bool) (now : Z) : send kvpsync_run_t :=
  do! s := get_send in
  match (if inflight_is_full s then None else peek (unsent s)) with
  | Some a =>
      do! p := data_send a now in
      do! s := get_send in
      if negb (inflight_is_full s) && negb (bool_decide (unsent s = [])) then st_ret (mkRun (Some p) 0)
      else do! t := first_fault in st_ret (mkRun (Some p) t)
  | None =>
      match peek (sent s) with
      | Some _ => do! t := first_fault in st_ret (mkRun None t)
      | None =>
          let e := s_ok_expiry (peer s) in
          if u64 (now + 3 * SECOND) <? e then st_ret (mkRun None (u64 (e - 3 * SECOND)))
          else
            do! _ := mod_send (upd_peer (fun p => mkPeer true (old_recv_ok p) (s_ok_expiry p) (last_extend_ok p))) in
            do! _ := queue_empty mem in
            do! s := get_send in
            match peek (unsent s) with
            | None => st_lift (Stop OutOfBounds)
            | Some a =>
                do! p := data_send a now in
                do! d := deref_data a in
                st_ret (mkRun (Some p) (fault_time d))
            end
      end
  end.

Definition send_run `{HashOrder} (mem : bool) (now : Z) : send kvpsync_run_t :=
  do! _ := advance_state mem now in
  do! _ := mod_send (upd_peer (fun p =>
    if recv_ok p && (now >=? s_ok_expiry p) then mkPeer false (old_recv_ok p) (s_ok_expiry p) (last_extend_ok p) else p)) in
  do! _ := check_unresponsive now in
  do! s := get_send in
  do! _ := resend_late now (sent s) in
  do! out := choose_packet mem now in
  do! s := get_send in
  let p := peer s in
  st_ret (if recv_ok p && (run_deadline out >? s_ok_expiry p) then mkRun (pkt out) (s_ok_expiry p) else out).

Definition kvpsync_send_run `{HashOrder} (mem : bool) (now : Z) : send kvpsync_run_t :=
  do! out := send_run mem now in
  do! _ := maybe_state_cb in
  st_ret out.

(** ** Keys *)

Definition queue_delete_and_downref (mem : bool) (old : addr) : send unit :=
  do! s := get_send in
  do! d := deref_data old in
  do! _ :=
    (if sync_sent (flags s) && (sync_id (update d) =? s_sync_id s) then
       do! a := send_data_xnew mem
         (mkUpdate 0 0 0 KVP_UPDATE_DELETE 0 (key (update d)) (update_id (update d)) []) None 0 in
       data_queue a
     else st_ret tt) in
  data_downref old.

Definition kvpsync_send_add_key (mem : bool) (now : Z) (k v : bytes) (cb_ : option Z) : send unit :=
  if (zlen k >? KVPSYNC_MAX_LEN) || (zlen v >? KVPSYNC_MAX_LEN) then fatal
  else
    do! a := send_data_xnew mem (mkUpdate 0 0 0 KVP_UPDATE_INSERT 0 k 0 v) cb_ (u64 (now + MIN_RESPONSE)) in
    do! _ := mod_send (upd_oldest (fun l => l ++ [a])) in
    do! s := get_send in
    do! _ := mod_send (upd_cache (fun m => <[k := a]> m)) in
    do! _ := match cache s !! k with
             | None => st_ret tt
             | Some old => queue_delete_and_downref mem old
             end in
    do! s := get_send in
    if sync_sent (flags s) then
      do! d := deref_data a in
      do! _ := put_data a (set_nrefs (nrefs d + 1) d) in
      data_queue a
    else st_ret tt.

Definition kvpsync_send_delete_key (mem : bool) (k : bytes) : send unit :=
  do! s := get_send in
  match cache s !! k with
  | None => st_ret tt
  | Some a =>
      do! _ := mod_send (upd_cache (delete k)) in
      do! d := deref_data a in
      do! _ := put_data a (set_cb None d) in
      queue_delete_and_downref mem a
  end.

(** ** The sender's invariant *)

Definition listed (s : kvpsync_send_t) : list addr := unsent s ++ sent s.
Definition times (x : list addr) (a : addr) : Z := zlen (filter (fun b => b = a) x).
Definition b2z (b : bool) : Z := if b then 1 else 0.

(** References that the lists, the cache and the running operation [x] hold. *)
Definition refs (x : list addr) (s : kvpsync_send_t) (a : addr) (d : send_data_t) : Z :=
  b2z (bool_decide (cache s !! key (update d) = Some a)) + b2z (bool_decide (a ∈ listed s)) + times x a.

(** Every packet that was ever queued, by sync and update ids. *)
Abbreviation history := (gmap (Z * Z) kvp_update_t).
Definition history_log (H : history) : sender_log := fun s i => H !! (s, i).

Record core (x : list addr) (H : history) (s : kvpsync_send_t) : Prop := {
  c_nodup : NoDup (listed s);
  c_listed : forall a, a ∈ listed s -> exists d, heap s !! a = Some d /\ update_ok (update d) /\ update_id (update d) <> 0;
  c_inflight : forall a d, heap s !! a = Some d -> d_inflight d = bool_decide (a ∈ sent s);
  c_count : inflight (cong s) = zlen (sent s);
  c_cache : forall k a, cache s !! k = Some a ->
    exists d, heap s !! a = Some d /\ utype (update d) = KVP_UPDATE_INSERT /\ key (update d) = k;
  c_refs : forall a d, heap s !! a = Some d -> nrefs d = refs x s a d /\ 0 < nrefs d;
  c_held : forall a, a ∈ x -> exists d, heap s !! a = Some d;
  c_oldest : forall a, a ∈ oldest s -> exists d, heap s !! a = Some d;
  c_fresh : forall a d, heap s !! a = Some d -> a < next_addr s;
  c_shape : forall a d, heap s !! a = Some d -> update_ok (with_ids 0 1 (update d)) /\ is_u64 (deadline d);
  c_log : forall a d, heap s !! a = Some d ->
    sync_id (update d) = 0 /\ update_id (update d) = 0 \/
    history_log H (sync_id (update d)) (update_id (update d)) = Some (strip (update d));
  c_bound : forall i j p, H !! (i, j) = Some p -> i < s_sync_id s \/ i = s_sync_id s /\ j <= s_update_id s;
  c_honest : honest (history_log H);
  c_limit : 1 <= inflight_limit (cong s);
  c_ids : 1 <= s_sync_id s < 2 ^ 32 /\ 0 <= s_update_id s < 2 ^ 32 /\ is_u32 (s_resync_id s);
  c_expiry : is_u64 (s_ok_expiry (peer s))
}.

(** The table of unacked packets is the lists. *)
Record acks (s : kvpsync_send_t) : Prop := {
  a_listed : forall a d, a ∈ listed s -> heap s !! a = Some d -> unacked s !! update_id (update d) = Some a;
  a_unacked : forall u a, unacked s !! u = Some a -> a ∈ listed s /\ 1 <= u <= s_update_id s /\
    exists d, heap s !! a = Some d /\ update_id (update d) = u
}.

(** Before the content of a sync is sent, no insertion is listed. *)
Record phases (s : kvpsync_send_t) : Prop := {
  ph_sync : sync_sent (flags s) = false -> forall k a, cache s !! k = Some a -> a ∉ listed s;
  ph_start : start_sent (flags s) = false -> listed s = [] /\ s_update_id s = 0 /\ sync_sent (flags s) = false;
  ph_order : (start_done (flags s) = true -> start_sent (flags s) = true) /\
    (sync_done (flags s) = true -> sync_sent (flags s) = true) /\
    (synced (flags s) = true -> start_sent (flags s) = true)
}.

Lemma times_cons b x a : times (b :: x) a = b2z (bool_decide (b = a)) + times x a.
Proof.
  unfold times. rewrite filter_cons. case_decide; [rewrite bool_decide_eq_true_2 by done|rewrite bool_decide_eq_false_2 by done];
    rewrite ?zlen_cons; simpl; lia.
Qed.

Lemma times_nonneg x a : 0 <= times x a.
Proof. apply zlen_nonneg. Qed.

Lemma b2z_range b : 0 <= b2z b <= 1.
Proof. destruct b; simpl; lia. Qed.

Lemma times_in x a : a ∈ x -> 1 <= times x a.
Proof.
  induction x as [|b x IH]; [set_solver|]. rewrite times_cons. intros Ha. pose proof (times_nonneg x a).
  pose proof (b2z_range (bool_decide (b = a))).
  apply elem_of_cons in Ha as [->|Ha]; [rewrite bool_decide_eq_true_2 by done; simpl; lia|].
  specialize (IH Ha). lia.
Qed.

Lemma times_not_in x a : a ∉ x -> times x a = 0.
Proof.
  induction x as [|b x IH]; [done|]. intros Ha. rewrite times_cons, IH by set_solver.
  rewrite bool_decide_eq_false_2 by set_solver. done.
Qed.

Lemma run_deref_data a d s : heap s !! a = Some d -> deref_data a s = (Ok d, s).
Proof. unfold deref_data. by intros ->. Qed.

Lemma listed_live x H s a : core x H s -> a ∈ listed s -> exists d, heap s !! a = Some d.
Proof. intros Hc Ha. destruct (c_listed _ _ _ Hc a Ha) as (d & ? & _). eauto. Qed.

(** Fields that the invariants do not mention can change. *)
Lemma core_ext x H s s' :
  core x H s ->
  heap s' = heap s -> next_addr s' = next_addr s -> s_sync_id s' = s_sync_id s ->
  s_resync_id s' = s_resync_id s -> s_update_id s' = s_update_id s -> cache s' = cache s -> unsent s' = unsent s ->
  sent s' = sent s -> oldest s' = oldest s -> inflight (cong s') = inflight (cong s) ->
  1 <= inflight_limit (cong s') -> is_u64 (s_ok_expiry (peer s')) -> core x H s'.
Proof.
  intros [] E1 E2 E3 E3' E4 E5 E6 E7 E8 E9 E10 E11.
  destruct s, s'; unfold listed, refs in *; simpl in *; subst. constructor; simpl; try done. congruence.
Qed.

Lemma acks_ext s s' :
  acks s -> heap s' = heap s -> s_update_id s' = s_update_id s -> unsent s' = unsent s ->
  sent s' = sent s -> unacked s' = unacked s -> acks s'.
Proof.
  intros [] E1 E2 E3 E4 E5. destruct s, s'; unfold listed in *; simpl in *; subst. by constructor.
Qed.

(** A data whose references, lists and packet stay the same can change. *)
Lemma core_put x H s a d d' :
  core x H s -> heap s !! a = Some d -> update d' = update d -> nrefs d' = nrefs d ->
  d_inflight d' = d_inflight d -> deadline d' = deadline d -> core x H (upd_heap (fun m => <[a := d']> m) s).
Proof.
  intros [] Ha Eu En Ei Ed.
  assert (forall b e, <[a := d']> (heap s) !! b = Some e -> exists e0, heap s !! b = Some e0 /\
    update e = update e0 /\ nrefs e = nrefs e0 /\ d_inflight e = d_inflight e0 /\ deadline e = deadline e0) as Hold.
  { intros b e He. apply lookup_insert_Some in He as [[<- <-]|[_ He]]; eauto 8. }
  assert (forall b e, heap s !! b = Some e -> exists e0, <[a := d']> (heap s) !! b = Some e0 /\ update e0 = update e) as Hnew.
  { intros b e He. destruct (decide (a = b)) as [<-|]; [exists d'|exists e; by rewrite lookup_insert_ne].
    rewrite lookup_insert_eq. split; [done|]. congruence. }
  constructor; simpl; try done.
  - intros b Hb. destruct (c_listed0 b Hb) as (e & He & H1 & H2). destruct (Hnew b e He) as (e0 & He0 & Eu0).
    exists e0. by rewrite Eu0.
  - intros b e He. apply Hold in He as (e0 & He0 & _ & _ & -> & _). eauto.
  - intros k b Hb. destruct (c_cache0 k b Hb) as (e & He & H1 & H2). destruct (Hnew b e He) as (e0 & He0 & Eu0).
    exists e0. by rewrite Eu0.
  - intros b e He. apply Hold in He as (e0 & He0 & Eu0 & -> & _). unfold refs. rewrite Eu0. by apply c_refs0.
  - intros b Hb. destruct (c_held0 b Hb) as (e & He). destruct (Hnew b e He) as (e0 & He0 & _). eauto.
  - intros b Hb. destruct (c_oldest0 b Hb) as (e & He). destruct (Hnew b e He) as (e0 & He0 & _). eauto.
  - intros b e He. apply Hold in He as (e0 & He0 & _). eauto.
  - intros b e He. apply Hold in He as (e0 & He0 & -> & _ & _ & ->). eauto.
  - intros b e He. apply Hold in He as (e0 & He0 & -> & _). eauto.
Qed.

(** ** Releasing a reference *)

Definition decref (a : addr) (d : send_data_t) (s : kvpsync_send_t) : kvpsync_send_t :=
  if nrefs d =? 1 then upd_heap (delete a) (upd_oldest (without a) s)
  else upd_heap (fun m => <[a := set_nrefs (nrefs d - 1) d]> m) s.

Lemma run_downref a d s : heap s !! a = Some d -> data_downref a s = (Ok tt, decref a d s).
Proof.
  intros Ha. unfold data_downref. rewrite (st_run _ _ _ _ _ (run_deref_data a d s Ha)). unfold decref.
  destruct (Z.eqb_spec (nrefs d) 1), (Z.eqb_spec (nrefs d - 1) 0); try lia; done.
Qed.

(** The fields that tell where a data is. *)
Definition same_places (s s' : kvpsync_send_t) : Prop :=
  cache s' = cache s /\ unsent s' = unsent s /\ sent s' = sent s /\ unacked s' = unacked s /\
  flags s' = flags s /\ s_sync_id s' = s_sync_id s /\ s_resync_id s' = s_resync_id s /\
  s_update_id s' = s_update_id s.

Lemma decref_places a d s : same_places s (decref a d s).
Proof. unfold decref, same_places. by case_match. Qed.

Lemma core_decref x H s a d :
  core (a :: x) H s -> heap s !! a = Some d ->
  core x H (decref a d s) /\
  (forall b e, heap (decref a d s) !! b = Some e ->
     exists e0, heap s !! b = Some e0 /\ update e = update e0 /\ d_inflight e = d_inflight e0) /\
  (forall b e, heap s !! b = Some e -> (b <> a \/ 1 < nrefs d) ->
     exists e0, heap (decref a d s) !! b = Some e0 /\ update e0 = update e).
Proof.
  intros [] Ha. destruct (c_refs0 a d Ha) as [Hr Hpos]. unfold refs in Hr. rewrite times_cons in Hr.
  rewrite (bool_decide_eq_true_2 (a = a)) in Hr by done. change (b2z true) with 1 in Hr.
  pose proof (b2z_range (bool_decide (cache s !! key (update d) = Some a))) as Hz1.
  pose proof (b2z_range (bool_decide (a ∈ listed s))) as Hz2. pose proof (times_nonneg x a) as Hz3.
  assert (forall b (e : send_data_t), b <> a -> refs (a :: x) s b e = refs x s b e) as Href.
  { intros b e Hne. unfold refs. rewrite times_cons, (bool_decide_eq_false_2 (a = b)) by congruence. done. }
  unfold decref. destruct (Z.eqb_spec (nrefs d) 1) as [Hn1|Hn1].
  - (* the last reference *)
    assert (times x a = 0) as Ht by lia.
    assert (a ∉ listed s) as Hnl.
    { intros Hin. rewrite (bool_decide_eq_true_2 (a ∈ _)) in Hr by done. simpl in Hr. lia. }
    assert (cache s !! key (update d) <> Some a) as Hnc.
    { intros Hin. rewrite (bool_decide_eq_true_2 (cache s !! _ = _)) in Hr by done. simpl in Hr. lia. }
    assert (forall b e, delete a (heap s) !! b = Some e -> b <> a /\ heap s !! b = Some e) as Hdel.
    { intros b e He. apply lookup_delete_Some in He as [? ?]. done. }
    assert (forall b, b <> a -> (exists e, heap s !! b = Some e) -> exists e, delete a (heap s) !! b = Some e) as Hkeep.
    { intros b Hne [e He]. exists e. by rewrite lookup_delete_ne. }
    split; [|split].
    + constructor; simpl; try done.
      * intros b Hb. destruct (c_listed0 b Hb) as (e & He & H2). exists e. split; [|done].
        rewrite lookup_delete_ne; [done|]. intros ->. done.
      * intros b e He. apply Hdel in He as [_ He]. eauto.
      * intros k b Hb. destruct (c_cache0 k b Hb) as (e & He & H2). exists e. split; [|done].
        rewrite lookup_delete_ne; [done|]. intros ->. simplify_eq. by destruct H2 as [_ <-].
      * intros b e He. apply Hdel in He as [Hne He]. change (nrefs e = refs x s b e /\ 0 < nrefs e).
        rewrite <- (Href b e Hne). eauto.
      * intros b Hb. apply Hkeep; [intros ->; pose proof (times_in x a Hb); lia|]. apply c_held0. set_solver.
      * intros b Hb. apply without_in in Hb as [Hne Hb]. apply Hkeep; [done|]. eauto.
      * intros b e He. apply Hdel in He as [_ He]. eauto.
      * intros b e He. apply Hdel in He as [_ He]. eauto.
      * intros b e He. apply Hdel in He as [_ He]. eauto.
    + intros b e He. simpl in He. apply Hdel in He as [_ He]. eauto.
    + intros b e He [Hne|Hlt]; [|lia]. exists e. simpl. by rewrite lookup_delete_ne.
  - assert (forall b e, <[a := set_nrefs (nrefs d - 1) d]> (heap s) !! b = Some e ->
      exists e0, heap s !! b = Some e0 /\ update e = update e0 /\ d_inflight e = d_inflight e0 /\
        deadline e = deadline e0 /\ nrefs e = nrefs e0 - (if decide (b = a) then 1 else 0)) as Hold.
    { intros b e He. apply lookup_insert_Some in He as [[<- <-]|[Hne He]].
      - exists d. rewrite decide_True by done. split_and!; done.
      - exists e. rewrite decide_False by congruence. split_and!; try done. lia. }
    assert (forall b e, heap s !! b = Some e -> exists e0, <[a := set_nrefs (nrefs d - 1) d]> (heap s) !! b = Some e0 /\ update e0 = update e) as Hnew.
    { intros b e He. destruct (decide (a = b)) as [<-|]; [|exists e; by rewrite lookup_insert_ne].
      eexists. rewrite lookup_insert_eq. split; [done|]. simpl. congruence. }
    split; [|split].
    + constructor; simpl; try done.
      * intros b Hb. destruct (c_listed0 b Hb) as (e & He & H2 & H3). destruct (Hnew b e He) as (e0 & He0 & E0).
        exists e0. by rewrite E0.
      * intros b e He. apply Hold in He as (e0 & He & _ & -> & _). eauto.
      * intros k b Hb. destruct (c_cache0 k b Hb) as (e & He & H2). destruct (Hnew b e He) as (e0 & He0 & E0).
        exists e0. by rewrite E0.
      * intros b e He. apply Hold in He as (e0 & He & E0 & _ & _ & ->). destruct (c_refs0 b e0 He) as [-> ?].
        destruct (decide (b = a)) as [->|Eb]; [simplify_eq|].
        -- unfold refs in *. simpl. rewrite E0. rewrite times_cons, (bool_decide_eq_true_2 (a = a)) by done. simpl.
           change (listed (upd_heap ?f s)) with (listed s). lia.
        -- rewrite (Href b e0 Eb) in *. unfold refs in *. simpl. rewrite E0.
           change (listed (upd_heap ?f s)) with (listed s). lia.
      * intros b Hb. destruct (c_held0 b) as (e & He); [set_solver|]. destruct (Hnew b e He) as (e0 & He0 & _). eauto.
      * intros b Hb. destruct (c_oldest0 b Hb) as (e & He). destruct (Hnew b e He) as (e0 & He0 & _). eauto.
      * intros b e He. apply Hold in He as (e0 & He & _). eauto.
      * intros b e He. apply Hold in He as (e0 & He & -> & _ & -> & _). eauto.
      * intros b e He. apply Hold in He as (e0 & He & -> & _). eauto.
    + intros b e He. simpl in He. apply Hold in He as (e0 & He & ? & ? & _). eauto.
    + intros b e He _. by apply Hnew.
Qed.

(** ** Taking a data off the lists *)

Definition unlisted (a : addr) (d : send_data_t) (s : kvpsync_send_t) : kvpsync_send_t :=
  upd_heap (fun m => <[a := set_inflight false d]> m)
    (upd_cong (with_inflight (inflight (cong s) - b2z (d_inflight d)))
       (set_lists (without a (unsent s)) (without a (sent s)) s)).

Lemma zlen_without a l : NoDup l -> zlen (without a l) = zlen l - b2z (bool_decide (a ∈ l)).
Proof.
  induction l as [|b l IH]; intros Hd; [done|]. inversion Hd as [|? ? Hn Hd']; subst.
  specialize (IH Hd'). rewrite without_cons. destruct (decide (b = a)) as [->|Hne].
  - rewrite without_absent, (bool_decide_eq_true_2 (a ∈ a :: l)), zlen_cons by (done || set_solver).
    simpl. lia.
  - rewrite !zlen_cons, IH, (bool_decide_ext (a ∈ b :: l) (a ∈ l)) by set_solver. lia.
Qed.

Lemma run_data_remove x H a d s :
  core x H s -> heap s !! a = Some d -> data_remove a s = (Ok tt, unlisted a d s).
Proof.
  intros Hc Ha. unfold data_remove. rewrite (st_run _ _ _ _ _ (run_deref_data a d s Ha)).
  unfold get_send. rewrite (st_run _ _ s s s) by done. unfold mod_send, put_data.
  rewrite (st_run _ _ s tt (set_lists (without a (unsent s)) (without a (sent s)) s)) by done.
  change (if d_inflight d then 1 else 0) with (b2z (d_inflight d)).
  rewrite (st_run _ _ _ tt (upd_cong (with_inflight (inflight (cong s) - b2z (d_inflight d)))
       (set_lists (without a (unsent s)) (without a (sent s)) s))) by done.
  assert (0 <= inflight (cong s) - b2z (d_inflight d)) as Hn.
  { rewrite (c_inflight _ _ _ Hc a d Ha), (c_count _ _ _ Hc). case_bool_decide as Ein; simpl;
      [|pose proof (zlen_nonneg (sent s)); lia].
    apply list_elem_of_split in Ein as (l1 & l2 & ->). rewrite zlen_app, zlen_cons.
    pose proof (zlen_nonneg l1). pose proof (zlen_nonneg l2). lia. }
  by destruct (Z.ltb_spec (inflight (cong s) - b2z (d_inflight d)) 0); [lia|].
Qed.

Lemma listed_unlisted a d s : listed (unlisted a d s) = without a (listed s).
Proof. unfold listed. simpl. by rewrite without_app. Qed.

(** The reference of the list passes to the running operation. *)
Lemma core_unlisted x H s a d :
  core x H s -> heap s !! a = Some d ->
  core (if bool_decide (a ∈ listed s) then a :: x else x) H (unlisted a d s).
Proof.
  intros Hc Ha. pose proof Hc as [].
  assert (forall b e, <[a := set_inflight false d]> (heap s) !! b = Some e ->
    exists e0, heap s !! b = Some e0 /\ update e = update e0 /\ nrefs e = nrefs e0 /\
      deadline e = deadline e0 /\ d_inflight e = (if decide (b = a) then false else d_inflight e0)) as Hold.
  { intros b e He. apply lookup_insert_Some in He as [[<- <-]|[Hne He]].
    - exists d. by rewrite decide_True.
    - exists e. by rewrite decide_False by congruence. }
  assert (forall b e, heap s !! b = Some e -> exists e0, <[a := set_inflight false d]> (heap s) !! b = Some e0 /\ update e0 = update e) as Hnew.
  { intros b e He. destruct (decide (a = b)) as [<-|]; [|exists e; by rewrite lookup_insert_ne].
    eexists. rewrite lookup_insert_eq. split; [done|]. simpl. congruence. }
  assert (NoDup (sent s)) as Hds by (unfold listed in c_nodup0; by apply NoDup_app in c_nodup0 as (_ & _ & ?)).
  constructor; rewrite ?listed_unlisted; simpl; try done.
  - by apply without_nodup.
  - intros b Hb. apply without_in in Hb as [Hne Hb]. destruct (c_listed0 b Hb) as (e & He & H2 & H3).
    destruct (Hnew b e He) as (e0 & He0 & E0). exists e0. by rewrite E0.
  - intros b e He. apply Hold in He as (e0 & He & _ & _ & _ & ->). case_decide as Eb.
    + subst. rewrite bool_decide_eq_false_2; [done|]. rewrite without_in. tauto.
    + rewrite (c_inflight0 b e0 He). apply bool_decide_ext. rewrite without_in. tauto.
  - rewrite zlen_without by done. rewrite (c_inflight0 a d Ha). lia.
  - intros k b Hb. destruct (c_cache0 k b Hb) as (e & He & H2). destruct (Hnew b e He) as (e0 & He0 & E0).
    exists e0. by rewrite E0.
  - intros b e He. apply Hold in He as (e0 & He & E0 & -> & _). destruct (c_refs0 b e0 He) as [-> Hp].
    assert (refs (if bool_decide (a ∈ listed s) then a :: x else x) (unlisted a d s) b e = refs x s b e0) as ->; [|done].
    unfold refs. rewrite listed_unlisted, E0. simpl. destruct (decide (b = a)) as [->|Hne].
    + rewrite (bool_decide_eq_false_2 (a ∈ without _ _)) by (rewrite without_in; tauto).
      destruct (bool_decide (a ∈ listed s));
        rewrite ?times_cons, ?(bool_decide_eq_true_2 (a = a)) by done; simpl; lia.
    + rewrite (bool_decide_ext (b ∈ without a (listed s)) (b ∈ listed s)) by (rewrite without_in; tauto).
      destruct (bool_decide (a ∈ listed s));
        rewrite ?times_cons, ?(bool_decide_eq_false_2 (a = b)) by congruence; simpl; lia.
  - intros b Hb. destruct (decide (b = a)) as [->|Hne]; [eexists; by rewrite lookup_insert_eq|].
    rewrite lookup_insert_ne by congruence. apply c_held0. case_bool_decide; set_solver.
  - intros b Hb. destruct (c_oldest0 b Hb) as (e & He). destruct (Hnew b e He) as (e0 & He0 & _). eauto.
  - intros b e He. apply Hold in He as (e0 & He & _). eauto.
  - intros b e He. apply Hold in He as (e0 & He & -> & _ & -> & _). eauto.
  - intros b e He. apply Hold in He as (e0 & He & -> & _). eauto.
Qed.

(** ** Putting a data on a list *)

Definition in_history (H : history) (u : kvp_update_t) : Prop :=
  history_log H (sync_id u) (update_id u) = Some (strip u).

(** The reference of the running operation passes to the list. *)
Lemma core_enlist (x : list addr) (H H' : history) (s s' : kvpsync_send_t) (a : addr) (d d' : send_data_t) :
  core (a :: x) H s -> heap s !! a = Some d -> a ∉ listed s ->
  heap s' = <[a := d']> (heap s) -> next_addr s' = next_addr s -> s_sync_id s' = s_sync_id s ->
  s_resync_id s' = s_resync_id s -> s_update_id s <= s_update_id s' < 2 ^ 32 -> cache s' = cache s ->
  oldest s' = oldest s -> 1 <= inflight_limit (cong s') -> is_u64 (s_ok_expiry (peer s')) ->
  listed s' ≡ₚ a :: listed s -> (forall b, b <> a -> b ∈ sent s' <-> b ∈ sent s) ->
  inflight (cong s') = zlen (sent s') ->
  nrefs d' = nrefs d -> d_inflight d' = bool_decide (a ∈ sent s') -> deadline d' = deadline d ->
  utype (update d') = utype (update d) -> key (update d') = key (update d) ->
  update_ok (update d') -> update_ok (with_ids 0 1 (update d')) -> update_id (update d') <> 0 ->
  (forall i p, H !! i = Some p -> H' !! i = Some p) -> honest (history_log H') ->
  (forall i j p, H' !! (i, j) = Some p -> i < s_sync_id s' \/ i = s_sync_id s' /\ j <= s_update_id s') ->
  in_history H' (update d') ->
  core x H' s'.
Proof.
  intros [] Ha Hn Eh En Es Er Eu Ec Eo Hlim Hexp Hl Hs Hcount Enr Ein Edl Et Ek Hok Hsh Hne Hsub Hhon Hb Hin.
  assert (forall b e, heap s' !! b = Some e -> b = a /\ e = d' \/ b <> a /\ heap s !! b = Some e) as Hold.
  { intros b e He. rewrite Eh in He. apply lookup_insert_Some in He as [[<- <-]|[? ?]]; [by left|right]. done. }
  assert (forall b, (exists e, heap s !! b = Some e) -> exists e, heap s' !! b = Some e) as Hlive.
  { intros b [e He]. rewrite Eh. destruct (decide (a = b)) as [<-|];
      [eexists; by rewrite lookup_insert_eq|exists e; by rewrite lookup_insert_ne]. }
  assert (forall b e, b <> a -> heap s !! b = Some e -> heap s' !! b = Some e) as Hkeep.
  { intros b e Hba He. rewrite Eh. by rewrite lookup_insert_ne by congruence. }
  assert (heap s' !! a = Some d') as Hnew by (rewrite Eh; by rewrite lookup_insert_eq).
  assert (forall b, b ∈ listed s' <-> b = a \/ b ∈ listed s) as Hlist.
  { intros b. rewrite Hl. by rewrite elem_of_cons. }
  constructor.
  - rewrite Hl. by constructor.
  - intros b Hb2. apply Hlist in Hb2 as [->|Hb2]; [by exists d'|].
    destruct (c_listed0 b Hb2) as (e & He & ? & ?). exists e. split; [|done]. apply Hkeep; [congruence|done].
  - intros b e He. apply Hold in He as [[-> ->]|[Hba He]]; [done|].
    rewrite (c_inflight0 b e He). apply bool_decide_ext. symmetry. by apply Hs.
  - done.
  - intros k b. rewrite Ec. intros Hk. destruct (c_cache0 k b Hk) as (e & He & Ht & Hkey).
    destruct (decide (b = a)) as [->|Hba]; [|exists e; split; [by apply Hkeep|done]].
    simplify_eq. exists d'. split_and!; congruence.
  - intros b e He. apply Hold in He as [[-> ->]|[Hba He]].
    + destruct (c_refs0 a d Ha) as [Hr Hp]. rewrite Enr. split; [|done]. rewrite Hr. unfold refs.
      rewrite Ec, Ek, times_cons, (bool_decide_eq_false_2 (a ∈ listed s)),
        (bool_decide_eq_true_2 (a ∈ listed s')), (bool_decide_eq_true_2 (a = a)) by (done || apply Hlist; by left).
      simpl. lia.
    + destruct (c_refs0 b e He) as [Hr Hp]. split; [|done]. rewrite Hr. unfold refs.
      rewrite Ec, times_cons, (bool_decide_eq_false_2 (a = b)) by congruence.
      rewrite (bool_decide_ext (b ∈ listed s') (b ∈ listed s)) by (rewrite Hlist; tauto). simpl. lia.
  - intros b Hx. apply Hlive, c_held0. set_solver.
  - intros b. rewrite Eo. intros Hx. by apply Hlive, c_oldest0.
  - intros b e He. rewrite En. apply Hold in He as [[-> ->]|[_ He]]; eauto.
  - intros b e He. apply Hold in He as [[-> ->]|[_ He]]; [|eauto]. rewrite Edl.
    split; [done|]. by apply (c_shape0 a d Ha).
  - intros b e He. apply Hold in He as [[-> ->]|[_ He]]; [by right|].
    destruct (c_log0 b e He) as [|Hlg]; [by left|right]. by apply Hsub.
  - done.
  - done.
  - done.
  - rewrite Es, Er. destruct c_ids0 as (? & ? & ?). split_and!; lia || done.
  - done.
Qed.

(** The acks table follows. *)
Lemma acks_enlist s s' a d' :
  acks s -> a ∉ listed s -> heap s' = <[a := d']> (heap s) ->
  listed s' ≡ₚ a :: listed s -> s_update_id s <= s_update_id s' ->
  1 <= update_id (update d') <= s_update_id s' ->
  (forall b, unacked s !! update_id (update d') = Some b -> False) ->
  unacked s' = <[update_id (update d') := a]> (unacked s) -> acks s'.
Proof.
  intros [A1 A2] Hn Eh Hl Hu Hid Hfree Eu.
  assert (forall b, b ∈ listed s' <-> b = a \/ b ∈ listed s) as Hlist.
  { intros b. rewrite Hl. by rewrite elem_of_cons. }
  constructor; rewrite Eh, Eu.
  - intros b e Hb He. apply Hlist in Hb as [->|Hb].
    { rewrite lookup_insert_eq in He. injection He as <-. by rewrite lookup_insert_eq. }
    rewrite lookup_insert_ne in He by congruence. pose proof (A1 b e Hb He) as Hub.
    rewrite lookup_insert_ne; [done|]. intros E. rewrite <- E in Hub. eauto.
  - intros u b Hub. apply lookup_insert_Some in Hub as [[<- <-]|[Hne Hub]].
    { split_and!; [apply Hlist; by left|lia|lia|]. exists d'. by rewrite lookup_insert_eq. }
    destruct (A2 u b Hub) as (Hb & Hr & e & He & Ei). split_and!; [apply Hlist; by right|lia|lia|].
    exists e. by rewrite lookup_insert_ne by congruence.
Qed.

(** ** New data *)

Definition fresh_data (u : kvp_update_t) (c : option Z) (t : Z) : send_data_t := mkSendData u 1 false 0 0 0 c t.
Definition with_new (u : kvp_update_t) (c : option Z) (t : Z) (s : kvpsync_send_t) : kvpsync_send_t :=
  mkSend (<[next_addr s := fresh_data u c t]> (heap s)) (next_addr s + 1) (s_sync_id s)
    (s_resync_id s) (s_update_id s) (cache s) (unsent s) (unacked s) (sent s) (oldest s) (cong s)
    (peer s) (flags s) (state_cb s) (calls s).

Lemma run_xnew u c t s : send_data_xnew true u c t s = (Ok (next_addr s), with_new u c t s).
Proof. done. Qed.

Lemma core_new x H s u c t :
  core x H s -> update_ok (with_ids 0 1 u) -> is_u64 t -> sync_id u = 0 -> update_id u = 0 ->
  core (next_addr s :: x) H (with_new u c t s) /\ next_addr s ∉ listed s /\ heap s !! next_addr s = None.
Proof.
  intros Hc Hu Ht Hs0 Hu0. pose proof Hc as [].
  assert (heap s !! next_addr s = None) as Hfresh.
  { destruct (heap s !! next_addr s) eqn:E; [|done]. apply c_fresh0 in E. lia. }
  assert (forall b, (exists e, heap s !! b = Some e) -> b <> next_addr s) as Hne.
  { intros b [e He] ->. by rewrite Hfresh in He. }
  assert (forall b, (exists e, heap s !! b = Some e) -> exists e, <[next_addr s := fresh_data u c t]> (heap s) !! b = Some e) as Hlive.
  { intros b Hb. pose proof (Hne b Hb). destruct Hb as [e He]. exists e. by rewrite lookup_insert_ne. }
  assert (next_addr s ∉ listed s) as Hnl.
  { intros Hin. destruct (c_listed0 _ Hin) as (e & He & _). by rewrite Hfresh in He. }
  assert (next_addr s ∉ x) as Hnx.
  { intros Hin. destruct (c_held0 _ Hin) as (e & He). by rewrite Hfresh in He. }
  assert (forall k, cache s !! k <> Some (next_addr s)) as Hnc.
  { intros k Hin. destruct (c_cache0 _ _ Hin) as (e & He & _). by rewrite Hfresh in He. }
  split; [|done].
  assert (forall b e, <[next_addr s := fresh_data u c t]> (heap s) !! b = Some e ->
    b = next_addr s /\ e = fresh_data u c t \/ b <> next_addr s /\ heap s !! b = Some e) as Hold.
  { intros b e He. apply lookup_insert_Some in He as [[<- <-]|[? ?]]; [by left|right]. done. }
  constructor; simpl; try done.
  - intros b Hb. destruct (c_listed0 b Hb) as (e & He & ?). exists e. split; [|done].
    rewrite lookup_insert_ne; [done|]. intros <-. by rewrite Hfresh in He.
  - intros b e He. apply Hold in He as [[-> ->]|[_ He]]; [|eauto]. simpl.
    rewrite bool_decide_eq_false_2; [done|]. intros Hin. apply Hnl. unfold listed. set_solver.
  - intros k b Hb. destruct (c_cache0 k b Hb) as (e & He & ?). exists e. split; [|done].
    rewrite lookup_insert_ne; [done|]. intros <-. by rewrite Hfresh in He.
  - intros b e He. apply Hold in He as [[-> ->]|[Hba He]].
    + split; [|simpl; lia]. unfold refs. simpl.
      rewrite times_cons, (bool_decide_eq_true_2 (next_addr s = next_addr s)), times_not_in by done.
      rewrite (bool_decide_eq_false_2 (cache s !! _ = _)), (bool_decide_eq_false_2 (_ ∈ listed _)) by (done || apply Hnc).
      done.
    + destruct (c_refs0 b e He) as [-> ?]. split; [|done]. unfold refs. simpl.
      rewrite times_cons, (bool_decide_eq_false_2 (next_addr s = b)) by congruence. done.
  - intros b Hb. apply elem_of_cons in Hb as [->|Hb]; [eexists; by rewrite lookup_insert_eq|].
    apply Hlive. eauto.
  - intros b Hb. apply Hlive. eauto.
  - intros b e He. apply Hold in He as [[-> ->]|[_ He]]; [lia|]. apply c_fresh0 in He. lia.
  - intros b e He. apply Hold in He as [[-> ->]|[_ He]]; [done|eauto].
  - intros b e He. apply Hold in He as [[-> ->]|[_ He]]; [by left|eauto].
Qed.

Lemma acks_new s u c t :
  acks s -> next_addr s ∉ listed s -> acks (with_new u c t s).
Proof.
  intros [A1 A2] Hn. constructor; simpl.
  - intros a d Ha Hd. rewrite lookup_insert_ne in Hd by (intros <-; done). by apply A1.
  - intros v a Hv. destruct (A2 v a Hv) as (Ha & Hr & d & Hd & Ei). split_and!; [done|lia|lia|].
    exists d. rewrite lookup_insert_ne; [done|]. intros <-. done.
Qed.

(** ** Queueing a packet *)

(** The packet that a data becomes when it is queued. *)
Definition next_packet (s : kvpsync_send_t) (d : send_data_t) : kvp_update_t :=
  with_ids (s_sync_id s) (s_update_id s + 1) (update d).
Definition queued (a : addr) (d : send_data_t) (s : kvpsync_send_t) : kvpsync_send_t :=
  upd_unacked (fun m => <[s_update_id s + 1 := a]> m)
    (set_lists (unsent s ++ [a]) (sent s)
      (upd_heap (fun m => <[a := set_update (next_packet s d) d]> m)
        (set_ids (s_sync_id s) (s_resync_id s) (s_update_id s + 1) s))).
Definition recorded (d : send_data_t) (s : kvpsync_send_t) (H : history) : history :=
  <[(s_sync_id s, s_update_id s + 1) := strip (next_packet s d)]> H.

Lemma honest_more (H : history) i p :
  honest (history_log H) -> honest_packet (history_log H) (fst i) (snd i) p -> H !! i = None ->
  honest (history_log (<[i := p]> H)).
Proof.
  intros Hh Hp Hf. assert (H ⊆ <[i := p]> H) as Hsub by by apply insert_subseteq.
  assert (forall j k q, honest_packet (history_log H) j k q -> honest_packet (history_log (<[i := p]> H)) j k q) as Hw.
  { intros j k q (?&?&?&?&?&Ht). split_and!; try done. destruct Ht as [|[|[|[|(?&?&(w&Hq&?)) ]]]]; try tauto.
    do 4 right. split_and!; try tauto. exists w. split; [|tauto]. by eapply lookup_weaken. }
  intros j k q. unfold history_log at 1. intros [[-> <-]|[_ Hq]]%lookup_insert_Some; apply Hw; [done|by apply Hh].
Qed.

(** What a packet that is queued next must be. *)
Definition queueable (H : history) (s : kvpsync_send_t) (u : kvp_update_t) : Prop :=
  (utype u = KVP_UPDATE_START -> s_update_id s = 0) /\
  (utype u = KVP_UPDATE_DELETE -> 1 <= delete_id u < s_update_id s + 1 /\
     exists q, H !! (s_sync_id s, delete_id u) = Some q /\ utype q = KVP_UPDATE_INSERT /\ key q = key u).

Lemma update_ok_ids u i j :
  update_ok (with_ids 0 1 u) -> is_u32 i -> is_u32 j -> (utype u = KVP_UPDATE_START -> j = 1) ->
  update_ok (with_ids i j u).
Proof. intros [] ???. constructor; simpl in *; try done. Qed.

Lemma queue_spec x H s a d :
  core (a :: x) H s -> acks s -> heap s !! a = Some d -> a ∉ listed s -> s_update_id s + 1 < 2 ^ 32 ->
  queueable H s (update d) ->
  data_queue a s = (Ok tt, queued a d s) /\ H ⊆ recorded d s H /\
  core x (recorded d s H) (queued a d s) /\ acks (queued a d s).
Proof.
  intros Hc Hak Ha Hn Hmax [Hst Hdel]. pose proof (c_ids _ _ _ Hc) as (Hsid & Huid & Hrid).
  destruct (c_shape _ _ _ Hc a d Ha) as [Hsh Hdl].
  assert (u32 (s_update_id s + 1) = s_update_id s + 1) as Eu by (apply u32_small; unfold is_u32; lia).
  assert (unacked s !! (s_update_id s + 1) = None) as Hfree.
  { destruct (unacked s !! _) as [b|] eqn:E; [|done]. apply (a_unacked _ Hak) in E as (_ & ? & _). lia. }
  assert (H !! (s_sync_id s, s_update_id s + 1) = None) as Hnew.
  { apply eq_None_not_Some. intros [p E]. apply (c_bound _ _ _ Hc) in E as [|[_ ?]]; exfalso; lia. }
  assert (update_ok (next_packet s d)) as Hok.
  { apply update_ok_ids; [done|unfold is_u32; lia|unfold is_u32; lia|]. intros E. apply Hst in E. lia. }
  assert (H ⊆ recorded d s H) as Hsub by by apply insert_subseteq.
  split_and!; [|done| |].
  - unfold data_queue. rewrite (st_run _ _ _ _ _ (run_deref_data a d s Ha)). unfold get_send, mod_send, put_data.
    rewrite (st_run _ _ s s s) by done. rewrite Eu. unfold st_bind, mod_send. rewrite Hfree. done.
  - apply (core_enlist x H _ s _ a d (set_update (next_packet s d) d)); try done; simpl.
    + lia.
    + by apply (c_limit _ _ _ Hc).
    + by apply (c_expiry _ _ _ Hc).
    + unfold listed. simpl. solve_Permutation.
    + by apply (c_count _ _ _ Hc).
    + by apply (c_inflight _ _ _ Hc).
    + lia.
    + intros i p Hp. by apply (lookup_weaken H).
    + apply honest_more; [by apply (c_honest _ _ _ Hc)| |done]. cbn [fst snd]. split_and!; simpl; try done; try lia.
      * by apply (uok_key _ Hok).
      * by apply (uok_val _ Hok).
      * destruct (uok_type _ Hsh) as [Et|[Et|[Et|[Et|Et]]]]; simpl in Et; try tauto.
        right; right; right; left. split; [done|]. apply (uok_no_delete _ Hsh). simpl. by rewrite Et.
    + unfold recorded. intros i j p [[E _]|[_ Hp]]%lookup_insert_Some; [injection E as <- <-; right; lia|].
      apply (c_bound _ _ _ Hc) in Hp. lia.
    + unfold in_history, history_log, recorded. simpl. by rewrite lookup_insert_eq.
  - apply (acks_enlist s _ a (set_update (next_packet s d) d)); try done; simpl; try lia.
    + unfold listed. simpl. solve_Permutation.
    + intros b. by rewrite Hfree.
Qed.

(** ** Frames *)

(** The replay of the queued packets is the content of the cache, once that was sent. *)
Definition cached (s : kvpsync_send_t) (k : bytes) : option bytes :=
  a ← cache s !! k; d ← heap s !! a; Some (val (update d)).
Definition replayed (H : history) (s : kvpsync_send_t) : gmap bytes bytes :=
  replay (history_log H) (s_sync_id s) (Z.to_nat (s_update_id s)).
Record mirror (H : history) (s : kvpsync_send_t) : Prop := {
  mi_replay : forall k, replayed H s !! k = if sync_sent (flags s) then cached s k else None;
  mi_sync : sync_sent (flags s) = true -> forall k a d,
    cache s !! k = Some a -> heap s !! a = Some d -> sync_id (update d) = s_sync_id s
}.

Definition in_cache (s : kvpsync_send_t) (a : addr) : Prop := exists k, cache s !! k = Some a.

Definition same_phase (f g : sync_flags) : Prop :=
  start_done f = start_done g /\ start_sent f = start_sent g /\ sync_done f = sync_done g /\ sync_sent f = sync_sent g /\ synced f = synced g.

(** Data move between lists or change apart from their packets. *)
Record moved (s s' : kvpsync_send_t) : Prop := {
  m_cache : cache s' = cache s;
  m_flags : same_phase (flags s') (flags s);
  m_sync : s_sync_id s' = s_sync_id s;
  m_update : s_update_id s' = s_update_id s;
  m_unacked : unacked s' = unacked s;
  m_listed : forall b, b ∈ listed s' <-> b ∈ listed s;
  m_heap : forall a, a ∈ listed s \/ in_cache s a -> strip ∘ update <$> heap s' !! a = strip ∘ update <$> heap s !! a
}.

#[export] Instance moved_refl : Reflexive moved.
Proof. done. Qed.

#[export] Instance moved_trans : Transitive moved.
Proof.
  intros s1 s2 s3 [] []. constructor; try congruence.
  - unfold same_phase in *. intuition congruence.
  - intros b. by rewrite m_listed1.
  - intros a Ha. rewrite m_heap1; [by apply m_heap0|]. unfold in_cache in *. rewrite m_listed0, m_cache0. done.
Qed.

Lemma moved_data s s' a d :
  moved s s' -> a ∈ listed s \/ in_cache s a -> heap s' !! a = Some d ->
  exists d0, heap s !! a = Some d0 /\ strip (update d) = strip (update d0).
Proof.
  intros Hm Ha Hd. pose proof (m_heap _ _ Hm a Ha) as E. rewrite Hd in E.
  destruct (heap s !! a) as [d0|]; [|done]. exists d0. split; [done|]. exact (inj Some _ _ E).
Qed.

Lemma strip_fields u v : strip u = strip v ->
  sync_id u = sync_id v /\ update_id u = update_id v /\ utype u = utype v /\ key u = key v /\ val u = val v.
Proof. intros [=]. done. Qed.

Lemma acks_moved s s' : acks s -> moved s s' -> acks s'.
Proof.
  intros [A1 A2] Hm. constructor.
  - intros a d Ha Hd. apply (m_listed _ _ Hm) in Ha.
    destruct (moved_data s s' a d Hm) as (d0 & Hd0 & (_ & -> & _)%strip_fields); [by left|done|].
    rewrite (m_unacked _ _ Hm). by apply A1.
  - intros u a. rewrite (m_unacked _ _ Hm), (m_listed _ _ Hm), (m_update _ _ Hm). intros Hu.
    destruct (A2 u a Hu) as (Ha & Hr & d & Hd & Eu). split_and!; [done|lia|lia|].
    pose proof (m_heap _ _ Hm a (or_introl Ha)) as E. rewrite Hd in E.
    destruct (heap s' !! a) as [d'|]; [|done]. apply (inj Some) in E. exists d'. split; [done|].
    apply strip_fields in E as (_ & E & _). congruence.
Qed.

Lemma phases_moved s s' : phases s -> moved s s' -> phases s'.
Proof.
  intros [P1 P2 P3] Hm. destruct (m_flags _ _ Hm) as (F1 & F2 & F3 & F4 & F5).
  constructor; rewrite ?F1, ?F2, ?F3, ?F4, ?F5.
  - intros Hs k a. rewrite (m_cache _ _ Hm), (m_listed _ _ Hm). eauto.
  - intros Hs. destruct (P2 Hs) as (Hl & Hu & ?). rewrite (m_update _ _ Hm). split; [|by split].
    apply elem_of_nil_inv. intros a. rewrite (m_listed _ _ Hm), Hl. apply not_elem_of_nil.
  - done.
Qed.

Lemma cached_moved s s' k : moved s s' -> cached s' k = cached s k.
Proof.
  intros Hm. unfold cached. rewrite (m_cache _ _ Hm). destruct (cache s !! k) as [a|] eqn:Ec; [|done]. simpl.
  pose proof (m_heap _ _ Hm a (or_intror (ex_intro _ k Ec))) as E.
  destruct (heap s !! a), (heap s' !! a); try done. apply (inj Some) in E. simpl.
  by apply strip_fields in E as (_ & _ & _ & _ & ->).
Qed.

Lemma mirror_moved H s s' : mirror H s -> moved s s' -> mirror H s'.
Proof.
  intros [M1 M2] Hm. destruct (m_flags _ _ Hm) as (_ & _ & _ & F & _). constructor.
  - intros k. unfold replayed. rewrite F, (m_sync _ _ Hm), (m_update _ _ Hm), (cached_moved _ _ _ Hm). apply M1.
  - rewrite F. intros Hs k a d. rewrite (m_cache _ _ Hm), (m_sync _ _ Hm). intros Hk Hd.
    destruct (moved_data s s' a d Hm) as (d0 & Hd0 & (-> & _)%strip_fields); [right; by exists k|done|]. eauto.
Qed.

Record inv (x : list addr) (H : history) (s : kvpsync_send_t) : Prop := {
  i_core : core x H s;
  i_acks : acks s;
  i_phases : phases s;
  i_mirror : mirror H s
}.

Lemma inv_moved x y H s s' : inv x H s -> core y H s' -> moved s s' -> inv y H s'.
Proof.
  intros [? ? ? ?] ? Hm. constructor; eauto using acks_moved, phases_moved, mirror_moved.
Qed.

(** Fields that no invariant mentions. *)
Lemma moved_ext s s' :
  heap s' = heap s -> s_sync_id s' = s_sync_id s -> s_update_id s' = s_update_id s -> cache s' = cache s ->
  unsent s' = unsent s -> sent s' = sent s -> unacked s' = unacked s -> same_phase (flags s') (flags s) -> moved s s'.
Proof.
  intros E1 E2 E3 E4 E5 E6 E7 E8. destruct s, s'; simpl in *; subst. constructor; try done.
Qed.

Lemma core_oldest x H s a : core x H s -> core x H (upd_oldest (without a) s).
Proof.
  intros []. constructor; simpl; try done. intros b [_ Hb]%without_in. by apply c_oldest0.
Qed.

(** One more reference for the running operation. *)
Lemma core_incref x H s a d :
  core x H s -> heap s !! a = Some d ->
  core (a :: x) H (upd_heap (fun m => <[a := set_nrefs (nrefs d + 1) d]> m) s).
Proof.
  intros [] Ha.
  assert (forall b e, <[a := set_nrefs (nrefs d + 1) d]> (heap s) !! b = Some e -> exists e0, heap s !! b = Some e0 /\
    update e = update e0 /\ d_inflight e = d_inflight e0 /\ deadline e = deadline e0 /\
    nrefs e = nrefs e0 + b2z (bool_decide (a = b))) as Hold.
  { intros b e [[<- <-]|[Hne He]]%lookup_insert_Some.
    - exists d. by rewrite bool_decide_eq_true_2.
    - exists e. rewrite bool_decide_eq_false_2 by done. split_and!; try done. simpl. lia. }
  assert (forall b e, heap s !! b = Some e -> exists e0, <[a := set_nrefs (nrefs d + 1) d]> (heap s) !! b = Some e0 /\ update e0 = update e) as Hnew.
  { intros b e He. destruct (decide (a = b)) as [<-|]; [|exists e; by rewrite lookup_insert_ne].
    eexists. rewrite lookup_insert_eq. split; [done|]. simpl. congruence. }
  constructor; simpl; try done.
  - intros b Hb. destruct (c_listed0 b Hb) as (e & He & H2). destruct (Hnew b e He) as (e0 & He0 & E0).
    exists e0. by rewrite E0.
  - intros b e (e0 & He & _ & -> & _)%Hold. eauto.
  - intros k b Hb. destruct (c_cache0 k b Hb) as (e & He & H2). destruct (Hnew b e He) as (e0 & He0 & E0).
    exists e0. by rewrite E0.
  - intros b e (e0 & He & E0 & _ & _ & ->)%Hold. destruct (c_refs0 b e0 He) as [-> Hp].
    pose proof (b2z_range (bool_decide (a = b))). split; [|lia]. unfold refs. simpl. rewrite times_cons, E0.
    change (listed (upd_heap ?f s)) with (listed s). lia.
  - intros b Hb. destruct (decide (a = b)) as [<-|]; [eexists; by rewrite lookup_insert_eq|].
    rewrite lookup_insert_ne by done. apply c_held0. set_solver.
  - intros b Hb. destruct (c_oldest0 b Hb) as (e & He). destruct (Hnew b e He) as (e0 & He0 & _). eauto.
  - intros b e (e0 & He & _)%Hold. eauto.
  - intros b e (e0 & He & -> & _ & -> & _)%Hold. eauto.
  - intros b e (e0 & He & -> & _)%Hold. eauto.
Qed.

(** ** Dropping data *)

(** Fields that the lists and the heap do not share. *)
Definition same_ids (s s' : kvpsync_send_t) : Prop :=
  cache s' = cache s /\ unacked s' = unacked s /\ flags s' = flags s /\ s_sync_id s' = s_sync_id s /\
  s_resync_id s' = s_resync_id s /\ s_update_id s' = s_update_id s.

Lemma empty_list_spec H l s :
  core [] H s -> NoDup l -> (forall a, a ∈ l -> a ∈ listed s) ->
  exists s', empty_list l s = (Ok tt, s') /\ core [] H s' /\ same_ids s s' /\
    (forall b, b ∈ unsent s' <-> b ∈ unsent s /\ b ∉ l) /\ (forall b, b ∈ sent s' <-> b ∈ sent s /\ b ∉ l).
Proof.
  revert s. induction l as [|a l IH]; intros s Hc Hd Hl.
  { exists s. split_and!; try done; intros b; rewrite elem_of_nil; tauto. }
  inversion Hd as [|? ? Hna Hd']; subst. assert (a ∈ listed s) as Ha by (apply Hl; set_solver).
  destruct (listed_live _ _ _ _ Hc Ha) as [d Hda]. pose proof (core_unlisted _ _ _ _ _ Hc Hda) as Hc1.
  rewrite bool_decide_eq_true_2 in Hc1 by done. cbn [empty_list].
  rewrite (st_run _ _ _ _ _ (run_data_remove _ _ _ _ _ Hc Hda)).
  assert (heap (unlisted a d s) !! a = Some (set_inflight false d)) as Hda1 by (simpl; by rewrite lookup_insert_eq).
  rewrite (st_run _ _ _ _ _ (run_downref _ _ _ Hda1)).
  destruct (core_decref _ _ _ _ _ Hc1 Hda1) as [Hc2 _].
  destruct (decref_places a (set_inflight false d) (unlisted a d s)) as (E1&E2&E3&E4&E5&E6&E7&E8).
  destruct (IH _ Hc2 Hd') as (s' & -> & Hc' & (F1&F2&F3&F4&F5&F6) & Hu & Hs).
  { intros b Hb. unfold listed. rewrite E2, E3. change (b ∈ listed (unlisted a d s)).
    rewrite listed_unlisted, without_in. split; [congruence|]. apply Hl. set_solver. }
  exists s'. rewrite E1, E4, E5, E6, E7, E8 in *. rewrite E2, E3 in *. simpl in Hu, Hs. setoid_rewrite without_in in Hu.
  setoid_rewrite without_in in Hs. split_and!; try done; intros b; [rewrite Hu|rewrite Hs]; rewrite elem_of_cons; tauto.
Qed.

Lemma core_unacked x H s f : core x H s -> core x H (upd_unacked f s).
Proof. intros []. by constructor. Qed.

Lemma drop_data_spec H s :
  core [] H s ->
  exists s', drop_data s = (Ok tt, s') /\ core [] H s' /\ same_ids (upd_unacked (fun _ => ∅) s) s' /\ listed s' = [].
Proof.
  intros Hc. unfold drop_data, mod_send, get_send.
  rewrite (st_run _ _ s tt (upd_unacked (fun _ => ∅) s)) by done.
  set (s0 := upd_unacked (fun _ => ∅) s). assert (core [] H s0) as Hc0 by by apply core_unacked.
  rewrite (st_run _ _ s0 s0 s0) by done.
  pose proof (c_nodup _ _ _ Hc0) as Hd. unfold listed in Hd. apply NoDup_app in Hd as (Hdu & Hdis & Hds).
  destruct (empty_list_spec H (unsent s0) s0 Hc0 Hdu) as (s1 & E1 & Hc1 & F1 & Hu1 & Hs1).
  { intros a Ha. unfold listed. set_solver. }
  rewrite (st_run _ _ _ _ _ E1), (st_run _ _ s1 s1 s1) by done.
  pose proof (c_nodup _ _ _ Hc1) as Hd1. unfold listed in Hd1. apply NoDup_app in Hd1 as (_ & _ & Hds1).
  destruct (empty_list_spec H (sent s1) s1 Hc1 Hds1) as (s2 & E2 & Hc2 & F2 & Hu2 & Hs2).
  { intros a Ha. unfold listed. set_solver. }
  exists s2. split_and!; [done|done| |].
  - destruct F1 as (?&?&?&?&?&?), F2 as (?&?&?&?&?&?). split_and!; congruence.
  - apply elem_of_nil_inv. intros b. unfold listed. rewrite elem_of_app, Hu2, Hs2, Hu1. tauto.
Qed.

Lemma core_new_ids H s sid rid :
  core [] H s -> s_sync_id s < sid < 2 ^ 32 -> is_u32 rid -> core [] H (set_ids sid rid 0 s).
Proof.
  intros [] Hs Hr. constructor; simpl; try done.
  - intros i j p Hp. apply c_bound0 in Hp. lia.
  - split_and!; try lia. done.
Qed.

Lemma inv_resync H s rid :
  core [] H s -> is_u32 rid -> s_sync_id s + 1 < 2 ^ 32 ->
  exists s', kvpsync_send_resync rid s = (Ok tt, s') /\ inv [] H s' /\ s_sync_id s' = s_sync_id s + 1 /\
    s_update_id s' = 0 /\ cache s' = cache s.
Proof.
  intros Hc Hr Hmax. pose proof (c_ids _ _ _ Hc) as (Hs & _).
  unfold kvpsync_send_resync, get_send, mod_send. rewrite (st_run _ _ s s s) by done.
  assert (u32 (s_sync_id s + (1 + (if s_sync_id s =? UINT32_MAX then 1 else 0))) = s_sync_id s + 1) as ->.
  { destruct (Z.eqb_spec (s_sync_id s) UINT32_MAX) as [E|]; [unfold UINT32_MAX in E; lia|].
    rewrite u32_small by (unfold is_u32; lia). lia. }
  unfold st_bind at 1 2.
  set (s1 := upd_peer _ _). assert (core [] H s1) as Hc1.
  { apply (core_ext _ _ (set_ids (s_sync_id s + 1) rid 0 s)); try done; [by apply core_new_ids; [done|lia|]| |].
    - by apply (c_limit _ _ _ Hc).
    - by apply (c_expiry _ _ _ Hc). }
  destruct (drop_data_spec H s1 Hc1) as (s2 & E2 & Hc2 & (F1&F2&F3&F4&F5&F6) & Hl).
  unfold st_bind at 1. rewrite E2. unfold st_bind. eexists. split; [done|].
  pose proof (c_count _ _ _ Hc2) as Hn. assert (sent s2 = []) as Hsent.
  { apply elem_of_nil_inv. intros b Hb. apply (not_elem_of_nil b). rewrite <- Hl. apply elem_of_app. by right. }
  rewrite Hsent in Hn.
  split_and!; try done. constructor.
  - eapply core_ext; [exact Hc2|done..|simpl; by rewrite Hn|by apply (c_limit _ _ _ Hc2)|done].
  - constructor; simpl; [intros a d Ha; change (a ∈ listed s2) in Ha; rewrite Hl in Ha; by apply elem_of_nil in Ha|].
    intros u a Hu. rewrite F2 in Hu. simpl in Hu. by rewrite lookup_empty in Hu.
  - constructor; simpl; [intros _ k a _|intros _|done].
    + change (a ∉ listed s2). rewrite Hl. apply not_elem_of_nil.
    + split_and!; try done.
  - constructor; simpl; [|done]. intros k. unfold replayed. simpl. rewrite F6. apply lookup_empty.
Qed.

(** ** Acks *)

Lemma moved_decref a d s : heap s !! a = Some d -> a ∉ listed s ->
  (in_cache s a -> nrefs d <> 1) -> moved s (decref a d s).
Proof.
  intros Ha Hn Hc. unfold decref. destruct (Z.eqb_spec (nrefs d) 1) as [E|E].
  - constructor; try done. simpl. intros b [Hb|Hb]; rewrite lookup_delete_ne; try done; intros <-; [done|].
    by destruct (Hc Hb).
  - constructor; try done. simpl. intros b _. destruct (decide (a = b)) as [<-|]; [|by rewrite lookup_insert_ne].
    by rewrite lookup_insert_eq, Ha.
Qed.

Lemma moved_put a d d' s : heap s !! a = Some d -> strip (update d') = strip (update d) ->
  moved s (upd_heap (fun m => <[a := d']> m) s).
Proof.
  intros Ha Eu. constructor; try done. simpl. intros b _.
  destruct (decide (a = b)) as [<-|]; [|by rewrite lookup_insert_ne].
  rewrite lookup_insert_eq, Ha. simpl. by rewrite Eu.
Qed.

(** A data with one reference that a running operation holds is not in the cache. *)
Lemma held_not_cached x H s a d :
  core (a :: x) H s -> heap s !! a = Some d -> in_cache s a -> nrefs d <> 1.
Proof.
  intros Hc Ha [k Hk] E. destruct (c_refs _ _ _ Hc a d Ha) as [Hr _]. unfold refs in Hr.
  destruct (c_cache _ _ _ Hc k a Hk) as (d' & Hd & _ & Ek). simplify_eq.
  rewrite times_cons, (bool_decide_eq_true_2 (a = a)), (bool_decide_eq_true_2 (cache s !! _ = _)) in Hr by done.
  pose proof (b2z_range (bool_decide (a ∈ listed s))). pose proof (times_nonneg x a). simpl in Hr. lia.
Qed.

(** An acked packet leaves the lists and the table. *)
Definition acked_off (a : addr) (d : send_data_t) (s : kvpsync_send_t) : kvpsync_send_t :=
  unlisted a d (upd_unacked (delete (update_id (update d))) s).

Lemma inv_acked_off H s a d :
  inv [] H s -> heap s !! a = Some d -> a ∈ listed s -> inv [a] H (acked_off a d s).
Proof.
  intros [Hc [A1 A2] [P1 P2 P3] [M1 M2]] Ha Hin.
  assert (forall b e, heap (acked_off a d s) !! b = Some e -> exists e0, heap s !! b = Some e0 /\ update e = update e0) as Hold.
  { simpl. intros b e [[<- <-]|[_ He]]%lookup_insert_Some; eauto. }
  assert (forall b, b ∈ listed (acked_off a d s) <-> b <> a /\ b ∈ listed s) as Hl.
  { intros b. unfold acked_off. by rewrite listed_unlisted, without_in. }
  constructor.
  - pose proof (core_unlisted [] H (upd_unacked (delete (update_id (update d))) s) a d (core_unacked _ _ _ _ Hc) Ha) as H1.
    by rewrite bool_decide_eq_true_2 in H1.
  - constructor.
    + intros b e [Hba Hb]%Hl (e0 & He & ->)%Hold. simpl. rewrite lookup_delete_ne; [by apply A1|].
      intros E. pose proof (A1 b e0 Hb He) as Eb. rewrite <- E, (A1 a d Hin Ha) in Eb. congruence.
    + simpl. intros u b [Hne Hu]%lookup_delete_Some. destruct (A2 u b Hu) as (Hb & Hr & e & He & Eu).
      assert (b <> a) as Hba by (intros ->; simplify_eq). split_and!; [by apply Hl|lia|lia|].
      exists e. by rewrite lookup_insert_ne by congruence.
  - constructor; simpl; [|intros Hs|done].
    + intros Hs k b Hk. rewrite Hl. intros [_ Hb]. exact (P1 Hs k b Hk Hb).
    + destruct (P2 Hs) as (Hnil & _). rewrite Hnil in Hin. by apply elem_of_nil in Hin.
  - constructor; simpl.
    + intros k. change (replayed H (acked_off a d s)) with (replayed H s). rewrite M1.
      destruct (sync_sent (flags s)); [|done]. unfold cached. simpl. destruct (cache s !! k) as [b|]; [|done]. simpl.
      destruct (decide (a = b)) as [<-|]; [by rewrite lookup_insert_eq, Ha|by rewrite lookup_insert_ne].
    + intros Hs k b e Hk (e0 & He & ->)%Hold. eauto.
Qed.

Lemma inv_ext x H s s' :
  inv x H s -> heap s' = heap s -> next_addr s' = next_addr s -> s_sync_id s' = s_sync_id s ->
  s_resync_id s' = s_resync_id s -> s_update_id s' = s_update_id s -> cache s' = cache s -> unsent s' = unsent s ->
  sent s' = sent s -> oldest s' = oldest s -> unacked s' = unacked s -> same_phase (flags s') (flags s) ->
  inflight (cong s') = inflight (cong s) -> 1 <= inflight_limit (cong s') -> is_u64 (s_ok_expiry (peer s')) -> inv x H s'.
Proof.
  intros Hi ??????????????. apply (inv_moved x x H s); [done| |by apply moved_ext].
  eapply core_ext; [by apply i_core|done..].
Qed.

Lemma run_maybe_state_cb s : exists s', maybe_state_cb s = (Ok tt, s') /\ forall x H, inv x H s -> inv x H s'.
Proof.
  unfold maybe_state_cb, get_send. rewrite (st_run _ _ s s s) by done.
  destruct (_ || _); [by exists s|]. eexists. split; [done|]. intros x H Hi. eapply inv_ext; [exact Hi|done..| |].
  - by apply (c_limit _ _ _ (i_core _ _ _ Hi)).
  - by apply (c_expiry _ _ _ (i_core _ _ _ Hi)).
Qed.

Lemma maybe_state_cb_ids s s' : maybe_state_cb s = (Ok tt, s') ->
  s_sync_id s' = s_sync_id s /\ s_update_id s' = s_update_id s /\ cache s' = cache s.
Proof.
  unfold maybe_state_cb, get_send. rewrite (st_run _ _ s s s) by done.
  destruct (_ || _); [by intros [= <-]|]. by intros [= <-].
Qed.

(** The state without its clock and congestion control. *)
Lemma inv_cong x H s f :
  inv x H s -> inflight (f (cong s)) = inflight (cong s) -> 1 <= inflight_limit (f (cong s)) ->
  inv x H (upd_cong f s).
Proof.
  intros Hi En Hl. eapply inv_ext; [exact Hi|done..|]. by apply (c_expiry _ _ _ (i_core _ _ _ Hi)).
Qed.

Lemma inv_peer x H s f : inv x H s -> is_u64 (s_ok_expiry (f (peer s))) -> inv x H (upd_peer f s).
Proof.
  intros Hi En. eapply inv_ext; [exact Hi|done..| |done]. by apply (c_limit _ _ _ (i_core _ _ _ Hi)).
Qed.

Lemma inv_limit x H s : inv x H s -> 1 <= inflight_limit (cong s).
Proof. intros Hi. exact (c_limit _ _ _ (i_core _ _ _ Hi)). Qed.
Lemma inv_expiry x H s : inv x H s -> is_u64 (s_ok_expiry (peer s)).
Proof. intros Hi. exact (c_expiry _ _ _ (i_core _ _ _ Hi)). Qed.

(** What an operation leaves in place when it queues nothing. *)
Definition same_log (s s' : kvpsync_send_t) : Prop :=
  s_sync_id s' = s_sync_id s /\ s_update_id s' = s_update_id s /\ cache s' = cache s.

Lemma successful_spec x H s d :
  inv x H s -> exists s', successful_packet d s = (Ok tt, s') /\ inv x H s' /\ same_log s s' /\
    heap s' = heap s /\ listed s' = listed s.
Proof.
  intros Hi. eexists. split; [done|]. split; [|done].
  pose proof (inv_limit _ _ _ Hi). apply inv_cong; [done| |]; destruct (negb _); [done| |done|];
    (destruct (inflight_at_send d <? _); [done|]); [done|]. unfold INCREASE_PKTS. simpl. lia.
Qed.

(** The data of a finished packet: its callback is called once. *)
Definition finish (a : addr) (d : send_data_t) : send unit :=
  do! _ :=
    match cb d with
    | None => st_ret tt
    | Some c =>
        do! _ := mod_send (upd_oldest (without a)) in
        do! _ := mod_send (add_call (KeyCb c)) in
        put_data a (set_cb None d)
    end in
  data_downref a.

Lemma finish_spec H s a d :
  inv [a] H s -> heap s !! a = Some d -> a ∉ listed s ->
  exists s', finish a d s = (Ok tt, s') /\ inv [] H s' /\ same_log s s'.
Proof.
  intros Hi Ha Hn. unfold finish. destruct (cb d) as [c|] eqn:Ecb.
  - unfold st_bind, mod_send, put_data.
    set (s1 := add_call (KeyCb c) (upd_oldest (without a) s)).
    assert (inv [a] H s1) as Hi1.
    { apply (inv_moved [a] [a] H s); [done| |by apply moved_ext].
      apply (core_ext _ _ (upd_oldest (without a) s)); try done; [apply core_oldest, Hi|exact (inv_limit _ _ _ Hi)|exact (inv_expiry _ _ _ Hi)]. }
    set (s2 := upd_heap (fun m => <[a := set_cb None d]> m) s1).
    assert (inv [a] H s2) as Hi2.
    { apply (inv_moved [a] [a] H s1); [done| |by apply (moved_put a d)].
      apply (core_put _ _ _ a d); try done. apply Hi1. }
    assert (heap s2 !! a = Some (set_cb None d)) as Ha2 by apply lookup_insert_eq.
    fold s1. unfold mod_send. fold s1 s2. rewrite (run_downref _ _ _ Ha2). eexists. split; [done|].
    destruct (core_decref _ _ _ _ _ (i_core _ _ _ Hi2) Ha2) as [Hc _].
    split; [|unfold decref; by case_match].
    apply (inv_moved [a] [] H s2); [done|done|]. apply moved_decref; [done|done|].
    apply (held_not_cached [] H); [apply Hi2|done].
  - unfold st_bind, st_ret. rewrite (run_downref _ _ _ Ha). eexists. split; [done|].
    destruct (core_decref _ _ _ _ _ (i_core _ _ _ Hi) Ha) as [Hc _].
    split; [|unfold decref; by case_match].
    apply (inv_moved [a] [] H s); [done|done|]. apply moved_decref; [done|done|].
    apply (held_not_cached [] H); [apply Hi|done].
Qed.

Lemma handle_ack_spec H s ack now :
  inv [] H s -> ack_ok ack -> s_sync_id s + 1 < 2 ^ 32 ->
  exists s', kvpsync_send_handle_ack ack now s = (Ok tt, s') /\ inv [] H s' /\ cache s' = cache s /\
    (s_sync_id s' = s_sync_id s /\ s_update_id s' = s_update_id s \/
     s_sync_id s' = s_sync_id s + 1 /\ s_update_id s' = 0).
Proof.
  intros Hi [Hack _] Hmax. unfold kvpsync_send_handle_ack.
  assert (exists s', handle_ack ack now s = (Ok tt, s') /\ inv [] H s' /\ cache s' = cache s /\
    (s_sync_id s' = s_sync_id s /\ s_update_id s' = s_update_id s \/
     s_sync_id s' = s_sync_id s + 1 /\ s_update_id s' = 0)) as (s' & E & Hi' & Ec & Eids).
  2:{ rewrite (st_run _ _ _ _ _ E). destruct (run_maybe_state_cb s') as (s2 & E2 & Hi2). exists s2.
      destruct (maybe_state_cb_ids _ _ E2) as (-> & -> & ->). split_and!; auto. }
  unfold handle_ack, mod_send, get_send. unfold st_bind at 1. set (s1 := upd_cong _ s).
  assert (inv [] H s1) as Hi1 by (apply inv_cong; [done|done|exact (inv_limit _ _ _ Hi)]).
  rewrite (st_run _ _ s1 s1 s1) by done.
  destruct (ack_update_id ack =? 0).
  { destruct (_ =? _); [exists s1; split_and!; auto|].
    destruct (inv_resync H s1 (ack_sync_id ack) (i_core _ _ _ Hi1) Hack) as (s2 & -> & Hi2 & E1 & E2 & E3); [done|].
    exists s2. split_and!; auto. }
  destruct (negb _); [exists s1; split_and!; auto|].
  destruct (unacked s1 !! ack_update_id ack) as [a|] eqn:Eu; [|exists s1; split_and!; auto].
  destruct (a_unacked _ (i_acks _ _ _ Hi1) _ _ Eu) as (Hl & _ & d & Ha & Ed). rewrite <- Ed.
  unfold st_bind at 1. set (s2 := upd_unacked _ s1).
  rewrite (st_run _ _ _ _ _ (run_data_remove [] H a d s2 (core_unacked _ _ _ _ (i_core _ _ _ Hi1)) Ha)).
  pose proof (inv_acked_off H s1 a d Hi1 Ha Hl) as Hi3. change (unlisted a d s2) with (acked_off a d s1).
  set (s3 := acked_off a d s1) in *. unfold st_bind at 1. set (s4 := if _ && _ then _ else s3).
  assert (heap s4 !! a = Some (set_inflight false d)) as Ha4.
  { unfold s4. destruct (_ && _); simpl; by rewrite lookup_insert_eq. }
  assert (inv [a] H s4) as Hi4.
  { unfold s4. destruct (_ && _); [|done]. eapply inv_ext; [exact Hi3|done..| |].
    - exact (inv_limit _ _ _ Hi3).
    - exact (inv_expiry _ _ _ Hi3). }
  rewrite (st_run _ _ _ _ _ (run_deref_data _ _ _ Ha4)).
  destruct (successful_spec [a] H s4 (set_inflight false d) Hi4) as (s5 & E5 & Hi5 & (L1 & L2 & L3) & Eh & El).
  rewrite (st_run _ _ _ _ _ E5). change (exists s', finish a (set_inflight false d) s5 = (Ok tt, s') /\ inv [] H s' /\
    cache s' = cache s /\ (s_sync_id s' = s_sync_id s /\ s_update_id s' = s_update_id s \/
     s_sync_id s' = s_sync_id s + 1 /\ s_update_id s' = 0)).
  destruct (finish_spec H s5 a (set_inflight false d) Hi5) as (s6 & -> & Hi6 & (K1 & K2 & K3)); [by rewrite Eh| |].
  { rewrite El. assert (listed s4 = listed s3) as -> by (unfold s4; by destruct (_ && _)).
    unfold s3, acked_off. rewrite listed_unlisted, without_in. tauto. }
  assert (same_log s3 s4) as (J1 & J2 & J3) by (unfold s4; by destruct (_ && _)).
  exists s6. split_and!; [done|done|by rewrite K3, L3, J3|left]. by rewrite K1, K2, L1, L2, J1, J2.
Qed.

(** ** Replaying *)

Lemma replay_ext log log' s n :
  (forall i, 1 <= i <= Z.of_nat n -> log s i = log' s i) -> replay log s n = replay log' s n.
Proof.
  induction n as [|n IH]; intros E; [done|]. cbn [replay]. rewrite E by lia. rewrite IH; [done|]. intros i Hi. apply E. lia.
Qed.

Definition apply_packet (p : kvp_update_t) (m : gmap bytes bytes) : gmap bytes bytes :=
  if utype p =? KVP_UPDATE_INSERT then <[key p := val p]> m
  else if utype p =? KVP_UPDATE_DELETE then delete (key p) m
  else m.

Lemma replayed_queued x H s a d :
  core x H s -> replayed (recorded d s H) (queued a d s) = apply_packet (update d) (replayed H s).
Proof.
  intros Hc. pose proof (c_ids _ _ _ Hc) as (_ & Hu & _). unfold replayed, recorded. simpl.
  rewrite Z2Nat.inj_add, Nat.add_1_r by lia. cbn [replay]. unfold history_log at 1.
  rewrite Nat2Z.inj_succ, Z2Nat.id by lia. rewrite <- Z.add_1_r, lookup_insert_eq.
  rewrite (replay_ext _ (history_log H)); [done|]. intros i Hi. unfold history_log.
  rewrite lookup_insert_ne; [done|]. intros [=]. lia.
Qed.

Lemma cached_queued s a d k : heap s !! a = Some d -> cached (queued a d s) k = cached s k.
Proof.
  intros Ha. unfold cached. simpl. destruct (cache s !! k) as [b|]; [|done]. simpl.
  destruct (decide (a = b)) as [<-|]; [by rewrite lookup_insert_eq, Ha|by rewrite lookup_insert_ne].
Qed.

(** ** Queueing a new packet *)

Lemma cached_new u c t s k : (forall k, cache s !! k <> Some (next_addr s)) -> cached (with_new u c t s) k = cached s k.
Proof.
  intros Hn. unfold cached. simpl. destruct (cache s !! k) as [b|] eqn:Ek; [|done]. simpl.
  rewrite lookup_insert_ne; [done|]. intros <-. by apply (Hn k).
Qed.

(** What changes when a packet that is not an insertion is queued. *)
Record queued_new (x : list addr) (H H' : history) (s s' : kvpsync_send_t) (u : kvp_update_t) : Prop := {
  q_sub : H ⊆ H';
  q_core : core x H' s';
  q_acks : acks s';
  q_replay : replayed H' s' = apply_packet u (replayed H s);
  q_cached : forall k, cached s' k = cached s k;
  q_heap : forall a d, heap s !! a = Some d -> heap s' !! a = Some d;
  q_ids : s_sync_id s' = s_sync_id s /\ s_update_id s' = s_update_id s + 1;
  q_cache : cache s' = cache s;
  q_flags : flags s' = flags s /\ peer s' = peer s;
  q_listed : forall b, b ∈ listed s' -> b ∈ listed s \/ ~ in_cache s b;
  q_unsent : exists a, unsent s' = unsent s ++ [a]
}.

Lemma queue_new_spec x H s u :
  core x H s -> acks s -> update_ok (with_ids 0 1 u) -> sync_id u = 0 -> update_id u = 0 ->
  queueable H s u -> s_update_id s + 1 < 2 ^ 32 ->
  exists H' s', (do! a := send_data_xnew true u None 0 in data_queue a) s = (Ok tt, s') /\ queued_new x H H' s s' u.
Proof.
  intros Hc Hak Hu Hs0 Hu0 Hq Hmax.
  destruct (core_new x H s u None 0 Hc Hu) as (Hc1 & Hn & Hfresh); [done..|].
  rewrite (st_run _ _ _ _ _ (run_xnew u None 0 s)). set (a := next_addr s) in *. set (s1 := with_new u None 0 s) in *.
  assert (heap s1 !! a = Some (fresh_data u None 0)) as Ha by apply lookup_insert_eq.
  assert (forall k, cache s !! k <> Some a) as Hnc.
  { intros k Hk. destruct (c_cache _ _ _ Hc _ _ Hk) as (e & He & _). by rewrite Hfresh in He. }
  destruct (queue_spec x H s1 a _ Hc1 (acks_new s u None 0 Hak Hn) Ha Hn Hmax Hq) as (E & Hsub & Hc2 & Hak2).
  eexists _, _. split; [exact E|]. constructor; try done.
  - rewrite (replayed_queued _ _ _ _ _ Hc1). done.
  - intros k. rewrite cached_queued by done. by apply cached_new.
  - intros b e He. assert (next_addr s <> b) by (intros <-; change (heap s !! a = Some e) in He; by rewrite Hfresh in He).
    unfold a, s1. simpl. by rewrite !lookup_insert_ne.
  - intros b. unfold listed. simpl. rewrite !elem_of_app, list_elem_of_singleton. intros [[?| ->]|?]; [left; tauto| |left; tauto].
    right. intros [k Hk]. by apply (Hnc k).
  - by exists a.
Qed.

(** A packet that is not about a key. *)
Lemma control_spec H s ty rid :
  core [] H s -> acks s -> mirror H s -> s_update_id s + 1 < 2 ^ 32 ->
  (ty = KVP_UPDATE_START /\ is_u32 rid /\ s_update_id s = 0 \/ (ty = KVP_UPDATE_FLUSH \/ ty = KVP_UPDATE_EMPTY) /\ rid = 0) ->
  exists H' s', (do! a := send_data_xnew true (bare ty rid) None 0 in data_queue a) s = (Ok tt, s') /\
    queued_new [] H H' s s' (bare ty rid) /\ mirror H' s'.
Proof.
  intros Hc Hak [M1 M2] Hmax Hty.
  destruct (queue_new_spec [] H s (bare ty rid) Hc Hak) as (H' & s' & E & Hq); try done.
  - assert (is_u32 0 /\ is_u32 1 /\ is_u64 0) as (? & ? & ?) by (unfold is_u32, is_u64; lia).
    assert (is_bytes []) by constructor. assert (zlen (@nil Z) <= KVPSYNC_MAX_LEN) by done.
    destruct Hty as [(-> & ? & ?)|[[-> | ->] ->]]; constructor; simpl; try done; auto; congruence.
  - destruct Hty as [(-> & ? & ?)|[[-> | ->] ->]]; by split.
  - exists H', s'. split_and!; [done|done|]. destruct (q_ids _ _ _ _ _ _ Hq) as [Es _].
    destruct (q_flags _ _ _ _ _ _ Hq) as [Ef _]. constructor; rewrite Ef.
    + intros k. rewrite (q_replay _ _ _ _ _ _ Hq), (q_cached _ _ _ _ _ _ Hq), <- M1.
      destruct Hty as [(-> & _)|[[-> | ->] _]]; done.
    + intros Hs k a d. rewrite (q_cache _ _ _ _ _ _ Hq), Es. intros Hk Hd.
      destruct (c_cache _ _ _ Hc k a Hk) as (d0 & Hd0 & _). pose proof (q_heap _ _ _ _ _ _ Hq a d0 Hd0). simplify_eq. eauto.
Qed.

Lemma phases_queued (H H' : history) s s' u :
  queued_new [] H H' s s' u -> phases s -> start_sent (flags s) = true -> phases s'.
Proof.
  intros Hq [P1 P2 P3] Hs. destruct (q_flags _ _ _ _ _ _ Hq) as [Ef _]. constructor; rewrite Ef; [|congruence|done].
  intros Hss k a. rewrite (q_cache _ _ _ _ _ _ Hq). intros Hk [Ha|Ha]%(q_listed _ _ _ _ _ _ Hq); [by apply (P1 Hss k a)|].
  apply Ha. by exists k.
Qed.

(** ** Queueing the cache *)

Lemma cached_nrefs H s k a d :
  core [] H s -> cache s !! k = Some a -> heap s !! a = Some d -> a ∉ listed s -> nrefs d = 1.
Proof.
  intros Hc Hk Ha Hn. destruct (c_refs _ _ _ Hc a d Ha) as [-> _]. unfold refs.
  destruct (c_cache _ _ _ Hc k a Hk) as (d' & Hd & _ & Ek). simplify_eq.
  by rewrite (bool_decide_eq_true_2 (cache s !! _ = _)), (bool_decide_eq_false_2 (a ∈ _)) by done.
Qed.

(** The packets of some cached data were queued. *)
Record requeued (H H' : history) (s s' : kvpsync_send_t) (l : list addr) : Prop := {
  r_sub : H ⊆ H';
  r_core : core [] H' s';
  r_acks : acks s';
  r_ids : s_sync_id s' = s_sync_id s /\ s_update_id s' = s_update_id s + zlen l;
  r_cache : cache s' = cache s;
  r_flags : flags s' = flags s /\ peer s' = peer s;
  r_listed : forall b, b ∈ listed s' <-> b ∈ listed s \/ b ∈ l;
  r_cached : forall k, cached s' k = cached s k;
  r_data : forall a d, heap s' !! a = Some d -> a ∈ l /\ sync_id (update d) = s_sync_id s \/
    a ∉ l /\ exists d0, heap s !! a = Some d0 /\ update d = update d0;
  r_replay : forall k, replayed H' s' !! k =
    match cache s !! k with Some a => if bool_decide (a ∈ l) then cached s k else replayed H s !! k | None => replayed H s !! k end
}.

Lemma requeue_spec H s k a d :
  core [] H s -> acks s -> cache s !! k = Some a -> heap s !! a = Some d -> a ∉ listed s -> s_update_id s + 1 < 2 ^ 32 ->
  let s1 := upd_heap (fun m => <[a := set_nrefs (nrefs d + 1) d]> m) s in
  exists H' s', data_queue a s1 = (Ok tt, s') /\ requeued H H' s s' [a] /\ unsent s' = unsent s ++ [a].
Proof.
  intros Hc Hak Hk Ha Hn Hmax s1. pose proof (core_incref [] H s a d Hc Ha) as Hc1. fold s1 in Hc1.
  destruct (c_cache _ _ _ Hc k a Hk) as (d' & Hd & Ety & Ek). simplify_eq.
  assert (heap s1 !! a = Some (set_nrefs (nrefs d + 1) d)) as Ha1 by apply lookup_insert_eq.
  assert (moved s s1) as Hm by by apply (moved_put a d).
  destruct (queue_spec [] H s1 a _ Hc1 (acks_moved _ _ Hak Hm) Ha1 Hn Hmax) as (E & Hsub & Hc2 & Hak2).
  { simpl. split; rewrite Ety; done. }
  eexists _, _. split; [exact E|]. split; [|done]. constructor; try done.
  - intros b. unfold listed. simpl. rewrite !elem_of_app, !list_elem_of_singleton. tauto.
  - intros k. rewrite cached_queued by done. by apply cached_moved.
  - simpl. intros b e [[<- <-]|[Hne [[E1 _]|[_ He]]%lookup_insert_Some]]%lookup_insert_Some; [left|done|right].
    + split; [by apply list_elem_of_singleton|done].
    + split; [rewrite list_elem_of_singleton; congruence|by exists e].
  - intros k. rewrite (replayed_queued _ _ _ _ _ Hc1). unfold apply_packet. simpl. rewrite Ety. simpl.
    change (replayed H s1) with (replayed H s). destruct (decide (k = key (update d))) as [->|Hne].
    + rewrite Hk, bool_decide_eq_true_2 by set_solver. rewrite lookup_insert_eq. unfold cached. rewrite Hk. simpl. by rewrite Ha.
    + rewrite lookup_insert_ne by done. destruct (cache s !! k) as [b|] eqn:Eb; [|done].
      rewrite bool_decide_eq_false_2; [done|]. intros ->%list_elem_of_singleton.
      destruct (c_cache _ _ _ Hc k a Eb) as (e & He & _ & Hke). simplify_eq.
Qed.

Lemma requeued_trans H1 H2 H3 s1 s2 s3 a l :
  requeued H1 H2 s1 s2 [a] -> requeued H2 H3 s2 s3 l -> requeued H1 H3 s1 s3 (a :: l).
Proof.
  intros [] []. constructor; try done.
  - by transitivity H2.
  - rewrite zlen_cons. change (zlen [a]) with 1 in r_ids0. split; [destruct r_ids0, r_ids1; congruence|lia].
  - congruence.
  - destruct r_flags0, r_flags1; split; congruence.
  - intros b. rewrite r_listed1, r_listed0, list_elem_of_singleton, elem_of_cons. tauto.
  - intros k. by rewrite r_cached1.
  - intros b d [[Hb E]|(Hnb & d0 & Hd0 & E)]%r_data1; [left; split; [set_solver|destruct r_ids0; congruence]|].
    destruct (r_data0 b d0 Hd0) as [[Hb E']|(Hna & d1 & Hd1 & E')]; [left; split; [set_solver|congruence]|].
    right. split; [set_solver|]. exists d1. split; [done|congruence].
  - intros k. rewrite r_replay1, r_replay0, r_cache0, r_cached0. destruct (cache s1 !! k) as [b|]; [|done].
    destruct (decide (b = a)) as [->|Hne].
    + rewrite (bool_decide_eq_true_2 (a ∈ [a])), (bool_decide_eq_true_2 (a ∈ a :: l)) by set_solver. by case_bool_decide.
    + rewrite (bool_decide_eq_false_2 (b ∈ [a])) by set_solver.
      by rewrite (bool_decide_ext (b ∈ a :: l) (b ∈ l)) by set_solver.
Qed.

Lemma queue_each_spec l : forall H s,
  core [] H s -> acks s -> NoDup l -> (forall a, a ∈ l -> in_cache s a /\ a ∉ listed s) ->
  s_update_id s + zlen l < 2 ^ 32 ->
  exists H' s', queue_each l s = (Ok tt, s') /\ requeued H H' s s' l.
Proof.
  induction l as [|a l IH]; intros H s Hc Hak Hd Hl Hmax.
  { exists H, s. split; [done|]. constructor; try done.
    - split; [done|]. rewrite zlen_nil. lia.
    - intros b. rewrite elem_of_nil. tauto.
    - intros a d Ha. right. split; [apply not_elem_of_nil|by exists d].
    - intros k. destruct (cache s !! k) as [a|]; [|done]. by rewrite bool_decide_eq_false_2 by apply not_elem_of_nil. }
  inversion Hd as [|? ? Hna Hd']; subst. destruct (Hl a) as [[k Hk] Hn]; [set_solver|].
  destruct (c_cache _ _ _ Hc k a Hk) as (d & Ha & _). rewrite zlen_cons in Hmax. pose proof (zlen_nonneg l).
  cbn [queue_each]. rewrite (st_run _ _ _ _ _ (run_deref_data _ _ _ Ha)).
  rewrite (cached_nrefs _ _ _ _ _ Hc Hk Ha Hn). simpl.
  destruct (requeue_spec H s k a d Hc Hak Hk Ha Hn) as (H1 & s1 & E1 & Hq1 & _); [lia|].
  rewrite (cached_nrefs _ _ _ _ _ Hc Hk Ha Hn) in E1. unfold put_data, mod_send. unfold st_bind at 1.
  rewrite (st_run _ _ _ _ _ E1). destruct (r_ids _ _ _ _ _ Hq1) as [Es Eu]. change (zlen [a]) with 1 in Eu.
  destruct (IH H1 s1 (r_core _ _ _ _ _ Hq1) (r_acks _ _ _ _ _ Hq1) Hd') as (H2 & s2 & -> & Hq2); [|lia|].
  - intros b Hb. destruct (Hl b) as [Hbc Hbn]; [set_solver|]. split.
    + unfold in_cache. by rewrite (r_cache _ _ _ _ _ Hq1).
    + rewrite (r_listed _ _ _ _ _ Hq1), list_elem_of_singleton. intros [?| ->]; done.
  - exists H2, s2. split; [done|]. by eapply requeued_trans.
Qed.

(** ** The expiry of a packet *)

Definition timed (s : kvpsync_send_t) : Prop :=
  is_u64 (s_ok_expiry (peer s)) /\ (forall a, a ∈ oldest s -> exists d, heap s !! a = Some d) /\
  (forall a d, heap s !! a = Some d -> is_u64 (deadline d)).

Lemma core_timed x H s : core x H s -> timed s.
Proof.
  intros Hc. split_and!; [by apply (c_expiry _ _ _ Hc)|apply (c_oldest _ _ _ Hc)|].
  intros a d Ha. by apply (c_shape _ _ _ Hc a d).
Qed.

Lemma calculate_spec s now :
  timed s -> exists e f, calculate_ok_expiry now s = (Ok e, upd_peer f s) /\ is_u64 e /\
    is_u64 (s_ok_expiry (f (peer s))) /\ recv_ok (f (peer s)) = recv_ok (peer s).
Proof.
  intros (He & Hold & Hdl). unfold calculate_ok_expiry, get_send. rewrite (st_run _ _ s s s) by done.
  assert (upd_peer (fun p => p) s = s) as Eid by by destruct s.
  destruct (recv_ok (peer s)) eqn:Er; cbn [negb]; [|exists 0, (fun p => p); by rewrite Eid].
  set (e := if _ >? _ then _ else _). assert (is_u64 e) as He1 by (unfold e; destruct (_ >? _); [apply u64_range|done]).
  assert (exists e', match peek (oldest s) with None => st_ret e
    | Some a => do! d := deref_data a in st_ret (Z.min (deadline d) e) end s = (Ok e', s) /\ is_u64 e') as (e' & Em & He').
  { destruct (peek (oldest s)) as [a|] eqn:Ea; [|by exists e].
    destruct (Hold a) as (d & Hd); [destruct (oldest s); [done|]; injection Ea as ->; set_solver|].
    rewrite (st_run _ _ _ _ _ (run_deref_data _ _ _ Hd)). exists (Z.min (deadline d) e). split; [done|].
    pose proof (Hdl a d Hd). unfold is_u64 in *. lia. }
  rewrite (st_run _ _ _ _ _ Em). destruct (e' >? s_ok_expiry (peer s)).
  - eexists e', _. by split_and!.
  - exists e', (fun p => p). by rewrite Eid.
Qed.

(** ** Advancing a sync *)

(** The traversal visits every value once. *)
Class HashOrderLaw `{HashOrder} : Prop := hash_order_law m : hash_order m ≡ₚ (map_to_list m).*2.

(** The packets that an operation queued are in the new history. *)
Record advanced (n : Z) (H H' : history) (s s' : kvpsync_send_t) : Prop := {
  ad_sub : H ⊆ H';
  ad_inv : inv [] H' s';
  ad_sync : s_sync_id s' = s_sync_id s;
  ad_update : s_update_id s <= s_update_id s' <= s_update_id s + n;
  ad_cache : cache s' = cache s
}.

Lemma advanced_trans n m H1 H2 H3 s1 s2 s3 :
  advanced n H1 H2 s1 s2 -> advanced m H2 H3 s2 s3 -> advanced (n + m) H1 H3 s1 s3.
Proof.
  intros [] []. constructor; [by transitivity H2|done|congruence|lia|congruence].
Qed.

Lemma advanced_same H s s' : inv [] H s' -> same_log s s' -> advanced 0 H H s s'.
Proof. intros Hi (? & E & ?). constructor; try done. lia. Qed.

Lemma advanced_more n m H H' s s' : advanced n H H' s s' -> n <= m -> advanced m H H' s s'.
Proof. intros [] ?. constructor; try done. lia. Qed.

Lemma phases_flags s f :
  (sync_sent (f (flags s)) = false -> sync_sent (flags s) = false) ->
  start_sent (f (flags s)) = true ->
  (sync_done (f (flags s)) = true -> sync_sent (f (flags s)) = true) ->
  phases s -> phases (upd_flags f s).
Proof.
  intros F1 F2 F3 [P1 P2 P3]. constructor; simpl; [eauto|congruence|auto].
Qed.

Lemma advance_start_spec H s :
  inv [] H s -> s_update_id s + 1 < 2 ^ 32 ->
  exists b H' s', advance_start true s = (Ok b, s') /\ advanced 1 H H' s s' /\ start_sent (flags s') = true /\
    sync_sent (flags s') = sync_sent (flags s) /\ flags s' = mkSyncFlags (blocked (flags s')) (synced (flags s)) (start_done (flags s')) true (sync_done (flags s)) (sync_sent (flags s)).
Proof.
  intros Hi Hmax. unfold advance_start, get_send. rewrite (st_run _ _ s s s) by done.
  destruct Hi as [Hc Hak Hph Hm]. destruct (start_done (flags s)) eqn:Ed.
  { pose proof (proj1 (ph_order _ Hph) Ed) as Es. exists true, H, s. split_and!; [done| |done|done|].
    - eapply advanced_more; [by apply advanced_same|lia].
    - destruct (flags s). simpl in *. congruence. }
  match goal with |- exists b H' s', st_bind ?m _ _ = _ /\ _ => assert (exists H1 s1, m s = (Ok tt, s1) /\ advanced 1 H H1 s s1 /\
    flags s1 = mkSyncFlags (blocked (flags s1)) (synced (flags s)) false true (sync_done (flags s)) (sync_sent (flags s)))
    as (H1 & s1 & E1 & Ha1 & Ef1) end.
  { destruct (start_sent (flags s)) eqn:Es.
    - exists H, s. split_and!; [done| |destruct (flags s); simpl in *; congruence].
      eapply advanced_more; [by apply advanced_same|lia].
    - destruct (ph_start _ Hph Es) as (Hl & Hu0 & Hss).
      destruct (control_spec H s KVP_UPDATE_START (s_resync_id s) Hc Hak Hm Hmax) as (H1 & s1 & E1 & Hq & Hm1).
      { left. split_and!; [done|by apply (c_ids _ _ _ Hc)|done]. }
      assert (queue_start true s = (Ok tt, s1)) as E1' by exact E1.
      rewrite (st_run _ _ _ _ _ E1'). destruct (q_ids _ _ _ _ _ _ Hq) as [Es1 Eu1]. destruct (q_flags _ _ _ _ _ _ Hq) as [Ef1 _].
      eexists H1, _. split_and!; [done| |simpl; by rewrite Ef1, Ed].
      constructor; [by apply (q_sub _ _ _ _ _ _ Hq)| |done|simpl; lia|by apply (q_cache _ _ _ _ _ _ Hq)].
      constructor.
      + eapply core_ext; [by apply (q_core _ _ _ _ _ _ Hq)|done..| |].
        * by apply (c_limit _ _ _ (q_core _ _ _ _ _ _ Hq)).
        * by apply (c_expiry _ _ _ (q_core _ _ _ _ _ _ Hq)).
      + eapply acks_ext; [by apply (q_acks _ _ _ _ _ _ Hq)|done..].
      + constructor; simpl; rewrite ?Ef1; simpl; [|done|].
        * intros _ k a. rewrite (q_cache _ _ _ _ _ _ Hq). intros Hk Ha. apply (q_listed _ _ _ _ _ _ Hq) in Ha as [Ha|Ha].
          -- rewrite Hl in Ha. by apply elem_of_nil in Ha.
          -- apply Ha. by exists k.
        * split_and!; [done|by apply (ph_order _ Hph)|done].
      + destruct Hm1 as [M1 M2]. constructor; done. }
  rewrite (st_run _ _ _ _ _ E1), (st_run _ _ s1 s1 s1) by done.
  destruct (blocked (flags s1)) eqn:Eb.
  - exists false, H1, s1. split_and!; [done|done|by rewrite Ef1|by rewrite Ef1|by rewrite Ef1].
  - eexists true, H1, _. split; [done|]. simpl. rewrite Ef1. simpl. split_and!; try done.
    destruct Ha1 as [A1 [B1 B2 B3 B4] A3 A4 A5]. constructor; try done. constructor.
    + eapply core_ext; [exact B1|done..|by apply (c_limit _ _ _ B1)|by apply (c_expiry _ _ _ B1)].
    + eapply acks_ext; [exact B2|done..].
    + apply phases_flags; [done|simpl; by rewrite Ef1|simpl; by apply (ph_order _ B3)|done].
    + destruct B4 as [M1 M2]. constructor; done.
Qed.

Section running.
Context {HO : HashOrder} {HL : HashOrderLaw}.

Lemma hash_order_facts (H : history) s :
  core [] H s -> NoDup (hash_order (cache s)) /\ (forall a, a ∈ hash_order (cache s) <-> in_cache s a) /\
  zlen (hash_order (cache s)) = Z.of_nat (size (cache s)).
Proof.
  intros Hc. pose proof (hash_order_law (cache s)) as Hp. split_and!.
  - rewrite Hp. apply NoDup_fmap_2_strong; [|apply NoDup_map_to_list].
    intros [k a] [k' a'] Hk%elem_of_map_to_list Hk'%elem_of_map_to_list E. simpl in E. subst a'.
    destruct (c_cache _ _ _ Hc _ _ Hk) as (d & Hd & _ & <-), (c_cache _ _ _ Hc _ _ Hk') as (d' & Hd' & _ & <-).
    congruence.
  - intros a. rewrite Hp. rewrite list_elem_of_fmap. split.
    + intros ([k b] & -> & Hk%elem_of_map_to_list). by exists k.
    + intros [k Hk]. exists (k, a). split; [done|]. by apply elem_of_map_to_list.
  - unfold zlen. rewrite (Permutation_length Hp), length_fmap. by rewrite length_map_to_list.
Qed.

(** The sync content: the cache is mirrored from now on. *)
Lemma inv_requeued (H H1 : history) s s' b :
  inv [] H s -> requeued H H1 s s' (hash_order (cache s)) -> sync_sent (flags s) = false -> start_sent (flags s) = true ->
  inv [] H1 (upd_flags (fun f => mkSyncFlags b (synced f) (start_done f) (start_sent f) (sync_done f) true) s').
Proof.
  intros [Hc Hak Hph [M1 M2]] Hr Hss Hst. destruct (r_flags _ _ _ _ _ Hr) as [Ef _].
  destruct (hash_order_facts H s Hc) as (_ & Hin & _). constructor.
  - eapply core_ext; [by apply (r_core _ _ _ _ _ Hr)|done..| |].
    + by apply (c_limit _ _ _ (r_core _ _ _ _ _ Hr)).
    + by apply (c_expiry _ _ _ (r_core _ _ _ _ _ Hr)).
  - eapply acks_ext; [by apply (r_acks _ _ _ _ _ Hr)|done..].
  - constructor; simpl; rewrite ?Ef; [done|congruence|]. split_and!; [|done|]; by apply (ph_order _ Hph).
  - constructor; simpl.
    + intros k. change (replayed H1 (upd_flags _ s')) with (replayed H1 s'). change (cached (upd_flags _ s') k) with (cached s' k).
      rewrite (r_replay _ _ _ _ _ Hr), (r_cached _ _ _ _ _ Hr), M1, Hss. unfold cached.
      destruct (cache s !! k) as [a|] eqn:Ek; [|done]. rewrite bool_decide_eq_true_2; [done|].
      apply Hin. by exists k.
    + intros _ k a d. rewrite (r_cache _ _ _ _ _ Hr). destruct (r_ids _ _ _ _ _ Hr) as [-> _].
      intros Hk [[_ ->]|(Hn & _)]%(r_data _ _ _ _ _ Hr); [done|]. destruct Hn. apply Hin. by exists k.
Qed.

Lemma advance_sync_spec H s :
  inv [] H s -> start_sent (flags s) = true -> s_update_id s + Z.of_nat (size (cache s)) < 2 ^ 32 ->
  exists b H' s', advance_sync s = (Ok b, s') /\ advanced (Z.of_nat (size (cache s))) H H' s s' /\
    start_sent (flags s') = true /\ (b = true -> sync_sent (flags s') = true).
Proof.
  intros Hi Hst Hmax. unfold advance_sync, get_send. rewrite (st_run _ _ s s s) by done.
  destruct (sync_done (flags s)) eqn:Ed.
  { exists true, H, s. split_and!; [done| |done|intros _; by apply (ph_order _ (i_phases _ _ _ Hi))].
    eapply advanced_more; [by apply advanced_same|lia]. }
  match goal with |- exists b H' s', st_bind ?m _ _ = _ /\ _ =>
    assert (exists H1 s1, m s = (Ok tt, s1) /\ advanced (Z.of_nat (size (cache s))) H H1 s s1 /\
      start_sent (flags s1) = true /\ sync_sent (flags s1) = true) as (H1 & s1 & E1 & Ha1 & Est & Ess) end.
  { destruct (sync_sent (flags s)) eqn:Es.
    - exists H, s. split_and!; [done| |done|done]. eapply advanced_more; [by apply advanced_same|lia].
    - pose proof Hi as [Hc Hak Hph Hm]. destruct (hash_order_facts H s Hc) as (Hd & Hin & Hsz).
      destruct (queue_each_spec (hash_order (cache s)) H s Hc Hak Hd) as (H1 & s1 & E1 & Hr); [|lia|].
      { intros a Ha. apply Hin in Ha as Hca. split; [done|]. destruct Hca as [k Hk]. by apply (ph_sync _ Hph Es k). }
      unfold queue_all_inserts, get_send, mod_send. eexists H1, _. split.
      { unfold st_bind at 1. rewrite (st_run _ _ s s s) by done. rewrite (st_run _ _ _ _ _ E1). done. }
      split_and!; [|simpl; destruct (r_flags _ _ _ _ _ Hr) as [-> _]; done|done].
      constructor; [by apply (r_sub _ _ _ _ _ Hr)|by eapply inv_requeued| | |by apply (r_cache _ _ _ _ _ Hr)];
        destruct (r_ids _ _ _ _ _ Hr) as [E2 E3]; simpl; [done|lia]. }
  rewrite (st_run _ _ _ _ _ E1), (st_run _ _ s1 s1 s1) by done.
  destruct (blocked (flags s1)) eqn:Eb; [by exists false, H1, s1|].
  eexists true, H1, _. split; [done|]. split_and!; [|done|done].
  destruct Ha1 as [A1 [B1 B2 B3 B4] A3 A4 A5]. constructor; try done. constructor.
  - eapply core_ext; [exact B1|done..|by apply (c_limit _ _ _ B1)|by apply (c_expiry _ _ _ B1)].
  - eapply acks_ext; [exact B2|done..].
  - by apply phases_flags.
  - destruct B4 as [M1 M2]. constructor; done.
Qed.

(** A control packet that is queued past the start of the sync. *)
Lemma inv_control H s ty :
  inv [] H s -> start_sent (flags s) = true -> s_update_id s + 1 < 2 ^ 32 ->
  ty = KVP_UPDATE_FLUSH \/ ty = KVP_UPDATE_EMPTY ->
  exists H' s', (do! a := send_data_xnew true (bare ty 0) None 0 in data_queue a) s = (Ok tt, s') /\
    advanced 1 H H' s s' /\ flags s' = flags s /\ exists a, unsent s' = unsent s ++ [a].
Proof.
  intros [Hc Hak Hph Hm] Hst Hmax Hty.
  destruct (control_spec H s ty 0 Hc Hak Hm Hmax) as (H1 & s1 & E1 & Hq & Hm1); [right; by split|].
  destruct (q_ids _ _ _ _ _ _ Hq). exists H1, s1.
  split_and!; [done| |by apply (q_flags _ _ _ _ _ _ Hq)|by apply (q_unsent _ _ _ _ _ _ Hq)].
  constructor; [by apply (q_sub _ _ _ _ _ _ Hq)| |done|lia|by apply (q_cache _ _ _ _ _ _ Hq)].
  constructor; [by apply (q_core _ _ _ _ _ _ Hq)|by apply (q_acks _ _ _ _ _ _ Hq)|by eapply phases_queued|done].
Qed.

Lemma advance_state_spec H s now :
  inv [] H s -> s_update_id s + Z.of_nat (size (cache s)) + 2 < 2 ^ 32 ->
  exists H' s', advance_state true now s = (Ok tt, s') /\
    advanced (Z.of_nat (size (cache s)) + 2) H H' s s' /\ start_sent (flags s') = true.
Proof.
  intros Hi Hmax. unfold advance_state, get_send. rewrite (st_run _ _ s s s) by done.
  destruct (synced (flags s)) eqn:Esy.
  { exists H, s. split_and!; [done| |by apply (ph_order _ (i_phases _ _ _ Hi))].
    eapply advanced_more; [by apply advanced_same|lia]. }
  destruct (advance_start_spec H s Hi) as (b1 & H1 & s1 & E1 & Ha1 & Est1 & _); [lia|].
  rewrite (st_run _ _ _ _ _ E1). pose proof (ad_update _ _ _ _ _ Ha1).
  destruct b1; cbn [negb]; [|exists H1, s1; split_and!; [done|eapply advanced_more; [done|lia]|done]].
  destruct (advance_sync_spec H1 s1 (ad_inv _ _ _ _ _ Ha1) Est1) as (b2 & H2 & s2 & E2 & Ha2 & Est2 & Ess2);
    [rewrite (ad_cache _ _ _ _ _ Ha1); lia|].
  rewrite (st_run _ _ _ _ _ E2). pose proof (ad_update _ _ _ _ _ Ha2) as Hu2. rewrite (ad_cache _ _ _ _ _ Ha1) in *.
  pose proof (advanced_trans _ _ _ _ _ _ _ _ Ha1 Ha2) as Ha12.
  destruct b2; cbn [negb]; [|exists H2, s2; split_and!; [done|eapply advanced_more; [done|lia]|done]].
  unfold mod_send. unfold st_bind at 1. set (s3 := upd_peer _ s2).
  assert (inv [] H2 s3) as Hi3.
  { apply inv_peer; [by apply (ad_inv _ _ _ _ _ Ha2)|]. exact (inv_expiry _ _ _ (ad_inv _ _ _ _ _ Ha2)). }
  destruct (calculate_spec s3 now (core_timed _ _ _ (i_core _ _ _ Hi3))) as (e & f & E4 & _ & He & _).
  rewrite (st_run _ _ _ _ _ E4). pose proof (inv_peer _ _ _ f Hi3 He) as Hi4. set (s4 := upd_peer f s3) in *.
  destruct (inv_control H2 s4 KVP_UPDATE_FLUSH Hi4 Est2) as (H5 & s5 & E5 & Ha5 & Ef5 & _); [simpl; lia|by left|].
  assert (queue_flush true s4 = (Ok tt, s5)) as E5' by exact E5. rewrite (st_run _ _ _ _ _ E5').
  assert (advanced 0 H2 H2 s2 s4) as Ha4 by by apply advanced_same.
  pose proof (advanced_trans _ _ _ _ _ _ _ _ Ha12 (advanced_trans _ _ _ _ _ _ _ _ Ha4 Ha5)) as Ha6.
  eexists H5, _. split; [done|]. split; [|simpl; by rewrite Ef5].
  destruct Ha6 as [A1 [B1 B2 B3 B4] A3 A4 A5]. constructor; try done; [|simpl; lia]. constructor.
  - eapply core_ext; [exact B1|done..|by apply (c_limit _ _ _ B1)|by apply (c_expiry _ _ _ B1)].
  - eapply acks_ext; [exact B2|done..].
  - apply phases_flags; simpl; [done|by rewrite Ef5|by apply (ph_order _ B3)|done].
  - destruct B4 as [M1 M2]. constructor; done.
Qed.

(** ** Sending and sending again *)

Lemma listed_unique H s a : core [] H s -> a ∈ sent s -> a ∉ unsent s.
Proof.
  intros Hc Ha Hu. pose proof (c_nodup _ _ _ Hc) as Hd. unfold listed in Hd.
  apply NoDup_app in Hd as (_ & Hd & _). exact (Hd a Hu Ha).
Qed.

Lemma listed_perm H s a d : core [] H s -> heap s !! a = Some d -> a ∈ listed s ->
  listed s ≡ₚ a :: listed (unlisted a d s).
Proof.
  intros Hc Ha Hin. rewrite listed_unlisted. pose proof (c_nodup _ _ _ Hc) as Hd.
  apply list_elem_of_split in Hin as (l1 & l2 & E). rewrite E in *.
  apply NoDup_app in Hd as (_ & Hd1 & Hd2). inversion Hd2 as [|? ? Hn _]; subst.
  rewrite without_app, without_cons, decide_True by done.
  rewrite !without_absent; [by rewrite Permutation_middle|done|]. intros Hin. apply (Hd1 a Hin). set_solver.
Qed.

(** A listed data is put somewhere else. *)
Lemma inv_relisted H s a d s' d' :
  inv [] H s -> heap s !! a = Some d -> a ∈ listed s ->
  heap s' = <[a := d']> (heap s) -> next_addr s' = next_addr s -> s_sync_id s' = s_sync_id s ->
  s_resync_id s' = s_resync_id s -> s_update_id s' = s_update_id s -> cache s' = cache s ->
  oldest s' = oldest s -> unacked s' = unacked s -> same_phase (flags s') (flags s) ->
  1 <= inflight_limit (cong s') -> is_u64 (s_ok_expiry (peer s')) ->
  listed s' ≡ₚ listed s -> (forall b, b <> a -> b ∈ sent s' <-> b ∈ sent s) ->
  inflight (cong s') = zlen (sent s') -> nrefs d' = nrefs d -> d_inflight d' = bool_decide (a ∈ sent s') ->
  deadline d' = deadline d -> strip (update d') = strip (update d) -> update_ok (update d') ->
  inv [] H s'.
Proof.
  intros Hi Ha Hin Eh En Es Er Eu Ec Eo Eua Ef Hlim Hexp Hl Hs Hcount Enr Ein Edl Est Hok.
  pose proof Hi as [Hc _ _ _]. pose proof (listed_perm _ _ _ _ Hc Ha Hin) as Hp.
  destruct (c_listed _ _ _ Hc a Hin) as (d0 & Hd0 & Hok0 & Hne).
  rewrite Ha in Hd0. injection Hd0 as <-.
  destruct (c_log _ _ _ Hc a d Ha) as [[_ ?]|Hlog]; [done|].
  apply (inv_moved [] [] H s); [done| |].
  - pose proof (core_unlisted _ _ _ _ _ Hc Ha) as Hc1. rewrite bool_decide_eq_true_2 in Hc1 by done.
    assert (key (update d') = key (update d) /\ utype (update d') = utype (update d)) as [Ek Ety].
    { apply strip_fields in Est as (?&?&?&?&?). by split. }
    assert (sync_id (update d') = sync_id (update d) /\ update_id (update d') = update_id (update d)) as [Esy Eui].
    { apply strip_fields in Est as (?&?&?&?&?). by split. }
    apply (core_enlist [] H H (unlisted a d s) s' a (set_inflight false d) d'); simpl; try done.
    + by rewrite lookup_insert_eq.
    + rewrite listed_unlisted, without_in. tauto.
    + rewrite Eh. by rewrite insert_insert_eq.
    + rewrite Eu. pose proof (c_ids _ _ _ Hc). lia.
    + by rewrite Hl.
    + intros b Hb. rewrite without_in, (Hs b Hb). tauto.
    + destruct Hok. constructor; simpl; try done; unfold is_u32; lia || congruence.
    + congruence.
    + apply (c_honest _ _ _ Hc).
    + intros i j p Hp'. rewrite Es, Eu. by apply (c_bound _ _ _ Hc) in Hp'.
    + unfold in_history. by rewrite Esy, Eui, Est.
  - constructor; try done; [intros b; by rewrite Hl|].
    intros b _. rewrite Eh. destruct (decide (a = b)) as [<-|]; [|by rewrite lookup_insert_ne].
    rewrite lookup_insert_eq, Ha. simpl. by rewrite Est.
Qed.

Lemma run_inflight H s a d :
  core [] H s -> heap s !! a = Some d -> inflight (cong (unlisted a d s)) = zlen (without a (sent s)).
Proof.
  intros Hc Ha. pose proof (core_unlisted _ _ _ _ _ Hc Ha) as Hc1. exact (c_count _ _ _ Hc1).
Qed.

(** A packet moves to [u], which is the unsent list with it. *)
Lemma inv_unsend H s a d u :
  inv [] H s -> heap s !! a = Some d -> a ∈ sent s -> u ≡ₚ a :: unsent s ->
  inv [] H (set_lists u (without a (sent s)) (unlisted a d s)).
Proof.
  intros Hi Ha Hin Hu. pose proof (i_core _ _ _ Hi) as Hc.
  assert (a ∈ listed s) as Hl by (unfold listed; set_solver).
  pose proof (listed_unique _ _ _ Hc Hin) as Hnu.
  apply (inv_relisted H s a d _ (set_inflight false d)); try done; simpl.
  - exact (inv_limit _ _ _ Hi).
  - exact (inv_expiry _ _ _ Hi).
  - rewrite (listed_perm _ _ _ _ Hc Ha Hl). rewrite listed_unlisted. unfold listed. simpl.
    rewrite without_app, (without_absent a (unsent s)) by done. rewrite Hu. done.
  - intros b Hb. rewrite without_in. tauto.
  - exact (run_inflight _ _ _ _ Hc Ha).
  - rewrite bool_decide_eq_false_2; [done|]. rewrite without_in. tauto.
  - destruct (c_listed _ _ _ Hc a Hl) as (d0 & Hd0 & Hok & _). by simplify_eq.
Qed.

Lemma resend_all_spec H l : forall s before after,
  inv [] H s -> sent s = l -> unsent s = before ++ after ->
  exists s', resend_all l before after s = (Ok tt, s') /\ inv [] H s' /\ same_log s s' /\
    flags s' = flags s /\ sent s' = [].
Proof.
  induction l as [|a l IH]; intros s before after Hi Hs Hu; [by exists s|].
  pose proof (i_core _ _ _ Hi) as Hc. assert (a ∈ sent s) as Ha by (rewrite Hs; set_solver).
  destruct (listed_live _ _ _ a Hc) as [d Hd]; [unfold listed; set_solver|].
  cbn [resend_all]. rewrite (st_run _ _ _ _ _ (run_data_remove _ _ _ _ _ Hc Hd)).
  unfold mod_send. unfold st_bind at 1.
  assert (inv [] H (set_lists (before ++ a :: after) (without a (sent s)) (unlisted a d s))) as Hi1.
  { apply inv_unsend; [done..|]. rewrite Hu. by rewrite Permutation_middle. }
  pose proof (c_nodup _ _ _ Hc) as Hnd. unfold listed in Hnd. apply NoDup_app in Hnd as (_ & _ & Hnd). rewrite Hs in Hnd.
  destruct (IH _ (before ++ [a]) after Hi1) as (s' & E & Hi' & (L1 & L2 & L3) & Hf & Hs').
  - simpl. rewrite Hs. by apply without_head.
  - simpl. by rewrite <- app_assoc.
  - exists s'. split; [exact E|]. by split_and!.
Qed.

Lemma fault_detected_spec x H s d now :
  inv x H s -> exists s', fault_detected d now s = (Ok tt, s') /\ inv x H s' /\ same_log s s' /\
    flags s' = flags s /\ heap s' = heap s /\ unsent s' = unsent s /\ sent s' = sent s.
Proof.
  intros Hi. eexists. split; [done|]. split; [|done]. pose proof (inv_limit _ _ _ Hi).
  apply inv_cong; [done| |]; destruct (negb _); [done| |done|]; (destruct (now <? _); [done|]); [done|].
  simpl. unfold MIN_INFLIGHT. lia.
Qed.

Lemma resend_late_spec H now l : forall s,
  inv [] H s -> sent s = l ->
  exists s', resend_late now l s = (Ok tt, s') /\ inv [] H s' /\ same_log s s' /\ flags s' = flags s /\
    (sent s' <> [] -> exists a, peek (sent s') = Some a).
Proof.
  induction l as [|a l IH]; intros s Hi Hs.
  { exists s. split_and!; try done. }
  pose proof (i_core _ _ _ Hi) as Hc. assert (a ∈ sent s) as Ha by (rewrite Hs; set_solver).
  destruct (listed_live _ _ _ a Hc) as [d Hd]; [unfold listed; set_solver|].
  cbn [resend_late]. rewrite (st_run _ _ _ _ _ (run_deref_data _ _ _ Hd)).
  destruct (now >=? fault_time d); [|exists s; split_and!; try done; intros _; rewrite Hs; by exists a].
  rewrite (st_run _ _ _ _ _ (run_data_remove _ _ _ _ _ Hc Hd)). unfold mod_send. unfold st_bind at 1.
  pose proof (listed_unique _ _ _ Hc Ha) as Hnu.
  assert (inv [] H (set_lists (unsent (unlisted a d s) ++ [a]) (without a (sent s)) (unlisted a d s))) as Hi1.
  { apply inv_unsend; [done..|]. simpl. rewrite without_absent by done. solve_Permutation. }
  destruct (fault_detected_spec [] H _ d now Hi1) as (s1 & E1 & Hi2 & (L1 & L2 & L3) & Hf & _ & _ & Hs1).
  rewrite (st_run _ _ _ _ _ E1).
  pose proof (c_nodup _ _ _ Hc) as Hnd. unfold listed in Hnd. apply NoDup_app in Hnd as (_ & _ & Hnd). rewrite Hs in Hnd.
  destruct (IH s1 Hi2) as (s' & -> & Hi' & (K1 & K2 & K3) & Hf' & Hp).
  - rewrite Hs1. simpl. rewrite Hs. by apply without_head.
  - exists s'. split; [done|]. split; [done|]. split; [split_and!; simpl in *; congruence|].
    split; [simpl in *; congruence|done].
Qed.

Lemma data_send_spec H s a l now :
  inv [] H s -> unsent s = a :: l ->
  exists u s', data_send a now s = (Ok u, s') /\ inv [] H s' /\ same_log s s' /\ flags s' = flags s /\
    update_ok u /\ in_history H u /\ a ∈ sent s' /\ unsent s' = l /\ is_u64 (s_ok_expiry (peer s')).
Proof.
  intros Hi Hu. pose proof (i_core _ _ _ Hi) as Hc. assert (a ∈ listed s) as Hin by (unfold listed; rewrite Hu; set_solver).
  destruct (c_listed _ _ _ Hc a Hin) as (d & Hd & Hok & Hne).
  destruct (c_log _ _ _ Hc a d Hd) as [[_ ?]|Hlog]; [done|].
  pose proof (c_nodup _ _ _ Hc) as Hnd. unfold listed in Hnd. apply NoDup_app in Hnd as (Hnu & Hdis & _). rewrite Hu in Hnu.
  assert (a ∉ sent s) as Hns by (apply Hdis; rewrite Hu; set_solver).
  unfold data_send, get_send, mod_send. rewrite (st_run _ _ _ _ _ (run_data_remove _ _ _ _ _ Hc Hd)).
  set (s1 := unlisted a d s). rewrite (st_run _ _ s1 s1 s1) by done. unfold st_bind at 1 2.
  set (s2 := upd_cong _ (set_lists _ _ s1)).
  pose proof (core_unlisted _ _ _ _ _ Hc Hd) as Hc1. fold s1 in Hc1.
  assert (timed s2) as Ht by exact (core_timed _ _ _ Hc1).
  destruct (calculate_spec s2 now Ht) as (e & f & E & He & Hf & _). rewrite (st_run _ _ _ _ _ E).
  set (s3 := upd_peer f s2). assert (heap s3 !! a = Some (set_inflight false d)) as Hd3 by apply lookup_insert_eq.
  rewrite (st_run _ _ _ _ _ (run_deref_data _ _ _ Hd3)). eexists _, _. split; [done|].
  assert (update_ok (with_expiry e (update d))) as Hok' by (destruct Hok; by constructor).
  assert (without a (sent s) ++ [a] = sent s ++ [a]) as Es by by rewrite without_absent.
  assert (without a (unsent s) = l) as El by (rewrite Hu; by apply without_head).
  split_and!; try done.
  - eapply (inv_relisted H s a d _ _ Hi Hd Hin); [simpl; by rewrite insert_insert_eq|..]; simpl; try done.
    + exact (inv_limit _ _ _ Hi).
    + unfold listed. simpl. rewrite Es, El, Hu. solve_Permutation.
    + intros b Hb. rewrite Es. set_solver.
    + rewrite zlen_app. pose proof (run_inflight _ _ _ _ Hc Hd) as Hn. simpl in Hn. rewrite Hn. done.
    + rewrite bool_decide_eq_true_2; [done|]. set_solver.
  - simpl. set_solver.
Qed.

(** ** Running *)

(** A packet that is written is one that was queued, but for its expiry. *)
Definition emitted (H : history) (u : kvp_update_t) : Prop := update_ok u /\ in_history H u.

Lemma run_first_fault H s a : inv [] H s -> a ∈ sent s -> exists t, first_fault s = (Ok t, s).
Proof.
  intros Hi Ha. unfold first_fault, get_send. rewrite (st_run _ _ s s s) by done.
  destruct (sent s) as [|b l] eqn:Es; [by apply elem_of_nil in Ha|]. simpl.
  destruct (listed_live [] H s b (i_core _ _ _ Hi)) as [d Hd]; [unfold listed; rewrite Es; set_solver|].
  rewrite (st_run _ _ _ _ _ (run_deref_data _ _ _ Hd)). eauto.
Qed.

Lemma peek_in {l : list addr} {a} : peek l = Some a -> exists k, l = a :: k.
Proof. destruct l; [done|]. intros [= ->]. eauto. Qed.

Lemma choose_packet_spec H s now :
  inv [] H s -> start_sent (flags s) = true -> s_update_id s + 1 < 2 ^ 32 ->
  exists out H' s', choose_packet true now s = (Ok out, s') /\ advanced 1 H H' s s' /\
    (forall u, pkt out = Some u -> emitted H' u).
Proof.
  intros Hi Hst Hmax. unfold choose_packet, get_send. rewrite (st_run _ _ s s s) by done.
  destruct (if inflight_is_full s then None else peek (unsent s)) as [a|] eqn:Ech.
  { assert (exists l, unsent s = a :: l) as [l El] by (destruct (inflight_is_full s); [done|by apply peek_in]).
    destruct (data_send_spec H s a l now Hi El) as (u & s1 & E1 & Hi1 & Hl1 & _ & Hu & Hh & Ha & _).
    rewrite (st_run _ _ _ _ _ E1), (st_run _ _ s1 s1 s1) by done.
    destruct (run_first_fault H s1 a Hi1 Ha) as [t Et].
    assert (forall t', exists out H' s', st_ret (mkRun (Some u) t') s1 = (Ok out, s') /\ advanced 1 H H' s s' /\
      (forall u, pkt out = Some u -> emitted H' u)) as Hout.
    { intros t'. eexists _, H, s1. split_and!; [done| |by intros ? [= <-]].
      eapply advanced_more; [by apply advanced_same|lia]. }
    destruct (_ && _); [apply Hout|]. rewrite (st_run _ _ _ _ _ Et). apply Hout. }
  clear Ech. destruct (peek (sent s)) as [a|] eqn:Eps.
  { destruct (peek_in Eps) as [l El].
    destruct (run_first_fault H s a Hi) as [t Et]; [rewrite El; set_solver|]. rewrite (st_run _ _ _ _ _ Et).
    eexists _, H, s. split_and!; [done| |done]. eapply advanced_more; [by apply advanced_same|lia]. }
  destruct (_ <? _).
  { eexists _, H, s. split_and!; [done| |done]. eapply advanced_more; [by apply advanced_same|lia]. }
  unfold mod_send. unfold st_bind at 1. set (s1 := upd_peer _ s).
  assert (inv [] H s1) as Hi1 by (apply inv_peer; [done|exact (inv_expiry _ _ _ Hi)]).
  destruct (inv_control H s1 KVP_UPDATE_EMPTY Hi1 Hst) as (H2 & s2 & E2 & Ha2 & _ & b & Eb); [done|by right|].
  assert (queue_empty true s1 = (Ok tt, s2)) as E2' by exact E2.
  rewrite (st_run _ _ _ _ _ E2'), (st_run _ _ s2 s2 s2) by done.
  destruct (unsent s2) as [|a l] eqn:Eu; [by destruct (unsent s1)|]. cbn [peek head].
  destruct (data_send_spec H2 s2 a l now (ad_inv _ _ _ _ _ Ha2) Eu) as (u & s3 & E3 & Hi3 & Hl3 & _ & Hu & Hh & Ha & _).
  rewrite (st_run _ _ _ _ _ E3). destruct (listed_live [] H2 s3 a (i_core _ _ _ Hi3)) as [d Hd]; [unfold listed; set_solver|].
  rewrite (st_run _ _ _ _ _ (run_deref_data _ _ _ Hd)). eexists _, H2, s3.
  split_and!; [done| |by intros ? [= <-]].
  assert (advanced 0 H H s s1) as Ha1 by by apply advanced_same.
  exact (advanced_trans 0 1 _ _ _ _ _ _ Ha1 (advanced_trans 1 0 _ _ _ _ _ _ Ha2 (advanced_same _ _ _ Hi3 Hl3))).
Qed.

Lemma check_unresponsive_spec H s now :
  inv [] H s -> exists s', check_unresponsive now s = (Ok tt, s') /\ inv [] H s' /\ same_log s s' /\ flags s' = flags s.
Proof.
  intros Hi. unfold check_unresponsive, get_send. rewrite (st_run _ _ s s s) by done.
  destruct (peek (sent s)) as [a|] eqn:Ea; [|by exists s]. destruct (peek_in Ea) as [l El].
  destruct (listed_live [] H s a (i_core _ _ _ Hi)) as [d Hd]; [unfold listed; rewrite El; set_solver|].
  rewrite (st_run _ _ _ _ _ (run_deref_data _ _ _ Hd)). destruct (_ && _); [|by exists s].
  destruct (resend_all_spec H (sent s) s [] (unsent s) Hi) as (s1 & E1 & Hi1 & Hl1 & Hf1 & Hs1); [done..|].
  rewrite (st_run _ _ _ _ _ E1), (st_run _ _ s1 s1 s1) by done.
  rewrite (c_count _ _ _ (i_core _ _ _ Hi1)), Hs1. cbn [zlen]. eexists. split; [done|].
  split_and!; [|by destruct Hl1 as (?&?&?)..|done]. by apply inv_cong.
Qed.

(** The sender never stops; what it sends is what it queued. *)
Lemma send_run_spec H s now :
  inv [] H s -> s_update_id s + Z.of_nat (size (cache s)) + 3 < 2 ^ 32 ->
  exists out H' s', kvpsync_send_run true now s = (Ok out, s') /\
    advanced (Z.of_nat (size (cache s)) + 3) H H' s s' /\ (forall u, pkt out = Some u -> emitted H' u).
Proof.
  intros Hi Hmax. unfold kvpsync_send_run.
  assert (exists out H' s', send_run true now s = (Ok out, s') /\
    advanced (Z.of_nat (size (cache s)) + 3) H H' s s' /\ (forall u, pkt out = Some u -> emitted H' u))
    as (out & H' & s' & E & Ha & Hout).
  2:{ rewrite (st_run _ _ _ _ _ E). destruct (run_maybe_state_cb s') as (s2 & E2 & Hi2).
      rewrite (st_run _ _ _ _ _ E2). exists out, H', s2. split_and!; [done| |done].
      destruct (maybe_state_cb_ids _ _ E2) as (F1 & F2 & F3). destruct Ha. constructor; [done|by apply Hi2|congruence|lia|congruence]. }
  unfold send_run, mod_send, get_send.
  destruct (advance_state_spec H s now Hi) as (H1 & s1 & E1 & Ha1 & Hst); [lia|].
  rewrite (st_run _ _ _ _ _ E1). unfold st_bind at 1. set (s2 := upd_peer _ s1).
  assert (inv [] H1 s2) as Hi2.
  { apply inv_peer; [by apply (ad_inv _ _ _ _ _ Ha1)|].
    destruct (_ && _); exact (inv_expiry _ _ _ (ad_inv _ _ _ _ _ Ha1)). }
  destruct (check_unresponsive_spec H1 s2 now Hi2) as (s3 & E3 & Hi3 & Hl3 & Hf3).
  rewrite (st_run _ _ _ _ _ E3), (st_run _ _ s3 s3 s3) by done.
  destruct (resend_late_spec H1 now (sent s3) s3 Hi3) as (s4 & E4 & Hi4 & Hl4 & Hf4 & _); [done|].
  rewrite (st_run _ _ _ _ _ E4). pose proof (ad_update _ _ _ _ _ Ha1) as Hu1.
  assert (advanced 0 H1 H1 s1 s4) as Ha4.
  { apply advanced_same; [done|]. destruct Hl3 as (A1 & A2 & A3), Hl4 as (B1 & B2 & B3).
    split_and!; simpl in *; congruence. }
  pose proof (ad_update _ _ _ _ _ Ha4) as Hu4.
  destruct (choose_packet_spec H1 s4 now Hi4) as (out & H5 & s5 & E5 & Ha5 & Hout).
  { rewrite Hf4, Hf3. exact Hst. }
  { lia. }
  rewrite (st_run _ _ _ _ _ E5), (st_run _ _ s5 s5 s5) by done.
  eexists _, H5, s5. split_and!; [done| |].
  - eapply advanced_more; [exact (advanced_trans _ _ _ _ _ _ _ _ Ha1 (advanced_trans _ _ _ _ _ _ _ _ Ha4 Ha5))|lia].
  - intros u. destruct (_ && _); apply Hout.
Qed.

(** ** Keys *)

(** The reference of the cache passes to the running operation, and back. *)
Lemma core_uncache x H s k a :
  core x H s -> cache s !! k = Some a -> core (a :: x) H (upd_cache (delete k) s).
Proof.
  intros [] Hk. destruct (c_cache0 k a Hk) as (d & Hd & Hty & Ek). constructor; simpl; try done.
  - intros k' b [_ Hb]%lookup_delete_Some. eauto.
  - intros b e He. destruct (c_refs0 b e He) as [-> Hp]. split; [|done]. unfold refs. simpl.
    change (listed (upd_cache ?f s)) with (listed s). rewrite times_cons.
    destruct (decide (b = a)) as [->|Hne].
    + simplify_eq. rewrite lookup_delete_eq, (bool_decide_eq_true_2 (cache s !! _ = _)),
        (bool_decide_eq_false_2 (None = _)), (bool_decide_eq_true_2 (a = a)) by done. simpl. lia.
    + rewrite (bool_decide_eq_false_2 (a = b)) by congruence.
      rewrite (bool_decide_ext (delete k (cache s) !! key (update e) = Some b) (cache s !! key (update e) = Some b)); [simpl; lia|].
      rewrite lookup_delete_Some. split; [tauto|]. intros Hb. split; [|done]. intros ->. congruence.
  - intros b [->|Hb]%elem_of_cons; [by exists d|auto].
Qed.

Lemma core_cache x H s a d :
  core (a :: x) H s -> heap s !! a = Some d -> utype (update d) = KVP_UPDATE_INSERT ->
  cache s !! key (update d) = None -> core x H (upd_cache (fun m => <[key (update d) := a]> m) s).
Proof.
  intros [] Ha Hty Hk. constructor; simpl; try done.
  - intros k b [[<- <-]|[_ Hb]]%lookup_insert_Some; eauto.
  - intros b e He. destruct (c_refs0 b e He) as [-> Hp]. split; [|done]. unfold refs. simpl.
    change (listed (upd_cache ?f s)) with (listed s). rewrite times_cons.
    destruct (decide (b = a)) as [->|Hne].
    + simplify_eq. rewrite lookup_insert_eq, Hk, (bool_decide_eq_true_2 (Some a = _)),
        (bool_decide_eq_false_2 (None = _)), (bool_decide_eq_true_2 (a = a)) by done. simpl. lia.
    + rewrite (bool_decide_eq_false_2 (a = b)) by congruence.
      rewrite (bool_decide_ext (<[key (update d):=a]> (cache s) !! key (update e) = Some b) (cache s !! key (update e) = Some b)); [simpl; lia|].
      rewrite lookup_insert_Some. split; [intros [[_ ?]|[_ ?]]; congruence|]. intros Hb. right. split; [|done]. congruence.
  - intros b Hb. apply c_held0. set_solver.
Qed.

Record deleted (H H' : history) (s s' : kvpsync_send_t) (k : bytes) : Prop := {
  de_sub : H ⊆ H';
  de_core : core [] H' s';
  de_acks : acks s';
  de_ids : s_sync_id s' = s_sync_id s /\ s_update_id s <= s_update_id s' <= s_update_id s + 1;
  de_cache : cache s' = cache s;
  de_flags : flags s' = flags s;
  de_listed : forall b, b ∈ listed s' -> b ∈ listed s \/ ~ in_cache s b;
  de_cached : forall k', cached s' k' = cached s k';
  de_data : forall b d', in_cache s b -> heap s' !! b = Some d' -> exists d, heap s !! b = Some d /\ strip (update d') = strip (update d);
  de_replay : replayed H' s' = (if sync_sent (flags s) then delete k (replayed H s) else replayed H s);
  de_quiet : sync_sent (flags s) = false -> unsent s' = unsent s /\ sent s' = sent s /\ s_update_id s' = s_update_id s
}.

(** Releasing a data that left the cache. *)
Lemma deleted_decref H H' s s1 a d1 k :
  H ⊆ H' -> core [a] H' s1 -> acks s1 -> s_sync_id s1 = s_sync_id s ->
  s_update_id s <= s_update_id s1 <= s_update_id s + 1 -> cache s1 = cache s -> flags s1 = flags s ->
  (forall b, b ∈ listed s1 -> b ∈ listed s \/ ~ in_cache s b) -> (forall k', cached s1 k' = cached s k') ->
  (forall b d', in_cache s b -> heap s1 !! b = Some d' -> exists d, heap s !! b = Some d /\ strip (update d') = strip (update d)) ->
  replayed H' s1 = (if sync_sent (flags s) then delete k (replayed H s) else replayed H s) ->
  (sync_sent (flags s) = false -> unsent s1 = unsent s /\ sent s1 = sent s /\ s_update_id s1 = s_update_id s) ->
  heap s1 !! a = Some d1 -> ~ in_cache s a -> deleted H H' s (decref a d1 s1) k.
Proof.
  intros Hsub Hc Hak Es Eu Ec Ef El Eca Ed Er Hqt Ha Hn.
  destruct (decref_places a d1 s1) as (F1&F2&F3&F4&F5&F6&F7&F8).
  destruct (core_decref _ _ _ _ _ Hc Ha) as (Hc1 & Hback & Hkeep).
  assert (~ in_cache s1 a) as Hn1 by (unfold in_cache; by rewrite Ec).
  assert (a ∈ listed s1 -> 1 < nrefs d1) as Hr.
  { intros Hin. destruct (c_refs _ _ _ Hc a d1 Ha) as [-> _]. unfold refs.
    rewrite times_cons, (bool_decide_eq_true_2 (a = a)), (bool_decide_eq_true_2 (a ∈ listed s1)) by done.
    pose proof (b2z_range (bool_decide (cache s1 !! key (update d1) = Some a))). pose proof (times_nonneg [] a). simpl. lia. }
  assert (moved s1 (decref a d1 s1)) as Hm.
  { constructor; try done; [by rewrite F5|intros b; unfold listed; by rewrite F2, F3|].
    intros b Hb. destruct (heap s1 !! b) as [e|] eqn:Ee.
    - destruct (Hkeep b e Ee) as (e0 & -> & E0); [|simpl; by rewrite E0].
      destruct (decide (b = a)) as [->|]; [right|by left]. destruct Hb as [Hb|Hb]; [by apply Hr|done].
    - destruct (heap (decref a d1 s1) !! b) as [e0|] eqn:E0; [|done].
      destruct (Hback b e0 E0) as (e & He & _). congruence. }
  constructor; try done.
  - by eapply acks_moved.
  - by rewrite F6, F8.
  - congruence.
  - congruence.
  - intros b. unfold listed. rewrite F2, F3. apply El.
  - intros k'. by rewrite (cached_moved _ _ _ Hm).
  - intros b d' Hb Hd'. destruct (Hback b d' Hd') as (e & He & -> & _). eauto.
  - unfold replayed. by rewrite F6, F8.
  - intros Hs. rewrite F2, F3, F8. auto.
Qed.

Lemma queue_delete_spec H s a d :
  core [a] H s -> acks s -> heap s !! a = Some d -> ~ in_cache s a -> utype (update d) = KVP_UPDATE_INSERT ->
  (sync_sent (flags s) = true -> sync_id (update d) = s_sync_id s) -> s_update_id s + 1 < 2 ^ 32 ->
  exists H' s', queue_delete_and_downref true a s = (Ok tt, s') /\ deleted H H' s s' (key (update d)).
Proof.
  intros Hc Hak Ha Hn Hty Hsync Hmax. unfold queue_delete_and_downref, get_send.
  rewrite (st_run _ _ s s s), (st_run _ _ _ _ _ (run_deref_data _ _ _ Ha)) by done.
  destruct (sync_sent (flags s)) eqn:Ess; cbn [andb].
  - rewrite (proj2 (Z.eqb_eq _ _) (Hsync eq_refl)).
    destruct (c_log _ _ _ Hc a d Ha) as [[E0 _]|Hlog].
    { pose proof (c_ids _ _ _ Hc). rewrite Hsync in E0 by done. lia. }
    rewrite Hsync in Hlog by done. unfold history_log in Hlog.
    destruct (c_honest _ _ _ Hc _ _ _ Hlog) as (_ & _ & Hid & _). destruct (c_bound _ _ _ Hc _ _ _ Hlog) as [?|[_ Hid']]; [lia|].
    destruct (c_shape _ _ _ Hc a d Ha) as [Hsh _]. pose proof (c_ids _ _ _ Hc) as (_ & Hids & _).
    set (u := mkUpdate 0 0 0 KVP_UPDATE_DELETE 0 (key (update d)) (update_id (update d)) []).
    destruct (queue_new_spec [a] H s u Hc Hak) as (H1 & s1 & E1 & Hq); try done.
    { destruct Hsh. constructor; simpl in *; try done; unfold is_u32, is_u64 in *; try lia; auto. by split; [constructor|]. }
    { split; [done|]. intros _. split; [simpl; lia|]. by exists (strip (update d)). }
    rewrite (st_run _ _ _ _ _ E1). pose proof (q_heap _ _ _ _ _ _ Hq a d Ha) as Ha1.
    rewrite (run_downref _ _ _ Ha1). eexists H1, _. split; [done|].
    destruct (q_ids _ _ _ _ _ _ Hq) as [Ei1 Ei2]. destruct (q_flags _ _ _ _ _ _ Hq) as [Ef _].
    apply deleted_decref; try done; try by apply Hq.
    + lia.
    + intros b d' [k Hk] Hd'. destruct (c_cache _ _ _ Hc k b Hk) as (e & He & _).
      pose proof (q_heap _ _ _ _ _ _ Hq b e He). exists e. split; [done|]. congruence.
    + by rewrite Ess, (q_replay _ _ _ _ _ _ Hq).
    + by rewrite Ess.
  - unfold st_bind, st_ret. rewrite (run_downref _ _ _ Ha). eexists H, _. split; [done|].
    apply deleted_decref; try done; [lia|auto| |by rewrite Ess]. intros b d' _ Hd'. by exists d'.
Qed.

(** A change of one key that the log has: what is left is to queue the new value. *)
Lemma inv_deleted (H H' : history) s s' k :
  deleted H H' s s' k -> phases s ->
  (forall k', replayed H' s' !! k' = if sync_sent (flags s) then cached s k' else None) ->
  (sync_sent (flags s) = true -> forall k a d, cache s !! k = Some a -> heap s !! a = Some d -> sync_id (update d) = s_sync_id s) ->
  inv [] H' s'.
Proof.
  intros [] [P1 P2 P3] M1 M2. constructor; [done|done| |].
  - constructor; rewrite de_flags0; [| |done].
    + intros Hs k' b. rewrite de_cache0. intros Hk [Hb|Hb]%de_listed0; [by apply (P1 Hs k' b)|]. apply Hb. by exists k'.
    + intros Hs. destruct (P2 Hs) as (Hl & Hu & Hss). destruct (de_quiet0 Hss) as (E1 & E2 & E3).
      unfold listed in *. rewrite E1, E2, E3. by split.
  - constructor; rewrite de_flags0.
    + intros k'. by rewrite M1, de_cached0.
    + intros Hs k' b d. rewrite de_cache0. intros Hk Hd. destruct de_ids0 as [-> _].
      destruct (de_data0 b d) as (d0 & Hd0 & (-> & _)%strip_fields); [by exists k'|done|]. eauto.
Qed.

Lemma delete_key_spec H s k :
  inv [] H s -> s_update_id s + 1 < 2 ^ 32 ->
  exists H' s', kvpsync_send_delete_key true k s = (Ok tt, s') /\ H ⊆ H' /\ inv [] H' s' /\
    s_sync_id s' = s_sync_id s /\ s_update_id s <= s_update_id s' <= s_update_id s + 1 /\
    cache s' = delete k (cache s).
Proof.
  intros Hi Hmax. unfold kvpsync_send_delete_key, get_send, mod_send, put_data. rewrite (st_run _ _ s s s) by done.
  destruct (cache s !! k) as [a|] eqn:Ek.
  2:{ exists H, s. split_and!; try done; [lia|]. by rewrite fin_maps.delete_id. }
  pose proof Hi as [Hc Hak Hph [M1 M2]]. destruct (c_cache _ _ _ Hc k a Ek) as (d & Hd & Hty & Hkey).
  unfold st_bind at 1. set (s1 := upd_cache (delete k) s). pose proof (core_uncache [] H s k a Hc Ek) as Hc1. fold s1 in Hc1.
  assert (heap s1 !! a = Some d) as Hd1 by done. rewrite (st_run _ _ _ _ _ (run_deref_data _ _ _ Hd1)).
  unfold mod_send. unfold st_bind at 1. set (s2 := upd_heap _ s1).
  assert (core [a] H s2) as Hc2 by by apply (core_put [a] H s1 a d).
  assert (moved s1 s2) as Hm by by apply (moved_put a d).
  assert (forall k', cached s2 k' = if decide (k' = k) then None else cached s k') as Hca.
  { intros k'. rewrite (cached_moved _ _ _ Hm). unfold cached, s1. simpl.
    case_decide; [subst; by rewrite lookup_delete_eq|by rewrite lookup_delete_ne by congruence]. }
  destruct (queue_delete_spec H s2 a (set_cb None d) Hc2) as (H3 & s3 & E3 & Hde); try done.
  - apply (acks_moved s1); [|done]. eapply acks_ext; [exact Hak|done..].
  - apply lookup_insert_eq.
  - intros [k' Hk']. change (delete k (cache s) !! k' = Some a) in Hk'.
    apply lookup_delete_Some in Hk' as [Hne Hk']. destruct (c_cache _ _ _ Hc k' a Hk') as (e & He & _ & He'). simplify_eq.
  - simpl. intros Hs. by apply (M2 Hs k a).
  - simpl in Hde. rewrite Hkey in Hde. exists H3, s3. split; [exact E3|]. destruct (de_ids _ _ _ _ _ Hde) as [Ei Eu].
    split_and!; [by apply Hde| |done|simpl in Eu; lia..|by apply Hde].
    apply (inv_deleted H H3 s2 s3 k); [done| | |].
    + eapply phases_moved; [|exact Hm]. destruct Hph as [P1 P2 P3]. constructor; simpl; [|done|done].
      intros Hs k' b [_ Hk']%lookup_delete_Some. by apply (P1 Hs k').
    + intros k'. rewrite (de_replay _ _ _ _ _ Hde), Hca. simpl. change (replayed H s2) with (replayed H s).
      destruct (sync_sent (flags s)) eqn:Es; [|by rewrite M1].
      case_decide; [subst; by rewrite lookup_delete_eq|rewrite lookup_delete_ne by congruence; by rewrite M1].
    + simpl. intros Hs k' b e [_ Hk']%lookup_delete_Some He.
      apply lookup_insert_Some in He as [[<- <-]|[_ He]]; simpl; eauto.
Qed.

Lemma core_swap a b x H s : core (a :: b :: x) H s -> core (b :: a :: x) H s.
Proof.
  intros []. constructor; try done.
  - intros c d Hd. destruct (c_refs0 c d Hd) as [-> Hp]. split; [|done]. unfold refs. rewrite !times_cons. lia.
  - intros c Hc. apply c_held0. set_solver.
Qed.

Lemma core_oldest_add x H s a : core (a :: x) H s -> core (a :: x) H (upd_oldest (fun l => l ++ [a]) s).
Proof.
  intros []. constructor; simpl; try done. intros b [Hb| ->%list_elem_of_singleton]%elem_of_app; [eauto|].
  apply c_held0. set_solver.
Qed.

Lemma deleted_refl H s k : core [] H s -> acks s -> replayed H s !! k = None -> deleted H H s s k.
Proof.
  intros. constructor; try done; [lia|auto|intros b d' _ Hd; by exists d'|].
  destruct (sync_sent (flags s)); [|done]. by rewrite fin_maps.delete_id.
Qed.

(** The new data is in the cache, and the old one is gone. *)
Definition with_key (k : bytes) (v : bytes) (c : option Z) (t : Z) (s : kvpsync_send_t) : kvpsync_send_t :=
  upd_cache (fun m => <[k := next_addr s]> m)
    (upd_oldest (fun l => l ++ [next_addr s]) (with_new (mkUpdate 0 0 0 KVP_UPDATE_INSERT 0 k 0 v) c t s)).

Definition good_key (k v : bytes) : Prop :=
  is_bytes k /\ zlen k <= KVPSYNC_MAX_LEN /\ is_bytes v /\ zlen v <= KVPSYNC_MAX_LEN.

Lemma insert_ok k v : good_key k v -> update_ok (with_ids 0 1 (mkUpdate 0 0 0 KVP_UPDATE_INSERT 0 k 0 v)).
Proof.
  intros (?&?&?&?). assert (is_u32 0 /\ is_u32 1 /\ is_u64 0) as (? & ? & ?) by (unfold is_u32, is_u64; lia).
  constructor; simpl; try done; auto; congruence.
Qed.

Lemma cached_with_key k v c t s k' :
  (forall k, cache s !! k <> Some (next_addr s)) ->
  cached (with_key k v c t s) k' = if decide (k' = k) then Some v else cached s k'.
Proof.
  intros Hn. unfold cached, with_key. simpl. case_decide as E.
  - subst. rewrite lookup_insert_eq. simpl. by rewrite lookup_insert_eq.
  - rewrite lookup_insert_ne by congruence. destruct (cache s !! k') as [b|] eqn:Ek; [|done]. simpl.
    rewrite lookup_insert_ne; [done|]. intros <-. by apply (Hn k').
Qed.

Lemma add_stage H s k v c t :
  inv [] H s -> good_key k v -> is_u64 t -> s_update_id s + 1 < 2 ^ 32 ->
  let s1 := with_key k v c t s in
  exists H2 s2, match cache s !! k with None => st_ret tt | Some old => queue_delete_and_downref true old end s1 = (Ok tt, s2) /\
    deleted H H2 s1 s2 k /\ next_addr s ∉ listed s2 /\
    (forall k, cache s !! k <> Some (next_addr s)) /\ acks s1 /\ next_addr s ∉ listed s.
Proof.
  intros Hi Hkv Ht Hmax s1. pose proof Hi as [Hc Hak Hph [M1 M2]].
  set (a := next_addr s) in *. set (u := mkUpdate 0 0 0 KVP_UPDATE_INSERT 0 k 0 v).
  destruct (core_new [] H s u c t Hc (insert_ok _ _ Hkv) Ht) as (Hc1 & Hn & Hfresh); [done..|].
  assert (forall k, cache s !! k <> Some a) as Hnc.
  { intros k' Hk. destruct (c_cache _ _ _ Hc _ _ Hk) as (e & He & _). unfold a in He. congruence. }
  set (s0 := upd_oldest (fun l => l ++ [a]) (with_new u c t s)).
  pose proof (core_oldest_add _ _ _ _ Hc1) as Hc0. change (core [a] H s0) in Hc0.
  assert (heap s0 !! a = Some (fresh_data u c t)) as Ha by apply lookup_insert_eq.
  assert (acks s1) as Hak1.
  { eapply acks_ext; [by apply (acks_new s u c t Hak Hn)|done..]. }
  assert (exists H2 s2, match cache s !! k with None => st_ret tt | Some old => queue_delete_and_downref true old end s1 = (Ok tt, s2) /\
    deleted H H2 s1 s2 k) as (H2 & s2 & E & Hde).
  { destruct (cache s !! k) as [old|] eqn:Ek.
    - pose proof (core_uncache [a] H s0 k old Hc0 Ek) as Hc2. apply core_swap in Hc2.
      pose proof (core_cache [old] H _ a (fresh_data u c t) Hc2 Ha eq_refl) as Hc3. simpl in Hc3.
      rewrite lookup_delete_eq in Hc3. specialize (Hc3 eq_refl).
      assert (core [old] H s1) as Hc4.
      { eapply core_ext; [exact Hc3|done|done|done|done|done| |done..|by apply (c_limit _ _ _ Hc0)|by apply (c_expiry _ _ _ Hc0)].
        simpl. by rewrite insert_delete_eq. }
      destruct (c_cache _ _ _ Hc k old Ek) as (d & Hd & Hty & Hkd).
      assert (old <> a) as Hne by (intros ->; by apply (Hnc k)).
      destruct (queue_delete_spec H s1 old d Hc4 Hak1) as (H2 & s2 & E2 & Hde); try done.
      + unfold s1, with_key. simpl. by rewrite lookup_insert_ne by (intros <-; done).
      + intros [k' Hk']. change (<[k := a]> (cache s) !! k' = Some old) in Hk'.
        apply lookup_insert_Some in Hk' as [[_ ?]|[Hnk Hk']]; [congruence|].
        destruct (c_cache _ _ _ Hc k' old Hk') as (e & He & _ & Hke). congruence.
      + intros Hs. by apply (M2 Hs k old).
      + exists H2, s2. rewrite Hkd in Hde. by split.
    - pose proof (core_cache [] H s0 a (fresh_data u c t) Hc0 Ha eq_refl Ek) as Hc3.
      exists H, s1. split; [done|]. apply deleted_refl; [exact Hc3|done|].
      change (replayed H s !! k = None). rewrite M1. unfold cached. rewrite Ek. by destruct (sync_sent _). }
  exists H2, s2. split_and!; try done.
  intros [Hin|Hin]%(de_listed _ _ _ _ _ Hde); [by apply Hn|]. apply Hin. exists k. apply lookup_insert_eq.
Qed.

Lemma phases_with_key k v c t s : phases s -> next_addr s ∉ listed s -> phases (with_key k v c t s).
Proof.
  intros [P1 P2 P3] Hn. constructor; simpl; [|done|done].
  intros Hs k' b [[_ <-]|[_ Hb]]%lookup_insert_Some; [done|]. by apply (P1 Hs k').
Qed.

Lemma add_key_spec H s now k v c :
  inv [] H s -> good_key k v -> s_update_id s + 2 < 2 ^ 32 ->
  exists H' s', kvpsync_send_add_key true now k v c s = (Ok tt, s') /\ H ⊆ H' /\ inv [] H' s' /\
    s_sync_id s' = s_sync_id s /\ s_update_id s <= s_update_id s' <= s_update_id s + 2 /\
    cache s' = <[k := next_addr s]> (cache s).
Proof.
  intros Hi Hkv Hmax. unfold kvpsync_send_add_key. pose proof Hkv as (_ & Hk & _ & Hv).
  rewrite !Z.gtb_ltb, !(proj2 (Z.ltb_ge _ _)) by done. cbn [orb].
  set (t := u64 (now + MIN_RESPONSE)). assert (is_u64 t) as Ht by apply u64_range.
  rewrite (st_run _ _ _ _ _ (run_xnew _ c t s)). unfold mod_send, get_send. unfold st_bind at 1. unfold st_bind at 1. unfold st_bind at 1.
  cbn [cache upd_oldest with_new]. change (upd_cache _ _) with (with_key k v c t s).
  destruct (add_stage H s k v c t Hi Hkv Ht) as (H2 & s2 & E2 & Hde & Hn & Hnc & Hak1 & Hn0); [lia|].
  rewrite (st_run _ _ _ _ _ E2), (st_run _ _ s2 s2 s2) by done.
  set (a := next_addr s) in *. set (s1 := with_key k v c t s) in *.
  assert (cache s1 !! k = Some a) as Hk1 by apply lookup_insert_eq.
  pose proof (i_mirror _ _ _ Hi) as [M1 M2]. destruct (de_ids _ _ _ _ _ Hde) as [Ei Eu].
  change (s_update_id s1) with (s_update_id s) in Eu. change (s_sync_id s1) with (s_sync_id s) in Ei.
  rewrite (de_flags _ _ _ _ _ Hde). change (flags s1) with (flags s).
  assert (phases s1) as Hph1 by (apply phases_with_key; [by apply Hi|done]).
  assert (forall k', k' <> k -> replayed H2 s2 !! k' = if sync_sent (flags s) then cached s1 k' else None) as Hrest.
  { intros k' Hne. rewrite (de_replay _ _ _ _ _ Hde). change (flags s1) with (flags s). change (replayed H s1) with (replayed H s).
    unfold s1. rewrite cached_with_key, decide_False by done.
    pose proof (M1 k') as Hk'. destruct (sync_sent (flags s)); [by rewrite lookup_delete_ne by congruence|done]. }
  destruct (sync_sent (flags s)) eqn:Es.
  - destruct (c_cache _ _ _ (de_core _ _ _ _ _ Hde) k a) as (d & Hd & Hty & Hkd); [by rewrite (de_cache _ _ _ _ _ Hde)|].
    rewrite (st_run _ _ _ _ _ (run_deref_data _ _ _ Hd)). unfold put_data, mod_send. unfold st_bind at 1.
    destruct (requeue_spec H2 s2 k a d) as (H3 & s3 & E3 & Hr & _); try done; [by apply Hde|by apply Hde|by rewrite (de_cache _ _ _ _ _ Hde)|lia|].
    exists H3, s3. destruct (r_ids _ _ _ _ _ Hr) as [Ei3 Eu3]. change (zlen [a]) with 1 in Eu3.
    destruct (r_flags _ _ _ _ _ Hr) as [Ef3 _]. pose proof (r_cache _ _ _ _ _ Hr) as Ec3. rewrite (de_cache _ _ _ _ _ Hde) in Ec3.
    split_and!; [exact E3| | |congruence|lia|lia|exact Ec3].
    + transitivity H2; [by apply Hde|by apply Hr].
    + constructor; [by apply Hr|by apply Hr| |].
      * destruct Hph1 as [P1 P2 P3]. constructor; rewrite Ef3, (de_flags _ _ _ _ _ Hde); [| |done]; simpl.
        -- congruence.
        -- intros Hs. pose proof (P2 Hs) as (_ & _ & ?). simpl in *. congruence.
      * constructor; rewrite Ef3, (de_flags _ _ _ _ _ Hde); change (flags s1) with (flags s); rewrite Es.
        -- intros k'. rewrite (r_replay _ _ _ _ _ Hr), (r_cached _ _ _ _ _ Hr), (de_cache _ _ _ _ _ Hde).
           destruct (decide (k' = k)) as [->|Hne].
           ++ rewrite Hk1. by rewrite bool_decide_eq_true_2 by set_solver.
           ++ rewrite (Hrest k' Hne), (de_cached _ _ _ _ _ Hde). destruct (cache s1 !! k'); [|done]. by case_bool_decide.
        -- intros _ k' b e. rewrite Ec3, Ei3. intros Hb [[_ ->]|(Hnb & d0 & Hd0 & ->)]%(r_data _ _ _ _ _ Hr); [done|].
           change (<[k := a]> (cache s) !! k' = Some b) in Hb.
           apply lookup_insert_Some in Hb as [[_ <-]|[Hne Hb]]; [set_solver|]. rewrite Ei.
           destruct (de_data _ _ _ _ _ Hde b d0) as (d1 & Hd1 & (-> & _)%strip_fields); [|done|].
           ++ exists k'. unfold s1, with_key. simpl. by rewrite lookup_insert_ne.
           ++ unfold s1, with_key in Hd1. simpl in Hd1. rewrite lookup_insert_ne in Hd1 by (intros <-; by apply (Hnc k')). eauto.
  - exists H2, s2. split_and!; [done|by apply Hde| |done|lia|lia|by rewrite (de_cache _ _ _ _ _ Hde)].
    apply (inv_deleted H H2 s1 s2 k); [done|done| |].
    + change (flags s1) with (flags s). rewrite Es. intros k'. rewrite (de_replay _ _ _ _ _ Hde). change (flags s1) with (flags s).
      rewrite Es. change (replayed H s1) with (replayed H s). pose proof (M1 k') as Hk'. done.
    + change (flags s1) with (flags s). congruence.
Qed.

(** ** Whole runs *)

Inductive op :=
| OpAck (ack : kvp_ack_t) (now : Z)
| OpRun (now : Z)
| OpAdd (now : Z) (k v : bytes) (cb : option Z)
| OpDelete (k : bytes).

(** The packet that an operation writes. *)
Definition do_op (o : op) : send (list kvp_update_t) :=
  match o with
  | OpAck ack now => do! _ := kvpsync_send_handle_ack ack now in st_ret []
  | OpRun now => do! r := kvpsync_send_run true now in st_ret (match pkt r with Some u => [u] | None => [] end)
  | OpAdd now k v cb => do! _ := kvpsync_send_add_key true now k v cb in st_ret []
  | OpDelete k => do! _ := kvpsync_send_delete_key true k in st_ret []
  end.
Fixpoint run_ops (l : list op) : send (list kvp_update_t) :=
  match l with
  | [] => st_ret []
  | o :: l => do! u := do_op o in do! us := run_ops l in st_ret (u ++ us)
  end.

Definition op_ok (o : op) : Prop :=
  match o with
  | OpAck ack _ => ack_ok ack
  | OpAdd _ k v _ => good_key k v
  | _ => True
  end.

Definition keys (s : kvpsync_send_t) : Z := Z.of_nat (size (cache s)).

Lemma emitted_weaken (H H' : history) u : H ⊆ H' -> emitted H u -> emitted H' u.
Proof. intros Hs [? ?]. split; [done|]. unfold in_history, history_log in *. by eapply lookup_weaken. Qed.

Lemma keys_insert s k a : Z.of_nat (size (<[k := a]> (cache s))) <= keys s + 1.
Proof. unfold keys. rewrite map_size_insert. case_match; unfold id; lia. Qed.

Lemma keys_delete s k : Z.of_nat (size (delete k (cache s))) <= keys s.
Proof. unfold keys. rewrite map_size_delete. case_match; unfold id; lia. Qed.

Lemma do_op_spec H s o :
  inv [] H s -> op_ok o -> s_update_id s + keys s + 3 < 2 ^ 32 -> s_sync_id s + 1 < 2 ^ 32 ->
  exists us H' s', do_op o s = (Ok us, s') /\ H ⊆ H' /\ inv [] H' s' /\ Forall (emitted H') us /\
    s_sync_id s <= s_sync_id s' <= s_sync_id s + 1 /\ s_update_id s' <= s_update_id s + keys s + 3 /\ keys s' <= keys s + 1.
Proof.
  intros Hi Ho Hmax Hs. pose proof (c_ids _ _ _ (i_core _ _ _ Hi)) as (_ & Hu & _).
  assert (0 <= keys s) as Hk by (unfold keys; lia). destruct o as [ack now|now|now k v c|k]; simpl in *.
  - destruct (handle_ack_spec H s ack now Hi Ho Hs) as (s' & E & Hi' & Ec & Eids).
    rewrite (st_run _ _ _ _ _ E). exists [], H, s'. unfold keys in *. rewrite Ec. split_and!; try done; lia.
  - destruct (send_run_spec H s now Hi) as (out & H' & s' & E & [A1 A2 A3 A4 A5] & Hout); [unfold keys in *; lia|].
    rewrite (st_run _ _ _ _ _ E). eexists _, H', s'. split; [done|]. unfold keys in *. rewrite A5. split_and!; try done; try lia.
    destruct (pkt out) as [u|]; [|done]. by apply Forall_singleton, Hout.
  - destruct (add_key_spec H s now k v c Hi Ho) as (H' & s' & E & Hsub & Hi' & Es & Eu & Ec); [lia|].
    rewrite (st_run _ _ _ _ _ E). exists [], H', s'. pose proof (keys_insert s k (next_addr s)).
    assert (keys s' = Z.of_nat (size (cache s'))) as Ek by done. rewrite Ec in Ek. split_and!; try done; lia.
  - destruct (delete_key_spec H s k Hi) as (H' & s' & E & Hsub & Hi' & Es & Eu & Ec); [lia|].
    rewrite (st_run _ _ _ _ _ E). exists [], H', s'. pose proof (keys_delete s k).
    assert (keys s' = Z.of_nat (size (cache s'))) as Ek by done. rewrite Ec in Ek. split_and!; try done; lia.
Qed.

Lemma run_ops_spec l : forall H s,
  inv [] H s -> Forall op_ok l -> s_sync_id s + zlen l < 2 ^ 32 ->
  s_update_id s + zlen l * (keys s + zlen l + 3) < 2 ^ 32 ->
  exists us H' s', run_ops l s = (Ok us, s') /\ H ⊆ H' /\ inv [] H' s' /\ Forall (emitted H') us.
Proof.
  induction l as [|o l IH]; intros H s Hi Hl Hs Hu; [by exists [], H, s; split_and!|].
  apply Forall_cons in Hl as [Ho Hl]. rewrite zlen_cons in Hs, Hu. pose proof (zlen_nonneg l) as Hn.
  assert (0 <= keys s) as Hk by (unfold keys; lia).
  assert (0 <= zlen l * (keys s + zlen l + 4)) as Hnn by (apply Z.mul_nonneg_nonneg; lia).
  destruct (do_op_spec H s o Hi Ho) as (us & H1 & s1 & E1 & Hsub & Hi1 & Hus & Es1 & Eu1 & Ek1); [lia|lia|].
  assert (zlen l * (keys s1 + zlen l + 3) <= zlen l * (keys s + zlen l + 4)) as Hle by (apply Z.mul_le_mono_nonneg_l; lia).
  cbn [run_ops]. rewrite (st_run _ _ _ _ _ E1).
  destruct (IH H1 s1 Hi1 Hl) as (us2 & H2 & s2 & E2 & Hsub2 & Hi2 & Hus2); [lia|lia|].
  rewrite (st_run _ _ _ _ _ E2). eexists _, H2, s2. split; [done|]. split_and!; [by transitivity H1|done|].
  apply Forall_app. split; [|done]. eapply Forall_impl; [exact Hus|]. intros u. by apply emitted_weaken.
Qed.

Lemma inv_fresh sid now b : 1 <= sid < 2 ^ 32 -> inv [] ∅ (send_fresh sid now b).
Proof.
  intros Hs. constructor.
  - constructor; simpl; try done.
    + constructor.
    + intros a Ha. by apply elem_of_nil in Ha.
    + intros a Ha. by apply elem_of_nil in Ha.
    + intros a Ha. by apply elem_of_nil in Ha.
    + apply u64_range.
  - constructor; simpl; [intros a d Ha; by apply elem_of_nil in Ha|done].
  - constructor; simpl; done.
  - constructor; simpl; [|done]. intros k. apply lookup_empty.
Qed.

Lemma pick_id_range draws id :
  pick_id draws = Ok id -> Forall (fun d => forall v, d = Ok v -> is_u32 v) draws -> 1 <= id < 2 ^ 32.
Proof.
  intros E Hd. assert (is_u32 id) as Hr.
  { induction draws as [|d draws IH]; [done|]. apply Forall_cons in Hd as [Hd Hds].
    cbn [pick_id] in E. destruct d as [v| |]; [|done|done]. cbn [res_bind] in E.
    destruct (v =? 0); [auto|]. injection E as <-. by apply Hd. }
  pose proof (pick_id_nonzero _ _ E). unfold is_u32 in Hr. lia.
Qed.

Lemma init_inv mem draws now b s0 :
  kvpsync_send_init mem draws now b = Ok s0 -> Forall (fun d => forall v, d = Ok v -> is_u32 v) draws ->
  inv [] ∅ s0 /\ s_update_id s0 = 0 /\ keys s0 = 0.
Proof.
  unfold kvpsync_send_init. intros E Hd. destruct (pick_id draws) as [id| |] eqn:Ep; [|done|done].
  cbn [res_bind] in E. destruct mem; [|done]. injection E as <-.
  split_and!; [|done|done]. apply inv_fresh. by eapply pick_id_range.
Qed.

(** ** Freeing *)

Lemma downref_all_spec l : forall s,
  NoDup l -> (forall a, a ∈ l -> exists d, heap s !! a = Some d /\ nrefs d = 1) ->
  (forall a d, heap s !! a = Some d -> a ∈ l) ->
  exists s', downref_all l s = (Ok tt, s') /\ heap s' = ∅.
Proof.
  induction l as [|a l IH]; intros s Hd Hl Hall.
  { exists s. split; [done|]. apply map_eq. intros a. rewrite lookup_empty. destruct (heap s !! a) eqn:E; [|done].
    apply Hall in E. by apply elem_of_nil in E. }
  inversion Hd as [|? ? Hn Hd']; subst. destruct (Hl a) as (d & Ha & Hr); [set_solver|].
  cbn [downref_all]. rewrite (st_run _ _ _ _ _ (run_downref _ _ _ Ha)). unfold decref. rewrite Hr. simpl.
  apply IH; [done| |]; simpl.
  - intros b Hb. rewrite lookup_delete_ne by (intros <-; done). apply Hl. set_solver.
  - intros b e [Hne Hb]%lookup_delete_Some. apply Hall in Hb. set_solver.
Qed.

Lemma free_spec H s :
  inv [] H s -> exists s', kvpsync_send_free s = (Ok tt, s') /\ heap s' = ∅.
Proof.
  intros [Hc _ _ _]. unfold kvpsync_send_free, get_send, mod_send.
  destruct (drop_data_spec H s Hc) as (s1 & E1 & Hc1 & _ & Hl). rewrite (st_run _ _ _ _ _ E1), (st_run _ _ s1 s1 s1) by done.
  unfold st_bind at 1. destruct (hash_order_facts H s1 Hc1) as (Hd & Hin & _).
  assert (forall a d, heap s1 !! a = Some d -> cache s1 !! key (update d) = Some a /\ nrefs d = 1) as Hone.
  { intros a d Ha. destruct (c_refs _ _ _ Hc1 a d Ha) as [E Hp]. unfold refs in E. rewrite Hl in E.
    rewrite (bool_decide_eq_false_2 (a ∈ [])) in E by apply not_elem_of_nil. change (times [] a) with 0 in E.
    case_bool_decide as Ek; simpl in E; [split; [done|lia]|lia]. }
  apply downref_all_spec; [done| |]; simpl.
  - intros a [k Hk]%Hin. destruct (c_cache _ _ _ Hc1 k a Hk) as (d & Ha & _). exists d. split; [done|]. by apply (Hone a).
  - intros a d Ha. apply Hin. exists (key (update d)). by apply Hone.
Qed.
End running.

(** ** Theorems *)



(** ** A concrete run *)

#[local] Instance list_order : HashOrder := fun m => (map_to_list m).*2.
#[local] Instance list_order_law : HashOrderLaw.
Proof. intros m. reflexivity. Qed.

(** A key before the sync, one after it, and the first one deleted. *)
Definition sample_ops : list op :=
  [OpAdd 1 (lit "A") (lit "x") (Some 1); OpRun 2; OpAck (mkAck 7 1) 3; OpRun 4; OpAck (mkAck 7 2) 5; OpRun 6;
   OpAck (mkAck 7 3) 7; OpAdd 8 (lit "B") (lit "y") (Some 2); OpDelete (lit "A"); OpRun 9; OpRun 10;
   OpAck (mkAck 7 5) 11; OpAck (mkAck 7 4) 12].
Definition sample_sender : kvpsync_send_t := send_fresh 7 0 true.

Lemma sample_ops_ok : Forall op_ok sample_ops.
Proof. repeat (constructor; [try done; split_and!; try done; repeat constructor; done|]). constructor. Qed.

Lemma draws_ok : Forall (fun d : res Z => forall v, d = Ok v -> is_u32 v) [Ok 0; Ok 7].
Proof. apply Forall_forall. intros d Hd v ->. unfold is_u32. set_unfold. intuition simplify_eq; lia. Qed.


(** The packets of the run, in the opposite order and twice. *)
Definition sample_run : list kvp_update_t * kvpsync_send_t :=
  match run_ops sample_ops sample_sender with (Ok us, s) => (us, s) | (_, s) => ([], s) end.
Definition sample_deliveries : list (Z * kvp_update_t) :=
  map (fun u => (20, u)) (reverse (fst sample_run) ++ fst sample_run).


(** What was sent last at the end of a run. *)
Definition last_expiry (ops : list op) : option Z :=
  match run_ops ops sample_sender with
  | (Ok us, _) => ok_expiry <$> last us
  | _ => None
  end.
Definition idle (cb : option Z) : list op :=
  [OpAdd 1 (lit "A") (lit "x") cb; OpRun 2; OpAck (mkAck 7 1) 3; OpRun 4; OpAck (mkAck 7 2) 5; OpRun 6;
   OpAck (mkAck 7 3) 7; OpRun (12 * SECOND + 1); OpAck (mkAck 7 4) (12 * SECOND + 2);
   OpRun (40 * SECOND); OpAck (mkAck 7 5) (40 * SECOND + 1)].

