(* ===== verification/DnsParse.v ===== *)
(** * DNS packets: parsing (server/dns/parse.c)

    A packet is the list of its bytes: reading past its length is [Stop OutOfBounds].
    The C code returns a position in the packet or one of the error codes at the top of
    size_t; the definitions return the same numbers. Pointers into the packet are
    offsets, and a label comes with its bytes. *)

From S2P Require Import Prelude.

(** ** Error codes *)

Definition BP_MINVAL : Z := 2 ^ 64 - 13.
Definition BP_ENDS_OPT_DATA_OVERRUN : Z := 2 ^ 64 - 14.
Definition BP_ENDS_OPT_HDR_OVERRUN : Z := 2 ^ 64 - 13.
Definition BP_ENDS_NONEMPTY_NAME : Z := 2 ^ 64 - 12.
Definition BP_DOUBLE_EDNS : Z := 2 ^ 64 - 11.
Definition BP_RR_DATA_OVERRUN : Z := 2 ^ 64 - 10.
Definition BP_RR_HDR_OVERRUN : Z := 2 ^ 64 - 9.
Definition BP_QSTN_OVERRUN : Z := 2 ^ 64 - 8.
Definition BP_LONG_NAME : Z := 2 ^ 64 - 7.
Definition BP_LABEL_OVERRUN : Z := 2 ^ 64 - 6.
Definition BP_LONG_LABEL : Z := 2 ^ 64 - 5.
Definition BP_DOUBLE_POINTER : Z := 2 ^ 64 - 4.
Definition BP_PTR_LEN_BYTE : Z := 2 ^ 64 - 3.
Definition BP_LABEL_LEN_BYTE : Z := 2 ^ 64 - 2.
Definition BP_HDR_OVERRUN : Z := 2 ^ 64 - 1.

Definition is_bad_parse (n : Z) : bool := n >=? BP_MINVAL.

Definition bp2str (bp : Z) : bytes :=
  if bp =? BP_ENDS_OPT_DATA_OVERRUN then lit "BP_ENDS_OPT_DATA_OVERRUN"
  else if bp =? BP_ENDS_OPT_HDR_OVERRUN then lit "BP_ENDS_OPT_HDR_OVERRUN"
  else if bp =? BP_ENDS_NONEMPTY_NAME then lit "BP_ENDS_NONEMPTY_NAME"
  else if bp =? BP_DOUBLE_EDNS then lit "BP_DOUBLE_EDNS"
  else if bp =? BP_RR_DATA_OVERRUN then lit "BP_RR_DATA_OVERRUN"
  else if bp =? BP_RR_HDR_OVERRUN then lit "BP_RR_HDR_OVERRUN"
  else if bp =? BP_QSTN_OVERRUN then lit "BP_QSTN_OVERRUN"
  else if bp =? BP_LONG_NAME then lit "BP_LONG_NAME"
  else if bp =? BP_LABEL_OVERRUN then lit "BP_LABEL_OVERRUN"
  else if bp =? BP_LONG_LABEL then lit "BP_LONG_LABEL"
  else if bp =? BP_DOUBLE_POINTER then lit "BP_DOUBLE_POINTER"
  else if bp =? BP_PTR_LEN_BYTE then lit "BP_PTR_LEN_BYTE"
  else if bp =? BP_LABEL_LEN_BYTE then lit "BP_LABEL_LEN_BYTE"
  else if bp =? BP_HDR_OVERRUN then lit "BP_HDR_OVERRUN"
  else lit "parse was ok".

(** ** Types of records *)

Definition A : Z := 1.
Definition NS : Z := 2.
Definition SOA : Z := 6.
Definition TXT : Z := 16.
Definition AAAA : Z := 28.
Definition CAA : Z := 257.
Definition EDNS : Z := 41.

Definition qtype_table : list (Z * bytes) :=
  [(1, lit "A"); (2, lit "NS"); (3, lit "MD"); (4, lit "MF"); (5, lit "CNAME"); (6, lit "SOA");
   (7, lit "MB"); (8, lit "MG"); (9, lit "MR"); (10, lit "NULL"); (11, lit "WKS"); (12, lit "PTR");
   (13, lit "HINFO"); (14, lit "MINFO"); (15, lit "MX"); (16, lit "TXT"); (252, lit "AXFR");
   (253, lit "MAILB"); (254, lit "MAILA"); (255, lit "*")].

(** [strcmp(qtype, s) == 0]; -1 on failure. *)
Definition parse_qtype (qtype : bytes) : Z :=
  match List.find (fun r => bool_decide (snd r = qtype)) (qtype_table ++ [(255, lit "ANY"); (28, lit "AAAA")]) with
  | Some r => fst r
  | None => -1
  end.
(** UNKNOWN is [None]. *)
Definition qtype_tostr (qtype : Z) : option bytes :=
  match List.find (fun r => fst r =? qtype) (qtype_table ++ [(28, lit "AAAA")]) with
  | Some r => Some (snd r)
  | None => None
  end.

(** ** Reading *)

(** [(uptr[i] << 8) | uptr[i+1]] and the like. *)
Definition rd16 (p : bytes) (i : Z) : res Z :=
  let! a := rd p i in
  let! b := rd p (i + 1) in
  Ok (Z.lor (Z.shiftl a 8) b).
Definition rd32 (p : bytes) (i : Z) : res Z :=
  let! a := rd p i in
  let! b := rd p (i + 1) in
  let! c := rd p (i + 2) in
  let! d := rd p (i + 3) in
  Ok (Z.lor (Z.lor (Z.lor (Z.shiftl a 24) (Z.shiftl b 16)) (Z.shiftl c 8)) d).

(** ** The header *)

Record dns_hdr_t := mkHdr {
  h_id : Z; h_qr : bool; h_opcode : Z; h_aa : bool; h_tc : bool; h_rd : bool; h_ra : bool; h_z : Z;
  h_rcode : Z; h_qdcount : Z; h_ancount : Z; h_nscount : Z; h_arcount : Z
}.
Definition no_hdr : dns_hdr_t := mkHdr 0 false 0 false false false false 0 0 0 0 0 0.
Definition DNS_HDR_SIZE : Z := 12.

Definition flag (mask : Z) (k b : Z) : bool := negb (Z.shiftr (Z.land mask b) k =? 0).

Definition parse_hdr (p : bytes) (used : Z) : res (Z * dns_hdr_t) :=
  if is_bad_parse used then Ok (used, no_hdr)
  else if zlen p <? used + 12 then Ok (BP_HDR_OVERRUN, no_hdr)
  else
    let! id := rd16 p used in
    let! b2 := rd p (used + 2) in
    let! b3 := rd p (used + 3) in
    let! qdcount := rd16 p (used + 4) in
    let! ancount := rd16 p (used + 6) in
    let! nscount := rd16 p (used + 8) in
    let! arcount := rd16 p (used + 10) in
    Ok (used + 12,
      mkHdr id (flag 128 7 b2) (Z.shiftr (Z.land 120 b2) 3) (flag 4 2 b2) (flag 2 1 b2) (flag 1 0 b2)
        (flag 128 7 b3) (Z.shiftr (Z.land 112 b3) 4) (Z.land 15 b3) qdcount ancount nscount arcount).

(** ** Names *)

(** Read labels until the zero label; the number of bytes used until the zero
    label or the first pointer. *)
Fixpoint parse_name_loop (fuel : nat) (p : bytes) (used : Z) (after_ptr was_ptr : bool)
  (preptr_used namelen : Z) : res Z :=
  match fuel with
  | O => Stop OutOfFuel
  | S f =>
      if zlen p <? used + 1 then Ok BP_LABEL_LEN_BYTE
      else
        let! l := rd p used in
        let used := used + 1 in
        if Z.land l 192 =? 192 then
          if was_ptr then Ok BP_DOUBLE_POINTER
          else if zlen p <? used + 1 then Ok BP_PTR_LEN_BYTE
          else
            let! l2 := rd p used in
            let used := used + 1 in
            parse_name_loop f p (Z.lor (Z.shiftl (Z.land l 63) 8) l2) true true
              (if after_ptr then preptr_used else used) namelen
        else if l >? 63 then Ok BP_LONG_LABEL
        else if zlen p <? used + l then Ok BP_LABEL_OVERRUN
        else
          let used := used + l in
          let namelen := namelen + (l + 1) in
          if namelen >? 255 then Ok BP_LONG_NAME
          else if l =? 0 then Ok (if after_ptr then preptr_used else used)
          else parse_name_loop f p used after_ptr false preptr_used namelen
  end.
(** A name has at most 255 bytes and no two pointers in a row. *)
Definition NAME_FUEL : nat := 512.
Definition parse_name (p : bytes) (used : Z) : res Z :=
  if is_bad_parse used then Ok used
  else parse_name_loop NAME_FUEL p used false false 0 0.

Fixpoint skip_name (fuel : nat) (p : bytes) (used : Z) : res Z :=
  match fuel with
  | O => Stop OutOfFuel
  | S f =>
      let! l := rd p used in
      let used := used + 1 in
      if Z.land l 192 =? 192 then Ok (used + 1)
      else if l =? 0 then Ok used
      else skip_name f p (used + l)
  end.

Abbreviation lstr_t := bytes.

Record labels_t := mkLabels { it_pos : Z; it_used : Z; after_ptr : bool }.
Definition labels_start (start : Z) : labels_t := mkLabels start 0 false.

Definition take_bytes (p : bytes) (off len : Z) : res bytes :=
  if off + len <=? zlen p then Ok (slice p off len) else Stop OutOfBounds.

(** The next label, or none at the end of the name. *)
Fixpoint labels_next (fuel : nat) (p : bytes) (it : labels_t) : res (option lstr_t * labels_t) :=
  match fuel with
  | O => Stop OutOfFuel
  | S f =>
      let! l := rd p (it_pos it) in
      let pos := it_pos it + 1 in
      if l =? 0 then Ok (None, mkLabels pos (if after_ptr it then it_used it else pos) (after_ptr it))
      else if Z.land l 192 =? 192 then
        let! l2 := rd p pos in
        let pos := pos + 1 in
        labels_next f p (mkLabels (Z.lor (Z.shiftl (Z.land l 63) 8) l2)
          (if after_ptr it then it_used it else pos) true)
      else
        let! str := take_bytes p pos l in
        Ok (Some str, mkLabels (pos + l) (it_used it) (after_ptr it))
  end.

(** [for(l = labels_iter(&it, ptr, start); l; l = labels_next(&it))] *)
Fixpoint labels_all (fuel : nat) (p : bytes) (it : labels_t) : res (list lstr_t * labels_t) :=
  match fuel with
  | O => Stop OutOfFuel
  | S f =>
      let! r := labels_next (S f) p it in
      match fst r with
      | None => Ok ([], snd r)
      | Some l => let! s := labels_all f p (snd r) in Ok (l :: fst s, snd s)
      end
  end.
Definition labels_iter (fuel : nat) (p : bytes) (start : Z) : res (list lstr_t * labels_t) :=
  labels_all fuel p (labels_start start).

(** The first [cap] labels, and how many there are. *)
Definition labels_read (fuel : nat) (p : bytes) (start : Z) (cap : Z) : res (list lstr_t * Z) :=
  let! r := labels_iter fuel p start in
  Ok (take (Z.to_nat cap) (fst r), zlen (fst r)).

Definition wr {X} (l : list X) (i : Z) (x : X) : res (list X) :=
  if decide (0 <= i < zlen l) then Ok (<[Z.to_nat i := x]> l) else Stop OutOfBounds.

(** The saving pass of labels_read_reverse. *)
Fixpoint save_reverse (ls : list lstr_t) (n cap skip bump : Z) (lstrs : list lstr_t) : res (list lstr_t) :=
  match ls with
  | [] => Ok lstrs
  | l :: ls =>
      if n <? skip then save_reverse ls (n + 1) cap skip bump lstrs
      else
        let! lstrs := wr lstrs (cap + skip - 1 - n - bump) l in
        save_reverse ls (n + 1) cap skip bump lstrs
  end.
Definition labels_read_reverse (fuel : nat) (p : bytes) (start : Z) (lstrs : list lstr_t) : res (list lstr_t * Z) :=
  let cap := zlen lstrs in
  let! r := labels_iter fuel p start in
  let total := zlen (fst r) in
  let skip := if total >? cap then total - cap else 0 in
  let bump := if cap >? total then cap - total else 0 in
  let! r := labels_iter fuel p start in
  let! lstrs := save_reverse (fst r) 0 cap skip bump lstrs in
  Ok (lstrs, total).

(** ** Questions *)

Record dns_qstn_t := mkQstn { q_off : Z; q_len : Z; q_qdcount : Z; q_qtype : Z; q_qclass : Z }.
Definition no_qstn : dns_qstn_t := mkQstn 0 0 0 0 0.

Fixpoint parse_names (n : nat) (p : bytes) (used : Z) : res Z :=
  match n with
  | O => Ok used
  | S n =>
      let! used := parse_name p used in
      if is_bad_parse used then Ok used else parse_names n p used
  end.

Definition parse_qstn (qdcount : Z) (p : bytes) (used : Z) : res (Z * dns_qstn_t) :=
  if is_bad_parse used then Ok (used, no_qstn)
  else
    let off := used in
    let! used := parse_names (Z.to_nat qdcount) p used in
    if is_bad_parse used then Ok (used, no_qstn)
    else if zlen p <? used + 4 then Ok (BP_QSTN_OVERRUN, no_qstn)
    else
      let! qtype := rd16 p used in
      let! qclass := rd16 p (used + 2) in
      Ok (used + 4, mkQstn off (used + 4 - off) qdcount qtype qclass).

(** ** Resource records *)

Record dns_rr_t := mkDnsRr { r_off : Z; r_len : Z; r_count : Z }.
Definition no_rr : dns_rr_t := mkDnsRr 0 0 0.

Fixpoint parse_rrs (n : nat) (p : bytes) (used : Z) : res Z :=
  match n with
  | O => Ok used
  | S n =>
      let! used := parse_name p used in
      if is_bad_parse used then Ok used
      else if zlen p <? used + 10 then Ok BP_RR_HDR_OVERRUN
      else
        let! rdlen := rd16 p (used + 8) in
        let used := used + 10 in
        if zlen p <? used + rdlen then Ok BP_RR_DATA_OVERRUN
        else parse_rrs n p (used + rdlen)
  end.
Definition parse_rr (count : Z) (p : bytes) (used : Z) : res (Z * dns_rr_t) :=
  if is_bad_parse used then Ok (used, no_rr)
  else
    let off := used in
    let! used := parse_rrs (Z.to_nat count) p used in
    if is_bad_parse used then Ok (used, no_rr)
    else Ok (used, mkDnsRr off (used - off) count).

Record rr_t := mkRr { nameoff : Z; rr_type : Z; rr_class : Z; ttl : Z; rdlen : Z; rdoff : Z }.
Definition no_record : rr_t := mkRr 0 0 0 0 0 0.

Record rrs_t := mkRrs { rrs_pos : Z; rrs_count : Z; rrs_seen : Z }.
(** The next record. *)
Definition rrs_next (fuel : nat) (p : bytes) (it : rrs_t) : res (option rr_t * rrs_t) :=
  if rrs_seen it =? rrs_count it then Ok (None, it)
  else
    let off := rrs_pos it in
    let! used := skip_name fuel p off in
    let! type := rd16 p used in
    let! class := rd16 p (used + 2) in
    let! t := rd32 p (used + 4) in
    let! len := rd16 p (used + 8) in
    let used := used + 10 in
    Ok (Some (mkRr off type class t len used), mkRrs used (rrs_count it) (rrs_seen it + 1)).
Definition rrs_iter (start count : Z) : rrs_t := mkRrs start count 0.
Definition dns_rr_iter (rr : dns_rr_t) : rrs_t := rrs_iter (r_off rr) (r_count rr).

(** ** EDNS *)

Record edns_t := mkEdns {
  found : bool; extrcode : Z; version : Z; dnssec_ok : bool; e_z : Z; udp_size : Z; optoff : Z; optcount : Z
}.
Definition no_edns : edns_t := mkEdns false 0 0 false 0 0 0 0.
Definition BARE_EDNS_SIZE : Z := 11.

(** 0 if not found, 1 if found, BP_DOUBLE_EDNS if there are several. *)
Fixpoint find_edns_loop (n fuel : nat) (p : bytes) (it : rrs_t) (edns : option rr_t) : res (Z * rr_t) :=
  match n with
  | O => Stop OutOfFuel
  | S n =>
      let! r := rrs_next fuel p it in
      match fst r with
      | None => Ok (match edns with Some e => (1, e) | None => (0, no_record) end)
      | Some rr =>
          if negb (rr_type rr =? EDNS) then find_edns_loop n fuel p (snd r) edns
          else match edns with
               | Some e => Ok (BP_DOUBLE_EDNS, e)
               | None => find_edns_loop n fuel p (snd r) (Some rr)
               end
      end
  end.
Definition find_edns (fuel : nat) (p : bytes) (addl : dns_rr_t) : res (Z * rr_t) :=
  find_edns_loop (S (Z.to_nat (r_count addl))) fuel p (dns_rr_iter addl) None.

(** The options: how many there are, and 0 or an error. *)
Fixpoint count_opts (fuel : nat) (p : bytes) (used len n : Z) : res (Z * Z) :=
  match fuel with
  | O => Stop OutOfFuel
  | S f =>
      if negb (used <? len) then Ok (0, n)
      else if len <? used + 4 then Ok (BP_ENDS_OPT_HDR_OVERRUN, n)
      else
        let! optlen := rd16 p (used + 2) in
        let used := used + 4 in
        if len <? used + optlen then Ok (BP_ENDS_OPT_DATA_OVERRUN, n)
        else count_opts f p (used + optlen) len (n + 1)
  end.
Definition parse_edns (p : bytes) (rr : rr_t) : res (Z * edns_t) :=
  let! b := rd p (nameoff rr) in
  if negb (b =? 0) then Ok (BP_ENDS_NONEMPTY_NAME, mkEdns true 0 0 false 0 0 0 0)
  else
    let edns := mkEdns true (Z.land (Z.shiftr (ttl rr) 24) 255) (Z.land (Z.shiftr (ttl rr) 16) 255)
      (negb (Z.land (ttl rr) 32768 =? 0)) (Z.land (ttl rr) 32767) (rr_class rr) (rdoff rr) in
    let! r := count_opts (S (Z.to_nat (rdlen rr))) p (rdoff rr) (rdoff rr + rdlen rr) 0 in
    Ok (fst r, edns (snd r)).

Record opt_t := mkOpt { o_code : Z; o_off : Z; o_len : Z }.
Record opts_t := mkOpts { op_pos : Z; op_count : Z; op_seen : Z }.
Definition opts_next (p : bytes) (it : opts_t) : res (option opt_t * opts_t) :=
  if op_seen it >=? op_count it then Ok (None, it)
  else
    let! code := rd16 p (op_pos it) in
    let! len := rd16 p (op_pos it + 2) in
    Ok (Some (mkOpt code (op_pos it + 4) len), mkOpts (op_pos it + (4 + len)) (op_count it) (op_seen it + 1)).
Definition opts_iter (edns : edns_t) : opts_t := mkOpts (optoff edns) (optcount edns) 0.

(** ** Packets *)

Record dns_pkt_t := mkPkt {
  hdr : dns_hdr_t; qstn : dns_qstn_t; ans : dns_rr_t; auth : dns_rr_t; addl : dns_rr_t; edns : edns_t
}.

(** 0 if the packet is good, and the packet. *)
Definition parse_pkt (fuel : nat) (p : bytes) : res (Z * dns_pkt_t) :=
  let! h := parse_hdr p 0 in
  let! q := parse_qstn (h_qdcount (snd h)) p (fst h) in
  let! an := parse_rr (h_ancount (snd h)) p (fst q) in
  let! au := parse_rr (h_nscount (snd h)) p (fst an) in
  let! ad := parse_rr (h_arcount (snd h)) p (fst au) in
  let pkt := mkPkt (snd h) (snd q) (snd an) (snd au) (snd ad) in
  if is_bad_parse (fst ad) then Ok (fst ad, pkt no_edns)
  else
    let! e := find_edns fuel p (snd ad) in
    if is_bad_parse (fst e) then Ok (fst e, pkt no_edns)
    else if fst e =? 1 then
      let! d := parse_edns p (snd e) in
      if is_bad_parse (fst d) then Ok (fst d, pkt (snd d)) else Ok (0, pkt (snd d))
    else Ok (0, pkt no_edns).

(** ** Names, as they are *)

Definition ptr_target (l l2 : Z) : Z := Z.lor (Z.shiftl (Z.land l 63) 8) l2.

(** The name at a position: its labels, where the text after it starts, and the
    steps it takes to read. *)
Inductive name_at (p : bytes) : Z -> list lstr_t -> Z -> nat -> Prop :=
| name_end pos : rd p pos = Ok 0 -> name_at p pos [] (pos + 1) 1
| name_label pos l ls used n :
    rd p pos = Ok l -> 0 < l <= 63 -> pos + 1 + l <= zlen p -> name_at p (pos + 1 + l) ls used n ->
    name_at p pos (slice p (pos + 1) l :: ls) used (S n)
| name_ptr pos l l2 ls used n :
    rd p pos = Ok l -> Z.land l 192 = 192 -> rd p (pos + 1) = Ok l2 -> name_at p (ptr_target l l2) ls used n ->
    name_at p pos ls (pos + 2) (S n).

(** The bytes of labels with their length bytes. *)
Definition text_len (ls : list lstr_t) : Z := fold_right (fun l n => zlen l + 1 + n) 0 ls.

Lemma text_len_nonneg ls : 0 <= text_len ls.
Proof. induction ls as [|l ls IH]; simpl; [lia|]. pose proof (zlen_nonneg l). lia. Qed.

Lemma land_bit l k : 0 <= k -> Z.land l (2 ^ k) = if Z.testbit l k then 2 ^ k else 0.
Proof.
  intros Hk. apply Z.bits_inj'. intros i Hi. rewrite Z.land_spec, Z.pow2_bits_eqb by lia.
  destruct (Z.eqb_spec k i) as [->|Hne].
  - destruct (Z.testbit l i); [by rewrite Z.pow2_bits_true|by rewrite Z.bits_0].
  - rewrite andb_false_r. destruct (Z.testbit l k); [|by rewrite Z.bits_0].
    by rewrite Z.pow2_bits_false.
Qed.

Lemma label_bits l : is_byte l -> (Z.land l 192 =? 192) = (192 <=? l).
Proof.
  intros Hl. unfold is_byte in Hl. assert (forallb (fun l => Bool.eqb (Z.land l 192 =? 192) (192 <=? l)) (seqZ 0 256) = true) as H
    by (vm_compute; done).
  rewrite forallb_forall in H. apply Bool.eqb_prop, H, list_elem_of_In, elem_of_seqZ. lia.
Qed.

Lemma ptr_target_range l l2 : is_byte l2 -> 0 <= ptr_target l l2.
Proof.
  intros Hl. unfold ptr_target, is_byte in *. apply Z.lor_nonneg. split; [|lia].
  apply Z.shiftl_nonneg, Z.land_nonneg. lia.
Qed.

Lemma name_at_used p pos ls used n : 0 <= pos -> name_at p pos ls used n -> pos < used <= zlen p.
Proof.
  intros Hp H. induction H as [pos H|pos l ls used n H Hl Hle Hn IH|pos l l2 ls used n H Hl H2 Hn IH].
  - apply rd_Ok_inv in H. lia.
  - specialize (IH ltac:(lia)). lia.
  - apply rd_Ok_inv in H2. lia.
Qed.

(** The walk ends within its fuel and inside the packet. *)
Lemma parse_name_loop_spec p fuel : forall used (after was : bool) pre len,
  is_bytes p -> 0 <= used -> 0 <= len <= 255 -> 2 * (255 - len) + (if was then 0 else 1) < Z.of_nat fuel ->
  exists r, parse_name_loop fuel p used after was pre len = Ok r /\
    (is_bad_parse r = true \/
     exists ls u n, name_at p used ls u n /\ len + text_len ls + 1 <= 255 /\ r = (if after then pre else u) /\ (n <= fuel)%nat).
Proof.
  induction fuel as [|f IH]; intros used after was pre len Hb Hu Hlen Hf; [destruct was; lia|].
  cbn [parse_name_loop]. destruct (Z.ltb_spec (zlen p) (used + 1)) as [|Hlt]; [eexists; split; [done|by left]|].
  destruct (rd_ok p used) as (l & E & _); [lia|]. rewrite E. cbn [res_bind].
  pose proof (rd_is_byte p used l Hb E) as Hl. rewrite (label_bits l Hl). unfold is_byte in Hl.
  destruct (Z.leb_spec 192 l) as [Hp|Hp].
  - destruct was; [eexists; split; [done|by left]|].
    destruct (Z.ltb_spec (zlen p) (used + 1 + 1)) as [|Hlt2]; [eexists; split; [done|by left]|].
    destruct (rd_ok p (used + 1)) as (l2 & E2 & _); [lia|]. rewrite E2. cbn [res_bind].
    pose proof (rd_is_byte p (used + 1) l2 Hb E2) as Hl2. fold (ptr_target l l2).
    destruct (IH (ptr_target l l2) true true (if after then pre else used + 1 + 1) len Hb) as (r & Er & Hr);
      [by apply ptr_target_range|lia|lia|].
    exists r. split; [done|]. destruct Hr as [|(ls & u & n & Hn & Hs & -> & Hnf)]; [by left|right].
    exists ls, (used + 2), (S n). split_and!; [|lia|destruct after; lia|lia].
    eapply name_ptr; [done| |done|done]. apply Z.eqb_eq. rewrite label_bits by done. apply Z.leb_le. lia.
  - destruct (Z.gtb_spec l 63) as [|H63]; [eexists; split; [done|by left]|].
    destruct (Z.ltb_spec (zlen p) (used + 1 + l)) as [|Hle]; [eexists; split; [done|by left]|].
    destruct (Z.gtb_spec (len + (l + 1)) 255) as [|H255]; [eexists; split; [done|by left]|].
    destruct (Z.eqb_spec l 0) as [->|Hne].
    + eexists. split; [done|]. right. exists [], (used + 1), 1%nat. split_and!; [by constructor|simpl; lia| |lia].
      by rewrite Z.add_0_r.
    + destruct (IH (used + 1 + l) after false pre (len + (l + 1)) Hb) as (r & Er & Hr); [lia|lia|destruct was; lia|].
      exists r. split; [done|]. destruct Hr as [|(ls & u & n & Hn & Hs & -> & Hnf)]; [by left|right].
      eexists _, u, (S n). split_and!; [eapply name_label; [done|lia|lia|done]| |done|lia].
      cbn [text_len fold_right]. rewrite zlen_slice by lia. fold (text_len ls). lia.
Qed.

Lemma parse_name_ok p used :
  is_bytes p -> 0 <= used ->
  exists r, parse_name p used = Ok r /\
    (is_bad_parse r = true \/
     exists ls n, name_at p used ls r n /\ text_len ls + 1 <= 255 /\ (n <= NAME_FUEL)%nat /\ used < r <= zlen p).
Proof.
  intros Hb Hu. unfold parse_name. destruct (is_bad_parse used) eqn:Eb; [exists used; split; [done|by left]|].
  destruct (parse_name_loop_spec p NAME_FUEL used false false 0 0 Hb Hu) as (r & E & Hr);
    [lia|unfold NAME_FUEL; lia|].
  exists r. split; [done|]. destruct Hr as [|(ls & u & n & Hn & Hs & -> & Hf)]; [by left|right].
  exists ls, n. split_and!; [done|lia|done|..]; by apply (name_at_used p used ls u n).
Qed.

Lemma skip_name_spec p pos ls used n fuel :
  is_bytes p -> name_at p pos ls used n -> (n <= fuel)%nat -> skip_name fuel p pos = Ok used.
Proof.
  intros Hb H. revert fuel. induction H as [pos H|pos l ls used n H Hl Hle Hn IH|pos l l2 ls used n H Hl H2 Hn IH];
    intros [|f] Hf; [lia| |lia| |lia|]; cbn [skip_name]; rewrite H; cbn [res_bind].
  - done.
  - rewrite (label_bits l) by (by apply (rd_is_byte p pos)). destruct (Z.leb_spec 192 l); [lia|].
    destruct (Z.eqb_spec l 0); [lia|]. apply IH. lia.
  - rewrite (proj2 (Z.eqb_eq _ _) Hl). f_equal. lia.
Qed.

(** Where the iteration ends for the text after the name. *)
Definition it_end (it : labels_t) (used : Z) : Z := if after_ptr it then it_used it else used.

Lemma labels_next_spec p pos ls used n fuel it :
  is_bytes p -> name_at p pos ls used n -> it_pos it = pos -> (n <= fuel)%nat ->
  match ls with
  | [] => exists it', labels_next fuel p it = Ok (None, it') /\ it_used it' = it_end it used
  | l :: ls' => exists it' used' n', labels_next fuel p it = Ok (Some l, it') /\
      name_at p (it_pos it') ls' used' n' /\ (n' < n)%nat /\ it_end it' used' = it_end it used
  end.
Proof.
  intros Hb H. revert fuel it. induction H as [pos H|pos l ls used n H Hl Hle Hn IH|pos l l2 ls used n H Hl H2 Hn IH];
    intros [|f] it Ep Hf; [lia| |lia| |lia|]; cbn [labels_next]; rewrite Ep, H; cbn [res_bind].
  - eexists. by split.
  - destruct (Z.eqb_spec l 0); [lia|].
    rewrite (label_bits l) by (by apply (rd_is_byte p pos)). destruct (Z.leb_spec 192 l); [lia|].
    unfold take_bytes. rewrite (proj2 (Z.leb_le _ _)) by lia. cbn [res_bind].
    eexists _, used, n. split_and!; [done|done|lia|done].
  - destruct (Z.eqb_spec l 0) as [->|]; [done|]. rewrite (proj2 (Z.eqb_eq _ _) Hl), H2. cbn [res_bind]. fold (ptr_target l l2).
    specialize (IH f (mkLabels (ptr_target l l2) (if after_ptr it then it_used it else pos + 1 + 1) true) eq_refl ltac:(lia)).
    assert (it_end (mkLabels (ptr_target l l2) (if after_ptr it then it_used it else pos + 1 + 1) true) used
      = it_end it (pos + 2)) as Ee by (unfold it_end; simpl; destruct (after_ptr it); lia).
    destruct ls as [|l' ls']; [destruct IH as (it' & -> & E); exists it'; split; [done|congruence]|].
    destruct IH as (it' & used' & n' & -> & Hn' & Hlt & E). exists it', used', n'. split_and!; [done|done|lia|congruence].
Qed.

Lemma labels_all_spec p fuel : forall pos ls used n it,
  is_bytes p -> name_at p pos ls used n -> it_pos it = pos -> (n <= fuel)%nat ->
  exists it', labels_all fuel p it = Ok (ls, it') /\ it_used it' = it_end it used.
Proof.
  induction fuel as [|f IH]; intros pos ls used n it Hb H Ep Hf; [inversion H; subst; lia|].
  pose proof (labels_next_spec p pos ls used n (S f) it Hb H Ep Hf) as Hs. cbn [labels_all].
  destruct ls as [|l ls].
  - destruct Hs as (it' & -> & E). by exists it'.
  - destruct Hs as (it' & used' & n' & -> & Hn' & Hlt & E). cbn [res_bind fst snd].
    destruct (IH _ _ _ _ it' Hb Hn' eq_refl) as (it2 & -> & E2); [lia|]. exists it2. split; [done|]. congruence.
Qed.

Lemma labels_iter_spec p pos ls used n fuel :
  is_bytes p -> name_at p pos ls used n -> (n <= fuel)%nat ->
  exists it, labels_iter fuel p pos = Ok (ls, it) /\ it_used it = used.
Proof. intros Hb H Hf. by apply (labels_all_spec p fuel pos ls used n (labels_start pos) Hb H). Qed.

Lemma name_at_labels p pos ls used n :
  name_at p pos ls used n -> 0 <= pos -> is_bytes p -> Forall (fun l => 0 < zlen l <= 63 /\ is_bytes l) ls.
Proof.
  intros H. induction H as [pos H|pos l ls used n H Hl Hle Hn IH|pos l l2 ls used n H Hl H2 Hn IH]; intros Hp Hb; [constructor| |].
  - constructor; [|apply IH; [lia|done]]. rewrite zlen_slice by lia. split; [lia|]. by apply is_bytes_take, is_bytes_drop.
  - apply IH; [|done]. apply ptr_target_range. by apply (rd_is_byte p (pos + 1)).
Qed.

(** ** Integers *)

Lemma shift_lor k u x : 0 <= k -> 0 <= x < 2 ^ k -> Z.lor (Z.shiftl u k) x = u * 2 ^ k + x.
Proof.
  intros Hk Hx. rewrite Z.shiftl_mul_pow2 by lia.
  assert (Z.land (u * 2 ^ k) x = 0) as Hd.
  { apply Z.bits_inj'. intros i Hi. rewrite Z.land_spec, Z.bits_0. destruct (Z.lt_ge_cases i k).
    - by rewrite Z.mul_pow2_bits_low.
    - rewrite <- (Z.mod_small x (2 ^ k)), Z.mod_pow2_bits_high by lia. apply andb_false_r. }
  by rewrite <- Z.lxor_lor, <- Z.add_nocarry_lxor.
Qed.

Lemma rd16_ok p i : is_bytes p -> 0 <= i -> i + 2 <= zlen p ->
  exists a b, rd p i = Ok a /\ rd p (i + 1) = Ok b /\ rd16 p i = Ok (a * 256 + b) /\ is_byte a /\ is_byte b.
Proof.
  intros Hb Hi Hl. destruct (rd_ok p i) as (a & Ea & _); [lia|]. destruct (rd_ok p (i + 1)) as (b & Eb & _); [lia|].
  exists a, b. pose proof (rd_is_byte _ _ _ Hb Ea). pose proof (rd_is_byte _ _ _ Hb Eb). split_and!; try done.
  unfold rd16. rewrite Ea. cbn [res_bind]. rewrite Eb. cbn [res_bind]. by rewrite shift_lor.
Qed.

Lemma rd16_total p i : is_bytes p -> 0 <= i -> i + 2 <= zlen p -> exists v, rd16 p i = Ok v /\ 0 <= v < 65536.
Proof.
  intros Hb Hi Hl. destruct (rd16_ok p i Hb Hi Hl) as (a & b & _ & _ & E & Ha & Hb'). eexists. split; [done|].
  unfold is_byte in *. lia.
Qed.

Lemma rd32_total p i : is_bytes p -> 0 <= i -> i + 4 <= zlen p -> exists v, rd32 p i = Ok v.
Proof.
  intros Hb Hi Hl. unfold rd32. destruct (rd_ok p i) as (a & -> & _); [lia|]. destruct (rd_ok p (i + 1)) as (b & -> & _); [lia|].
  destruct (rd_ok p (i + 2)) as (c & -> & _); [lia|]. destruct (rd_ok p (i + 3)) as (d & -> & _); [lia|]. by eexists.
Qed.

(** ** Sections of a packet *)

Lemma good_position (p : bytes) r : zlen p < 2 ^ 63 -> r <= zlen p -> is_bad_parse r = false.
Proof. intros. unfold is_bad_parse, BP_MINVAL. destruct (Z.geb_spec r (2 ^ 64 - 13)); [lia|done]. Qed.

Definition valid_name (p : bytes) (pos : Z) (ls : list lstr_t) (used : Z) : Prop :=
  text_len ls + 1 <= 255 /\ exists n, name_at p pos ls used n /\ (n <= NAME_FUEL)%nat.

Lemma parse_names_ok n p used :
  is_bytes p -> zlen p < 2 ^ 63 -> 0 <= used <= zlen p ->
  exists r, parse_names n p used = Ok r /\
    (is_bad_parse r = true \/ used <= r <= zlen p /\ ((1 <= n)%nat -> exists ls u, valid_name p used ls u)).
Proof.
  intros Hb Hsz. revert used. induction n as [|n IH]; intros used Hu.
  { exists used. split; [done|]. right. split; lia. }
  cbn [parse_names]. destruct (parse_name_ok p used Hb) as (r & -> & Hr); [lia|]. cbn [res_bind].
  destruct Hr as [Hr|(ls & k & Hn & Ht & Hk & Hur)]; [rewrite Hr; exists r; split; [done|by left]|].
  rewrite (good_position p r Hsz) by lia. destruct (IH r) as (r' & -> & Hr'); [lia|].
  exists r'. split; [done|]. destruct Hr' as [|[Hr' _]]; [by left|right]. split; [lia|].
  intros _. exists ls, r. split; [done|]. by exists k.
Qed.

Definition is_u16 (x : Z) : Prop := 0 <= x < 65536.

Definition good_qstn (p : bytes) (n : Z) (q : dns_qstn_t) : Prop :=
  q_qdcount q = n /\ is_u16 (q_qtype q) /\ is_u16 (q_qclass q) /\ 0 <= q_off q <= zlen p /\
  (1 <= n -> exists ls u, valid_name p (q_off q) ls u).

Lemma parse_qstn_ok n p used :
  is_bytes p -> zlen p < 2 ^ 63 -> is_bad_parse used = true \/ 0 <= used <= zlen p ->
  exists r q, parse_qstn n p used = Ok (r, q) /\
    (is_bad_parse r = true \/ is_bad_parse used = false /\ 0 <= r <= zlen p /\ good_qstn p n q).
Proof.
  intros Hb Hsz Hu. unfold parse_qstn. destruct Hu as [Hu|Hu]; [rewrite Hu; eexists _, _; split; [done|by left]|].
  rewrite (good_position p used Hsz) by lia.
  destruct (parse_names_ok (Z.to_nat n) p used Hb Hsz Hu) as (r & -> & Hr). cbn [res_bind].
  destruct Hr as [Hr|[Hr Hn]]; [rewrite Hr; eexists _, _; split; [done|by left]|].
  rewrite (good_position p r Hsz) by lia.
  destruct (Z.ltb_spec (zlen p) (r + 4)); [eexists _, _; split; [done|by left]|].
  destruct (rd16_total p r Hb) as (t & -> & Ht); [lia|lia|]. destruct (rd16_total p (r + 2) Hb) as (c & -> & Hc); [lia|lia|].
  cbn [res_bind]. eexists _, _. split; [done|]. right. split_and!; [done|lia|lia|]. split_and!; try done; simpl; try lia.
  intros Hn1. apply Hn. lia.
Qed.

(** A record: its name, the end of its name, the length of its data. *)
Definition rr_at (p : bytes) (pos u len : Z) : Prop :=
  (exists ls, valid_name p pos ls u) /\ pos < u /\ rd16 p (u + 8) = Ok len /\ 0 <= len /\ u + 10 + len <= zlen p.

Lemma parse_rrs_ok n p used :
  is_bytes p -> zlen p < 2 ^ 63 -> 0 <= used <= zlen p ->
  exists r, parse_rrs n p used = Ok r /\
    (is_bad_parse r = true \/ used <= r <= zlen p /\ ((1 <= n)%nat -> exists u len, rr_at p used u len)).
Proof.
  intros Hb Hsz. revert used. induction n as [|n IH]; intros used Hu.
  { exists used. split; [done|]. right. split; lia. }
  cbn [parse_rrs]. destruct (parse_name_ok p used Hb) as (r & -> & Hr); [lia|]. cbn [res_bind].
  destruct Hr as [Hr|(ls & k & Hn & Ht & Hk & Hur)]; [rewrite Hr; exists r; split; [done|by left]|].
  rewrite (good_position p r Hsz) by lia.
  destruct (Z.ltb_spec (zlen p) (r + 10)); [eexists; split; [done|by left]|].
  destruct (rd16_total p (r + 8) Hb) as (len & Elen & Hlen); [lia|lia|]. rewrite Elen. cbn [res_bind].
  destruct (Z.ltb_spec (zlen p) (r + 10 + len)); [eexists; split; [done|by left]|].
  destruct (IH (r + 10 + len)) as (r' & -> & Hr'); [lia|].
  exists r'. split; [done|]. destruct Hr' as [|[Hr' _]]; [by left|right]. split; [lia|].
  intros _. exists r, len. split_and!; [|lia|done|lia|lia]. exists ls. split; [done|]. by exists k.
Qed.

Definition good_rr (p : bytes) (n : Z) (rr : dns_rr_t) : Prop :=
  r_count rr = n /\ 0 <= r_off rr <= zlen p /\ (1 <= n -> exists u len, rr_at p (r_off rr) u len).

Lemma parse_rr_ok n p used :
  is_bytes p -> zlen p < 2 ^ 63 -> is_bad_parse used = true \/ 0 <= used <= zlen p ->
  exists r rr, parse_rr n p used = Ok (r, rr) /\
    (is_bad_parse r = true \/ is_bad_parse used = false /\ 0 <= r <= zlen p /\ good_rr p n rr).
Proof.
  intros Hb Hsz Hu. unfold parse_rr. destruct Hu as [Hu|Hu]; [rewrite Hu; eexists _, _; split; [done|by left]|].
  rewrite (good_position p used Hsz) by lia.
  destruct (parse_rrs_ok (Z.to_nat n) p used Hb Hsz Hu) as (r & -> & Hr). cbn [res_bind].
  destruct Hr as [Hr|[Hr Hn]]; [rewrite Hr; eexists _, _; split; [done|by left]|].
  rewrite (good_position p r Hsz) by lia. eexists _, _. split; [done|]. right. split_and!; [done|lia|lia|].
  split_and!; simpl; try done; try lia. intros Hn1. apply Hn. lia.
Qed.

Definition good_hdr (h : dns_hdr_t) : Prop :=
  is_u16 (h_id h) /\ is_u16 (h_qdcount h) /\ is_u16 (h_ancount h) /\ is_u16 (h_nscount h) /\ is_u16 (h_arcount h) /\
  0 <= h_opcode h < 16 /\ 0 <= h_z h < 8 /\ 0 <= h_rcode h < 16.

Lemma parse_hdr_ok p :
  is_bytes p -> exists r h, parse_hdr p 0 = Ok (r, h) /\
    (is_bad_parse r = true \/ r = 12 /\ 12 <= zlen p /\ good_hdr h /\ rd16 p 10 = Ok (h_arcount h) /\ rd16 p 4 = Ok (h_qdcount h)).
Proof.
  intros Hb. unfold parse_hdr. change (is_bad_parse 0) with false. rewrite !Z.add_0_l. cbn iota.
  destruct (Z.ltb_spec (zlen p) 12); [eexists _, _; split; [done|by left]|].
  destruct (rd16_total p 0 Hb) as (v0 & -> & ?); [lia|lia|]. cbn [res_bind].
  destruct (rd_ok p 2) as (b2 & E2 & _); [lia|]. destruct (rd_ok p 3) as (b3 & E3 & _); [lia|]. rewrite E2, E3. cbn [res_bind].
  destruct (rd16_total p 4 Hb) as (v4 & E4 & ?); [lia|lia|]. rewrite E4. destruct (rd16_total p 6 Hb) as (v6 & -> & ?); [lia|lia|].
  destruct (rd16_total p 8 Hb) as (v8 & -> & ?); [lia|lia|]. destruct (rd16_total p 10 Hb) as (v10 & E10 & ?); [lia|lia|]. rewrite E10.
  cbn [res_bind]. eexists _, _. split; [done|]. right. split_and!; [done|lia| |done|done].
  pose proof (rd_is_byte _ _ _ Hb E2) as Hy2. pose proof (rd_is_byte _ _ _ Hb E3) as Hy3.
  assert (forall b, is_byte b -> 0 <= Z.shiftr (Z.land 120 b) 3 < 16 /\ 0 <= Z.shiftr (Z.land 112 b) 4 < 8 /\ 0 <= Z.land 15 b < 16) as Hbits.
  { intros b Hby. unfold is_byte in Hby.
    assert (forallb (fun b => (0 <=? Z.shiftr (Z.land 120 b) 3) && (Z.shiftr (Z.land 120 b) 3 <? 16) &&
      (0 <=? Z.shiftr (Z.land 112 b) 4) && (Z.shiftr (Z.land 112 b) 4 <? 8) && (0 <=? Z.land 15 b) && (Z.land 15 b <? 16)) (seqZ 0 256) = true)
      as Hall by (vm_compute; done).
    rewrite forallb_forall in Hall. assert (In b (seqZ 0 256)) as Hin by (apply list_elem_of_In, elem_of_seqZ; lia).
    apply Hall in Hin. bool_to_prop. lia. }
  split_and!; try done; simpl; by apply Hbits.
Qed.

(** ** EDNS *)

Lemma rrs_next_first p fuel pos u len :
  is_bytes p -> 0 <= pos -> (NAME_FUEL <= fuel)%nat -> rr_at p pos u len ->
  exists ty cl t, rrs_next fuel p (rrs_iter pos 1) = Ok (Some (mkRr pos ty cl t len (u + 10)), mkRrs (u + 10) 1 1) /\
    is_u16 ty /\ is_u16 cl.
Proof.
  intros Hb Hp Hf ((ls & _ & k & Hn & Hk) & Hlt & Hlen & Hl0 & Hle). unfold rrs_next. simpl.
  rewrite (skip_name_spec p pos ls u k fuel Hb Hn) by lia. cbn [res_bind].
  destruct (rd16_total p u Hb) as (ty & -> & ?); [lia|lia|]. destruct (rd16_total p (u + 2) Hb) as (cl & -> & ?); [lia|lia|].
  destruct (rd32_total p (u + 4) Hb) as (t & ->); [lia|lia|]. cbn [res_bind]. rewrite Hlen. cbn [res_bind].
  exists ty, cl, t. split_and!; done.
Qed.

Lemma count_opts_ok p : is_bytes p -> forall fuel used len n,
  0 <= used -> len <= zlen p -> 0 <= n -> Z.max 0 (len - used) < Z.of_nat fuel ->
  exists r n', count_opts fuel p used len n = Ok (r, n') /\ 0 <= n' /\
    (r = 0 \/ r = BP_ENDS_OPT_HDR_OVERRUN \/ r = BP_ENDS_OPT_DATA_OVERRUN).
Proof.
  intros Hb. induction fuel as [|f IH]; intros used len n Hu Hl Hn Hf.
  { lia. }
  cbn [count_opts]. destruct (Z.ltb_spec used len); cbn [negb]; [|eexists _, _; split_and!; [done|done|by left]].
  destruct (Z.ltb_spec len (used + 4)); [eexists _, _; split_and!; [done|done|by right; left]|].
  destruct (rd16_total p (used + 2) Hb) as (ol & -> & Hol); [lia|lia|]. cbn [res_bind].
  destruct (Z.ltb_spec len (used + 4 + ol)); [eexists _, _; split_and!; [done|done|by right; right]|].
  apply IH; lia.
Qed.

(** ** Theorems *)

(** At most one additional record, which is what every resolver sends. *)
Definition one_addl (p : bytes) : Prop := forall b, rd16 p 10 = Ok b -> b <= 1.

Definition good_pkt (p : bytes) (k : dns_pkt_t) : Prop :=
  good_hdr (hdr k) /\ good_qstn p (h_qdcount (hdr k)) (qstn k) /\
  good_rr p (h_ancount (hdr k)) (ans k) /\ good_rr p (h_nscount (hdr k)) (auth k) /\ good_rr p (h_arcount (hdr k)) (addl k) /\
  0 <= udp_size (edns k) /\ rd16 p 4 = Ok (h_qdcount (hdr k)).

Lemma find_edns_ok p fuel rr n :
  is_bytes p -> (NAME_FUEL <= fuel)%nat -> 0 <= n <= 1 -> good_rr p n rr ->
  exists c e, find_edns fuel p rr = Ok (c, e) /\
    (c = 0 \/ c = 1 /\ is_u16 (rr_class e) /\ 0 <= nameoff e < zlen p /\ 0 <= rdoff e /\ 0 <= rdlen e /\ rdoff e + rdlen e <= zlen p).
Proof.
  intros Hb Hf Hn (Ec & Ho & Hr). unfold find_edns, dns_rr_iter, rrs_iter. rewrite Ec.
  assert (n = 0 \/ n = 1) as [-> | ->] by lia.
  - eexists _, _. split; [done|by left].
  - destruct (Hr ltac:(lia)) as (u & len & Hrr). change (S (Z.to_nat 1)) with 2%nat. cbn [find_edns_loop].
    destruct (rrs_next_first p fuel _ u len Hb (proj1 Ho) Hf Hrr) as (ty & cl & t & E & Hty & Hcl).
    unfold rrs_iter in E. rewrite E. cbn [res_bind fst snd rr_type].
    destruct Hrr as (_ & Hlt & _ & Hl0 & Hle).
    destruct (negb _); unfold rrs_next; simpl; eexists _, _; (split; [done|]); [by left|right].
    simpl. split_and!; try done; lia.
Qed.

Lemma parse_edns_ok p rr :
  is_bytes p -> 0 <= nameoff rr < zlen p -> 0 <= rdoff rr -> 0 <= rdlen rr -> rdoff rr + rdlen rr <= zlen p -> is_u16 (rr_class rr) ->
  exists c e, parse_edns p rr = Ok (c, e) /\ 0 <= udp_size e /\
    (c = 0 \/ c = BP_ENDS_NONEMPTY_NAME \/ c = BP_ENDS_OPT_HDR_OVERRUN \/ c = BP_ENDS_OPT_DATA_OVERRUN).
Proof.
  intros Hb Hn Ho Hl Hle [Hcl _]. unfold parse_edns. destruct (rd_ok p (nameoff rr)) as (b & -> & _); [lia|]. cbn [res_bind].
  destruct (negb (b =? 0)); [eexists _, _; split_and!; [done|done|by right; left]|].
  destruct (count_opts_ok p Hb (S (Z.to_nat (rdlen rr))) (rdoff rr) (rdoff rr + rdlen rr) 0) as (r & n' & -> & _ & Hr); [lia..|].
  cbn [res_bind fst snd]. eexists _, _. split_and!; [done|simpl; lia|]. tauto.
Qed.

Lemma parse_pkt_ok p fuel :
  is_bytes p -> zlen p < 2 ^ 63 -> (NAME_FUEL <= fuel)%nat -> one_addl p ->
  exists code k, parse_pkt fuel p = Ok (code, k) /\ (is_bad_parse code = true \/ code = 0 /\ good_pkt p k).
Proof.
  intros Hb Hsz Hf H1. unfold parse_pkt.
  destruct (parse_hdr_ok p Hb) as (r & h & -> & Hr). cbn [res_bind fst snd].
  assert (is_bad_parse r = true \/ 0 <= r <= zlen p) as Hr' by (destruct Hr as [|(-> & ? & _)]; [by left|right; lia]).
  destruct (parse_qstn_ok (h_qdcount h) p r Hb Hsz Hr') as (rq & q & -> & Hq). cbn [res_bind fst snd].
  assert (is_bad_parse rq = true \/ 0 <= rq <= zlen p) as Hq' by tauto.
  destruct (parse_rr_ok (h_ancount h) p rq Hb Hsz Hq') as (ran & an & -> & Han). cbn [res_bind fst snd].
  assert (is_bad_parse ran = true \/ 0 <= ran <= zlen p) as Han' by tauto.
  destruct (parse_rr_ok (h_nscount h) p ran Hb Hsz Han') as (rau & au & -> & Hau). cbn [res_bind fst snd].
  assert (is_bad_parse rau = true \/ 0 <= rau <= zlen p) as Hau' by tauto.
  destruct (parse_rr_ok (h_arcount h) p rau Hb Hsz Hau') as (rad & ad & -> & Had). cbn [res_bind fst snd].
  destruct (is_bad_parse rad) eqn:Eb; [eexists _, _; split; [done|by left]|].
  destruct Had as [?|(Fau & _ & Had)]; [done|]. destruct Hau as [?|(Fan & _ & Hau)]; [congruence|].
  destruct Han as [?|(Fq & _ & Han)]; [congruence|]. destruct Hq as [?|(Fr & _ & Hq)]; [congruence|].
  destruct Hr as [?|(-> & _ & Hh & Har & Hqd)]; [congruence|].
  assert (0 <= h_arcount h <= 1) as Hn by (split; [apply Hh|by apply H1]).
  destruct (find_edns_ok p fuel ad _ Hb Hf Hn Had) as (c & e & -> & Hc). cbn [res_bind fst snd].
  destruct Hc as [->|(-> & Hcl & Hno & Hro & Hrl & Hle)].
  - change (is_bad_parse 0) with false. eexists _, _. split; [done|]. right. by split_and!.
  - change (is_bad_parse 1) with false. cbn iota. change (1 =? 1) with true. cbn iota.
    destruct (parse_edns_ok p e Hb Hno Hro Hrl Hle Hcl) as (d & ed & -> & Hsz2 & Hd). cbn [res_bind fst snd].
    destruct (is_bad_parse d) eqn:Ed; eexists _, _; (split; [done|]); [by left|right; by split_and!].
Qed.

(** C17: a name is parsed without leaving the packet and without running forever,
    whatever its pointers. When it is accepted, its labels have 1 to 63 bytes and 255 in all
    with their lengths, and the functions that read it again without any check
    (iterating over the labels, skipping it) see the same name and end at the same
    position. *)
Theorem parse_name_correct p used :
  is_bytes p -> 0 <= used ->
  exists r, parse_name p used = Ok r /\
    (is_bad_parse r = true \/
     exists ls it, labels_iter NAME_FUEL p used = Ok (ls, it) /\ it_used it = r /\
       skip_name NAME_FUEL p used = Ok r /\ used < r <= zlen p /\
       text_len ls + 1 <= 255 /\ Forall (fun l => 0 < zlen l <= 63 /\ is_bytes l) ls).
Proof.
  intros Hb Hu. destruct (parse_name_ok p used Hb Hu) as (r & -> & Hr). exists r. split; [done|].
  destruct Hr as [|(ls & n & Hn & Ht & Hf & Hr)]; [by left|right].
  destruct (labels_iter_spec p used ls r n NAME_FUEL Hb Hn Hf) as (it & E & Eu).
  exists ls, it. split_and!; try done; try lia.
  - exact (skip_name_spec p used ls r n NAME_FUEL Hb Hn Hf).
  - by apply (name_at_labels p used ls r n).
Qed.

(** C18: for every packet with at most one additional record, parsing ends without
    leaving the packet: it gives an error code or a packet whose fields fit their
    widths, whose first question can be read without checks, and whose sections are
    inside of it. *)
Theorem parse_pkt_safe p fuel :
  is_bytes p -> zlen p < 2 ^ 63 -> (NAME_FUEL <= fuel)%nat -> one_addl p ->
  exists code k, parse_pkt fuel p = Ok (code, k) /\
    (is_bad_parse code = true \/
     code = 0 /\ good_hdr (hdr k) /\ q_qdcount (qstn k) = h_qdcount (hdr k) /\
     is_u16 (q_qtype (qstn k)) /\ is_u16 (q_qclass (qstn k)) /\
     (1 <= q_qdcount (qstn k) -> exists ls it, labels_iter fuel p (q_off (qstn k)) = Ok (ls, it) /\ text_len ls + 1 <= 255) /\
     (1 <= r_count (ans k) -> exists u len, rr_at p (r_off (ans k)) u len) /\
     (1 <= r_count (addl k) -> exists u len, rr_at p (r_off (addl k)) u len)).
Proof.
  intros Hb Hsz Hf H1. destruct (parse_pkt_ok p fuel Hb Hsz Hf H1) as (code & k & -> & Hc). exists code, k.
  split; [done|]. destruct Hc as [|(-> & Hh & (Eq & Ht & Hcl & Ho & Hq) & (Ea & _ & Ha) & _ & (Ed & _ & Hd) & _ & _)]; [by left|right].
  split_and!; try done; [|by rewrite Ea|by rewrite Ed].
  rewrite Eq. intros Hn. destruct (Hq Hn) as (ls & u & Htl & n & Hnm & Hnf).
  destruct (labels_iter_spec p _ ls u n fuel Hb Hnm) as (it & E & _); [lia|]. by exists ls, it.
Qed.

(** ** Concrete packets *)

Definition zeros (n : nat) : bytes := replicate n 0.
(** A query for [a.bb] with a pointer, and an EDNS record. *)
Definition sample_pkt : bytes :=
  [18; 52; 1; 0; 0; 1; 0; 0; 0; 0; 0; 1] ++ [1; 97; 2; 98; 98; 0; 0; 16; 0; 1] ++ [0; 0; 41; 5; 0; 0; 0; 0; 0; 0; 0].
(** No question, and the two bytes after the header point at themselves. *)
Definition loop_pkt : bytes := zeros 12 ++ [192; 12; 0; 1].
(** Two additional records; the data of the first are two bytes that begin a label of 63 bytes. *)
Definition overread_pkt : bytes :=
  zeros 11 ++ [2] ++ [0; 1; 0; 1] ++ [0; 0; 1; 0; 1; 0; 0; 0; 0; 0; 2; 63; 63] ++ [0; 0; 1; 0; 1; 0; 0; 0; 0; 0; 0].
(** An EDNS record whose option is longer than its data. *)
Definition overrun_pkt : bytes :=
  zeros 11 ++ [1] ++ [0; 1; 0; 1] ++ [0; 0; 41; 5; 0; 0; 0; 0; 0; 0; 4; 0; 3; 0; 5].

Lemma parse_name_correct_witness : is_bytes sample_pkt /\ parse_name sample_pkt 12 = Ok 18.
Proof.
  assert (is_bytes sample_pkt) as Hb by (by apply (bool_decide_unpack (is_bytes sample_pkt))). split; [done|].
  destruct (parse_name_correct sample_pkt 12 Hb) as (r & E & _); [lia|].
  rewrite E. vm_compute in E. by injection E as <-.
Defined.

Lemma parse_pkt_safe_witness :
  exists k, parse_pkt NAME_FUEL sample_pkt = Ok (0, k) /\ q_qtype (qstn k) = TXT /\ udp_size (edns k) = 1280.
Proof.
  destruct (parse_pkt_safe sample_pkt NAME_FUEL) as (code & k & E & _);
    [by apply (bool_decide_unpack (is_bytes sample_pkt))|reflexivity|lia
    |intros b Eb; vm_compute in Eb; injection Eb as <-; lia|].
  exists k. rewrite E. vm_compute in E. injection E as <- <-. by split_and!.
Defined.

Lemma loop_pkt_next fuel it : it_pos it = 12 -> labels_next fuel loop_pkt it = Stop OutOfFuel.
Proof.
  revert it. induction fuel as [|f IH]; intros it Ep; [done|]. cbn [labels_next]. rewrite Ep.
  change (rd loop_pkt 12) with (@Ok Z 192). cbn [res_bind]. change (192 =? 0) with false. cbn iota.
  change (Z.land 192 192 =? 192) with true. cbn iota. change (rd loop_pkt (12 + 1)) with (@Ok Z 12). cbn [res_bind].
  by apply IH.
Qed.

(** C37: three limits of the parser. A packet without questions is good, and reading
    the name of its question never ends when a pointer there points at itself. Of two additional
    records the second one is read from the data of the first, here past the end of the packet. And an option
    that is longer than its record passes, since its error code is below the range of the error codes. *)
Theorem parse_pkt_limits :
  (exists k, parse_pkt NAME_FUEL loop_pkt = Ok (0, k) /\ q_qdcount (qstn k) = 0 /\
     forall fuel, labels_read_reverse fuel loop_pkt (q_off (qstn k)) (replicate 6 []) = Stop OutOfFuel) /\
  parse_pkt NAME_FUEL overread_pkt = Stop OutOfBounds /\
  (exists k, parse_pkt NAME_FUEL overrun_pkt = Ok (0, k) /\ found (edns k) = true /\ optcount (edns k) = 0).
Proof.
  split_and!.
  - eexists. split; [vm_compute; reflexivity|]. split; [reflexivity|]. cbn [qstn q_off]. intros fuel.
    unfold labels_read_reverse, labels_iter. destruct fuel as [|f]; [done|]. cbn [labels_all].
    by rewrite loop_pkt_next.
  - vm_compute. reflexivity.
  - eexists. split; [vm_compute; reflexivity|]. by split.
Qed.
