(* ===== verification/DnsServe.v ===== *)
(** * DNS answers: writing and serving (server/dns/write.c, dns.c, rrl.c, main.c)

    The response buffer is a list of bytes of fixed length; a write outside of it
    is [Stop OutOfBounds]. The keys are read through an interface ([kvp_i]), which
    the main program implements over its receivers. *)

From S2P Require Import Prelude Dstr KvpPkts KvpRecv DnsParse.

(** ** Writing *)

Abbreviation out := (stm bytes).

(** The buffer with [t] at position [used]. *)
Definition store (b : bytes) (used : Z) (t : bytes) : bytes :=
  take (Z.to_nat used) b ++ t ++ drop (Z.to_nat (used + zlen t)) b.
Definition put (t : bytes) (used : Z) : out Z := fun b =>
  if used + zlen t <=? zlen b then (Ok (used + zlen t), store b used t) else (Stop OutOfBounds, b).

Definition put_uint8 (n : Z) : Z -> out Z := put (be_bytes 1 n).
Definition put_uint16 (n : Z) : Z -> out Z := put (be_bytes 2 n).
Definition put_uint32 (n : Z) : Z -> out Z := put (be_bytes 4 n).
Definition put_lstr (l : lstr_t) : Z -> out Z := put l.

Definition namelen (labels : list lstr_t) : Z := fold_left (fun used l => used + (zlen l + 1)) labels 1.
Fixpoint put_labels (labels : list lstr_t) (used : Z) : out Z :=
  match labels with
  | [] => st_ret used
  | l :: labels =>
      do! used := put_uint8 (zlen l) used in
      do! used := put_lstr l used in
      put_labels labels used
  end.
Definition put_name (labels : list lstr_t) (used : Z) : out Z :=
  do! used := put_labels labels used in
  put_uint8 0 used.
Definition put_name_ptr (offset used : Z) : out Z :=
  put_uint16 (Z.lor 49152 (Z.min offset 16383)) used.

Definition bit (b : bool) (k : Z) : Z := Z.shiftl (if b then 1 else 0) k.

Definition write_hdr (hdr : dns_hdr_t) (cap used : Z) : out Z :=
  if used + DNS_HDR_SIZE >? cap then st_ret (used + DNS_HDR_SIZE)
  else
    do! used := put_uint16 (h_id hdr) used in
    do! used := put_uint8 (Z.lor (Z.lor (Z.lor (Z.lor (bit (h_qr hdr) 7) (Z.shiftl (h_opcode hdr) 3))
                                   (bit (h_aa hdr) 2)) (bit (h_tc hdr) 1)) (bit (h_rd hdr) 0)) used in
    do! used := put_uint8 (Z.lor (bit (h_ra hdr) 7) (Z.land (h_rcode hdr) 15)) used in
    do! used := put_uint16 (h_qdcount hdr) used in
    do! used := put_uint16 (h_ancount hdr) used in
    do! used := put_uint16 (h_nscount hdr) used in
    put_uint16 (h_arcount hdr) used.

Definition response_hdr (hdr : dns_hdr_t) (rcode : Z) (aa tc : bool) (ancount nscount arcount : Z) : dns_hdr_t :=
  mkHdr (h_id hdr) true 0 aa tc (h_rd hdr) false 0 rcode (h_qdcount hdr) ancount nscount arcount.
Definition write_response_hdr (hdr : dns_hdr_t) (rcode : Z) (aa tc : bool) (ancount nscount arcount cap used : Z) : out Z :=
  write_hdr (response_hdr hdr rcode aa tc ancount nscount arcount) cap used.

(** Rewrites the question of the packet [p] without any pointers. *)
Definition write_qstn (fuel : nat) (p : bytes) (qstn : dns_qstn_t) (cap used : Z) : out Z :=
  if negb (q_qdcount qstn =? 1) then st_ret used
  else
    do! r := st_lift (labels_iter fuel p (q_off qstn)) in
    let needed := fold_left (fun needed l => needed + (zlen l + 1)) (fst r) 5 in
    if used + needed >? cap then st_ret (used + needed)
    else
      do! r := st_lift (labels_iter fuel p (q_off qstn)) in
      do! used := put_labels (fst r) used in
      do! used := put_uint8 0 used in
      do! used := put_uint16 (q_qtype qstn) used in
      put_uint16 (q_qclass qstn) used.

Definition put_rr_hdr (type ttl rdlen used : Z) : out Z :=
  do! used := put_uint16 type used in
  do! used := put_uint16 1 used in
  do! used := put_uint32 ttl used in
  put_uint16 rdlen used.

Definition UDP_MAX_SIZE : Z := 1280.
Definition RR_HDR_SIZE : Z := 10.

Definition write_edns (cap used : Z) : out Z :=
  if used + BARE_EDNS_SIZE >? cap then st_ret (used + BARE_EDNS_SIZE)
  else
    do! used := put_uint8 0 used in
    do! used := put_uint16 EDNS used in
    do! used := put_uint16 UDP_MAX_SIZE used in
    do! used := put_uint32 0 used in
    put_uint16 0 used.

(** ** Configuration (config.h) *)

Definition ZONE_NAME : list lstr_t := [lit "user"; lit "splintermail"; lit "com"].
Definition NS_TTL : Z := 86400.
Definition A_TTL : Z := 86400.
Definition NS1_NAME : list lstr_t := [lit "ns1"; lit "splintermail"; lit "com"].
Definition NS2_NAME : list lstr_t := [lit "ns2"; lit "splintermail"; lit "com"].
Definition TXT_TTL : Z := 60.
Definition AAAA_TTL : Z := 86400.
Definition SOA_TTL : Z := 86400.
Definition MNAME : list lstr_t := [lit "ns1"; lit "splintermail"; lit "com"].
Definition RNAME : list lstr_t := [lit "hostmaster"; lit "splintermail"; lit "com"].
Definition SERIAL : Z := 20231108.
Definition CAA_TTL : Z := 60.
Definition CAA_FLAGS : Z := 128.
Definition CAA_TAG : lstr_t := lit "issue".
Definition CAA_VALUE : lstr_t := lit "letsencrypt.org".

(** ** Records *)

(** [arg] is the secret of write_secret, and is not used by the other writers. *)
Definition writer_f := lstr_t -> Z -> Z -> Z -> out Z.

Definition write_soa : writer_f := fun _ _ cap used =>
  let rdlen := 71 in
  let needed := 104 in
  if used + needed >? cap then st_ret (used + needed)
  else
    do! used := put_name ZONE_NAME used in
    do! used := put_rr_hdr SOA SOA_TTL rdlen used in
    do! used := put_name MNAME used in
    do! used := put_name RNAME used in
    do! used := put_uint32 SERIAL used in
    do! used := put_uint32 300 used in
    do! used := put_uint32 60 used in
    do! used := put_uint32 86400 used in
    put_uint32 60 used.

Definition write_a : writer_f := fun _ nameoff cap used =>
  let rdlen := 4 in
  let needed := 2 + RR_HDR_SIZE + rdlen in
  if used + needed >? cap then st_ret (used + needed)
  else
    do! used := put_name_ptr nameoff used in
    do! used := put_rr_hdr A A_TTL rdlen used in
    do! used := put_uint8 127 used in
    do! used := put_uint8 0 used in
    do! used := put_uint8 0 used in
    put_uint8 1 used.

Definition _write_ns (name : list lstr_t) (cap used : Z) : out Z :=
  let rdlen := 22 in
  let needed := 55 in
  if used + needed >? cap then st_ret (used + needed)
  else
    do! used := put_name ZONE_NAME used in
    do! used := put_rr_hdr NS NS_TTL rdlen used in
    put_name name used.
Definition write_ns1 : writer_f := fun _ _ cap used => _write_ns NS1_NAME cap used.
Definition write_ns2 : writer_f := fun _ _ cap used => _write_ns NS2_NAME cap used.

Definition write_secret : writer_f := fun secret nameoff cap used =>
  let rdlen := 1 + zlen secret in
  let needed := 2 + RR_HDR_SIZE + rdlen in
  if used + needed >? cap then st_ret (used + needed)
  else
    do! used := put_name_ptr nameoff used in
    do! used := put_rr_hdr TXT TXT_TTL rdlen used in
    if zlen secret >? UINT8_MAX then st_lift (Stop Fatal)
    else
      do! used := put_uint8 (zlen secret) used in
      put_lstr secret used.

Definition write_aaaa : writer_f := fun _ nameoff cap used =>
  let rdlen := 16 in
  let needed := 2 + RR_HDR_SIZE + rdlen in
  if used + needed >? cap then st_ret (used + needed)
  else
    do! used := put_name_ptr nameoff used in
    do! used := put_rr_hdr AAAA AAAA_TTL rdlen used in
    do! used := put_uint32 0 used in
    do! used := put_uint32 0 used in
    do! used := put_uint32 0 used in
    put_uint32 1 used.

Definition write_caa : writer_f := fun _ nameoff cap used =>
  let rdlen := 2 + zlen CAA_TAG + zlen CAA_VALUE in
  let needed := 2 + RR_HDR_SIZE + rdlen in
  if used + needed >? cap then st_ret (used + needed)
  else
    do! used := put_name_ptr nameoff used in
    do! used := put_rr_hdr CAA CAA_TTL rdlen used in
    do! used := put_uint8 CAA_FLAGS used in
    do! used := put_uint8 (zlen CAA_TAG) used in
    do! used := put_lstr CAA_TAG used in
    put_lstr CAA_VALUE used.

(** ** Responses *)

Definition RCODE_OK : Z := 0.
Definition RCODE_SRVERR : Z := 2.
Definition RCODE_NAMEERR : Z := 3.
Definition RCODE_NOTIMPL : Z := 4.
Definition RCODE_REFUSED : Z := 5.

Section responses.
Context (fuel : nat) (p : bytes) (pkt : dns_pkt_t) (cap : Z).

(** [edns] outranks other data. *)
Definition edns_resv : Z := if found (edns pkt) then BARE_EDNS_SIZE else 0.

(** [if(used <= cap){ len = used; count++; }]: [used], and the new [len] and [count]. *)
Definition kept (used len count : Z) : Z * Z * Z :=
  if used <=? cap then (used, used, count + 1) else (used, len, count).

Definition negative_resp (rcode : Z) (aa soa : bool) : out Z :=
  let used := DNS_HDR_SIZE in
  let len := used in
  do! used := write_qstn fuel p (qstn pkt) (cap - edns_resv) used in
  let len := if used <=? cap then used else len in
  do! r := (if soa then
              do! used := write_soa [] 0 (cap - edns_resv) used in st_ret (kept used len 0)
            else st_ret (used, len, 0)) in
  let nscount := snd r in
  do! r := (if found (edns pkt) then
              do! used := write_edns cap (fst (fst r)) in st_ret (kept used (snd (fst r)) 0)
            else st_ret (fst (fst r), snd (fst r), 0)) in
  let tc := fst (fst r) >? cap in
  do! _ := write_response_hdr (hdr pkt) rcode aa tc 0 nscount (snd r) cap 0 in
  st_ret (snd (fst r)).

Fixpoint run_writers (writers : list writer_f) (arg : lstr_t) (used len ancount : Z) : out (Z * Z * Z) :=
  match writers with
  | [] => st_ret (used, len, ancount)
  | w :: writers =>
      do! used := w arg DNS_HDR_SIZE cap used in
      let k := kept used len ancount in
      run_writers writers arg (fst (fst k)) (snd (fst k)) (snd k)
  end.

Definition positive_resp (writers : list writer_f) (arg : lstr_t) : out Z :=
  let used := DNS_HDR_SIZE in
  let len := used in
  do! used := write_qstn fuel p (qstn pkt) (cap - edns_resv) used in
  let len := if used <=? cap then used else len in
  do! r := run_writers writers arg used len 0 in
  let ancount := snd r in
  do! r := (if found (edns pkt) then
              do! used := write_edns cap (fst (fst r)) in st_ret (kept used (snd (fst r)) 0)
            else st_ret (fst (fst r), snd (fst r), 0)) in
  let tc := fst (fst r) >? cap in
  do! _ := write_response_hdr (hdr pkt) RCODE_OK true tc ancount 0 (snd r) cap 0 in
  st_ret (snd (fst r)).

Definition respond_notimpl : out Z := negative_resp RCODE_NOTIMPL false false.
Definition respond_refused : out Z := negative_resp RCODE_REFUSED false false.
Definition respond_name_error : out Z := negative_resp RCODE_NAMEERR true true.
Definition norecord_resp : out Z := negative_resp RCODE_OK true true.

Definition respond_root : out Z :=
  if q_qtype (qstn pkt) =? SOA then positive_resp [write_soa] []
  else if q_qtype (qstn pkt) =? NS then positive_resp [write_ns1; write_ns2] []
  else if q_qtype (qstn pkt) =? CAA then positive_resp [write_caa] []
  else norecord_resp.

Definition respond_user : out Z :=
  if q_qtype (qstn pkt) =? A then positive_resp [write_a] []
  else if q_qtype (qstn pkt) =? AAAA then positive_resp [write_aaaa] []
  else if q_qtype (qstn pkt) =? CAA then positive_resp [write_caa] []
  else norecord_resp.

(** The secret: no answer, not sure, or the text. *)
Definition respond_acme (secret : answer) : out Z :=
  if negb (q_qtype (qstn pkt) =? TXT) then norecord_resp
  else match secret with
       | NULL => norecord_resp
       | UNSURE => negative_resp RCODE_SRVERR true false
       | Answer s => positive_resp [write_secret] s
       end.
End responses.

(** ** Choosing a response *)

Definition lower (c : Z) : Z := if (65 <=? c) && (c <=? 90) then c + 32 else c.
(** [strncasecmp(a, b, a.len) == 0], which stops at a zero byte. *)
Fixpoint strncasecmp_eq (a b : bytes) : bool :=
  match a, b with
  | x :: a, y :: b => (lower x =? lower y) && ((x =? 0) || strncasecmp_eq a b)
  | _, _ => true
  end.
Definition lstr_ieq (a b : lstr_t) : bool := (zlen a =? zlen b) && strncasecmp_eq a b.

Inductive respond_f := Norespond | Notimpl | Name_error | Root | User | Acme.
#[export] Instance respond_f_eq_dec : EqDecision respond_f.
Proof. solve_decision. Defined.

Definition sort_pkt (pkt : dns_pkt_t) (rname : list lstr_t) (n : Z) : res respond_f :=
  if h_qr (hdr pkt) then Ok Norespond
  else if negb (h_opcode (hdr pkt) =? 0) then Ok Norespond
  else if negb (h_qdcount (hdr pkt) =? 1) then Ok Norespond
  else if negb (q_qclass (qstn pkt) =? 1) then Ok Norespond
  else if q_qtype (qstn pkt) =? 0 then Ok Norespond
  else if n <? 3 then Ok Norespond
  else
    let! l0 := rd rname 0 in
    if negb (lstr_ieq l0 (lit "com")) then Ok Norespond
    else
      let! l1 := rd rname 1 in
      if negb (lstr_ieq l1 (lit "splintermail")) then Ok Norespond
      else
        let! l2 := rd rname 2 in
        if negb (lstr_ieq l2 (lit "user")) then Ok Norespond
        else
          let qtype := q_qtype (qstn pkt) in
          if (qtype >? TXT) && negb (qtype =? AAAA) && negb (qtype =? CAA) then Ok Notimpl
          else if n =? 3 then Ok Root
          else if n =? 4 then Ok User
          else if n =? 5 then
            let! l4 := rd rname 4 in
            Ok (if lstr_ieq l4 (lit "_acme-challenge") then Acme else Name_error)
          else Ok Name_error.

Definition respond (f : respond_f) (fuel : nat) (p : bytes) (pkt : dns_pkt_t) (secret : answer) (cap : Z) : out Z :=
  match f with
  | Norespond => st_ret 0
  | Notimpl => respond_notimpl fuel p pkt cap
  | Name_error => respond_name_error fuel p pkt cap
  | Root => respond_root fuel p pkt cap
  | User => respond_user fuel p pkt cap
  | Acme => respond_acme fuel p pkt cap secret
  end.

(** [struct kvp_i]: how a key is looked up, and what a lookup changes. *)
Record kvp_i (K : Type) := mkKvp { iget : lstr_t -> stm K answer }.
Arguments iget {K}.
Arguments mkKvp {K}.

(** The length of the response in the buffer; 0 to not respond. The state is the
    keys and the response buffer. *)
Definition handle_packet {K} (fuel : nat) (q : bytes) (kvp : kvp_i K) : stm (K * bytes) Z := fun s =>
  let rcap := zlen (snd s) in
  if rcap <? 512 then (Ok 0, s)
  else
    match parse_pkt fuel q with
    | Ok (pret, pkt) =>
        if is_bad_parse pret then (Ok 0, s)
        else
          match (let! r := labels_read_reverse fuel q (q_off (qstn pkt)) (replicate 6 []) in
                 let n := if snd r >? 6 then 6 else snd r in
                 let! f := sort_pkt pkt (fst r) n in Ok (f, fst r, n)) with
          | Ok (f, rname, n) =>
              let secret :=
                if decide (f = Acme) then
                  if n <? 4 then (Stop Fatal, fst s)
                  else match rd rname 3 with
                       | Ok user => iget kvp user (fst s)
                       | Err e => (Err e, fst s)
                       | Stop x => (Stop x, fst s)
                       end
                else (Ok NULL, fst s) in
              match fst secret with
              | Ok a =>
                  let rcap := if found (edns pkt) then Z.max (Z.min rcap (udp_size (edns pkt))) 512
                              else Z.min rcap 512 in
                  let r := respond f fuel q pkt a rcap (snd s) in
                  (fst r, (snd secret, snd r))
              | Err e => (Err e, (snd secret, snd s))
              | Stop x => (Stop x, (snd secret, snd s))
              end
          | Err e => (Err e, s)
          | Stop x => (Stop x, s)
          end
    | Err e => (Err e, s)
    | Stop x => (Stop x, s)
    end.

(** ** What is written *)

Lemma zlen_store b used t : 0 <= used -> used + zlen t <= zlen b -> zlen (store b used t) = zlen b.
Proof. intros. pose proof (zlen_nonneg t). unfold store. rewrite !zlen_app, zlen_take, zlen_drop. lia. Qed.

Lemma store_take b used t : 0 <= used -> used + zlen t <= zlen b ->
  take (Z.to_nat (used + zlen t)) (store b used t) = take (Z.to_nat used) b ++ t.
Proof.
  intros Hu Hl. unfold store, zlen in *. rewrite app_assoc, take_app_le.
  - apply take_ge. rewrite length_app, length_take. lia.
  - rewrite length_app, length_take. lia.
Qed.

Lemma store_drop b used t : 0 <= used -> used + zlen t <= zlen b ->
  drop (Z.to_nat (used + zlen t)) (store b used t) = drop (Z.to_nat (used + zlen t)) b.
Proof.
  intros Hu Hl. unfold store, zlen in *. rewrite app_assoc, drop_app_ge by (rewrite length_app, length_take; lia).
  rewrite length_app, length_take. replace (_ - _)%nat with 0%nat by lia. done.
Qed.

Lemma store_store b used t k :
  0 <= used -> used + zlen t + zlen k <= zlen b ->
  store (store b used t) (used + zlen t) k = store b used (t ++ k).
Proof.
  intros Hu Hl. pose proof (zlen_nonneg k). unfold store at 1. rewrite store_take by lia.
  replace (Z.to_nat (used + zlen t + zlen k)) with (Z.to_nat (used + zlen t) + Z.to_nat (zlen k))%nat
    by (pose proof (zlen_nonneg t); lia).
  rewrite <- drop_drop, store_drop by lia. rewrite drop_drop.
  unfold store. rewrite zlen_app, <- !app_assoc. do 4 f_equal. pose proof (zlen_nonneg t). lia.
Qed.

Lemma store_nil b used : 0 <= used -> store b used [] = b.
Proof. intros. unfold store. rewrite zlen_nil, Z.add_0_r. simpl. apply take_drop. Qed.

(** Writing a text at a position, where there is room for it. *)
Definition writes (m : Z -> out Z) (t : bytes) : Prop := forall used b,
  0 <= used -> used + zlen t <= zlen b -> m used b = (Ok (used + zlen t), store b used t).

Lemma writes_put t : writes (put t) t.
Proof. intros used b Hu Hl. unfold put. by rewrite (proj2 (Z.leb_le _ _)) by lia. Qed.

Lemma writes_bind m k t t' : writes m t -> writes k t' -> writes (fun u => do! u := m u in k u) (t ++ t').
Proof.
  intros Hm Hk used b Hu Hl. rewrite zlen_app in Hl |- *. pose proof (zlen_nonneg t). pose proof (zlen_nonneg t').
  rewrite (st_run _ _ _ _ _ (Hm used b Hu ltac:(lia))). rewrite Hk; [|lia|rewrite zlen_store; lia].
  rewrite store_store by lia. by rewrite Z.add_assoc.
Qed.

Lemma writes_ret : writes st_ret [].
Proof. intros used b Hu _. rewrite zlen_nil, Z.add_0_r, store_nil by done. done. Qed.

Lemma writes_ext m m' t : (forall u b, m u b = m' u b) -> writes m t -> writes m' t.
Proof. intros E Hm used b Hu Hl. rewrite <- E. by apply Hm. Qed.

(** The bytes of names and records. *)
Fixpoint labels_text (ls : list lstr_t) : bytes :=
  match ls with [] => [] | l :: ls => be_bytes 1 (zlen l) ++ l ++ labels_text ls end.
Definition name_text (ls : list lstr_t) : bytes := labels_text ls ++ [0].

Lemma writes_labels ls : writes (put_labels ls) (labels_text ls).
Proof.
  induction ls as [|l ls IH]; [apply writes_ret|].
  exact (writes_bind _ _ _ _ (writes_put _) (writes_bind _ _ _ _ (writes_put l) IH)).
Qed.

Lemma writes_name ls : writes (put_name ls) (name_text ls).
Proof. exact (writes_bind _ _ _ _ (writes_labels ls) (writes_put [0])). Qed.

Definition rr_hdr_text (type ttl rdlen : Z) : bytes :=
  be_bytes 2 type ++ be_bytes 2 1 ++ be_bytes 4 ttl ++ be_bytes 2 rdlen.

Lemma writes_rr_hdr type ttl rdlen : writes (put_rr_hdr type ttl rdlen) (rr_hdr_text type ttl rdlen).
Proof.
  exact (writes_bind _ _ _ _ (writes_put _) (writes_bind _ _ _ _ (writes_put _)
    (writes_bind _ _ _ _ (writes_put _) (writes_put _)))).
Qed.

Ltac solve_write :=
  lazymatch goal with
  | |- writes ?m _ =>
      let h := constr:(fun x : Z => ltac:(let u := eval cbv beta in (m x) in exact u)) in
      lazymatch h with
      | fun _ => put_labels ?ls _ => exact (writes_labels ls)
      | fun _ => put_name ?ls _ => exact (writes_name ls)
      | fun _ => put_rr_hdr ?a ?b ?c _ => exact (writes_rr_hdr a b c)
      | fun _ => put_uint8 ?n _ => exact (writes_put (be_bytes 1 n))
      | fun _ => put_uint16 ?n _ => exact (writes_put (be_bytes 2 n))
      | fun _ => put_uint32 ?n _ => exact (writes_put (be_bytes 4 n))
      | fun _ => put_name_ptr ?n _ => exact (writes_put (be_bytes 2 (Z.lor 49152 (Z.min n 16383))))
      | fun _ => put_lstr ?l _ => exact (writes_put l)
      end
  end.
Ltac solve_writes :=
  lazymatch goal with
  | |- writes (fun x => st_bind (@?m x) (@?k x)) _ => eapply (writes_bind m); [solve_writes|solve_writes]
  | |- _ => solve_write
  end.

(** A guarded writer: the text, or only its length when there is no room. *)
Definition emits (w : Z -> Z -> out Z) (t : bytes) : Prop := forall cap used b,
  0 <= used -> cap <= zlen b ->
  w cap used b = (Ok (used + zlen t), if used + zlen t >? cap then b else store b used t).

Lemma emits_writes (m : Z -> out Z) (n : Z) t :
  writes m t -> zlen t = n ->
  emits (fun cap used => if used + n >? cap then st_ret (used + n) else m used) t.
Proof.
  intros Hm <- cap used b Hu Hc. destruct (Z.gtb_spec (used + zlen t) cap); [done|]. apply Hm; [done|lia].
Qed.

Definition hdr_text (h : dns_hdr_t) : bytes :=
  be_bytes 2 (h_id h) ++
  be_bytes 1 (Z.lor (Z.lor (Z.lor (Z.lor (bit (h_qr h) 7) (Z.shiftl (h_opcode h) 3)) (bit (h_aa h) 2)) (bit (h_tc h) 1)) (bit (h_rd h) 0)) ++
  be_bytes 1 (Z.lor (bit (h_ra h) 7) (Z.land (h_rcode h) 15)) ++
  be_bytes 2 (h_qdcount h) ++ be_bytes 2 (h_ancount h) ++ be_bytes 2 (h_nscount h) ++ be_bytes 2 (h_arcount h).
Definition qstn_text (ls : list lstr_t) (q : dns_qstn_t) : bytes :=
  name_text ls ++ be_bytes 2 (q_qtype q) ++ be_bytes 2 (q_qclass q).
Definition edns_text : bytes :=
  [0] ++ be_bytes 2 EDNS ++ be_bytes 2 UDP_MAX_SIZE ++ be_bytes 4 0 ++ be_bytes 2 0.
Definition soa_text : bytes :=
  name_text ZONE_NAME ++ rr_hdr_text SOA SOA_TTL 71 ++ name_text MNAME ++ name_text RNAME ++
  be_bytes 4 SERIAL ++ be_bytes 4 300 ++ be_bytes 4 60 ++ be_bytes 4 86400 ++ be_bytes 4 60.
(** The pointer to the name of the question. *)
Definition name_ptr_text : bytes := be_bytes 2 49164.
Definition a_text : bytes := name_ptr_text ++ rr_hdr_text A A_TTL 4 ++ [127] ++ [0] ++ [0] ++ [1].
Definition ns_text (name : list lstr_t) : bytes := name_text ZONE_NAME ++ rr_hdr_text NS NS_TTL 22 ++ name_text name.
Definition secret_text (s : bytes) : bytes :=
  name_ptr_text ++ rr_hdr_text TXT TXT_TTL (1 + zlen s) ++ be_bytes 1 (zlen s) ++ s.
Definition aaaa_text : bytes :=
  name_ptr_text ++ rr_hdr_text AAAA AAAA_TTL 16 ++ be_bytes 4 0 ++ be_bytes 4 0 ++ be_bytes 4 0 ++ be_bytes 4 1.
Definition caa_text : bytes :=
  name_ptr_text ++ rr_hdr_text CAA CAA_TTL 22 ++ be_bytes 1 CAA_FLAGS ++ be_bytes 1 5 ++ CAA_TAG ++ CAA_VALUE.

Lemma emits_hdr h : emits (write_hdr h) (hdr_text h).
Proof.
  apply (emits_writes (fun used => do! used := put_uint16 (h_id h) used in _) 12).
  - solve_writes.
  - unfold hdr_text. by rewrite !zlen_app, !be_bytes_length.
Qed.

Lemma emits_edns : emits write_edns edns_text.
Proof.
  apply (emits_writes (fun used => do! used := put_uint8 0 used in _) 11); [|vm_compute; reflexivity].
  solve_writes.
Qed.

Lemma emits_soa : emits (write_soa [] 0) soa_text.
Proof.
  apply (emits_writes (fun used => do! used := put_name ZONE_NAME used in _) 104); [|vm_compute; reflexivity].
  solve_writes.
Qed.

Lemma emits_a s : emits (write_a s 12) a_text.
Proof. apply (emits_writes (fun used => do! used := put_name_ptr 12 used in _) 16); [solve_writes|reflexivity]. Qed.
Lemma emits_aaaa s : emits (write_aaaa s 12) aaaa_text.
Proof. apply (emits_writes (fun used => do! used := put_name_ptr 12 used in _) 28); [solve_writes|reflexivity]. Qed.
Lemma emits_caa s : emits (write_caa s 12) caa_text.
Proof. apply (emits_writes (fun used => do! used := put_name_ptr 12 used in _) 34); [solve_writes|reflexivity]. Qed.
Lemma emits_ns1 s : emits (write_ns1 s 12) (ns_text NS1_NAME).
Proof. apply (emits_writes (fun used => do! used := put_name ZONE_NAME used in _) 55); [solve_writes|vm_compute; reflexivity]. Qed.
Lemma emits_ns2 s : emits (write_ns2 s 12) (ns_text NS2_NAME).
Proof. apply (emits_writes (fun used => do! used := put_name ZONE_NAME used in _) 55); [solve_writes|vm_compute; reflexivity]. Qed.
Lemma emits_soa' s : emits (write_soa s 12) soa_text.
Proof. exact emits_soa. Qed.

Lemma zlen_secret_text s : zlen (secret_text s) = 13 + zlen s.
Proof. unfold secret_text, name_ptr_text, rr_hdr_text. rewrite !zlen_app, !be_bytes_length. lia. Qed.

Lemma emits_secret s : zlen s <= 255 -> emits (write_secret s 12) (secret_text s).
Proof.
  intros Hs cap used b Hu Hc. unfold write_secret. pose proof (zlen_nonneg s).
  rewrite zlen_secret_text. replace (2 + RR_HDR_SIZE + (1 + zlen s)) with (13 + zlen s) by (unfold RR_HDR_SIZE; lia).
  destruct (Z.gtb_spec (used + (13 + zlen s)) cap); [done|].
  assert (zlen s >? UINT8_MAX = false) as -> by (destruct (Z.gtb_spec (zlen s) UINT8_MAX); [unfold UINT8_MAX in *; lia|done]).
  rewrite <- zlen_secret_text.
  assert (writes (fun used => do! used := put_name_ptr 12 used in do! used := put_rr_hdr TXT TXT_TTL (1 + zlen s) used in
    do! used := put_uint8 (zlen s) used in put_lstr s used) (secret_text s)) as Hw by solve_writes.
  apply Hw; [done|]. rewrite zlen_secret_text. lia.
Qed.

Lemma zlen_labels_text ls : zlen (labels_text ls) = text_len ls.
Proof.
  induction ls as [|l ls IH]; [done|]. cbn [labels_text text_len fold_right]. fold (text_len ls).
  rewrite !zlen_app, be_bytes_length, IH. lia.
Qed.

Lemma zlen_qstn_text ls q : zlen (qstn_text ls q) = text_len ls + 5.
Proof. unfold qstn_text, name_text. rewrite !zlen_app, !be_bytes_length, zlen_labels_text. change (zlen [0]) with 1. lia. Qed.

Lemma needed_text ls n : fold_left (fun needed (l : lstr_t) => needed + (zlen l + 1)) ls n = n + text_len ls.
Proof.
  revert n. induction ls as [|l ls IH]; intros n; [simpl; lia|]. cbn [fold_left text_len fold_right]. fold (text_len ls).
  rewrite IH. lia.
Qed.

Lemma emits_qstn fuel p q ls it :
  q_qdcount q = 1 -> labels_iter fuel p (q_off q) = Ok (ls, it) -> emits (write_qstn fuel p q) (qstn_text ls q).
Proof.
  intros Hq Hl cap used b Hu Hc. unfold write_qstn. rewrite Hq. change (negb (1 =? 1)) with false. cbn iota.
  rewrite (st_run _ _ b (ls, it) b) by (unfold st_lift; by rewrite Hl). cbn [fst].
  rewrite needed_text. replace (used + (5 + text_len ls)) with (used + zlen (qstn_text ls q)) by (rewrite zlen_qstn_text; lia).
  destruct (Z.gtb_spec (used + zlen (qstn_text ls q)) cap); [done|].
  rewrite (st_run _ _ b (ls, it) b) by (unfold st_lift; by rewrite Hl). cbn [fst].
  assert (writes (fun used => do! used := put_labels ls used in do! used := put_uint8 0 used in
    do! used := put_uint16 (q_qtype q) used in put_uint16 (q_qclass q) used)
    (labels_text ls ++ [0] ++ be_bytes 2 (q_qtype q) ++ be_bytes 2 (q_qclass q))) as Hw by solve_writes.
  assert (qstn_text ls q = labels_text ls ++ [0] ++ be_bytes 2 (q_qtype q) ++ be_bytes 2 (q_qclass q)) as E
    by (unfold qstn_text, name_text; by rewrite <- app_assoc).
  rewrite E in *. apply Hw; [done|lia].
Qed.

(** ** Responses *)

(** After the header, which is written last, the response is a growing text. *)
Lemma emits_step w t b T cap cap' :
  emits w t -> 12 + zlen T + zlen t <= cap' -> cap' <= cap -> cap <= zlen b ->
  w cap' (12 + zlen T) (store b 12 T) = (Ok (12 + zlen (T ++ t)), store b 12 (T ++ t)).
Proof.
  intros Hw Hf Hc Hb. pose proof (zlen_nonneg T). pose proof (zlen_nonneg t).
  rewrite (Hw cap' (12 + zlen T)) by (rewrite ?zlen_store; lia).
  destruct (Z.gtb_spec (12 + zlen T + zlen t) cap'); [lia|].
  rewrite store_store by lia. rewrite zlen_app. do 2 f_equal. lia.
Qed.

Lemma store_hdr b H T : zlen H = 12 -> 12 + zlen T <= zlen b ->
  take (Z.to_nat (12 + zlen T)) (store (store b 12 T) 0 H) = H ++ T.
Proof.
  intros Hh Hl. pose proof (zlen_nonneg T).
  assert (store (store b 12 T) 0 H = H ++ T ++ drop (Z.to_nat (12 + zlen T)) b) as ->.
  { unfold store at 1. rewrite Hh. simpl. f_equal. unfold store.
    rewrite drop_app_ge by (unfold zlen in *; rewrite length_take; lia).
    replace (_ - _)%nat with 0%nat by (unfold zlen in *; rewrite length_take; lia). done. }
  rewrite app_assoc, take_app_le by (unfold zlen in *; rewrite length_app; lia).
  apply take_ge. unfold zlen in *. rewrite length_app. lia.
Qed.

Record reply := mkReply { rp_rcode : Z; rp_aa : bool; rp_answers : list bytes; rp_soa : bool }.

(** A response to the question with labels [ls]: complete, never truncated. *)
Definition reply_text (pkt : dns_pkt_t) (ls : list lstr_t) (r : reply) : bytes :=
  hdr_text (response_hdr (hdr pkt) (rp_rcode r) (rp_aa r) false (zlen (rp_answers r))
    (if rp_soa r then 1 else 0) (if found (edns pkt) then 1 else 0)) ++
  qstn_text ls (qstn pkt) ++ concat (rp_answers r) ++ (if rp_soa r then soa_text else []) ++
  (if found (edns pkt) then edns_text else []).

Section replies.
Context (fuel : nat) (p : bytes) (pkt : dns_pkt_t) (cap : Z) (ls : list lstr_t) (it : labels_t) (b : bytes).
Context (Hq : q_qdcount (qstn pkt) = 1) (Hls : labels_iter fuel p (q_off (qstn pkt)) = Ok (ls, it)).
Context (Htl : text_len ls + 1 <= 255) (Hcap : 512 <= cap) (Hb : cap <= zlen b).

(** What the operations of a response come to. *)
Definition replies (m : out Z) (r : reply) : Prop :=
  exists n b', m b = (Ok n, b') /\ n <= cap /\ zlen b' = zlen b /\ take (Z.to_nat n) b' = reply_text pkt ls r /\
    n = zlen (reply_text pkt ls r).

Lemma write_qstn_start :
  write_qstn fuel p (qstn pkt) (cap - edns_resv pkt) 12 b = (Ok (12 + zlen (qstn_text ls (qstn pkt))), store b 12 (qstn_text ls (qstn pkt))).
Proof.
  pose proof (emits_step _ _ b [] cap (cap - edns_resv pkt) (emits_qstn fuel p (qstn pkt) ls it Hq Hls)) as E.
  rewrite zlen_nil, Z.add_0_r, store_nil in E by lia. cbn [app] in E.
  pose proof (zlen_qstn_text ls (qstn pkt)). pose proof (text_len_nonneg ls). apply E; unfold edns_resv, BARE_EDNS_SIZE in *; destruct (found (edns pkt)); lia.
Qed.

(** The end of a response: EDNS and the header. *)
Lemma finish_reply T rcode aa an ns :
  12 + zlen T + 11 <= cap ->
  (do! r := (if found (edns pkt) then
               do! used := write_edns cap (12 + zlen T) in st_ret (kept cap used (12 + zlen T) 0)
             else st_ret (12 + zlen T, 12 + zlen T, 0)) in
   let tc := fst (fst r) >? cap in
   do! _ := write_response_hdr (hdr pkt) rcode aa tc an ns (snd r) cap 0 in
   st_ret (snd (fst r))) (store b 12 T) =
  let T' := T ++ (if found (edns pkt) then edns_text else []) in
  (Ok (12 + zlen T'),
   store (store b 12 T') 0 (hdr_text (response_hdr (hdr pkt) rcode aa false an ns (if found (edns pkt) then 1 else 0)))).
Proof.
  intros Hf. pose proof (zlen_nonneg T).
  assert (forall T' k, 12 + zlen T' <= cap ->
    (let tc := 12 + zlen T' >? cap in
     do! _ := write_response_hdr (hdr pkt) rcode aa tc an ns k cap 0 in st_ret (12 + zlen T')) (store b 12 T') =
    (Ok (12 + zlen T'), store (store b 12 T') 0 (hdr_text (response_hdr (hdr pkt) rcode aa false an ns k)))) as Hend.
  { intros T' k HT'. pose proof (zlen_nonneg T'). destruct (Z.gtb_spec (12 + zlen T') cap); [lia|]. unfold write_response_hdr.
    set (hd := response_hdr _ _ _ _ _ _ _). assert (zlen (hdr_text hd) = 12) as Hh by (unfold hdr_text; by rewrite !zlen_app, !be_bytes_length).
    pose proof (emits_hdr hd cap 0 (store b 12 T')) as E. rewrite zlen_store in E by lia. specialize (E ltac:(lia) Hb).
    rewrite Hh in E. destruct (Z.gtb_spec (0 + 12) cap); [lia|]. cbn zeta. rewrite (st_run _ _ _ _ _ E). done. }
  destruct (found (edns pkt)).
  - pose proof (emits_step _ _ b T cap cap emits_edns) as E. change (zlen edns_text) with 11 in E.
    rewrite (st_run _ _ _ (kept cap (12 + zlen (T ++ edns_text)) (12 + zlen T) 0) (store b 12 (T ++ edns_text))).
    2:{ rewrite (st_run _ _ _ _ _ (E ltac:(lia) ltac:(lia) Hb)). done. }
    assert (12 + zlen (T ++ edns_text) <= cap) as HT by (rewrite zlen_app; change (zlen edns_text) with 11; lia).
    unfold kept. rewrite (proj2 (Z.leb_le _ _) HT). cbn [fst snd]. by apply Hend.
  - rewrite app_nil_r. rewrite (st_run _ _ _ (12 + zlen T, 12 + zlen T, 0) (store b 12 T)) by done. cbn [fst snd]. apply Hend. lia.
Qed.

Lemma replies_of T rcode aa answers (soa : bool) :
  (forall m : out Z, m b = (Ok (12 + zlen (T ++ (if found (edns pkt) then edns_text else []))),
     store (store b 12 (T ++ (if found (edns pkt) then edns_text else []))) 0
       (hdr_text (response_hdr (hdr pkt) rcode aa false (zlen answers) (if soa then 1 else 0) (if found (edns pkt) then 1 else 0)))) ->
   12 + zlen T + 11 <= cap -> T = qstn_text ls (qstn pkt) ++ concat answers ++ (if soa then soa_text else []) ->
   replies m (mkReply rcode aa answers soa)).
Proof.
  intros m E Hf ET. set (T' := T ++ _) in *. set (hd := hdr_text _) in *.
  assert (zlen hd = 12) as Hh by (unfold hd, hdr_text; by rewrite !zlen_app, !be_bytes_length).
  assert (12 + zlen T' <= cap) as HT'.
  { unfold T'. rewrite zlen_app. destruct (found (edns pkt)); [change (zlen edns_text) with 11|rewrite zlen_nil]; lia. }
  pose proof (zlen_nonneg T').
  assert (reply_text pkt ls (mkReply rcode aa answers soa) = hd ++ T') as Er.
  { unfold reply_text, T'. rewrite ET. cbn [rp_rcode rp_aa rp_answers rp_soa]. by rewrite <- !app_assoc. }
  eexists _, _. split; [exact E|]. split_and!; [lia| | |].
  - rewrite zlen_store; [rewrite zlen_store; lia|lia|]. rewrite zlen_store; lia.
  - rewrite Er. apply store_hdr; [done|lia].
  - rewrite Er, zlen_app. lia.
Qed.

Lemma negative_resp_spec rcode aa soa :
  replies (negative_resp fuel p pkt cap rcode aa soa) (mkReply rcode aa [] soa).
Proof.
  pose proof (text_len_nonneg ls). set (Q := qstn_text ls (qstn pkt)).
  assert (zlen Q <= 259) as HQ by (unfold Q; rewrite zlen_qstn_text; lia). pose proof (zlen_nonneg Q).
  assert (zlen soa_text = 104) as Hsoa by (vm_compute; reflexivity).
  set (T := Q ++ (if soa then soa_text else [])).
  assert (zlen T <= 363) as HT.
  { unfold T. rewrite zlen_app. destruct soa; [rewrite Hsoa|rewrite zlen_nil]; lia. }
  apply (replies_of T); [|lia|done]. unfold negative_resp. change DNS_HDR_SIZE with 12.
  rewrite (st_run _ _ _ _ _ write_qstn_start). fold Q. rewrite (proj2 (Z.leb_le (12 + zlen Q) cap)) by lia.
  rewrite (st_run _ _ _ (12 + zlen T, 12 + zlen T, if soa then 1 else 0) (store b 12 T)).
  { cbn [fst snd]. apply finish_reply. lia. }
  unfold T. destruct soa.
  - pose proof (emits_step _ _ b Q cap (cap - edns_resv pkt) emits_soa) as E. rewrite Hsoa in E.
    assert (edns_resv pkt <= 11) as Hr by (unfold edns_resv, BARE_EDNS_SIZE; destruct (found (edns pkt)); lia).
    assert (0 <= edns_resv pkt) as Hr0 by (unfold edns_resv, BARE_EDNS_SIZE; destruct (found (edns pkt)); lia).
    rewrite (st_run _ _ _ _ _ (E ltac:(lia) ltac:(lia) Hb)). unfold st_ret, kept.
    rewrite (proj2 (Z.leb_le _ cap)) by (rewrite zlen_app, Hsoa; lia). done.
  - by rewrite app_nil_r.
Qed.

Lemma run_writers_spec ws ts arg : Forall2 (fun w t => emits (w arg 12) t) ws ts -> forall T n,
  12 + zlen T + zlen (concat ts) <= cap ->
  run_writers cap ws arg (12 + zlen T) (12 + zlen T) n (store b 12 T) =
  (Ok (12 + zlen (T ++ concat ts), 12 + zlen (T ++ concat ts), n + zlen ts), store b 12 (T ++ concat ts)).
Proof.
  induction 1 as [|w t ws ts Hw Hws IH]; intros T n Hf.
  { cbn [run_writers concat]. rewrite app_nil_r, zlen_nil, Z.add_0_r. done. }
  cbn [run_writers concat]. cbn [concat] in Hf. rewrite zlen_app in Hf. pose proof (zlen_nonneg (concat ts)). pose proof (zlen_nonneg T).
  change DNS_HDR_SIZE with 12. rewrite (st_run _ _ _ _ _ (emits_step _ _ b T cap cap Hw ltac:(lia) ltac:(lia) Hb)).
  unfold kept. rewrite (proj2 (Z.leb_le _ cap)) by (rewrite zlen_app; lia). cbn [fst snd].
  rewrite IH by (rewrite zlen_app; lia). rewrite <- app_assoc, zlen_cons. do 3 f_equal. lia.
Qed.

Lemma positive_resp_spec ws ts arg :
  Forall2 (fun w t => emits (w arg 12) t) ws ts -> zlen (qstn_text ls (qstn pkt)) + zlen (concat ts) <= 489 ->
  replies (positive_resp fuel p pkt cap ws arg) (mkReply RCODE_OK true ts false).
Proof.
  intros Hws Hsz. set (Q := qstn_text ls (qstn pkt)) in *. pose proof (zlen_nonneg Q). pose proof (zlen_nonneg (concat ts)).
  apply (replies_of (Q ++ concat ts)); [|rewrite zlen_app; lia|by rewrite app_nil_r].
  unfold positive_resp. change DNS_HDR_SIZE with 12.
  rewrite (st_run _ _ _ _ _ write_qstn_start). fold Q. rewrite (proj2 (Z.leb_le (12 + zlen Q) cap)) by lia.
  rewrite (st_run _ _ _ _ _ (run_writers_spec ws ts arg Hws Q 0 ltac:(lia))). cbn [fst snd].
  rewrite Z.add_0_l. apply (finish_reply (Q ++ concat ts) RCODE_OK true (zlen ts) 0). rewrite zlen_app. lia.
Qed.
End replies.

(** ** Choosing a response *)

Lemma wr_ok {X} (l : list X) i x : 0 <= i < zlen l -> wr l i x = Ok (<[Z.to_nat i := x]> l).
Proof. intros. unfold wr. by rewrite decide_True. Qed.

Lemma save_reverse_spec cap skip bump total ls : forall n arr,
  zlen arr = cap -> 0 <= n -> n + zlen ls = total -> skip = Z.max 0 (total - cap) -> bump = Z.max 0 (cap - total) ->
  exists arr', save_reverse ls n cap skip bump arr = Ok arr' /\ zlen arr' = cap /\
    (forall i : nat, (i < length ls)%nat -> Z.of_nat i < cap -> arr' !! i = reverse ls !! i) /\
    (forall i : nat, (length ls <= i)%nat -> arr' !! i = arr !! i).
Proof.
  induction ls as [|l ls IH]; intros n arr Ha Hn Ht Hs Hbm.
  { exists arr. split_and!; [done|done|simpl; lia|done]. }
  rewrite zlen_cons in Ht. pose proof (zlen_nonneg ls) as Hl0. pose proof (zlen_nonneg arr). cbn [save_reverse].
  assert (zlen ls = Z.of_nat (length ls)) as El by done.
  destruct (Z.ltb_spec n skip) as [Hsk|Hsk].
  - destruct (IH (n + 1) arr) as (arr' & E & Hz & H1 & H2); [done|lia|lia|done|done|].
    exists arr'. split_and!; [done|done| |intros i Hi; apply H2; simpl in Hi; lia].
    intros i Hi Hc. rewrite reverse_cons, lookup_app_l by (rewrite length_reverse; lia). apply H1; lia.
  - assert (cap + skip - 1 - n - bump = zlen ls) as Ei by lia. rewrite Ei.
    rewrite wr_ok by lia. cbn [res_bind].
    destruct (IH (n + 1) (<[Z.to_nat (zlen ls) := l]> arr)) as (arr' & E & Hz & H1 & H2);
      [unfold zlen in *; by rewrite length_insert|lia|lia|done|done|].
    exists arr'. split_and!; [done|done| |].
    + intros i Hi Hc. simpl in Hi. destruct (decide (i = length ls)) as [->|Hne].
      * rewrite H2 by lia. rewrite El, Nat2Z.id, list_lookup_insert_eq by (unfold zlen in *; lia).
        rewrite reverse_cons, lookup_app_r, length_reverse, Nat.sub_diag by (rewrite length_reverse; lia). done.
      * rewrite reverse_cons, lookup_app_l by (rewrite length_reverse; lia). apply H1; lia.
    + intros i Hi. simpl in Hi. rewrite H2 by lia. rewrite El, Nat2Z.id. by rewrite list_lookup_insert_ne by lia.
Qed.

Lemma labels_read_reverse_spec fuel p start ls it k :
  labels_iter fuel p start = Ok (ls, it) ->
  exists arr, labels_read_reverse fuel p start (replicate k []) = Ok (arr, zlen ls) /\ zlen arr = Z.of_nat k /\
    (forall i l, 0 <= i < Z.of_nat k -> reverse ls !! Z.to_nat i = Some l -> rd arr i = Ok l).
Proof.
  intros E. unfold labels_read_reverse. rewrite E. cbn [res_bind fst].
  assert (zlen (replicate k ([] : lstr_t)) = Z.of_nat k) as Ek by (unfold zlen; by rewrite length_replicate). rewrite Ek.
  edestruct (save_reverse_spec (Z.of_nat k) (if zlen ls >? Z.of_nat k then zlen ls - Z.of_nat k else 0)
    (if Z.of_nat k >? zlen ls then Z.of_nat k - zlen ls else 0) (zlen ls) ls 0 (replicate k [])) as (arr & -> & Hz & H1 & _);
    [done|lia|lia|destruct (Z.gtb_spec (zlen ls) (Z.of_nat k)); lia|destruct (Z.gtb_spec (Z.of_nat k) (zlen ls)); lia|].
  cbn [res_bind]. exists arr. split_and!; [done|done|]. intros i l Hi Hl. unfold rd. rewrite decide_True by lia.
  pose proof (lookup_lt_Some _ _ _ Hl) as Hlt. rewrite length_reverse in Hlt.
  rewrite H1 by lia. by rewrite Hl.
Qed.

Definition unsupported (qtype : Z) : bool := (qtype >? TXT) && negb (qtype =? AAAA) && negb (qtype =? CAA).

(** The response for a name, given from its end. *)
Definition route (qtype : Z) (rname : list lstr_t) : respond_f :=
  match rname with
  | c :: s :: u :: rest =>
      if lstr_ieq c (lit "com") && lstr_ieq s (lit "splintermail") && lstr_ieq u (lit "user") then
        if unsupported qtype then Notimpl
        else match rest with
             | [] => Root
             | [_] => User
             | [_; x] => if lstr_ieq x (lit "_acme-challenge") then Acme else Name_error
             | _ => Name_error
             end
      else Norespond
  | _ => Norespond
  end.
Definition serviced (pkt : dns_pkt_t) : bool :=
  negb (h_qr (hdr pkt)) && (h_opcode (hdr pkt) =? 0) && (h_qdcount (hdr pkt) =? 1) &&
  (q_qclass (qstn pkt) =? 1) && negb (q_qtype (qstn pkt) =? 0).

Lemma sort_pkt_spec pkt arr ls :
  (forall i l, 0 <= i < 6 -> reverse ls !! Z.to_nat i = Some l -> rd arr i = Ok l) ->
  sort_pkt pkt arr (Z.min (zlen ls) 6) =
  Ok (if serviced pkt then route (q_qtype (qstn pkt)) (reverse ls) else Norespond).
Proof.
  intros Harr. unfold sort_pkt, serviced.
  destruct (h_qr (hdr pkt)); [done|]. destruct (h_opcode (hdr pkt) =? 0); [|done].
  destruct (h_qdcount (hdr pkt) =? 1); [|done]. destruct (q_qclass (qstn pkt) =? 1); [|done].
  destruct (q_qtype (qstn pkt) =? 0); [done|]. cbn [negb andb].
  assert (zlen ls = zlen (reverse ls)) as -> by (unfold zlen; by rewrite length_reverse).
  destruct (reverse ls) as [|c [|s [|u rest]]] eqn:Er; [done..|]. rewrite !zlen_cons. pose proof (zlen_nonneg rest).
  destruct (Z.ltb_spec (Z.min (1 + (1 + (1 + zlen rest))) 6) 3); [lia|].
  rewrite (Harr 0 c) by (done || lia). rewrite (Harr 1 s) by (done || lia). rewrite (Harr 2 u) by (done || lia). cbn [res_bind route].
  destruct (lstr_ieq c (lit "com")); [|done]. cbn [negb andb].
  destruct (lstr_ieq s (lit "splintermail")); [|done]. cbn [negb andb].
  destruct (lstr_ieq u (lit "user")); [|done]. cbn [negb andb]. fold (unsupported (q_qtype (qstn pkt))).
  destruct (unsupported (q_qtype (qstn pkt))); [done|].
  destruct rest as [|a [|x [|y rest]]]; [done|done| |].
  - simpl. rewrite (Harr 4 x) by (done || lia). done.
  - rewrite !zlen_cons. pose proof (zlen_nonneg rest).
    destruct (Z.eqb_spec (Z.min (1 + (1 + (1 + (1 + (1 + (1 + zlen rest)))))) 6) 3); [lia|].
    destruct (Z.eqb_spec (Z.min (1 + (1 + (1 + (1 + (1 + (1 + zlen rest)))))) 6) 4); [lia|].
    destruct (Z.eqb_spec (Z.min (1 + (1 + (1 + (1 + (1 + (1 + zlen rest)))))) 6) 5); [lia|]. done.
Qed.

(** What a response says. *)
Definition no_record_reply : reply := mkReply RCODE_OK true [] true.
Definition reply_for (f : respond_f) (qtype : Z) (secret : answer) : reply :=
  match f with
  | Norespond => no_record_reply
  | Notimpl => mkReply RCODE_NOTIMPL false [] false
  | Name_error => mkReply RCODE_NAMEERR true [] true
  | Root =>
      if qtype =? SOA then mkReply RCODE_OK true [soa_text] false
      else if qtype =? NS then mkReply RCODE_OK true [ns_text NS1_NAME; ns_text NS2_NAME] false
      else if qtype =? CAA then mkReply RCODE_OK true [caa_text] false
      else no_record_reply
  | User =>
      if qtype =? A then mkReply RCODE_OK true [a_text] false
      else if qtype =? AAAA then mkReply RCODE_OK true [aaaa_text] false
      else if qtype =? CAA then mkReply RCODE_OK true [caa_text] false
      else no_record_reply
  | Acme =>
      if negb (qtype =? TXT) then no_record_reply
      else match secret with
           | NULL => no_record_reply
           | UNSURE => mkReply RCODE_SRVERR true [] false
           | Answer s => mkReply RCODE_OK true [secret_text s] false
           end
  end.

Lemma lstr_ieq_len a b : lstr_ieq a b = true -> zlen a = zlen b.
Proof. unfold lstr_ieq. intros H. apply andb_true_iff in H as [H _]. lia. Qed.

Lemma text_len_app a b : text_len (a ++ b) = text_len a + text_len b.
Proof. induction a as [|l a IH]; [done|]. cbn [app text_len fold_right] in *. fold (text_len (a ++ b)) (text_len a). lia. Qed.

Lemma text_len_reverse ls : text_len (reverse ls) = text_len ls.
Proof.
  induction ls as [|l ls IH]; [done|]. rewrite reverse_cons, text_len_app, IH. cbn [text_len fold_right].
  fold (text_len ls). lia.
Qed.

(** A challenge's name has at most 102 bytes before its end. *)
Lemma acme_len qtype ls :
  route qtype (reverse ls) = Acme -> Forall (fun l : lstr_t => 0 < zlen l <= 63 /\ is_bytes l) ls ->
  text_len ls <= 102 /\ (4 <= length ls)%nat.
Proof.
  intros Hr Hl. assert (Forall (fun l : lstr_t => 0 < zlen l <= 63 /\ is_bytes l) (reverse ls)) as Hrl by by apply Forall_reverse.
  rewrite <- text_len_reverse, <- length_reverse. destruct (reverse ls) as [|c [|s [|u rest]]]; [done..|]. cbn [route] in Hr.
  destruct (lstr_ieq c _) eqn:Ec; [|done]. destruct (lstr_ieq s _) eqn:Es; [|done]. destruct (lstr_ieq u _) eqn:Eu; [|done].
  cbn [andb] in Hr. destruct (unsupported qtype); [done|]. destruct rest as [|a [|x [|y rest]]]; [done|done| |done].
  destruct (lstr_ieq x _) eqn:Ex; [|done]. apply lstr_ieq_len in Ec, Es, Eu, Ex.
  change (zlen (lit "com")) with 3 in Ec. change (zlen (lit "splintermail")) with 12 in Es.
  change (zlen (lit "user")) with 4 in Eu. change (zlen (lit "_acme-challenge")) with 15 in Ex.
  rewrite !Forall_cons in Hrl. destruct Hrl as (_ & _ & _ & (Ha & _) & _).
  simpl. lia.
Qed.

Lemma respond_spec fuel p pkt cap ls it b f secret :
  q_qdcount (qstn pkt) = 1 -> labels_iter fuel p (q_off (qstn pkt)) = Ok (ls, it) ->
  text_len ls + 1 <= 255 -> 512 <= cap -> cap <= zlen b -> f <> Norespond ->
  (f = Acme -> text_len ls <= 102 /\ forall s, secret = Answer s -> zlen s <= 255) ->
  replies pkt cap ls b (respond f fuel p pkt secret cap) (reply_for f (q_qtype (qstn pkt)) secret).
Proof.
  intros Hq Hls Htl Hcap Hb Hf Hacme. pose proof (zlen_qstn_text ls (qstn pkt)) as HQ.
  assert (forall rcode aa soa, replies pkt cap ls b (negative_resp fuel p pkt cap rcode aa soa) (mkReply rcode aa [] soa)) as Hneg
    by (intros; by eapply negative_resp_spec).
  assert (forall ws ts arg, Forall2 (fun w t => emits (w arg 12) t) ws ts -> zlen (qstn_text ls (qstn pkt)) + zlen (concat ts) <= 489 ->
    replies pkt cap ls b (positive_resp fuel p pkt cap ws arg) (mkReply RCODE_OK true ts false)) as Hpos
    by (intros; by eapply positive_resp_spec).
  destruct f; [done|apply Hneg|apply Hneg|..]; simpl.
  - unfold respond_root. destruct (_ =? SOA); [|destruct (_ =? NS); [|destruct (_ =? CAA); [|apply Hneg]]]; apply Hpos;
      try (repeat constructor; (apply emits_soa' || apply emits_ns1 || apply emits_ns2 || apply emits_caa));
      rewrite HQ; match goal with |- _ + zlen ?t <= _ => let v := eval vm_compute in (zlen t) in change (zlen t) with v end; lia.
  - unfold respond_user. destruct (_ =? A); [|destruct (_ =? AAAA); [|destruct (_ =? CAA); [|apply Hneg]]]; apply Hpos;
      try (repeat constructor; (apply emits_a || apply emits_aaaa || apply emits_caa));
      rewrite HQ; match goal with |- _ + zlen ?t <= _ => let v := eval vm_compute in (zlen t) in change (zlen t) with v end; lia.
  - unfold respond_acme. destruct (Hacme eq_refl) as [Hl Hs]. destruct (negb _); [apply Hneg|].
    destruct secret as [| |s]; [apply Hneg|apply Hneg|]. specialize (Hs s eq_refl). apply Hpos.
    + constructor; [by apply emits_secret|constructor].
    + rewrite HQ. cbn [concat]. rewrite app_nil_r, zlen_secret_text. lia.
Qed.

(** ** Serving a packet *)

(** At least one question; the parser's limits say what happens to other packets. *)
Definition one_qstn (p : bytes) : Prop := forall b, rd16 p 4 = Ok b -> 1 <= b.

Definition kvp_ok {K} (kvp : kvp_i K) (ok : K -> Prop) : Prop := forall user s, zlen user <= 63 -> ok s ->
  exists a s', iget kvp user s = (Ok a, s') /\ ok s' /\ forall v, a = Answer v -> zlen v <= 255.

(** The largest response: what the query allows, at least 512. *)
Definition response_limit (pkt : dns_pkt_t) (rcap : Z) : Z :=
  if found (edns pkt) then Z.max (Z.min rcap (udp_size (edns pkt))) 512 else Z.min rcap 512.

(** What a served query comes to. *)
Definition served {K} (fuel : nat) (q : bytes) (kvp : kvp_i K) (ks : K) (rcap n : Z) (ks' : K) (text : bytes) : Prop :=
  exists pkt ls it f a,
    parse_pkt fuel q = Ok (0, pkt) /\ labels_iter fuel q (q_off (qstn pkt)) = Ok (ls, it) /\ serviced pkt = true /\
    f = route (q_qtype (qstn pkt)) (reverse ls) /\ f <> Norespond /\
    (if decide (f = Acme) then exists user, reverse ls !! 3%nat = Some user /\ iget kvp user ks = (Ok a, ks')
     else ks' = ks) /\
    text = reply_text pkt ls (reply_for f (q_qtype (qstn pkt)) a) /\ n = zlen text /\ n <= response_limit pkt rcap.

Lemma handle_packet_spec {K} fuel q (kvp : kvp_i K) ok ks rbuf :
  is_bytes q -> zlen q < 2 ^ 63 -> (NAME_FUEL <= fuel)%nat -> one_addl q -> one_qstn q -> 512 <= zlen rbuf ->
  kvp_ok kvp ok -> ok ks ->
  exists n ks' rbuf', handle_packet fuel q kvp (ks, rbuf) = (Ok n, (ks', rbuf')) /\ zlen rbuf' = zlen rbuf /\ ok ks' /\
    (n = 0 /\ rbuf' = rbuf /\ ks' = ks \/ served fuel q kvp ks (zlen rbuf) n ks' (take (Z.to_nat n) rbuf')).
Proof.
  intros Hb Hsz Hf H1 Hq1 Hcap Hkvp Hok. unfold handle_packet. cbn [fst snd].
  destruct (Z.ltb_spec (zlen rbuf) 512); [lia|].
  destruct (parse_pkt_ok q fuel Hb Hsz Hf H1) as (code & pkt & Ep & Hc). rewrite Ep.
  destruct (is_bad_parse code) eqn:Ebad; [exists 0, ks, rbuf; split_and!; auto|].
  destruct Hc as [?|(-> & Hh & (Eq & Ht & Hcl & Ho & Hq) & _ & _ & _ & Hudp & Hqd)]; [done|]. clear Ebad.
  destruct (Hq (Hq1 _ Hqd)) as (ls & u & Htl & k & Hnm & Hk).
  destruct (labels_iter_spec q _ ls u k fuel Hb Hnm) as (it & El & _); [lia|].
  destruct (labels_read_reverse_spec fuel q _ ls it 6 El) as (arr & -> & Hz & Harr). cbn [res_bind fst snd].
  assert ((if zlen ls >? 6 then 6 else zlen ls) = Z.min (zlen ls) 6) as -> by (destruct (Z.gtb_spec (zlen ls) 6); lia).
  rewrite (sort_pkt_spec pkt arr ls Harr). cbn [res_bind].
  assert (Forall (fun l : lstr_t => 0 < zlen l <= 63 /\ is_bytes l) ls) as Hls by (eapply name_at_labels; [done|lia|done]).
  set (rcap := if found (edns pkt) then _ else _). assert (512 <= rcap <= zlen rbuf) as Hrc.
  { unfold rcap. destruct (found (edns pkt)); lia. }
  destruct (serviced pkt) eqn:Es.
  2:{ simpl. exists 0, ks, rbuf. split_and!; auto. }
  set (f := route _ _). destruct (decide (f = Norespond)) as [Ef|Ef].
  { rewrite Ef. simpl. exists 0, ks, rbuf. split_and!; auto. }
  assert (q_qdcount (qstn pkt) = 1) as Eqd.
  { rewrite Eq. unfold serviced in Es. bool_to_prop. done. }
  destruct (decide (f = Acme)) as [Ea|Ea].
  - destruct (acme_len _ _ Ea Hls) as [Hlen Hn4].
    destruct (Z.ltb_spec (Z.min (zlen ls) 6) 4) as [|_]; [unfold zlen in *; lia|].
    destruct (lookup_lt_is_Some_2 (reverse ls) 3) as [user Huser]; [rewrite length_reverse; lia|].
    rewrite (Harr 3 user) by (done || lia).
    assert (zlen user <= 63) as Hul.
    { apply list_elem_of_lookup_2 in Huser. rewrite elem_of_reverse in Huser. rewrite Forall_forall in Hls. apply Hls in Huser. lia. }
    destruct (Hkvp user ks Hul Hok) as (a & ks' & Ei & Hok' & Hav). rewrite Ei. cbn [fst snd].
    destruct (respond_spec fuel q pkt rcap ls it rbuf f a Eqd El Htl) as (n & b' & Er & Hn & Hzb & Htake & Hnl); [lia|lia|done| |].
    { intros _. split; [done|]. intros s ->. by apply Hav. }
    rewrite Er. cbn [fst snd]. exists n, ks', b'. split_and!; [done|done|done|]. right.
    exists pkt, ls, it, f, a. rewrite decide_True by done.
    split_and!; [done|done|done|done|done|by exists user|by rewrite Htake|by rewrite Htake|exact Hn].
  - cbn [fst snd].
    destruct (respond_spec fuel q pkt rcap ls it rbuf f NULL Eqd El Htl) as (n & b' & Er & Hn & Hzb & Htake & Hnl); [lia|lia|done|done|].
    rewrite Er. cbn [fst snd]. exists n, ks, b'. split_and!; [done|done|done|]. right.
    exists pkt, ls, it, f, NULL. rewrite decide_False by done.
    split_and!; [done|done|done|done|done|done|by rewrite Htake|by rewrite Htake|exact Hn].
Qed.

(** ** Rate limits *)

Record rrl_t := mkRrl { buckets : bytes; nbuckets : Z }.
Definition rrl_init (mem : bool) (n : Z) : res rrl_t :=
  if mem then Ok (mkRrl (replicate (Z.to_nat n) 0) n) else Err E_NOMEM.

Definition hash_uint (ukey : Z) : Z :=
  let ukey := u32 (ukey + u32 (Z.shiftl ukey 12)) in
  let ukey := Z.lxor ukey (Z.shiftr ukey 22) in
  let ukey := u32 (ukey + u32 (Z.shiftl ukey 4)) in
  let ukey := Z.lxor ukey (Z.shiftr ukey 9) in
  let ukey := u32 (ukey + u32 (Z.shiftl ukey 10)) in
  let ukey := Z.lxor ukey (Z.shiftr ukey 2) in
  let ukey := u32 (ukey + u32 (Z.shiftl ukey 7)) in
  let ukey := Z.lxor ukey (Z.shiftr ukey 12) in
  u32 (Z.land (Z.shiftr ukey 3 * 2654435761) 4294967295).

(** Socket addresses: IPv4, IPv6 by the first two words, or another family. *)
Inductive sockaddr := Inet (s_addr : Z) | Inet6 (key0 key1 : Z) | Other_family.
Definition hash_addr (sa : sockaddr) : res Z :=
  match sa with
  | Inet s_addr => Ok (hash_uint s_addr)
  | Inet6 key0 key1 => Ok (Z.lxor (hash_uint key0) (hash_uint key1))
  | Other_family => Stop Fatal
  end.

(** Whether this recipient is under the limit. *)
Definition rrl_check (sa : sockaddr) (now : Z) : stm rrl_t bool := fun rrl =>
  if nbuckets rrl =? 0 then (Ok true, rrl)
  else
    match hash_addr sa with
    | Ok h =>
        let hash := h mod nbuckets rrl in
        let window := Z.land (now / SECOND) 31 in
        match rd (buckets rrl) hash with
        | Ok bucket =>
            let set v := mkRrl (<[Z.to_nat hash := v]> (buckets rrl)) (nbuckets rrl) in
            let stamp := Z.land (Z.shiftr bucket 3) 31 in
            if negb (stamp =? window) then (Ok true, set (u8 (Z.shiftl window 3)))
            else
              let count := Z.land bucket 7 in
              if count =? 7 then (Ok false, rrl)
              else (Ok true, set (u8 (Z.lor (Z.shiftl window 3) (count + 1))))
        | Err e => (Err e, rrl)
        | Stop x => (Stop x, rrl)
        end
    | Err e => (Err e, rrl)
    | Stop x => (Stop x, rrl)
    end.

(** ** The main program *)

Record globals_t := mkGlobals {
  peers : list sockaddr; g_now : Z; g_recv : list kvpsync_recv_t; g_rrl : rrl_t; last_report : Z
}.

(** Prefer a confident yes to a confident no, and a confident no to unsure. *)
Fixpoint get_loop (now : Z) (key : bytes) (ans : answer) : stm (list kvpsync_recv_t) answer := fun rs =>
  match rs with
  | [] => (Ok ans, [])
  | r :: rs =>
      match kvpsync_recv_get_value now key r with
      | (Ok UNSURE, r') => let x := get_loop now key ans rs in (fst x, r' :: snd x)
      | (Ok (Answer v), r') => (Ok (Answer v), r' :: rs)
      | (Ok NULL, r') => let x := get_loop now key NULL rs in (fst x, r' :: snd x)
      | (Err e, r') => (Err e, r' :: rs)
      | (Stop x, r') => (Stop x, r' :: rs)
      end
  end.
Definition globals_kvp_iget (now : Z) : kvp_i (list kvpsync_recv_t) :=
  mkKvp (fun iuser =>
    if zlen iuser >? 63 then st_lift (Stop Fatal)
    else get_loop now (dstr_lower iuser) UNSURE).

Definition on_recv_dns (fuel : nat) (src : sockaddr) (q : bytes) (resp : bytes) : stm globals_t (option bytes) := fun g =>
  match rrl_check src (g_now g) (g_rrl g) with
  | (Ok ok, rrl) =>
      if negb ok then
        (Ok None, mkGlobals (peers g) (g_now g) (g_recv g) rrl
                    (if g_now g >? last_report g + 60 * 60 * SECOND then g_now g else last_report g))
      else
        let r := handle_packet fuel q (globals_kvp_iget (g_now g)) (g_recv g, resp) in
        let g := mkGlobals (peers g) (g_now g) (fst (snd r)) rrl (last_report g) in
        match fst r with
        | Ok rlen => (Ok (if rlen =? 0 then None else Some (take (Z.to_nat rlen) (snd (snd r)))), g)
        | Err e => (Err e, g)
        | Stop x => (Stop x, g)
        end
  | (Err e, rrl) => (Err e, mkGlobals (peers g) (g_now g) (g_recv g) rrl (last_report g))
  | (Stop x, rrl) => (Stop x, mkGlobals (peers g) (g_now g) (g_recv g) rrl (last_report g))
  end.

#[export] Instance sockaddr_eq_dec : EqDecision sockaddr.
Proof. solve_decision. Defined.

(** The first peer with this address. *)
Fixpoint find_peer (src : sockaddr) (l : list sockaddr) (i : nat) : option nat :=
  match l with
  | [] => None
  | p :: l => if bool_decide (src = p) then Some i else find_peer src l (S i)
  end.

Definition MEMBUFSIZE : Z := 4096.
Definition on_recv_sync `{Alloc} (mem : bool) (src : sockaddr) (rbuf : bytes) : stm globals_t (option bytes) := fun g =>
  match find_peer src (peers g) 0 with
  | None => (Ok None, g)
  | Some i =>
      match kvpsync_update_read rbuf, g_recv g !! i with
      | Ok (ok, update), Some r =>
          if negb ok then (Ok None, g)
          else
            let x := kvpsync_recv_handle_update mem (g_now g) update r in
            let g := mkGlobals (peers g) (g_now g) (<[i := snd x]> (g_recv g)) (g_rrl g) (last_report g) in
            match fst x with
            | Ok ack =>
                match kvpsync_ack_write ack (mkD [] MEMBUFSIZE true) with
                | (Ok _, wbuf) => (Ok (Some (d_data wbuf)), g)
                | (Err e, _) => (Err (if decide (e = E_FIXEDSIZE) then E_INTERNAL else e), g)
                | (Stop s, _) => (Stop s, g)
                end
            | Err e => (Err e, g)
            | Stop s => (Stop s, g)
            end
      | Ok _, None => (Stop OutOfBounds, g)
      | Err e, _ => (Err e, g)
      | Stop s, _ => (Stop s, g)
      end
  end.

(** A datagram, when it arrives and from whom; each has a response buffer. *)
Inductive datagram :=
| DnsQuery (now : Z) (src : sockaddr) (q : bytes) (resp : bytes)
| SyncPacket (now : Z) (src : sockaddr) (rbuf : bytes).
Definition at_time (now : Z) (g : globals_t) : globals_t :=
  mkGlobals (peers g) now (g_recv g) (g_rrl g) (last_report g).
Definition on_recv `{Alloc} (fuel : nat) (d : datagram) : stm globals_t (option bytes) := fun g =>
  match d with
  | DnsQuery now src q resp => on_recv_dns fuel src q resp (at_time now g)
  | SyncPacket now src rbuf => on_recv_sync true src rbuf (at_time now g)
  end.
Fixpoint serve `{Alloc} (fuel : nat) (ds : list datagram) : stm globals_t (list (option bytes)) :=
  match ds with
  | [] => st_ret []
  | d :: ds => do! o := on_recv fuel d in do! os := serve fuel ds in st_ret (o :: os)
  end.

(** ** The rate limit *)

Definition window (now : Z) : Z := Z.land (now / SECOND) 31.
(** What a bucket still allows in a window. *)
Definition allowance (w bucket : Z) : Z :=
  if bucket / 8 =? w then 7 - bucket mod 8 else 8.

Lemma bucket_bits b : is_byte b -> Z.land (Z.shiftr b 3) 31 = b / 8 /\ Z.land b 7 = b mod 8.
Proof.
  intros Hb. unfold is_byte in Hb.
  assert (forallb (fun b => (Z.land (Z.shiftr b 3) 31 =? b / 8) && (Z.land b 7 =? b mod 8)) (seqZ 0 256) = true) as H
    by (vm_compute; done).
  rewrite forallb_forall in H. assert (In b (seqZ 0 256)) as Hin by (apply list_elem_of_In, elem_of_seqZ; lia).
  apply H in Hin. bool_to_prop. lia.
Qed.

Lemma bucket_made w c : 0 <= w < 32 -> 0 <= c < 8 ->
  let v := u8 (Z.lor (Z.shiftl w 3) c) in is_byte v /\ v / 8 = w /\ v mod 8 = c.
Proof.
  intros Hw Hc. assert (forallb (fun w => forallb (fun c =>
      let v := u8 (Z.lor (Z.shiftl w 3) c) in (0 <=? v) && (v <? 256) && (v / 8 =? w) && (v mod 8 =? c)) (seqZ 0 8)) (seqZ 0 32) = true) as H
    by (vm_compute; done).
  rewrite forallb_forall in H. assert (In w (seqZ 0 32)) as Hin by (apply list_elem_of_In, elem_of_seqZ; lia).
  apply H in Hin. rewrite forallb_forall in Hin. assert (In c (seqZ 0 8)) as Hic by (apply list_elem_of_In, elem_of_seqZ; lia).
  apply Hin in Hic. cbn zeta in Hic. bool_to_prop. unfold is_byte. lia.
Qed.

Lemma window_range now : 0 <= window now < 32.
Proof. unfold window. change 31 with (Z.ones 5). rewrite Z.land_ones by lia. apply Z.mod_pos_bound. lia. Qed.

Record rrl_ok (r : rrl_t) : Prop := {
  ro_len : zlen (buckets r) = nbuckets r;
  ro_bytes : is_bytes (buckets r)
}.

Lemma rrl_init_ok mem n r : rrl_init mem n = Ok r -> 0 <= n -> rrl_ok r.
Proof.
  unfold rrl_init. destruct mem; [|done]. intros [= <-] Hn. constructor; simpl.
  - unfold zlen. rewrite length_replicate. lia.
  - apply Forall_replicate. unfold is_byte. lia.
Qed.

(** One check: the bucket of the address loses one from its allowance, if it has any. *)
Lemma rrl_check_spec sa h now r :
  rrl_ok r -> hash_addr sa = Ok h -> nbuckets r <> 0 ->
  let i := Z.to_nat (h mod nbuckets r) in
  exists ok r', rrl_check sa now r = (Ok ok, r') /\ rrl_ok r' /\ nbuckets r' = nbuckets r /\
    exists b b', buckets r !! i = Some b /\ buckets r' = <[i := b']> (buckets r) /\
      0 <= allowance (window now) b <= 8 /\ (ok = true <-> 0 < allowance (window now) b) /\
      allowance (window now) b' = allowance (window now) b - (if ok then 1 else 0).
Proof.
  intros [Hl Hb] Hh Hn i. unfold rrl_check. rewrite Hh. destruct (Z.eqb_spec (nbuckets r) 0); [done|].
  pose proof (zlen_nonneg (buckets r)) as Hpos.
  destruct (Z.mod_pos_bound h (nbuckets r)) as [H1 H2]; [lia|].
  destruct (rd_ok (buckets r) (h mod nbuckets r)) as (b & E & El); [lia|]. rewrite E. fold i in El. fold (window now).
  pose proof (rd_is_byte _ _ _ Hb E) as Hby. destruct (bucket_bits b Hby) as [-> ->].
  pose proof (window_range now) as Hw. unfold is_byte in Hby.
  assert (0 <= b mod 8 < 8) as Hc by (apply Z.mod_pos_bound; lia).
  assert (forall v, is_byte v -> rrl_ok (mkRrl (<[i := v]> (buckets r)) (nbuckets r))) as Hset.
  { intros v Hv. constructor; simpl; [unfold zlen in *; by rewrite length_insert|by apply Forall_insert]. }
  assert (is_byte (u8 (Z.shiftl (window now) 3)) /\ u8 (Z.shiftl (window now) 3) / 8 = window now /\ u8 (Z.shiftl (window now) 3) mod 8 = 0) as (Hv1 & Hv2 & Hv3).
  { pose proof (bucket_made (window now) 0 Hw ltac:(lia)) as Hv. by rewrite Z.lor_0_r in Hv. }
  destruct (Z.eqb_spec (b / 8) (window now)) as [Eq|Ne]; cbn [negb].
  - destruct (Z.eqb_spec (b mod 8) 7) as [E7|N7].
    + exists false, r. split_and!; [done|by constructor|done|]. exists b, b. unfold allowance. rewrite Eq, Z.eqb_refl.
      split_and!; [done|by rewrite list_insert_id|lia|lia|split; [done|lia]|lia].
    + destruct (bucket_made (window now) (b mod 8 + 1) Hw ltac:(lia)) as (Hv & Hv8 & Hvm).
      eexists true, _. split_and!; [done|by apply Hset|done|]. exists b. eexists. split; [done|]. split; [done|].
      unfold allowance. rewrite Hv8, Hvm, Eq, Z.eqb_refl. split_and!; lia.
  - eexists true, _. split_and!; [done|by apply Hset|done|]. exists b. eexists. split; [done|]. split; [done|].
    unfold allowance. rewrite Hv2, Hv3, Z.eqb_refl. rewrite (proj2 (Z.eqb_neq _ _) Ne). split_and!; lia.
Qed.

(** Checks for a list of addresses and times. *)
Fixpoint rrl_checks (l : list (sockaddr * Z)) : stm rrl_t (list bool) :=
  match l with
  | [] => st_ret []
  | x :: l => do! ok := rrl_check (fst x) (snd x) in do! oks := rrl_checks l in st_ret (ok :: oks)
  end.
(** How many of the checks in bucket [i] passed. *)
Fixpoint passed (n : Z) (i : Z) (l : list (sockaddr * Z)) (oks : list bool) : Z :=
  match l, oks with
  | x :: l, ok :: oks =>
      (match hash_addr (fst x) with Ok h => if (h mod n =? i) && ok then 1 else 0 | _ => 0 end) + passed n i l oks
  | _, _ => 0
  end.
Fixpoint asked (n : Z) (i : Z) (l : list (sockaddr * Z)) : Z :=
  match l with
  | x :: l => (match hash_addr (fst x) with Ok h => if h mod n =? i then 1 else 0 | _ => 0 end) + asked n i l
  | [] => 0
  end.

Lemma asked_nonneg n i l : 0 <= asked n i l.
Proof. induction l as [|x l IH]; simpl; [lia|]. destruct (hash_addr (fst x)); [destruct (_ =? _)| |]; lia. Qed.

Lemma rrl_checks_spec w i l : forall r,
  rrl_ok r -> 0 <= i < nbuckets r -> Forall (fun x => window (snd x) = w /\ exists h, hash_addr (fst x) = Ok h) l ->
  exists oks r', rrl_checks l r = (Ok oks, r') /\ rrl_ok r' /\ nbuckets r' = nbuckets r /\
    exists b, buckets r !! Z.to_nat i = Some b /\ passed (nbuckets r) i l oks = Z.min (asked (nbuckets r) i l) (allowance w b).
Proof.
  induction l as [|x l IH]; intros r Hr Hi Hl.
  - exists [], r. split_and!; try done. destruct (lookup_lt_is_Some_2 (buckets r) (Z.to_nat i)) as [b Eb].
    { pose proof (ro_len r Hr). unfold zlen in *. lia. }
    exists b. split; [done|]. simpl. unfold allowance. pose proof (Z.mod_pos_bound b 8). destruct (_ =? w); lia.
  - apply Forall_cons in Hl as [[Hw [h Hh]] Hl]. cbn [rrl_checks].
    destruct (rrl_check_spec (fst x) h (snd x) r Hr Hh) as (ok & r1 & E1 & Hr1 & En & b & b' & Eb & Eb' & Hal & Hok & Hal'); [lia|].
    rewrite (st_run _ _ _ _ _ E1). destruct (IH r1 Hr1) as (oks & r2 & E2 & Hr2 & En2 & c & Ec & Hp); [lia|done|].
    rewrite (st_run _ _ _ _ _ E2). exists (ok :: oks), r2. split_and!; [done|done|congruence|].
    rewrite En in Hp. cbn [passed asked]. rewrite Hh. pose proof (asked_nonneg (nbuckets r) i l) as Hask. rewrite Hw in *.
    destruct (Z.eqb_spec (h mod nbuckets r) i) as [Ei|Ne]; cbn [andb].
    + rewrite Ei in Eb, Eb'. rewrite Eb', list_lookup_insert_eq in Ec by (apply lookup_lt_is_Some_1; eauto). injection Ec as <-.
      exists b. split; [done|]. rewrite Hp. destruct ok; [lia|]. assert (~ 0 < allowance w b) by (intros ?; by apply Hok in H). lia.
    + rewrite Eb', list_lookup_insert_ne in Ec by (intros ?; apply Ne; pose proof (Z.mod_pos_bound h (nbuckets r)); lia).
      exists c. split; [done|]. rewrite Hp. lia.
Qed.

(** C19: in one second, of the packets whose addresses share a bucket exactly the first
    ones pass, as many as the bucket has left and at most 8; the table is never
    left and its counters never overflow into their time stamps. *)
Theorem rrl_limit n r0 before r w i l :
  rrl_init true n = Ok r0 -> 0 <= i < n -> Forall (fun x => exists h, hash_addr (fst x) = Ok h) before ->
  (exists oks, rrl_checks before r0 = (Ok oks, r)) ->
  Forall (fun x => window (snd x) = w /\ exists h, hash_addr (fst x) = Ok h) l ->
  exists oks r', rrl_checks l r = (Ok oks, r') /\ exists b, buckets r !! Z.to_nat i = Some b /\
    passed n i l oks = Z.min (asked n i l) (allowance w b) /\ 0 <= allowance w b <= 8.
Proof.
  intros E0 Hi Hbf [oks0 Eb] Hl. pose proof (rrl_init_ok _ _ _ E0 ltac:(lia)) as H0.
  assert (nbuckets r0 = n) as En by (by injection E0 as <-).
  assert (rrl_ok r /\ nbuckets r = n) as [Hr Hn].
  { clear E0. revert r0 oks0 Eb H0 En. induction before as [|x before IH]; intros r0 oks0 Eb H0 En; [by injection Eb as _ <-|].
    apply Forall_cons in Hbf as [[h Hh] Hbf].
    destruct (rrl_check_spec (fst x) h (snd x) r0 H0 Hh) as (ok & r1 & E1 & Hr1 & En1 & _); [lia|].
    cbn [rrl_checks] in Eb. rewrite (st_run _ _ _ _ _ E1) in Eb. apply st_bind_ok in Eb as (oks & r2 & E2 & E3).
    injection E3 as _ <-. apply (IH Hbf r1 oks E2 Hr1). congruence. }
  destruct (rrl_checks_spec w i l r Hr) as (oks & r' & E & _ & _ & b & Hb & Hp); [lia|done|].
  exists oks, r'. split; [done|]. exists b. rewrite Hn in Hp. split_and!; try done; unfold allowance;
    pose proof (Z.mod_pos_bound b 8); destruct (_ =? w); lia.
Qed.

Lemma rrl_limit_witness :
  exists oks r', rrl_checks (replicate 10 (Inet 16777343, 5 * SECOND)) (mkRrl (zeros 100) 100) = (Ok oks, r') /\
    passed 100 61 (replicate 10 (Inet 16777343, 5 * SECOND)) oks <= 8.
Proof.
  destruct (rrl_limit 100 (mkRrl (zeros 100) 100) [] (mkRrl (zeros 100) 100) 5 61 (replicate 10 (Inet 16777343, 5 * SECOND)))
    as (oks & r' & E & b & _ & Hp & Ha); [reflexivity|lia|constructor|by exists []| |].
  - apply Forall_replicate. split; [reflexivity|by eexists].
  - exists oks, r'. split; [exact E|]. rewrite Hp. lia.
Defined.

(** ** The server *)

(** Each receiver is well formed for the log of the sender it listens to. *)
Definition globals_ok (logs : list sender_log) (n : Z) (g : globals_t) : Prop :=
  Forall2 wf logs (g_recv g) /\ length (peers g) = length (g_recv g) /\ rrl_ok (g_rrl g) /\ nbuckets (g_rrl g) = n.

Lemma get_loop_ok logs now key ans rs :
  Forall honest logs -> Forall2 wf logs rs -> (forall v, ans = Answer v -> zlen v <= 255) ->
  exists a rs', get_loop now key ans rs = (Ok a, rs') /\ Forall2 wf logs rs' /\ (forall v, a = Answer v -> zlen v <= 255).
Proof.
  intros Hh Hw. revert ans. induction Hw as [|log r logs rs Hr Hw IH]; intros ans Ha; [by exists ans, []|].
  apply Forall_cons in Hh as [Hlog Hh]. cbn [get_loop].
  destruct (get_value_wf log now key r Hlog Hr) as (a & r' & -> & Hr' & _ & Hv).
  destruct a as [| |v].
  - destruct (IH Hh NULL) as (a & rs' & -> & Hrs & Hva); [done|]. exists a, (r' :: rs'). split_and!; [done|by constructor|done].
  - destruct (IH Hh ans Ha) as (a & rs' & -> & Hrs & Hva). exists a, (r' :: rs'). split_and!; [done|by constructor|done].
  - exists (Answer v), (r' :: rs). split_and!; [done|by constructor|done].
Qed.

Lemma globals_kvp_ok logs now : Forall honest logs -> kvp_ok (globals_kvp_iget now) (fun rs => Forall2 wf logs rs).
Proof.
  intros Hh user rs Hu Hrs. unfold globals_kvp_iget. cbn [iget].
  destruct (Z.gtb_spec (zlen user) 63); [lia|]. by apply get_loop_ok.
Qed.

(** Datagrams that the receivers and the parser are made for. *)
Definition datagram_ok (logs : list sender_log) (ps : list sockaddr) (d : datagram) : Prop :=
  match d with
  | DnsQuery now src q resp =>
      (exists h, hash_addr src = Ok h) /\ is_bytes q /\ zlen q <= MEMBUFSIZE /\ zlen resp = MEMBUFSIZE /\ one_addl q /\ one_qstn q
  | SyncPacket now src rbuf =>
      is_bytes rbuf /\ 0 <= now < 2 ^ 63 /\
      forall i log u, find_peer src ps 0 = Some i -> logs !! i = Some log -> kvpsync_update_read rbuf = Ok (true, u) ->
        log (sync_id u) (update_id u) = Some (strip u)
  end.

(** The response to a datagram. *)
Definition response_ok (fuel : nat) (d : datagram) (o : option bytes) : Prop :=
  match d, o with
  | DnsQuery now src q resp, Some text =>
      exists rs rs', served fuel q (globals_kvp_iget now) rs MEMBUFSIZE (zlen text) rs' text
  | SyncPacket now src rbuf, Some text => exists ack, text = ack_text ack
  | _, None => True
  end.

Lemma find_peer_lt src l i k : find_peer src l i = Some k -> (i <= k < i + length l)%nat.
Proof.
  revert i. induction l as [|p l IH]; intros i; [done|]. cbn [find_peer].
  destruct (bool_decide _); [intros [= <-]; simpl; lia|]. intros H. apply IH in H. simpl. lia.
Qed.

Lemma on_recv_sync_ok `{Alloc} logs n src rbuf g :
  Forall honest logs -> globals_ok logs n g -> datagram_ok logs (peers g) (SyncPacket (g_now g) src rbuf) ->
  exists o g', on_recv_sync true src rbuf g = (Ok o, g') /\ globals_ok logs n g' /\ peers g' = peers g /\
    match o with Some text => exists ack, text = ack_text ack | None => True end.
Proof.
  intros Hh (Hw & Hp & Hr & Hn) (Hb & Hnow & Hlog). unfold on_recv_sync.
  destruct (find_peer src (peers g) 0) as [i|] eqn:Ei; [|by exists None, g].
  pose proof (find_peer_lt _ _ _ _ Ei) as Hlt.
  destruct (update_read_sound rbuf rbuf (left_at_start _) Hb) as (ok & u & Eu & _). rewrite Eu.
  destruct (lookup_lt_is_Some_2 (g_recv g) i) as [r Er]; [lia|]. rewrite Er.
  destruct ok; cbn [negb]; [|by exists None, g].
  destruct (Forall2_lookup_r _ _ _ _ _ Hw Er) as (log & El & Hwr).
  assert (honest log) as Hhl by (rewrite Forall_lookup in Hh; eauto).
  destruct (handle_update_wf log true (g_now g) u r Hhl (Hlog i log u eq_refl El Eu) Hnow Hwr) as (res & r' & -> & Hw' & Hres).
  destruct Hres as [[ack ->]|[? _]]; [|done]. cbn [fst snd].
  destruct (appends_ack ack (mkD [] MEMBUFSIZE true) 0) as (d' & Ed & Edata & _).
  { unfold ack_text. by vm_compute. }
  { lia. }
  rewrite Ed. eexists _, _. split_and!; [done| |done|].
  - split_and!; [|simpl; by rewrite length_insert|done|done]. simpl.
    rewrite <- (list_insert_id logs i log El). by apply Forall2_insert.
  - exists ack. by rewrite Edata.
Qed.

Lemma on_recv_dns_ok logs n fuel src q resp g :
  Forall honest logs -> globals_ok logs n g -> 0 < n -> (NAME_FUEL <= fuel)%nat ->
  datagram_ok logs (peers g) (DnsQuery (g_now g) src q resp) ->
  exists o g', on_recv_dns fuel src q resp g = (Ok o, g') /\ globals_ok logs n g' /\ peers g' = peers g /\
    match o with Some text => exists rs rs', served fuel q (globals_kvp_iget (g_now g)) rs MEMBUFSIZE (zlen text) rs' text | None => True end.
Proof.
  intros Hh (Hw & Hp & Hr & Hn) Hn0 Hf ((h & Hsrc) & Hb & Hq & Hresp & H1 & Hq1). unfold on_recv_dns, MEMBUFSIZE in *.
  destruct (rrl_check_spec src h (g_now g) (g_rrl g) Hr Hsrc) as (ok & r' & -> & Hr' & Hn' & _); [lia|].
  destruct ok; cbn [negb].
  2:{ eexists None, _. split_and!; [done| |done|done]. split_and!; try done; simpl; congruence. }
  destruct (handle_packet_spec fuel q (globals_kvp_iget (g_now g)) (fun rs => Forall2 wf logs rs) (g_recv g) resp)
    as (k & rs' & resp' & E & Hzr & Hrs & Hk); [done|lia|done|done|done|lia|by apply globals_kvp_ok|done|].
  rewrite E. cbn [fst snd]. eexists _, _. split; [done|]. split_and!; [|done|].
  - split_and!; simpl; [done| |done|congruence]. pose proof (Forall2_length _ _ _ Hw). pose proof (Forall2_length _ _ _ Hrs). lia.
  - destruct (Z.eqb_spec k 0) as [|Hk0]; [done|]. destruct Hk as [(? & _)|Hs]; [done|].
    exists (g_recv g), rs'. rewrite Hresp in Hs. destruct Hs as (pkt & ls & it & f & a & S1 & S2 & S3 & S4 & S5 & S6 & S7 & S8 & S9).
    exists pkt, ls, it, f, a. split_and!; try done. lia.
Qed.



(** ** Reading back what was written *)

Lemma rd_text (a : bytes) x b : rd (a ++ x :: b) (zlen a) = Ok x.
Proof.
  unfold rd. rewrite decide_True by apply zlen_nonneg. unfold zlen. rewrite Nat2Z.id, lookup_app_r by lia.
  by rewrite Nat.sub_diag.
Qed.

Lemma be_bytes_1 n : 0 <= n < 256 -> be_bytes 1 n = [n].
Proof.
  intros Hn. change (be_bytes 1 n) with [Z.land (Z.shiftr n 0) 255]. rewrite Z.shiftr_0_r. change 255 with (Z.ones 8). rewrite Z.land_ones by lia.
  by rewrite Z.mod_small by lia.
Qed.

Lemma be_bytes_2 n : 0 <= n < 65536 -> be_bytes 2 n = [n / 256; n mod 256].
Proof.
  intros Hn. change (be_bytes 2 n) with [Z.land (Z.shiftr n 8) 255; Z.land (Z.shiftr n 0) 255].
  rewrite Z.shiftr_0_r, Z.shiftr_div_pow2 by lia. change 255 with (Z.ones 8). rewrite !Z.land_ones by lia.
  change (2 ^ 8) with 256. rewrite (Z.mod_small (n / 256)); [done|].
  split; [apply Z.div_pos; lia|apply Z.div_lt_upper_bound; lia].
Qed.

Lemma rd16_text a n b : 0 <= n < 65536 -> rd16 (a ++ be_bytes 2 n ++ b) (zlen a) = Ok n.
Proof.
  intros Hn. rewrite be_bytes_2 by done. cbn [app]. unfold rd16. rewrite rd_text. cbn [res_bind].
  assert (rd (a ++ n / 256 :: n mod 256 :: b) (zlen a + 1) = Ok (n mod 256)) as ->.
  { pose proof (rd_text (a ++ [n / 256]) (n mod 256) b) as E. rewrite zlen_app, <- app_assoc in E. exact E. }
  cbn [res_bind]. rewrite shift_lor by (pose proof (Z.mod_pos_bound n 256); lia).
  change (2 ^ 8) with 256. rewrite (Z.div_mod n 256) at 3 by lia. f_equal. lia.
Qed.

Definition good_labels (ls : list lstr_t) : Prop := Forall (fun l : lstr_t => 0 < zlen l <= 63 /\ is_bytes l) ls.

Lemma zlen_name_text ls : zlen (name_text ls) = text_len ls + 1.
Proof. unfold name_text. by rewrite zlen_app, zlen_labels_text. Qed.

Lemma name_text_cons l ls : 0 < zlen l <= 63 -> name_text (l :: ls) = [zlen l] ++ l ++ name_text ls.
Proof. intros Hl. unfold name_text. cbn [labels_text]. rewrite be_bytes_1 by lia. by rewrite <- !app_assoc. Qed.

Lemma slice_text {X} (a t b : list X) i n : i = zlen a -> n = zlen t -> slice (a ++ t ++ b) i n = t.
Proof.
  intros -> ->. unfold slice, zlen. rewrite !Nat2Z.id, drop_app_length. by rewrite take_app_length.
Qed.

(** A written name is the name at its position. *)
Lemma name_at_text ls : forall a b, good_labels ls ->
  name_at (a ++ name_text ls ++ b) (zlen a) ls (zlen a + text_len ls + 1) (S (length ls)).
Proof.
  induction ls as [|l ls IH]; intros a b Hls.
  { cbn [text_len fold_right]. rewrite Z.add_0_r. apply name_end. apply (rd_text a 0 b). }
  apply Forall_cons in Hls as [[Hl Hlb] Hls]. rewrite name_text_cons by done.
  set (p := a ++ _ ++ b).
  assert (p = (a ++ [zlen l] ++ l) ++ name_text ls ++ b) as Ep by (unfold p; by rewrite <- !app_assoc).
  assert (slice p (zlen a + 1) (zlen l) = l) as Es.
  { replace p with ((a ++ [zlen l]) ++ l ++ name_text ls ++ b) by (unfold p; by rewrite <- !app_assoc).
    apply slice_text; [by rewrite zlen_app|done]. }
  pose proof (IH (a ++ [zlen l] ++ l) b Hls) as H. rewrite <- Ep in H. rewrite !zlen_app in H. change (zlen [zlen l]) with 1 in H.
  cbn [length text_len fold_right]. fold (text_len ls).
  pose proof (name_label p (zlen a) (zlen l) ls (zlen a + (1 + zlen l) + text_len ls + 1) (S (length ls))) as Hn.
  rewrite Es in Hn.
  replace (zlen a + (zlen l + 1 + text_len ls) + 1) with (zlen a + (1 + zlen l) + text_len ls + 1) by lia.
  apply Hn; [unfold p; apply rd_text|lia| |by rewrite <- Z.add_assoc].
  rewrite Ep, !zlen_app. change (zlen [zlen l]) with 1. pose proof (zlen_nonneg (name_text ls)). pose proof (zlen_nonneg b). lia.
Qed.

(** And parsing accepts it. *)
Lemma parse_text ls : forall fuel a b after was pre len, good_labels ls -> (length ls < fuel)%nat -> len + text_len ls + 1 <= 255 ->
  parse_name_loop fuel (a ++ name_text ls ++ b) (zlen a) after was pre len = Ok (if after then pre else zlen a + text_len ls + 1).
Proof.
  induction ls as [|l ls IH]; intros [|f] a b after was pre len Hls Hf Hlen; try (simpl in Hf; lia).
  - cbn [parse_name_loop]. rewrite !zlen_app. change (zlen (name_text [])) with 1. pose proof (zlen_nonneg b).
    destruct (Z.ltb_spec (zlen a + (1 + zlen b)) (zlen a + 1)); [lia|].
    change (name_text [] ++ b) with (0 :: b). rewrite rd_text. cbn [res_bind].
    change (Z.land 0 192 =? 192) with false. change (0 >? 63) with false. cbn iota.
    destruct (Z.ltb_spec (zlen a + (1 + zlen b)) (zlen a + 1 + 0)); [lia|]. cbn [text_len fold_right] in *.
    destruct (Z.gtb_spec (len + (0 + 1)) 255); [lia|]. by rewrite !Z.add_0_r.
  - apply Forall_cons in Hls as [[Hl Hlb] Hls]. rewrite name_text_cons by done.
    cbn [text_len fold_right] in *. fold (text_len ls) in *. pose proof (text_len_nonneg ls).
    set (p := a ++ _ ++ b).
    assert (p = (a ++ [zlen l] ++ l) ++ name_text ls ++ b) as Ep by (unfold p; by rewrite <- !app_assoc).
    assert (zlen p = zlen a + (1 + zlen l) + zlen (name_text ls) + zlen b) as Hp by (rewrite Ep, !zlen_app; change (zlen [zlen l]) with 1; lia).
    pose proof (zlen_nonneg (name_text ls)). pose proof (zlen_nonneg b).
    cbn [parse_name_loop]. destruct (Z.ltb_spec (zlen p) (zlen a + 1)); [lia|].
    assert (rd p (zlen a) = Ok (zlen l)) as -> by (unfold p; apply rd_text). cbn [res_bind].
    rewrite label_bits by (unfold is_byte; lia). destruct (Z.leb_spec 192 (zlen l)); [lia|].
    destruct (Z.gtb_spec (zlen l) 63); [lia|]. destruct (Z.ltb_spec (zlen p) (zlen a + 1 + zlen l)); [lia|].
    destruct (Z.gtb_spec (len + (zlen l + 1)) 255); [lia|]. destruct (Z.eqb_spec (zlen l) 0); [lia|].
    rewrite Ep. replace (zlen a + 1 + zlen l) with (zlen (a ++ [zlen l] ++ l)) by (rewrite !zlen_app; change (zlen [zlen l]) with 1; lia).
    rewrite IH by (done || simpl in *; lia). f_equal. destruct after; [done|]. rewrite !zlen_app. change (zlen [zlen l]) with 1. lia.
Qed.

Lemma good_labels_len ls : good_labels ls -> Z.of_nat (length ls) <= text_len ls.
Proof.
  induction 1 as [|l ls [Hl _] _ IH]; [done|]. cbn [length text_len fold_right]. fold (text_len ls). lia.
Qed.

Lemma parse_name_text ls a b : good_labels ls -> text_len ls + 1 <= 255 -> zlen (a ++ name_text ls ++ b) < 2 ^ 63 ->
  parse_name (a ++ name_text ls ++ b) (zlen a) = Ok (zlen a + zlen (name_text ls)).
Proof.
  intros Hls Hlen Hsz. pose proof (good_labels_len ls Hls). unfold parse_name.
  rewrite (good_position _ (zlen a) Hsz) by (rewrite !zlen_app; pose proof (zlen_nonneg (name_text ls)); pose proof (zlen_nonneg b); lia).
  rewrite parse_text by (done || unfold NAME_FUEL; lia). rewrite zlen_name_text. f_equal. lia.
Qed.

(** A pointer to the name after the header. *)
Lemma parse_name_ptr ls p a c H b :
  p = a ++ name_ptr_text ++ c -> p = H ++ name_text ls ++ b -> zlen H = 12 -> good_labels ls -> text_len ls + 1 <= 255 -> zlen p < 2 ^ 63 ->
  parse_name p (zlen a) = Ok (zlen a + 2).
Proof.
  intros Ea EH HH Hls Hlen Hsz. pose proof (good_labels_len ls Hls). pose proof (zlen_nonneg c). pose proof (zlen_nonneg a).
  assert (zlen p = zlen a + (2 + zlen c)) as Hp by (rewrite Ea, !zlen_app; done).
  unfold parse_name. rewrite (good_position p (zlen a) Hsz) by lia.
  assert (exists f, NAME_FUEL = S f /\ (255 < f)%nat) as (f & -> & Hf) by (exists 511%nat; unfold NAME_FUEL; split; [done|lia]).
  cbn [parse_name_loop].
  destruct (Z.ltb_spec (zlen p) (zlen a + 1)); [lia|].
  assert (rd p (zlen a) = Ok 192) as -> by (rewrite Ea; apply (rd_text a 192 ([12] ++ c))). cbn [res_bind].
  change (Z.land 192 192 =? 192) with true. cbn iota. destruct (Z.ltb_spec (zlen p) (zlen a + 1 + 1)); [lia|].
  assert (rd p (zlen a + 1) = Ok 12) as ->.
  { rewrite Ea. pose proof (rd_text (a ++ [192]) 12 c) as E. rewrite zlen_app, <- app_assoc in E. exact E. }
  cbn [res_bind]. change (Z.lor (Z.shiftl (Z.land 192 63) 8) 12) with 12. rewrite <- HH, EH.
  rewrite parse_text by (done || lia). f_equal. lia.
Qed.

(** A record: a pointer to the question's name or a name of its own, a header and data. *)
Definition record_hdr (ty cl ttl len : Z) : bytes := be_bytes 2 ty ++ be_bytes 2 cl ++ be_bytes 4 ttl ++ be_bytes 2 len.
Definition is_record (t : bytes) : Prop :=
  exists n ty cl ttl d, t = n ++ record_hdr ty cl ttl (zlen d) ++ d /\ zlen d < 65536 /\
    (n = name_ptr_text \/ exists ls, n = name_text ls /\ good_labels ls /\ text_len ls + 1 <= 255).

Lemma zlen_record_hdr ty cl ttl len : zlen (record_hdr ty cl ttl len) = 10.
Proof. unfold record_hdr. by rewrite !zlen_app, !be_bytes_length. Qed.

Lemma rd16_record_hdr a ty cl ttl len c : 0 <= len < 65536 ->
  rd16 (a ++ record_hdr ty cl ttl len ++ c) (zlen a + 8) = Ok len.
Proof.
  intros Hl. unfold record_hdr.
  pose proof (rd16_text (a ++ be_bytes 2 ty ++ be_bytes 2 cl ++ be_bytes 4 ttl) len c Hl) as E.
  rewrite !zlen_app, !be_bytes_length in E. rewrite <- !app_assoc in *. exact E.
Qed.

Section reading.
Context (p H b : bytes) (ls : list lstr_t).
Context (Ep : p = H ++ name_text ls ++ b) (HH : zlen H = 12) (Hls : good_labels ls) (Hlen : text_len ls + 1 <= 255).
Context (Hsz : zlen p < 2 ^ 63).

Lemma parse_name_of_record n a c : p = a ++ n ++ c ->
  (n = name_ptr_text \/ exists ls, n = name_text ls /\ good_labels ls /\ text_len ls + 1 <= 255) ->
  parse_name p (zlen a) = Ok (zlen a + zlen n).
Proof.
  intros Ea [->|(k & -> & Hk & Hkl)].
  - exact (parse_name_ptr ls p a c H b Ea Ep HH Hls Hlen Hsz).
  - rewrite Ea in *. by apply parse_name_text.
Qed.

Lemma parse_record k t a c : p = a ++ t ++ c -> is_record t ->
  parse_rrs (S k) p (zlen a) = parse_rrs k p (zlen a + zlen t).
Proof.
  intros Ea (n & ty & cl & t0 & d & Et & Hd & Hn). rewrite Et in *. cbn [parse_rrs].
  assert (p = a ++ n ++ (record_hdr ty cl t0 (zlen d) ++ d ++ c)) as Ea' by (rewrite Ea; by rewrite <- !app_assoc).
  rewrite (parse_name_of_record n a _ Ea' Hn). cbn [res_bind].
  assert (zlen p = zlen a + zlen n + 10 + zlen d + zlen c) as Hp by (rewrite Ea', !zlen_app, zlen_record_hdr; lia).
  pose proof (zlen_nonneg d). pose proof (zlen_nonneg c).
  rewrite (good_position p (zlen a + zlen n) Hsz) by lia.
  destruct (Z.ltb_spec (zlen p) (zlen a + zlen n + 10)); [lia|].
  assert (rd16 p (zlen a + zlen n + 8) = Ok (zlen d)) as ->.
  { rewrite Ea', app_assoc, <- zlen_app. apply rd16_record_hdr. lia. }
  cbn [res_bind]. destruct (Z.ltb_spec (zlen p) (zlen a + zlen n + 10 + zlen d)); [lia|].
  f_equal. rewrite !zlen_app, zlen_record_hdr. lia.
Qed.

Lemma parse_records ts : forall a c, p = a ++ concat ts ++ c -> Forall is_record ts ->
  parse_rrs (length ts) p (zlen a) = Ok (zlen a + zlen (concat ts)).
Proof.
  induction ts as [|t ts IH]; intros a c Ea Hts; [simpl; f_equal; change (zlen (@nil Z)) with 0; lia|].
  apply Forall_cons in Hts as [Ht Hts]. cbn [concat length] in *. rewrite <- app_assoc in Ea.
  rewrite (parse_record _ t a _ Ea Ht), <- zlen_app, (IH (a ++ t) c); [|by rewrite <- app_assoc|done].
  rewrite !zlen_app. f_equal. lia.
Qed.

Lemma parse_section ts a c n : p = a ++ concat ts ++ c -> Forall is_record ts -> n = zlen ts ->
  parse_rr n p (zlen a) = Ok (zlen a + zlen (concat ts), mkDnsRr (zlen a) (zlen (concat ts)) n).
Proof.
  intros Ea Hts ->. unfold parse_rr.
  assert (zlen p = zlen a + zlen (concat ts) + zlen c) as Hp by (rewrite Ea, !zlen_app; lia).
  pose proof (zlen_nonneg c). pose proof (zlen_nonneg (concat ts)).
  rewrite (good_position p (zlen a) Hsz) by lia. unfold zlen at 1. rewrite Nat2Z.id, (parse_records ts a c Ea Hts). cbn [res_bind].
  rewrite (good_position p _ Hsz) by lia. do 3 f_equal. lia.
Qed.

(** The EDNS record at the end. *)
Lemma find_written_edns a fuel : p = a ++ edns_text -> (1 <= fuel)%nat ->
  exists r, find_edns fuel p (mkDnsRr (zlen a) 11 1) = Ok (1, r) /\
    exists e, parse_edns p r = Ok (0, e) /\ found e = true /\ udp_size e = UDP_MAX_SIZE /\ optcount e = 0 /\ version e = 0.
Proof.
  intros Ea Hf. unfold find_edns, dns_rr_iter, rrs_iter. cbn [r_off r_count]. change (S (Z.to_nat 1)) with 2%nat.
  destruct fuel as [|f]; [lia|].
  assert (forall i x, 0 <= i -> edns_text !! Z.to_nat i = Some x -> rd p (zlen a + i) = Ok x) as Hrd.
  { intros i x Hi0 Hi. pose proof (lookup_lt_Some _ _ _ Hi). rewrite Ea, rd_app_r by (pose proof (zlen_nonneg a); lia).
    unfold rd. rewrite decide_True by lia. replace (zlen a + i - zlen a) with i by lia. by rewrite Hi. }
  pose proof (Hrd 0 0 ltac:(lia) eq_refl) as R0. pose proof (Hrd 1 0 ltac:(lia) eq_refl) as R1. pose proof (Hrd 2 41 ltac:(lia) eq_refl) as R2.
  pose proof (Hrd 3 5 ltac:(lia) eq_refl) as R3. pose proof (Hrd 4 0 ltac:(lia) eq_refl) as R4. pose proof (Hrd 5 0 ltac:(lia) eq_refl) as R5.
  pose proof (Hrd 6 0 ltac:(lia) eq_refl) as R6. pose proof (Hrd 7 0 ltac:(lia) eq_refl) as R7. pose proof (Hrd 8 0 ltac:(lia) eq_refl) as R8.
  pose proof (Hrd 9 0 ltac:(lia) eq_refl) as R9. pose proof (Hrd 10 0 ltac:(lia) eq_refl) as R10. clear Hrd. rewrite Z.add_0_r in R0.
  cbn [find_edns_loop]. unfold rrs_next. cbn [rrs_seen rrs_count rrs_pos]. change (0 =? 1) with false. cbn iota.
  cbn [skip_name]. rewrite R0. cbn [res_bind]. change (Z.land 0 192 =? 192) with false. change (0 =? 0) with true. cbn iota. cbn [res_bind].
  unfold rd16, rd32. rewrite <- !Z.add_assoc. 
  repeat match goal with |- context [zlen a + (?x + ?y)] => let v := eval vm_compute in (x + y) in change (x + y) with v end.
  rewrite R1, R2, R3, R4. cbn [res_bind]. rewrite R5, R6, R7, R8. cbn [res_bind].
  rewrite R9, R10. cbn [res_bind fst snd rr_type rrs_seen rrs_count].
  eexists. split; [reflexivity|]. unfold parse_edns. cbn [nameoff rdoff rdlen rr_class]. rewrite R0. cbn [res_bind].
  change (Z.lor (Z.shiftl 0 8) 0) with 0. cbn [count_opts Z.to_nat Nat.add].
  destruct (Z.ltb_spec (zlen a + 11) (zlen a + 11 + 0)); [lia|]. cbn [negb res_bind fst snd].
  eexists. by split_and!.
Qed.
End reading.

Lemma flag_bits (qr aa tc rd ra : bool) op rc : 0 <= op < 16 -> 0 <= rc < 16 ->
  let b := Z.lor (Z.lor (Z.lor (Z.lor (bit qr 7) (Z.shiftl op 3)) (bit aa 2)) (bit tc 1)) (bit rd 0) in
  let c := Z.lor (bit ra 7) (Z.land rc 15) in
  is_byte b /\ flag 128 7 b = qr /\ Z.shiftr (Z.land 120 b) 3 = op /\ flag 4 2 b = aa /\ flag 2 1 b = tc /\ flag 1 0 b = rd /\
  is_byte c /\ flag 128 7 c = ra /\ Z.shiftr (Z.land 112 c) 4 = 0 /\ Z.land 15 c = rc.
Proof.
  intros Hop Hrc b c.
  assert (forallb (fun op =>
    let b := Z.lor (Z.lor (Z.lor (Z.lor (bit qr 7) (Z.shiftl op 3)) (bit aa 2)) (bit tc 1)) (bit rd 0) in
    (0 <=? b) && (b <? 256) && Bool.eqb (flag 128 7 b) qr && (Z.shiftr (Z.land 120 b) 3 =? op) && Bool.eqb (flag 4 2 b) aa &&
    Bool.eqb (flag 2 1 b) tc && Bool.eqb (flag 1 0 b) rd) (seqZ 0 16) = true) as Ho
    by (destruct qr, aa, tc, rd; vm_compute; done).
  assert (forallb (fun rc => let c := Z.lor (bit ra 7) (Z.land rc 15) in
    (0 <=? c) && (c <? 256) && Bool.eqb (flag 128 7 c) ra && (Z.shiftr (Z.land 112 c) 4 =? 0) && (Z.land 15 c =? rc)) (seqZ 0 16) = true) as Hr
    by (destruct ra; vm_compute; done).
  rewrite forallb_forall in Ho, Hr.
  assert (forall x, 0 <= x < 16 -> In x (seqZ 0 16)) as Hin by (intros; apply list_elem_of_In, elem_of_seqZ; lia).
  specialize (Ho op (Hin op Hop)). specialize (Hr rc (Hin rc Hrc)). cbn zeta in Ho, Hr. fold b in Ho. fold c in Hr.
  repeat match goal with E : _ && _ = true |- _ => apply andb_true_iff in E as [? ?] end. unfold is_byte.
  split_and!; try lia; by apply Bool.eqb_prop.
Qed.

(** A header with all its fields in range, and no reserved bits, is read as it was written. *)
Lemma parse_hdr_text h rest : good_hdr h -> h_z h = 0 -> parse_hdr (hdr_text h ++ rest) 0 = Ok (12, h).
Proof.
  intros (Hid & Hqd & Han & Hns & Har & Hop & Hz & Hrc) Hz0.
  destruct (flag_bits (h_qr h) (h_aa h) (h_tc h) (h_rd h) (h_ra h) (h_opcode h) (h_rcode h) Hop Hrc)
    as (Hb & F1 & F2 & F3 & F4 & F5 & Hc & F6 & F7 & F8).
  unfold hdr_text. set (b := Z.lor (Z.lor (Z.lor _ _) _) _) in *. set (c := Z.lor _ (Z.land _ 15)) in *.
  unfold parse_hdr. change (is_bad_parse 0) with false. cbn iota. rewrite !zlen_app, !be_bytes_length, !Z.add_0_l.
  pose proof (zlen_nonneg rest). match goal with |- context [?n <? 12] => destruct (Z.ltb_spec n 12); [lia|] end.
  rewrite (be_bytes_1 b), (be_bytes_1 c) by (unfold is_byte in *; lia). rewrite <- !app_assoc.
  set (id := be_bytes 2 (h_id h)). set (qd := be_bytes 2 (h_qdcount h)). set (an := be_bytes 2 (h_ancount h)).
  set (ns := be_bytes 2 (h_nscount h)). set (ar := be_bytes 2 (h_arcount h)).
  assert (zlen id = 2 /\ zlen qd = 2 /\ zlen an = 2 /\ zlen ns = 2) as (Z1 & Z2 & Z3 & Z4) by (unfold id, qd, an, ns; by rewrite !be_bytes_length).
  assert (rd16 (id ++ [b] ++ [c] ++ qd ++ an ++ ns ++ ar ++ rest) 0 = Ok (h_id h)) as -> by exact (rd16_text [] _ _ Hid).
  assert (rd (id ++ [b] ++ [c] ++ qd ++ an ++ ns ++ ar ++ rest) 2 = Ok b) as -> by (rewrite <- Z1; apply rd_text).
  assert (rd (id ++ [b] ++ [c] ++ qd ++ an ++ ns ++ ar ++ rest) 3 = Ok c) as ->.
  { rewrite app_assoc. replace 3 with (zlen (id ++ [b])) by (rewrite zlen_app, Z1; done). apply rd_text. }
  cbn [res_bind].
  assert (rd16 (id ++ [b] ++ [c] ++ qd ++ an ++ ns ++ ar ++ rest) 4 = Ok (h_qdcount h)) as ->.
  { pose proof (rd16_text (id ++ [b] ++ [c]) _ (an ++ ns ++ ar ++ rest) Hqd) as E. rewrite !zlen_app, Z1 in E.
    rewrite <- !app_assoc in E. exact E. }
  assert (rd16 (id ++ [b] ++ [c] ++ qd ++ an ++ ns ++ ar ++ rest) 6 = Ok (h_ancount h)) as ->.
  { pose proof (rd16_text (id ++ [b] ++ [c] ++ qd) _ (ns ++ ar ++ rest) Han) as E. rewrite !zlen_app, Z1, Z2 in E.
    rewrite <- !app_assoc in E. exact E. }
  assert (rd16 (id ++ [b] ++ [c] ++ qd ++ an ++ ns ++ ar ++ rest) 8 = Ok (h_nscount h)) as ->.
  { pose proof (rd16_text (id ++ [b] ++ [c] ++ qd ++ an) _ (ar ++ rest) Hns) as E. rewrite !zlen_app, Z1, Z2, Z3 in E.
    rewrite <- !app_assoc in E. exact E. }
  assert (rd16 (id ++ [b] ++ [c] ++ qd ++ an ++ ns ++ ar ++ rest) 10 = Ok (h_arcount h)) as ->.
  { pose proof (rd16_text (id ++ [b] ++ [c] ++ qd ++ an ++ ns) _ rest Har) as E. rewrite !zlen_app, Z1, Z2, Z3, Z4 in E.
    rewrite <- !app_assoc in E. exact E. }
  cbn [res_bind]. rewrite F1, F2, F3, F4, F5, F6, F7, F8. do 2 f_equal. clear - Hz0. destruct h. simpl in *. by subst.
Qed.

(** The question of a written packet. *)
Lemma parse_qstn_text H ls q b : let p := H ++ qstn_text ls q ++ b in
  zlen p < 2 ^ 63 -> good_labels ls -> text_len ls + 1 <= 255 -> is_u16 (q_qtype q) -> is_u16 (q_qclass q) ->
  parse_qstn 1 p (zlen H) = Ok (zlen H + zlen (qstn_text ls q), mkQstn (zlen H) (zlen (qstn_text ls q)) 1 (q_qtype q) (q_qclass q)).
Proof.
  intros p Hsz Hls Hlen Ht Hc. unfold parse_qstn. pose proof (zlen_nonneg b). pose proof (zlen_nonneg H). pose proof (text_len_nonneg ls).
  assert (zlen p = zlen H + (text_len ls + 5) + zlen b) as Hp by (unfold p; rewrite !zlen_app, zlen_qstn_text; lia).
  rewrite (good_position p (zlen H) Hsz) by lia. change (Z.to_nat 1) with 1%nat. cbn [parse_names].
  assert (p = H ++ name_text ls ++ (be_bytes 2 (q_qtype q) ++ be_bytes 2 (q_qclass q) ++ b)) as Ep
    by (unfold p, qstn_text; by rewrite <- !app_assoc).
  rewrite Ep, parse_name_text, <- Ep by (done || by rewrite <- Ep). cbn [res_bind]. rewrite zlen_name_text, zlen_qstn_text.
  rewrite (good_position p _ Hsz) by lia. cbn [res_bind]. rewrite (good_position p _ Hsz) by lia.
  destruct (Z.ltb_spec (zlen p) (zlen H + (text_len ls + 1) + 4)); [lia|].
  assert (rd16 p (zlen H + (text_len ls + 1)) = Ok (q_qtype q)) as ->.
  { rewrite <- zlen_name_text, <- zlen_app, Ep, app_assoc. by apply rd16_text. }
  assert (rd16 p (zlen H + (text_len ls + 1) + 2) = Ok (q_qclass q)) as ->.
  { pose proof (rd16_text (H ++ name_text ls ++ be_bytes 2 (q_qtype q)) _ b Hc) as E.
    rewrite !zlen_app, be_bytes_length, zlen_name_text in E. rewrite Ep. rewrite <- !app_assoc in E. rewrite <- E. f_equal. lia. }
  cbn [res_bind]. do 2 f_equal; [lia|f_equal; lia].
Qed.

Lemma ptr_record ty ttl d : zlen d < 65536 -> is_record (name_ptr_text ++ rr_hdr_text ty ttl (zlen d) ++ d).
Proof. intros Hd. exists name_ptr_text, ty, 1, ttl, d. auto. Qed.

Lemma zone_labels : good_labels ZONE_NAME /\ text_len ZONE_NAME + 1 <= 255.
Proof. split; [by apply (bool_decide_unpack (Forall _ ZONE_NAME))|by vm_compute]. Qed.

Lemma zone_record ty ttl d : zlen d < 65536 -> is_record (name_text ZONE_NAME ++ rr_hdr_text ty ttl (zlen d) ++ d).
Proof. intros Hd. exists (name_text ZONE_NAME), ty, 1, ttl, d. pose proof zone_labels. split_and!; [done|done|]. right. by exists ZONE_NAME. Qed.

Lemma soa_is_record : is_record soa_text.
Proof. apply (zone_record SOA SOA_TTL (name_text MNAME ++ name_text RNAME ++ be_bytes 4 SERIAL ++ be_bytes 4 300 ++ be_bytes 4 60 ++ be_bytes 4 86400 ++ be_bytes 4 60)). by vm_compute. Qed.

(** The answers of every reply are records and bytes. *)
Lemma reply_records f qtype secret : (forall s, secret = Answer s -> is_bytes s /\ zlen s <= 255) ->
  Forall (fun t => is_record t /\ is_bytes t) (rp_answers (reply_for f qtype secret)).
Proof.
  intros Hs.
  assert (is_record caa_text) as Hcaa by (apply (ptr_record CAA CAA_TTL (be_bytes 1 CAA_FLAGS ++ be_bytes 1 5 ++ CAA_TAG ++ CAA_VALUE)); by vm_compute).
  assert (is_record a_text) as Ha by (apply (ptr_record A A_TTL ([127] ++ [0] ++ [0] ++ [1])); by vm_compute).
  assert (is_record aaaa_text) as H4 by (apply (ptr_record AAAA AAAA_TTL (be_bytes 4 0 ++ be_bytes 4 0 ++ be_bytes 4 0 ++ be_bytes 4 1)); by vm_compute).
  assert (is_record (ns_text NS1_NAME)) as Hn1 by (apply (zone_record NS NS_TTL (name_text NS1_NAME)); by vm_compute).
  assert (is_record (ns_text NS2_NAME)) as Hn2 by (apply (zone_record NS NS_TTL (name_text NS2_NAME)); by vm_compute).
  pose proof soa_is_record as Hsoa.
  unfold reply_for, no_record_reply. destruct f; simpl; repeat case_match; simpl; subst; rewrite ?Forall_cons, ?Forall_nil; try done;
    try (split_and!; try done; match goal with |- is_bytes ?t => by apply (bool_decide_unpack (is_bytes t)) end).
  match goal with H : context [Answer ?v] |- _ => destruct (H v eq_refl) as [Hb Hl]; rename v into value end. pose proof (zlen_nonneg value).
  split_and!; try done.
  - assert (zlen (be_bytes 1 (zlen value) ++ value) = 1 + zlen value) as El by (by rewrite zlen_app, be_bytes_length).
    unfold secret_text. rewrite <- El. apply ptr_record. lia.
  - unfold secret_text, name_ptr_text, rr_hdr_text. unfold is_bytes. rewrite !Forall_app. split_and!; try apply be_bytes_range. done.
Qed.

Lemma hdr_text_ok h : zlen (hdr_text h) = 12 /\ is_bytes (hdr_text h).
Proof.
  unfold hdr_text. split; [by rewrite !zlen_app, !be_bytes_length|].
  unfold is_bytes. rewrite !Forall_app. split_and!; apply be_bytes_range.
Qed.

Lemma name_text_bytes ls : good_labels ls -> is_bytes (name_text ls).
Proof.
  induction 1 as [|l ls [Hl Hb] Hls IH]; [by apply (bool_decide_unpack (is_bytes (name_text [])))|].
  rewrite name_text_cons by done. unfold is_bytes in *. rewrite !Forall_app. split_and!; [|done|done].
  constructor; [unfold is_byte; lia|done].
Qed.

(** The sections of a reply, as a list of records each. *)
Definition auth_records (r : reply) : list bytes := if rp_soa r then [soa_text] else [].
Definition addl_records (pkt : dns_pkt_t) : list bytes := if found (edns pkt) then [edns_text] else [].
Definition reply_hdr (pkt : dns_pkt_t) (r : reply) : dns_hdr_t :=
  response_hdr (hdr pkt) (rp_rcode r) (rp_aa r) false (zlen (rp_answers r)) (zlen (auth_records r)) (zlen (addl_records pkt)).

Lemma reply_text_sections pkt ls r :
  reply_text pkt ls r =
  hdr_text (reply_hdr pkt r) ++ qstn_text ls (qstn pkt) ++ concat (rp_answers r) ++ concat (auth_records r) ++ concat (addl_records pkt).
Proof.
  unfold reply_text, reply_hdr, auth_records, addl_records.
  destruct (rp_soa r), (found (edns pkt)); cbn [concat]; by rewrite ?app_nil_r.
Qed.

Lemma edns_is_record : is_record edns_text.
Proof.
  exists (name_text []), EDNS, UDP_MAX_SIZE, 0, []. split_and!; [by vm_compute|by vm_compute|right].
  exists []. split_and!; [done|constructor|by vm_compute].
Qed.

(** Texts and positions in one form. *)
Ltac flatten E HH := rewrite <- ?app_assoc, ?app_nil_r in E; rewrite ?zlen_app, HH, ?Z.add_assoc in E.


(** ** Concrete queries *)

(** A query for the TXT record of the challenge of user [x]. *)
Definition sample_query : bytes :=
  [18; 52; 1; 0; 0; 1; 0; 0; 0; 0; 0; 0] ++
  name_text [lit "_acme-challenge"; lit "x"; lit "user"; lit "SplinterMail"; lit "com"] ++ [0; 16; 0; 1].
Definition sample_kvp (a : answer) : kvp_i unit := mkKvp (fun _ => st_ret a).

Lemma sample_query_ok : is_bytes sample_query /\ one_addl sample_query /\ one_qstn sample_query.
Proof.
  split_and!; [by apply (bool_decide_unpack (is_bytes sample_query))|..];
    intros b Eb; vm_compute in Eb; injection Eb as <-; lia.
Qed.


Definition sample_hdr : dns_hdr_t := mkHdr 4660 false 0 false false true false 0 0 1 0 0 0.
Definition sample_qpkt : dns_pkt_t := mkPkt sample_hdr (mkQstn 12 45 1 TXT 1) no_rr no_rr no_rr (mkEdns true 0 0 false 0 1280 0 0).
Definition sample_name : list lstr_t := [lit "_acme-challenge"; lit "x"; lit "user"; lit "splintermail"; lit "com"].


(** A sync of the key [x], then a query for it and packets from strangers. *)
Definition x_start : kvp_update_t := mkUpdate 0 7 1 KVP_UPDATE_START 99 [] 0 [].
Definition x_insert : kvp_update_t := mkUpdate 0 7 2 KVP_UPDATE_INSERT 0 (lit "x") 0 (lit "token").
Definition x_flush : kvp_update_t := mkUpdate (100 * SECOND) 7 3 KVP_UPDATE_FLUSH 0 [] 0 [].
Definition x_log : sender_log := fun s i =>
  if s =? 7 then
    if i =? 1 then Some (strip x_start) else if i =? 2 then Some (strip x_insert)
    else if i =? 3 then Some (strip x_flush) else None
  else None.
Definition the_peer : sockaddr := Inet6 1 2.
Definition sample_datagrams : list datagram :=
  [DnsQuery 5 (Inet 16777343) sample_query (zeros 4096);
   SyncPacket 6 the_peer (update_text x_start); SyncPacket 7 the_peer (update_text x_flush);
   SyncPacket 8 (Inet 3) [1; 2; 3]; SyncPacket 9 the_peer [1; 2; 3]; SyncPacket 10 the_peer (update_text x_insert);
   DnsQuery 11 (Inet 16777343) sample_query (zeros 4096)].
Definition sample_server : globals_t := mkGlobals [the_peer] 0 [recv_fresh 99] (mkRrl (zeros 4) 4) 0.

Lemma x_honest : honest x_log.
Proof.
  intros s i p H. unfold x_log in H. destruct (Z.eqb_spec s 7) as [->|]; [|done].
  destruct (Z.eqb_spec i 1) as [->|]; [|destruct (Z.eqb_spec i 2) as [->|]; [|destruct (Z.eqb_spec i 3) as [->|]; [|done]]];
    apply (inj Some) in H as <-; split_and!; try done.
  - by right; left.
  - by right; right; right; left.
  - by right; right; left.
Qed.

