(* ===== verification/ImapTypes.v ===== *)
(** * IMAP expressions (libimap/expression.h, libimap/extension.c)

    The commands and responses that are parsed and written. A linked list of
    structs is the list of their contents, an optional pointer an [option], and a
    tagged union an inductive type with a constructor for each tag, or for each
    group of tags that use the same member. *)

From S2P Require Import Prelude Msg.

(** ** Extensions *)

Inductive extension_e := EXT_UIDPLUS | EXT_ENABLE | EXT_CONDSTORE | EXT_QRESYNC | EXT_UNSELECT | EXT_IDLE | EXT_XKEY.
Inductive extension_state_e := EXT_STATE_DISABLED | EXT_STATE_OFF | EXT_STATE_ON.
#[export] Instance extension_e_eq_dec : EqDecision extension_e.
Proof. solve_decision. Defined.
#[export] Instance extension_state_e_eq_dec : EqDecision extension_state_e.
Proof. solve_decision. Defined.

Record extensions_t := mkExts {
  uidplus : extension_state_e; enable : extension_state_e; condstore : extension_state_e; qresync : extension_state_e;
  unselect : extension_state_e; idle : extension_state_e; xkey : extension_state_e
}.

Definition extension_find (exts : extensions_t) (type : extension_e) : extension_state_e :=
  match type with
  | EXT_UIDPLUS => uidplus exts
  | EXT_ENABLE => enable exts
  | EXT_CONDSTORE => condstore exts
  | EXT_QRESYNC => qresync exts
  | EXT_UNSELECT => unselect exts
  | EXT_IDLE => idle exts
  | EXT_XKEY => xkey exts
  end.
Definition extension_is_on (exts : extensions_t) (type : extension_e) : bool :=
  bool_decide (extension_find exts type = EXT_STATE_ON).
Definition extension_assert_on (exts : extensions_t) (type : extension_e) : res unit :=
  if negb (extension_is_on exts type) then Err E_PARAM else Ok tt.
Definition extension_is_available (exts : extensions_t) (type : extension_e) : bool :=
  negb (bool_decide (extension_find exts type = EXT_STATE_DISABLED)).
Definition extension_assert_available (exts : extensions_t) (type : extension_e) : res unit :=
  if negb (extension_is_available exts type) then Err E_PARAM else Ok tt.

Definition extension_set_on (exts : extensions_t) (type : extension_e) : extensions_t :=
  let on t s := if decide (type = t) then EXT_STATE_ON else s in
  mkExts (on EXT_UIDPLUS (uidplus exts)) (on EXT_ENABLE (enable exts)) (on EXT_CONDSTORE (condstore exts))
    (on EXT_QRESYNC (qresync exts)) (on EXT_UNSELECT (unselect exts)) (on EXT_IDLE (idle exts)) (on EXT_XKEY (xkey exts)).
(** Set an extension to on; false if it is disabled. *)
Definition extension_trigger (exts : extensions_t) (type : extension_e) : bool * extensions_t :=
  if decide (extension_find exts type = EXT_STATE_DISABLED) then (false, exts)
  else (true, extension_set_on exts type).

Definition extension_token (ext : extension_e) : bytes :=
  match ext with
  | EXT_UIDPLUS => lit "UIDPLUS"
  | EXT_ENABLE => lit "ENABLE"
  | EXT_CONDSTORE => lit "CONDSTORE"
  | EXT_QRESYNC => lit "QRESYNC"
  | EXT_UNSELECT => lit "UNSELECT"
  | EXT_IDLE => lit "IDLE"
  | EXT_XKEY => lit "XKEY"
  end.
Definition extension_msg (ext : extension_e) : bytes := extension_token ext ++ lit " extension not available".

(** All extensions on, as the debug printers assume. *)
Definition all_on : extensions_t :=
  mkExts EXT_STATE_ON EXT_STATE_ON EXT_STATE_ON EXT_STATE_ON EXT_STATE_ON EXT_STATE_ON EXT_STATE_ON.

(** ** Parts of expressions *)

(** The name of the mailbox, when it is not INBOX. *)
Record ie_mailbox_t := mkMailbox { m_inbox : bool; m_dstr : bytes }.

Definition IE_STATUS_ATTR_MESSAGES : Z := 1.
Definition IE_STATUS_ATTR_RECENT : Z := 2.
Definition IE_STATUS_ATTR_UIDNEXT : Z := 4.
Definition IE_STATUS_ATTR_UIDVLD : Z := 8.
Definition IE_STATUS_ATTR_UNSEEN : Z := 16.
Definition IE_STATUS_ATTR_HIMODSEQ : Z := 32.
Record ie_status_attr_resp_t := mkStatusAttr {
  sa_attrs : Z; sa_messages : Z; sa_recent : Z; sa_uidnext : Z; sa_uidvld : Z; sa_unseen : Z; sa_himodseq : Z
}.

(** The time of libimap/expression.h is the one that messages carry. *)
Abbreviation imap_time_t := Msg.imap_time_t.
Abbreviation mkTime := Msg.mkTime.
Abbreviation t_year := Msg.year.
Abbreviation t_month := Msg.month.
Abbreviation t_day := Msg.day.
Abbreviation t_hour := Msg.hour.
Abbreviation t_min := Msg.min.
Abbreviation t_sec := Msg.sec.
Abbreviation t_z_hour := Msg.z_hour.
Abbreviation t_z_min := Msg.z_min.

(** Pairs [n1:n2]; 0 is "*". *)
Abbreviation ie_seq_set_t := (list (Z * Z)).

Inductive ie_select_param_t :=
| IE_SELECT_PARAM_CONDSTORE
| IE_SELECT_PARAM_QRESYNC (uidvld last_modseq : Z) (known_uids seq_keys uid_vals : ie_seq_set_t).
Abbreviation ie_select_params_t := (list ie_select_param_t).

Record ie_flags_t := mkFlags {
  fl_answered : bool; fl_flagged : bool; fl_deleted : bool; fl_seen : bool; fl_draft : bool;
  fl_keywords : list bytes; fl_extensions : list bytes
}.
Record ie_pflags_t := mkPflags {
  pf_answered : bool; pf_flagged : bool; pf_deleted : bool; pf_seen : bool; pf_draft : bool; pf_asterisk : bool;
  pf_keywords : list bytes; pf_extensions : list bytes
}.
Record ie_fflags_t := mkFflags {
  ff_answered : bool; ff_flagged : bool; ff_deleted : bool; ff_seen : bool; ff_draft : bool; ff_recent : bool;
  ff_keywords : list bytes; ff_extensions : list bytes
}.
Inductive ie_selectable_t := IE_SELECTABLE_NONE | IE_SELECTABLE_NOSELECT | IE_SELECTABLE_MARKED | IE_SELECTABLE_UNMARKED.
Record ie_mflags_t := mkMflags { mf_noinferiors : bool; mf_selectable : ie_selectable_t; mf_extensions : list bytes }.

(** Search keys, by the member of the parameter that they use. *)
Inductive ie_search_0_t :=
| IE_SEARCH_ALL | IE_SEARCH_ANSWERED | IE_SEARCH_DELETED | IE_SEARCH_FLAGGED | IE_SEARCH_NEW | IE_SEARCH_OLD
| IE_SEARCH_RECENT | IE_SEARCH_SEEN | IE_SEARCH_UNANSWERED | IE_SEARCH_UNDELETED | IE_SEARCH_UNFLAGGED
| IE_SEARCH_UNSEEN | IE_SEARCH_DRAFT | IE_SEARCH_UNDRAFT.
Inductive ie_search_dstr_t :=
| IE_SEARCH_SUBJECT | IE_SEARCH_BCC | IE_SEARCH_BODY | IE_SEARCH_CC | IE_SEARCH_FROM | IE_SEARCH_KEYWORD
| IE_SEARCH_TEXT | IE_SEARCH_TO | IE_SEARCH_UNKEYWORD.
Inductive ie_search_date_t :=
| IE_SEARCH_BEFORE | IE_SEARCH_ON | IE_SEARCH_SINCE | IE_SEARCH_SENTBEFORE | IE_SEARCH_SENTON | IE_SEARCH_SENTSINCE.
Inductive ie_search_num_t := IE_SEARCH_LARGER | IE_SEARCH_SMALLER.
Inductive ie_search_set_t := IE_SEARCH_UID | IE_SEARCH_SEQ_SET.
Inductive ie_search_key1_t := IE_SEARCH_NOT | IE_SEARCH_GROUP.
Inductive ie_search_pair_t := IE_SEARCH_OR | IE_SEARCH_AND.
Inductive ie_entry_type_t := IE_ENTRY_PRIV | IE_ENTRY_SHARED | IE_ENTRY_ALL.
Record ie_search_modseq_ext_t := mkModseqExt { entry_name : bytes; entry_type : ie_entry_type_t }.
Inductive ie_search_key_t :=
| Search0 (type : ie_search_0_t)
| SearchDstr (type : ie_search_dstr_t) (dstr : bytes)
| IE_SEARCH_HEADER (name value : bytes)
| SearchDate (type : ie_search_date_t) (date : imap_time_t)
| SearchNum (type : ie_search_num_t) (num : Z)
| SearchSet (type : ie_search_set_t) (seq_set : ie_seq_set_t)
| SearchKey (type : ie_search_key1_t) (key : ie_search_key_t)
| SearchPair (type : ie_search_pair_t) (a b : ie_search_key_t)
| IE_SEARCH_MODSEQ (ext : option ie_search_modseq_ext_t) (modseq : Z).

(** FETCH *)
Inductive ie_sect_txt_t :=
| IE_SECT_MIME | IE_SECT_TEXT | IE_SECT_HEADER | IE_SECT_HDR_FLDS (headers : list bytes) | IE_SECT_HDR_FLDS_NOT (headers : list bytes).
Record ie_sect_t := mkSect { sect_part : list Z; sect_txt : option ie_sect_txt_t }.
Record ie_fetch_extra_t := mkExtra { ex_peek : bool; ex_sect : option ie_sect_t; ex_partial : option (Z * Z) }.
Record ie_fetch_attrs_t := mkAttrs {
  at_envelope : bool; at_flags : bool; at_intdate : bool; at_uid : bool; at_rfc822 : bool; at_rfc822_header : bool;
  at_rfc822_size : bool; at_rfc822_text : bool; at_body : bool; at_bodystruct : bool; at_modseq : bool;
  at_extras : list ie_fetch_extra_t
}.
Inductive ie_fetch_mod_t := IE_FETCH_MOD_CHGSINCE (chgsince : Z) | IE_FETCH_MOD_VANISHED.
Inductive ie_store_mod_t := IE_STORE_MOD_UNCHGSINCE (unchgsince : Z).

(** Status-type responses *)
Inductive ie_status_t := IE_ST_OK | IE_ST_NO | IE_ST_BAD | IE_ST_PREAUTH | IE_ST_BYE.
Inductive ie_st_code_t :=
| IE_ST_CODE_ALERT | IE_ST_CODE_PARSE | IE_ST_CODE_READ_ONLY | IE_ST_CODE_READ_WRITE | IE_ST_CODE_TRYCREATE
| IE_ST_CODE_UIDNEXT (uidnext : Z) | IE_ST_CODE_UIDVLD (uidvld : Z) | IE_ST_CODE_UNSEEN (unseen : Z)
| IE_ST_CODE_PERMFLAGS (pflags : option ie_pflags_t) | IE_ST_CODE_CAPA (capa : list bytes)
| IE_ST_CODE_ATOM (name : bytes) (text : option bytes)
| IE_ST_CODE_UIDNOSTICK | IE_ST_CODE_APPENDUID (uidvld uid : Z) | IE_ST_CODE_COPYUID (uidvld : Z) (uids_in uids_out : ie_seq_set_t)
| IE_ST_CODE_NOMODSEQ | IE_ST_CODE_HIMODSEQ (himodseq : Z) | IE_ST_CODE_MODIFIED (modified : ie_seq_set_t)
| IE_ST_CODE_CLOSED.

(** FETCH responses *)
Record ie_addr_t := mkAddr { ad_name : option bytes; ad_mailbox : option bytes; ad_host : option bytes }.
Record ie_envelope_t := mkEnvelope {
  en_date : option bytes; en_subj : option bytes; en_from : list ie_addr_t; en_sender : list ie_addr_t;
  en_reply_to : list ie_addr_t; en_to : list ie_addr_t; en_cc : list ie_addr_t; en_bcc : list ie_addr_t;
  en_in_reply_to : option bytes; en_msg_id : option bytes
}.
Abbreviation mime_param_t := (bytes * bytes)%type.
Record mime_content_type_t := mkContentType { typestr : bytes; subtypestr : bytes; ct_params : list mime_param_t }.
Record ie_body_disp_t := mkDisp { di_disp : bytes; di_params : list mime_param_t }.
(** What all bodies have. *)
Record body_fields := mkBodyFields {
  content_type : mime_content_type_t; content_id : option bytes; description : option bytes;
  content_transfer_encoding : option bytes; nbytes : Z; md5 : option bytes;
  disposition : option ie_body_disp_t; lang : list bytes; location : option bytes
}.
Inductive ie_body_t :=
| IE_BODY_MULTI (c : body_fields) (multiparts : list ie_body_t)
| IE_BODY_TEXT (c : body_fields) (nlines : Z)
| IE_BODY_MESSAGE (c : body_fields) (envelope : ie_envelope_t) (msgbody : ie_body_t) (nlines : Z)
| IE_BODY_BASIC (c : body_fields).
Record ie_fetch_resp_extra_t := mkRespExtra { re_sect : option ie_sect_t; re_offset : option Z; re_content : option bytes }.
Record ie_fetch_resp_t := mkFetchResp {
  fr_seq_num : Z; fr_flags : option ie_fflags_t; fr_uid : Z; fr_intdate : imap_time_t; fr_rfc822 : option bytes;
  fr_rfc822_hdr : option bytes; fr_rfc822_text : option bytes; fr_rfc822_size : option Z;
  fr_envelope : option ie_envelope_t; fr_body : option ie_body_t; fr_bodystruct : option ie_body_t; fr_modseq : Z;
  fr_extras : list ie_fetch_resp_extra_t
}.

(** ** Commands and responses *)

Record ie_append_cmd_t := mkAppend { ap_m : ie_mailbox_t; ap_flags : option ie_flags_t; ap_time : imap_time_t; ap_content : bytes }.
Record ie_fetch_cmd_t := mkFetch { fe_uid_mode : bool; fe_seq_set : ie_seq_set_t; fe_attr : ie_fetch_attrs_t; fe_mods : list ie_fetch_mod_t }.
Record ie_store_cmd_t := mkStore {
  st_uid_mode : bool; st_seq_set : ie_seq_set_t; st_mods : list ie_store_mod_t; st_sign : Z; st_silent : bool; st_flags : option ie_flags_t
}.

Inductive imap_cmd_arg_t :=
| IMAP_CMD_ERROR (error : bytes)
| IMAP_CMD_PLUS_REQ (plus : option bytes)
| IMAP_CMD_CAPA
| IMAP_CMD_NOOP
| IMAP_CMD_LOGOUT
| IMAP_CMD_STARTTLS
| IMAP_CMD_LOGIN (user pass : bytes)
| IMAP_CMD_SELECT (m : ie_mailbox_t) (params : ie_select_params_t)
| IMAP_CMD_EXAMINE (m : ie_mailbox_t) (params : ie_select_params_t)
| IMAP_CMD_CREATE (m : ie_mailbox_t)
| IMAP_CMD_DELETE (m : ie_mailbox_t)
| IMAP_CMD_RENAME (old new : ie_mailbox_t)
| IMAP_CMD_SUB (m : ie_mailbox_t)
| IMAP_CMD_UNSUB (m : ie_mailbox_t)
| IMAP_CMD_LIST (m : ie_mailbox_t) (pattern : bytes)
| IMAP_CMD_LSUB (m : ie_mailbox_t) (pattern : bytes)
| IMAP_CMD_STATUS (m : ie_mailbox_t) (status_attr : Z)
| IMAP_CMD_APPEND (append : ie_append_cmd_t)
| IMAP_CMD_CHECK
| IMAP_CMD_CLOSE
| IMAP_CMD_EXPUNGE (uid_expunge : ie_seq_set_t)
| IMAP_CMD_SEARCH (uid_mode : bool) (charset : option bytes) (search_key : ie_search_key_t)
| IMAP_CMD_FETCH (fetch : ie_fetch_cmd_t)
| IMAP_CMD_STORE (store : ie_store_cmd_t)
| IMAP_CMD_COPY (uid_mode : bool) (seq_set : ie_seq_set_t) (m : ie_mailbox_t)
| IMAP_CMD_ENABLE (names : list bytes)
| IMAP_CMD_UNSELECT
| IMAP_CMD_IDLE
| IMAP_CMD_IDLE_DONE (error : option bytes)
| IMAP_CMD_XKEYSYNC (fingerprints : list bytes)
| IMAP_CMD_XKEYSYNC_DONE
| IMAP_CMD_XKEYADD (key : bytes).
Record imap_cmd_t := mkCmd { cmd_tag : bytes; cmd_arg : imap_cmd_arg_t }.

Record ie_list_resp_t := mkList { li_mflags : ie_mflags_t; li_sep : Z; li_m : ie_mailbox_t }.
Record ie_search_resp_t := mkSearchResp { nums : list Z; modseq_present : bool; modseqnum : Z }.
(** Exactly one of the two is defined in the code. *)
Inductive ie_xkeysync_resp_t := XkeysyncCreated (pubkey : bytes) | XkeysyncDeleted (fingerprint : bytes).
Inductive imap_resp_t :=
| IMAP_RESP_PLUS (code : option ie_st_code_t) (text : bytes)
| IMAP_RESP_STATUS_TYPE (tag : option bytes) (status : ie_status_t) (code : option ie_st_code_t) (text : bytes)
| IMAP_RESP_CAPA (capa : list bytes)
| IMAP_RESP_LIST (l : ie_list_resp_t)
| IMAP_RESP_LSUB (l : ie_list_resp_t)
| IMAP_RESP_STATUS (m : ie_mailbox_t) (sa : ie_status_attr_resp_t)
| IMAP_RESP_FLAGS (flags : option ie_flags_t)
| IMAP_RESP_SEARCH (search : option ie_search_resp_t)
| IMAP_RESP_EXISTS (n : Z)
| IMAP_RESP_EXPUNGE (n : Z)
| IMAP_RESP_RECENT (n : Z)
| IMAP_RESP_FETCH (fetch : ie_fetch_resp_t)
| IMAP_RESP_ENABLED (names : list bytes)
| IMAP_RESP_VANISHED (earlier : bool) (uids : ie_seq_set_t)
| IMAP_RESP_XKEYSYNC (xkeysync : option ie_xkeysync_resp_t).

Definition ie_status_to_dstr (s : ie_status_t) : bytes :=
  match s with
  | IE_ST_OK => lit "OK"
  | IE_ST_NO => lit "NO"
  | IE_ST_BAD => lit "BAD"
  | IE_ST_PREAUTH => lit "PREAUTH"
  | IE_ST_BYE => lit "BYE"
  end.
