(* ===== verification/ImapWrite.v ===== *)
(** * Writing IMAP (libimap/write.c)

    Commands and responses are written in chunks: every call skips what earlier calls
    have passed and fills the buffer with what fits. An input byte that needs an escape is
    never split, so the chunks consist of units of one or two bytes. *)

From S2P Require Import Prelude Dstr Fmt ImapTypes.

(** ** The state of a run *)

(** [exts] and [is_cmd] never change in a run: they are the parameters of the section below. *)
Record skip_fill_t := mkSf { sf_out : dstr; sf_skip : Z; sf_passed : Z; sf_want : Z }.
Abbreviation sfm := (stm skip_fill_t).

Definition set_out (d : dstr) (sf : skip_fill_t) : skip_fill_t := mkSf d (sf_skip sf) (sf_passed sf) (sf_want sf).
Definition add_want (n : Z) (sf : skip_fill_t) : skip_fill_t := mkSf (sf_out sf) (sf_skip sf) (sf_passed sf) (sf_want sf + n).
Definition add_passed (n : Z) (sf : skip_fill_t) : skip_fill_t := mkSf (sf_out sf) (sf_skip sf) (sf_passed sf + n) (sf_want sf).
Definition do_skip (n : Z) (sf : skip_fill_t) : skip_fill_t := mkSf (sf_out sf) (sf_skip sf - n) (sf_passed sf + n) (sf_want sf).

(** A line break. *)
Definition crlf : string := String (Ascii.ascii_of_nat 13) (String (Ascii.ascii_of_nat 10) "").

(** A text in a buffer on the stack. *)
Definition fmt_var `{Alloc} (size : Z) (fstr : string) (args : list fmt_arg) : res bytes :=
  match FMT fstr args (mkD [] size true) with
  | (Ok _, d) => Ok (d_data d)
  | (Err e, _) => Err e
  | (Stop s, _) => Stop s
  end.

Inductive iw_string_type_t := IW_LITERAL | IW_QUOTED | IW_RAW.

Definition unquotable (c : Z) : bool := (c =? 13) || (c =? 10) || (c =? 0).
(** The characters that an astring cannot hold, apart from controls. *)
Definition astring_special (c : Z) : bool :=
  (c =? chr "(") || (c =? chr ")") || (c =? chr "{") || (c =? chr " ") || (c =? chr "%") || (c =? chr "*") ||
  (c =? 34) || (c =? chr "\").
(** [c < 32 || c == 127] for a signed char. *)
Definition ctl (c : Z) : bool := (schar c <? 32) || (schar c =? 127).

Fixpoint classify_astring_loop (val : bytes) (maybe_atom : bool) : iw_string_type_t :=
  match val with
  | [] => if maybe_atom then IW_RAW else IW_QUOTED
  | c :: val =>
      if unquotable c then IW_LITERAL
      else if astring_special c then classify_astring_loop val false
      else if ctl c then classify_astring_loop val false
      else classify_astring_loop val maybe_atom
  end.
Definition classify_astring (val : bytes) : iw_string_type_t :=
  if zlen val >? 72 then IW_LITERAL
  else if zlen val =? 0 then IW_QUOTED
  else classify_astring_loop val true.

Definition classify_string (val : bytes) : iw_string_type_t :=
  if zlen val >? 72 then IW_LITERAL
  else if existsb unquotable val then IW_LITERAL
  else IW_QUOTED.

Definition validate_time (time : imap_time_t) : res unit :=
  if (t_year time <? 1000) || (t_year time >? 9999) || (t_month time <? 1) || (t_month time >? 12) ||
     (t_day time <? 1) || (t_day time >? 31) || (t_hour time <? 0) || (t_hour time >? 23) ||
     (t_min time <? 0) || (t_min time >? 59) || (t_sec time <? 0) || (t_sec time >? 59) ||
     (t_z_hour time <? -24) || (t_z_hour time >? 24) || (t_z_min time <? 0) || (t_z_min time >? 59)
  then Err E_PARAM else Ok tt.

Definition get_imap_month (month : Z) : bytes :=
  if month =? 1 then lit "Jan" else if month =? 2 then lit "Feb" else if month =? 3 then lit "Mar"
  else if month =? 4 then lit "Apr" else if month =? 5 then lit "May" else if month =? 6 then lit "Jun"
  else if month =? 7 then lit "Jul" else if month =? 8 then lit "Aug" else if month =? 9 then lit "Sep"
  else if month =? 10 then lit "Oct" else if month =? 11 then lit "Nov" else lit "Dec".

Section writing.
Context `{Alloc} (exts : extensions_t) (is_cmd : bool).

(** ** Skipping and filling *)

Definition raw_skip_fill (inp : bytes) : sfm unit := fun sf =>
  if sf_want sf >? 0 then (Ok tt, add_want (zlen inp) sf)
  else
    let skip := Z.min (sf_skip sf) (zlen inp) in
    let sf := do_skip skip sf in
    let space := d_size (sf_out sf) - d_len (sf_out sf) in
    let appendme := dstr_sub2 inp skip (skip + space) in
    let sf := add_passed (zlen appendme) (set_out (snd (dstr_append_quiet appendme (sf_out sf))) sf) in
    (Ok tt, if skip + space <? zlen inp then add_want (zlen inp - skip - space) sf else sf).

Definition static (s : string) : sfm unit := raw_skip_fill (lit s).
Definition lead_sp (sp : bool) : sfm unit := if sp then static " " else st_ret tt.

Fixpoint quote_esc_loop (inp : bytes) : sfm unit := fun sf =>
  match inp with
  | [] => (Ok tt, sf)
  | c :: inp =>
      let out := sf_out sf in
      let esc text :=
        if (sf_want sf >? 0) || (d_len out + 2 >? d_size out) then add_want 2 sf
        else add_passed 1 (set_out (snd (dstr_append_quiet text out)) sf) in
      quote_esc_loop inp
        (if c =? chr "\" then esc (lit "\\")
         else if c =? 34 then esc [chr "\"; 34]
         else if (sf_want sf >? 0) || (d_len out =? d_size out) then add_want 1 sf
         else add_passed 1 (set_out (set_data (d_data out ++ [c]) out) sf))
  end.
Definition quote_esc_skip_fill_noval (inp : bytes) : sfm unit := fun sf =>
  let skip := Z.min (sf_skip sf) (zlen inp) in
  quote_esc_loop (drop (Z.to_nat skip) inp) (do_skip skip sf).

Definition text_skip_fill (inp : bytes) : sfm unit :=
  if existsb unquotable inp then st_fail E_PARAM else raw_skip_fill inp.
Definition st_code_text_skip_fill (inp : bytes) : sfm unit :=
  if existsb (fun c => unquotable c || (c =? chr "]")) inp then st_fail E_PARAM else raw_skip_fill inp.

Definition literal_skip_fill (inp : bytes) : sfm unit :=
  do! header := st_lift (if is_cmd then fmt_var 64 ("{%x+}" +:+ crlf) [FU (zlen inp)]
                         else fmt_var 64 ("{%x}" +:+ crlf) [FU (zlen inp)]) in
  do! _ := raw_skip_fill header in
  raw_skip_fill inp.

Definition quoted_skip_fill_noval (inp : bytes) : sfm unit :=
  do! _ := raw_skip_fill [34] in
  do! _ := quote_esc_skip_fill_noval inp in
  raw_skip_fill [34].

Definition assert_quotable (val : bytes) : res unit := if existsb unquotable val then Err E_PARAM else Ok tt.

Definition astring_skip_fill (inp : bytes) : sfm unit :=
  match classify_astring inp with
  | IW_RAW => raw_skip_fill inp
  | IW_QUOTED => quoted_skip_fill_noval inp
  | IW_LITERAL => literal_skip_fill inp
  end.
Definition mailbox_skip_fill (m : ie_mailbox_t) : sfm unit :=
  if m_inbox m then static "INBOX" else astring_skip_fill (m_dstr m).
Definition string_skip_fill (inp : bytes) : sfm unit :=
  match classify_string inp with
  | IW_QUOTED => quoted_skip_fill_noval inp
  | _ => literal_skip_fill inp
  end.
Definition nstring_skip_fill (inp : option bytes) : sfm unit :=
  match inp with None => static "NIL" | Some d => string_skip_fill d end.

Definition tag_skip_fill (inp : bytes) : sfm unit :=
  if existsb (fun c => astring_special c || (c =? chr "+") || ctl c) inp then st_fail E_PARAM else raw_skip_fill inp.
Definition atom_skip_fill (inp : bytes) : sfm unit :=
  if existsb (fun c => astring_special c || (c =? chr "]") || ctl c) inp then st_fail E_PARAM else raw_skip_fill inp.

(** ** Parts *)

(** [if(cond){ LEAD_SP; body }], and the new value of [sp]. *)
Definition item (cond : bool) (body : sfm unit) (sp : bool) : sfm bool :=
  if cond then do! _ := lead_sp sp in do! _ := body in st_ret true else st_ret sp.
(** A loop over a list with LEAD_SP before each element. *)
Fixpoint sp_list {A} (f : A -> sfm unit) (l : list A) (sp : bool) : sfm bool :=
  match l with
  | [] => st_ret sp
  | a :: l => do! _ := lead_sp sp in do! _ := f a in sp_list f l true
  end.
(** A loop with a separator after each element but the last. *)
Fixpoint sep_list {A} (sep : string) (f : A -> sfm unit) (l : list A) : sfm unit :=
  match l with
  | [] => st_ret tt
  | [a] => f a
  | a :: l => do! _ := f a in do! _ := static sep in sep_list sep f l
  end.
(** A loop with a space before each element. *)
Fixpoint each {A} (f : A -> sfm unit) (l : list A) : sfm unit :=
  match l with
  | [] => st_ret tt
  | a :: l => do! _ := static " " in do! _ := f a in each f l
  end.
Definition skip_sp (m : sfm bool) : sfm unit := do! _ := m in st_ret tt.

Definition assert_on (type : extension_e) : sfm unit := st_lift (extension_assert_on exts type).
Definition has (attrs k : Z) : bool := negb (Z.land attrs k =? 0).

Definition status_cmd_skip_fill (m : ie_mailbox_t) (status_attr : Z) : sfm unit :=
  do! _ := static "STATUS " in
  do! _ := mailbox_skip_fill m in
  do! _ := static " (" in
  do! sp := item (has status_attr IE_STATUS_ATTR_MESSAGES) (static "MESSAGES") false in
  do! sp := item (has status_attr IE_STATUS_ATTR_RECENT) (static "RECENT") sp in
  do! sp := item (has status_attr IE_STATUS_ATTR_UIDNEXT) (static "UIDNEXT") sp in
  do! sp := item (has status_attr IE_STATUS_ATTR_UIDVLD) (static "UIDVALIDITY") sp in
  do! sp := item (has status_attr IE_STATUS_ATTR_UNSEEN) (static "UNSEEN") sp in
  do! _ := (if has status_attr IE_STATUS_ATTR_HIMODSEQ then
              do! _ := assert_on EXT_CONDSTORE in
              do! _ := lead_sp sp in
              static "HIGHESTMODSEQ"
            else st_ret tt) in
  static ")".

Definition date_time_skip_fill (time : imap_time_t) : sfm unit :=
  do! _ := st_lift (validate_time time) in
  do! buffer := st_lift (fmt_var 256 (String (Ascii.ascii_of_nat 34) ("%x%x-%x-%x %x%x:%x%x:%x%x %x%x%x%x%x" +:+ String (Ascii.ascii_of_nat 34) ""))
    [(if t_day time <? 10 then FC 32 else FI (t_day time ÷ 10)); FI (Z.rem (t_day time) 10);
     FD (get_imap_month (t_month time)); FI (t_year time);
     FI (t_hour time ÷ 10); FI (Z.rem (t_hour time) 10);
     FI (t_min time ÷ 10); FI (Z.rem (t_min time) 10);
     FI (t_sec time ÷ 10); FI (Z.rem (t_sec time) 10);
     FS (Some (if t_z_hour time >=? 0 then lit "+" else lit "-"));
     FI (Z.abs (t_z_hour time) ÷ 10); FI (Z.rem (Z.abs (t_z_hour time)) 10);
     FI (t_z_min time ÷ 10); FI (Z.rem (t_z_min time) 10)]) in
  raw_skip_fill buffer.

(** The part of the flags that all kinds have. *)
Definition extension_skip_fill (d : bytes) : sfm unit := do! _ := static "\" in atom_skip_fill d.
Definition flags_skip_fill (flags : option ie_flags_t) : sfm unit :=
  match flags with
  | None => st_ret tt
  | Some f =>
      do! sp := item (fl_answered f) (static "\Answered") false in
      do! sp := item (fl_flagged f) (static "\Flagged") sp in
      do! sp := item (fl_deleted f) (static "\Deleted") sp in
      do! sp := item (fl_seen f) (static "\Seen") sp in
      do! sp := item (fl_draft f) (static "\Draft") sp in
      do! sp := sp_list atom_skip_fill (fl_keywords f) sp in
      skip_sp (sp_list extension_skip_fill (fl_extensions f) sp)
  end.
Definition pflags_skip_fill (pflags : option ie_pflags_t) : sfm unit :=
  match pflags with
  | None => st_ret tt
  | Some f =>
      do! sp := item (pf_answered f) (static "\Answered") false in
      do! sp := item (pf_flagged f) (static "\Flagged") sp in
      do! sp := item (pf_deleted f) (static "\Deleted") sp in
      do! sp := item (pf_seen f) (static "\Seen") sp in
      do! sp := item (pf_draft f) (static "\Draft") sp in
      do! sp := item (pf_asterisk f) (static "\Asterisk") sp in
      do! sp := sp_list atom_skip_fill (pf_keywords f) sp in
      skip_sp (sp_list extension_skip_fill (pf_extensions f) sp)
  end.
Definition fflags_skip_fill (fflags : option ie_fflags_t) : sfm unit :=
  match fflags with
  | None => st_ret tt
  | Some f =>
      do! sp := item (ff_answered f) (static "\Answered") false in
      do! sp := item (ff_flagged f) (static "\Flagged") sp in
      do! sp := item (ff_deleted f) (static "\Deleted") sp in
      do! sp := item (ff_seen f) (static "\Seen") sp in
      do! sp := item (ff_draft f) (static "\Draft") sp in
      do! sp := item (ff_recent f) (static "\Recent") sp in
      do! sp := sp_list atom_skip_fill (ff_keywords f) sp in
      skip_sp (sp_list extension_skip_fill (ff_extensions f) sp)
  end.
Definition mflags_skip_fill (f : ie_mflags_t) : sfm unit :=
  do! sp := item (mf_noinferiors f) (static "\NoInferiors") false in
  do! sp := match mf_selectable f with
            | IE_SELECTABLE_NONE => st_ret sp
            | IE_SELECTABLE_NOSELECT => item true (static "\Noselect") sp
            | IE_SELECTABLE_MARKED => item true (static "\Marked") sp
            | IE_SELECTABLE_UNMARKED => item true (static "\Unmarked") sp
            end in
  skip_sp (sp_list extension_skip_fill (mf_extensions f) sp).

Definition print_num (num : Z) : sfm unit :=
  do! buf := st_lift (fmt_var 32 "%x" [FU num]) in raw_skip_fill buf.
Definition num_skip_fill (num : Z) : sfm unit := print_num num.
Definition nznum_skip_fill (num : Z) : sfm unit := if num =? 0 then st_fail E_PARAM else print_num num.
Definition modseqnum_skip_fill (num : Z) : sfm unit :=
  if num >? 9223372036854775807 then st_fail E_PARAM else print_num num.
Definition nzmodseqnum_skip_fill (num : Z) : sfm unit := if num =? 0 then st_fail E_PARAM else print_num num.

Definition seq_num (n : Z) : sfm unit := if n =? 0 then static "*" else num_skip_fill n.
Definition seq_set_skip_fill (seq_set : ie_seq_set_t) : sfm unit :=
  sep_list "," (fun p => do! _ := seq_num (fst p) in
                         if negb (fst p =? snd p) then do! _ := static ":" in seq_num (snd p) else st_ret tt) seq_set.
Definition uid_set_skip_fill (seq_set : ie_seq_set_t) : sfm unit :=
  sep_list "," (fun p => if (fst p =? 0) || (snd p =? 0) then st_fail E_PARAM
                         else
                           do! _ := num_skip_fill (fst p) in
                           if negb (fst p =? snd p) then do! _ := static ":" in num_skip_fill (snd p) else st_ret tt) seq_set.

(** [!l] for a linked list. *)
Definition null {A} (l : list A) : bool := match l with [] => true | _ => false end.

Definition select_param_skip_fill (p : ie_select_param_t) : sfm unit :=
  match p with
  | IE_SELECT_PARAM_CONDSTORE =>
      do! _ := assert_on EXT_CONDSTORE in static "CONDSTORE"
  | IE_SELECT_PARAM_QRESYNC uidvld last_modseq known_uids seq_keys uid_vals =>
      do! _ := assert_on EXT_QRESYNC in
      do! _ := static "QRESYNC (" in
      do! _ := nznum_skip_fill uidvld in
      do! _ := static " " in
      do! _ := nzmodseqnum_skip_fill last_modseq in
      do! _ := (if null known_uids then st_ret tt
                else do! _ := static " " in uid_set_skip_fill known_uids) in
      do! _ := (if null seq_keys && null uid_vals then st_ret tt
                else if null seq_keys || null uid_vals then st_fail E_PARAM
                else
                  do! _ := static " (" in
                  do! _ := uid_set_skip_fill seq_keys in
                  do! _ := static " " in
                  do! _ := uid_set_skip_fill uid_vals in
                  static ")") in
      static ")"
  end.
Definition select_params_skip_fill (params : ie_select_params_t) : sfm unit :=
  if null params then st_ret tt
  else
    do! _ := static " (" in
    do! _ := sp_list select_param_skip_fill params false in
    static ")".

Definition search_date_skip_fill (time : imap_time_t) : sfm unit :=
  if (t_year time <? 999) || (t_year time >? 9999) || (t_month time <? 0) || (t_month time >? 11) ||
     (t_day time <? 1) || (t_day time >? 31) then st_fail E_PARAM
  else
    do! buffer := st_lift (fmt_var 256 "%x-%x-%x" [FI (t_day time); FD (get_imap_month (t_month time)); FI (t_year time)]) in
    raw_skip_fill buffer.

(** ** Searches *)

Definition search_0_word (type : ie_search_0_t) : string :=
  match type with
  | IE_SEARCH_ALL => "ALL" | IE_SEARCH_ANSWERED => "ANSWERED" | IE_SEARCH_DELETED => "DELETED"
  | IE_SEARCH_FLAGGED => "FLAGGED" | IE_SEARCH_NEW => "NEW" | IE_SEARCH_OLD => "OLD"
  | IE_SEARCH_RECENT => "RECENT" | IE_SEARCH_SEEN => "SEEN" | IE_SEARCH_UNANSWERED => "UNANSWERED"
  | IE_SEARCH_UNDELETED => "UNDELETED" | IE_SEARCH_UNFLAGGED => "UNFLAGGED" | IE_SEARCH_UNSEEN => "UNSEEN"
  | IE_SEARCH_DRAFT => "DRAFT" | IE_SEARCH_UNDRAFT => "UNDRAFT"
  end.
(** The code prints SUBJECT with the keys that have no parameter. *)
Definition search_dstr_skip_fill (type : ie_search_dstr_t) (d : bytes) : sfm unit :=
  let word s := do! _ := static s in astring_skip_fill d in
  match type with
  | IE_SEARCH_SUBJECT => static "SUBJECT"
  | IE_SEARCH_BCC => word "BCC "
  | IE_SEARCH_BODY => word "BODY "
  | IE_SEARCH_CC => word "CC "
  | IE_SEARCH_FROM => word "FROM "
  | IE_SEARCH_KEYWORD => word "KEYWORD "
  | IE_SEARCH_TEXT => word "TEXT "
  | IE_SEARCH_TO => word "TO "
  | IE_SEARCH_UNKEYWORD => word "UNKEYWORD "
  end.
Definition search_date_word (type : ie_search_date_t) : string :=
  match type with
  | IE_SEARCH_BEFORE => "BEFORE " | IE_SEARCH_ON => "ON " | IE_SEARCH_SINCE => "SINCE "
  | IE_SEARCH_SENTBEFORE => "SENTBEFORE " | IE_SEARCH_SENTON => "SENTON " | IE_SEARCH_SENTSINCE => "SENTSINCE "
  end.
Definition entry_type_word (t : ie_entry_type_t) : string :=
  match t with IE_ENTRY_PRIV => "priv" | IE_ENTRY_SHARED => "shared" | IE_ENTRY_ALL => "all" end.

Fixpoint search_key_skip_fill (key : ie_search_key_t) : sfm unit :=
  match key with
  | Search0 type => static (search_0_word type)
  | SearchDstr type d => search_dstr_skip_fill type d
  | IE_SEARCH_HEADER name value =>
      do! _ := static "HEADER " in
      do! _ := astring_skip_fill name in
      do! _ := astring_skip_fill value in
      static " "
  | SearchDate type date => do! _ := static (search_date_word type) in search_date_skip_fill date
  | SearchNum IE_SEARCH_LARGER n => do! _ := static "LARGER " in num_skip_fill n
  | SearchNum IE_SEARCH_SMALLER n => do! _ := static "SMALLER " in num_skip_fill n
  | SearchSet IE_SEARCH_UID set => do! _ := static "UID " in seq_set_skip_fill set
  | SearchSet IE_SEARCH_SEQ_SET set => seq_set_skip_fill set
  | SearchKey IE_SEARCH_NOT k => do! _ := static "NOT " in search_key_skip_fill k
  | SearchKey IE_SEARCH_GROUP k =>
      do! _ := static "(" in do! _ := search_key_skip_fill k in static ")"
  | SearchPair IE_SEARCH_OR a b =>
      do! _ := static "OR " in do! _ := search_key_skip_fill a in do! _ := static " " in search_key_skip_fill b
  | SearchPair IE_SEARCH_AND a b =>
      do! _ := search_key_skip_fill a in do! _ := static " " in search_key_skip_fill b
  | IE_SEARCH_MODSEQ ext modseq =>
      do! _ := assert_on EXT_CONDSTORE in
      do! _ := static "MODSEQ " in
      do! _ := match ext with
               | None => st_ret tt
               | Some x =>
                   do! _ := st_lift (assert_quotable (entry_name x)) in
                   do! _ := quoted_skip_fill_noval (entry_name x) in
                   do! _ := static " " in
                   do! _ := static (entry_type_word (entry_type x)) in
                   static " "
               end in
      modseqnum_skip_fill modseq
  end.

(** ** FETCH and STORE *)

Definition headers_skip_fill (headers : list bytes) : sfm unit :=
  do! _ := sep_list " " astring_skip_fill headers in static ")".
Definition sect_txt_skip_fill (t : ie_sect_txt_t) : sfm unit :=
  match t with
  | IE_SECT_MIME => static "MIME"
  | IE_SECT_TEXT => static "TEXT"
  | IE_SECT_HEADER => static "HEADER"
  | IE_SECT_HDR_FLDS headers => do! _ := static "HEADER.FIELDS (" in headers_skip_fill headers
  | IE_SECT_HDR_FLDS_NOT headers => do! _ := static "HEADER.FIELDS.NOT (" in headers_skip_fill headers
  end.
(** The section of a body, with the printer of the numbers of its part. *)
Definition sect_skip_fill (num : Z -> sfm unit) (s : option ie_sect_t) : sfm unit :=
  match s with
  | None => st_ret tt
  | Some s =>
      do! _ := sep_list "." num (sect_part s) in
      match sect_txt s with
      | None => st_ret tt
      | Some t =>
          do! _ := (if null (sect_part s) then st_ret tt else static ".") in
          sect_txt_skip_fill t
      end
  end.
Definition fetch_extra_skip_fill (ex : ie_fetch_extra_t) : sfm unit :=
  do! _ := static "BODY" in
  do! _ := (if ex_peek ex then static ".PEEK" else st_ret tt) in
  do! _ := static "[" in
  do! _ := sect_skip_fill num_skip_fill (ex_sect ex) in
  do! _ := static "]" in
  match ex_partial ex with
  | None => st_ret tt
  | Some (a, b) =>
      do! _ := static "<" in
      do! _ := num_skip_fill a in
      do! _ := static "." in
      do! _ := num_skip_fill b in
      static ">"
  end.
Definition fetch_attr_skip_fill (attr : ie_fetch_attrs_t) : sfm unit :=
  do! _ := static "(" in
  do! sp := item (at_envelope attr) (static "ENVELOPE") false in
  do! sp := item (at_flags attr) (static "FLAGS") sp in
  do! sp := item (at_intdate attr) (static "INTERNALDATE") sp in
  do! sp := item (at_uid attr) (static "UID") sp in
  do! sp := item (at_rfc822 attr) (static "RFC822") sp in
  do! sp := item (at_rfc822_header attr) (static "RFC822.HEADER") sp in
  do! sp := item (at_rfc822_size attr) (static "RFC822.SIZE") sp in
  do! sp := item (at_rfc822_text attr) (static "RFC822.TEXT") sp in
  do! sp := item (at_body attr) (static "BODY") sp in
  do! sp := item (at_bodystruct attr) (static "BODYSTRUCTURE") sp in
  do! sp := item (at_modseq attr) (static "MODSEQ") sp in
  do! _ := sp_list fetch_extra_skip_fill (at_extras attr) sp in
  static ")".

Definition fetch_mod_skip_fill (m : ie_fetch_mod_t) : sfm unit :=
  match m with
  | IE_FETCH_MOD_CHGSINCE chgsince =>
      do! _ := assert_on EXT_CONDSTORE in
      do! _ := static "CHANGEDSINCE " in
      nzmodseqnum_skip_fill chgsince
  | IE_FETCH_MOD_VANISHED =>
      do! _ := assert_on EXT_QRESYNC in
      static "VANISHED"
  end.
Definition fetch_mods_skip_fill (mods : list ie_fetch_mod_t) : sfm unit :=
  if null mods then st_ret tt
  else
    do! _ := static "(" in
    do! _ := sp_list fetch_mod_skip_fill mods false in
    static ")".
Definition store_mod_skip_fill (m : ie_store_mod_t) : sfm unit :=
  match m with
  | IE_STORE_MOD_UNCHGSINCE unchgsince =>
      do! _ := assert_on EXT_CONDSTORE in
      do! _ := static "UNCHANGEDSINCE " in
      modseqnum_skip_fill unchgsince
  end.
Definition store_mods_skip_fill (mods : list ie_store_mod_t) : sfm unit :=
  if null mods then st_ret tt
  else
    do! _ := static "(" in
    do! _ := sp_list store_mod_skip_fill mods false in
    static ")".

(** VANISHED needs UID FETCH and CHANGEDSINCE. *)
Fixpoint check_vanished (uid_mode : bool) (mods : list ie_fetch_mod_t) (chgsince vanished : bool) : res unit :=
  match mods with
  | [] => if vanished && negb chgsince then Err E_PARAM else Ok tt
  | IE_FETCH_MOD_VANISHED :: mods =>
      if negb uid_mode then Err E_PARAM else check_vanished uid_mode mods chgsince true
  | IE_FETCH_MOD_CHGSINCE _ :: mods => check_vanished uid_mode mods true vanished
  end.

(** ** Commands *)

Definition append_skip_fill (a : ie_append_cmd_t) : sfm unit :=
  do! _ := static "APPEND " in
  do! _ := mailbox_skip_fill (ap_m a) in
  do! _ := static " (" in
  do! _ := flags_skip_fill (ap_flags a) in
  do! _ := static ") " in
  do! _ := (if t_year (ap_time a) =? 0 then st_ret tt
            else do! _ := date_time_skip_fill (ap_time a) in static " ") in
  literal_skip_fill (ap_content a).
Definition fetch_skip_fill (f : ie_fetch_cmd_t) : sfm unit :=
  do! _ := (if fe_uid_mode f then static "UID " else st_ret tt) in
  do! _ := static "FETCH " in
  do! _ := seq_set_skip_fill (fe_seq_set f) in
  do! _ := static " " in
  do! _ := fetch_attr_skip_fill (fe_attr f) in
  do! _ := (if null (fe_mods f) then st_ret tt
            else do! _ := static " " in fetch_mods_skip_fill (fe_mods f)) in
  st_lift (check_vanished (fe_uid_mode f) (fe_mods f) false false).
Definition store_skip_fill (s : ie_store_cmd_t) : sfm unit :=
  do! _ := (if st_uid_mode s then static "UID " else st_ret tt) in
  do! _ := static "STORE " in
  if null (st_seq_set s) then st_fail E_PARAM
  else
    do! _ := seq_set_skip_fill (st_seq_set s) in
    do! _ := (if null (st_mods s) then st_ret tt
              else do! _ := static " " in store_mods_skip_fill (st_mods s)) in
    do! _ := static " " in
    do! _ := (if st_sign s >? 0 then static "+" else if st_sign s <? 0 then static "-" else st_ret tt) in
    do! _ := static "FLAGS" in
    do! _ := (if st_silent s then static ".SILENT" else st_ret tt) in
    do! _ := static " (" in
    do! _ := flags_skip_fill (st_flags s) in
    static ")".

Definition cmd_arg_skip_fill (arg : imap_cmd_arg_t) : sfm unit :=
  match arg with
  | IMAP_CMD_ERROR _ | IMAP_CMD_PLUS_REQ _ => st_ret tt
  | IMAP_CMD_CAPA => static "CAPABILITY"
  | IMAP_CMD_NOOP => static "NOOP"
  | IMAP_CMD_LOGOUT => static "LOGOUT"
  | IMAP_CMD_STARTTLS => static "STARTTLS"
  | IMAP_CMD_LOGIN user pass =>
      do! _ := static "LOGIN " in
      do! _ := astring_skip_fill user in
      do! _ := static " " in
      astring_skip_fill pass
  | IMAP_CMD_SELECT m params =>
      do! _ := static "SELECT " in do! _ := mailbox_skip_fill m in select_params_skip_fill params
  | IMAP_CMD_EXAMINE m params =>
      do! _ := static "EXAMINE " in do! _ := mailbox_skip_fill m in select_params_skip_fill params
  | IMAP_CMD_CREATE m => do! _ := static "CREATE " in mailbox_skip_fill m
  | IMAP_CMD_DELETE m => do! _ := static "DELETE " in mailbox_skip_fill m
  | IMAP_CMD_RENAME old new =>
      do! _ := static "RENAME " in do! _ := mailbox_skip_fill old in do! _ := static " " in mailbox_skip_fill new
  | IMAP_CMD_SUB m => do! _ := static "SUBSCRIBE " in mailbox_skip_fill m
  | IMAP_CMD_UNSUB m => do! _ := static "UNSUBSCRIBE " in mailbox_skip_fill m
  | IMAP_CMD_LIST m pattern =>
      do! _ := static "LIST " in do! _ := mailbox_skip_fill m in do! _ := static " " in astring_skip_fill pattern
  | IMAP_CMD_LSUB m pattern =>
      do! _ := static "LSUB " in do! _ := mailbox_skip_fill m in do! _ := static " " in astring_skip_fill pattern
  | IMAP_CMD_STATUS m status_attr => status_cmd_skip_fill m status_attr
  | IMAP_CMD_APPEND a => append_skip_fill a
  | IMAP_CMD_CHECK => static "CHECK"
  | IMAP_CMD_CLOSE => static "CLOSE"
  | IMAP_CMD_EXPUNGE uids =>
      if null uids then static "EXPUNGE"
      else
        do! _ := assert_on EXT_UIDPLUS in
        do! _ := static "UID EXPUNGE " in
        uid_set_skip_fill uids
  | IMAP_CMD_SEARCH uid_mode charset key =>
      do! _ := (if uid_mode then static "UID " else st_ret tt) in
      do! _ := static "SEARCH " in
      do! _ := match charset with
               | None => st_ret tt
               | Some c => do! _ := astring_skip_fill c in static " "
               end in
      search_key_skip_fill key
  | IMAP_CMD_FETCH f => fetch_skip_fill f
  | IMAP_CMD_STORE s => store_skip_fill s
  | IMAP_CMD_COPY uid_mode set m =>
      do! _ := (if uid_mode then static "UID " else st_ret tt) in
      do! _ := static "COPY " in
      do! _ := seq_set_skip_fill set in
      do! _ := static " " in
      mailbox_skip_fill m
  | IMAP_CMD_ENABLE names =>
      do! _ := assert_on EXT_ENABLE in do! _ := static "ENABLE" in each atom_skip_fill names
  | IMAP_CMD_UNSELECT => do! _ := assert_on EXT_UNSELECT in static "UNSELECT"
  | IMAP_CMD_IDLE => do! _ := assert_on EXT_IDLE in static "IDLE"
  | IMAP_CMD_IDLE_DONE error =>
      do! _ := assert_on EXT_IDLE in
      match error with
      | Some d => do! _ := static "BAD " in text_skip_fill d
      | None => static "DONE"
      end
  | IMAP_CMD_XKEYSYNC fingerprints =>
      do! _ := assert_on EXT_XKEY in do! _ := static "XKEYSYNC" in each atom_skip_fill fingerprints
  | IMAP_CMD_XKEYSYNC_DONE => do! _ := assert_on EXT_XKEY in static "DONE"
  | IMAP_CMD_XKEYADD key =>
      do! _ := assert_on EXT_XKEY in do! _ := static "XKEYADD " in literal_skip_fill key
  end.

Definition tagged (arg : imap_cmd_arg_t) : bool :=
  match arg with IMAP_CMD_IDLE_DONE _ | IMAP_CMD_XKEYSYNC_DONE => false | _ => true end.
Definition cmd_skip_fill (cmd : imap_cmd_t) : sfm unit :=
  match cmd_arg cmd with
  | IMAP_CMD_ERROR _ | IMAP_CMD_PLUS_REQ _ => st_fail E_INTERNAL
  | _ =>
      do! _ := (if tagged (cmd_arg cmd) then do! _ := tag_skip_fill (cmd_tag cmd) in static " " else st_ret tt) in
      do! _ := cmd_arg_skip_fill (cmd_arg cmd) in
      static crlf
  end.

(** ** Responses *)

Definition st_code_body_skip_fill (code : ie_st_code_t) : sfm unit :=
  match code with
  | IE_ST_CODE_ALERT => static "ALERT"
  | IE_ST_CODE_PARSE => static "PARSE"
  | IE_ST_CODE_READ_ONLY => static "READ-ONLY"
  | IE_ST_CODE_READ_WRITE => static "READ-WRITE"
  | IE_ST_CODE_TRYCREATE => static "TRYCREATE"
  | IE_ST_CODE_UIDNEXT n => do! _ := static "UIDNEXT " in nznum_skip_fill n
  | IE_ST_CODE_UIDVLD n => do! _ := static "UIDVALIDITY " in nznum_skip_fill n
  | IE_ST_CODE_UNSEEN n => do! _ := static "UNSEEN " in nznum_skip_fill n
  | IE_ST_CODE_PERMFLAGS pflags =>
      do! _ := static "PERMANENTFLAGS (" in do! _ := pflags_skip_fill pflags in static ")"
  | IE_ST_CODE_CAPA capa => do! _ := static "CAPABILITY " in sep_list " " atom_skip_fill capa
  | IE_ST_CODE_ATOM name text =>
      do! _ := atom_skip_fill name in
      match text with
      | None => st_ret tt
      | Some t => do! _ := static " " in st_code_text_skip_fill t
      end
  | IE_ST_CODE_UIDNOSTICK => do! _ := assert_on EXT_UIDPLUS in static "UIDNOTSTICKY"
  | IE_ST_CODE_APPENDUID uidvld uid =>
      do! _ := assert_on EXT_UIDPLUS in
      do! _ := static "APPENDUID " in
      do! _ := nznum_skip_fill uidvld in
      do! _ := static " " in
      nznum_skip_fill uid
  | IE_ST_CODE_COPYUID uidvld uids_in uids_out =>
      do! _ := assert_on EXT_UIDPLUS in
      do! _ := static "COPYUID " in
      do! _ := nznum_skip_fill uidvld in
      do! _ := static " " in
      do! _ := uid_set_skip_fill uids_in in
      do! _ := static " " in
      uid_set_skip_fill uids_out
  | IE_ST_CODE_NOMODSEQ => do! _ := assert_on EXT_CONDSTORE in static "NOMODSEQ"
  | IE_ST_CODE_HIMODSEQ n =>
      do! _ := assert_on EXT_CONDSTORE in do! _ := static "HIGHESTMODSEQ " in nzmodseqnum_skip_fill n
  | IE_ST_CODE_MODIFIED set =>
      do! _ := assert_on EXT_CONDSTORE in do! _ := static "MODIFIED " in seq_set_skip_fill set
  | IE_ST_CODE_CLOSED =>
      do! _ := st_lift (extension_assert_available exts EXT_QRESYNC) in static "CLOSED"
  end.
Definition st_code_skip_fill (code : ie_st_code_t) : sfm unit :=
  do! _ := static "[" in do! _ := st_code_body_skip_fill code in static "]".
(** [if(code){ ...; STATIC_SKIP_FILL(" "); }] *)
Definition opt_code_skip_fill (code : option ie_st_code_t) : sfm unit :=
  match code with
  | None => st_ret tt
  | Some c => do! _ := st_code_skip_fill c in static " "
  end.

Definition st_skip_fill (tag : option bytes) (status : ie_status_t) (code : option ie_st_code_t) (text : bytes) : sfm unit :=
  do! _ := match tag with
           | Some t => do! _ := tag_skip_fill t in static " "
           | None => static "* "
           end in
  do! _ := raw_skip_fill (ie_status_to_dstr status) in
  do! _ := static " " in
  do! _ := opt_code_skip_fill code in
  text_skip_fill text.

Definition list_resp_skip_fill (l : ie_list_resp_t) : sfm unit :=
  do! _ := static "(" in
  do! _ := mflags_skip_fill (li_mflags l) in
  do! _ := raw_skip_fill (lit ") " ++ [34]) in
  do! _ := (if unquotable (li_sep l) then st_fail E_PARAM
            else if li_sep l =? chr "\" then static "\\"
            else if li_sep l =? 34 then raw_skip_fill [chr "\"; 34]
            else do! sep := st_lift (fmt_var 2 "%x" [FC (li_sep l)]) in raw_skip_fill sep) in
  do! _ := raw_skip_fill (34 :: lit " ") in
  mailbox_skip_fill (li_m l).

Definition status_item (sa : ie_status_attr_resp_t) (k : Z) (word : string) (n : Z) (sp : bool) : sfm bool :=
  item (has (sa_attrs sa) k) (do! _ := static word in num_skip_fill n) sp.
Definition status_resp_skip_fill (m : ie_mailbox_t) (sa : ie_status_attr_resp_t) : sfm unit :=
  do! _ := mailbox_skip_fill m in
  do! _ := static " (" in
  do! sp := status_item sa IE_STATUS_ATTR_MESSAGES "MESSAGES " (sa_messages sa) false in
  do! sp := status_item sa IE_STATUS_ATTR_RECENT "RECENT " (sa_recent sa) sp in
  do! sp := status_item sa IE_STATUS_ATTR_UIDNEXT "UIDNEXT " (sa_uidnext sa) sp in
  do! sp := status_item sa IE_STATUS_ATTR_UIDVLD "UIDVALIDITY " (sa_uidvld sa) sp in
  do! sp := status_item sa IE_STATUS_ATTR_UNSEEN "UNSEEN " (sa_unseen sa) sp in
  do! _ := (if has (sa_attrs sa) IE_STATUS_ATTR_HIMODSEQ then
              do! _ := assert_on EXT_CONDSTORE in
              do! _ := lead_sp sp in
              do! _ := static "HIGHESTMODSEQ " in
              modseqnum_skip_fill (sa_himodseq sa)
            else st_ret tt) in
  static ")".

Definition search_resp_skip_fill (search : option ie_search_resp_t) : sfm unit :=
  do! _ := static "SEARCH" in
  match search with
  | None => st_ret tt
  | Some s =>
      do! _ := each nznum_skip_fill (nums s) in
      if negb (modseq_present s) then st_ret tt
      else
        do! _ := assert_on EXT_CONDSTORE in
        if null (nums s) then st_fail E_PARAM
        else
          do! _ := static " (MODSEQ " in
          do! _ := nzmodseqnum_skip_fill (modseqnum s) in
          static ")"
  end.

(** An error of nstring_skip_fill would be dropped here; it has none. *)
Definition ignore (m : sfm unit) : sfm unit := fun sf =>
  match m sf with
  | (Err _, sf) => (Ok tt, sf)
  | r => r
  end.
Definition addr_skip_fill (addr : list ie_addr_t) : sfm unit :=
  if null addr then static "NIL"
  else
    do! _ := static "(" in
    do! _ := sp_list (fun p =>
               do! _ := ignore (nstring_skip_fill (ad_name p)) in
               do! _ := static " NIL " in
               do! _ := ignore (nstring_skip_fill (ad_mailbox p)) in
               do! _ := static " " in
               ignore (nstring_skip_fill (ad_host p))) addr false in
    static ")".
Definition envelope_skip_fill (en : ie_envelope_t) : sfm unit :=
  do! _ := static "(" in
  do! _ := nstring_skip_fill (en_date en) in
  do! _ := static " " in
  do! _ := nstring_skip_fill (en_subj en) in
  do! _ := static " " in
  do! _ := addr_skip_fill (en_from en) in
  do! _ := static " " in
  do! _ := addr_skip_fill (en_sender en) in
  do! _ := static " " in
  do! _ := addr_skip_fill (en_reply_to en) in
  do! _ := static " " in
  do! _ := addr_skip_fill (en_to en) in
  do! _ := static " " in
  do! _ := addr_skip_fill (en_cc en) in
  do! _ := static " " in
  do! _ := addr_skip_fill (en_bcc en) in
  do! _ := static " " in
  do! _ := nstring_skip_fill (en_in_reply_to en) in
  do! _ := static " " in
  do! _ := nstring_skip_fill (en_msg_id en) in
  static ")".

Definition body_params_skip_fill (params : list mime_param_t) : sfm unit :=
  if null params then static "NIL"
  else
    do! _ := static "(" in
    do! _ := sp_list (fun p => do! _ := string_skip_fill (fst p) in
                               do! _ := static " " in
                               string_skip_fill (snd p)) params false in
    static ")".
Definition body_disp_skip_fill (disp : option ie_body_disp_t) : sfm unit :=
  match disp with
  | None => static "NIL"
  | Some d =>
      do! _ := static "(" in
      do! _ := string_skip_fill (di_disp d) in
      do! _ := static " " in
      do! _ := body_params_skip_fill (di_params d) in
      static ")"
  end.
Definition body_lang_skip_fill (lang : list bytes) : sfm unit :=
  match lang with
  | [] => static "NIL"
  | [l] => string_skip_fill l
  | _ =>
      do! _ := static "(" in
      do! _ := sp_list string_skip_fill lang false in
      static ")"
  end.

(** LEAD_SP and a part of a body. *)
Definition spaced (m : sfm unit) : sfm unit := do! _ := static " " in m.
(** The parts of all bodies but multiparts after the subtype, up to the size. *)
Definition body_head_skip_fill (c : body_fields) : sfm unit :=
  do! _ := string_skip_fill (typestr (content_type c)) in
  do! _ := spaced (string_skip_fill (subtypestr (content_type c))) in
  do! _ := spaced (body_params_skip_fill (ct_params (content_type c))) in
  do! _ := spaced (nstring_skip_fill (content_id c)) in
  do! _ := spaced (nstring_skip_fill (description c)) in
  do! _ := spaced (match content_transfer_encoding c with
                   | None => raw_skip_fill (34 :: lit "7BIT" ++ [34])
                   | Some d => string_skip_fill d
                   end) in
  spaced (num_skip_fill (nbytes c)).
Definition body_ext_skip_fill (c : body_fields) (with_ext multi : bool) : sfm unit :=
  if with_ext then
    do! _ := (if multi then st_ret tt else spaced (nstring_skip_fill (md5 c))) in
    do! _ := spaced (body_disp_skip_fill (disposition c)) in
    do! _ := spaced (body_lang_skip_fill (lang c)) in
    spaced (nstring_skip_fill (location c))
  else st_ret tt.

(** For a multipart LEAD_SP before the first part only sets [sp]. *)
Fixpoint body_skip_fill (body : ie_body_t) (with_ext : bool) : sfm unit :=
  do! _ := static "(" in
  do! _ := match body with
           | IE_BODY_MULTI c parts =>
               do! _ := (fix subs (parts : list ie_body_t) : sfm unit :=
                           match parts with
                           | [] => st_ret tt
                           | sub :: parts => do! _ := body_skip_fill sub with_ext in subs parts
                           end) parts in
               do! _ := spaced (string_skip_fill (subtypestr (content_type c))) in
               do! _ := (if with_ext then spaced (body_params_skip_fill (ct_params (content_type c))) else st_ret tt) in
               body_ext_skip_fill c with_ext true
           | IE_BODY_TEXT c nlines =>
               do! _ := body_head_skip_fill c in
               do! _ := spaced (num_skip_fill nlines) in
               body_ext_skip_fill c with_ext false
           | IE_BODY_MESSAGE c envelope msgbody nlines =>
               do! _ := body_head_skip_fill c in
               do! _ := spaced (envelope_skip_fill envelope) in
               do! _ := spaced (body_skip_fill msgbody with_ext) in
               do! _ := spaced (num_skip_fill nlines) in
               body_ext_skip_fill c with_ext false
           | IE_BODY_BASIC c =>
               do! _ := body_head_skip_fill c in
               body_ext_skip_fill c with_ext false
           end in
  static ")".

Definition fetch_resp_extra_skip_fill (ex : ie_fetch_resp_extra_t) : sfm unit :=
  do! _ := static "BODY[" in
  do! _ := sect_skip_fill nznum_skip_fill (re_sect ex) in
  do! _ := static "]" in
  do! _ := match re_offset ex with
           | None => st_ret tt
           | Some n => do! _ := static "<" in do! _ := num_skip_fill n in static ">"
           end in
  do! _ := static " " in
  nstring_skip_fill (re_content ex).

(** [if(x){ LEAD_SP; ... }] for an optional part. *)
Definition opt_item {A} (x : option A) (word : string) (f : A -> sfm unit) (sp : bool) : sfm bool :=
  match x with
  | None => st_ret sp
  | Some a => item true (do! _ := static word in f a) sp
  end.
Definition fetch_resp_skip_fill (f : ie_fetch_resp_t) : sfm unit :=
  do! _ := nznum_skip_fill (fr_seq_num f) in
  do! _ := static " FETCH (" in
  do! sp := opt_item (fr_flags f) "FLAGS (" (fun fl => do! _ := fflags_skip_fill (Some fl) in static ")") false in
  do! sp := item (negb (fr_uid f =? 0)) (do! _ := static "UID " in nznum_skip_fill (fr_uid f)) sp in
  do! sp := item (negb (t_year (fr_intdate f) =? 0)) (do! _ := static "INTERNALDATE " in date_time_skip_fill (fr_intdate f)) sp in
  do! sp := opt_item (fr_rfc822 f) "RFC822 " string_skip_fill sp in
  do! sp := opt_item (fr_rfc822_hdr f) "RFC822.HEADER " string_skip_fill sp in
  do! sp := opt_item (fr_rfc822_text f) "RFC822.TEXT " string_skip_fill sp in
  do! sp := opt_item (fr_rfc822_size f) "RFC822.SIZE " num_skip_fill sp in
  do! sp := opt_item (fr_envelope f) "ENVELOPE " envelope_skip_fill sp in
  do! sp := opt_item (fr_body f) "BODY " (fun b => body_skip_fill b false) sp in
  do! sp := opt_item (fr_bodystruct f) "BODYSTRUCTURE " (fun b => body_skip_fill b true) sp in
  do! sp := (if fr_modseq f =? 0 then st_ret sp
             else
               do! _ := assert_on EXT_CONDSTORE in
               item true (do! _ := static "MODSEQ (" in
                          do! _ := nzmodseqnum_skip_fill (fr_modseq f) in
                          static ")") sp) in
  do! _ := sp_list fetch_resp_extra_skip_fill (fr_extras f) sp in
  static ")".

Definition resp_arg_skip_fill (resp : imap_resp_t) : sfm unit :=
  match resp with
  | IMAP_RESP_PLUS code text =>
      do! _ := static "+" in
      do! _ := static " " in
      do! _ := opt_code_skip_fill code in
      text_skip_fill text
  | IMAP_RESP_STATUS_TYPE tag status code text => st_skip_fill tag status code text
  | IMAP_RESP_CAPA capa => do! _ := static "CAPABILITY" in each atom_skip_fill capa
  | IMAP_RESP_LIST l => do! _ := static "LIST " in list_resp_skip_fill l
  | IMAP_RESP_LSUB l => do! _ := static "LSUB " in list_resp_skip_fill l
  | IMAP_RESP_STATUS m sa => do! _ := static "STATUS " in status_resp_skip_fill m sa
  | IMAP_RESP_FLAGS flags => do! _ := static "FLAGS (" in do! _ := flags_skip_fill flags in static ")"
  | IMAP_RESP_SEARCH search => search_resp_skip_fill search
  | IMAP_RESP_EXISTS n => do! _ := num_skip_fill n in static " EXISTS"
  | IMAP_RESP_EXPUNGE n => do! _ := nznum_skip_fill n in static " EXPUNGE"
  | IMAP_RESP_RECENT n => do! _ := num_skip_fill n in static " RECENT"
  | IMAP_RESP_FETCH f => fetch_resp_skip_fill f
  | IMAP_RESP_ENABLED names => do! _ := assert_on EXT_ENABLE in do! _ := static "ENABLED" in each atom_skip_fill names
  | IMAP_RESP_VANISHED earlier uids =>
      do! _ := assert_on EXT_QRESYNC in
      do! _ := static "VANISHED " in
      do! _ := (if earlier then static "(EARLIER) " else st_ret tt) in
      uid_set_skip_fill uids
  | IMAP_RESP_XKEYSYNC x =>
      do! _ := assert_on EXT_QRESYNC in
      do! _ := static "XKEYSYNC " in
      match x with
      | None => static "OK"
      | Some (XkeysyncCreated key) => do! _ := static "CREATED " in literal_skip_fill key
      | Some (XkeysyncDeleted fpr) => do! _ := static "DELETED " in atom_skip_fill fpr
      end
  end.
Definition untagged (resp : imap_resp_t) : bool :=
  match resp with IMAP_RESP_STATUS_TYPE _ _ _ _ | IMAP_RESP_PLUS _ _ => false | _ => true end.
Definition resp_skip_fill (resp : imap_resp_t) : sfm unit :=
  do! _ := (if untagged resp then static "* " else st_ret tt) in
  do! _ := resp_arg_skip_fill resp in
  static crlf.

(** ** Writing in chunks and in whole *)

(** A run from [skip]: the new values of [skip] and [want]. *)
Definition do_write (m : sfm unit) (skip : Z) (enforce_output : bool) : stm dstr (Z * Z) := fun out =>
  match m (mkSf out skip 0 0) with
  | (Ok _, sf) =>
      if enforce_output && (sf_passed sf =? skip) then (Err E_INTERNAL, sf_out sf)
      else (Ok (sf_passed sf, sf_want sf), sf_out sf)
  | (Err e, sf) => (Err e, sf_out sf)
  | (Stop s, sf) => (Stop s, sf_out sf)
  end.
Definition chunk_write (m : sfm unit) (skip : Z) : stm dstr (Z * Z) := fun out =>
  do_write m skip (d_size out - d_len out >? 2) out.
(** Measure and validate, grow the output, write. *)
Definition whole_print (m : sfm unit) : stm dstr unit := fun out =>
  match do_write m 0 false (mkD [] 0 true) with
  | (Ok (_, want), _) =>
      (do! _ := dstr_grow_quiet (d_len out + want) in
       do! _ := do_write m 0 true in
       st_ret tt) out
  | (Err e, _) => (Err e, out)
  | (Stop s, _) => (Stop s, out)
  end.
(** The object, or it is freed. *)
Definition assert_writable {A} (m : sfm unit) (a : A) : res A :=
  let! _ := fst (do_write m 0 false (mkD [] 0 true)) in Ok a.
End writing.

Section api.
Context `{Alloc}.

Definition do_imap_cmd_write (exts : extensions_t) (cmd : imap_cmd_t) (skip : Z) (enforce_output : bool) : stm dstr (Z * Z) :=
  do_write (cmd_skip_fill exts true cmd) skip enforce_output.
Definition do_imap_resp_write (exts : extensions_t) (resp : imap_resp_t) (skip : Z) (enforce_output : bool) : stm dstr (Z * Z) :=
  do_write (resp_skip_fill exts false resp) skip enforce_output.
Definition imap_cmd_write (exts : extensions_t) (cmd : imap_cmd_t) (skip : Z) : stm dstr (Z * Z) :=
  chunk_write (cmd_skip_fill exts true cmd) skip.
Definition imap_resp_write (exts : extensions_t) (resp : imap_resp_t) (skip : Z) : stm dstr (Z * Z) :=
  chunk_write (resp_skip_fill exts false resp) skip.
Definition imap_cmd_print (exts : extensions_t) (cmd : imap_cmd_t) : stm dstr unit :=
  whole_print (cmd_skip_fill exts true cmd).
Definition imap_resp_print (exts : extensions_t) (resp : imap_resp_t) : stm dstr unit :=
  whole_print (resp_skip_fill exts false resp).
Definition imap_cmd_assert_writable (exts : extensions_t) (cmd : imap_cmd_t) : res imap_cmd_t :=
  assert_writable (cmd_skip_fill exts true cmd) cmd.
Definition imap_resp_assert_writable (exts : extensions_t) (resp : imap_resp_t) : res imap_resp_t :=
  assert_writable (resp_skip_fill exts false resp) resp.

(** The first 80 characters, for debug messages. The view that drops the last three
    is a buffer of a fixed size without space. *)
Definition abbreviate (buf : dstr) (want : Z) : dstr :=
  if negb (want =? 0) && (d_len buf >? 3) then
    let sub := dstr_sub2 (d_data buf) 0 (d_len buf - 3) in
    snd (dstr_append_quiet (lit "...") (mkD sub (zlen sub) true))
  else buf.
Definition _fmt_icmd {W} (w : writer W) (cmd : imap_cmd_t) : stm W unit :=
  match imap_cmd_write all_on cmd 0 (mkD [] 80 true) with
  | (Ok (_, want), buf) => fmt_strn_dbg w (d_data (abbreviate buf want))
  | (Err e, _) => st_fail e
  | (Stop s, _) => st_lift (Stop s)
  end.
Definition _fmt_iresp {W} (w : writer W) (resp : imap_resp_t) : stm W unit :=
  match imap_resp_write all_on resp 0 (mkD [] 80 true) with
  | (Ok (_, want), buf) => fmt_strn_dbg w (d_data (abbreviate buf want))
  | (Err e, _) => st_fail e
  | (Stop s, _) => st_lift (Stop s)
  end.
End api.
