(* ===== verification/ImapChunks.v ===== *)
(** * The chunks of written commands and responses

    Every writer of ImapWrite either fails, whatever the buffer and the skip, or prints a
    fixed sequence of units; a run feeds these units to the state. It follows that the
    chunks make up the whole text, and the shape of the text. *)

From S2P Require Import Prelude Dstr Fmt Cvt ImapTypes ImapWrite.

(** ** Units *)

Definition emit1 (u : bytes) (sf : skip_fill_t) : skip_fill_t :=
  if (sf_want sf >? 0) || (d_len (sf_out sf) + zlen u >? d_size (sf_out sf)) then add_want (zlen u) sf
  else add_passed 1 (set_out (set_data (d_data (sf_out sf) ++ u) (sf_out sf)) sf).
Definition feed1 (sf : skip_fill_t) (u : bytes) : skip_fill_t :=
  if sf_skip sf >? 0 then do_skip 1 sf else emit1 u sf.
Definition feed (us : list bytes) (sf : skip_fill_t) : skip_fill_t := fold_left feed1 us sf.

Definition is_unit (u : bytes) : Prop := 1 <= zlen u <= 2.
Definition singles (inp : bytes) : list bytes := map (fun b => [b]) inp.
Definition esc_unit (c : Z) : bytes :=
  if c =? chr "\" then lit "\\" else if c =? 34 then [chr "\"; 34] else [c].

(** What holds between two pieces of a run. *)
Record sf_ok (sf : skip_fill_t) : Prop := mkSfOk {
  ok_skip : 0 <= sf_skip sf;
  ok_want : 0 <= sf_want sf;
  ok_order : 0 < sf_want sf -> sf_skip sf = 0;
  ok_len : d_len (sf_out sf) <= d_size (sf_out sf)
}.

Lemma feed_app us vs sf : feed (us ++ vs) sf = feed vs (feed us sf).
Proof. apply fold_left_app. Qed.

Lemma d_len_set_data b d : d_len (set_data b d) = zlen b.
Proof. reflexivity. Qed.

Lemma feed1_ok u sf : sf_ok sf -> sf_ok (feed1 sf u).
Proof.
  intros [Hs Hw Ho Hl]. unfold feed1, emit1. pose proof (zlen_nonneg u).
  destruct (sf_skip sf >? 0) eqn:E; [|destruct (_ || _) eqn:E2]; bool_to_prop; rewrite ?Z.gtb_ltb in *; bool_to_prop;
    constructor; cbn; rewrite ?d_len_set_data, ?zlen_app; unfold d_len in *; try lia.
Qed.

Lemma feed_ok us sf : sf_ok sf -> sf_ok (feed us sf).
Proof. revert sf. induction us as [|u us IH]; intros sf H; [done|]. by apply IH, feed1_ok. Qed.

Lemma append_fits `{Alloc} b d : d_len d + zlen b <= d_size d -> dstr_append_quiet b d = (Ok tt, set_data (d_data d ++ b) d).
Proof. intros E. unfold dstr_append_quiet. rewrite Z.gtb_ltb. by destruct (Z.ltb_spec (d_size d) (d_len d + zlen b)); [lia|]. Qed.

Lemma sub2_take (b : bytes) s n : 0 <= s -> 0 <= n -> dstr_sub2 b s (s + n) = take (Z.to_nat n) (drop (Z.to_nat s) b).
Proof.
  intros. unfold dstr_sub2, slice. pose proof (zlen_nonneg b).
  destruct (Z.le_ge_cases (zlen b) s).
  - rewrite !(drop_ge b); [by rewrite !take_nil|unfold zlen in *; lia..].
  - rewrite (Z.min_r (zlen b) s) by lia.
    destruct (Z.le_ge_cases (s + n) (zlen b)).
    + rewrite Z.min_r, Z.max_r by lia. do 2 f_equal. lia.
    + rewrite Z.min_l, Z.max_r by lia. rewrite !take_ge; [done|rewrite length_drop; unfold zlen in *; lia..].
Qed.

Lemma dstr_eta d : mkD (d_data d) (d_size d) (d_fixed d) = d.
Proof. by destruct d. Qed.

Ltac sf_simp := unfold add_passed, add_want, do_skip, set_out in *; cbn [sf_out sf_skip sf_passed sf_want] in *.

(** A plain input is fed byte by byte. *)
Lemma raw_step `{Alloc} b inp sf : sf_ok sf -> raw_skip_fill (b :: inp) sf = raw_skip_fill inp (feed1 sf [b]).
Proof.
  destruct sf as [out sk pa wa]. intros [Hs Hw Ho Hl]. unfold raw_skip_fill, feed1, emit1.
  pose proof (zlen_nonneg inp) as Hn. rewrite zlen_cons. change (zlen [b]) with 1.
  sf_simp. rewrite !Z.gtb_ltb. destruct (Z.ltb_spec 0 wa).
  { rewrite Ho by done. change (0 <? 0) with false. cbn [orb]. sf_simp.
    destruct (Z.ltb_spec 0 (wa + 1)); [|lia]. do 2 f_equal. lia. }
  assert (wa = 0) as -> by lia. cbn [orb]. destruct (Z.ltb_spec 0 sk).
  - sf_simp. cbn [Z.ltb Z.compare]. set (s := Z.min (sk - 1) (zlen inp)).
    replace (Z.min sk (1 + zlen inp)) with (1 + s) by lia.
    set (sp := d_size out - d_len out).
    rewrite !sub2_take by lia. replace (Z.to_nat (1 + s)) with (S (Z.to_nat s)) by lia. cbn [drop].
    replace (1 + s + sp <? 1 + zlen inp) with (s + sp <? zlen inp)
      by (destruct (Z.ltb_spec (s + sp) (zlen inp)), (Z.ltb_spec (1 + s + sp) (1 + zlen inp)); lia || done).
    destruct (s + sp <? zlen inp); do 2 f_equal; lia.
  - assert (sk = 0) as -> by lia. rewrite !Z.min_l by lia.
    destruct (Z.ltb_spec (d_size out) (d_len out + 1)); sf_simp.
    + replace (d_size out - d_len out) with 0 by lia.
      rewrite (sub2_take _ 0 0) by lia. change (Z.to_nat 0) with O. rewrite !take_0.
      rewrite append_fits by (change (zlen (@nil Z)) with 0; lia). cbn [snd].
      destruct (Z.ltb_spec (0 + 0) (1 + zlen inp)); [|lia]. change (0 <? 0 + 1) with true. cbv iota.
      unfold set_data. rewrite app_nil_r, dstr_eta. change (zlen (@nil Z)) with 0. do 2 f_equal; lia.
    + remember (d_size out - d_len out) as sp eqn:Esp.
      rewrite (Z.min_l 0) by lia. rewrite (sub2_take (b :: inp) 0 sp) by lia.
      replace (Z.to_nat sp) with (S (Z.to_nat (sp - 1))) by lia. change (Z.to_nat 0) with O. cbn [drop take].
      change (0 <? 0) with false. cbv iota. rewrite d_len_set_data, zlen_app. change (zlen [b]) with 1. fold (d_len out).
      change (d_size (set_data (d_data out ++ [b]) out)) with (d_size out).
      replace (d_size out - (d_len out + 1)) with (sp - 1) by lia.
      rewrite (sub2_take inp 0 (sp - 1)) by lia. change (Z.to_nat 0) with O. cbn [drop].
      rewrite !append_fits by (cbn [d_size set_data]; rewrite ?d_len_set_data, ?zlen_cons, ?zlen_app, ?zlen_take;
        fold (d_len out); change (zlen [b]) with 1; lia).
      cbn [snd]. replace (0 + sp <? 1 + zlen inp) with (0 + (sp - 1) <? zlen inp)
        by (destruct (Z.ltb_spec (0 + (sp - 1)) (zlen inp)), (Z.ltb_spec (0 + sp) (1 + zlen inp)); lia || done).
      unfold set_data. cbn [d_data d_size d_fixed]. rewrite zlen_cons, <- !app_assoc. cbn [app].
      rewrite drop_0. destruct (0 + (sp - 1) <? zlen inp); do 2 f_equal; lia.
Qed.

Lemma raw_feed `{Alloc} inp sf : sf_ok sf -> raw_skip_fill inp sf = (Ok tt, feed (singles inp) sf).
Proof.
  revert sf. induction inp as [|b inp IH]; intros sf Hok.
  - destruct sf as [out sk pa wa]. destruct Hok as [Hs Hw Ho Hl]. unfold raw_skip_fill. sf_simp.
    rewrite Z.gtb_ltb. change (zlen (@nil Z)) with 0. destruct (Z.ltb_spec 0 wa); sf_simp; [cbn; do 2 f_equal; lia|].
    rewrite Z.min_r by lia. rewrite (sub2_take [] 0) by lia. change (Z.to_nat 0) with O. rewrite drop_0, take_nil.
    rewrite append_fits by (change (zlen (@nil Z)) with 0; lia). cbn [snd].
    destruct (Z.ltb_spec (0 + (d_size out - d_len out)) 0); [lia|].
    unfold set_data. rewrite app_nil_r, dstr_eta. change (zlen (@nil Z)) with 0. sf_simp. cbn. do 2 f_equal; lia.
  - rewrite raw_step by done. by apply IH, feed1_ok.
Qed.

(** A quoted input is fed escape by escape. *)
Lemma esc_unit_unit c : is_unit (esc_unit c).
Proof. unfold is_unit, esc_unit. destruct (c =? chr "\"); [|destruct (c =? 34)]; by vm_compute. Qed.

Lemma esc_loop_feed `{Alloc} inp sf : sf_ok sf -> sf_skip sf = 0 \/ inp = [] -> quote_esc_loop inp sf = (Ok tt, feed (map esc_unit inp) sf).
Proof.
  revert sf. induction inp as [|c inp IH]; intros sf Hok Hor; [done|].
  destruct Hor as [Hs|]; [|done]. cbn [quote_esc_loop map]. cbn zeta.
  change (feed (esc_unit c :: map esc_unit inp) sf) with (feed (map esc_unit inp) (feed1 sf (esc_unit c))).
  rewrite <- IH; [|by apply feed1_ok|].
  2: { left. unfold feed1. rewrite Hs. cbn. unfold emit1. destruct (_ || _); done. }
  f_equal. unfold feed1. rewrite Hs. change (0 >? 0) with false. cbv iota.
  destruct Hok as [_ _ _ Hl]. unfold emit1, esc_unit.
  destruct (c =? chr "\"); [|destruct (c =? 34)].
  - change (zlen (lit "\\")) with 2. destruct (_ || _) eqn:E; [done|]. bool_to_prop. rewrite Z.gtb_ltb in *. bool_to_prop.
    rewrite append_fits by (change (zlen (lit "\\")) with 2; lia). done.
  - change (zlen [chr "\"; 34]) with 2. destruct (_ || _) eqn:E; [done|]. bool_to_prop. rewrite Z.gtb_ltb in *. bool_to_prop.
    rewrite append_fits by (change (zlen [chr "\"; 34]) with 2; lia). done.
  - change (zlen [c]) with 1.
    replace (d_len (sf_out sf) =? d_size (sf_out sf)) with (d_len (sf_out sf) + 1 >? d_size (sf_out sf)); [done|].
    rewrite Z.gtb_ltb. destruct (Z.ltb_spec (d_size (sf_out sf)) (d_len (sf_out sf) + 1)), (Z.eqb_spec (d_len (sf_out sf)) (d_size (sf_out sf))); lia || done.
Qed.

Lemma quote_esc_feed `{Alloc} inp sf : sf_ok sf -> quote_esc_skip_fill_noval inp sf = (Ok tt, feed (map esc_unit inp) sf).
Proof.
  revert sf. induction inp as [|c inp IH]; intros sf Hok.
  - unfold quote_esc_skip_fill_noval. destruct Hok. change (zlen (@nil Z)) with 0. rewrite Z.min_r by done. cbn. unfold do_skip. destruct sf. cbn. do 2 f_equal; lia.
  - change (feed (map esc_unit (c :: inp)) sf) with (feed (map esc_unit inp) (feed1 sf (esc_unit c))).
    unfold feed1. rewrite Z.gtb_ltb. destruct (Z.ltb_spec 0 (sf_skip sf)) as [Hlt|Hge].
    + rewrite <- IH.
      2: { replace (do_skip 1 sf) with (feed1 sf []); [by apply feed1_ok|]. unfold feed1. rewrite Z.gtb_ltb. by destruct (Z.ltb_spec 0 (sf_skip sf)); [|lia]. }
      unfold quote_esc_skip_fill_noval. rewrite zlen_cons. pose proof (zlen_nonneg inp). cbn [sf_skip do_skip].
      replace (Z.min (sf_skip sf) (1 + zlen inp)) with (1 + Z.min (sf_skip sf - 1) (zlen inp)) by lia.
      set (s := Z.min (sf_skip sf - 1) (zlen inp)). replace (Z.to_nat (1 + s)) with (S (Z.to_nat s)) by lia. cbn [drop].
      f_equal. unfold do_skip. cbn. f_equal; lia.
    + destruct Hok as [Hs Hw Ho Hl]. assert (Hz : sf_skip sf = 0) by lia.
      unfold quote_esc_skip_fill_noval. rewrite Hz, Z.min_l by apply zlen_nonneg. change (Z.to_nat 0) with O. rewrite drop_0.
      replace (do_skip 0 sf) with sf by (destruct sf; unfold do_skip; cbn in *; f_equal; lia).
      rewrite esc_loop_feed by (constructor || left; done). cbn [map].
      change (feed (esc_unit c :: map esc_unit inp) sf) with (feed (map esc_unit inp) (feed1 sf (esc_unit c))).
      unfold feed1. by rewrite Hz.
Qed.

(** ** What a run leaves *)

(** How many units fit into a space. *)
Fixpoint fit (space : Z) (us : list bytes) : nat :=
  match us with
  | [] => O
  | u :: us => if zlen u <=? space then S (fit (space - zlen u) us) else O
  end.

Lemma fit_le space us : (fit space us <= length us)%nat.
Proof. revert space. induction us as [|u us IH]; intros space; cbn; [done|]. destruct (_ <=? _); [specialize (IH (space - zlen u)); lia|lia]. Qed.

Lemma fit_all space us : zlen (concat us) <= space -> fit space us = length us.
Proof.
  revert space. induction us as [|u us IH]; intros space Hs; cbn; [done|]. cbn in Hs. rewrite zlen_app in Hs.
  pose proof (zlen_nonneg (concat us)). destruct (Z.leb_spec (zlen u) space); [|lia]. rewrite IH by lia. done.
Qed.

Lemma fit_pos space us : Forall is_unit us -> us <> [] -> 2 <= space -> (1 <= fit space us)%nat.
Proof. intros [|u l [H1 H2] Hl] Hn Hs; [done|]. cbn. destruct (Z.leb_spec (zlen u) space); lia. Qed.

Lemma fit_zero us : Forall is_unit us -> fit 0 us = O.
Proof. intros [|u l [H1 H2] Hl]; [done|]. cbn. destruct (Z.leb_spec (zlen u) 0); lia. Qed.

Lemma units_length us : Forall is_unit us -> Z.of_nat (length us) <= zlen (concat us).
Proof.
  induction 1 as [|u us [H1 H2] Hus IH]; [done|]. cbn [concat length]. rewrite zlen_app. lia.
Qed.
Lemma units_zero us : Forall is_unit us -> zlen (concat us) = 0 -> us = [].
Proof. intros H Hz. pose proof (units_length us H). by destruct us; [|cbn in *; lia]. Qed.

Lemma feed_want us sf : Forall is_unit us -> sf_ok sf -> 0 < sf_want sf -> feed us sf = add_want (zlen (concat us)) sf.
Proof.
  intros Hus. revert sf. induction Hus as [|u us [H1 H2] Hus IH]; intros sf Hok Hw.
  { destruct sf. unfold add_want. cbn. f_equal. change (zlen (@nil Z)) with 0. lia. }
  change (feed (u :: us) sf) with (feed us (feed1 sf u)). rewrite IH; [|by apply feed1_ok|];
    unfold feed1; rewrite (ok_order sf Hok Hw); change (0 >? 0) with false; unfold emit1; rewrite Z.gtb_ltb;
    destruct (Z.ltb_spec 0 (sf_want sf)); try lia; cbn [orb]; unfold add_want; cbn [sf_want sf_out sf_skip sf_passed]; [|lia].
  f_equal. cbn [concat]. rewrite zlen_app. lia.
Qed.

Lemma feed_skip us out passed n : feed us (mkSf out (Z.of_nat n) passed 0) =
  feed (drop n us) (mkSf out (Z.of_nat (n - length us)) (passed + Z.of_nat (n `min` length us)) 0).
Proof.
  revert us passed. induction n as [|n IH]; intros us passed.
  - rewrite drop_0. change (Z.of_nat (0 `min` length us)) with 0. by rewrite Z.add_0_r.
  - destruct us as [|u us]; [cbn; f_equal; lia|].
    change (feed (u :: us) ?sf) with (feed us (feed1 sf u)). unfold feed1. cbn [sf_skip].
    rewrite Z.gtb_ltb. destruct (Z.ltb_spec 0 (Z.of_nat (S n))); [|lia].
    unfold do_skip. cbn [sf_out sf_skip sf_passed sf_want]. replace (Z.of_nat (S n) - 1) with (Z.of_nat n) by lia.
    rewrite IH. cbn [drop length Nat.sub]. do 2 f_equal. lia.
Qed.

Lemma feed_fill us d size fixed passed : Forall is_unit us -> zlen d <= size ->
  let n := fit (size - zlen d) us in
  feed us (mkSf (mkD d size fixed) 0 passed 0) =
  mkSf (mkD (d ++ concat (take n us)) size fixed) 0 (passed + Z.of_nat n) (zlen (concat (drop n us))).
Proof.
  intros Hus. revert d passed. induction Hus as [|u us [H1 H2] Hus IH]; intros d passed Hd.
  { cbn. rewrite app_nil_r. f_equal. lia. }
  cbn zeta. change (feed (u :: us) ?sf) with (feed us (feed1 sf u)). cbn [fit]. unfold feed1, emit1. cbn [sf_skip sf_out sf_want sf_passed].
  change (0 >? 0) with false. cbn [orb]. change (d_len (mkD d size fixed)) with (zlen d). cbn [d_size]. rewrite Z.gtb_ltb.
  destruct (Z.ltb_spec size (zlen d + zlen u)), (Z.leb_spec (zlen u) (size - zlen d)); try lia.
  - rewrite feed_want; [|done| |cbn; lia].
    + unfold add_want. cbn [sf_out sf_skip sf_passed sf_want take drop concat]. rewrite app_nil_r, zlen_app. f_equal. cbn. lia.
    + constructor; cbn; unfold d_len; cbn; lia.
  - unfold set_out, add_passed, set_data. cbn [sf_out sf_skip sf_passed sf_want d_data d_size d_fixed].
    rewrite IH by (rewrite zlen_app; lia). rewrite zlen_app. replace (size - (zlen d + zlen u)) with (size - zlen d - zlen u) by lia.
    cbn [take drop concat]. rewrite app_assoc. f_equal; lia.
Qed.

(** A run from the start. *)
Lemma feed_run us out n : Forall is_unit us -> d_len out <= d_size out -> (n <= length us)%nat ->
  let k := fit (d_size out - d_len out) (drop n us) in
  feed us (mkSf out (Z.of_nat n) 0 0) =
  mkSf (set_data (d_data out ++ concat (take k (drop n us))) out) 0 (Z.of_nat (n + k)) (zlen (concat (drop (n + k) us))).
Proof.
  intros Hus Hl Hn. cbn zeta. rewrite feed_skip. replace (n - length us)%nat with O by lia. rewrite Nat.min_l by lia.
  destruct out as [d size fixed]. rewrite feed_fill by (done || by apply Forall_drop).
  rewrite drop_drop. unfold set_data, d_len. cbn [d_data d_size d_fixed]. f_equal. lia.
Qed.

(** ** Writers with a fixed text *)

Section uniform.
Context `{Alloc}.

Definition prints {A} (m : sfm A) (a : A) (us : list bytes) : Prop :=
  Forall is_unit us /\ forall sf, sf_ok sf -> m sf = (Ok a, feed us sf).
Definition refuses {A} (m : sfm A) (e : etype) : Prop := forall sf, sf_ok sf -> exists sf', m sf = (Err e, sf').

(** What is said of a text: it holds for texts of ordinary characters and for the
    concatenations of texts that have it. *)
Definition plain (c : Z) : Prop := c <> 13 /\ c <> 10 /\ c <> 0 /\ c <> 123.
Class TextProp (P : bytes -> Prop) := {
  tp_plain : forall t, Forall plain t -> P t;
  tp_app : forall s t, P s -> P t -> P (s ++ t)
}.

(** A writer that cannot fail, and one that prints or fails whatever the state. *)
Definition total {A} (P : bytes -> Prop) (m : sfm A) : Prop := exists a us, prints m a us /\ P (concat us).
Definition uniform {A} (P : bytes -> Prop) (m : sfm A) : Prop := total P m \/ exists e, refuses m e.

Lemma prints_ret {A} (a : A) : prints (st_ret a) a [].
Proof. split; [done|]. by intros [] ?. Qed.
Lemma prints_bind {A B} (m : sfm A) (k : A -> sfm B) a us b vs :
  prints m a us -> prints (k a) b vs -> prints (st_bind m k) b (us ++ vs).
Proof.
  intros [Hu Hm] [Hv Hk]. split; [by apply Forall_app|]. intros sf Hok. unfold st_bind. rewrite Hm by done.
  rewrite feed_app. apply Hk, feed_ok, Hok.
Qed.
Lemma prints_raw inp : prints (raw_skip_fill inp) tt (singles inp).
Proof. split; [|apply raw_feed]. apply Forall_fmap, Forall_true. intros b. by vm_compute. Qed.
Lemma prints_esc inp : prints (quote_esc_skip_fill_noval inp) tt (map esc_unit inp).
Proof. split; [|apply quote_esc_feed]. apply Forall_fmap, Forall_true. apply esc_unit_unit. Qed.
Lemma concat_singles inp : concat (singles inp) = inp.
Proof. unfold singles. induction inp as [|b inp IH]; [done|]. cbn. by rewrite IH. Qed.

Context (P : bytes -> Prop) `{!TextProp P}.

Lemma total_ret {A} (a : A) : total P (st_ret a).
Proof. exists a, []. split; [apply prints_ret|]. by apply tp_plain. Qed.
Lemma total_raw inp : P inp -> total P (raw_skip_fill inp).
Proof. exists tt, (singles inp). rewrite concat_singles. split; [apply prints_raw|done]. Qed.
Lemma total_bind {A B} (m : sfm A) (k : A -> sfm B) : total P m -> (forall a, total P (k a)) -> total P (st_bind m k).
Proof.
  intros (a & us & Hm & HP) Hk. destruct (Hk a) as (b & vs & Hv & HQ).
  exists b, (us ++ vs). split; [by eapply prints_bind|]. rewrite concat_app. by apply tp_app.
Qed.
Lemma uniform_total {A} (m : sfm A) : total P m -> uniform P m.
Proof. by left. Qed.
Lemma uniform_fail {A} e : uniform (A := A) P (st_fail e).
Proof. right. exists e. intros sf _. by eexists. Qed.
Lemma refuses_bind {A B} (m : sfm A) (k : A -> sfm B) e : refuses m e -> refuses (st_bind m k) e.
Proof. intros Hm sf Hok. destruct (Hm sf Hok) as [sf' E]. exists sf'. by apply st_fail_bind. Qed.
Lemma refuses_after {A B} (m : sfm A) (k : A -> sfm B) a us e : prints m a us -> refuses (k a) e -> refuses (st_bind m k) e.
Proof. intros [_ Hm] Hk sf Hok. unfold st_bind. rewrite Hm by done. apply Hk, feed_ok, Hok. Qed.
Lemma uniform_bind {A B} (m : sfm A) (k : A -> sfm B) : uniform P m -> (forall a, uniform P (k a)) -> uniform P (st_bind m k).
Proof.
  intros [(a & us & Hm & HP)|[e He]] Hk; [|right; exists e; by apply refuses_bind].
  destruct (Hk a) as [(b & vs & Hv & HQ)|[e He]].
  - left. exists b, (us ++ vs). split; [by eapply prints_bind|]. rewrite concat_app. by apply tp_app.
  - right. exists e. by eapply refuses_after.
Qed.
Lemma uniform_lift {A} (r : res A) : (forall s, r <> Stop s) -> uniform P (st_lift r).
Proof.
  intros Hs. destruct r as [a|e|s]; [|right; exists e; intros sf _; by eexists|by destruct (Hs s)].
  left. exists a, []. split; [|by apply tp_plain]. split; [done|]. by intros sf _.
Qed.
Lemma uniform_lift_ok {A B} (r : res A) a (k : A -> sfm B) : r = Ok a -> uniform P (k a) -> uniform P (st_bind (st_lift r) k).
Proof.
  intros -> [(b & us & [Hu Hk] & HP)|[e He]]; [left; exists b, us; split; [split|]; done|right; by exists e].
Qed.
Lemma uniform_lift_bind {A B} (r : res A) (k : A -> sfm B) :
  (forall s, r <> Stop s) -> (forall a, r = Ok a -> uniform P (k a)) -> uniform P (st_bind (st_lift r) k).
Proof.
  intros Hs Hk. destruct r as [a|e|s] eqn:E; [|right; exists e; intros sf _; by eexists|by destruct (Hs s)].
  by eapply uniform_lift_ok; [|apply Hk].
Qed.

Lemma uniform_static s : Forall plain (lit s) -> uniform P (static s).
Proof. intros Hp. apply uniform_total, total_raw, tp_plain, Hp. Qed.
Lemma uniform_raw t : P t -> uniform P (raw_skip_fill t).
Proof. intros Hp. apply uniform_total, total_raw, Hp. Qed.
Lemma uniform_lead_sp sp : uniform P (lead_sp sp).
Proof. destruct sp; [apply uniform_static; by repeat constructor|apply uniform_total, total_ret]. Qed.
Lemma uniform_if {A} (b : bool) (m k : sfm A) : uniform P m -> uniform P k -> uniform P (if b then m else k).
Proof. by destruct b. Qed.
Lemma uniform_item cond body sp : uniform P body -> uniform P (item cond body sp).
Proof.
  intros Hb. unfold item. apply uniform_if; [|apply uniform_total, total_ret].
  apply uniform_bind; [apply uniform_lead_sp|]. intros _. apply uniform_bind; [done|]. intros _. apply uniform_total, total_ret.
Qed.
Lemma uniform_sp_list {A} (f : A -> sfm unit) l sp : (forall a, uniform P (f a)) -> uniform P (sp_list f l sp).
Proof.
  intros Hf. revert sp. induction l as [|a l IH]; intros sp; [apply uniform_total, total_ret|]. cbn.
  apply uniform_bind; [apply uniform_lead_sp|]. intros _. apply uniform_bind; [done|]. auto.
Qed.
Lemma uniform_sep_list {A} sep (f : A -> sfm unit) l : Forall plain (lit sep) -> (forall a, uniform P (f a)) -> uniform P (sep_list sep f l).
Proof.
  intros Hs Hf. induction l as [|a l IH]; [apply uniform_total, total_ret|]. destruct l as [|b l]; [apply Hf|].
  change (sep_list sep f (a :: b :: l)) with (do! _ := f a in do! _ := static sep in sep_list sep f (b :: l)).
  apply uniform_bind; [done|]. intros _. apply uniform_bind; [by apply uniform_static|]. intros _. done.
Qed.
Lemma uniform_each {A} (f : A -> sfm unit) l : (forall a, uniform P (f a)) -> uniform P (each f l).
Proof.
  intros Hf. induction l as [|a l IH]; [apply uniform_total, total_ret|]. cbn.
  apply uniform_bind; [apply uniform_static; by repeat constructor|]. intros _. apply uniform_bind; [done|]. auto.
Qed.
Lemma uniform_opt_item {A} (x : option A) word (f : A -> sfm unit) sp :
  Forall plain (lit word) -> (forall a, uniform P (f a)) -> uniform P (opt_item x word f sp).
Proof.
  intros Hw Hf. destruct x; [|apply uniform_total, total_ret]. apply uniform_item.
  apply uniform_bind; [by apply uniform_static|]. auto.
Qed.
Lemma uniform_option {A B} (x : option A) (f : A -> sfm B) (m : sfm B) :
  (forall a, uniform P (f a)) -> uniform P m -> uniform P (match x with Some a => f a | None => m end).
Proof. by destruct x. Qed.
Lemma uniform_ignore m : total P m -> uniform P (ignore m).
Proof.
  intros (a & us & [Hu Hm] & HP). left. exists a, us. split; [|done]. split; [done|]. intros sf Hok. unfold ignore. by rewrite Hm.
Qed.
End uniform.

(** ** Ordinary texts *)

Definition plainb (c : Z) : bool := negb (unquotable c || (c =? 123)).
Lemma plainb_spec t : forallb plainb t = true -> Forall plain t.
Proof.
  intros E. apply Forall_forall. intros c Hc. rewrite forallb_forall in E. apply list_elem_of_In in Hc.
  specialize (E c Hc). unfold plainb, unquotable in E. bool_to_prop. unfold plain. lia.
Qed.

Lemma existsb_false {A} (f : A -> bool) l : existsb f l = false -> Forall (fun c => f c = false) l.
Proof. induction l as [|a l IH]; cbn; [done|]. intros E. bool_to_prop. auto. Qed.

Lemma digits_plain t : Forall is_digit t -> Forall plain t.
Proof. intros H. eapply Forall_impl; [exact H|]. unfold is_digit, plain. lia. Qed.
Lemma dec_plain n : Forall plain (dec n).
Proof. apply digits_plain, dec_digits. Qed.
Lemma dec_signed_plain n : Forall plain (dec_signed n).
Proof. eapply Forall_impl; [apply dec_signed_chars|]. unfold is_digit, plain. chr_norm. lia. Qed.

(** An atom has no control characters and no specials. *)
Lemma word_plain (c : Z) x y : astring_special c || (c =? x) || y || ctl c = false -> plain c.
Proof.
  unfold astring_special, ctl, schar, plain. chr_norm. intros E. bool_to_prop.
  destruct (c <? 128); bool_to_prop; lia.
Qed.
Lemma raw_plain val : classify_astring val = IW_RAW -> Forall plain val.
Proof.
  unfold classify_astring. destruct (_ >? _); [done|]. destruct (_ =? _); [done|].
  enough (forall m, classify_astring_loop val m = IW_RAW -> m = true /\ Forall plain val) by (intros E; by apply (H true)).
  induction val as [|c val IH]; intros m; cbn [classify_astring_loop]; [by destruct m|].
  destruct (unquotable c) eqn:Eu; [done|]. destruct (astring_special c) eqn:Es; [intros E; by apply IH in E as [? _]|].
  destruct (ctl c) eqn:Ec; intros E; apply IH in E as [Hm Hv]; [done|]. split; [done|]. constructor; [|done].
  apply (word_plain c 0 false). unfold unquotable in Eu. bool_to_prop. rewrite Es, Ec. by destruct (Z.eqb_spec c 0).
Qed.

Definition noline (t : bytes) : Prop := Forall (fun c => unquotable c = false) t.
Lemma quoted_noline val : classify_astring val = IW_QUOTED -> noline val.
Proof.
  unfold classify_astring. destruct (_ >? _); [done|]. destruct (_ =? _) eqn:E0.
  { intros _. apply Z.eqb_eq in E0. apply zlen_0_nil in E0 as ->. constructor. }
  clear E0. enough (forall m, classify_astring_loop val m = IW_QUOTED -> noline val) by apply H.
  induction val as [|c val IH]; intros m; cbn [classify_astring_loop]; [constructor|].
  destruct (unquotable c) eqn:Eu; [done|]. intros E. constructor; [done|].
  destruct (astring_special c); [exact (IH _ E)|]. destruct (ctl c); exact (IH _ E).
Qed.
Lemma string_noline val : classify_string val = IW_QUOTED -> noline val.
Proof.
  unfold classify_string. destruct (_ >? _); [done|]. destruct (existsb unquotable val) eqn:E; [done|]. intros _.
  by apply existsb_false.
Qed.

Lemma fmt_var_ok `{Alloc} size fstr args t : render (lit fstr) args = t -> zlen t < size -> size < 2 ^ 64 -> fmt_var size fstr args = Ok t.
Proof.
  intros <- Hs Hb. unfold fmt_var. pose proof (zlen_nonneg (render (lit fstr) args)).
  destruct (FMT_ok fstr args (mkD [] size true) 0) as (d & E & Hd & _); [|lia|by rewrite E, Hd].
  unfold room, dstr_wf, d_len. cbn [d_fixed d_size d_data]. change (zlen (@nil Z)) with 0. lia.
Qed.

(** Split a proof that a chain of writers prints or fails into its pieces. *)
Create HintDb unif discriminated.
Ltac unif1 :=
  match goal with
  | |- forall _, _ => intros ?
  | |- uniform _ (st_bind _ _) => apply uniform_bind; [apply _| |]
  | |- uniform _ (static _) => apply uniform_static; [apply _|apply plainb_spec; reflexivity]
  | |- uniform _ (raw_skip_fill (lit _)) => apply uniform_raw; [apply tp_plain, plainb_spec; reflexivity]
  | |- uniform _ (st_ret _) => apply uniform_total, total_ret; apply _
  | |- uniform _ (st_fail _) => apply uniform_fail
  | |- uniform _ (lead_sp _) => apply uniform_lead_sp; apply _
  | |- uniform _ (skip_sp _) => unfold skip_sp
  | |- uniform _ (item _ _ _) => apply uniform_item; [apply _|]
  | |- uniform _ (opt_item _ _ _ _) => apply uniform_opt_item; [apply _|apply plainb_spec; reflexivity|]
  | |- uniform _ (sp_list _ _ _) => apply uniform_sp_list; [apply _|]
  | |- uniform _ (sep_list _ _ _) => apply uniform_sep_list; [apply _|apply plainb_spec; reflexivity|]
  | |- uniform _ (each _ _) => apply uniform_each; [apply _|]
  | |- uniform _ (if ?b then _ else _) => destruct b eqn:?
  | |- uniform _ (match ?x with _ => _ end) => destruct x eqn:?
  | |- _ => solve [auto with unif nocore]
  end.
Ltac unif := repeat unif1.

Section words.
Context `{Alloc} (exts : extensions_t) (P : bytes -> Prop) `{TP : !TextProp P}.

Lemma tag_uniform t : uniform P (tag_skip_fill t).
Proof.
  unfold tag_skip_fill. destruct (existsb _ t) eqn:E; unif. apply uniform_raw. apply tp_plain.
  eapply Forall_impl; [exact (existsb_false _ _ E)|]. intros c Hc. apply (word_plain c (chr "+") false). cbv beta in Hc. by rewrite orb_false_r.
Qed.
Lemma atom_uniform t : uniform P (atom_skip_fill t).
Proof.
  unfold atom_skip_fill. destruct (existsb _ t) eqn:E; unif. apply uniform_raw. apply tp_plain.
  eapply Forall_impl; [exact (existsb_false _ _ E)|]. intros c Hc. apply (word_plain c (chr "]") false). cbv beta in Hc. by rewrite orb_false_r.
Qed.
Lemma print_num_uniform n : uniform P (print_num n).
Proof.
  unfold print_num. pose proof (dec_length n). eapply (uniform_lift_ok _ _ (dec n)).
  - apply fmt_var_ok; [by render_norm|lia|lia].
  - apply uniform_raw. apply tp_plain, dec_plain.
Qed.
#[local] Hint Resolve tag_uniform atom_uniform print_num_uniform : unif.
Lemma num_uniform n : uniform P (num_skip_fill n).
Proof. apply print_num_uniform. Qed.
Lemma nznum_uniform n : uniform P (nznum_skip_fill n).
Proof. unfold nznum_skip_fill. unif. Qed.
Lemma modseqnum_uniform n : uniform P (modseqnum_skip_fill n).
Proof. unfold modseqnum_skip_fill. unif. Qed.
Lemma nzmodseqnum_uniform n : uniform P (nzmodseqnum_skip_fill n).
Proof. unfold nzmodseqnum_skip_fill. unif. Qed.
#[local] Hint Resolve num_uniform nznum_uniform modseqnum_uniform nzmodseqnum_uniform : unif.
Lemma seq_num_uniform n : uniform P (seq_num n).
Proof. unfold seq_num. unif. Qed.
#[local] Hint Resolve seq_num_uniform : unif.
Lemma seq_set_uniform s : uniform P (seq_set_skip_fill s).
Proof. unfold seq_set_skip_fill. unif. Qed.
Lemma uid_set_uniform s : uniform P (uid_set_skip_fill s).
Proof. unfold uid_set_skip_fill. unif. Qed.
Lemma assert_on_uniform t : uniform P (assert_on exts t).
Proof. unfold assert_on. apply uniform_lift; [done|]. intros s. unfold extension_assert_on. by destruct (negb _). Qed.
Lemma extension_uniform d : uniform P (extension_skip_fill d).
Proof. unfold extension_skip_fill. unif. Qed.
#[local] Hint Resolve seq_set_uniform uid_set_uniform assert_on_uniform extension_uniform : unif.
Lemma flags_uniform f : uniform P (flags_skip_fill f).
Proof. unfold flags_skip_fill. unif. Qed.
Lemma pflags_uniform f : uniform P (pflags_skip_fill f).
Proof. unfold pflags_skip_fill. unif. Qed.
Lemma fflags_uniform f : uniform P (fflags_skip_fill f).
Proof. unfold fflags_skip_fill. unif. Qed.
Lemma mflags_uniform f : uniform P (mflags_skip_fill f).
Proof. unfold mflags_skip_fill. unif. Qed.

Lemma dec_signed_short i lo hi : lo <= i <= hi -> - 2 ^ 31 <= lo -> hi < 2 ^ 31 -> zlen (dec_signed i) <= 11.
Proof. intros. pose proof (dec_signed_length_int i). lia. Qed.
Lemma month_short m : zlen (get_imap_month m) = 3 /\ Forall plain (get_imap_month m).
Proof. unfold get_imap_month. repeat case_match; (split; [done|by apply plainb_spec]). Qed.

Lemma search_date_uniform t : uniform P (search_date_skip_fill t).
Proof.
  unfold search_date_skip_fill. destruct (_ || _) eqn:E; [apply uniform_fail|]. bool_to_prop. rewrite !Z.gtb_ltb in *. bool_to_prop.
  destruct (month_short (t_month t)) as [Hl Hp].
  eapply uniform_lift_ok.
  - apply fmt_var_ok; [reflexivity| |lia]. render_norm. repeat rewrite ?zlen_app, ?zlen_cons. rewrite Hl.
    pose proof (dec_signed_short (t_day t) 1 31). pose proof (dec_signed_short (t_year t) 999 9999). lia.
  - apply uniform_raw. apply tp_plain. render_norm.
    repeat first [apply Forall_app_2|apply dec_signed_plain|exact Hp|apply Forall_cons; split; [unfold plain; lia|]].
Qed.

Lemma date_time_uniform t : uniform P (date_time_skip_fill t).
Proof.
  unfold date_time_skip_fill. apply uniform_lift_bind; [unfold validate_time; by destruct (_ || _)|].
  intros [] Hv. unfold validate_time in Hv. destruct (_ || _) eqn:E; [done|]. clear Hv. bool_to_prop. rewrite !Z.gtb_ltb in *. bool_to_prop.
  destruct (month_short (t_month t)) as [Hl Hp].
  assert (Hd : forall i, 0 <= i < 10000 -> zlen (dec_signed i) <= 11 /\ Forall plain (dec_signed i)).
  { intros i Hi. split; [apply (dec_signed_short i 0 10000); lia|apply dec_signed_plain]. }
  assert (Hq : forall i, 0 <= i < 10000 -> 0 <= i ÷ 10 < 10000).
  { intros i Hi. rewrite Z.quot_div_nonneg by lia. split; [apply Z.div_pos; lia|apply Z.div_lt_upper_bound; lia]. }
  assert (Hr : forall i, 0 <= i < 10000 -> 0 <= Z.rem i 10 < 10000).
  { intros i Hi. pose proof (Z.rem_bound_pos i 10). lia. }
  assert (Hday : zlen (render_arg (if t_day t <? 10 then FC 32 else FI (t_day t ÷ 10))) <= 11 /\
                 Forall plain (render_arg (if t_day t <? 10 then FC 32 else FI (t_day t ÷ 10)))).
  { destruct (t_day t <? 10); [by split; [|apply plainb_spec]|]. apply Hd, Hq. lia. }
  assert (Hsign : zlen (if t_z_hour t >=? 0 then lit "+" else lit "-") <= 11 /\ Forall plain (if t_z_hour t >=? 0 then lit "+" else lit "-")).
  { destruct (t_z_hour t >=? 0); (split; [done|by apply plainb_spec]). }
  revert Hday Hsign. generalize (if t_day t <? 10 then FC 32 else FI (t_day t ÷ 10)) (if t_z_hour t >=? 0 then lit "+" else lit "-").
  intros day sign [Hday1 Hday2] [Hs1 Hs2].
  eapply uniform_lift_ok.
  - apply fmt_var_ok; [reflexivity| |lia]. render_norm. repeat rewrite ?zlen_app, ?zlen_cons. rewrite Hl. change (zlen (@nil Z)) with 0.
    repeat match goal with |- context [zlen (dec_signed ?i)] =>
      lazymatch goal with Hx : zlen (dec_signed i) <= 11 |- _ => fail | _ => idtac end;
      assert (zlen (dec_signed i) <= 11) by (apply Hd; try first [apply Hq|apply Hr]; lia) end. lia.
  - apply uniform_raw. apply tp_plain. render_norm.
    repeat first [apply Forall_app_2|apply dec_signed_plain|assumption|apply Forall_nil; done|apply Forall_cons; split; [unfold plain; lia|]].
Qed.
#[local] Hint Resolve flags_uniform pflags_uniform fflags_uniform mflags_uniform search_date_uniform date_time_uniform : unif.

Lemma fetch_mods_uniform m : uniform P (fetch_mods_skip_fill exts m).
Proof. unfold fetch_mods_skip_fill, fetch_mod_skip_fill. unif. Qed.
Lemma store_mods_uniform m : uniform P (store_mods_skip_fill exts m).
Proof. unfold store_mods_skip_fill, store_mod_skip_fill. unif. Qed.
Lemma select_params_uniform p : uniform P (select_params_skip_fill exts p).
Proof. unfold select_params_skip_fill, select_param_skip_fill. unif. Qed.
End words.
#[export] Hint Resolve tag_uniform atom_uniform print_num_uniform num_uniform nznum_uniform modseqnum_uniform nzmodseqnum_uniform
  seq_num_uniform seq_set_uniform uid_set_uniform assert_on_uniform extension_uniform flags_uniform pflags_uniform
  fflags_uniform mflags_uniform search_date_uniform date_time_uniform fetch_mods_uniform store_mods_uniform select_params_uniform : unif.

(** ** Lines with literals *)

(** How a receiver finds the end of a line: at a line break that does not follow the
    announcement [{n}] or [{n+}] of a literal of [n] bytes, which are skipped. *)
Inductive fstate := Line | Open | Count (n : Z) | Plus (n : Z) | Close (n : Z) | Break (n : option Z) | Data (n : Z).

(** The next state, or the end of the line; [Err] for bytes that a line cannot have. *)
Definition frame1 (s : fstate) (c : Z) : res (option fstate) :=
  let text (b : option Z) :=
    if c =? 13 then Ok (Some (Break b)) else if unquotable c then Err E_PARAM
    else if c =? 123 then Ok (Some Open) else Ok (Some Line) in
  let digit := (48 <=? c) && (c <=? 57) in
  match s with
  | Line => text None
  | Open => if digit then Ok (Some (Count (c - 48))) else text None
  | Count n => if digit then Ok (Some (Count (n * 10 + (c - 48)))) else if c =? 43 then Ok (Some (Plus n))
               else if c =? 125 then Ok (Some (Close n)) else text None
  | Plus n => if c =? 125 then Ok (Some (Close n)) else text None
  | Close n => text (Some n)
  | Break None => if c =? 10 then Ok None else Err E_PARAM
  | Break (Some n) => if c =? 10 then Ok (Some (if n =? 0 then Line else Data n)) else Err E_PARAM
  | Data n => Ok (Some (if n =? 1 then Line else Data (n - 1)))
  end.
#[global] Arguments frame1 s c : simpl never.
Fixpoint frames (s : fstate) (t : bytes) : option fstate :=
  match t with
  | [] => Some s
  | c :: t => match frame1 s c with Ok (Some s) => frames s t | _ => None end
  end.
(** What follows the line. *)
Fixpoint read_line (s : fstate) (t : bytes) : option bytes :=
  match t with
  | [] => None
  | c :: t => match frame1 s c with
              | Ok (Some s) => read_line s t
              | Ok None => Some t
              | _ => None
              end
  end.

Lemma frames_app s a b s' : frames s a = Some s' -> frames s (a ++ b) = frames s' b.
Proof. revert s. induction a as [|c a IH]; intros s; cbn; [by intros [= ->]|]. destruct (frame1 s c) as [[|]| |]; try done. apply IH. Qed.
Lemma read_line_app s a b s' : frames s a = Some s' -> read_line s (a ++ b) = read_line s' b.
Proof. revert s. induction a as [|c a IH]; intros s; cbn; [by intros [= ->]|]. destruct (frame1 s c) as [[|]| |]; try done. apply IH. Qed.

(** A text with balanced literals. *)
Definition framed (t : bytes) : Prop := zlen t < 2 ^ 64 -> frames Line t = Some Line.

Lemma frame1_plain c : plain c -> frame1 Line c = Ok (Some Line).
Proof.
  unfold plain, frame1, unquotable. intros (? & ? & ? & ?).
  by destruct (Z.eqb_spec c 13), (Z.eqb_spec c 10), (Z.eqb_spec c 0), (Z.eqb_spec c 123).
Qed.
#[export] Instance framed_text : TextProp framed.
Proof.
  split.
  - intros t Ht _. induction Ht as [|c t Hc Ht IH]; [done|]. cbn. by rewrite frame1_plain.
  - intros s t Hs Ht. unfold framed. rewrite zlen_app. pose proof (zlen_nonneg s). pose proof (zlen_nonneg t). intros Hlt.
    rewrite (frames_app Line s t Line) by (apply Hs; lia). apply Ht. lia.
Qed.
#[export] Instance noline_text : TextProp noline.
Proof.
  split.
  - intros t Ht. eapply Forall_impl; [exact Ht|]. intros c (? & ? & ? & ?). unfold unquotable.
    by destruct (Z.eqb_spec c 13), (Z.eqb_spec c 10), (Z.eqb_spec c 0).
  - intros s t. apply Forall_app_2.
Qed.

(** Inside a line every text without line breaks stays inside it, and a quote ends what
    could have been an announcement. *)
Definition in_line (s : fstate) : Prop := match s with Break _ | Data _ => False | _ => True end.
Lemma in_line_step s c : in_line s -> unquotable c = false -> exists s', frame1 s c = Ok (Some s') /\ in_line s' /\ (c = 34 -> s' = Line).
Proof.
  intros Hs Hc. unfold frame1. rewrite Hc.
  assert (H13 : (c =? 13) = false) by (unfold unquotable in Hc; by bool_to_prop; apply Z.eqb_neq).
  rewrite H13. destruct s; try done; repeat case_match; eexists; (split; [reflexivity|]); (split; [exact I|]);
    intros ->; bool_to_prop; lia || done.
Qed.
Lemma in_line_frames s t : in_line s -> noline t -> exists s', frames s t = Some s' /\ in_line s'.
Proof.
  intros Hs Ht. revert s Hs. induction Ht as [|c t Hc Ht IH]; intros s Hs; [by exists s|].
  destruct (in_line_step s c Hs Hc) as (s1 & E & H1 & _). cbn. rewrite E. by apply IH.
Qed.
Lemma framed_quotes x t y : Forall plain x -> noline t -> Forall plain y -> framed ((x ++ [34]) ++ t ++ 34 :: y).
Proof.
  intros Hx Ht Hy Hlt.
  assert (Hp : Forall plain (x ++ [34])) by (apply Forall_app_2; [done|by apply plainb_spec]).
  rewrite (frames_app Line _ _ Line).
  2: { apply framed_text; [done|]. revert Hlt. rewrite !zlen_app. pose proof (zlen_nonneg t). pose proof (zlen_nonneg (34 :: y)). lia. }
  destruct (in_line_frames Line t I Ht) as (s & E & Hs). rewrite (frames_app _ _ _ _ E).
  destruct (in_line_step s 34 Hs eq_refl) as (s' & E' & _ & Hs'). cbn [frames]. rewrite E', Hs' by done.
  apply framed_text; [done|]. revert Hlt. rewrite !zlen_app, !zlen_cons. change (zlen (@nil Z)) with 0. pose proof (zlen_nonneg x). pose proof (zlen_nonneg t).
  lia.
Qed.

Lemma frames_count t acc v : Forall is_digit t -> digits_value read_base10 10 t acc = Some v -> frames (Count acc) t = Some (Count v).
Proof.
  intros Ht. revert acc. induction Ht as [|c t Hc Ht IH]; intros acc; cbn; [by intros [= ->]|].
  unfold is_digit in Hc. unfold frame1. destruct (Z.leb_spec 48 c), (Z.leb_spec c 57); try lia. cbn [andb].
  assert (Hr : read_base10 c = c - 48).
  { replace c with (chr "0" + (c - 48)) at 1 by (chr_norm; lia). apply read_base10_digit. lia. }
  rewrite Hr. destruct (c - 48 =? UINTMAX_MAX); [done|]. apply IH.
Qed.
Lemma frames_dec n : is_u64 n -> frames Open (dec n) = Some (Count n).
Proof.
  intros Hn. pose proof (frames_count _ 0 n (dec_digits n) (digits_value_dec n Hn)) as Hf.
  destruct (dec_head n) as (d & rest & E & Hd). rewrite E in *. cbn in *. unfold frame1 in *. unfold is_digit in Hd.
  destruct (Z.leb_spec 48 d), (Z.leb_spec d 57); try lia. done.
Qed.
Lemma frames_data n t : zlen t = n -> 0 < n -> frames (Data n) t = Some Line.
Proof.
  revert n. induction t as [|c t IH]; intros n <- Hn; [done|]. cbn. unfold frame1. rewrite zlen_cons in *. pose proof (zlen_nonneg t).
  destruct (Z.eqb_spec (1 + zlen t) 1); [assert (zlen t = 0) as E by lia; by apply zlen_0_nil in E as ->|].
  apply IH; lia.
Qed.
Lemma framed_literal (plus : bytes) inp : plus = [] \/ plus = [43] ->
  framed (([123] ++ dec (zlen inp) ++ plus ++ [125; 13; 10]) ++ inp).
Proof.
  intros Hplus Hlt. rewrite zlen_app in Hlt. pose proof (zlen_nonneg inp). pose proof (zlen_nonneg ([123] ++ dec (zlen inp) ++ plus ++ [125; 13; 10])).
  assert (Hn : is_u64 (zlen inp)) by (unfold is_u64; lia).
  enough (E : frames Line ([123] ++ dec (zlen inp) ++ plus ++ [125; 13; 10]) = Some (if zlen inp =? 0 then Line else Data (zlen inp))).
  { rewrite (frames_app _ _ _ _ E). destruct (Z.eqb_spec (zlen inp) 0) as [Ez|]; [by apply zlen_0_nil in Ez as ->|].
    apply frames_data; lia. }
  cbn [app frames]. change (frame1 Line 123) with (@Ok (option fstate) (Some Open)).
  cbv iota.
  rewrite (frames_app _ _ _ _ (frames_dec _ Hn)). by destruct Hplus as [-> | ->].
Qed.

(** ** Strings *)

Section strings.
Context `{Alloc} (exts : extensions_t) (is_cmd : bool).

Lemma concat_esc t : concat (map esc_unit t) = flat_map esc_unit t.
Proof. symmetry. apply flat_map_concat_map. Qed.
Lemma esc_noline t : noline t -> noline (concat (map esc_unit t)).
Proof.
  induction 1 as [|c t Hc Ht IH]; [constructor|]. cbn [map concat]. apply Forall_app_2; [|done].
  unfold esc_unit. repeat case_match; repeat constructor; done.
Qed.
Lemma esc_total t : noline t -> total noline (quote_esc_skip_fill_noval t).
Proof. intros Ht. exists tt, (map esc_unit t). split; [apply prints_esc|by apply esc_noline]. Qed.

(** A text between quotes. *)
Lemma total_quoted x (m : sfm unit) y : Forall plain x -> Forall plain y -> total noline m ->
  total framed (do! _ := raw_skip_fill (x ++ [34]) in do! _ := m in raw_skip_fill (34 :: y)).
Proof.
  intros Hx Hy (a & us & Hm & Hu). exists tt, (singles (x ++ [34]) ++ us ++ singles (34 :: y)). split.
  - eapply prints_bind; [apply prints_raw|]. eapply prints_bind; [exact Hm|]. apply prints_raw.
  - rewrite !concat_app, !concat_singles. by apply framed_quotes.
Qed.
Lemma quoted_total t : noline t -> total framed (quoted_skip_fill_noval t).
Proof. intros Ht. apply (total_quoted [] _ []); [done|done|by apply esc_total]. Qed.

Lemma literal_total t : total framed (literal_skip_fill is_cmd t).
Proof.
  assert (Hh : exists plus, (plus = [] \/ plus = [43]) /\
    (if is_cmd then fmt_var 64 ("{%x+}" +:+ crlf) [FU (zlen t)] else fmt_var 64 ("{%x}" +:+ crlf) [FU (zlen t)])
    = Ok ([123] ++ dec (zlen t) ++ plus ++ [125; 13; 10])).
  { pose proof (dec_length (zlen t)). destruct is_cmd; [exists [43]|exists []]; (split; [auto|]); apply fmt_var_ok; try lia;
      first [by render_norm|rewrite !zlen_app; change (zlen [123]) with 1; change (zlen [43]) with 1; change (zlen [125;13;10]) with 3; change (zlen (@nil Z)) with 0; lia]. }
  destruct Hh as (plus & Hplus & E). unfold literal_skip_fill.
  exists tt, (singles ([123] ++ dec (zlen t) ++ plus ++ [125; 13; 10]) ++ singles t). split.
  - rewrite E. split; [apply Forall_app_2; apply prints_raw|]. intros sf Hok. cbn [st_bind st_lift].
    apply (prints_bind (raw_skip_fill _) (fun _ => raw_skip_fill t) tt _ tt _ (prints_raw _) (prints_raw _)). done.
  - rewrite concat_app, !concat_singles. by apply framed_literal.
Qed.

Lemma astring_total t : total framed (astring_skip_fill is_cmd t).
Proof.
  unfold astring_skip_fill. destruct (classify_astring t) eqn:E; [apply literal_total|apply quoted_total, quoted_noline, E|].
  apply total_raw, tp_plain, raw_plain, E.
Qed.
Lemma string_total t : total framed (string_skip_fill is_cmd t).
Proof.
  unfold string_skip_fill. destruct (classify_string t) eqn:E; [apply literal_total|apply quoted_total, string_noline, E|apply literal_total].
Qed.
Lemma static_total s : Forall plain (lit s) -> total framed (static s).
Proof. intros Hs. apply total_raw, tp_plain, Hs. Qed.
Lemma nstring_total t : total framed (nstring_skip_fill is_cmd t).
Proof. destruct t; [apply string_total|]. apply static_total. by apply plainb_spec. Qed.
Lemma mailbox_total m : total framed (mailbox_skip_fill is_cmd m).
Proof. unfold mailbox_skip_fill. destruct (m_inbox m); [apply static_total; by apply plainb_spec|apply astring_total]. Qed.

Lemma literal_uniform t : uniform framed (literal_skip_fill is_cmd t).
Proof. apply uniform_total, literal_total. Qed.
Lemma astring_uniform t : uniform framed (astring_skip_fill is_cmd t).
Proof. apply uniform_total, astring_total. Qed.
Lemma string_uniform t : uniform framed (string_skip_fill is_cmd t).
Proof. apply uniform_total, string_total. Qed.
Lemma nstring_uniform t : uniform framed (nstring_skip_fill is_cmd t).
Proof. apply uniform_total, nstring_total. Qed.
Lemma mailbox_uniform m : uniform framed (mailbox_skip_fill is_cmd m).
Proof. apply uniform_total, mailbox_total. Qed.
Lemma ignore_uniform t : uniform framed (ignore (nstring_skip_fill is_cmd t)).
Proof. apply uniform_ignore, nstring_total. Qed.
End strings.
#[export] Hint Resolve literal_uniform astring_uniform string_uniform nstring_uniform mailbox_uniform ignore_uniform : unif.
#[export] Hint Extern 0 (TextProp _) => apply _ : unif.

(** ** Commands and responses *)

Section messages.
Context `{Alloc} (exts : extensions_t) (is_cmd : bool).

Lemma opt_static_uniform P `{!TextProp P} (b : bool) s : Forall plain (lit s) -> uniform P (if b then static s else st_ret tt).
Proof. intros Hs. destruct b; [by apply uniform_static; [apply _|]|apply uniform_total, total_ret; apply _]. Qed.

Lemma quoted_entry_uniform t : uniform framed (do! _ := st_lift (assert_quotable t) in quoted_skip_fill_noval t).
Proof.
  apply uniform_lift_bind; unfold assert_quotable; [by destruct (existsb _ t)|].
  intros [] E. destruct (existsb unquotable t) eqn:Eq; [done|]. apply uniform_total, quoted_total. by apply existsb_false.
Qed.
Lemma st_bind_assoc {S A B C} (m : stm S A) (f : A -> stm S B) (g : B -> stm S C) s :
  st_bind (st_bind m f) g s = st_bind m (fun a => st_bind (f a) g) s.
Proof. unfold st_bind. by destruct (m s) as [[a|e|x] s']. Qed.
Lemma uniform_ext {A} P (m m' : sfm A) : (forall s, m s = m' s) -> uniform P m -> uniform P m'.
Proof.
  intros E [(a & us & [Hu Hm] & HP)|[e He]].
  - left. exists a, us. split; [split; [done|]|done]. intros sf Hok. by rewrite <- E, Hm.
  - right. exists e. intros sf Hok. rewrite <- E. by apply He.
Qed.

Lemma search_key_uniform key : uniform framed (search_key_skip_fill exts is_cmd key).
Proof.
  induction key as [type|type d|name value|type date|type n|type set|type k IH|type a IHa b IHb|ext n]; cbn [search_key_skip_fill].
  - destruct type; cbn [search_0_word]; unif.
  - destruct type; unfold search_dstr_skip_fill; unif.
  - unif.
  - destruct type; cbn [search_date_word]; unif.
  - destruct type; unif.
  - destruct type; unif.
  - destruct type; unif; done.
  - destruct type; unif; done.
  - apply uniform_bind; [apply _|unif|intros _]. apply uniform_bind; [apply _|unif|intros _].
    apply uniform_bind; [apply _| |intros _; unif]. destruct ext as [x|]; [|unif].
    eapply (uniform_ext _ (do! _ := (do! _ := st_lift (assert_quotable (entry_name x)) in quoted_skip_fill_noval (entry_name x)) in _));
      [intros s; apply st_bind_assoc|].
    apply uniform_bind; [apply _|apply quoted_entry_uniform|intros _]. destruct (entry_type x); cbn [entry_type_word]; unif.
Qed.

Lemma sect_uniform num s : (forall n, uniform framed (num n)) -> uniform framed (sect_skip_fill is_cmd num s).
Proof. intros Hn. unfold sect_skip_fill, sect_txt_skip_fill, headers_skip_fill. unif; done. Qed.
#[local] Hint Resolve search_key_uniform sect_uniform num_uniform nznum_uniform : unif.
Lemma fetch_attr_uniform a : uniform framed (fetch_attr_skip_fill is_cmd a).
Proof. unfold fetch_attr_skip_fill, fetch_extra_skip_fill. unif; apply sect_uniform; unif. Qed.
Lemma check_vanished_uniform u m a b : uniform framed (st_lift (check_vanished u m a b)).
Proof.
  apply uniform_lift; [apply _|]. intros s. revert a b. induction m as [|[n|] m IH]; intros a b; cbn [check_vanished]; [by destruct (_ && _)|done|].
  by destruct (negb u).
Qed.
#[local] Hint Resolve fetch_attr_uniform check_vanished_uniform : unif.

Definition idle_error (arg : imap_cmd_arg_t) : bool := match arg with IMAP_CMD_IDLE_DONE (Some _) => true | _ => false end.
Lemma cmd_arg_uniform arg : idle_error arg = false -> uniform framed (cmd_arg_skip_fill exts is_cmd arg).
Proof.
  intros Hi. destruct arg; try done; unfold cmd_arg_skip_fill, status_cmd_skip_fill, append_skip_fill, fetch_skip_fill, store_skip_fill;
    unif; done.
Qed.
Lemma text_uniform t : uniform noline (text_skip_fill t).
Proof.
  unfold text_skip_fill. destruct (existsb unquotable t) eqn:E; [apply uniform_fail|]. apply uniform_raw. by apply existsb_false.
Qed.
Lemma st_code_text_uniform t : uniform noline (st_code_text_skip_fill t).
Proof.
  unfold st_code_text_skip_fill. destruct (existsb _ t) eqn:E; [apply uniform_fail|]. apply uniform_raw.
  eapply Forall_impl; [exact (existsb_false _ _ E)|]. intros c Hc. cbv beta in Hc. by apply orb_false_iff in Hc as [? _].
Qed.
#[local] Hint Resolve text_uniform st_code_text_uniform : unif.

Lemma opt_code_uniform c : uniform noline (opt_code_skip_fill exts c).
Proof.
  unfold opt_code_skip_fill, st_code_skip_fill, st_code_body_skip_fill. unif.
  apply uniform_lift; [apply _|]. intros s. unfold extension_assert_available. by destruct (negb _).
Qed.
#[local] Hint Resolve opt_code_uniform : unif.
Lemma st_uniform tag status code text : uniform noline (st_skip_fill exts tag status code text).
Proof. unfold st_skip_fill. unif. apply uniform_raw. destruct status; by apply tp_plain, plainb_spec. Qed.

(** A piece between quotes and what follows. *)
Lemma uniform_quoted x (m : sfm unit) y (k : sfm unit) : Forall plain x -> Forall plain y -> uniform noline m -> uniform framed k ->
  uniform framed (do! _ := raw_skip_fill (x ++ [34]) in do! _ := m in do! _ := raw_skip_fill (34 :: y) in k).
Proof.
  intros Hx Hy [Hm|[e He]] Hk.
  - eapply (uniform_ext _ (do! _ := (do! _ := raw_skip_fill (x ++ [34]) in do! _ := m in raw_skip_fill (34 :: y)) in k)).
    + intros s. unfold st_bind. destruct (raw_skip_fill (x ++ [34]) s) as [[?|?|?] s1]; try done. by destruct (m s1) as [[?|?|?] s2].
    + apply uniform_bind; [apply _| |done]. apply uniform_total. by apply total_quoted.
  - right. exists e. eapply refuses_after; [apply prints_raw|]. by apply refuses_bind.
Qed.

Lemma list_resp_uniform l : uniform framed (list_resp_skip_fill is_cmd l).
Proof.
  unfold list_resp_skip_fill. do 2 (apply uniform_bind; [apply _|unif|intros _]).
  apply uniform_quoted; [by apply plainb_spec|by apply plainb_spec| |unif].
  destruct (unquotable (li_sep l)) eqn:E; [apply uniform_fail|].
  destruct (li_sep l =? chr "\"); [unif|]. destruct (li_sep l =? 34); [apply uniform_raw; by repeat constructor|].
  eapply uniform_lift_ok; [apply fmt_var_ok; [reflexivity|by render_norm|lia]|]. render_norm. apply uniform_raw. by repeat constructor.
Qed.

Lemma addr_uniform a : uniform framed (addr_skip_fill is_cmd a).
Proof. unfold addr_skip_fill. unif. Qed.
#[local] Hint Resolve addr_uniform : unif.
Lemma envelope_uniform en : uniform framed (envelope_skip_fill is_cmd en).
Proof. unfold envelope_skip_fill. unif. Qed.
Lemma body_params_uniform l : uniform framed (body_params_skip_fill is_cmd l).
Proof. unfold body_params_skip_fill. unif. Qed.
#[local] Hint Resolve envelope_uniform body_params_uniform : unif.
Lemma body_disp_uniform d : uniform framed (body_disp_skip_fill is_cmd d).
Proof. unfold body_disp_skip_fill. unif. Qed.
Lemma body_lang_uniform l : uniform framed (body_lang_skip_fill is_cmd l).
Proof. unfold body_lang_skip_fill. unif. Qed.
#[local] Hint Resolve body_disp_uniform body_lang_uniform : unif.
Lemma body_head_uniform c : uniform framed (body_head_skip_fill is_cmd c).
Proof. unfold body_head_skip_fill, spaced. unif. apply uniform_raw. apply (framed_quotes [] (lit "7BIT") []); by vm_compute; repeat constructor. Qed.
Lemma body_ext_uniform c w m : uniform framed (body_ext_skip_fill is_cmd c w m).
Proof. unfold body_ext_skip_fill, spaced. unif. Qed.
#[local] Hint Resolve body_head_uniform body_ext_uniform : unif.

(** Induction on bodies with their lists of parts. *)
Fixpoint body_ind' (Q : ie_body_t -> Prop) (Hmulti : forall c parts, Forall Q parts -> Q (IE_BODY_MULTI c parts))
    (Htext : forall c n, Q (IE_BODY_TEXT c n)) (Hmsg : forall c en b n, Q b -> Q (IE_BODY_MESSAGE c en b n))
    (Hbasic : forall c, Q (IE_BODY_BASIC c)) (b : ie_body_t) : Q b :=
  let rec := body_ind' Q Hmulti Htext Hmsg Hbasic in
  match b with
  | IE_BODY_MULTI c parts => Hmulti c parts ((fix all l : Forall Q l :=
      match l with [] => Forall_nil_2 Q | b :: l => Forall_cons_2 Q b l (rec b) (all l) end) parts)
  | IE_BODY_TEXT c n => Htext c n
  | IE_BODY_MESSAGE c en b n => Hmsg c en b n (rec b)
  | IE_BODY_BASIC c => Hbasic c
  end.
Lemma body_uniform b w : uniform framed (body_skip_fill is_cmd b w).
Proof.
  induction b as [c parts IH|c n|c en b n IH|c] using body_ind'; cbn [body_skip_fill]; unfold spaced; unif; try done.
  induction IH as [|b l Hb Hl IHl]; [unif|]. apply uniform_bind; [apply _|exact Hb|intros _; exact IHl].
Qed.
#[local] Hint Resolve body_uniform list_resp_uniform : unif.

Lemma fetch_extra_uniform ex : uniform framed (fetch_resp_extra_skip_fill is_cmd ex).
Proof. unfold fetch_resp_extra_skip_fill. unif. Qed.
#[local] Hint Resolve fetch_extra_uniform : unif.
Lemma fetch_resp_uniform f : uniform framed (fetch_resp_skip_fill exts is_cmd f).
Proof. unfold fetch_resp_skip_fill. unif. Qed.
Lemma resp_arg_uniform resp : uniform (if untagged resp then framed else noline) (resp_arg_skip_fill exts is_cmd resp).
Proof.
  destruct resp; cbn [untagged resp_arg_skip_fill]; unfold status_resp_skip_fill, status_item, search_resp_skip_fill; unif;
    first [apply st_uniform|apply fetch_resp_uniform].
Qed.

(** A writer of lines. *)
Definition ends (P : bytes -> Prop) (m : sfm unit) : Prop :=
  (exists t us, prints m tt us /\ concat us = t ++ [13; 10] /\ P t) \/ exists e, refuses m e.
Lemma ends_crlf P `{!TextProp P} : ends P (static crlf).
Proof. left. exists [], (singles (lit crlf)). split; [apply prints_raw|]. split; [done|by apply tp_plain]. Qed.
Lemma ends_bind {A} P `{!TextProp P} (m : sfm A) k : uniform P m -> (forall a, ends P (k a)) -> ends P (st_bind m k).
Proof.
  intros [(a & us & Hm & HP)|[e He]] Hk; [|right; exists e; by apply refuses_bind].
  destruct (Hk a) as [(t & vs & Hv & E & HQ)|[e He]]; [|right; exists e; by eapply refuses_after].
  left. exists (concat us ++ t), (us ++ vs). split; [by eapply prints_bind|]. rewrite concat_app, E, app_assoc.
  split; [done|]. by apply tp_app.
Qed.

Lemma resp_ends resp : ends (if untagged resp then framed else noline) (resp_skip_fill exts is_cmd resp).
Proof.
  pose proof (resp_arg_uniform resp) as Ha. unfold resp_skip_fill.
  destruct (untagged resp); (apply ends_bind; [apply _|unif|intros _]); (apply ends_bind; [apply _|exact Ha|intros _; apply ends_crlf; apply _]).
Qed.
Lemma cmd_ends cmd : ends (if idle_error (cmd_arg cmd) then noline else framed) (cmd_skip_fill exts is_cmd cmd).
Proof.
  destruct cmd as [tag arg]. unfold cmd_skip_fill. cbn [cmd_arg cmd_tag].
  destruct (idle_error arg) eqn:Ei.
  - destruct arg as [| | | | | | | | | | | | | | | | | | | | | | | | | | | | [d|] | | |]; try done. cbn [tagged cmd_arg_skip_fill].
    apply ends_bind; [apply _|unif|intros _]. apply ends_bind; [apply _|unif|intros _; apply ends_crlf; apply _].
  - pose proof (cmd_arg_uniform arg Ei) as Ha.
    destruct arg; try (right; exists E_INTERNAL; intros sf _; by eexists);
      (apply ends_bind; [apply _|cbn [tagged]; unif|intros _]); (apply ends_bind; [apply _|exact Ha|intros _; apply ends_crlf; apply _]).
Qed.
End messages.

(** ** Writing in chunks *)

Section chunks.
Context `{Alloc}.

(** What a client does with a writer: it fills one buffer after the other until nothing
    is wanted. The result is what was put into the buffers. *)
Fixpoint write_chunks (write : Z -> stm dstr (Z * Z)) (bufs : list dstr) (skip : Z) : res bytes :=
  match bufs with
  | [] => Stop OutOfFuel
  | buf :: bufs =>
      match write skip buf with
      | (Ok (skip, want), out) =>
          let chunk := drop (length (d_data buf)) (d_data out) in
          if want =? 0 then Ok chunk
          else let! rest := write_chunks write bufs skip in Ok (chunk ++ rest)
      | (Err e, _) => Err e
      | (Stop s, _) => Stop s
      end
  end.

Definition has_space (buf : dstr) : Prop := d_len buf + 2 <= d_size buf.

Lemma sf_start out skip : 0 <= skip -> d_len out <= d_size out -> sf_ok (mkSf out skip 0 0).
Proof. intros. constructor; cbn; lia. Qed.

(** One chunk: at least one unit goes into a buffer with space. *)
Lemma chunk_run m us n out : prints m tt us -> d_len out <= d_size out -> (n <= length us)%nat ->
  let k := fit (d_size out - d_len out) (drop n us) in
  let r := (Ok (Z.of_nat (n + k), zlen (concat (drop (n + k) us))), set_data (d_data out ++ concat (take k (drop n us))) out) in
  (forall enforce, enforce = false \/ (0 < k)%nat -> do_write m (Z.of_nat n) enforce out = r) /\
  ((n < length us)%nat -> chunk_write m (Z.of_nat n) out = r).
Proof.
  intros [Hu Hm] Hl Hn. cbn zeta. set (k := fit _ _).
  assert (Hr : forall enforce, enforce = false \/ (0 < k)%nat -> do_write m (Z.of_nat n) enforce out =
    (Ok (Z.of_nat (n + k), zlen (concat (drop (n + k) us))), set_data (d_data out ++ concat (take k (drop n us))) out)).
  { intros enforce He. unfold do_write. rewrite Hm by (apply sf_start; lia). rewrite feed_run by done. fold k.
    cbn [sf_passed sf_want sf_out]. destruct He as [-> | Hk]; [done|]. destruct enforce; [|done].
    destruct (Z.eqb_spec (Z.of_nat (n + k)) (Z.of_nat n)); [lia|done]. }
  split; [exact Hr|]. intros Hlt. unfold chunk_write. apply Hr. rewrite Z.gtb_ltb.
  destruct (Z.ltb_spec 2 (d_size out - d_len out)); [right|by left].
  apply fit_pos; [by apply Forall_drop| |lia]. intros E. apply (f_equal length) in E. rewrite length_drop in E. cbn in E. lia.
Qed.

Lemma write_chunks_run m us bufs n : prints m tt us -> Forall has_space bufs -> (n < length us <= n + length bufs)%nat ->
  write_chunks (chunk_write m) bufs (Z.of_nat n) = Ok (concat (drop n us)).
Proof.
  intros Hp Hb. revert n. induction Hb as [|buf bufs Hs Hb IH]; intros n Hn; [cbn in Hn; lia|].
  unfold has_space in Hs. assert (d_len buf <= d_size buf) by lia. destruct (chunk_run m us n buf) as [_ E]; [done|lia|lia|].
  cbn [write_chunks]. rewrite E by lia. set (k := fit _ _). cbn [d_data set_data]. rewrite drop_app_length.
  destruct Hp as [Hu Hm]. pose proof (fit_le (d_size buf - d_len buf) (drop n us)) as Hle. fold k in Hle. rewrite length_drop in Hle.
  assert (Hdrop : drop (n + k) us = drop k (drop n us)) by (by rewrite drop_drop).
  destruct (Z.eqb_spec (zlen (concat (drop (n + k) us))) 0) as [Ez|Ez].
  - apply units_zero in Ez; [|by apply Forall_drop]. f_equal.
    rewrite <- (take_drop k (drop n us)) at 2. by rewrite <- Hdrop, Ez, app_nil_r.
  - assert (Hk : (1 <= k)%nat).
    { apply fit_pos; [by apply Forall_drop| |lia]. intros Ed. apply (f_equal length) in Ed. rewrite length_drop in Ed. cbn in Ed. lia. }
    assert (Hlt : (n + k < length us)%nat).
    { destruct (decide (n + k < length us)%nat); [done|]. exfalso. apply Ez. by rewrite drop_ge by lia. }
    cbn in Hn. rewrite IH by lia. cbn. f_equal. rewrite Hdrop, <- concat_app. by rewrite take_drop.
Qed.

(** Printing in whole. *)
Lemma whole_run m us out : prints m tt us -> us <> [] -> room out (zlen (concat us)) ->
  exists out', whole_print m out = (Ok tt, out') /\ d_data out' = d_data out ++ concat us.
Proof.
  intros Hp Hne Hr. destruct (chunk_run m us 0 (mkD [] 0 true)) as [E _]; [done|by vm_compute|lia|].
  unfold whole_print. rewrite E by (by left). destruct Hp as [Hu Hm].
  change (fit _ (drop 0 us)) with (fit 0 us). rewrite fit_zero by done. change (drop (0 + 0) us) with us.
  pose proof (zlen_nonneg (concat us)).
  destruct (grow_ok out (d_len out + zlen (concat us)) (zlen (concat us)) Hr) as (out1 & Eg & Hd & Hf & Hs & _); [lia|].
  unfold st_bind. rewrite Eg. assert (Hl : d_len out1 = d_len out) by (unfold d_len; by rewrite Hd).
  destruct (chunk_run m us 0 out1) as [E2 _]; [done|lia|lia|]. change (Z.of_nat 0) with 0 in E2. change (drop 0 us) with us in E2. cbn [Nat.add] in E2.
  pose proof (fit_all (d_size out1 - d_len out1) us) as Hk. rewrite Hk in E2 by lia.
  rewrite E2 by (right; destruct us; [done|cbn; lia]). rewrite firstn_all. eexists. split; [reflexivity|]. cbn. by rewrite Hd.
Qed.
(** What is printed, whatever the buffer and the allocator. *)
Lemma grow_Ok m d d' : dstr_grow_quiet m d = (Ok tt, d') -> d_data d' = d_data d /\ m <= d_size d' /\ d_size d <= d_size d'.
Proof.
  unfold dstr_grow_quiet. rewrite Z.geb_leb. destruct (Z.leb_spec m (d_size d)); [intros [= <-]; split; [done|lia]|].
  destruct (d_fixed d); [done|]. destruct (grow_loop _ _ _) as [n| |] eqn:E; try done. destruct (alloc_ok n); [|done].
  intros [= <-]. cbn. enough (m <= n) by (split; [done|lia]). clear -E. revert E. generalize (Z.max (d_size d) 2) grow_fuel.
  intros s f. revert s. induction f as [|f IH]; intros s; cbn [grow_loop]; destruct (Z.ltb_spec s m); try done; try (intros [= <-]; done). apply IH.
Qed.
Lemma whole_print_inv P m out out' : ends P m -> d_len out <= d_size out -> whole_print m out = (Ok tt, out') ->
  exists t, d_data out' = d_data out ++ t ++ [13; 10] /\ P t.
Proof.
  intros [(t & us & Hp & E & HP)|[e He]] Hl Hw.
  - exists t. split; [|done]. revert Hw. unfold whole_print. destruct (chunk_run m us 0 (mkD [] 0 true)) as [E0 _]; [done|by vm_compute|lia|].
    rewrite E0 by (by left). destruct Hp as [Hu Hm]. change (fit _ (drop 0 us)) with (fit 0 us). rewrite fit_zero by done.
    change (drop (0 + 0) us) with us. intros Hw. apply st_bind_ok in Hw as ([] & out1 & Eg & Hw).
    apply grow_Ok in Eg as (Hd & Hs & _). assert (Hl1 : d_len out1 = d_len out) by (unfold d_len; by rewrite Hd).
    pose proof (zlen_nonneg (concat us)).
    destruct (chunk_run m us 0 out1) as [E2 _]; [done|lia|lia|]. change (Z.of_nat 0) with 0 in E2. change (drop 0 us) with us in E2. cbn [Nat.add] in E2.
    rewrite (fit_all (d_size out1 - d_len out1) us) in E2 by lia.
    revert Hw. unfold st_bind. rewrite E2.
    2: { right. destruct us; [|cbn; lia]. by destruct t. }
    intros [= <-]. cbn. by rewrite firstn_all, Hd, E.
  - exfalso. destruct (He (mkSf (mkD [] 0 true) 0 0 0)) as [sf' E]; [apply sf_start; by vm_compute|].
    revert Hw. unfold whole_print, do_write. by rewrite E.
Qed.

(** The three ways to use a writer agree: they refuse a message with the same error, or
    they give its text, in whole or in pieces. *)
Definition same_text {M} (write : Z -> stm dstr (Z * Z)) (print : stm dstr unit) (writable : res M) (msg : M) : Prop :=
  (exists e, writable = Err e /\ (forall out, print out = (Err e, out)) /\
     forall skip out, 0 <= skip -> d_len out <= d_size out -> fst (write skip out) = Err e) \/
  (exists text, text <> [] /\ writable = Ok msg /\
     (forall out, room out (zlen text) -> exists out', print out = (Ok tt, out') /\ d_data out' = d_data out ++ text) /\
     forall bufs, Forall has_space bufs -> zlen text <= zlen bufs -> write_chunks write bufs 0 = Ok text).

Lemma ends_same_text {M} P m (msg : M) : ends P m -> same_text (chunk_write m) (whole_print m) (assert_writable m msg) msg.
Proof.
  intros [(t & us & Hp & E & HP)|[e He]]; [right|left].
  - assert (Hne : us <> []) by (intros ->; by destruct t). exists (concat us). split; [rewrite E; by destruct t|]. split; [|split].
    + unfold assert_writable. destruct (chunk_run m us 0 (mkD [] 0 true)) as [E0 _]; [done|by vm_compute|lia|]. by rewrite E0 by (by left).
    + intros out Hr. by apply whole_run.
    + intros bufs Hb Hlen. apply (write_chunks_run m us bufs 0); [done|done|].
      destruct Hp as [Hu _]. pose proof (units_length us Hu). unfold zlen in *. destruct us; [done|]. cbn [length] in *. lia.
  - destruct (He (mkSf (mkD [] 0 true) 0 0 0)) as [sf' E]; [apply sf_start; by vm_compute|].
    exists e. split; [unfold assert_writable, do_write; by rewrite E|]. split.
    + intros out. unfold whole_print, do_write. by rewrite E.
    + intros skip out Hs Hl. unfold chunk_write, do_write. destruct (He (mkSf out skip 0 0)) as [sf2 E2]; [by apply sf_start|]. by rewrite E2.
Qed.

(** One line for the receiver: the end of the text is the end of the line, also where the
    text has literals. A text of a response is a line without further line breaks. *)
Definition one_line (is_text : bool) (text : bytes) : Prop :=
  if is_text then exists t, text = t ++ [13; 10] /\ noline t
  else forall rest, read_line Line (text ++ rest) = Some rest.
Lemma framed_one_line t : framed t -> zlen t < 2 ^ 64 -> one_line false (t ++ [13; 10]).
Proof. intros Hf Hl rest. rewrite <- app_assoc. rewrite (read_line_app Line t _ Line) by auto. done. Qed.
End chunks.

(** C14: A command or response is either refused with the same error by all writers, before
    anything is printed in whole, or has one text: imap_cmd_assert_writable accepts it,
    imap_cmd_print appends the text where there is room, and imap_cmd_write gives it in
    chunks, for buffers of any sizes with at least two bytes of space, in at most as many
    buffers as the text has bytes; likewise for responses. *)
Theorem imap_write_chunks `{Alloc} exts cmd resp :
  same_text (imap_cmd_write exts cmd) (imap_cmd_print exts cmd) (imap_cmd_assert_writable exts cmd) cmd /\
  same_text (imap_resp_write exts resp) (imap_resp_print exts resp) (imap_resp_assert_writable exts resp) resp.
Proof. split; eapply ends_same_text; [apply cmd_ends|apply resp_ends]. Qed.


(** ** Where the text is not what it should be *)

Section limits.
#[local] Existing Instance always.

Definition text_of (print : stm dstr unit) : res bytes :=
  match print (mkD [] 0 false) with (Ok _, d) => Ok (d_data d) | (Err e, _) => Err e | (Stop s, _) => Stop s end.
Definition search_text (key : ie_search_key_t) : res bytes :=
  text_of (imap_cmd_print all_on (mkCmd (lit "A") (IMAP_CMD_SEARCH false None key))).
Definition date (month : Z) : imap_time_t := mkTime 2020 month 24 0 0 0 0 0.
Definition line (s : string) : bytes := lit s ++ lit crlf.

End limits.
