(* ===== verification/OrdTree.v ===== *)
(** * Trees of structs with an unsigned key

    What the mail program uses of the trees of jsw_atree.c: a struct with an embedded node
    and an unsigned key, compared by jsw_cmp_uint. [OrdTree] is the interface that the
    callers are written against, [OrdTreeLaws] what they rely on, and [otree] the
    implementation by Andersson trees. *)

From stdpp Require Import sorting.
From S2P Require Import Prelude Atree.

(** ** The interface *)

(** A struct is its key and the rest of its contents. [ot_visit last back] are the structs
    that a loop meets that starts at the first or last one and goes on or back. *)
Class OrdTree (T : Type -> Type) := {
  ot_init : forall {V}, T V;
  ot_insert : forall {V}, Z -> V -> T V -> res (T V);
  ot_erase : forall {V}, Z -> T V -> res (option V * T V);
  ot_find : forall {V}, Z -> T V -> option (V * Z);
  ot_index : forall {V}, T V -> Z -> res (option (Z * V));
  ot_size : forall {V}, T V -> Z;
  ot_visit : forall {V}, bool -> bool -> T V -> res (list (Z * V));
  ot_pop_first : forall {V}, T V -> res (option (Z * V) * T V)
}.

(** Before the first struct with the same or a greater key. *)
Fixpoint linsert {V} (k : Z) (v : V) (l : list (Z * V)) : list (Z * V) :=
  match l with
  | [] => [(k, v)]
  | (k', v') :: r => if k <=? k' then (k, v) :: l else (k', v') :: linsert k v r
  end.
Definition keys {V} (l : list (Z * V)) : list Z := map fst l.
Definition visited {V} (last back : bool) (l : list (Z * V)) : list (Z * V) :=
  match last, back with
  | false, false => l
  | true, true => reverse l
  | false, true => option_list (head l)
  | true, false => option_list (list.last l)
  end.

Definition MAX_NODES : Z := 2 ^ 32 - 1.

Class OrdTreeLaws (T : Type -> Type) `{OrdTree T} := {
  ot_ok : forall {V}, T V -> Prop;
  ot_list : forall {V}, T V -> list (Z * V);
  ot_sorted : forall V (t : T V), ot_ok t -> StronglySorted Z.le (keys (ot_list t));
  ot_small : forall V (t : T V), ot_ok t -> zlen (ot_list t) < MAX_NODES;
  ot_init_ok : forall V, ot_ok (ot_init (V := V));
  ot_init_list : forall V, ot_list (ot_init (V := V)) = [];
  ot_insert_ok : forall V k v (t : T V), ot_ok t -> zlen (ot_list t) + 1 < MAX_NODES ->
    exists t', ot_insert k v t = Ok t' /\ ot_ok t' /\ ot_list t' = linsert k v (ot_list t);
  ot_erase_ok : forall V k (t : T V), ot_ok t ->
    exists o t', ot_erase k t = Ok (o, t') /\ ot_ok t' /\
      match o with
      | None => t' = t /\ k ∉ keys (ot_list t)
      | Some v => exists l1 l2, ot_list t = l1 ++ (k, v) :: l2 /\ ot_list t' = l1 ++ l2
      end;
  ot_find_ok : forall V k (t : T V), ot_ok t ->
    match ot_find k t with
    | None => k ∉ keys (ot_list t)
    | Some (v, i) => exists l1 l2, ot_list t = l1 ++ (k, v) :: l2 /\ i = zlen l1
    end;
  ot_index_ok : forall V (t : T V) i, ot_ok t -> 0 <= i -> ot_index t i = Ok (ot_list t !! Z.to_nat i);
  ot_size_ok : forall V (t : T V), ot_ok t -> ot_size t = zlen (ot_list t);
  ot_visit_ok : forall V last back (t : T V), ot_ok t -> ot_visit last back t = Ok (visited last back (ot_list t));
  ot_pop_first_ok : forall V (t : T V), ot_ok t -> StronglySorted Z.lt (keys (ot_list t)) ->
    exists t', ot_pop_first t = Ok (head (ot_list t), t') /\ ot_ok t' /\ ot_list t' = tail (ot_list t)
}.

(** ** The implementation *)

(** The structs in memory, by address; an erased one stays until its owner frees it. *)
Record otree (V : Type) := mkOt { o_tree : jsw_atree_t; o_objs : gmap Z (Z * V); o_next : Z }.
Arguments mkOt {V} o_tree o_objs o_next.
Arguments o_tree {V} o.
Arguments o_objs {V} o.
Arguments o_next {V} o.

(** [tree->get(node)] *)
Definition get_key {V} (objs : gmap Z (Z * V)) (x : Z) : Z := match objs !! x with Some (k, _) => k | None => 0 end.
(** jsw_cmp_uint of the key of a node and the searched one. *)
Definition jsw_cmp_uint {V} (objs : gmap Z (Z * V)) (k : Z) : probe := fun x => num_cmp k (get_key objs x).

Definition o_insert {V} (k : Z) (v : V) (t : otree V) : res (otree V) :=
  let objs := <[o_next t := (k, v)]> (o_objs t) in
  let! tree := jsw_ainsert (jsw_cmp_uint objs k) (o_next t) (o_tree t) in
  Ok (mkOt tree objs (o_next t + 1)).
Definition o_erase {V} (k : Z) (t : otree V) : res (option V * otree V) :=
  let! (x, tree) := jsw_aerase (jsw_cmp_uint (o_objs t) k) (o_tree t) in
  match x with
  | None => Ok (None, mkOt tree (o_objs t) (o_next t))
  | Some x => Ok (snd <$> o_objs t !! x, mkOt tree (o_objs t) (o_next t))
  end.
Definition o_find {V} (k : Z) (t : otree V) : option (V * Z) :=
  let (x, i) := jsw_afind_ex (jsw_cmp_uint (o_objs t) k) (o_tree t) in
  match x with
  | None => None
  | Some x => (fun kv => (snd kv, i)) <$> o_objs t !! x
  end.
Definition o_index {V} (t : otree V) (i : Z) : res (option (Z * V)) :=
  let! x := jsw_aindex (o_tree t) i in
  Ok (match x with None => None | Some x => o_objs t !! x end).
Definition o_visit {V} (last back : bool) (t : otree V) : res (list (Z * V)) :=
  let! c := start last (o_tree t) in
  let! xs := visit (negb back) (Z.to_nat (size (o_tree t))) c in
  Ok (omap (fun x => o_objs t !! x) xs).

(** jsw_atfirst, then jsw_pop_atnext. *)
Definition o_pop_first {V} (t : otree V) : res (option (Z * V) * otree V) :=
  let! c := jsw_atfirst (o_tree t) in
  match owner (it c) with
  | None => Ok (None, t)
  | Some x =>
      let! (tree, _) := jsw_pop_atnext (fun y => jsw_cmp_uint (o_objs t) (get_key (o_objs t) y)) (o_tree t) c in
      Ok (o_objs t !! x, mkOt tree (o_objs t) (o_next t))
  end.

#[export] Instance otree_ops : OrdTree otree := {
  ot_init V := mkOt jsw_ainit ∅ 0;
  ot_insert V := o_insert;
  ot_erase V := o_erase;
  ot_find V := o_find;
  ot_index V := o_index;
  ot_size V t := size (o_tree t);
  ot_visit V := o_visit;
  ot_pop_first V := o_pop_first
}.

(** ** The laws hold *)

Lemma lt_nodup (l : list Z) : StronglySorted Z.lt l -> NoDup l.
Proof.
  induction 1 as [|x l Hs IH Hx]; constructor; [|done]. intros Hin. rewrite Forall_forall in Hx.
  specialize (Hx x Hin). lia.
Qed.

Section laws.
Context {V : Type}.
Implicit Types t : otree V.

Definition nodes t : list Z := inorder (root (o_tree t)).
Definition o_list t : list (Z * V) := omap (fun x => o_objs t !! x) (nodes t).

Record o_ok t : Prop := {
  ook_tree : tree_ok (o_tree t);
  ook_small : size (o_tree t) < MAX_NODES;
  ook_nodup : NoDup (nodes t);
  ook_dom : forall x, x ∈ nodes t -> is_Some (o_objs t !! x) /\ x < o_next t;
  ook_sorted : StronglySorted Z.le (get_key (o_objs t) <$> nodes t)
}.

Lemma omap_some (objs : gmap Z (Z * V)) (xs : list Z) :
  (forall x, x ∈ xs -> is_Some (objs !! x)) ->
  length (omap (fun x => objs !! x) xs) = length xs /\ keys (omap (fun x => objs !! x) xs) = get_key objs <$> xs /\
  forall i, omap (fun x => objs !! x) xs !! i = (xs !! i) ≫= (fun x => objs !! x).
Proof.
  induction xs as [|x xs IH]; intros H; [by split_and!|].
  destruct (H x) as [[k v] E]; [by left|]. destruct IH as (Hl & Hk & Hi); [intros; apply H; by right|].
  cbn [omap list_omap]. cbn. rewrite E. cbn. unfold get_key at 1. rewrite E. split_and!; [by rewrite Hl|by f_equal|].
  intros [|i]; cbn; [done|]. apply Hi.
Qed.

Lemma o_list_keys t : o_ok t -> keys (o_list t) = get_key (o_objs t) <$> nodes t.
Proof. intros Ho. apply omap_some. intros. by apply Ho. Qed.
Lemma o_list_size t : o_ok t -> size (o_tree t) = zlen (o_list t).
Proof.
  intros Ho. rewrite (ok_size _ (ook_tree _ Ho)). unfold zlen, o_list.
  destruct (omap_some (o_objs t) (nodes t)) as (-> & _); [intros; by apply Ho|done].
Qed.

(** A key is searched for in sorted keys. *)
Lemma cmp_mono (objs : gmap Z (Z * V)) k (xs : list Z) :
  StronglySorted Z.le (get_key objs <$> xs) -> mono (jsw_cmp_uint objs k) xs.
Proof.
  intros Hs. induction xs as [|x xs IH]; [constructor|]. inversion Hs as [|? ? Hs' Hx]; subst.
  constructor; [by apply IH|]. rewrite Forall_forall in Hx |- *. intros y Hy.
  specialize (Hx (get_key objs y)). unfold jsw_cmp_uint, num_cmp.
  assert (get_key objs x <= get_key objs y) by (apply Hx, list_elem_of_fmap_2, Hy).
  repeat case_match; bool_to_prop; simpl; lia.
Qed.

Lemma cmp_zero (objs : gmap Z (Z * V)) k x : jsw_cmp_uint objs k x = 0 <-> get_key objs x = k.
Proof. unfold jsw_cmp_uint, num_cmp. repeat case_match; bool_to_prop; lia. Qed.
Lemma cmp_neg (objs : gmap Z (Z * V)) k x : jsw_cmp_uint objs k x < 0 <-> get_key objs x < k.
Proof. unfold jsw_cmp_uint, num_cmp. repeat case_match; bool_to_prop; lia. Qed.

Lemma get_key_some (objs : gmap Z (Z * V)) x k v : objs !! x = Some (k, v) -> get_key objs x = k.
Proof. unfold get_key. by intros ->. Qed.

Lemma omap_insert_fresh (objs : gmap Z (Z * V)) x kv (xs : list Z) :
  x ∉ xs -> omap (fun y => <[x:=kv]> objs !! y) xs = omap (fun y => objs !! y) xs.
Proof.
  induction xs as [|y xs IH]; [done|]. intros Hx. cbn. rewrite lookup_insert_ne by set_solver.
  by rewrite IH by set_solver.
Qed.
Lemma key_insert_fresh (objs : gmap Z (Z * V)) x kv y : x <> y -> get_key (<[x:=kv]> objs) y = get_key objs y.
Proof. intros. unfold get_key. by rewrite lookup_insert_ne. Qed.

Lemma linsert_split k v l1 l2 :
  Forall (fun kv => kv.1 < k) l1 -> Forall (fun kv : Z * V => k <= kv.1) l2 -> linsert k v (l1 ++ l2) = l1 ++ (k, v) :: l2.
Proof.
  intros H1 H2. induction H1 as [|[k' v'] l1 Hk H1 IH]; cbn in *.
  - destruct l2 as [|[k' v'] l2]; [done|]. inversion H2; subst. cbn in *. by rewrite (proj2 (Z.leb_le _ _)).
  - destruct (Z.leb_spec k k'); [lia|]. by rewrite IH.
Qed.

Lemma omap_forall (P : Z -> Prop) (objs : gmap Z (Z * V)) (xs : list Z) :
  Forall (fun x => P (get_key objs x)) xs -> Forall (fun kv => P kv.1) (omap (fun x => objs !! x) xs).
Proof.
  induction 1 as [|x xs Hx H IH]; [constructor|]. cbn. destruct (objs !! x) as [[k v]|] eqn:E; [|done].
  constructor; [|done]. by rewrite (get_key_some _ _ _ _ E) in Hx.
Qed.

Lemma o_insert_ok k v t : o_ok t -> zlen (o_list t) + 1 < MAX_NODES ->
  exists t', o_insert k v t = Ok t' /\ o_ok t' /\ o_list t' = linsert k v (o_list t).
Proof.
  intros Ho Hz. pose proof Ho as [Ht Hsm Hd Hdom Hs]. rewrite <- o_list_size in Hz by done.
  set (objs := <[o_next t := (k, v)]> (o_objs t)).
  assert (o_next t ∉ nodes t) as Hf. { intros Hin. destruct (Hdom _ Hin). lia. }
  assert (forall y, y ∈ nodes t -> get_key objs y = get_key (o_objs t) y) as Hk.
  { intros y Hy. apply key_insert_fresh. by intros <-. }
  assert (get_key objs <$> nodes t = get_key (o_objs t) <$> nodes t) as Hks.
  { apply list_fmap_ext. intros i y Hy. apply Hk. by eapply list_elem_of_lookup_2. }
  assert (get_key objs (o_next t) = k) as Hkn by (by unfold get_key, objs; rewrite lookup_insert_eq).
  destruct (jsw_ainsert_spec (jsw_cmp_uint objs k) (o_next t) (o_tree t)) as (t' & l1 & l2 & Ei & Ht' & Hsz & E & E' & H1 & H2);
    [done|done|by apply cmp_mono; change (inorder (root (o_tree t))) with (nodes t); rewrite Hks|].
  change (inorder (root (o_tree t))) with (nodes t) in E.
  eexists. unfold o_insert. fold objs. rewrite Ei. cbn [res_bind]. split; [done|].
  assert (nodes (mkOt t' objs (o_next t + 1)) = l1 ++ o_next t :: l2) as En by done.
  split.
  - constructor; cbn [o_tree o_objs o_next]; rewrite ?En; [done|unfold jsw_asize in *; lia| | |].
    + apply NoDup_Permutation_proper with (o_next t :: nodes t); [by rewrite E, Permutation_middle|].
      by constructor.
    + intros x Hx. destruct (decide (x = o_next t)) as [->|Hne].
      * unfold objs. rewrite lookup_insert_eq. split; [done|lia].
      * unfold objs. rewrite lookup_insert_ne by done. destruct (Hdom x); [rewrite E; set_solver|]. split; [done|lia].
    + rewrite <- Hks, E, fmap_app in Hs. rewrite fmap_app, fmap_cons, Hkn.
      apply StronglySorted_app in Hs as (Hlt & Hs1 & Hs2). apply StronglySorted_app. split_and!; [|done|].
      * intros a b Ha [->|Hb]%elem_of_cons; [|by apply Hlt].
        apply list_elem_of_fmap in Ha as (y & -> & Hy). rewrite Forall_forall in H1. specialize (H1 y Hy). apply cmp_neg in H1. lia.
      * constructor; [done|]. apply Forall_fmap. eapply Forall_impl; [exact H2|]. cbn. intros y Hy.
        destruct (Z.lt_ge_cases (get_key objs y) k) as [Hlt'|]; [|done]. apply cmp_neg in Hlt'. lia.
  - unfold o_list. rewrite En, E. cbn [o_objs]. rewrite <- (omap_insert_fresh (o_objs t) (o_next t) (k, v)) by (by rewrite <- E).
    fold objs. rewrite !omap_app. cbn. assert (objs !! o_next t = Some (k, v)) as -> by apply lookup_insert_eq.
    symmetry. apply linsert_split.
    + apply (omap_forall (fun y => y < k)). eapply Forall_impl; [exact H1|]. intros y. apply cmp_neg.
    + apply (omap_forall (fun y => k <= y)). eapply Forall_impl; [exact H2|]. cbn. intros y Hy.
      destruct (Z.lt_ge_cases (get_key objs y) k) as [Hlt'|]; [|done]. apply cmp_neg in Hlt'. lia.
Qed.

Lemma o_cut t l1 x l2 : o_ok t -> nodes t = l1 ++ x :: l2 ->
  exists k v, o_objs t !! x = Some (k, v) /\
    o_list t = omap (fun y => o_objs t !! y) l1 ++ (k, v) :: omap (fun y => o_objs t !! y) l2 /\
    length (omap (fun y => o_objs t !! y) l1) = length l1.
Proof.
  intros Ho E. destruct (ook_dom _ Ho x) as [[[k v] Ex] _]; [rewrite E; set_solver|]. exists k, v.
  unfold o_list. rewrite E, omap_app. cbn. rewrite Ex. split_and!; [done|done|].
  apply omap_some. intros y Hy. apply (ook_dom _ Ho). rewrite E. set_solver.
Qed.

(** What is left when one of the structs is gone. *)
Lemma o_remaining t (t' : jsw_atree_t) l1 x l2 :
  o_ok t -> tree_ok t' -> size t' = size (o_tree t) - 1 -> nodes t = l1 ++ x :: l2 -> inorder (root t') = l1 ++ l2 ->
  o_ok (mkOt t' (o_objs t) (o_next t)).
Proof.
  intros [Ht Hsm Hd Hdom Hs] Ht' Hsz E E'.
  assert (nodes (mkOt t' (o_objs t) (o_next t)) = l1 ++ l2) as En by done.
  constructor; cbn [o_tree o_objs o_next]; rewrite ?En; [done|lia| | |].
  - rewrite E in Hd. apply NoDup_app in Hd as (? & ? & Hd). inversion Hd; subst. apply NoDup_app. set_solver.
  - intros y Hy. apply Hdom. rewrite E. set_solver.
  - rewrite E, fmap_app in Hs. rewrite fmap_app. cbn in Hs.
    apply StronglySorted_app in Hs as (Hlt & Hs1 & Hs2). inversion Hs2; subst.
    apply StronglySorted_app. split_and!; [|done|done]. intros a b Ha Hb. apply Hlt; [done|by right].
Qed.

Lemma o_erase_ok k t : o_ok t ->
  exists o t', o_erase k t = Ok (o, t') /\ o_ok t' /\
    match o with
    | None => t' = t /\ k ∉ keys (o_list t)
    | Some v => exists l1 l2, o_list t = l1 ++ (k, v) :: l2 /\ o_list t' = l1 ++ l2
    end.
Proof.
  intros Ho. pose proof Ho as [Ht Hsm Hd Hdom Hs].
  destruct (jsw_aerase_spec (jsw_cmp_uint (o_objs t) k) (o_tree t)) as (found & t' & Ee & Ht' & Hf);
    [done|done|by apply cmp_mono|]. unfold o_erase. rewrite Ee. cbn [res_bind].
  destruct found as [x|].
  - destruct Hf as (Hx & Hsz & l1 & l2 & E & E'). apply cmp_zero in Hx.
    destruct (o_cut t l1 x l2 Ho E) as (k' & v & Ex & El & _). rewrite Ex. rewrite (get_key_some _ _ _ _ Ex) in Hx. subst k'.
    eexists (Some v), _. split; [done|]. split.
    + by eapply o_remaining.
    + eexists _, _. split; [exact El|]. unfold o_list, nodes. cbn [o_tree o_objs]. by rewrite E', omap_app.
  - destruct Hf as (-> & Hf). eexists None, _. split; [done|]. split; [by destruct t|]. split; [by destruct t|].
    rewrite o_list_keys by done. intros Hin. apply list_elem_of_fmap in Hin as (y & Hk & Hy).
    rewrite Forall_forall in Hf. apply (Hf y Hy). by apply cmp_zero.
Qed.

Lemma o_find_ok k t : o_ok t ->
  match o_find k t with
  | None => k ∉ keys (o_list t)
  | Some (v, i) => exists l1 l2, o_list t = l1 ++ (k, v) :: l2 /\ i = zlen l1
  end.
Proof.
  intros Ho. pose proof Ho as [Ht Hsm Hd Hdom Hs].
  destruct (jsw_afind_spec (jsw_cmp_uint (o_objs t) k) (o_tree t)) as (l1 & l2 & E & Es & Hf); [done|by apply cmp_mono|].
  unfold o_find. destruct (jsw_afind_ex _ _) as [x i]. cbn [fst snd] in *. subst i.
  change (inorder (root (o_tree t))) with (nodes t) in E. destruct x as [x|].
  - destruct Hf as [Hx Hh]. apply cmp_zero in Hx. destruct l2 as [|y l2]; [done|]. injection Hh as ->.
    destruct (o_cut t l1 x l2 Ho E) as (k' & v & Ex & El & Hl). rewrite Ex. cbn.
    rewrite (get_key_some _ _ _ _ Ex) in Hx. subst k'. eexists _, _. split; [exact El|]. unfold zlen. by rewrite Hl.
  - destruct Hf as [H1 H2]. rewrite o_list_keys by done. intros Hin. apply list_elem_of_fmap in Hin as (y & Hk & Hy).
    symmetry in Hk. apply cmp_zero in Hk. rewrite E in Hy. apply elem_of_app in Hy as [Hy|Hy].
    + rewrite Forall_forall in H1. specialize (H1 y Hy). cbn in H1. lia.
    + rewrite Forall_forall in H2. specialize (H2 y Hy). cbn in H2. lia.
Qed.

Lemma o_index_ok t i : o_ok t -> 0 <= i -> o_index t i = Ok (o_list t !! Z.to_nat i).
Proof.
  intros Ho Hi. unfold o_index. rewrite jsw_aindex_spec by (done || apply Ho). cbn [res_bind]. f_equal.
  unfold o_list. destruct (omap_some (o_objs t) (nodes t)) as (_ & _ & ->); [intros; by apply Ho|].
  unfold nodes. by destruct (inorder (root (o_tree t)) !! Z.to_nat i).
Qed.

Lemma omap_reverse (f : Z -> option (Z * V)) (xs : list Z) : omap f (reverse xs) = reverse (omap f xs).
Proof.
  induction xs as [|x xs IH]; [done|]. rewrite reverse_cons, omap_app, IH.
  change (omap f (x :: xs)) with (match f x with Some b => b :: omap f xs | None => omap f xs end).
  change (omap f [x]) with (match f x with Some b => [b] | None => [] end).
  destruct (f x); [by rewrite reverse_cons|by rewrite app_nil_r].
Qed.

Lemma omap_last t : o_ok t -> omap (fun x => o_objs t !! x) (option_list (last (nodes t))) = option_list (last (o_list t)).
Proof.
  intros Ho. destruct (last (nodes t)) as [x|] eqn:E.
  - apply last_Some in E as [l1 E]. destruct (o_cut t l1 x [] Ho E) as (k & v & Ex & El & _). rewrite El. cbn.
    rewrite Ex, last_snoc. done.
  - apply last_None in E. unfold o_list. by rewrite E.
Qed.
Lemma omap_head t : o_ok t -> omap (fun x => o_objs t !! x) (option_list (head (nodes t))) = option_list (head (o_list t)).
Proof.
  intros Ho. destruct (nodes t) as [|x l2] eqn:E; [unfold o_list; by rewrite E|].
  destruct (o_cut t [] x l2 Ho E) as (k & v & Ex & El & _). rewrite El. cbn. by rewrite Ex.
Qed.

Lemma o_visit_ok last back t : o_ok t -> o_visit last back t = Ok (visited last back (o_list t)).
Proof.
  intros Ho. pose proof Ho as [Ht Hsm Hd Hdom Hs]. unfold o_visit. destruct last, back; cbn [negb].
  - destruct (visit_all false (o_tree t) Ht Hsm Hd) as (c & Ec & Ev). cbn [negb] in Ec. rewrite Ec. cbn [res_bind].
    rewrite Ev. cbn [res_bind]. rewrite walk_reverse, omap_reverse. done.
  - destruct (visit_away true (o_tree t) Ht Hsm Hd) as (c & Ec & Ev). rewrite Ec. cbn [res_bind].
    rewrite Ev. cbn [res_bind visited]. rewrite walk_inorder. change (inorder (root (o_tree t))) with (nodes t). by rewrite omap_last.
  - destruct (visit_away false (o_tree t) Ht Hsm Hd) as (c & Ec & Ev). rewrite Ec. cbn [res_bind].
    rewrite Ev. cbn [res_bind visited]. rewrite walk_reverse, last_reverse.
    change (inorder (root (o_tree t))) with (nodes t). by rewrite omap_head.
  - destruct (visit_all true (o_tree t) Ht Hsm Hd) as (c & Ec & Ev). cbn [negb] in Ec. rewrite Ec. cbn [res_bind].
    rewrite Ev. cbn [res_bind]. by rewrite walk_inorder.
Qed.


Lemma o_pop_first_ok t : o_ok t -> StronglySorted Z.lt (keys (o_list t)) ->
  exists t', o_pop_first t = Ok (head (o_list t), t') /\ o_ok t' /\ o_list t' = tail (o_list t).
Proof.
  intros Ho Hst. pose proof Ho as [Ht Hsm Hd Hdom Hs]. pose proof Ht as [Hi Hc Hsz].
  assert (height (root (o_tree t)) < JSW_AHEIGHT_LIMIT)%nat as Hh by (apply height_bound; [done|unfold MAX_NODES in *; lia]).
  destruct (start_spec true (o_tree t) Hd ltac:(lia)) as (c & Ec & Hoff & Ha). rewrite walk_inorder in Ha.
  change (inorder (root (o_tree t))) with (nodes t) in Ha. cbn [negb] in Ec.
  unfold o_pop_first, jsw_atfirst. rewrite Ec. cbn [res_bind].
  destruct Hoff as [->|[Hn Hl]].
  { cbn in Ha. exists t. split_and!; [|done|]; unfold o_list; rewrite <- Ha; done. }
  destruct (it c) as [|lv k l x r] eqn:Ei; [done|]. cbn [owner].
  set (cmp := fun y => jsw_cmp_uint (o_objs t) (get_key (o_objs t) y)).
  rewrite o_list_keys in Hst by done.
  assert (strict cmp (nodes t)) as Hcmp.
  { split_and!; [done|intros; by apply cmp_mono|]. intros a b Ha' Hb. unfold cmp. rewrite cmp_zero. split; [|by intros ->].
    intros E. symmetry. apply list_elem_of_lookup_1 in Ha' as [i Hi']. apply list_elem_of_lookup_1 in Hb as [j Hj].
    assert (i = j) as <-; [|congruence].
    eapply (NoDup_lookup (get_key (o_objs t) <$> nodes t)).
    - by apply lt_nodup.
    - rewrite list_lookup_fmap, Hi'. done.
    - rewrite list_lookup_fmap, Hj. cbn. by rewrite E. }
  destruct (pop_move_spec cmp true (o_tree t) c x) as (t' & c' & Ep & Ht' & Hoff' & Ha' & l1 & l2 & E & E');
    [done|exact Hsm|done|done|by rewrite Ei|].
  unfold jsw_pop_atnext. rewrite Ep. cbn [res_bind].
  change (inorder (root (o_tree t))) with (nodes t) in E.
  rewrite Ha in Ha'. destruct (nodes t) as [|y ys] eqn:En; [done|]. injection Ha' as -> Hys.
  assert (l1 = []) as ->.
  { destruct l1 as [|z l1]; [done|]. injection E as -> ->. exfalso. inversion Hd; subst. set_solver. }
  cbn in E. injection E as ->.
  destruct (o_cut t [] x l2 Ho En) as (k' & v & Ex & El & _). cbn in El. rewrite El, Ex.
  eexists. split; [done|]. split.
  - apply (o_remaining t t' [] x l2); [done|done| |done|done].
    rewrite (ok_size _ Ht'), Hsz, E'. change (inorder (root (o_tree t))) with (nodes t). rewrite En. cbn [app]. autorewrite with zlen. lia.
  - unfold o_list, nodes. cbn [o_tree o_objs]. by rewrite E'.
Qed.
End laws.

#[export, refine] Instance otree_laws : OrdTreeLaws otree := {
  ot_ok V := o_ok;
  ot_list V := o_list
}.
Proof.
  - intros V t Ho. rewrite o_list_keys by done. apply Ho.
  - intros V t Ho. rewrite <- o_list_size by done. apply Ho.
  - intros V. constructor; cbn; [by constructor|done|constructor|set_solver|constructor].
  - done.
  - intros V. apply o_insert_ok.
  - intros V. apply o_erase_ok.
  - intros V. apply o_find_ok.
  - intros V. apply o_index_ok.
  - intros V t Ho. by apply o_list_size.
  - intros V. apply o_visit_ok.
  - intros V. apply o_pop_first_ok.
Defined.

(** ** Strictly increasing keys *)

Definition lsorted {V} (l : list (Z * V)) : Prop := StronglySorted Z.lt (keys l).

(** The struct with a key and its position. *)
Fixpoint lfind {V} (k : Z) (l : list (Z * V)) : option (V * Z) :=
  match l with
  | [] => None
  | (k', v) :: r => if k' =? k then Some (v, 0) else (fun vi => (vi.1, vi.2 + 1)) <$> lfind k r
  end.
Definition ldel {V} (k : Z) (l : list (Z * V)) : list (Z * V) := filter (fun kv => kv.1 <> k) l.
Definition lset {V} (k : Z) (v : V) (l : list (Z * V)) : list (Z * V) :=
  (fun kv => if decide (kv.1 = k) then (k, v) else kv) <$> l.

Section strict_lists.
Context {V : Type}.
Implicit Types l : list (Z * V).

Lemma keys_app l1 l2 : keys (l1 ++ l2) = keys l1 ++ keys l2.
Proof. apply map_app. Qed.
Lemma keys_in l k v : (k, v) ∈ l -> k ∈ keys l.
Proof. intros H. unfold keys. change (map fst l) with (fst <$> l). apply list_elem_of_fmap. by exists (k, v). Qed.
Lemma keys_in_inv l k : k ∈ keys l -> exists v, (k, v) ∈ l.
Proof.
  unfold keys. change (map fst l) with (fst <$> l). intros H. apply list_elem_of_fmap in H as ([k' v] & -> & Hin). by exists v.
Qed.

Lemma lsorted_app l1 l2 :
  lsorted (l1 ++ l2) <-> lsorted l1 /\ lsorted l2 /\ forall a b, a ∈ keys l1 -> b ∈ keys l2 -> a < b.
Proof. unfold lsorted. rewrite keys_app, StronglySorted_app. naive_solver. Qed.
Lemma lsorted_cons k v l : lsorted ((k, v) :: l) <-> lsorted l /\ forall b, b ∈ keys l -> k < b.
Proof.
  unfold lsorted. cbn. split.
  - intros H. inversion H as [|? ? Hs Hf]; subst. rewrite Forall_forall in Hf. done.
  - intros [Hs Hf]. constructor; [done|]. by apply Forall_forall.
Qed.
Lemma lsorted_nil : lsorted (@nil (Z * V)).
Proof. constructor. Qed.
Lemma lsorted_snoc l k v : lsorted l -> (forall a, a ∈ keys l -> a < k) -> lsorted (l ++ [(k, v)]).
Proof.
  intros Hl Ha. apply lsorted_app. split_and!; [done|by apply lsorted_cons; split; [constructor|set_solver]|].
  intros a b Hin Hb. cbn in Hb. assert (b = k) as -> by set_solver. auto.
Qed.

Lemma lfind_none k l : lfind k l = None <-> k ∉ keys l.
Proof.
  induction l as [|[k' v] l IH]; [split; [set_solver|done]|]. cbn. rewrite elem_of_cons.
  destruct (Z.eqb_spec k' k) as [->|Hne]; [split; [done|naive_solver]|].
  rewrite fmap_None, IH. naive_solver.
Qed.
Lemma lfind_app_r k l1 l2 : k ∉ keys l1 -> lfind k (l1 ++ l2) = (fun vi => (vi.1, vi.2 + zlen l1)) <$> lfind k l2.
Proof.
  induction l1 as [|[k' v] l1 IH]; cbn.
  - intros _. destruct (lfind k l2) as [[v i]|]; cbn; [|done]. by rewrite Z.add_0_r.
  - intros Hk. destruct (Z.eqb_spec k' k) as [->|]; [set_solver|]. rewrite IH by set_solver.
    destruct (lfind k l2) as [[w i]|]; cbn; [|done]. do 2 f_equal. rewrite zlen_cons. lia.
Qed.
Lemma lfind_split k v l1 l2 : k ∉ keys l1 -> lfind k (l1 ++ (k, v) :: l2) = Some (v, zlen l1).
Proof. intros Hk. rewrite lfind_app_r by done. cbn. by rewrite Z.eqb_refl. Qed.
Lemma lfind_inv k l v i : lfind k l = Some (v, i) -> exists l1 l2, l = l1 ++ (k, v) :: l2 /\ i = zlen l1 /\ k ∉ keys l1.
Proof.
  revert i. induction l as [|[k' w] l IH]; [done|]. cbn. intros i.
  destruct (Z.eqb_spec k' k) as [->|Hne].
  - intros [= -> <-]. exists [], l. split_and!; [done|done|set_solver].
  - destruct (lfind k l) as [[v' i']|] eqn:E; [|done]. cbn. intros [= -> <-].
    destruct (IH i' eq_refl) as (l1 & l2 & -> & -> & Hk). exists ((k', w) :: l1), l2.
    split_and!; [done|rewrite zlen_cons; lia|]. cbn. set_solver.
Qed.
Lemma lsorted_notin k v l1 l2 : lsorted (l1 ++ (k, v) :: l2) -> k ∉ keys l1 /\ k ∉ keys l2.
Proof.
  intros (_ & H2 & H12)%lsorted_app. apply lsorted_cons in H2 as [_ H2]. split; intros Hin.
  - specialize (H12 k k Hin). cbn in H12. specialize (H12 ltac:(by left)). lia.
  - specialize (H2 k Hin). lia.
Qed.

Lemma ldel_notin k l : k ∉ keys l -> ldel k l = l.
Proof.
  induction l as [|[k' v] l IH]; [done|]. intros [Hne Hk]%not_elem_of_cons. unfold ldel in *.
  rewrite filter_cons_True by (intros E; apply Hne; by symmetry). f_equal. by apply IH.
Qed.
Lemma ldel_app k l1 l2 : ldel k (l1 ++ l2) = ldel k l1 ++ ldel k l2.
Proof. apply filter_app. Qed.
Lemma ldel_split k v l1 l2 : lsorted (l1 ++ (k, v) :: l2) -> ldel k (l1 ++ (k, v) :: l2) = l1 ++ l2.
Proof.
  intros [H1 H2]%lsorted_notin. rewrite ldel_app, ldel_notin by done. unfold ldel.
  rewrite filter_cons_False by (cbn; naive_solver). f_equal. by apply ldel_notin.
Qed.
Lemma ldel_in k l a b : (a, b) ∈ ldel k l <-> a <> k /\ (a, b) ∈ l.
Proof. unfold ldel. by rewrite list_elem_of_filter. Qed.
Lemma keys_ldel k l a : a ∈ keys (ldel k l) <-> a <> k /\ a ∈ keys l.
Proof.
  split.
  - intros [b [? ?]%ldel_in]%keys_in_inv. split; [done|]. by eapply keys_in.
  - intros [Hne [b Hin]%keys_in_inv]. eapply keys_in, ldel_in. by split.
Qed.
Lemma lsorted_ldel k l : lsorted l -> lsorted (ldel k l).
Proof.
  induction l as [|[k' v] l IH]; [done|]. intros [Hl Hk]%lsorted_cons. unfold ldel. rewrite filter_cons.
  case_decide; [|by apply IH]. apply lsorted_cons. split; [by apply IH|]. intros b [_ Hb]%keys_ldel. auto.
Qed.

Lemma linsert_last k v l : (forall a, a ∈ keys l -> a < k) -> linsert k v l = l ++ [(k, v)].
Proof.
  induction l as [|[k' w] l IH]; [done|]. cbn. intros Ha. destruct (Z.leb_spec k k').
  - specialize (Ha k' ltac:(by left)). lia.
  - rewrite IH; [done|]. intros a Hin. apply Ha. by right.
Qed.
Lemma lset_notin k v l : k ∉ keys l -> lset k v l = l.
Proof.
  induction l as [|[k' w] l IH]; [done|]. cbn. rewrite elem_of_cons. intros Hk.
  rewrite decide_False by naive_solver. f_equal. apply IH. naive_solver.
Qed.
Lemma keys_lset k v l : keys (lset k v l) = keys l.
Proof.
  unfold keys, lset in *. induction l as [|[k' w] l IH]; [done|]. cbn. f_equal; [by case_decide|done].
Qed.
Lemma lset_split k v w l1 l2 : k ∉ keys l1 -> k ∉ keys l2 -> lset k v (l1 ++ (k, w) :: l2) = l1 ++ (k, v) :: l2.
Proof.
  intros H1 H2. unfold lset. rewrite fmap_app. cbn. rewrite decide_True by done.
  fold (lset k v l1) (lset k v l2). by rewrite !lset_notin.
Qed.
Lemma linsert_lset k v l : lsorted l -> k ∈ keys l -> linsert k v (ldel k l) = lset k v l.
Proof.
  intros Hs [w Hin]%keys_in_inv. apply list_elem_of_split in Hin as (l1 & l2 & ->).
  pose proof (lsorted_notin _ _ _ _ Hs) as [H1 H2]. rewrite ldel_split, lset_split by done.
  apply lsorted_app in Hs as (_ & Hs2 & H12). apply lsorted_cons in Hs2 as [_ Hs2]. clear H2.
  induction l1 as [|[k' w'] l1 IH]; cbn in *.
  - destruct l2 as [|[k' w'] l2]; [done|]. cbn. specialize (Hs2 k' ltac:(by left)). by rewrite (proj2 (Z.leb_le _ _)) by lia.
  - specialize (H12 k' k ltac:(by left) ltac:(by left)) as Hlt. rewrite (proj2 (Z.leb_gt _ _)) by done.
    f_equal. apply IH; [|set_solver]. intros a b Ha Hb. apply H12; [by right|done].
Qed.
Lemma keys_linsert k v l a : a ∈ keys (linsert k v l) <-> a = k \/ a ∈ keys l.
Proof.
  induction l as [|[k' w] l IH]; cbn; [set_solver|]. destruct (k <=? k'); cbn; rewrite !elem_of_cons; [done|]. rewrite IH. naive_solver.
Qed.
Lemma lsorted_linsert k v l : lsorted l -> k ∉ keys l -> lsorted (linsert k v l).
Proof.
  induction l as [|[k' w] l IH]; intros Hs Hk; cbn; [apply lsorted_cons; split; [constructor|set_solver]|].
  cbn in Hk. pose proof Hs as [Hl Hk']%lsorted_cons. destruct (Z.leb_spec k k').
  - apply lsorted_cons. split; [done|]. cbn. intros b [->|Hb]%elem_of_cons; [set_solver by lia|].
    specialize (Hk' b Hb). lia.
  - apply lsorted_cons. split; [apply IH; [done|set_solver]|]. intros b [->|Hb]%keys_linsert; [lia|auto].
Qed.
End strict_lists.

Section strict_trees.
Context `{OrdTreeLaws T} {V : Type}.
Implicit Types t : T V.

Lemma find_strict k t : ot_ok t -> lsorted (ot_list t) -> ot_find k t = lfind k (ot_list t).
Proof.
  intros Ho Hs. pose proof (ot_find_ok _ k t Ho) as Hf. destruct (ot_find k t) as [[v i]|].
  - destruct Hf as (l1 & l2 & E & ->). rewrite E in Hs |- *. apply lsorted_notin in Hs as [? _]. by rewrite lfind_split.
  - symmetry. by apply lfind_none.
Qed.
Lemma erase_strict k t : ot_ok t -> lsorted (ot_list t) ->
  exists t', ot_erase k t = Ok (fst <$> lfind k (ot_list t), t') /\ ot_ok t' /\ ot_list t' = ldel k (ot_list t).
Proof.
  intros Ho Hs. destruct (ot_erase_ok _ k t Ho) as (o & t' & E & Ho' & Hd). exists t'. destruct o as [v|].
  - destruct Hd as (l1 & l2 & El & El'). rewrite El in Hs |- *. rewrite ldel_split by done.
    apply lsorted_notin in Hs as [? _]. by rewrite lfind_split.
  - destruct Hd as [-> Hk]. rewrite (proj2 (lfind_none _ _) Hk), (ldel_notin _ _ Hk). done.
Qed.
End strict_trees.
