(* ===== verification/SeqSet.v ===== *)
(** * Sequence sets (libimap/expression.c, libimaildir/util.c)

    Iteration over the sequence sets of IMAP commands and the builder that collects
    numbers in a tree and gives them back as a set. *)

From stdpp Require Import sorting.
From S2P Require Import Prelude ImapTypes OrdTree.

(** ** Iteration *)

(** [tr_ptr] is what is left of the list, the current range first. *)
Record ie_seq_set_trav_t := mkTrv { tr_ptr : ie_seq_set_t; tr_i : Z; tr_imax : Z; tr_min : Z; tr_max : Z }.

(** The loop that both functions share: go to the next range within the bounds. *)
Fixpoint seek (ptr : ie_seq_set_t) (i imax min max : Z) : Z * ie_seq_set_trav_t :=
  match ptr with
  | [] => (0, mkTrv [] i imax min max)
  | (p1, p2) :: next =>
      let n1 := if p1 =? 0 then max else p1 in
      let n2 := if p2 =? 0 then max else p2 in
      let i := Z.min n1 n2 in
      let imax := Z.max n1 n2 in
      if (imax <? min) || (negb (max =? 0) && (i >? max)) then seek next 0 imax min max
      else
        let i := Z.max i min in
        let imax := if max =? 0 then imax else Z.min imax max in
        (i, mkTrv ptr i imax min max)
  end.

(** The counters of a fresh traversal are set before they are read. *)
Definition ie_seq_set_iter (seq_set : ie_seq_set_t) (min max : Z) : Z * ie_seq_set_trav_t := seek seq_set 0 0 min max.
Definition ie_seq_set_next (trav : ie_seq_set_trav_t) : Z * ie_seq_set_trav_t :=
  match tr_ptr trav with
  | [] => (0, trav)
  | _ :: next =>
      let i := u32 (tr_i trav + 1) in
      if tr_i trav =? tr_imax trav then seek next i (tr_imax trav) (tr_min trav) (tr_max trav)
      else (i, mkTrv (tr_ptr trav) i (tr_imax trav) (tr_min trav) (tr_max trav))
  end.

(** [for(i = ie_seq_set_iter(...); i != 0; i = ie_seq_set_next(...))] *)
Fixpoint seq_set_for {S} (fuel : nat) (body : Z -> S -> res S) (it : Z * ie_seq_set_trav_t) (s : S) : res S :=
  match fuel with
  | O => Stop OutOfFuel
  | Datatypes.S fuel =>
      let (i, trav) := it in
      if i =? 0 then Ok s
      else let! s := body i s in seq_set_for fuel body (ie_seq_set_next trav) s
  end.

(** The numbers of a set between two bounds, the bound [max] also for "*". *)
Definition range_vals (min max : Z) (p : Z * Z) : list Z :=
  let n1 := if p.1 =? 0 then max else p.1 in
  let n2 := if p.2 =? 0 then max else p.2 in
  let a := Z.max (Z.min n1 n2) min in
  let b := if max =? 0 then Z.max n1 n2 else Z.min (Z.max n1 n2) max in
  seqZ a (b - a + 1).
Definition seq_set_vals (min max : Z) (set : ie_seq_set_t) : list Z := flat_map (range_vals min max) set.

Definition for_seq_set {S} (set : ie_seq_set_t) (min max : Z) (body : Z -> S -> res S) (s : S) : res S :=
  seq_set_for (Datatypes.S (length (seq_set_vals min max set))) body (ie_seq_set_iter set min max) s.

(** ** The builder (libimaildir/util.c) *)

Section builder.
Context `{OrdTree T}.

(** A node is a range: its key is n1, its value n2. *)
Abbreviation seq_set_builder_t := (T Z).

Definition seq_set_builder_prep : seq_set_builder_t := ot_init.
Definition seq_set_builder_isempty (ssb : seq_set_builder_t) : bool := ot_size ssb =? 0.
Definition seq_set_builder_add_range (n1 n2 : Z) (ssb : seq_set_builder_t) : res seq_set_builder_t :=
  if (n1 =? 0) || (n2 =? 0) then Err E_PARAM
  else ot_insert (Z.min n1 n2) (Z.max n1 n2) ssb.
Definition seq_set_builder_add_val (n1 : Z) (ssb : seq_set_builder_t) : res seq_set_builder_t :=
  seq_set_builder_add_range n1 n1 ssb.
(** [while((node = jsw_aerase(ssb, &val)))] *)
Fixpoint del_val_loop (fuel : nat) (val : Z) (ssb : seq_set_builder_t) : res seq_set_builder_t :=
  match fuel with
  | O => Stop OutOfFuel
  | Datatypes.S fuel =>
      let! (node, ssb) := ot_erase val ssb in
      match node with
      | None => Ok ssb
      | Some _ => del_val_loop fuel val ssb
      end
  end.
Definition seq_set_builder_del_val (val : Z) (ssb : seq_set_builder_t) : res seq_set_builder_t :=
  del_val_loop (Datatypes.S (Z.to_nat (ot_size ssb))) val ssb.
Definition seq_set_builder_pop_val (ssb : seq_set_builder_t) : res (Z * seq_set_builder_t) :=
  let! (node, ssb) := ot_pop_first ssb in
  match node with
  | None => Ok (0, ssb)
  | Some (n1, _) => Ok (n1, ssb)
  end.

(** The finished ranges, and the current one. *)
Fixpoint extract_loop (nodes : list (Z * Z)) (cur : Z * Z) : ie_seq_set_t :=
  match nodes with
  | [] => [cur]
  | (n1, n2) :: nodes =>
      if n1 <=? u32 (cur.2 + 1) then extract_loop nodes (cur.1, n2)
      else cur :: extract_loop nodes (n1, n2)
  end.
(** The builder is freed. *)
Definition seq_set_builder_extract (ssb : seq_set_builder_t) : res ie_seq_set_t :=
  let! nodes := ot_visit false false ssb in
  Ok (match nodes with
      | [] => []
      | node :: nodes => extract_loop nodes node
      end).
End builder.

(** ** Loops *)

Fixpoint res_fold {A S} (body : A -> S -> res S) (l : list A) (s : S) : res S :=
  match l with
  | [] => Ok s
  | x :: l => let! s := body x s in res_fold body l s
  end.

Lemma res_fold_app {A S} (body : A -> S -> res S) l k s :
  res_fold body (l ++ k) s = let! s := res_fold body l s in res_fold body k s.
Proof. revert s. induction l as [|x l IH]; intros s; [done|]. cbn. destruct (body x s); [|done..]. cbn. apply IH. Qed.

(** Bounds with which a traversal sees all numbers: none of them is 0, and "*" has a value. *)
Definition bounds_ok (min max : Z) (set : ie_seq_set_t) : Prop :=
  0 <= min < 2 ^ 32 /\ 0 <= max < 2 ^ 32 /\ (max = 0 \/ min <= max) /\
  Forall (fun p => 0 <= p.1 < 2 ^ 32 /\ 0 <= p.2 < 2 ^ 32 /\ (0 < max \/ 0 < p.1 /\ 0 < p.2)) set.

Section iteration.
Context {S : Type} (body : Z -> S -> res S).

(** The rest of a range, then the ranges after it. *)
Lemma for_range fuel p next i imax min max s :
  1 <= i <= imax -> imax < 2 ^ 32 ->
  seq_set_for (Z.to_nat (imax - i + 1) + fuel) body (i, mkTrv (p :: next) i imax min max) s =
  let! s := res_fold body (seqZ i (imax - i + 1)) s in
  seq_set_for fuel body (seek next (u32 (imax + 1)) imax min max) s.
Proof.
  intros Hi Hm. remember (Z.to_nat (imax - i)) as n eqn:En. revert i s Hi En. induction n as [|n IH]; intros i s Hi En.
  - assert (i = imax) as -> by lia. replace (imax - imax + 1) with 1 by lia.
    change (Z.to_nat 1 + fuel)%nat with (Datatypes.S fuel).
    rewrite seqZ_cons, seqZ_nil by lia. cbn [seq_set_for res_fold].
    rewrite (proj2 (Z.eqb_neq imax 0)) by lia. rewrite res_bind_assoc. destruct (body imax s); [|done..]. cbn [res_bind].
    unfold ie_seq_set_next. cbn [tr_ptr tr_i tr_imax tr_min tr_max]. by rewrite Z.eqb_refl.
  - assert (Z.to_nat (imax - i + 1) = Datatypes.S (Z.to_nat (imax - (i + 1) + 1))) as -> by lia.
    rewrite seqZ_cons by lia. rewrite Nat.add_succ_l. cbn [seq_set_for res_fold].
    rewrite (proj2 (Z.eqb_neq i 0)) by lia. rewrite res_bind_assoc. destruct (body i s) as [s'| |]; [|done..]. cbn [res_bind].
    unfold ie_seq_set_next. cbn [tr_ptr tr_i tr_imax tr_min tr_max]. rewrite (proj2 (Z.eqb_neq i imax)) by lia.
    rewrite (u32_small (i + 1)) by (unfold is_u32; lia). replace (Z.succ i) with (i + 1) by lia.
    replace (Z.pred (imax - i + 1)) with (imax - (i + 1) + 1) by lia.
    apply IH; lia.
Qed.

Lemma seek_for set i imax min max s :
  bounds_ok min max set ->
  seq_set_for (Datatypes.S (length (seq_set_vals min max set))) body (seek set i imax min max) s =
  res_fold body (seq_set_vals min max set) s.
Proof.
  intros (Hmin & Hmax & Hmm & Hset). revert i imax s. induction Hset as [|[p1 p2] set (H1 & H2 & H3) Hset IH]; intros i imax s; [done|].
  cbn [fst snd] in *. change (seq_set_vals min max ((p1, p2) :: set)) with (range_vals min max (p1, p2) ++ seq_set_vals min max set).
  unfold range_vals. cbn [seek fst snd].
  set (n1 := if p1 =? 0 then max else p1). set (n2 := if p2 =? 0 then max else p2).
  assert (0 < n1 < 2 ^ 32 /\ 0 < n2 < 2 ^ 32) as [Hn1 Hn2].
  { unfold n1, n2. destruct (Z.eqb_spec p1 0), (Z.eqb_spec p2 0); lia. }
  set (b := if max =? 0 then Z.max n1 n2 else Z.min (Z.max n1 n2) max).
  destruct ((Z.max n1 n2 <? min) || (negb (max =? 0) && (Z.min n1 n2 >? max))) eqn:Ec.
  - assert (b - Z.max (Z.min n1 n2) min + 1 <= 0) as Hb.
    { unfold b. rewrite Z.gtb_ltb in Ec. destruct (Z.eqb_spec max 0); cbn in Ec.
      - apply orb_true_iff in Ec as [?%Z.ltb_lt|]; [lia|done].
      - apply orb_true_iff in Ec as [?%Z.ltb_lt|?%Z.ltb_lt]; lia. }
    rewrite seqZ_nil by done. cbn [app]. apply IH.
  - assert (Z.max (Z.min n1 n2) min <= b /\ b < 2 ^ 32) as [Hb Hb'].
    { unfold b. rewrite Z.gtb_ltb in Ec. apply orb_false_iff in Ec as [?%Z.ltb_ge Ec].
      destruct (Z.eqb_spec max 0); cbn in Ec; [lia|]. apply Z.ltb_ge in Ec. lia. }
    rewrite length_app, length_seqZ, <- Nat.add_succ_r.
    rewrite for_range by lia. rewrite res_fold_app. destruct (res_fold body _ s) as [s'| |]; [|done..]. cbn [res_bind]. apply IH.
Qed.

(** A traversal visits the numbers of the set in its order. *)
Lemma for_seq_set_fold set min max s :
  bounds_ok min max set -> for_seq_set set min max body s = res_fold body (seq_set_vals min max set) s.
Proof. apply seek_for. Qed.
End iteration.

Lemma range_vals_in min max p x :
  x ∈ range_vals min max p <->
  let n1 := if p.1 =? 0 then max else p.1 in
  let n2 := if p.2 =? 0 then max else p.2 in
  min <= x /\ (max = 0 \/ x <= max) /\ Z.min n1 n2 <= x <= Z.max n1 n2.
Proof.
  unfold range_vals. cbv zeta. rewrite elem_of_seqZ. destruct (Z.eqb_spec max 0); lia.
Qed.
Lemma seq_set_vals_in min max set x :
  x ∈ seq_set_vals min max set <-> exists p, p ∈ set /\ x ∈ range_vals min max p.
Proof.
  unfold seq_set_vals. induction set as [|p set IH]; cbn; [set_solver|]. rewrite elem_of_app, IH. set_solver.
Qed.
Lemma seq_set_vals_bounds min max set x :
  bounds_ok min max set -> x ∈ seq_set_vals min max set -> 1 <= x < 2 ^ 32 /\ min <= x /\ (max = 0 \/ x <= max).
Proof.
  intros (Hmin & Hmax & Hmm & Hset) (p & Hp & Hx)%seq_set_vals_in. rewrite Forall_forall in Hset.
  destruct (Hset p Hp) as (H1 & H2 & H3). apply range_vals_in in Hx as (Hx1 & Hx2 & Hx3). cbv zeta in Hx3.
  destruct (Z.eqb_spec p.1 0), (Z.eqb_spec p.2 0); lia.
Qed.

(** ** What the builder gives back *)

(** Ranges in increasing order, with a gap between each two. *)
Definition gaps (set : ie_seq_set_t) : Prop := StronglySorted (fun p q : Z * Z => p.2 + 1 < q.1) set.
(** A set as the builder makes it. *)
Definition canonical (set : ie_seq_set_t) : Prop :=
  Forall (fun p => 1 <= p.1 /\ p.1 <= p.2 /\ p.2 < 2 ^ 32) set /\ gaps set.

Lemma canonical_bounds set : canonical set -> bounds_ok 0 0 set.
Proof.
  intros [Hs _]. split_and!; [lia..|by left|]. eapply Forall_impl; [exact Hs|]. cbn. intros [a b] H. cbn in *. lia.
Qed.

Lemma range_vals_plain p : 1 <= p.1 <= p.2 -> range_vals 0 0 p = seqZ p.1 (p.2 - p.1 + 1).
Proof.
  intros H. unfold range_vals. rewrite (proj2 (Z.eqb_neq p.1 0)), (proj2 (Z.eqb_neq p.2 0)) by lia. cbn [Z.eqb].
  f_equal; lia.
Qed.

Lemma seqZ_sorted a n : StronglySorted Z.lt (seqZ a n).
Proof.
  remember (Z.to_nat n) as m eqn:Em. revert a n Em. induction m as [|m IH]; intros a n Em.
  - rewrite seqZ_nil by lia. constructor.
  - rewrite seqZ_cons by lia. constructor; [apply IH; lia|]. apply Forall_forall. intros x Hx%elem_of_seqZ. lia.
Qed.

(** The numbers of a canonical set are strictly increasing. *)
Lemma canonical_sorted set : canonical set -> StronglySorted Z.lt (seq_set_vals 0 0 set).
Proof.
  intros [Hs Hg]. induction set as [|p set IH]; [constructor|]. inversion Hs as [|? ? (H1 & H2 & H3) Hs']; subst.
  inversion Hg as [|? ? Hg' Hp]; subst. cbn [seq_set_vals flat_map]. apply StronglySorted_app. split_and!; [|rewrite range_vals_plain by lia; apply seqZ_sorted|by apply IH].
  intros x y Hx Hy. rewrite range_vals_plain in Hx by lia. apply elem_of_seqZ in Hx.
  apply (seq_set_vals_in 0 0 set) in Hy as (q & Hq & Hy). rewrite Forall_forall in Hp, Hs'. specialize (Hp q Hq). cbn in Hp.
  destruct (Hs' q Hq) as (? & ? & ?). rewrite range_vals_plain in Hy by lia. apply elem_of_seqZ in Hy. lia.
Qed.

(** Single numbers in increasing order, below the greatest one (see [canonical_limits]). *)
Lemma extract_values nodes cur :
  1 <= cur.1 <= cur.2 -> StronglySorted Z.le (cur.2 :: keys nodes) ->
  Forall (fun p => p.2 = p.1 /\ p.1 < UINT32_MAX) nodes -> cur.2 < UINT32_MAX ->
  canonical (extract_loop nodes cur) /\ Forall (fun p => cur.1 <= p.1) (extract_loop nodes cur) /\
  forall x, x ∈ seq_set_vals 0 0 (extract_loop nodes cur) <-> cur.1 <= x <= cur.2 \/ x ∈ keys nodes.
Proof.
  revert cur. induction nodes as [|[n1 n2] nodes IH]; intros cur Hc Hs Hv Hm; unfold UINT32_MAX in *.
  - cbn. split_and!.
    + split; [|repeat constructor]. repeat constructor; lia.
    + repeat constructor. lia.
    + intros x. rewrite app_nil_r, range_vals_plain, elem_of_seqZ by lia. split; [intros; left; lia|]. intros [?|?]; [lia|set_solver].
  - inversion Hv as [|? ? [E Hlt] Hv']; subst. cbn in E, Hlt. subst n2.
    inversion Hs as [|? ? Hs' Hle]; subst. cbn in Hle, Hs'. inversion Hle as [|? ? Hle1 Hle2]; subst.
    cbn [extract_loop keys map fst]. rewrite u32_small by (unfold is_u32; lia). cbn [snd].
    destruct (Z.leb_spec n1 (cur.2 + 1)).
    + destruct (IH (cur.1, n1)) as (Hcan & Hlow & Hin); cbn [fst snd]; [lia|done|done|done|].
      cbn [fst snd] in *. split_and!; [done|done|]. intros x. rewrite Hin, elem_of_cons. change (map fst nodes) with (keys nodes).
      assert (cur.1 <= x <= n1 <-> cur.1 <= x <= cur.2 \/ x = n1) as -> by lia. naive_solver.
    + destruct (IH (n1, n1)) as ((Hcs & Hcg) & Hlow & Hin); cbn [fst snd]; [lia|done|done|done|].
      cbn [fst snd] in *. split_and!.
      * split; [constructor; [lia|done]|]. constructor; [done|]. eapply Forall_impl; [exact Hlow|]. cbn. intros. lia.
      * constructor; [lia|]. eapply Forall_impl; [exact Hlow|]. cbn. intros. lia.
      * intros x. cbn [seq_set_vals flat_map]. rewrite elem_of_app, range_vals_plain, elem_of_seqZ by lia.
        change (flat_map (range_vals 0 0) (extract_loop nodes (n1, n1))) with (seq_set_vals 0 0 (extract_loop nodes (n1, n1))).
        rewrite Hin, elem_of_cons. change (map fst nodes) with (keys nodes).
        assert (n1 <= x <= n1 <-> x = n1) as -> by lia. assert (cur.1 <= x < cur.1 + (cur.2 - cur.1 + 1) <-> cur.1 <= x <= cur.2) as -> by lia. done.
Qed.

Section builder_laws.
Context `{OrdTreeLaws T}.
Implicit Types ssb : T Z.

(** The builder holds the numbers [vs], each as often as it was added. *)
Record holds ssb (vs : list Z) : Prop := {
  h_ok : ot_ok ssb;
  h_single : Forall (fun p => p.2 = p.1 /\ 1 <= p.1 < UINT32_MAX) (ot_list ssb);
  h_perm : keys (ot_list ssb) ≡ₚ vs
}.

Lemma holds_length ssb vs : holds ssb vs -> zlen (ot_list ssb) = zlen vs.
Proof. intros [_ _ Hp]. apply Permutation_length in Hp. unfold keys in Hp. rewrite length_map in Hp. unfold zlen. by rewrite Hp. Qed.

Lemma linsert_perm {V} k (v : V) l : linsert k v l ≡ₚ (k, v) :: l.
Proof. induction l as [|[k' v'] l IH]; [done|]. cbn. destruct (k <=? k'); [done|]. rewrite IH. apply Permutation_swap. Qed.

Lemma prep_holds : holds seq_set_builder_prep [].
Proof. unfold seq_set_builder_prep. constructor; [apply ot_init_ok|rewrite ot_init_list; constructor|by rewrite ot_init_list]. Qed.

Lemma add_val_holds v ssb vs :
  holds ssb vs -> 1 <= v < UINT32_MAX -> zlen vs + 1 < MAX_NODES ->
  exists ssb', seq_set_builder_add_val v ssb = Ok ssb' /\ holds ssb' (v :: vs).
Proof.
  intros Hh Hv Hz. pose proof Hh as [Ho Hs Hp]. rewrite <- (holds_length _ _ Hh) in Hz.
  destruct (ot_insert_ok _ v v ssb Ho Hz) as (t' & E & Ho' & El). exists t'.
  unfold seq_set_builder_add_val, seq_set_builder_add_range. rewrite (proj2 (Z.eqb_neq v 0)) by lia.
  cbn [orb]. rewrite Z.min_id, Z.max_id. split; [done|]. constructor; [done| |].
  - rewrite El, linsert_perm. by constructor.
  - rewrite El. unfold keys in *. change (map fst) with (@fmap list _ (Z * Z) Z fst) in *. by rewrite linsert_perm, fmap_cons, Hp.
Qed.

Lemma del_val_holds v ssb vs :
  holds ssb vs -> exists ssb', seq_set_builder_del_val v ssb = Ok ssb' /\ holds ssb' (filter (fun x => x <> v) vs).
Proof.
  intros Hh. unfold seq_set_builder_del_val. rewrite (ot_size_ok _ ssb (h_ok _ _ Hh)).
  assert (exists n, n = Datatypes.S (Z.to_nat (zlen (ot_list ssb))) /\ zlen (ot_list ssb) < Z.of_nat n) as (n & <- & Hn) by (eexists; split; [done|lia]).
  revert ssb vs Hh Hn. induction n as [|n IH]; intros ssb vs Hh Hn; [pose proof (zlen_nonneg (ot_list ssb)); lia|].
  pose proof Hh as [Ho Hs Hp]. cbn [del_val_loop]. destruct (ot_erase_ok _ v ssb Ho) as (o & t' & E & Ho' & Hd). rewrite E. cbn [res_bind].
  destruct o as [w|].
  - destruct Hd as (l1 & l2 & El & El').
    destruct (IH t' (keys (l1 ++ l2))) as (ssb' & Ed & Hh').
    + constructor; [done| |by rewrite El']. rewrite El' . rewrite El in Hs. apply Forall_app in Hs as [? Hs]. inversion Hs; subst. by apply Forall_app.
    + rewrite El in Hn. rewrite El'. autorewrite with zlen in *. lia.
    + exists ssb'. split; [done|]. destruct Hh' as [? ? Hp']. constructor; [done..|].
      rewrite Hp', <- Hp, El, !keys_app. cbn [keys map fst]. rewrite !filter_app, filter_cons_False by naive_solver. done.
  - destruct Hd as [-> Hv]. eexists. split; [done|]. constructor; [done..|]. rewrite Hp.
    assert (filter (fun x => x <> v) vs = vs) as ->; [|done].
    assert (Forall (fun x => x <> v) vs) as Hf.
    { apply Forall_forall. intros x Hx ->. apply Hv. by rewrite Hp. }
    clear -Hf. induction Hf as [|x vs Hx Hf IH]; [done|]. by rewrite filter_cons_True, IH.
Qed.

Lemma extract_holds ssb vs :
  holds ssb vs -> exists set, seq_set_builder_extract ssb = Ok set /\ canonical set /\
    forall x, x ∈ seq_set_vals 0 0 set <-> x ∈ vs.
Proof.
  intros [Ho Hs Hp]. unfold seq_set_builder_extract. rewrite ot_visit_ok by done. cbn [res_bind visited].
  pose proof (ot_sorted _ ssb Ho) as Hst. eexists. split; [done|].
  destruct (ot_list ssb) as [|[n1 n2] nodes] eqn:El.
  - split; [split; [constructor|constructor]|]. intros x. rewrite <- Hp. done.
  - inversion Hs as [|? ? [E Hn] Hs']; subst. cbn in E, Hn. subst n2.
    destruct (extract_values nodes (n1, n1)) as (Hc & _ & Hin); cbn [fst snd]; [lia|done| |lia|].
    { eapply Forall_impl; [exact Hs'|]. cbn. intros p. lia. }
    split; [done|]. intros x. rewrite Hin, <- Hp. cbn. rewrite elem_of_cons. change (map fst nodes) with (keys nodes).
    assert (n1 <= x <= n1 <-> x = n1) as -> by lia. done.
Qed.

Lemma add_vals_hold vs : forall ssb ws,
  holds ssb ws -> Forall (fun v => 1 <= v < UINT32_MAX) vs -> zlen vs + zlen ws < MAX_NODES ->
  exists ssb', res_fold seq_set_builder_add_val vs ssb = Ok ssb' /\ holds ssb' (reverse vs ++ ws).
Proof.
  induction vs as [|v vs IH]; intros ssb ws Hh Hf Hz; [by exists ssb|].
  inversion Hf; subst. rewrite zlen_cons in Hz.
  destruct (add_val_holds v ssb ws) as (s1 & E1 & Hh1); [done|done|pose proof (zlen_nonneg vs); lia|].
  cbn [res_fold]. rewrite E1. cbn [res_bind].
  destruct (IH s1 (v :: ws)) as (s2 & E2 & Hh2); [done|done|rewrite zlen_cons; lia|].
  exists s2. split; [done|]. by rewrite reverse_cons, <- app_assoc.
Qed.
End builder_laws.

(** [l = l ++ [x]] for each number, as the loops of the callers collect them. *)
Definition collect (x : Z) (l : list Z) : res (list Z) := Ok (l ++ [x]).
Lemma collect_fold l acc : res_fold collect l acc = Ok (acc ++ l).
Proof. revert acc. induction l as [|x l IH]; intros acc; cbn; [by rewrite app_nil_r|]. by rewrite IH, <- app_assoc. Qed.



(** Where the sets fall short: overlapping ranges lose the numbers that only the first of
    them has, and the greatest number is given back twice when it was added twice. *)
Definition overlapping : res ie_seq_set_t :=
  let! ssb := seq_set_builder_add_range 1 10 (seq_set_builder_prep (T := otree)) in
  let! ssb := seq_set_builder_add_range 2 3 ssb in seq_set_builder_extract ssb.
Definition twice_max : res ie_seq_set_t :=
  let! ssb := seq_set_builder_add_val UINT32_MAX (seq_set_builder_prep (T := otree)) in
  let! ssb := seq_set_builder_add_val UINT32_MAX ssb in seq_set_builder_extract ssb.

(** The builder and the iteration fall short on the edges: a range that overlaps an
    earlier one cuts it off, the number UINT_MAX added twice comes out twice, and a set
    with "*" that is iterated without a maximum ends at the first such range. *)
Theorem seq_set_limits :
  overlapping = Ok [(1, 3)] /\ twice_max = Ok [(UINT32_MAX, UINT32_MAX); (UINT32_MAX, UINT32_MAX)] /\
  for_seq_set [(0, 5); (7, 9)] 0 0 collect [] = Ok [] /\ for_seq_set [(7, 9); (0, 5)] 1 8 collect [] = Ok [7; 8; 5; 6; 7; 8].
Proof. by vm_compute. Qed.
