(* ===== verification/ImapSearch.v ===== *)
(** * Evaluating search keys (libimaildir/search.c, libdstr/dstr_off.h)

    A search key is evaluated on one message of the mailbox: its view, its place, and its
    parsed headers and text, which are loaded when they are needed. The parsers are
    generated when the program is built, so what they give back is an argument here. *)

From S2P Require Import Prelude Dstr Msg ImapTypes.

(** ** Parsed messages (libimap/imf.h) *)

(** A part of a buffer; the buffer may be NULL. *)
Record dstr_off_t := mkOff { off_buf : option bytes; off_start : Z; off_len : Z }.

(** A dstr_t without data is [None]. *)
Definition dstr_from_off (off : dstr_off_t) : option bytes :=
  (fun buf => dstr_sub2 buf (off_start off) (off_start off + off_len off)) <$> off_buf off.
Definition off_bytes (off : dstr_off_t) : bytes := default [] (dstr_from_off off).

Record imf_hdr_t := mkHdr { hdr_bytes : dstr_off_t; hdr_name : dstr_off_t; hdr_value : dstr_off_t }.
Record imf_hdrs_t := mkHdrs { hdrs_bytes : dstr_off_t; hdrs_sep : dstr_off_t; hdrs_hdr : list imf_hdr_t }.
Record imf_t := mkImf { imf_bytes : dstr_off_t; imf_hdrs : imf_hdrs_t; imf_body : dstr_off_t }.

(** ** Sets and dates *)

Fixpoint in_seq_set (val : Z) (seq_set : ie_seq_set_t) (max : Z) : bool :=
  match seq_set with
  | [] => false
  | (p1, p2) :: next =>
      let n1 := if p1 =? 0 then max else p1 in
      let n2 := if p2 =? 0 then max else p2 in
      let a := Z.min n1 n2 in
      let b := Z.max n1 n2 in
      if (val >=? a) && (val <=? b) then true else in_seq_set val next max
  end.

Definition date_a_is_on_b (a b : imap_time_t) : bool :=
  (t_year a =? t_year b) && (t_month a =? t_month b) && (t_day a =? t_day b).
Definition date_a_is_before_b (a b : imap_time_t) : bool :=
  if t_year a <? t_year b then true
  else if t_year a >? t_year b then false
  else if t_month a <? t_month b then true
  else if t_month a >? t_month b then false
  else t_day a <? t_day b.
Definition date_a_is_since_b (a b : imap_time_t) : bool :=
  if t_year a >? t_year b then true
  else if t_year a <? t_year b then false
  else if t_month a >? t_month b then true
  else if t_month a <? t_month b then false
  else t_day a >=? t_day b.

(** ** Evaluation *)

(** [get_hdrs] and [get_imf] are idempotent: they always give the same result. *)
Record search_args_t := mkArgs {
  sa_view : msg_view_t; sa_seq : Z; sa_seq_max : Z; sa_uid_dn_max : Z;
  get_hdrs : res imf_hdrs_t; get_imf : res imf_t
}.

(** A failed get is only logged: [IF_PROP(&e, m){ ...; return dflt; }] *)
Definition if_prop {A B} (m : res A) (dflt : B) (k : A -> res B) : res B :=
  match m with
  | Ok a => k a
  | Err _ => Ok dflt
  | Stop s => Stop s
  end.

Section search.
Context (imf_parse_date : bytes -> res imap_time_t).

Definition no_date : imap_time_t := mkTime 0 0 0 0 0 0 0 0.

(** The value of the first header with a name that matches. *)
Fixpoint find_hdr (hdr : list imf_hdr_t) (name : bytes) : option bytes :=
  match hdr with
  | [] => None
  | h :: next =>
      if do_dstr_cmp2 (dstr_from_off (hdr_name h)) (Some name) false =? 0 then dstr_from_off (hdr_value h)
      else find_hdr next name
  end.
Definition find_header (args : search_args_t) (name : bytes) : res (option bytes) :=
  if_prop (get_hdrs args) None (fun hdrs => Ok (find_hdr (hdrs_hdr hdrs) name)).

Definition found (text pat : bytes) : res bool := let! n := dstr_icount2 text pat in Ok (n >? 0).
Definition search_headers (args : search_args_t) (name value : bytes) : res bool :=
  let! hvalue := find_header args name in
  match hvalue with
  | None => Ok false
  | Some hvalue => found hvalue value
  end.

Definition parse_date (args : search_args_t) : res imap_time_t :=
  let! hvalue := find_header args (lit "Date") in
  match hvalue with
  | None => Ok no_date
  | Some hvalue => if_prop (imf_parse_date hvalue) no_date Ok
  end.

Definition sent (args : search_args_t) (p : imap_time_t -> imap_time_t -> bool) (date : imap_time_t) : res bool :=
  let! d := parse_date args in Ok (negb (t_year d =? 0) && p d date).

(** The keys without a parameter. *)
Definition eval_0 (flags : msg_flags_t) (type : ie_search_0_t) : bool :=
  match type with
  | IE_SEARCH_ALL => true
  | IE_SEARCH_ANSWERED => answered flags
  | IE_SEARCH_UNANSWERED => negb (answered flags)
  | IE_SEARCH_DELETED => deleted flags
  | IE_SEARCH_UNDELETED => negb (deleted flags)
  | IE_SEARCH_FLAGGED => flagged flags
  | IE_SEARCH_UNFLAGGED => negb (flagged flags)
  | IE_SEARCH_SEEN => seen flags
  | IE_SEARCH_UNSEEN => negb (seen flags)
  | IE_SEARCH_DRAFT => draft flags
  | IE_SEARCH_UNDRAFT => negb (draft flags)
  | IE_SEARCH_NEW => false
  | IE_SEARCH_OLD => true
  | IE_SEARCH_RECENT => false
  end.

Definition eval_body (args : search_args_t) (pat : bytes) : res bool :=
  if_prop (get_imf args) false (fun imf => found (off_bytes (imf_body imf)) pat).
Definition eval_text (args : search_args_t) (tgt : bytes) : res bool :=
  if_prop (get_hdrs args) false (fun hdrs =>
    let! b := found (off_bytes (hdrs_bytes hdrs)) tgt in
    if b : bool then Ok true
    else
      let hdrs_end := off_start (hdrs_bytes hdrs) + off_len (hdrs_bytes hdrs) in
      if_prop (get_imf args) false (fun imf =>
        let start := hdrs_end - Z.min hdrs_end (zlen tgt) in
        let end_ := off_start (imf_bytes imf) + off_len (imf_bytes imf) in
        found (dstr_sub2 (off_bytes (imf_bytes imf)) start end_) tgt)).

(** The keys with a string. *)
Definition eval_dstr (args : search_args_t) (type : ie_search_dstr_t) (dstr : bytes) : res bool :=
  match type with
  | IE_SEARCH_SUBJECT => search_headers args (lit "Subject") dstr
  | IE_SEARCH_BCC => search_headers args (lit "Bcc") dstr
  | IE_SEARCH_CC => search_headers args (lit "Cc") dstr
  | IE_SEARCH_FROM => search_headers args (lit "From") dstr
  | IE_SEARCH_TO => search_headers args (lit "To") dstr
  | IE_SEARCH_BODY => eval_body args dstr
  | IE_SEARCH_TEXT => eval_text args dstr
  | IE_SEARCH_KEYWORD => Ok false
  | IE_SEARCH_UNKEYWORD => Ok true
  end.
Definition eval_date (args : search_args_t) (type : ie_search_date_t) (date : imap_time_t) : res bool :=
  match type with
  | IE_SEARCH_BEFORE => Ok (date_a_is_before_b (v_internaldate (sa_view args)) date)
  | IE_SEARCH_ON => Ok (date_a_is_on_b (v_internaldate (sa_view args)) date)
  | IE_SEARCH_SINCE => Ok (date_a_is_since_b (v_internaldate (sa_view args)) date)
  | IE_SEARCH_SENTBEFORE => sent args date_a_is_before_b date
  | IE_SEARCH_SENTON => sent args date_a_is_on_b date
  | IE_SEARCH_SENTSINCE => sent args date_a_is_since_b date
  end.

Fixpoint do_eval (args : search_args_t) (lvl : Z) (key : ie_search_key_t) : res bool :=
  if lvl >? 1000 then Ok false
  else
    match key with
    | Search0 type => Ok (eval_0 (v_flags (sa_view args)) type)
    | SearchKey IE_SEARCH_NOT key => let! temp := do_eval args (lvl + 1) key in Ok (negb temp)
    | SearchKey IE_SEARCH_GROUP key => do_eval args (lvl + 1) key
    | SearchPair IE_SEARCH_OR a b =>
        let! a := do_eval args (lvl + 1) a in
        let! b := do_eval args (lvl + 1) b in
        Ok (a || b)
    | SearchPair IE_SEARCH_AND a b =>
        let! a := do_eval args (lvl + 1) a in
        let! b := do_eval args (lvl + 1) b in
        Ok (a && b)
    | SearchSet IE_SEARCH_UID seq_set => Ok (in_seq_set (v_uid_dn (sa_view args)) seq_set (sa_uid_dn_max args))
    | SearchSet IE_SEARCH_SEQ_SET seq_set => Ok (in_seq_set (sa_seq args) seq_set (sa_seq_max args))
    | SearchDstr type dstr => eval_dstr args type dstr
    | IE_SEARCH_HEADER name value => search_headers args name value
    | SearchDate type date => eval_date args type date
    | SearchNum IE_SEARCH_LARGER num => Ok (v_length (sa_view args) >? num)
    | SearchNum IE_SEARCH_SMALLER num => Ok (v_length (sa_view args) <? num)
    | IE_SEARCH_MODSEQ _ _ => Err E_INTERNAL
    end.

Definition search_key_eval (key : ie_search_key_t) (view : msg_view_t) (seq seq_max uid_dn_max : Z)
  (get_hdrs : res imf_hdrs_t) (get_imf : res imf_t) : res bool :=
  do_eval (mkArgs view seq seq_max uid_dn_max get_hdrs get_imf) 0 key.

(** ** What the keys mean *)

(** A string contains another, whatever the case of its letters. *)
Definition contains (text pat : bytes) : Prop := exists i, occurs ichar text pat i.
Definition in_header (args : search_args_t) (name value : bytes) : Prop :=
  exists hdrs hvalue, get_hdrs args = Ok hdrs /\ find_hdr (hdrs_hdr hdrs) name = Some hvalue /\ contains hvalue value.
(** Days, compared by year, month and day. *)
Definition day_lt (a b : imap_time_t) : Prop :=
  t_year a < t_year b \/ t_year a = t_year b /\ (t_month a < t_month b \/ t_month a = t_month b /\ t_day a < t_day b).
Definition same_day (a b : imap_time_t) : Prop := t_year a = t_year b /\ t_month a = t_month b /\ t_day a = t_day b.
(** The date header, when there is one that can be read. *)
Definition sent_on (args : search_args_t) (d : imap_time_t) : Prop :=
  exists hdrs hvalue, get_hdrs args = Ok hdrs /\ find_hdr (hdrs_hdr hdrs) (lit "Date") = Some hvalue /\
    imf_parse_date hvalue = Ok d /\ t_year d <> 0.
Definition in_ranges (val : Z) (set : ie_seq_set_t) (max : Z) : Prop :=
  exists p, p ∈ set /\ let n1 := if p.1 =? 0 then max else p.1 in let n2 := if p.2 =? 0 then max else p.2 in
    Z.min n1 n2 <= val <= Z.max n1 n2.

Fixpoint matches (args : search_args_t) (key : ie_search_key_t) : Prop :=
  match key with
  | Search0 type => eval_0 (v_flags (sa_view args)) type = true
  | SearchKey IE_SEARCH_NOT key => ~ matches args key
  | SearchKey IE_SEARCH_GROUP key => matches args key
  | SearchPair IE_SEARCH_OR a b => matches args a \/ matches args b
  | SearchPair IE_SEARCH_AND a b => matches args a /\ matches args b
  | SearchSet IE_SEARCH_UID set => in_ranges (v_uid_dn (sa_view args)) set (sa_uid_dn_max args)
  | SearchSet IE_SEARCH_SEQ_SET set => in_ranges (sa_seq args) set (sa_seq_max args)
  | SearchDstr IE_SEARCH_SUBJECT d => in_header args (lit "Subject") d
  | SearchDstr IE_SEARCH_BCC d => in_header args (lit "Bcc") d
  | SearchDstr IE_SEARCH_CC d => in_header args (lit "Cc") d
  | SearchDstr IE_SEARCH_FROM d => in_header args (lit "From") d
  | SearchDstr IE_SEARCH_TO d => in_header args (lit "To") d
  | SearchDstr IE_SEARCH_BODY d => exists imf, get_imf args = Ok imf /\ contains (off_bytes (imf_body imf)) d
  | SearchDstr IE_SEARCH_TEXT d => exists imf, get_imf args = Ok imf /\ contains (off_bytes (imf_bytes imf)) d
  | SearchDstr IE_SEARCH_KEYWORD _ => False
  | SearchDstr IE_SEARCH_UNKEYWORD _ => True
  | IE_SEARCH_HEADER name value => in_header args name value
  | SearchDate IE_SEARCH_BEFORE d => day_lt (v_internaldate (sa_view args)) d
  | SearchDate IE_SEARCH_ON d => same_day (v_internaldate (sa_view args)) d
  | SearchDate IE_SEARCH_SINCE d => ~ day_lt (v_internaldate (sa_view args)) d
  | SearchDate IE_SEARCH_SENTBEFORE d => exists s, sent_on args s /\ day_lt s d
  | SearchDate IE_SEARCH_SENTON d => exists s, sent_on args s /\ same_day s d
  | SearchDate IE_SEARCH_SENTSINCE d => exists s, sent_on args s /\ ~ day_lt s d
  | SearchNum IE_SEARCH_LARGER n => n < v_length (sa_view args)
  | SearchNum IE_SEARCH_SMALLER n => v_length (sa_view args) < n
  | IE_SEARCH_MODSEQ _ _ => False
  end.

Fixpoint depth (key : ie_search_key_t) : Z :=
  match key with
  | SearchKey _ key => depth key + 1
  | SearchPair _ a b => Z.max (depth a) (depth b) + 1
  | _ => 0
  end.
(** No empty strings, which make the search loop forever (see [search_limits]), and no
    MODSEQ, which is not implemented. *)
Fixpoint searchable (key : ie_search_key_t) : Prop :=
  match key with
  | SearchKey _ key => searchable key
  | SearchPair _ a b => searchable a /\ searchable b
  | SearchDstr _ d => 0 < zlen d
  | IE_SEARCH_HEADER _ d => 0 < zlen d
  | IE_SEARCH_MODSEQ _ _ => False
  | _ => True
  end.

(** What the parsers promise of a message: its text is a buffer that the headers begin;
    headers that are parsed alone are those of the message. Sizes are in range. *)
Record parsed (args : search_args_t) (buf : bytes) (h : Z) : Prop := {
  pa_buf : zlen buf < 2 ^ 63;
  pa_hdrs : forall hdrs, get_hdrs args = Ok hdrs ->
    hdrs_bytes hdrs = mkOff (Some buf) 0 h /\
    forall name v, find_hdr (hdrs_hdr hdrs) name = Some v -> zlen v < 2 ^ 63;
  pa_imf : forall imf, get_imf args = Ok imf ->
    imf_bytes imf = mkOff (Some buf) 0 (zlen buf) /\ zlen (off_bytes (imf_body imf)) < 2 ^ 63;
  pa_both : forall hdrs, get_hdrs args = Ok hdrs -> exists imf, get_imf args = Ok imf;
  pa_nostop : (forall s, get_hdrs args <> Stop s) /\ (forall s, get_imf args <> Stop s) /\ forall b s, imf_parse_date b <> Stop s;
  pa_imf_hdrs : forall imf, get_imf args = Ok imf -> exists hdrs, get_hdrs args = Ok hdrs;
  pa_len : 0 <= h <= zlen buf
}.

(** ** The search is right *)

Lemma in_seq_set_spec val set max : in_seq_set val set max = true <-> in_ranges val set max.
Proof.
  unfold in_ranges. induction set as [|[p1 p2] set IH]; cbn [in_seq_set]; [split; [done|set_solver]|].
  rewrite Z.geb_leb. split.
  - destruct ((_ <=? val) && (val <=? _)) eqn:E; intros H.
    + bool_to_prop. exists (p1, p2). split; [by left|]. cbn [fst snd]. lia.
    + destruct (proj1 IH H) as (p & Hp & Hv). exists p. split; [by right|done].
  - intros (p & [->|Hp]%elem_of_cons & Hv); cbn [fst snd] in *.
    + by rewrite !(proj2 (Z.leb_le _ _)) by lia.
    + destruct ((_ <=? val) && (val <=? _)); [done|]. apply IH. by exists p.
Qed.

Lemma before_spec a b : date_a_is_before_b a b = true <-> day_lt a b.
Proof.
  unfold date_a_is_before_b, day_lt. rewrite !Z.gtb_ltb.
  repeat (match goal with |- context [?x <? ?y] => destruct (Z.ltb_spec x y) end); split; intros; try done; lia.
Qed.
Lemma since_spec a b : date_a_is_since_b a b = true <-> ~ day_lt a b.
Proof.
  unfold date_a_is_since_b, day_lt. rewrite !Z.gtb_ltb, Z.geb_leb.
  repeat (match goal with |- context [?x <? ?y] => destruct (Z.ltb_spec x y) end);
    try destruct (Z.leb_spec (t_day b) (t_day a)); split; intros; try done; lia.
Qed.
Lemma on_spec a b : date_a_is_on_b a b = true <-> same_day a b.
Proof. unfold date_a_is_on_b, same_day. rewrite !andb_true_iff, !Z.eqb_eq. naive_solver. Qed.

Lemma found_spec text pat : 0 < zlen pat -> zlen text < 2 ^ 63 ->
  exists b, found text pat = Ok b /\ (b = true <-> contains text pat).
Proof.
  intros Hp Ht. unfold found. destruct (do_dstr_count2_ok text pat false false Hp Ht) as (n & E & _ & Hn).
  unfold dstr_icount2. rewrite E. cbn [res_bind]. eexists. split; [done|]. rewrite Z.gtb_ltb, Z.ltb_lt. unfold contains. rewrite <- Hn. lia.
Qed.

Lemma occurs_slice text pat a n i : 0 <= a -> 0 <= n -> a + n <= zlen text ->
  occurs ichar (slice text a n) pat i <-> occurs ichar text pat (a + i) /\ 0 <= i /\ i + zlen pat <= n.
Proof.
  intros Ha Hn Hl. unfold occurs. rewrite zlen_slice by done.
  assert (0 <= i -> i + zlen pat <= n -> slice (slice text a n) i (zlen pat) = slice text (a + i) (zlen pat)) as E.
  { intros Hi Hip. unfold slice. rewrite skipn_firstn_comm, drop_drop, take_take. pose proof (zlen_nonneg pat).
    f_equal; [lia|]. f_equal. lia. }
  split.
  - intros (Hi & Hip & Hm). rewrite E in Hm by done. split_and!; [lia|lia|done..].
  - intros ((_ & _ & Hm) & Hi & Hip). rewrite E by done. split_and!; done.
Qed.

(** Searching the headers and then from shortly before their end finds what the whole text has. *)
Lemma text_split buf h tgt : 0 <= h <= zlen buf -> 0 < zlen tgt ->
  contains buf tgt <-> contains (dstr_sub2 buf 0 (0 + h)) tgt \/
    contains (dstr_sub2 buf (h - Z.min h (zlen tgt)) (0 + zlen buf)) tgt.
Proof.
  intros Hh Ht. unfold contains, dstr_sub2. rewrite !Z.add_0_l.
  replace (Z.min (zlen buf) 0) with 0 by lia. replace (Z.min (zlen buf) h) with h by lia.
  replace (Z.min (zlen buf) (h - Z.min h (zlen tgt))) with (h - Z.min h (zlen tgt)) by lia.
  replace (Z.max 0 h - 0) with h by lia. replace (Z.min (zlen buf) (zlen buf)) with (zlen buf) by lia.
  set (a := h - Z.min h (zlen tgt)). assert (0 <= a <= h) by lia. replace (Z.max a (zlen buf) - a) with (zlen buf - a) by lia.
  split.
  - intros [i Hi]. pose proof Hi as (H0 & Hl & _). destruct (Z.le_gt_cases (i + zlen tgt) h).
    + left. exists i. apply occurs_slice; [lia..|]. split; [done|lia].
    + right. exists (i - a). apply occurs_slice; [lia..|]. replace (a + (i - a)) with i by lia. split; [done|lia].
  - intros [[i Hi]|[i Hi]]; (apply occurs_slice in Hi as [Hi _]; [|lia..]); by eexists.
Qed.

Section eval.
Context (args : search_args_t) (buf : bytes) (h : Z) (Hp : parsed args buf h).

Lemma search_headers_spec name value : 0 < zlen value ->
  exists b, search_headers args name value = Ok b /\ (b = true <-> in_header args name value).
Proof.
  intros Hv. unfold search_headers, find_header, in_header. destruct Hp as [_ Hh _ _ [Hs _] _ _].
  destruct (get_hdrs args) as [hdrs| |s]; cbn [if_prop res_bind].
  - destruct (find_hdr (hdrs_hdr hdrs) name) as [hv|] eqn:E.
    + destruct (found_spec hv value Hv) as (b & Eb & Hb); [by eapply (Hh hdrs)|]. exists b. split; [done|]. rewrite Hb. naive_solver.
    + exists false. split; [done|]. naive_solver.
  - exists false. split; [done|]. naive_solver.
  - by destruct (Hs s).
Qed.

Lemma parse_date_spec : exists d, parse_date args = Ok d /\ forall s, (d = s /\ t_year d <> 0) <-> sent_on args s.
Proof.
  unfold parse_date, find_header, sent_on. destruct Hp as [_ _ _ _ (Hs & _ & Hd) _ _].
  assert (forall s, no_date = s /\ t_year no_date <> 0 <-> False) as Hno by (intros; split; [by intros [_ []]|done]).
  destruct (get_hdrs args) as [hdrs| |s]; cbn [if_prop res_bind];
    [|exists no_date; split; [done|]; intros s; rewrite Hno; naive_solver|by destruct (Hs s)].
  destruct (find_hdr (hdrs_hdr hdrs) (lit "Date")) as [hv|] eqn:Ef;
    [|exists no_date; split; [done|]; intros s; rewrite Hno; split; [done|intros (h' & v & [= <-] & E & _); congruence]].
  destruct (imf_parse_date hv) as [d| |s] eqn:E; cbn [if_prop].
  - exists d. split; [done|]. intros s. split; [intros [<- Hy]; by exists hdrs, hv|].
    intros (h' & v & [= <-] & E' & Ed & Hy). rewrite Ef in E'. injection E' as <-. rewrite E in Ed. by injection Ed as <-.
  - exists no_date. split; [done|]. intros s. rewrite Hno. split; [done|].
    intros (h' & v & [= <-] & E' & Ed & Hy). rewrite Ef in E'. injection E' as <-. congruence.
  - by destruct (Hd hv s).
Qed.

Lemma sent_spec p (P : imap_time_t -> imap_time_t -> Prop) date :
  (forall a b, p a b = true <-> P a b) ->
  exists b, sent args p date = Ok b /\ (b = true <-> exists s, sent_on args s /\ P s date).
Proof.
  intros HP. unfold sent. destruct parse_date_spec as (d & -> & Hd). cbn [res_bind]. eexists. split; [done|].
  rewrite andb_true_iff, negb_true_iff, Z.eqb_neq, HP. split.
  - intros [Hy H]. exists d. split; [by apply Hd|done].
  - intros (s & [<- Hy]%Hd & H). done.
Qed.

Lemma eval_body_spec d : 0 < zlen d ->
  exists b, eval_body args d = Ok b /\ (b = true <-> matches args (SearchDstr IE_SEARCH_BODY d)).
Proof.
  intros Hd. unfold eval_body. cbn [matches]. destruct Hp as [_ _ Hi _ (_ & Hs & _) _ _].
  destruct (get_imf args) as [imf| |s]; cbn [if_prop]; [|by exists false; split; [done|naive_solver]|by destruct (Hs s)].
  destruct (found_spec (off_bytes (imf_body imf)) d Hd) as (b & -> & Hb); [by apply Hi|]. exists b. split; [done|]. rewrite Hb. naive_solver.
Qed.

Lemma sub_length a b : zlen (dstr_sub2 buf a b) <= zlen buf.
Proof. unfold dstr_sub2, slice. autorewrite with zlen. pose proof (zlen_nonneg buf). lia. Qed.

Lemma eval_text_spec d : 0 < zlen d ->
  exists b, eval_text args d = Ok b /\ (b = true <-> matches args (SearchDstr IE_SEARCH_TEXT d)).
Proof.
  intros Hd. unfold eval_text. cbn [matches]. destruct Hp as [Hbuf Hh Hi Hboth (Hs & Hs' & _) Hih Hlen].
  destruct (get_hdrs args) as [hdrs| |s]; cbn [if_prop]; [|by exists false; split; [done|naive_solver]|by destruct (Hs s)].
  destruct (Hh hdrs eq_refl) as [Eh _]. destruct (Hboth hdrs eq_refl) as (imf & Ei). destruct (Hi imf Ei) as [Eb _].
  assert (dstr_sub2 buf 0 (0 + zlen buf) = buf) as Ebuf.
  { unfold dstr_sub2, slice. rewrite Z.add_0_l, Z.min_id, Z.min_r by apply zlen_nonneg. rewrite Z.max_r, Z.sub_0_r by apply zlen_nonneg.
    unfold zlen. rewrite Nat2Z.id. apply take_ge. cbn. lia. }
  assert (off_bytes (hdrs_bytes hdrs) = dstr_sub2 buf 0 (0 + h)) as -> by (unfold off_bytes; by rewrite Eh).
  assert (off_bytes (imf_bytes imf) = buf) as Eib by (unfold off_bytes; rewrite Eb; exact Ebuf).
  assert (forall a b, zlen (dstr_sub2 buf a b) < 2 ^ 63) as Hsub by (intros a b; pose proof (sub_length a b); lia).
  pose proof (text_split buf h d Hlen Hd) as Hsplit.
  assert ((exists imf0, get_imf args = Ok imf0 /\ contains (off_bytes (imf_bytes imf0)) d) <-> contains buf d) as Hm.
  { rewrite Ei, <- Eib. split; [by intros (i & [= <-] & Hc)|]. intros Hc. by exists imf. }
  destruct (found_spec (dstr_sub2 buf 0 (0 + h)) d Hd (Hsub _ _)) as (b & -> & Hb). cbn [res_bind]. destruct b.
  - exists true. split; [done|]. split; [|done]. intros _. apply Hm, Hsplit. left. by apply Hb.
  - rewrite Ei in Hm |- *. cbn [if_prop]. rewrite Eib, Eh. cbn [off_start off_len].
    destruct (found_spec (dstr_sub2 buf (h - Z.min h (zlen d)) (0 + zlen buf)) d Hd (Hsub _ _)) as (b & Ef & Hb').
    exists b. rewrite (Z.add_0_l h), Eb. split; [done|]. etrans; [|symmetry; exact Hm]. rewrite Hb', Hsplit. split; [by right|]. intros [Hc|Hc]; [|done]. apply Hb in Hc. done.
Qed.

Lemma do_eval_spec key lvl : searchable key -> 0 <= lvl -> lvl + depth key <= 1000 ->
  exists b, do_eval args lvl key = Ok b /\ (b = true <-> matches args key).
Proof.
  assert (forall k, 0 <= depth k) as Hpos by (induction k; cbn; lia).
  intros Hs H0 Hd. assert (lvl <= 1000) as Hl by (pose proof (Hpos key); lia). revert lvl Hs H0 Hd Hl.
  induction key as [type|type d|n v|type d|type n|type s|type key IH|type a IHa b IHb|]; intros lvl Hs H0 Hd Hl; cbn [do_eval];
    rewrite Z.gtb_ltb, (proj2 (Z.ltb_ge 1000 lvl) Hl); cbn [searchable depth] in Hs, Hd.
  - eexists. split; [done|]. done.
  - destruct type; cbn [eval_dstr matches]; try (by apply search_headers_spec); [by apply eval_body_spec|by exists false|by apply eval_text_spec|by exists true].
  - by apply search_headers_spec.
  - destruct type; cbn [eval_date matches].
    + eexists. split; [done|]. apply before_spec.
    + eexists. split; [done|]. apply on_spec.
    + eexists. split; [done|]. apply since_spec.
    + apply (sent_spec _ day_lt), before_spec.
    + apply (sent_spec _ same_day), on_spec.
    + apply (sent_spec _ (fun a b => ~ day_lt a b)), since_spec.
  - destruct type; cbn [matches]; eexists; (split; [done|]); rewrite ?Z.gtb_ltb, Z.ltb_lt; done.
  - destruct type; cbn [matches]; eexists; (split; [done|]); apply in_seq_set_spec.
  - destruct (IH (lvl + 1)) as (x & E & Hx); [done|lia|lia|pose proof (Hpos key); lia|]. destruct type; cbn [matches]; rewrite E; cbn [res_bind].
    + eexists. split; [done|]. rewrite negb_true_iff, <- Hx. by destruct x.
    + by exists x.
  - destruct Hs. destruct (IHa (lvl + 1)) as (x & Ex & Hx); [done|lia|lia|pose proof (Hpos a); lia|]. destruct (IHb (lvl + 1)) as (y & Ey & Hy); [done|lia|lia|pose proof (Hpos b); lia|].
    destruct type; cbn [matches]; rewrite Ex, Ey; cbn [res_bind]; eexists; (split; [done|]); rewrite <- Hx, <- Hy; [apply orb_true_iff|apply andb_true_iff].
  - done.
Qed.
End eval.

End search.

(** *** A concrete message *)

Definition no_parser : bytes -> res imap_time_t := fun _ => Err E_PARAM.
Definition cat_text : bytes := lit "Subject: Hello The cat".
Definition cat_hdrs : imf_hdrs_t :=
  let off a n := mkOff (Some cat_text) a n in
  mkHdrs (off 0 14) (off 14 0) [mkHdr (off 0 14) (off 0 7) (off 9 5)].
Definition cat_imf : imf_t := mkImf (mkOff (Some cat_text) 0 22) cat_hdrs (mkOff (Some cat_text) 14 8).
Definition cat_view : msg_view_t :=
  mkView (KEY_UP 5) 7 22 (mkTime 2024 2 29 0 0 0 0 0) (Msg.mkFlags false true true false false).
Definition cat_args : search_args_t := mkArgs cat_view 3 4 9 (Ok cat_hdrs) (Ok cat_imf).
(** A string that begins in the headers, in a message that is not deleted. *)
Definition cat_key : ie_search_key_t :=
  SearchPair IE_SEARCH_AND (SearchKey IE_SEARCH_NOT (Search0 IE_SEARCH_DELETED))
    (SearchPair IE_SEARCH_AND (SearchDstr IE_SEARCH_TEXT (lit "LO THE")) (SearchSet IE_SEARCH_UID [(0, 6)])).

Lemma cat_parsed : parsed no_parser cat_args cat_text 14.
Proof.
  constructor; try done.
  - intros hdrs [= <-]. split; [done|]. intros name v. cbn. case_match; [by intros [= <-]|done].
  - intros imf [= <-]. by split.
  - intros hdrs _. by eexists.
  - intros imf _. by eexists.
Qed.


(** Where the search falls short. Looking for an empty string in a header, the body or
    the text never ends, whatever the text, so one SEARCH command with an empty string
    stops the server. A key of more than 1000 levels is cut off and may answer the
    opposite of what it means. *)
Theorem search_limits :
  (forall fuel text, do_dstr_count2 fuel text [] false false = Stop OutOfFuel) /\
  (forall view seq seq_max uid_max hdrs imf v, find_hdr (hdrs_hdr hdrs) (lit "Subject") = Some v ->
     search_key_eval no_parser (SearchDstr IE_SEARCH_SUBJECT []) view seq seq_max uid_max (Ok hdrs) imf = Stop OutOfFuel) /\
  let nots n := Nat.iter n (SearchKey IE_SEARCH_NOT) (Search0 IE_SEARCH_ALL) in
  (search_key_eval no_parser (nots 999%nat) cat_view 3 4 9 (Ok cat_hdrs) (Ok cat_imf) = Ok false /\
   search_key_eval no_parser (nots 1001%nat) cat_view 3 4 9 (Ok cat_hdrs) (Ok cat_imf) = Ok true).
Proof.
  assert (forall fuel text, do_dstr_count2 fuel text [] false false = Stop OutOfFuel) as Hd
    by (intros; apply count_empty_pattern_diverges).
  split_and!; [done| |intros nots; split; by vm_compute].
  intros view seq seq_max uid_max hdrs imf v Hv. unfold search_key_eval. cbn [do_eval eval_dstr].
  change (0 >? 1000) with false. cbn [search_headers]. unfold search_headers, find_header. cbn [get_hdrs if_prop]. rewrite Hv.
  cbn [res_bind]. unfold found, dstr_icount2. by rewrite Hd.
Qed.
