(* ===== verification/Dn.v ===== *)
(** * The downwards half of a mailbox (libimaildir/dn.c)

    A [dn_t] is one session of a mail client on one mailbox: its view of the messages, the
    updates of the mailbox that the client has not been told of yet, and the command that
    is waiting for the mailbox. The requests to the mailbox, the files of the messages and
    their parsers are behind the class [Imaildir]. Allocations succeed. *)

From S2P Require Import Prelude Dstr Msg ImapTypes ImapWrite OrdTree SeqSet ImapSearch.

(** ** Updates and requests (libimaildir/msg.h) *)

Record ie_st_resp_t := mkSt { sr_tag : option bytes; sr_status : ie_status_t; sr_code : option ie_st_code_t; sr_text : bytes }.

Inductive update_arg_u :=
| UPDATE_NEW (new : msg_view_t)
| UPDATE_META (meta : msg_view_t)
| UPDATE_EXPUNGE (expunge : msg_expunge_t)
| UPDATE_SYNC (sync : option ie_st_resp_t).
(** The reference counter is named by a number. *)
Record update_t := mkUpdate { u_refs : option Z; u_arg : update_arg_u }.

Record msg_store_cmd_t := mkMsgStore { ms_keys : list msg_key_t; ms_mods : list ie_store_mod_t; ms_sign : Z; ms_flags : option ie_flags_t }.
Record msg_copy_cmd_t := mkMsgCopy { mc_keys : list msg_key_t; mc_m : ie_mailbox_t }.
Inductive update_req_t :=
| UPDATE_REQ_STORE (msg_store : msg_store_cmd_t)
| UPDATE_REQ_EXPUNGE (msg_keys : list msg_key_t)
| UPDATE_REQ_COPY (msg_copy : msg_copy_cmd_t).

(** libimaildir/msg_internal.h *)
Definition msg_flags_from_flags (f : option ie_flags_t) : msg_flags_t :=
  match f with
  | None => Msg.mkFlags false false false false false
  | Some f => Msg.mkFlags (fl_answered f) (fl_flagged f) (fl_seen f) (fl_draft f) (fl_deleted f)
  end.

Definition index_to_seq_num (index : Z) : res Z :=
  if index >=? UINT32_MAX then Err E_INTERNAL else Ok (u32 index + 1).

(** ** What the session uses *)

(** The mailbox: a failed or successful SELECT, whether it is synchronised, the messages in
    it (with the highest uid and the UIDVALIDITY), and requests, which may deliver updates
    at once. The loader of a message gives its content, its headers or its parsed text. *)
Class Imaildir (M : Type) := {
  imaildir_dn_select_failed : M -> option ie_status_t;
  imaildir_dn_synced : M -> bool -> bool;
  imaildir_dn_build_views : stm M (list msg_view_t * Z * Z);
  imaildir_dn_request_update : update_req_t -> stm M (list update_t);
  loader_take_content : M -> msg_key_t -> res bytes;
  loader_parse_hdrs : M -> msg_key_t -> res imf_hdrs_t;
  loader_parse_imf : M -> msg_key_t -> res imf_t
}.

(** What libimap/imf.c does with a parsed message; [imf_get_submessage] gives the bytes,
    the MIME headers and, for a part that is itself a message, that message, or [None] for
    a part that does not exist. *)
Class Imf := {
  imf_parse_date : bytes -> res imap_time_t;
  read_envelope_info : imf_hdrs_t -> res ie_envelope_t;
  imf_bodystructure : imf_t -> res ie_body_t;
  imf_get_submessage : imf_t -> list Z -> res (option (dstr_off_t * dstr_off_t * option imf_t))
}.

(** ** State *)

Record gather_t {T : Type -> Type} := mkGather {
  news : T unit; metas : T unit; expunges : T unit; updates_to_free : list update_t
}.
Arguments gather_t T : clear implicits.
Arguments mkGather {T}.

Record store_t {T : Type -> Type} := mkDnStore {
  s_started : bool; s_synced : bool; s_uid_mode : bool; s_silent : bool; s_tag : option bytes; s_tree : T msg_flags_t
}.
Arguments store_t T : clear implicits.
Arguments mkDnStore {T}.
Record expunge_t := mkDnExpunge { x_started : bool; x_synced : bool; x_tag : option bytes }.
Record copy_t := mkDnCopy { c_started : bool; c_synced : bool; c_tag : option bytes; c_uid_mode : bool }.
Record disconnect_t := mkDnDisconnect { k_started : bool; k_synced : bool }.
Record fetch_t {T : Type -> Type} := mkDnFetch {
  f_started : bool; f_synced : bool; f_sync_processed : bool; f_ready : bool; f_any_missing : bool; f_iter_called : bool;
  f_tag : option bytes; f_cmd : option ie_fetch_cmd_t; f_uids_dn : ie_seq_set_t; f_gather : gather_t T; f_trav : ie_seq_set_trav_t
}.
Arguments fetch_t T : clear implicits.
Arguments mkDnFetch {T}.

(** [d_m] is NULL after the mailbox failed. [d_scheduled] is set by the calls of
    cb->schedule. [d_freed] are the updates that were freed, in order. *)
Record dn_t {T : Type -> Type} {M : Type} := mkDn {
  d_m : option M; d_examine : bool; d_exts : extensions_t;
  d_views : T msg_view_t; d_pending_updates : list update_t;
  d_store : store_t T; d_expunge : expunge_t; d_copy : copy_t; d_disconnect : disconnect_t; d_fetch : fetch_t T;
  d_idle_tag : option bytes; d_scheduled : bool; d_freed : list update_t
}.
Arguments dn_t T M : clear implicits.
Arguments mkDn {T M}.

Section dn.
Context `{OrdTree T} `{Imaildir M} `{Imf} `{Alloc}.
Abbreviation dn := (dn_t T M).
Abbreviation dm := (stm dn).
Abbreviation resps := (list imap_resp_t).

(** ** Access *)

Definition get : dm dn := fun d => (Ok d, d).
Definition modify (f : dn -> dn) : dm unit := fun d => (Ok tt, f d).

Definition set_m (m : option M) (d : dn) : dn :=
  mkDn m (d_examine d) (d_exts d) (d_views d) (d_pending_updates d) (d_store d) (d_expunge d) (d_copy d) (d_disconnect d)
    (d_fetch d) (d_idle_tag d) (d_scheduled d) (d_freed d).
Definition set_views (v : T msg_view_t) (d : dn) : dn :=
  mkDn (d_m d) (d_examine d) (d_exts d) v (d_pending_updates d) (d_store d) (d_expunge d) (d_copy d) (d_disconnect d)
    (d_fetch d) (d_idle_tag d) (d_scheduled d) (d_freed d).
Definition set_pending (us : list update_t) (d : dn) : dn :=
  mkDn (d_m d) (d_examine d) (d_exts d) (d_views d) us (d_store d) (d_expunge d) (d_copy d) (d_disconnect d)
    (d_fetch d) (d_idle_tag d) (d_scheduled d) (d_freed d).
Definition set_store (s : store_t T) (d : dn) : dn :=
  mkDn (d_m d) (d_examine d) (d_exts d) (d_views d) (d_pending_updates d) s (d_expunge d) (d_copy d) (d_disconnect d)
    (d_fetch d) (d_idle_tag d) (d_scheduled d) (d_freed d).
Definition set_expunge (x : expunge_t) (d : dn) : dn :=
  mkDn (d_m d) (d_examine d) (d_exts d) (d_views d) (d_pending_updates d) (d_store d) x (d_copy d) (d_disconnect d)
    (d_fetch d) (d_idle_tag d) (d_scheduled d) (d_freed d).
Definition set_copy (c : copy_t) (d : dn) : dn :=
  mkDn (d_m d) (d_examine d) (d_exts d) (d_views d) (d_pending_updates d) (d_store d) (d_expunge d) c (d_disconnect d)
    (d_fetch d) (d_idle_tag d) (d_scheduled d) (d_freed d).
Definition set_disconnect (k : disconnect_t) (d : dn) : dn :=
  mkDn (d_m d) (d_examine d) (d_exts d) (d_views d) (d_pending_updates d) (d_store d) (d_expunge d) (d_copy d) k
    (d_fetch d) (d_idle_tag d) (d_scheduled d) (d_freed d).
Definition set_fetch (f : fetch_t T) (d : dn) : dn :=
  mkDn (d_m d) (d_examine d) (d_exts d) (d_views d) (d_pending_updates d) (d_store d) (d_expunge d) (d_copy d) (d_disconnect d)
    f (d_idle_tag d) (d_scheduled d) (d_freed d).
Definition set_idle_tag (t : option bytes) (d : dn) : dn :=
  mkDn (d_m d) (d_examine d) (d_exts d) (d_views d) (d_pending_updates d) (d_store d) (d_expunge d) (d_copy d) (d_disconnect d)
    (d_fetch d) t (d_scheduled d) (d_freed d).
(** [dn->cb->schedule(dn->cb)] *)
Definition schedule (d : dn) : dn :=
  mkDn (d_m d) (d_examine d) (d_exts d) (d_views d) (d_pending_updates d) (d_store d) (d_expunge d) (d_copy d) (d_disconnect d)
    (d_fetch d) (d_idle_tag d) true (d_freed d).
(** update_free *)
Definition free_updates (us : list update_t) (d : dn) : dn :=
  mkDn (d_m d) (d_examine d) (d_exts d) (d_views d) (d_pending_updates d) (d_store d) (d_expunge d) (d_copy d) (d_disconnect d)
    (d_fetch d) (d_idle_tag d) (d_scheduled d) (d_freed d ++ us).

(** Loops that append to the list of responses. *)
Fixpoint send_each {A} (f : A -> dm resps) (l : list A) : dm resps :=
  match l with
  | [] => st_ret []
  | a :: l => do! rs := f a in do! rs' := send_each f l in st_ret (rs ++ rs')
  end.
(** Loops that change a tree. *)
Fixpoint erase_keys {V} (l : list (Z * unit)) (t : T V) : res (T V) :=
  match l with
  | [] => Ok t
  | (k, _) :: l => let! (_, t) := ot_erase k t in erase_keys l t
  end.

(** ** Freeing *)

Definition gather_prep : gather_t T := mkGather ot_init ot_init ot_init [].
Definition no_trav : ie_seq_set_trav_t := mkTrv [] 0 0 0 0.
Definition no_fetch (g : gather_t T) : fetch_t T := mkDnFetch false false false false false false None None [] g no_trav.

Definition dn_free_store : dn -> dn := fun d =>
  set_store (mkDnStore false false (s_uid_mode (d_store d)) (s_silent (d_store d)) None ot_init) d.
Definition dn_free_expunge : dn -> dn := set_expunge (mkDnExpunge false false None).
Definition dn_free_copy : dn -> dn := set_copy (mkDnCopy false false None false).
Definition dn_free_disconnect : dn -> dn := set_disconnect (mkDnDisconnect false false).
(** gather_free, for the gather_t of the session. *)
Definition dn_free_fetch : dn -> dn := fun d =>
  free_updates (updates_to_free (f_gather (d_fetch d))) (set_fetch (no_fetch gather_prep) d).
Definition dn_free_idle : dn -> dn := set_idle_tag None.
Definition dn_free_views : dn -> dn := fun d =>
  set_m None (free_updates (d_pending_updates d) (set_pending [] (set_views ot_init d))).
Definition dn_free (d : dn) : dn :=
  dn_free_views (dn_free_idle (dn_free_fetch (dn_free_disconnect (dn_free_copy (dn_free_expunge (dn_free_store d)))))).

Definition dn_init (m : M) (exts : extensions_t) (examine : bool) : dn :=
  mkDn (Some m) examine exts ot_init [] (mkDnStore false false false false None ot_init) (mkDnExpunge false false None)
    (mkDnCopy false false None false) (mkDnDisconnect false false) (no_fetch gather_prep) None false [].

Definition healthcheck : dm unit := fun d =>
  match d_m d with Some _ => (Ok tt, d) | None => (Err E_IMAILDIR, d) end.
(** Dereferences [dn->m]. *)
Definition the_m : dm M := fun d =>
  match d_m d with Some m => (Ok m, d) | None => (Stop OutOfBounds, d) end.

(** ** Responses *)

(** imap_resp_assert_writable, then link_list_append. *)
Definition send_resp (resp : imap_resp_t) : dm resps :=
  do! d := get in
  do! resp := st_lift (imap_resp_assert_writable (d_exts d) resp) in
  st_ret [resp].

Definition send_st_resp (tag : option bytes) (msg : bytes) (status : ie_status_t) : dm resps :=
  send_resp (IMAP_RESP_STATUS_TYPE tag status None msg).
Definition send_ok (tag : option bytes) (msg : bytes) : dm resps := send_st_resp tag msg IE_ST_OK.
Definition send_no (tag : option bytes) (msg : bytes) : dm resps := send_st_resp tag msg IE_ST_NO.
Definition send_bad (tag : option bytes) (msg : bytes) : dm resps := send_st_resp tag msg IE_ST_BAD.

Definition send_flags_resp : dm resps := send_resp (IMAP_RESP_FLAGS (Some (ImapTypes.mkFlags true true true true true [] []))).
Definition send_exists_resp : dm resps :=
  do! d := get in
  if ot_size (d_views d) >? UINT32_MAX then st_fail E_VALUE
  else send_resp (IMAP_RESP_EXISTS (u32 (ot_size (d_views d)))).
Definition send_recent_resp : dm resps := send_resp (IMAP_RESP_RECENT 0).
(** The loop starts at the first message and goes to the previous one. *)
Fixpoint unseen_loop (nodes : list (Z * msg_view_t)) (seq : Z) : dm resps :=
  match nodes with
  | [] => st_ret []
  | (_, view) :: nodes =>
      if seen (v_flags view) then unseen_loop nodes (u32 (seq + 1))
      else
        do! rs := send_resp (IMAP_RESP_STATUS_TYPE None IE_ST_OK (Some (IE_ST_CODE_UNSEEN seq)) (lit "you ain't seen nuthin yet")) in
        do! rs' := unseen_loop nodes (u32 (seq + 1)) in
        st_ret (rs ++ rs')
  end.
Definition send_unseen_resp : dm resps :=
  do! d := get in
  do! nodes := st_lift (ot_visit false true (d_views d)) in
  unseen_loop nodes 1.
Definition send_pflags_resp : dm resps :=
  send_resp (IMAP_RESP_STATUS_TYPE None IE_ST_OK (Some (IE_ST_CODE_PERMFLAGS (Some (mkPflags true true true true false false [] []))))
    (lit "here, have some permanentflags.")).
Definition send_uidnext_resp (max_uid_dn : Z) : dm resps :=
  send_resp (IMAP_RESP_STATUS_TYPE None IE_ST_OK (Some (IE_ST_CODE_UIDNEXT (u32 (max_uid_dn + 1)))) (lit "get ready, it's coming")).
Definition send_uidvld_resp (uidvld_dn : Z) : dm resps :=
  send_resp (IMAP_RESP_STATUS_TYPE None IE_ST_OK (Some (IE_ST_CODE_UIDVLD uidvld_dn)) (lit "ride or die")).
Definition select_failure (tag : option bytes) (status : ie_status_t) : dm resps :=
  send_st_resp tag (match status with IE_ST_NO => lit "no such mailbox" | _ => lit "failed to select" end) status.

Definition flags_to_fflags (f : msg_flags_t) : ie_fflags_t :=
  mkFflags (answered f) (flagged f) (deleted f) (seen f) (draft f) false [] [].
Definition empty_fetch_resp (seq_num : Z) : ie_fetch_resp_t :=
  mkFetchResp seq_num None 0 no_date None None None None None None None 0 [].
Definition send_flags_update (seq_num : Z) (flags : msg_flags_t) (uid : option Z) : dm resps :=
  send_resp (IMAP_RESP_FETCH
    (mkFetchResp seq_num (Some (flags_to_fflags flags)) (default 0 uid) no_date None None None None None None None 0 [])).
Definition send_expunge (seq_num : Z) : dm resps := send_resp (IMAP_RESP_EXPUNGE seq_num).
Definition send_search_resp (nums : list Z) : dm resps := send_resp (IMAP_RESP_SEARCH (Some (mkSearchResp nums false 0))).

(** ** Gathering updates *)

Definition gather_update_new (g : gather_t T) (u : update_t) (view : msg_view_t) : dm (gather_t T) :=
  do! news := st_lift (ot_insert (v_uid_dn view) tt (news g)) in
  do! d := get in
  do! views := st_lift (ot_insert (v_uid_dn view) view (d_views d)) in
  do! _ := modify (fun d => free_updates [u] (set_views views d)) in
  st_ret (mkGather news (metas g) (expunges g) (updates_to_free g)).

Definition gather_update_meta (g : gather_t T) (u : update_t) (view : msg_view_t) : dm (gather_t T) :=
  do! d := get in
  do! (node, views) := st_lift (ot_erase (v_uid_dn view) (d_views d)) in
  do! _ := modify (set_views views) in
  match node with
  | None => do! _ := modify (free_updates [u]) in st_ret g
  | Some _ =>
      do! metas := st_lift (match ot_find (v_uid_dn view) (metas g) with
                            | None => ot_insert (v_uid_dn view) tt (metas g)
                            | Some _ => Ok (metas g)
                            end) in
      do! views := st_lift (ot_insert (v_uid_dn view) view views) in
      do! _ := modify (fun d => free_updates [u] (set_views views d)) in
      st_ret (mkGather (news g) metas (expunges g) (updates_to_free g))
  end.

Definition gather_update_expunge (g : gather_t T) (u : update_t) (expunge : msg_expunge_t) : dm (gather_t T) :=
  do! expunges := st_lift (ot_insert (e_uid_dn expunge) tt (expunges g)) in
  st_ret (mkGather (news g) (metas g) expunges (updates_to_free g ++ [u])).

(** The gather_t is not used again. *)
Definition gather_free (g : gather_t T) : dm unit := modify (free_updates (updates_to_free g)).

(** On an error the state is changed by [f] before the function returns. *)
Definition on_fail {A} (m : dm A) (f : dn -> dn) : dm A := fun d =>
  match m d with
  | (Err e, d) => (Err e, f d)
  | r => r
  end.

(** Over the updates [us]; the updates [kept] stay pending. On an error the gather_t is freed. *)
Fixpoint gather_loop (allow_expunge want_sync : bool) (kept us : list update_t) (g : gather_t T)
  : dm (gather_t T * option ie_st_resp_t) :=
  match us with
  | [] => if want_sync then do! _ := gather_free g in st_fail E_INTERNAL else st_ret (g, None)
  | u :: us =>
      let remove := modify (set_pending (kept ++ us)) in
      match u_arg u with
      | UPDATE_NEW view =>
          do! _ := remove in
          do! g := gather_update_new g u view in
          gather_loop allow_expunge want_sync kept us g
      | UPDATE_META view =>
          do! _ := remove in
          do! g := gather_update_meta g u view in
          gather_loop allow_expunge want_sync kept us g
      | UPDATE_EXPUNGE expunge =>
          if allow_expunge then
            do! _ := remove in
            do! g := gather_update_expunge g u expunge in
            gather_loop allow_expunge want_sync kept us g
          else gather_loop allow_expunge want_sync (kept ++ [u]) us g
      | UPDATE_SYNC sync =>
          if want_sync then
            do! _ := remove in
            do! _ := modify (free_updates [u]) in
            st_ret (g, sync)
          else do! _ := gather_free g in st_fail E_INTERNAL
      end
  end.

(** [want_sync] for [st_resp != NULL]. *)
Definition gather_updates_dont_send (allow_expunge want_sync : bool) (g : gather_t T)
  : dm (gather_t T * option ie_st_resp_t) :=
  do! d := get in
  gather_loop allow_expunge want_sync [] (d_pending_updates d) g.

(** The view of a uid and its sequence number. *)
Definition view_seq (uid_dn : Z) : dm (msg_view_t * Z) :=
  do! d := get in
  match ot_find uid_dn (d_views d) with
  | None => st_fail E_INTERNAL
  | Some (view, index) => do! seq_num := st_lift (index_to_seq_num index) in st_ret (view, seq_num)
  end.
Definition uid_if (uid_mode : bool) (uid_dn : Z) : option Z := if uid_mode then Some uid_dn else None.

(** *** STORE responses *)

Definition send_store_resp_noupdate (exp_uid : Z) (exp_flags : msg_flags_t) : dm resps :=
  do! d := get in
  match ot_find exp_uid (d_views d) with
  | None => st_fail E_INTERNAL
  | Some (view, index) =>
      if negb (msg_flags_eq exp_flags (v_flags view)) then st_ret []
      else if negb (s_silent (d_store d)) then
        do! seq_num := st_lift (index_to_seq_num index) in
        send_flags_update seq_num (v_flags view) (uid_if (s_uid_mode (d_store d)) exp_uid)
      else st_ret []
  end.
Definition send_store_resp_noexp (uid_dn : Z) : dm resps :=
  do! (view, seq_num) := view_seq uid_dn in
  do! d := get in
  send_flags_update seq_num (v_flags view) (uid_if (s_uid_mode (d_store d)) uid_dn).
Definition send_store_resp_expupdate (exp_uid : Z) (exp_flags : msg_flags_t) : dm resps :=
  do! (view, seq_num) := view_seq exp_uid in
  do! d := get in
  let uid := uid_if (s_uid_mode (d_store d)) exp_uid in
  if negb (msg_flags_eq exp_flags (v_flags view)) then send_flags_update seq_num (v_flags view) uid
  else if negb (s_silent (d_store d)) then send_flags_update seq_num (v_flags view) uid
  else st_ret [].

(** Walk the expected flags and the gathered updates simultaneously. *)
Fixpoint store_walk (exps : list (Z * msg_flags_t)) : list (Z * unit) -> dm resps :=
  fix walk (gathered : list (Z * unit)) : dm resps :=
    match exps, gathered with
    | [], [] => st_ret []
    | (exp_uid, exp_flags) :: exps', (uid, _) :: gathered' =>
        if exp_uid >? uid then
          do! rs := send_store_resp_noexp uid in do! rs' := walk gathered' in st_ret (rs ++ rs')
        else if uid >? exp_uid then
          do! rs := send_store_resp_noupdate exp_uid exp_flags in do! rs' := store_walk exps' gathered in st_ret (rs ++ rs')
        else
          do! rs := send_store_resp_expupdate exp_uid exp_flags in
          do! rs' := store_walk exps' gathered' in st_ret (rs ++ rs')
    | [], (uid, _) :: gathered' =>
        do! rs := send_store_resp_noexp uid in do! rs' := walk gathered' in st_ret (rs ++ rs')
    | (exp_uid, exp_flags) :: exps', [] =>
        do! rs := send_store_resp_noupdate exp_uid exp_flags in do! rs' := store_walk exps' [] in st_ret (rs ++ rs')
    end.
Definition send_store_fetch_resps (g : gather_t T) : dm resps :=
  do! d := get in
  do! exps := st_lift (ot_visit false false (s_tree (d_store d))) in
  do! gathered := st_lift (ot_visit false false (metas g)) in
  store_walk exps gathered.

(** *** Responses for gathered updates *)

Definition send_meta (uid_mode : bool) (kv : Z * unit) : dm resps :=
  do! (view, seq_num) := view_seq kv.1 in
  send_flags_update seq_num (v_flags view) (uid_if uid_mode kv.1).
(** The view is removed before the index becomes a sequence number. *)
Definition send_expunged (kv : Z * unit) : dm resps :=
  do! d := get in
  match ot_find kv.1 (d_views d) with
  | None => st_fail E_INTERNAL
  | Some (_, index) =>
      do! (_, views) := st_lift (ot_erase kv.1 (d_views d)) in
      do! _ := modify (set_views views) in
      do! seq_num := st_lift (index_to_seq_num index) in
      send_expunge seq_num
  end.

(** Gives back the gather without what was not reported. *)
Definition gather_send_responses (g : gather_t T) (uid_mode for_store : bool) : dm (gather_t T * resps) :=
  (* step 1: any EXPUNGEs don't get FETCHes or count for EXISTS *)
  do! exps := st_lift (ot_visit false false (expunges g)) in
  do! news1 := st_lift (erase_keys exps (news g)) in
  do! metas1 := st_lift (erase_keys exps (metas g)) in
  (* step 2: any new messages don't get FETCHes *)
  do! ns := st_lift (ot_visit false false news1) in
  do! metas2 := st_lift (erase_keys ns metas1) in
  let g := mkGather news1 metas2 (expunges g) (updates_to_free g) in
  (* step 3: send flag updates *)
  do! rs3 := (if for_store then send_store_fetch_resps g
              else do! ms := st_lift (ot_visit false false metas2) in send_each (send_meta uid_mode) ms) in
  (* step 4: send expunge updates (in reverse order) *)
  do! exps := st_lift (ot_visit true true (expunges g)) in
  do! rs4 := send_each send_expunged exps in
  (* step 5: send a new EXISTS response *)
  do! rs5 := (if negb (ot_size news1 =? 0) then send_exists_resp else st_ret []) in
  st_ret (g, rs3 ++ rs4 ++ rs5).

Definition dn_gather_updates (allow_expunge uid_mode want_sync : bool) : dm (option ie_st_resp_t * resps) :=
  do! _ := healthcheck in
  do! (g, st_resp) := gather_updates_dont_send allow_expunge want_sync gather_prep in
  do! (g, rs) := on_fail (gather_send_responses g uid_mode false) (free_updates (updates_to_free g)) in
  do! _ := gather_free g in
  st_ret (st_resp, rs).

(** *** What the mailbox calls *)

Definition set_s_synced (s : store_t T) : store_t T := mkDnStore (s_started s) true (s_uid_mode s) (s_silent s) (s_tag s) (s_tree s).
Definition set_f_synced (f : fetch_t T) : fetch_t T :=
  mkDnFetch (f_started f) true (f_sync_processed f) (f_ready f) (f_any_missing f) (f_iter_called f) (f_tag f) (f_cmd f)
    (f_uids_dn f) (f_gather f) (f_trav f).

Definition dn_imaildir_update (u : update_t) (d : dn) : dn :=
  let d := set_pending (d_pending_updates d ++ [u]) d in
  match u_arg u with
  | UPDATE_SYNC _ =>
      let d :=
        if s_started (d_store d) then set_store (set_s_synced (d_store d)) d
        else if x_started (d_expunge d) then set_expunge (mkDnExpunge true true (x_tag (d_expunge d))) d
        else if c_started (d_copy d) then set_copy (mkDnCopy true true (c_tag (d_copy d)) (c_uid_mode (d_copy d))) d
        else if k_started (d_disconnect d) then set_disconnect (mkDnDisconnect true true) d
        else if f_started (d_fetch d) then set_fetch (set_f_synced (d_fetch d)) d
        else d in
      schedule d
  | _ => match d_idle_tag d with Some _ => schedule d | None => d end
  end.
Definition dn_imaildir_failed (d : dn) : dn := schedule (dn_free_views d).

(** imaildir_dn_request_update: the mailbox may answer at once, and when it fails it tells all its sessions. *)
Definition request_update (req : update_req_t) : dm unit := fun d =>
  match d_m d with
  | None => (Stop OutOfBounds, d)
  | Some m =>
      match imaildir_dn_request_update req m with
      | (Ok us, m) => (Ok tt, fold_left (fun d u => dn_imaildir_update u d) us (set_m (Some m) d))
      | (Err e, m) => (Err e, dn_imaildir_failed (set_m (Some m) d))
      | (Stop s, m) => (Stop s, set_m (Some m) d)
      end
  end.

(** ** SELECT *)

Fixpoint insert_views (l : list msg_view_t) (views : T msg_view_t) : res (T msg_view_t) :=
  match l with
  | [] => Ok views
  | v :: l => let! views := ot_insert (v_uid_dn v) v views in insert_views l views
  end.
Definition build_views : dm (Z * Z) := fun d =>
  match d_m d with
  | None => (Stop OutOfBounds, d)
  | Some m =>
      match imaildir_dn_build_views m with
      | (Ok (l, max_uid_dn, uidvld_dn), m) =>
          match insert_views l (d_views d) with
          | Ok views => (Ok (max_uid_dn, uidvld_dn), set_views views (set_m (Some m) d))
          | Err e => (Err e, set_m (Some m) d)
          | Stop s => (Stop s, set_m (Some m) d)
          end
      | (Err e, m) => (Err e, set_m (Some m) d)
      | (Stop s, m) => (Stop s, set_m (Some m) d)
      end
  end.

(** The results *okout and *success with the responses. *)
Definition dn_select (tag : option bytes) : dm (bool * bool * resps) :=
  do! _ := healthcheck in
  do! m := the_m in
  match imaildir_dn_select_failed m with
  | None => st_ret (false, false, [])
  | Some IE_ST_OK =>
      do! d := get in
      if negb (imaildir_dn_synced m (d_examine d)) then st_ret (false, false, [])
      else
        do! (max_uid_dn, uidvld_dn) := build_views in
        on_fail
          (do! r1 := send_flags_resp in
           do! r2 := send_exists_resp in
           do! r3 := send_recent_resp in
           do! r4 := send_unseen_resp in
           do! r5 := send_pflags_resp in
           do! r6 := send_uidnext_resp max_uid_dn in
           do! r7 := send_uidvld_resp uidvld_dn in
           let code := if d_examine d then IE_ST_CODE_READ_ONLY else IE_ST_CODE_READ_WRITE in
           do! r8 := send_resp (IMAP_RESP_STATUS_TYPE tag IE_ST_OK (Some code) (lit "welcome in")) in
           st_ret (true, true, r1 ++ r2 ++ r3 ++ r4 ++ r5 ++ r6 ++ r7 ++ r8))
          (set_views ot_init)
  | Some status => do! rs := select_failure tag status in st_ret (true, false, rs)
  end.

(** ** SEARCH *)

Fixpoint search_loop (m : M) (key : ie_search_key_t) (uid_mode : bool) (seq_max uid_dn_max : Z)
  (nodes : list (Z * msg_view_t)) (seq : Z) (nums : list Z) : res (list Z) :=
  match nodes with
  | [] => Ok nums
  | (_, view) :: nodes =>
      let! match_ := search_key_eval imf_parse_date key view seq seq_max uid_dn_max
                       (loader_parse_hdrs m (v_key view)) (loader_parse_imf m (v_key view)) in
      let nums := if match_ : bool then (if uid_mode then v_uid_dn view else seq) :: nums else nums in
      search_loop m key uid_mode seq_max uid_dn_max nodes (u32 (seq - 1)) nums
  end.
Definition dn_search_loop (uid_mode : bool) (key : ie_search_key_t) (seq_max : Z) : dm (list Z) :=
  do! d := get in
  do! m := the_m in
  do! nodes := st_lift (ot_visit true true (d_views d)) in
  match nodes with
  | [] => st_lift (Stop OutOfBounds)
  | (_, view) :: _ => st_lift (search_loop m key uid_mode seq_max (v_uid_dn view) nodes seq_max [])
  end.

Definition dn_search (tag : option bytes) (uid_mode : bool) (key : ie_search_key_t) : dm resps :=
  do! _ := healthcheck in
  do! d := get in
  if ot_size (d_views d) =? 0 then send_search_resp []
  else
    do! seq_max := st_lift (index_to_seq_num (ot_size (d_views d) - 1)) in
    do! nums := dn_search_loop uid_mode key seq_max in
    do! r1 := send_search_resp nums in
    do! (_, r2) := dn_gather_updates uid_mode uid_mode false in
    do! r3 := send_ok tag (lit "too easy!") in
    st_ret (r1 ++ r2 ++ r3).

(** ** Sets of messages *)

(** [views->size] against the greatest number of the set. *)
Definition too_large (size : Z) (p : Z * Z) : bool := Z.max p.1 p.2 >? size.

Definition canonical_body (uid_mode : bool) (views : T msg_view_t) (i : Z) (ssb : T Z) : res (T Z) :=
  if uid_mode then
    match ot_find i views with
    | None => Ok ssb
    | Some (view, _) => seq_set_builder_add_val (v_uid_dn view) ssb
    end
  else
    let! node := ot_index views (u64 (i - 1)) in
    match node with
    | None => Err E_INTERNAL
    | Some (_, view) => seq_set_builder_add_val (v_uid_dn view) ssb
    end.
(** [None] for *ok = false. *)
Definition seq_set_to_canonical_uids_dn (uid_mode : bool) (old : ie_seq_set_t) : dm (option ie_seq_set_t) :=
  do! d := get in
  let views := d_views d in
  if ot_size views =? 0 then st_ret (if uid_mode then Some [] else None)
  else
    do! (first, last) :=
      (if uid_mode then
         do! l1 := st_lift (ot_visit false false views) in
         do! l2 := st_lift (ot_visit true true views) in
         match l1, l2 with
         | (_, first_view) :: _, (_, last_view) :: _ => st_ret (v_uid_dn first_view, v_uid_dn last_view)
         | _, _ => st_lift (Stop OutOfBounds)
         end
       else do! last := st_lift (index_to_seq_num (ot_size views - 1)) in st_ret (1, last)) in
    if negb uid_mode && existsb (too_large (ot_size views)) old then st_ret None
    else
      do! ssb := st_lift (for_seq_set old first last (canonical_body uid_mode views) seq_set_builder_prep) in
      do! set := st_lift (seq_set_builder_extract ssb) in
      st_ret (Some set).

(** The list is built by adding in front. *)
Definition key_body (views : T msg_view_t) (i : Z) (keys : list msg_key_t) : res (list msg_key_t) :=
  match ot_find i views with
  | None => Err E_INTERNAL
  | Some (view, _) => Ok (v_key view :: keys)
  end.
Definition uids_dn_to_msg_keys (uids_dn : ie_seq_set_t) : dm (list msg_key_t) :=
  do! d := get in st_lift (for_seq_set uids_dn 0 0 (key_body (d_views d)) []).

(** ** STORE *)

Definition new_flags (sign : Z) (old cmd : msg_flags_t) : res msg_flags_t :=
  if sign =? 0 then Ok cmd
  else if sign =? 1 then Ok (msg_flags_or old cmd)
  else if sign =? -1 then Ok (msg_flags_and old (msg_flags_not cmd))
  else Err E_INTERNAL.
Definition exp_flags_body (views : T msg_view_t) (sign : Z) (cmd : msg_flags_t) (uid_dn : Z) (tree : T msg_flags_t)
  : res (T msg_flags_t) :=
  match ot_find uid_dn views with
  | None => Err E_INTERNAL
  | Some (view, _) =>
      let! flags := new_flags sign (v_flags view) cmd in
      ot_insert uid_dn flags tree
  end.

(** The result *ok with the responses. *)
Definition store_begin (tag : option bytes) (store : ie_store_cmd_t) : dm (bool * resps) :=
  do! d := get in
  if d_examine d then do! rs := send_no tag (lit "mailbox is read-only") in st_ret (true, rs)
  else
    do! uids := seq_set_to_canonical_uids_dn (st_uid_mode store) (st_seq_set store) in
    match uids with
    | None => do! rs := send_bad tag (lit "bad message set") in st_ret (true, rs)
    | Some [] =>
        do! (_, r1) := dn_gather_updates (st_uid_mode store) (st_uid_mode store) false in
        do! r2 := send_ok tag (lit "noop STORE command") in
        st_ret (true, r1 ++ r2)
    | Some uids_dn =>
        do! _ := modify (fun d => set_store (mkDnStore true (s_synced (d_store d)) (st_uid_mode store) (st_silent store) tag
                                               (s_tree (d_store d))) d) in
        do! keys := uids_dn_to_msg_keys uids_dn in
        let cmd_flags := msg_flags_from_flags (st_flags store) in
        do! d := get in
        do! tree := st_lift (for_seq_set uids_dn 0 0 (exp_flags_body (d_views d) (st_sign store) cmd_flags) (s_tree (d_store d))) in
        do! _ := modify (fun d => let s := d_store d in
                                  set_store (mkDnStore (s_started s) (s_synced s) (s_uid_mode s) (s_silent s) (s_tag s) tree) d) in
        do! _ := request_update (UPDATE_REQ_STORE (mkMsgStore keys (st_mods store) (st_sign store) (st_flags store))) in
        st_ret (false, [])
    end.

Definition store_finish : dm resps :=
  do! d := get in
  let uid_mode := s_uid_mode (d_store d) in
  do! (g, st_resp) := gather_updates_dont_send uid_mode true gather_prep in
  on_fail
    (do! (g, r1) := gather_send_responses g uid_mode true in
     do! r2 := match st_resp with
               | Some st => send_st_resp (s_tag (d_store d)) (sr_text st) (sr_status st)
               | None => send_ok (s_tag (d_store d)) (lit "as you wish")
               end in
     do! _ := gather_free g in
     st_ret (r1 ++ r2))
    (free_updates (updates_to_free g)).

(** The error of store_begin is not looked at. *)
Definition dn_store (tag : option bytes) (store : ie_store_cmd_t) : dm (bool * resps) :=
  do! _ := healthcheck in
  do! d := get in
  if negb (s_started (d_store d)) then
    (fun d => match store_begin tag store d with
              | (Err _, d) => (Ok (false, []), d)
              | r => r
              end)
  else if negb (s_synced (d_store d)) then st_ret (false, [])
  else
    do! rs := store_finish in
    do! _ := modify dn_free_store in
    st_ret (true, rs).

(** ** EXPUNGE, CLOSE *)

Definition get_msg_keys_to_expunge : dm (list msg_key_t) :=
  do! d := get in
  do! nodes := st_lift (ot_visit false false (d_views d)) in
  st_ret (fold_left (fun keys kv => if deleted (v_flags kv.2) then v_key kv.2 :: keys else keys) nodes []).

Definition expunge_begin (tag : option bytes) : dm (bool * resps) :=
  do! d := get in
  if d_examine d then do! rs := send_no tag (lit "mailbox is read-only") in st_ret (true, rs)
  else
    do! keys := get_msg_keys_to_expunge in
    match keys with
    | [] =>
        do! (_, r1) := dn_gather_updates true false false in
        do! r2 := send_ok tag (lit "noop EXPUNGE command") in
        st_ret (true, r1 ++ r2)
    | _ =>
        do! _ := modify (fun d => set_expunge (mkDnExpunge true (x_synced (d_expunge d)) tag) d) in
        do! _ := request_update (UPDATE_REQ_EXPUNGE keys) in
        st_ret (false, [])
    end.
(** The status response of the mailbox, or a new one. *)
Definition finish_st_resp (st_resp : option ie_st_resp_t) (tag : option bytes) (msg : bytes) : dm resps :=
  match st_resp with
  | None => send_resp (IMAP_RESP_STATUS_TYPE tag IE_ST_OK None msg)
  | Some st => send_resp (IMAP_RESP_STATUS_TYPE tag (sr_status st) (sr_code st) (sr_text st))
  end.
Definition expunge_finish : dm resps :=
  do! (st_resp, r1) := dn_gather_updates true false true in
  do! d := get in
  do! r2 := finish_st_resp st_resp (x_tag (d_expunge d)) (lit "may they be cursed forever") in
  st_ret (r1 ++ r2).
Definition dn_expunge (tag : option bytes) : dm (bool * resps) :=
  do! _ := healthcheck in
  do! d := get in
  if negb (x_started (d_expunge d)) then expunge_begin tag
  else if negb (x_synced (d_expunge d)) then st_ret (false, [])
  else
    do! rs := expunge_finish in
    do! _ := modify dn_free_expunge in
    st_ret (true, rs).

Definition disconnect_begin (expunge : bool) : dm bool :=
  if negb expunge then st_ret true
  else
    do! keys := get_msg_keys_to_expunge in
    match keys with
    | [] => st_ret true
    | _ =>
        do! _ := modify (fun d => set_disconnect (mkDnDisconnect true (k_synced (d_disconnect d))) d) in
        do! _ := request_update (UPDATE_REQ_EXPUNGE keys) in
        st_ret false
    end.
(** All status responses are taken from the list; the last one counts. *)
Fixpoint take_syncs (us kept : list update_t) (st_resp : option ie_st_resp_t) : dm (option ie_st_resp_t) :=
  match us with
  | [] => st_ret st_resp
  | u :: us =>
      match u_arg u with
      | UPDATE_SYNC sync =>
          do! _ := modify (fun d => free_updates [u] (set_pending (kept ++ us) d)) in
          take_syncs us kept sync
      | _ => take_syncs us (kept ++ [u]) st_resp
      end
  end.
Definition disconnect_finish : dm unit :=
  do! d := get in
  do! st_resp := take_syncs (d_pending_updates d) [] None in
  match st_resp with
  | Some _ => st_fail E_RESPONSE
  | None => st_ret tt
  end.
Definition dn_disconnect (expunge : bool) : dm bool :=
  do! _ := healthcheck in
  do! d := get in
  if negb (k_started (d_disconnect d)) then disconnect_begin expunge
  else if negb (k_synced (d_disconnect d)) then st_ret false
  else
    do! _ := disconnect_finish in
    do! _ := modify dn_free_disconnect in
    st_ret true.

(** ** COPY *)

Definition copy_begin (tag : option bytes) (uid_mode : bool) (seq_set : ie_seq_set_t) (mailbox : ie_mailbox_t) : dm (bool * resps) :=
  do! uids := seq_set_to_canonical_uids_dn uid_mode seq_set in
  match uids with
  | None => do! rs := send_bad tag (lit "bad message set") in st_ret (true, rs)
  | Some [] =>
      do! (_, r1) := dn_gather_updates true uid_mode false in
      do! r2 := send_ok tag (lit "noop COPY command") in
      st_ret (true, r1 ++ r2)
  | Some uids_dn =>
      do! keys := uids_dn_to_msg_keys uids_dn in
      do! _ := modify (fun d => set_copy (mkDnCopy true (c_synced (d_copy d)) tag uid_mode) d) in
      do! _ := request_update (UPDATE_REQ_COPY (mkMsgCopy keys mailbox)) in
      st_ret (false, [])
  end.
Definition copy_finish : dm resps :=
  do! d := get in
  do! (st_resp, r1) := dn_gather_updates true (c_uid_mode (d_copy d)) true in
  do! r2 := finish_st_resp st_resp (c_tag (d_copy d)) (lit "No one will know the difference") in
  st_ret (r1 ++ r2).
Definition dn_copy (tag : option bytes) (uid_mode : bool) (seq_set : ie_seq_set_t) (mailbox : ie_mailbox_t) : dm (bool * resps) :=
  do! _ := healthcheck in
  do! d := get in
  if negb (c_started (d_copy d)) then copy_begin tag uid_mode seq_set mailbox
  else if negb (c_synced (d_copy d)) then st_ret (false, [])
  else
    do! rs := copy_finish in
    do! _ := modify dn_free_copy in
    st_ret (true, rs).

(** ** IDLE *)

Definition dn_idle (tag : option bytes) : dm resps :=
  do! _ := healthcheck in
  do! _ := modify (set_idle_tag tag) in
  on_fail
    (do! (_, r1) := dn_gather_updates true false false in
     do! r2 := send_resp (IMAP_RESP_PLUS None (lit "ok twiddling my thumbs now")) in
     st_ret (r1 ++ r2))
    dn_free_idle.
Definition dn_idle_done (errmsg : option bytes) : dm resps :=
  do! _ := healthcheck in
  do! d := get in
  match d_idle_tag d with
  | None => st_fail E_INTERNAL
  | Some _ =>
      on_fail
        (do! rs := match errmsg with
                   | Some errmsg => send_bad (d_idle_tag d) errmsg
                   | None =>
                       do! (_, r1) := dn_gather_updates true false false in
                       do! r2 := send_ok (d_idle_tag d) (lit "I'm ready to work again") in
                       st_ret (r1 ++ r2)
                   end in
         do! _ := modify dn_free_idle in
         st_ret rs)
        dn_free_idle
  end.

(** ** FETCH *)

(** *** Contents *)

Definition name_in (h : imf_hdr_t) (names : list bytes) : bool :=
  existsb (fun name => do_dstr_cmp2 (dstr_from_off (hdr_name h)) (Some name) false =? 0) names.
Definition copy_hdr_fields (hdrs : imf_hdrs_t) (names : list bytes) : bytes :=
  flat_map (fun h => if name_in h names then off_bytes (hdr_bytes h) else []) (hdrs_hdr hdrs) ++ off_bytes (hdrs_sep hdrs).
Definition copy_hdr_fields_not (hdrs : imf_hdrs_t) (names : list bytes) : bytes :=
  flat_map (fun h => if name_in h names then [] else off_bytes (hdr_bytes h)) (hdrs_hdr hdrs) ++ off_bytes (hdrs_sep hdrs).

(** [None] for a request that is not fetchable. A part that is not a message has no imf_t. *)
Definition build_sect_txt_content_resp (sect_txt : option ie_sect_txt_t) (bytes_ mime_hdrs : dstr_off_t) (imf : option imf_t)
  : res (option bytes) :=
  match sect_txt, imf with
  | None, _ => Ok (Some (off_bytes bytes_))
  | Some IE_SECT_MIME, _ => Ok (Some (off_bytes mime_hdrs))
  | Some IE_SECT_TEXT, None => Ok None
  | Some IE_SECT_TEXT, Some imf => Ok (Some (off_bytes (imf_body imf)))
  | Some IE_SECT_HEADER, None => Ok None
  | Some IE_SECT_HEADER, Some imf => Ok (Some (off_bytes (hdrs_bytes (imf_hdrs imf))))
  | Some (IE_SECT_HDR_FLDS _), None => Ok None
  | Some (IE_SECT_HDR_FLDS names), Some imf => Ok (Some (copy_hdr_fields (imf_hdrs imf) names))
  | Some (IE_SECT_HDR_FLDS_NOT _), None => Stop OutOfBounds
  | Some (IE_SECT_HDR_FLDS_NOT names), Some imf => Ok (Some (copy_hdr_fields_not (imf_hdrs imf) names))
  end.

(** The content of a section, [None] when a part is missing. *)
Definition sect_content (m : M) (key : msg_key_t) (sect : option ie_sect_t) : res (option bytes) :=
  match sect with
  | None => let! content := loader_take_content m key in Ok (Some content)
  | Some sect =>
      let whole :=
        let! root_imf := loader_parse_imf m key in
        let! sub := imf_get_submessage root_imf (sect_part sect) in
        match sub with
        | None => Ok None
        | Some (bytes_, mime_hdrs, imf) => build_sect_txt_content_resp (sect_txt sect) bytes_ mime_hdrs imf
        end in
      match sect_part sect, sect_txt sect with
      | [], Some IE_SECT_HEADER => let! hdrs := loader_parse_hdrs m key in Ok (Some (off_bytes (hdrs_bytes hdrs)))
      | [], Some (IE_SECT_HDR_FLDS names) => let! hdrs := loader_parse_hdrs m key in Ok (Some (copy_hdr_fields hdrs names))
      | [], Some (IE_SECT_HDR_FLDS_NOT names) => let! hdrs := loader_parse_hdrs m key in Ok (Some (copy_hdr_fields_not hdrs names))
      | _, _ => whole
      end
  end.

Definition ie_dstr_sub (d : bytes) (start end_ : Z) : bytes := if end_ =? 0 then [] else dstr_sub d start end_.
(** The extra part of the response and whether a part is missing. *)
Definition build_fetch_resp_extra (m : M) (key : msg_key_t) (extra : ie_fetch_extra_t) : res (list ie_fetch_resp_extra_t * bool) :=
  let! content := sect_content m key (ex_sect extra) in
  match content with
  | None => Ok ([], true)
  | Some content =>
      match ex_partial extra with
      | None => Ok ([mkRespExtra (ex_sect extra) None (Some content)], false)
      | Some (a, b) => Ok ([mkRespExtra (ex_sect extra) (Some a) (Some (ie_dstr_sub content a (a + b)))], false)
      end
  end.
(** *part_missing is what the last extra part left in it. *)
Fixpoint build_extras (m : M) (key : msg_key_t) (extras : list ie_fetch_extra_t) (part_missing : bool)
  : res (list ie_fetch_resp_extra_t * bool) :=
  match extras with
  | [] => Ok ([], part_missing)
  | extra :: extras =>
      let! (r, part_missing) := build_fetch_resp_extra m key extra in
      let! (rs, part_missing) := build_extras m key extras part_missing in
      Ok (r ++ rs, part_missing)
  end.

(** [if(cond) m] *)
Definition when {A} (cond : bool) (m : res A) : res (option A) := if cond then let! a := m in Ok (Some a) else Ok None.
(** The parsed text is used without a look at the error. *)
Definition or_crash {A} (m : res A) : res A := match m with Err _ => Stop OutOfBounds | m => m end.

Definition build_fetch_resp (m : M) (fetch : ie_fetch_cmd_t) (view : msg_view_t) (seq_num uid_dn : Z) (force_flags : bool)
  : res (ie_fetch_resp_t * bool) :=
  let key := v_key view in
  let at_ := fe_attr fetch in
  let parts :=
    let! envelope := when (at_envelope at_) (let! hdrs := loader_parse_hdrs m key in read_envelope_info hdrs) in
    let! rfc822 := when (at_rfc822 at_) (loader_take_content m key) in
    let! rfc822_hdr := when (at_rfc822_header at_) (let! hdrs := loader_parse_hdrs m key in Ok (off_bytes (hdrs_bytes hdrs))) in
    Ok (envelope, rfc822, rfc822_hdr) in
  let! (parts, rfc822_text) :=
    (if at_rfc822_text at_ then
       let! parts := or_crash parts in
       let! imf := or_crash (loader_parse_imf m key) in
       Ok (parts, Some (off_bytes (imf_body imf)))
     else let! parts := parts in Ok (parts, None)) in
  let! rfc822_size := when (at_rfc822_size at_) (if v_length view >? UINT32_MAX then Err E_INTERNAL else Ok (v_length view)) in
  let bodystructure := let! imf := loader_parse_imf m key in imf_bodystructure imf in
  let! body := when (at_body at_) bodystructure in
  let! bodystruct := when (at_bodystruct at_) bodystructure in
  let! _ := (if at_modseq at_ then Err E_INTERNAL else Ok tt) in
  let! (extras, part_missing) := build_extras m key (at_extras at_) false in
  let '(envelope, rfc822, rfc822_hdr) := parts in
  Ok (mkFetchResp seq_num
        (if at_flags at_ || force_flags then Some (flags_to_fflags (v_flags view)) else None)
        (if at_uid at_ || fe_uid_mode fetch then uid_dn else 0)
        (if at_intdate at_ then v_internaldate view else no_date)
        rfc822 rfc822_hdr rfc822_text rfc822_size envelope body bodystruct 0 extras, part_missing).

(** The response and *part_missing. *)
Definition send_fetch_resp (fetch : ie_fetch_cmd_t) (uid_dn : Z) (force_flags : bool) : dm (resps * bool) :=
  do! (view, seq_num) := view_seq uid_dn in
  do! m := the_m in
  do! (f, part_missing) := st_lift (build_fetch_resp m fetch view seq_num uid_dn force_flags) in
  do! rs := send_resp (IMAP_RESP_FETCH f) in
  st_ret (rs, part_missing).

(** *** The command *)

Definition fetch_is_peek_only (fetch : ie_fetch_cmd_t) : bool :=
  if at_rfc822 (fe_attr fetch) || at_rfc822_text (fe_attr fetch) then false
  else forallb ex_peek (at_extras (fe_attr fetch)).
Definition nonpeek_body (views : T msg_view_t) (i : Z) (keys : list msg_key_t) : res (list msg_key_t) :=
  match ot_find i views with
  | None => Err E_INTERNAL
  | Some (view, _) => Ok (if negb (seen (v_flags view)) then v_key view :: keys else keys)
  end.
Definition nonpeek_msgs (uids_dn : ie_seq_set_t) : dm (list msg_key_t) :=
  do! d := get in st_lift (for_seq_set uids_dn 0 0 (nonpeek_body (d_views d)) []).

Definition modify_fetch (f : fetch_t T -> fetch_t T) : dm unit := modify (fun d => set_fetch (f (d_fetch d)) d).
(** [dn->fetch.started], set by dn_fetch just before, the tag and the command. *)
Definition set_f_begin (tag : option bytes) (cmd : ie_fetch_cmd_t) (f : fetch_t T) : fetch_t T :=
  mkDnFetch true (f_synced f) (f_sync_processed f) (f_ready f) (f_any_missing f) (f_iter_called f) tag (Some cmd) (f_uids_dn f) (f_gather f) (f_trav f).
Definition set_f_uids (uids_dn : ie_seq_set_t) (f : fetch_t T) : fetch_t T :=
  mkDnFetch (f_started f) (f_synced f) (f_sync_processed f) (f_ready f) (f_any_missing f) (f_iter_called f) (f_tag f) (f_cmd f) uids_dn (f_gather f) (f_trav f).
Definition set_f_gather (g : gather_t T) (f : fetch_t T) : fetch_t T :=
  mkDnFetch (f_started f) (f_synced f) (f_sync_processed f) (f_ready f) (f_any_missing f) (f_iter_called f) (f_tag f) (f_cmd f) (f_uids_dn f) g (f_trav f).
Definition set_f_ready (f : fetch_t T) : fetch_t T :=
  mkDnFetch (f_started f) (f_synced f) (f_sync_processed f) true (f_any_missing f) (f_iter_called f) (f_tag f) (f_cmd f) (f_uids_dn f) (f_gather f) (f_trav f).
Definition set_f_processed (f : fetch_t T) : fetch_t T :=
  mkDnFetch (f_started f) (f_synced f) true (f_ready f) (f_any_missing f) (f_iter_called f) (f_tag f) (f_cmd f) (f_uids_dn f) (f_gather f) (f_trav f).
Definition set_f_missing (b : bool) (f : fetch_t T) : fetch_t T :=
  mkDnFetch (f_started f) (f_synced f) (f_sync_processed f) (f_ready f) (f_any_missing f || b) (f_iter_called f) (f_tag f) (f_cmd f) (f_uids_dn f) (f_gather f) (f_trav f).
Definition set_f_trav (trav : ie_seq_set_trav_t) (f : fetch_t T) : fetch_t T :=
  mkDnFetch (f_started f) (f_synced f) (f_sync_processed f) (f_ready f) (f_any_missing f) true (f_tag f) (f_cmd f) (f_uids_dn f) (f_gather f) trav.

(** Gather into the gather_t of the session, which is emptied on an error. *)
Definition fetch_gather (allow_expunge want_sync : bool) : dm (option ie_st_resp_t) :=
  do! _ := modify_fetch (set_f_gather gather_prep) in
  do! (g, st_resp) := gather_updates_dont_send allow_expunge want_sync gather_prep in
  do! _ := modify_fetch (set_f_gather g) in
  st_ret st_resp.
(** gather_send_responses with the gather_t of the session. *)
Definition fetch_send (uid_mode : bool) : dm resps :=
  do! d := get in
  do! (g, rs) := gather_send_responses (f_gather (d_fetch d)) uid_mode false in
  do! _ := modify_fetch (set_f_gather g) in
  st_ret rs.

Definition fetch_begin (tag : option bytes) (cmd : ie_fetch_cmd_t) : dm (bool * resps) :=
  do! _ := modify_fetch (set_f_begin tag cmd) in
  do! uids := seq_set_to_canonical_uids_dn (fe_uid_mode cmd) (fe_seq_set cmd) in
  match uids with
  | None => do! rs := send_bad tag (lit "bad message set") in st_ret (true, rs)
  | Some uids_dn =>
      do! _ := modify_fetch (set_f_uids uids_dn) in
      do! nonpeeks := (if fetch_is_peek_only cmd then st_ret [] else nonpeek_msgs uids_dn) in
      match nonpeeks with
      | [] =>
          do! _ := fetch_gather (fe_uid_mode cmd) false in
          do! _ := modify_fetch set_f_ready in
          st_ret (false, [])
      | _ =>
          let seen_flag := ImapTypes.mkFlags false false false true false [] [] in
          do! _ := request_update (UPDATE_REQ_STORE (mkMsgStore nonpeeks [] 1 (Some seen_flag))) in
          st_ret (false, [])
      end
  end.

Definition fetch_post_sync (cmd : ie_fetch_cmd_t) : dm (bool * resps) :=
  do! st_resp := fetch_gather (fe_uid_mode cmd) true in
  match st_resp with
  | Some st =>
      do! r1 := fetch_send (fe_uid_mode cmd) in
      do! d := get in
      do! r2 := send_st_resp (f_tag (d_fetch d)) (sr_text st) (sr_status st) in
      st_ret (true, r1 ++ r2)
  | None => do! _ := modify_fetch set_f_ready in st_ret (false, [])
  end.

Definition fetch_next_uid_dn : dm Z :=
  do! d := get in
  let f := d_fetch d in
  let (uid_dn, trav) := if f_iter_called f then ie_seq_set_next (f_trav f) else ie_seq_set_iter (f_uids_dn f) 0 0 in
  do! _ := modify_fetch (set_f_trav trav) in
  st_ret uid_dn.

Definition fetch_respond (cmd : ie_fetch_cmd_t) : dm (bool * resps) :=
  do! uid_dn := fetch_next_uid_dn in
  do! d := get in
  let g := f_gather (d_fetch d) in
  if negb (uid_dn =? 0) then
    do! (node, metas) := st_lift (ot_erase uid_dn (metas g)) in
    do! _ := modify_fetch (set_f_gather (mkGather (news g) metas (expunges g) (updates_to_free g))) in
    let force_flags := match node with Some _ => true | None => false end in
    do! (rs, part_missing) := send_fetch_resp cmd uid_dn force_flags in
    do! _ := modify_fetch (set_f_missing part_missing) in
    st_ret (false, rs)
  else
    do! r1 := fetch_send (fe_uid_mode cmd) in
    do! d := get in
    do! r2 := (if negb (f_any_missing (d_fetch d)) then send_ok (f_tag (d_fetch d)) (lit "you didn't hear it from me")
               else send_no (f_tag (d_fetch d)) (lit "some requested subparts were missing")) in
    st_ret (true, r1 ++ r2).

(** [dn->fetch.cmd]: NULL before the command has begun. *)
Definition the_cmd : dm ie_fetch_cmd_t := fun d =>
  match f_cmd (d_fetch d) with Some cmd => (Ok cmd, d) | None => (Stop OutOfBounds, d) end.

(** The command is only passed to the first call. *)
Definition dn_fetch (tag : option bytes) (fetch : ie_fetch_cmd_t) : dm (bool * resps) :=
  do! _ := healthcheck in
  do! d := get in
  do! (ok, r1) := (if negb (f_started (d_fetch d)) then fetch_begin tag fetch else st_ret (false, [])) in
  if ok : bool then do! _ := modify dn_free_fetch in st_ret (true, r1)
  else
    do! d := get in
    do! (ok, r2) := (if f_synced (d_fetch d) && negb (f_sync_processed (d_fetch d)) then
                       do! _ := modify_fetch set_f_processed in
                       do! cmd := the_cmd in
                       fetch_post_sync cmd
                     else st_ret (false, [])) in
    if ok : bool then do! _ := modify dn_free_fetch in st_ret (true, r1 ++ r2)
    else
      do! d := get in
      if f_ready (d_fetch d) then
        do! cmd := the_cmd in
        do! (ok, r3) := fetch_respond cmd in
        if ok : bool then do! _ := modify dn_free_fetch in st_ret (true, r1 ++ r2 ++ r3)
        else st_ret (false, r1 ++ r2 ++ r3)
      else st_ret (false, r1 ++ r2).
End dn.
