(* ===== verification/DnSync.v ===== *)
(** * Sessions keep their clients in step (libimaildir/dn.c)

    A client that believes the responses of a session always agrees with the view of the
    session, and the view with the mailbox up to the updates that are pending. *)

From stdpp Require Import sorting.
From S2P Require Import Prelude Dstr Fmt Cvt Msg ImapTypes ImapWrite ImapChunks OrdTree SeqSet ImapSearch Dn.

(** ** Mailboxes and their updates *)

(** The messages by uid, and the highest uid that was ever given. *)
Definition mbox : Type := list (Z * msg_view_t) * Z.

Definition uid_of (u : update_t) : option Z :=
  match u_arg u with
  | UPDATE_NEW v => Some (v_uid_dn v)
  | UPDATE_META v => Some (v_uid_dn v)
  | UPDATE_EXPUNGE e => Some (e_uid_dn e)
  | UPDATE_SYNC _ => None
  end.

(** An update happens: new messages get new uids, only existing messages are expunged, and
    new metadata of messages that are gone changes nothing. *)
Definition update_mbox (mb : mbox) (u : update_t) : option mbox :=
  match u_arg u with
  | UPDATE_NEW v => if (mb.2 <? v_uid_dn v) && (v_uid_dn v <? UINT32_MAX) then Some (mb.1 ++ [(v_uid_dn v, v)], v_uid_dn v) else None
  | UPDATE_META v => Some (lset (v_uid_dn v) v mb.1, mb.2)
  | UPDATE_EXPUNGE e => if decide (e_uid_dn e ∈ keys mb.1) then Some (ldel (e_uid_dn e) mb.1, mb.2) else None
  | UPDATE_SYNC _ => Some mb
  end.
Fixpoint update_all (mb : mbox) (us : list update_t) : option mbox :=
  match us with
  | [] => Some mb
  | u :: us => match update_mbox mb u with Some mb => update_all mb us | None => None end
  end.

Record mbox_ok (mb : mbox) : Prop := {
  mb_sorted : lsorted mb.1;
  mb_hi : 0 <= mb.2 < UINT32_MAX;
  mb_keys : forall k v, (k, v) ∈ mb.1 -> k = v_uid_dn v /\ 1 <= k <= mb.2
}.

Lemma update_all_app mb us vs : update_all mb (us ++ vs) = match update_all mb us with Some mb => update_all mb vs | None => None end.
Proof. revert mb. induction us as [|u us IH]; intros mb; [done|]. cbn. destruct (update_mbox mb u); [apply IH|done]. Qed.

Lemma mb_key_range mb k : mbox_ok mb -> k ∈ keys mb.1 -> 1 <= k <= mb.2.
Proof. intros Hm [v Hin]%keys_in_inv. by apply (mb_keys _ Hm) in Hin as [_ ?]. Qed.

Lemma lset_in k v (l : list (Z * msg_view_t)) a b : (a, b) ∈ lset k v l -> (a, b) ∈ l \/ a = k /\ b = v.
Proof.
  unfold lset. intros ([a' b'] & E & Hin)%list_elem_of_fmap. cbn in E. case_decide; simplify_eq; [by right|by left].
Qed.

Lemma mbox_ok_ldel k l hi : mbox_ok (l, hi) -> mbox_ok (ldel k l, hi).
Proof.
  intros [Hs Hh Hk]. constructor; [by apply lsorted_ldel|done|]. cbn [fst snd] in *. intros j v [_ Hin]%ldel_in. by apply Hk.
Qed.
Lemma update_mbox_ok mb u mb' : mbox_ok mb -> update_mbox mb u = Some mb' -> mbox_ok mb'.
Proof.
  intros Hm. pose proof Hm as [Hs Hh Hk]. unfold update_mbox. destruct (u_arg u) as [v|v|e|st].
  - destruct (_ && _) eqn:E; [|done]. intros [= <-]. bool_to_prop. constructor; cbn [fst snd].
    + apply lsorted_snoc; [done|]. intros a Ha. apply (mb_key_range _ _ Hm) in Ha. lia.
    + lia.
    + intros k w [Hin|Hin]%elem_of_app; [apply Hk in Hin; split; [apply Hin|lia]|].
      apply list_elem_of_singleton in Hin. injection Hin as -> ->. split; [done|]. lia.
  - intros [= <-]. constructor; cbn [fst snd]; [unfold lsorted; by rewrite keys_lset|done|].
    intros k w Hin. assert (k ∈ keys mb.1) as Hkin by (rewrite <- (keys_lset (v_uid_dn v) v); by eapply keys_in).
    apply lset_in in Hin as [Hin|[-> ->]]; [by apply Hk|]. split; [done|by apply (mb_key_range mb)].
  - case_decide; [|done]. intros [= <-]. apply mbox_ok_ldel. by destruct mb.
  - by intros [= <-].
Qed.
Lemma update_all_ok us : forall mb mb', mbox_ok mb -> update_all mb us = Some mb' -> mbox_ok mb'.
Proof.
  induction us as [|u us IH]; cbn; intros mb mb' Hm; [by intros [= <-]|].
  destruct (update_mbox mb u) as [mb1|] eqn:E; [|done]. apply IH. by eapply update_mbox_ok.
Qed.

(** There is always room for one more message. *)
Lemma sorted_room {V} (l : list (Z * V)) n : lsorted l -> (forall k, k ∈ keys l -> 1 <= k < n) -> 1 <= n -> zlen l + 1 <= n.
Proof.
  revert n. induction l as [|[k v] l IH] using rev_ind; intros n Hs Hk Hn; [change (0 + 1 <= n); lia|].
  apply lsorted_app in Hs as (Hs & _ & Hlt). rewrite zlen_app. change (zlen [(k, v)]) with 1.
  assert (1 <= k < n) by (apply Hk; rewrite keys_app; set_solver).
  enough (zlen l + 1 <= k) by lia. apply IH; [done| |lia].
  intros j Hj. split; [|apply Hlt; [done|by left]]. apply (Hk j). rewrite keys_app. set_solver.
Qed.

(** Filtering out several keys. *)
Definition ldels (ks : list Z) (l : list (Z * msg_view_t)) : list (Z * msg_view_t) := filter (fun kv => kv.1 ∉ ks) l.
Lemma ldels_nil l : ldels [] l = l.
Proof. unfold ldels. induction l as [|x l IH]; [done|]. rewrite filter_cons_True by set_solver. by rewrite IH. Qed.
Lemma ldels_app ks l1 l2 : ldels ks (l1 ++ l2) = ldels ks l1 ++ ldels ks l2.
Proof. apply filter_app. Qed.
Lemma ldels_in ks l a b : (a, b) ∈ ldels ks l <-> a ∉ ks /\ (a, b) ∈ l.
Proof. unfold ldels. by rewrite list_elem_of_filter. Qed.
Lemma keys_ldels ks l a : a ∈ keys (ldels ks l) <-> a ∉ ks /\ a ∈ keys l.
Proof.
  split.
  - intros [b [? ?]%ldels_in]%keys_in_inv. split; [done|]. by eapply keys_in.
  - intros [Hne [b Hin]%keys_in_inv]. eapply keys_in, ldels_in. by split.
Qed.
Lemma lsorted_ldels ks l : lsorted l -> lsorted (ldels ks l).
Proof.
  induction l as [|[k v] l IH]; [done|]. intros [Hl Hk]%lsorted_cons. unfold ldels. rewrite filter_cons.
  case_decide; [|by apply IH]. apply lsorted_cons. split; [by apply IH|]. intros b [_ Hb]%keys_ldels. auto.
Qed.
Lemma ldels_lset ks k v l : ldels ks (lset k v l) = lset k v (ldels ks l).
Proof.
  unfold ldels, lset. induction l as [|[a b] l IH]; [done|]. cbn [fmap list_fmap]. rewrite !filter_cons. cbn [fst].
  case_decide as E1; case_decide as E2; cbn [fst] in *; try (by rewrite IH); case_decide; cbn [fst] in *; subst; try done.
  - cbn. rewrite decide_True by done. by rewrite IH.
  - cbn. rewrite decide_False by done. by rewrite IH.
Qed.
Lemma ldel_lset k j v (l : list (Z * msg_view_t)) : ldel k (lset j v l) = lset j v (ldel k l).
Proof.
  unfold ldel, lset. induction l as [|[a b] l IH]; [done|]. cbn [fmap list_fmap]. rewrite !filter_cons. cbn [fst].
  case_decide as E1; case_decide as E2; cbn [fst] in *; subst; try (by rewrite IH); try done; case_decide; cbn [fst] in *; subst; try done.
  - cbn. rewrite decide_True by done. by rewrite IH.
  - cbn. rewrite decide_False by done. by rewrite IH.
Qed.
Lemma ldels_snoc ks k l : ldels (ks ++ [k]) l = ldel k (ldels ks l).
Proof.
  unfold ldels, ldel. rewrite list_filter_filter. apply list_filter_iff. intros [a b]. cbn. set_solver.
Qed.
Lemma ldels_cons ks k l : ldels ks (ldel k l) = ldels (k :: ks) l.
Proof.
  unfold ldels, ldel. rewrite list_filter_filter. apply list_filter_iff. intros [a b]. cbn. set_solver.
Qed.
Lemma ldels_same ks ks' l : (forall k, k ∈ ks <-> k ∈ ks') -> ldels ks l = ldels ks' l.
Proof. intros E. apply list_filter_iff. intros [a b]. cbn. by rewrite E. Qed.
Lemma ldels_notin ks l : (forall k, k ∈ ks -> k ∉ keys l) -> ldels ks l = l.
Proof.
  unfold ldels. induction l as [|[a b] l IH]; intros Hk; [done|]. rewrite filter_cons_True.
  - f_equal. apply IH. intros k Hin. specialize (Hk k Hin). cbn in Hk. set_solver.
  - cbn. intros Hin. specialize (Hk a Hin). cbn in Hk. set_solver.
Qed.

Lemma mbox_ok_ldels ks l hi : mbox_ok (l, hi) -> mbox_ok (ldels ks l, hi).
Proof.
  intros [Hs Hh Hk]. constructor; [by apply lsorted_ldels|done|]. cbn [fst snd] in *. intros j v [_ Hin]%ldels_in. by apply Hk.
Qed.

(** Expunges that were put off commute with what comes after them. *)
Definition is_expunge (u : update_t) : Prop := match u_arg u with UPDATE_EXPUNGE _ => True | _ => False end.

Lemma put_off K u us : forall mb mb', mbox_ok mb -> Forall is_expunge K ->
  match u_arg u with UPDATE_NEW _ | UPDATE_META _ | UPDATE_SYNC _ => True | UPDATE_EXPUNGE _ => False end ->
  update_all mb (K ++ u :: us) = Some mb' -> exists mb1, update_mbox mb u = Some mb1 /\ update_all mb1 (K ++ us) = Some mb'.
Proof.
  induction K as [|k K IH]; intros mb mb' Hm HK Hu.
  { cbn. destruct (update_mbox mb u) as [mb1|]; [|done]. intros E. by exists mb1. }
  inversion HK as [|? ? Hk HK']; subst. cbn [app update_all]. unfold is_expunge in Hk. destruct (u_arg k) as [| |e|] eqn:Ek; try done.
  unfold update_mbox at 1. rewrite Ek. case_decide as Hin; [|done]. intros E.
  apply IH in E as (mb1 & E1 & E2); [|eapply (update_mbox_ok mb k); [done|]; unfold update_mbox; rewrite Ek; by rewrite decide_True|done|done].
  cbn [app update_all]. unfold update_mbox in E1 |- *. rewrite Ek. destruct (u_arg u) as [v|v|e'|st]; [| |done|]; cbn [fst snd] in E1.
  - destruct (_ && _) eqn:Ec; [|done]. injection E1 as <-. eexists. split; [done|]. cbn [fst snd].
    rewrite decide_True by (rewrite keys_app; set_solver).
    rewrite ldel_app. rewrite (ldel_notin (e_uid_dn e) [(v_uid_dn v, v)]); [done|].
    cbn. intros Hin'%list_elem_of_singleton. apply (mb_key_range _ _ Hm) in Hin. bool_to_prop. lia.
  - injection E1 as <-. eexists. split; [done|]. cbn [fst snd]. rewrite decide_True by (by rewrite keys_lset). by rewrite ldel_lset.
  - injection E1 as <-. eexists. split; [done|]. by rewrite decide_True.
Qed.

(** ** The client *)

(** What a client knows of the message at each sequence number. *)
Record slot := mkSlot { c_uid : option Z; c_flags : option msg_flags_t }.
Abbreviation client := (list slot).
Definition unknown : slot := mkSlot None None.

Definition fflags_to_flags (ff : ie_fflags_t) : msg_flags_t :=
  Msg.mkFlags (ff_answered ff) (ff_flagged ff) (ff_seen ff) (ff_draft ff) (ff_deleted ff).
Definition learn (f : ie_fetch_resp_t) (s : slot) : option slot :=
  let flags := match fr_flags f with Some ff => Some (fflags_to_flags ff) | None => c_flags s end in
  if fr_uid f =? 0 then Some (mkSlot (c_uid s) flags)
  else match c_uid s with
       | Some uid => if uid =? fr_uid f then Some (mkSlot (Some uid) flags) else None
       | None => Some (mkSlot (Some (fr_uid f)) flags)
       end.

(** A client takes EXISTS, EXPUNGE and FETCH at their word. [None] is a violation of the
    protocol: fewer messages than before without EXPUNGE, a sequence number that does not
    exist, a message that changes its uid. A strict client does not accept the EXPUNGE of
    a message it has not been told of, another one ignores it. *)
Definition recv1 (strict : bool) (c : client) (r : imap_resp_t) : option client :=
  match r with
  | IMAP_RESP_EXISTS n => if n <? zlen c then None else Some (c ++ replicate (Z.to_nat (n - zlen c)) unknown)
  | IMAP_RESP_EXPUNGE n =>
      if (1 <=? n) && (n <=? zlen c) then Some (delete (Z.to_nat (n - 1)) c) else if strict then None else Some c
  | IMAP_RESP_FETCH f =>
      match c !! Z.to_nat (fr_seq_num f - 1) with
      | Some s => if 1 <=? fr_seq_num f then s ← learn f s; Some (<[Z.to_nat (fr_seq_num f - 1) := s]> c) else None
      | None => None
      end
  | _ => Some c
  end.
Fixpoint recv (strict : bool) (c : client) (rs : list imap_resp_t) : option client :=
  match rs with
  | [] => Some c
  | r :: rs => match recv1 strict c r with Some c => recv strict c rs | None => None end
  end.
Lemma recv_app strict c rs rs' : recv strict c (rs ++ rs') = match recv strict c rs with Some c => recv strict c rs' | None => None end.
Proof. revert c. induction rs as [|r rs IH]; intros c; [done|]. cbn. destruct (recv1 strict c r); [apply IH|done]. Qed.

(** What the client knows of a message is true; for a stale one the flags may be old. *)
Definition agree1 (stale : Z -> Prop) (s : slot) (kv : Z * msg_view_t) : Prop :=
  (forall u, c_uid s = Some u -> u = kv.1) /\ (forall f, c_flags s = Some f -> ~ stale kv.1 -> f = v_flags kv.2).
Definition agrees (stale : Z -> Prop) : client -> list (Z * msg_view_t) -> Prop := Forall2 (agree1 stale).

Lemma agrees_length stale c l : agrees stale c l -> zlen c = zlen l.
Proof. intros Ha%Forall2_length. unfold zlen. by rewrite Ha. Qed.
Lemma agree1_mono P Q s kv : (P kv.1 -> Q kv.1) -> agree1 P s kv -> agree1 Q s kv.
Proof. intros HPQ [Hu Hf]. split; [done|]. intros f Ef Hq. apply Hf; [done|]. auto. Qed.
Lemma agrees_mono (P Q : Z -> Prop) c l : (forall k, k ∈ keys l -> P k -> Q k) -> agrees P c l -> agrees Q c l.
Proof.
  intros HPQ Ha. induction Ha as [|s [k v] c l Hs Ha IH]; constructor.
  - eapply agree1_mono; [|exact Hs]. apply HPQ. by left.
  - apply IH. intros j Hj. apply HPQ. by right.
Qed.
Lemma agrees_lset P k v c l : agrees P c l -> agrees (fun j => P j \/ j = k) c (lset k v l).
Proof.
  intros Ha. induction Ha as [|s [j w] c l [Hu Hf] Ha IH]; [constructor|]. unfold lset. rewrite fmap_cons. constructor; [|exact IH].
  cbn [fst snd] in *. destruct (decide (j = k)) as [E|E]; (split; cbn [fst snd]; [by subst|]).
  - intros f _ Hn. exfalso. apply Hn. by right.
  - intros f Ef Hn. apply Hf; [done|]. intros HP. apply Hn. by left.
Qed.

(** Responses that report flags of messages of a list. *)
Inductive reports (l : list (Z * msg_view_t)) : list imap_resp_t -> list Z -> Prop :=
| reports_nil : reports l [] []
| reports_cons l1 k v l2 f rs R : l = l1 ++ (k, v) :: l2 -> fr_seq_num f = zlen l1 + 1 ->
    fr_flags f = Some (flags_to_fflags (v_flags v)) -> (fr_uid f = 0 \/ fr_uid f = k) -> reports l rs R ->
    reports l (IMAP_RESP_FETCH f :: rs) (k :: R).
Lemma reports_app l rs R rs' R' : reports l rs R -> reports l rs' R' -> reports l (rs ++ rs') (R ++ R').
Proof. induction 1; intros; [done|]. cbn. by econstructor; eauto. Qed.

Lemma fflags_round f : fflags_to_flags (flags_to_fflags f) = f.
Proof. by destruct f. Qed.

(** One FETCH response for a message that the client knows. *)
Lemma recv_fetch strict P c l1 k v l2 f :
  agrees P c (l1 ++ (k, v) :: l2) -> fr_seq_num f = zlen l1 + 1 -> (fr_uid f = 0 \/ fr_uid f = k) ->
  (fr_flags f = None \/ fr_flags f = Some (flags_to_fflags (v_flags v))) ->
  exists c1 s s' c2, c = c1 ++ s :: c2 /\ length c1 = length l1 /\
    recv1 strict c (IMAP_RESP_FETCH f) = Some (c1 ++ s' :: c2) /\
    (c_uid s' = c_uid s \/ c_uid s' = Some k) /\ c_flags s' = match fr_flags f with None => c_flags s | Some _ => Some (v_flags v) end.
Proof.
  intros Ha Hn Hu Hf. apply Forall2_app_inv_r in Ha as (c1 & c2' & Ha1 & Ha2 & ->).
  apply Forall2_cons_inv_r in Ha2 as (s & c2 & [Hs1 Hs2] & Ha2 & ->). cbn [fst snd] in *.
  apply Forall2_length in Ha1 as Hl. exists c1, s.
  cbn [recv1]. rewrite Hn. replace (Z.to_nat (zlen l1 + 1 - 1)) with (length c1) by (unfold zlen; lia).
  rewrite list_lookup_middle by done. rewrite (proj2 (Z.leb_le _ _)) by (pose proof (zlen_nonneg l1); lia).
  assert (forall s', <[length c1:=s']> (c1 ++ s :: c2) = c1 ++ s' :: c2) as Hins by (intros; by rewrite insert_app_r_alt, Nat.sub_diag by lia).
  assert (forall fl, fr_flags f = Some fl -> fflags_to_flags fl = v_flags v) as Hfl.
  { intros fl Efl. destruct Hf as [Hf|Hf]; rewrite Hf in Efl; [done|]. injection Efl as <-. apply fflags_round. }
  unfold learn. destruct Hu as [->| ->].
  - eexists _, c2. split; [done|]. split; [done|]. cbn. rewrite Hins. split; [done|]. split; [by left|].
    destruct (fr_flags f) as [fl|]; cbn; [by rewrite (Hfl fl)|done].
  - destruct (k =? 0) eqn:Ek.
    + eexists _, c2. split; [done|]. split; [done|]. cbn. rewrite Hins. split; [done|]. split; [by left|].
      destruct (fr_flags f) as [fl|]; cbn; [by rewrite (Hfl fl)|done].
    + destruct (c_uid s) as [u|] eqn:Eu.
      * rewrite (Hs1 u eq_refl), Z.eqb_refl. eexists _, c2. split; [done|]. split; [done|]. cbn. rewrite Hins. split; [done|]. split; [by right|].
        destruct (fr_flags f) as [fl|]; cbn; [by rewrite (Hfl fl)|done].
      * eexists _, c2. split; [done|]. split; [done|]. cbn. rewrite Hins. split; [done|]. split; [by right|].
        destruct (fr_flags f) as [fl|]; cbn; [by rewrite (Hfl fl)|done].
Qed.

Lemma agree1_learn P (Q : Z -> Prop) s s' k v :
  agree1 P s (k, v) -> (c_uid s' = c_uid s \/ c_uid s' = Some k) ->
  (c_flags s' = Some (v_flags v) \/ c_flags s' = c_flags s /\ (P k -> Q k)) -> agree1 Q s' (k, v).
Proof.
  intros [Hu Hf] Hu' Hf'. split; cbn [fst snd] in *.
  - intros u Eu. destruct Hu' as [Hu'|Hu']; rewrite Hu' in Eu; [by apply Hu|by injection Eu].
  - intros f Ef Hq. destruct Hf' as [Hf'|[Hf' HPQ]]; rewrite Hf' in Ef; [by injection Ef|]. apply Hf; [done|]. auto.
Qed.

Lemma split_old (lo ln l1 : list (Z * msg_view_t)) k v l2 : lsorted (lo ++ ln) -> lo ++ ln = l1 ++ (k, v) :: l2 -> k ∈ keys lo ->
  exists l2', lo = l1 ++ (k, v) :: l2' /\ l2 = l2' ++ ln.
Proof.
  intros Hs E [w Hw]%keys_in_inv. apply list_elem_of_split in Hw as (a & b & ->).
  rewrite <- app_assoc in E, Hs. cbn [app] in E, Hs. pose proof Hs as Hs'. rewrite E in Hs'.
  apply (f_equal (lfind k)) in E as E'.
  rewrite !lfind_split in E' by (first [apply (lsorted_notin _ _ _ _ Hs) | apply (lsorted_notin _ _ _ _ Hs')]). injection E' as -> Hz.
  apply app_inj_1 in E as [-> E]; [|unfold zlen in Hz; lia]. injection E as <-. by exists b.
Qed.

(** Reports of flags are understood, and the messages reported are not stale any more. *)
Lemma recv_reports strict l_old l_new rs R : lsorted (l_old ++ l_new) ->
  reports (l_old ++ l_new) rs R -> (forall k, k ∈ R -> k ∈ keys l_old) -> forall P c, agrees P c l_old ->
  exists c', recv strict c rs = Some c' /\ agrees (fun k => P k /\ k ∉ R) c' l_old.
Proof.
  intros Hs Hr. remember (l_old ++ l_new) as l eqn:El. induction Hr as [|l1 k v l2 f rs R E Hn Hf Hu Hr IH]; intros HR P c Ha.
  - exists c. split; [done|]. eapply agrees_mono; [|exact Ha]. intros k _ Hk. split; [done|set_solver].
  - assert (k ∈ keys l_old) as Hk by (apply HR; by left).
    destruct (split_old l_old l_new l1 k v l2) as (l2' & Eo & _); [by rewrite <- El|by rewrite <- El|done|].
    rewrite Eo in Ha. destruct (recv_fetch strict P c l1 k v l2' f Ha Hn Hu (or_intror Hf)) as (c1 & s & s' & c2 & -> & Hl & E1 & Hu' & Hf').
    rewrite Hf in Hf'. cbn [recv]. rewrite E1.
    destruct (IH ltac:(intros; apply HR; by right) (fun j => P j /\ j <> k) (c1 ++ s' :: c2)) as (c' & Er & Ha').
    + rewrite Eo. rewrite Eo in El. assert (lsorted (l1 ++ (k, v) :: l2')) as Hso.
      { rewrite El in Hs. by apply lsorted_app in Hs as (? & _). }
      apply lsorted_notin in Hso as [Hn1 Hn2]. apply Forall2_app_inv in Ha as [Ha1 Ha2]; [|done]. inversion Ha2 as [|? ? ? ? Hs1 Ha2']; subst.
      apply Forall2_app; [|constructor].
      * eapply agrees_mono; [|exact Ha1]. intros j Hj HP. split; [done|]. by intros ->.
      * eapply agree1_learn; [exact Hs1|exact Hu'|by left].
      * eapply agrees_mono; [|exact Ha2']. intros j Hj HP. split; [done|]. by intros ->.
    + exists c'. split; [done|]. eapply agrees_mono; [|exact Ha']. intros j _ [[HP Hne] Hj]. split; [done|set_solver].
Qed.

(** ** Runs that do not stop *)

Section logic.
Context {S : Type}.

(** The program returns; when it succeeds the result has the property. *)
Definition ensures {A} (m : stm S A) (s : S) (Q : A -> S -> Prop) : Prop :=
  match m s with
  | (Ok a, s') => Q a s'
  | (Err _, _) => True
  | (Stop _, _) => False
  end.

Lemma ensures_ret {A} (a : A) s (Q : A -> S -> Prop) : Q a s -> ensures (st_ret a) s Q.
Proof. done. Qed.
Lemma ensures_fail {A} e s (Q : A -> S -> Prop) : ensures (st_fail e) s Q.
Proof. done. Qed.
Lemma ensures_bind {A B} (m : stm S A) (k : A -> stm S B) s Q :
  ensures m s (fun a s' => ensures (k a) s' Q) -> ensures (st_bind m k) s Q.
Proof. unfold ensures, st_bind. by destruct (m s) as [[a|e|x] s']. Qed.
Lemma ensures_mono {A} (m : stm S A) s (P Q : A -> S -> Prop) :
  ensures m s P -> (forall a s', P a s' -> Q a s') -> ensures m s Q.
Proof. unfold ensures. destruct (m s) as [[a|e|x] s']; auto. Qed.
Lemma ensures_step {A B} (m : stm S A) (k : A -> stm S B) s (P : A -> S -> Prop) Q :
  ensures m s P -> (forall a s', P a s' -> ensures (k a) s' Q) -> ensures (st_bind m k) s Q.
Proof. intros Hm Hk. apply ensures_bind. by eapply ensures_mono. Qed.
Lemma ensures_lift {A} (m : res A) s (Q : A -> S -> Prop) :
  (forall x, m <> Stop x) -> (forall a, m = Ok a -> Q a s) -> ensures (st_lift m) s Q.
Proof. unfold ensures, st_lift. intros Hs Hk. destruct m as [a|e|x]; [by apply Hk|done|by destruct (Hs x)]. Qed.
Lemma ensures_lift_ok {A} (m : res A) s (Q : A -> S -> Prop) a : m = Ok a -> Q a s -> ensures (st_lift m) s Q.
Proof. by intros ->. Qed.
Lemma ensures_split {A} (m : stm S A) s (P Q : A -> S -> Prop) :
  ensures m s P -> ensures m s Q -> ensures m s (fun a s' => P a s' /\ Q a s').
Proof. unfold ensures. destruct (m s) as [[a|e|x] s']; auto. Qed.
End logic.

(** The sequel of a bind, of a lifted result and of plain steps. *)
Ltac en_bind := apply ensures_bind.
Ltac en_ok E := apply ensures_bind; eapply ensures_lift_ok; [exact E|].
Ltac en_step H := eapply ensures_step; [eapply H|].

Section sessions.
Context `{OrdTreeLaws T} `{Imaildir M} `{Imf} `{Alloc}.
Abbreviation dn := (dn_t T M).
Abbreviation dm := (stm dn).
Abbreviation resps := (list imap_resp_t).
Implicit Types d : dn.
Implicit Types g : gather_t T.

Definition vlist d : list (Z * msg_view_t) := ot_list (d_views d).

Lemma ensures_modify (f : dn -> dn) d (Q : unit -> dn -> Prop) : Q tt (f d) -> ensures (modify f) d Q.
Proof. done. Qed.
Lemma ensures_get d (Q : dn -> dn -> Prop) : Q d d -> ensures get d Q.
Proof. done. Qed.
Lemma ensures_on_fail {A} (m : dm A) f d (Q : A -> dn -> Prop) : ensures m d Q -> ensures (on_fail m f) d Q.
Proof. unfold ensures, on_fail. destruct (m d) as [[a|e|x] d']; done. Qed.
Lemma ensures_health d (Q : unit -> dn -> Prop) : (forall m, d_m d = Some m -> Q tt d) -> ensures healthcheck d Q.
Proof. unfold ensures, healthcheck. destruct (d_m d) as [m|]; [intros Hq; by apply (Hq m)|done]. Qed.

(** A response is sent as it is or refused. *)
Lemma writable_cases exts resp :
  imap_resp_assert_writable exts resp = Ok resp \/ exists e, imap_resp_assert_writable exts resp = Err e.
Proof.
  destruct (ends_same_text _ _ resp (resp_ends exts false resp)) as [(e & E & _)|(t & _ & E & _)]; [right; by exists e|by left].
Qed.
Lemma ensures_send r d (Q : resps -> dn -> Prop) : Q [r] d -> ensures (send_resp r) d Q.
Proof.
  intros Hq. unfold send_resp. en_bind. apply ensures_get. en_bind.
  destruct (writable_cases (d_exts d) r) as [E|[e E]]; unfold ensures at 1, st_lift; rewrite E; [|done]. by apply ensures_ret.
Qed.

(** The untagged responses about messages are never refused. *)
Definition any (t : bytes) : Prop := True.
#[local] Instance any_text : TextProp any.
Proof. by constructor. Qed.
Lemma any_bind {A B} (m : sfm A) (k : A -> sfm B) : total any m -> (forall a, total any (k a)) -> total any (st_bind m k).
Proof. apply total_bind, _. Qed.
Lemma any_ret {A} (a : A) : total any (st_ret a).
Proof. apply total_ret, _. Qed.
Lemma any_raw t : total any (raw_skip_fill t).
Proof. by apply (total_raw any). Qed.
Lemma total_writable exts r : untagged r = true -> total any (resp_arg_skip_fill exts false r) -> imap_resp_assert_writable exts r = Ok r.
Proof.
  intros Hu Ht. assert (total any (resp_skip_fill exts false r)) as ([] & us & Hp & _).
  { unfold resp_skip_fill. rewrite Hu. apply any_bind; [apply any_raw|intros _]. apply any_bind; [done|intros _]. apply any_raw. }
  unfold imap_resp_assert_writable, assert_writable.
  destruct (chunk_run _ us 0 (mkD [] 0 true) Hp) as [E0 _]; [by vm_compute|lia|]. by rewrite E0 by (by left).
Qed.
Lemma any_num n : total any (num_skip_fill n).
Proof.
  unfold num_skip_fill, print_num. pose proof (dec_length n) as Hd. rewrite (fmt_var_ok 32 "%x" _ (dec n)); [|by render_norm|lia|lia].
  apply any_bind; [by exists (dec n), []|]. intros t. apply any_raw.
Qed.
Lemma any_nznum n : n <> 0 -> total any (nznum_skip_fill n).
Proof. intros Hn. unfold nznum_skip_fill. rewrite (proj2 (Z.eqb_neq n 0) Hn). apply any_num. Qed.
Lemma any_static s : total any (static s).
Proof. apply any_raw. Qed.
Lemma any_item b m sp : total any m -> total any (item b m sp).
Proof.
  intros Hm. unfold item. destruct b; [|apply any_ret].
  apply any_bind; [unfold lead_sp; destruct sp; [apply any_static|apply any_ret]|intros _]. apply any_bind; [done|intros _]. apply any_ret.
Qed.

Lemma exists_writable exts n : imap_resp_assert_writable exts (IMAP_RESP_EXISTS n) = Ok (IMAP_RESP_EXISTS n).
Proof. apply total_writable; [done|]. apply any_bind; [apply any_num|intros _; apply any_static]. Qed.
Lemma expunge_writable exts n : n <> 0 -> imap_resp_assert_writable exts (IMAP_RESP_EXPUNGE n) = Ok (IMAP_RESP_EXPUNGE n).
Proof. intros Hn. apply total_writable; [done|]. apply any_bind; [by apply any_nznum|intros _; apply any_static]. Qed.
Lemma flags_writable exts n flags uid : n <> 0 ->
  let r := IMAP_RESP_FETCH (mkFetchResp n (Some (flags_to_fflags flags)) uid no_date None None None None None None None 0 []) in
  imap_resp_assert_writable exts r = Ok r.
Proof.
  intros Hn. apply total_writable; [done|]. cbn [resp_arg_skip_fill]. unfold fetch_resp_skip_fill.
  cbn [fr_seq_num fr_flags fr_uid fr_intdate fr_rfc822 fr_rfc822_hdr fr_rfc822_text fr_rfc822_size fr_envelope fr_body fr_bodystruct fr_modseq fr_extras].
  apply any_bind; [by apply any_nznum|intros _]. apply any_bind; [apply any_static|intros _]. apply any_bind; [|intros sp1].
  { cbn [opt_item]. apply any_item, any_bind; [apply any_static|intros _]. apply any_bind; [|intros _; apply any_static].
    unfold fflags_skip_fill, flags_to_fflags. cbn [ff_answered ff_flagged ff_deleted ff_seen ff_draft ff_recent ff_keywords ff_extensions].
    do 6 (apply any_bind; [apply any_item, any_static|intros ?]). apply any_bind; [apply any_ret|intros ?].
    unfold skip_sp. apply any_bind; [apply any_ret|intros _; apply any_ret]. }
  apply any_bind; [|intros sp2].
  { destruct (Z.eqb_spec uid 0); [apply any_ret|]. by apply any_item, any_bind; [apply any_static|intros _; apply any_nznum]. }
  do 10 (apply any_bind; [apply any_ret|intros ?]). apply any_static.
Qed.

(** ** Gathering *)

Definition X g : list Z := keys (ot_list (expunges g)).

(** What the session owes its client while updates are gathered in [g]: the view is a part
    [lo] that the client knows and new messages [ln]; without the messages that are to be
    expunged it is what the mailbox was before the pending updates. *)
Record core (c : client) d g (mb : mbox) : Prop := mkCore {
  co_ok : ot_ok (d_views d);
  co_news : ot_ok (news g) /\ lsorted (ot_list (news g));
  co_metas : ot_ok (metas g) /\ lsorted (ot_list (metas g));
  co_exps : ot_ok (expunges g) /\ lsorted (ot_list (expunges g));
  co_split : exists lo ln, vlist d = lo ++ ln /\ keys ln = keys (ot_list (news g)) /\
    agrees (fun k => k ∈ keys (ot_list (metas g))) c lo;
  co_metas_in : forall k, k ∈ keys (ot_list (metas g)) -> k ∈ keys (vlist d);
  co_exps_in : forall k, k ∈ X g -> k ∈ keys (vlist d);
  co_sync : exists hi, mbox_ok (vlist d, hi) /\ update_all (ldels (X g) (vlist d), hi) (d_pending_updates d) = Some mb
}.

Lemma core_frame c d d' g mb : d_views d' = d_views d -> d_pending_updates d' = d_pending_updates d -> core c d g mb -> core c d' g mb.
Proof. intros Ev Ep [? ? ? ? Hs Hm Hx Hy]. unfold vlist in *. rewrite <- Ev in *. rewrite <- Ep in *. by constructor. Qed.

(** A new key at the end and one that is kept. *)
Lemma insert_end {V} k (v : V) (t : T V) :
  ot_ok t -> lsorted (ot_list t) -> (forall a, a ∈ keys (ot_list t) -> 1 <= a < k) -> k < UINT32_MAX ->
  exists t', ot_insert k v t = Ok t' /\ ot_ok t' /\ ot_list t' = ot_list t ++ [(k, v)].
Proof.
  intros Ho Hs Hk Hm. destruct (decide (1 <= k)) as [Hk1|Hk1].
  - pose proof (sorted_room (ot_list t) k Hs Hk Hk1). destruct (ot_insert_ok _ k v t Ho) as (t' & E & Ho' & El).
    { unfold MAX_NODES, UINT32_MAX in *. lia. }
    exists t'. split; [done|]. split; [done|]. rewrite El. apply linsert_last. intros a Ha. by apply Hk.
  - destruct (ot_list t) as [|[a w] l] eqn:El; [|specialize (Hk a ltac:(by left)); lia].
    destruct (ot_insert_ok _ k v t Ho) as (t' & E & Ho' & El'); [rewrite El; by vm_compute|].
    exists t'. split; [done|]. split; [done|]. by rewrite El', El.
Qed.
Lemma zlen_linsert {V} k (v : V) l : zlen (linsert k v l) = zlen l + 1.
Proof. induction l as [|[a b] l IH]; [done|]. cbn. destruct (k <=? a); rewrite !zlen_cons; [lia|]. rewrite IH. lia. Qed.
Lemma insert_new {V} k (v : V) (t : T V) :
  ot_ok t -> lsorted (ot_list t) -> k ∉ keys (ot_list t) -> (forall a, a ∈ keys (ot_list t) -> 1 <= a < UINT32_MAX) -> 1 <= k < UINT32_MAX ->
  exists t', ot_insert k v t = Ok t' /\ ot_ok t' /\ lsorted (ot_list t') /\ forall a, a ∈ keys (ot_list t') <-> a = k \/ a ∈ keys (ot_list t).
Proof.
  intros Ho Hs Hn Hk Hm. pose proof (lsorted_linsert k v _ Hs Hn) as Hs'.
  assert (zlen (linsert k v (ot_list t)) + 1 <= UINT32_MAX) as Hr.
  { apply sorted_room; [done| |by vm_compute]. intros a [->|Ha]%keys_linsert; [done|by apply Hk]. }
  destruct (ot_insert_ok _ k v t Ho) as (t' & E & Ho' & El).
  { rewrite zlen_linsert in Hr. unfold UINT32_MAX, MAX_NODES in *. lia. }
  exists t'. rewrite El. split; [done|]. split; [done|]. split; [done|]. intros a. apply keys_linsert.
Qed.

(** Messages that the client has been told of. *)
Definition old d g (k : Z) : Prop := k ∈ keys (vlist d) /\ k ∉ keys (ot_list (news g)).
(** Gathering changes the view and the pending updates only. *)
Record stays d g d' g' : Prop := {
  st_m : d_m d' = d_m d;
  st_store : d_store d' = d_store d;
  st_fetch : d_fetch d' = d_fetch d;
  st_old : forall k, old d g k -> old d' g' k
}.
Lemma stays_refl d g : stays d g d g.
Proof. by constructor. Qed.
Lemma stays_trans d1 g1 d2 g2 d3 g3 : stays d1 g1 d2 g2 -> stays d2 g2 d3 g3 -> stays d1 g1 d3 g3.
Proof. intros [A1 B1 C1 D1] [A2 B2 C2 D2]. constructor; [by etrans|by etrans|by etrans|auto]. Qed.
Lemma stays_frame d g d' g' e : d_m e = d_m d' -> d_store e = d_store d' -> d_fetch e = d_fetch d' -> d_views e = d_views d' ->
  stays d g d' g' -> stays d g e g'.
Proof. intros Em Es Ef Ev [A B C D]. constructor; [congruence|congruence|congruence|]. unfold old, vlist in *. by rewrite Ev. Qed.

Lemma vl_sorted hi d : mbox_ok (vlist d, hi) -> lsorted (vlist d).
Proof. intros Hm. apply Hm. Qed.

(** The next update [u], after expunges [K] that stay pending. *)
Lemma next_update c d g mb K u us :
  core c d g mb -> d_pending_updates d = K ++ u :: us -> Forall is_expunge K -> ~ is_expunge u ->
  exists hi mb1, mbox_ok (vlist d, hi) /\ update_mbox (ldels (X g) (vlist d), hi) u = Some mb1 /\ update_all mb1 (K ++ us) = Some mb.
Proof.
  intros Hc Ep HK Hu. destruct (co_sync _ _ _ _ Hc) as (hi & Hm & Hy). rewrite Ep in Hy. exists hi.
  apply put_off in Hy as (mb1 & E1 & E2); [by exists mb1| |done|unfold is_expunge in Hu; by destruct (u_arg u)].
  by apply mbox_ok_ldels.
Qed.

Lemma new_step c d g mb K u v us :
  core c d g mb -> d_pending_updates d = K ++ u :: us -> Forall is_expunge K -> u_arg u = UPDATE_NEW v ->
  exists g' d', gather_update_new g u v (set_pending (K ++ us) d) = (Ok g', d') /\ core c d' g' mb /\ stays d g d' g' /\
    d_pending_updates d' = K ++ us /\ X g' = X g.
Proof.
  intros Hc Ep HK Eu. destruct (next_update _ _ _ _ _ _ _ Hc Ep HK) as (hi & mb1 & Hm & E1 & E2); [unfold is_expunge; rewrite Eu; tauto|].
  unfold update_mbox in E1. rewrite Eu in E1. cbn [fst snd] in E1. destruct (_ && _) eqn:Eb; [|done]. injection E1 as <-. bool_to_prop.
  destruct Hc as [Hv [Hn1 Hn2] [Hm1 Hm2] [Hx1 Hx2] (lo & ln & El & En & Ha) Hmi Hxi Hy].
  assert (forall a, a ∈ keys (vlist d) -> 1 <= a <= hi) as Hr by (intros a Ha'; by apply (mb_key_range _ _ Hm)).
  assert (forall a, a ∈ keys (ot_list (news g)) -> a ∈ keys (vlist d)) as Hnv.
  { intros a Ha'. rewrite El, keys_app, En. set_solver. }
  destruct (insert_end (v_uid_dn v) tt (news g)) as (news' & E1 & Ho1 & L1); [done|done|intros a Ha'; specialize (Hr a (Hnv a Ha')); lia|done|].
  destruct (insert_end (v_uid_dn v) v (d_views d)) as (views' & E3 & Ho3 & L3); [done|by apply (vl_sorted hi)|intros a Ha'; specialize (Hr a Ha'); lia|done|].
  exists (mkGather news' (metas g) (expunges g) (updates_to_free g)), (free_updates [u] (set_views views' (set_pending (K ++ us) d))).
  split.
  { unfold gather_update_new, st_bind, st_lift, get, modify. cbn [d_views set_pending]. rewrite E1, E3. done. }
  change (ot_list (d_views d)) with (vlist d) in L3.
  assert (v_uid_dn v ∉ keys (vlist d)) as Hfresh by (intros Hin; specialize (Hr _ Hin); lia).
  split; [|split; [constructor; try done|by split]].
  - constructor; cbn [news metas expunges]; unfold vlist; cbn [d_views free_updates set_views d_pending_updates set_pending]; try done.
    + split; [done|]. rewrite L1. apply lsorted_snoc; [done|]. intros a Ha'. specialize (Hr a (Hnv a Ha')). lia.
    + rewrite L3, El. exists lo, (ln ++ [(v_uid_dn v, v)]). split; [by rewrite app_assoc|]. split; [by rewrite L1, !keys_app, En|done].
    + intros k Hk. rewrite L3, keys_app. specialize (Hmi k Hk). set_solver.
    + intros k Hk. rewrite L3, keys_app. specialize (Hxi k Hk). set_solver.
    + exists (v_uid_dn v). rewrite L3. split.
      * eapply (update_mbox_ok _ (mkUpdate None (UPDATE_NEW v))); [exact Hm|]. unfold update_mbox. cbn [u_arg fst snd].
        by rewrite (proj2 (Z.ltb_lt _ _)), (proj2 (Z.ltb_lt _ _)) by lia.
      * unfold X in *. cbn [expunges]. rewrite ldels_app, (ldels_notin _ [(v_uid_dn v, v)]); [done|].
        intros k Hk. cbn. intros Hkv%list_elem_of_singleton. subst k. by specialize (Hxi _ Hk).
  - intros k [Hk1 Hk2]. unfold old, vlist. cbn [d_views free_updates set_views news]. rewrite L3, L1, !keys_app. split; [set_solver|].
    intros [Hin|Hin]%elem_of_app; [done|]. cbn in Hin. apply list_elem_of_singleton in Hin. subst k. done.
Qed.

Lemma lset_app k (v : msg_view_t) l1 l2 : lset k v (l1 ++ l2) = lset k v l1 ++ lset k v l2.
Proof. apply fmap_app. Qed.

Lemma meta_insert g k :
  ot_ok (metas g) -> lsorted (ot_list (metas g)) -> (forall a, a ∈ keys (ot_list (metas g)) -> 1 <= a < UINT32_MAX) -> 1 <= k < UINT32_MAX ->
  exists ms, (match ot_find k (metas g) with None => ot_insert k tt (metas g) | Some _ => Ok (metas g) end) = Ok ms /\
    (ot_ok ms /\ lsorted (ot_list ms)) /\ forall a, a ∈ keys (ot_list ms) <-> a = k \/ a ∈ keys (ot_list (metas g)).
Proof.
  intros Hm1 Hm2 Hr Hk. rewrite (find_strict _ _ Hm1 Hm2). destruct (lfind k (ot_list (metas g))) as [[x i]|] eqn:Ef.
  - exists (metas g). split; [done|]. split; [done|]. intros a. apply lfind_inv in Ef as (l1 & l2 & E & _ & _).
    split; [by right|]. intros [->|?]; [|done]. rewrite E, keys_app. set_solver.
  - apply lfind_none in Ef. destruct (insert_new k tt (metas g)) as (ms & E & ? & ? & ?); [done..|]. by exists ms.
Qed.

Lemma meta_step c d g mb K u v us :
  core c d g mb -> d_pending_updates d = K ++ u :: us -> Forall is_expunge K -> u_arg u = UPDATE_META v ->
  exists g' d', gather_update_meta g u v (set_pending (K ++ us) d) = (Ok g', d') /\ core c d' g' mb /\ stays d g d' g' /\
    d_pending_updates d' = K ++ us /\ X g' = X g.
Proof.
  intros Hc Ep HK Eu. destruct (next_update _ _ _ _ _ _ _ Hc Ep HK) as (hi & mb1 & Hm & E1 & E2); [unfold is_expunge; rewrite Eu; tauto|].
  unfold update_mbox in E1. rewrite Eu in E1. cbn [fst snd] in E1. injection E1 as <-.
  destruct Hc as [Hv [Hn1 Hn2] [Hm1 Hm2] [Hx1 Hx2] (lo & ln & El & En & Ha) Hmi Hxi Hy].
  assert (forall a, a ∈ keys (vlist d) -> 1 <= a < UINT32_MAX) as Hr.
  { intros a Ha'. pose proof (mb_hi _ Hm). apply (mb_key_range _ _ Hm) in Ha'. cbn [snd] in *. lia. }
  unfold gather_update_meta, st_bind, st_lift, get, modify. cbn [d_views set_pending].
  destruct (erase_strict (v_uid_dn v) (d_views d) Hv (vl_sorted _ _ Hm)) as (t' & Ee & Ho' & Et). change (ot_list (d_views d)) with (vlist d) in Ee, Et.
  rewrite Ee. destruct (lfind (v_uid_dn v) (vlist d)) as [[w i]|] eqn:Ef; cbn [fmap option_fmap option_map fst].
  - apply lfind_inv in Ef as (l1 & l2 & E & _ & _). assert (v_uid_dn v ∈ keys (vlist d)) as Hin by (rewrite E, keys_app; set_solver).
    destruct (meta_insert g (v_uid_dn v)) as (ms & Em & Hms & Hmk); [done..|intros a Ha'; by apply Hr, Hmi|by apply Hr|].
    rewrite Em. cbn [d_views set_views]. pose proof (linsert_lset _ v _ (vl_sorted _ _ Hm) Hin) as Els.
    destruct (ot_insert_ok _ (v_uid_dn v) v t' Ho') as (t'' & E3 & Ho3 & L3).
    { rewrite Et, <- (zlen_linsert (v_uid_dn v) v), Els. unfold lset. unfold zlen. rewrite length_fmap.
      pose proof (sorted_room (vlist d) UINT32_MAX (vl_sorted _ _ Hm) Hr ltac:(by vm_compute)) as Hz. unfold zlen, UINT32_MAX, MAX_NODES in *. lia. }
    rewrite Et, Els in L3. rewrite E3. eexists _, _. split; [done|]. split; [|split; [constructor; try done|by split]].
    + constructor; cbn [news metas expunges]; unfold vlist; cbn [d_views free_updates set_views d_pending_updates set_pending]; try done.
      * exists (lset (v_uid_dn v) v lo), (lset (v_uid_dn v) v ln). rewrite L3, El, lset_app. split; [done|]. split; [by rewrite keys_lset|].
        eapply agrees_mono; [|by apply agrees_lset]. cbn. intros k _ Hk. apply Hmk. tauto.
      * intros k Hk. rewrite L3, keys_lset. apply Hmk in Hk as [->|Hk]; [done|by apply Hmi].
      * intros k Hk. rewrite L3, keys_lset. by apply Hxi.
      * exists hi. rewrite L3. split; [|by rewrite ldels_lset].
        eapply (update_mbox_ok _ (mkUpdate None (UPDATE_META v))); [exact Hm|]. done.
    + intros k [Hk1 Hk2]. unfold old, vlist. cbn [d_views free_updates set_views news]. by rewrite L3, keys_lset.
  - apply lfind_none in Ef. rewrite (ldel_notin _ _ Ef) in Et.
    eexists _, _. split; [done|]. split; [|split; [constructor; try done|by split]].
    + constructor; unfold vlist; cbn [d_views free_updates set_views d_pending_updates set_pending]; try done; rewrite ?Et; try done.
      * by exists lo, ln.
      * exists hi. split; [done|]. rewrite <- E2. cbn [fst snd]. rewrite lset_notin; [done|]. by intros [_ ?]%keys_ldels.
    + intros k [Hk1 Hk2]. unfold old, vlist. cbn [d_views free_updates set_views]. by rewrite Et.
Qed.

Lemma expunge_step c d g mb u e us :
  core c d g mb -> d_pending_updates d = u :: us -> u_arg u = UPDATE_EXPUNGE e ->
  exists g', (forall d, gather_update_expunge g u e d = (Ok g', d)) /\ core c (set_pending us d) g' mb /\ news g' = news g /\
    forall k, k ∈ X g' -> k = e_uid_dn e \/ k ∈ X g.
Proof.
  intros Hc Ep Eu. destruct Hc as [Hv Hn Hms [Hx1 Hx2] Hsp Hmi Hxi (hi & Hm & Hy)].
  rewrite Ep in Hy. cbn [update_all] in Hy. unfold update_mbox at 1 in Hy. rewrite Eu in Hy. cbn [fst snd] in Hy.
  case_decide as Hin; [|done]. apply keys_ldels in Hin as [Hnx Hin].
  assert (forall a, a ∈ keys (vlist d) -> 1 <= a < UINT32_MAX) as Hr.
  { intros a Ha'. pose proof (mb_hi _ Hm). apply (mb_key_range _ _ Hm) in Ha'. cbn [snd] in *. lia. }
  destruct (insert_new (e_uid_dn e) tt (expunges g)) as (xs & E & Ho & Hs & Hk); [done..|intros a Ha'; by apply Hr, Hxi|by apply Hr|].
  exists (mkGather (news g) (metas g) xs (updates_to_free g ++ [u])). split; [|split; [|split; [done|intros k; apply Hk]]].
  { intros d0. unfold gather_update_expunge, st_bind, st_lift. by rewrite E. }
  constructor; try done; unfold X; cbn [expunges].
  - intros k [->|Hk']%Hk; [done|]. by apply Hxi.
  - exists hi. split; [done|]. cbn [d_pending_updates set_pending]. rewrite <- Hy.
    rewrite (ldels_same _ (X g ++ [e_uid_dn e])); [by rewrite ldels_snoc|]. intros k. rewrite Hk. unfold X. set_solver.
Qed.

Definition is_sync (u : update_t) : Prop := match u_arg u with UPDATE_SYNC _ => True | _ => False end.

Lemma sync_step c d g mb K u st us :
  core c d g mb -> d_pending_updates d = K ++ u :: us -> Forall is_expunge K -> u_arg u = UPDATE_SYNC st ->
  core c (set_pending (K ++ us) d) g mb.
Proof.
  intros Hc Ep HK Eu. destruct (next_update _ _ _ _ _ _ _ Hc Ep HK) as (hi & mb1 & Hm & E1 & E2); [unfold is_expunge; rewrite Eu; tauto|].
  unfold update_mbox in E1. rewrite Eu in E1. injection E1 as <-. destruct Hc. constructor; try done. by exists hi.
Qed.

(** The messages that updates expunge. *)
Definition expunged (us : list update_t) : list Z := omap (fun u => match u_arg u with UPDATE_EXPUNGE e => Some (e_uid_dn e) | _ => None end) us.

(** Gathering keeps what is owed; it can only fail over a status response. *)
Definition gathered d g mb (c : client) (us : list update_t) (g' : gather_t T) d' : Prop :=
  core c d' g' mb /\ stays d g d' g' /\ forall k, k ∈ X g' -> k ∈ X g \/ k ∈ expunged us.
Lemma gather_loop_core a w c mb us : forall K d g,
  core c d g mb -> d_pending_updates d = K ++ us -> Forall is_expunge K -> (a = true -> K = []) ->
  ensures (gather_loop a w K us g) d (fun r d' => gathered d g mb c us r.1 d') /\
  (w = false -> Forall (fun u => ~ is_sync u) us -> exists g' d', gather_loop a w K us g d = (Ok (g', None), d') /\ (a = true -> d_pending_updates d' = [])).
Proof.
  induction us as [|u us IH]; intros K d g Hc Ep HK Ha.
  { rewrite app_nil_r in Ep. cbn [gather_loop]. destruct w; [done|]. split; [apply ensures_ret; split; [done|split; [apply stays_refl|by left]]|].
    intros _ _. exists g, d. split; [done|]. intros E. by rewrite Ep, Ha. }
  assert (forall (m : dm (gather_t T)) g' d', m (set_pending (K ++ us) d) = (Ok g', d') -> core c d' g' mb -> stays d g d' g' -> d_pending_updates d' = K ++ us ->
    (forall k, k ∈ X g' -> k ∈ X g \/ k ∈ expunged [u]) ->
    let run := do! _ := modify (set_pending (K ++ us)) in do! g := m in gather_loop a w K us g in
    ensures run d (fun r d' => gathered d g mb c (u :: us) r.1 d') /\
    (w = false -> Forall (fun u => ~ is_sync u) (u :: us) -> exists g' d', run d = (Ok (g', None), d') /\ (a = true -> d_pending_updates d' = []))) as Hgo.
  { intros m g' d' Em Hc' Hs' Ep' Hx'. destruct (IH K d' g' Hc' Ep' HK Ha) as [IH1 IH2]. split.
    - apply ensures_bind, ensures_modify, ensures_bind. unfold ensures at 1. rewrite Em. eapply ensures_mono; [exact IH1|].
      intros [g2 st] d2 (P1 & P2 & P3). split; [done|]. split; [by eapply stays_trans|]. intros k Hk.
      change (u :: us) with ([u] ++ us). unfold expunged in *. rewrite omap_app, elem_of_app. destruct (P3 k Hk) as [Hk2|?]; [|tauto].
      destruct (Hx' k Hk2); tauto.
    - intros Hw Hf. inversion Hf as [|? ? _ Hf']; subst. destruct (IH2 eq_refl Hf') as (g2 & d2 & E & Hp). exists g2, d2. split; [|done].
      unfold st_bind at 1, modify. unfold st_bind. by rewrite Em. }
  cbn [gather_loop]. destruct (u_arg u) as [v|v|e|st] eqn:Eu.
  - destruct (new_step _ _ _ _ _ _ _ _ Hc Ep HK Eu) as (g' & d' & E & Hc' & Hs' & Ep' & Ex). apply (Hgo _ _ _ E Hc' Hs' Ep').
    intros k Hk. left. by rewrite <- Ex.
  - destruct (meta_step _ _ _ _ _ _ _ _ Hc Ep HK Eu) as (g' & d' & E & Hc' & Hs' & Ep' & Ex). apply (Hgo _ _ _ E Hc' Hs' Ep').
    intros k Hk. left. by rewrite <- Ex.
  - destruct a.
    + rewrite (Ha eq_refl) in *. cbn [app] in *. destruct (expunge_step _ _ _ _ _ _ _ Hc Ep Eu) as (g' & E & Hc' & En & Hx).
      apply (Hgo (gather_update_expunge g u e) g' (set_pending us d) (E _) Hc'); [|done|].
      { constructor; try done. intros k. unfold old. by rewrite En. }
      intros k Hk. destruct (Hx k Hk) as [->|?]; [right|by left]. unfold expunged. cbn. rewrite Eu. by left.
    + destruct (IH (K ++ [u]) d g) as [IH1 IH2]; [done|by rewrite <- app_assoc|apply Forall_app; split; [done|]; repeat constructor; unfold is_expunge; by rewrite Eu|done|].
      split; [|intros Hw Hf; inversion Hf; subst; by apply IH2]. eapply ensures_mono; [exact IH1|]. intros r d' (P1 & P2 & P3).
      split; [done|]. split; [done|]. intros k Hk. destruct (P3 k Hk); [by left|right]. unfold expunged. cbn. rewrite Eu. by right.
  - destruct w; [|split; [done|]; intros _ Hf; inversion Hf as [|? ? Hu _]; subst; exfalso; apply Hu; unfold is_sync; by rewrite Eu].
    split; [|done]. apply ensures_bind, ensures_modify, ensures_bind, ensures_modify, ensures_ret. cbn [fst]. split; [|split; [by constructor|by left]].
    eapply core_frame; [| |by eapply (sync_step _ _ _ _ _ _ _ _ Hc Ep HK Eu)]; done.
Qed.

Lemma gather_core a w c d g mb : core c d g mb ->
  ensures (gather_updates_dont_send a w g) d (fun r d' => gathered d g mb c (d_pending_updates d) r.1 d') /\
  (w = false -> Forall (fun u => ~ is_sync u) (d_pending_updates d) ->
   exists g' d', gather_updates_dont_send a w g d = (Ok (g', None), d') /\ (a = true -> d_pending_updates d' = [])).
Proof. intros Hc. by apply (gather_loop_core a w c mb (d_pending_updates d) [] d g). Qed.

(** Nothing gathered. *)
Definition empty_gather g : Prop :=
  (ot_ok (news g) /\ ot_list (news g) = []) /\ (ot_ok (metas g) /\ ot_list (metas g) = []) /\ (ot_ok (expunges g) /\ ot_list (expunges g) = []).
Lemma prep_empty : empty_gather gather_prep.
Proof. split; [|split]; split; first [apply ot_init_ok|apply ot_init_list]. Qed.
Lemma empty_core c d g hi mb : empty_gather g -> ot_ok (d_views d) -> agrees (fun _ => False) c (vlist d) -> mbox_ok (vlist d, hi) ->
  update_all (vlist d, hi) (d_pending_updates d) = Some mb -> core c d g mb.
Proof.
  intros ((N1 & N2) & (M1 & M2) & (X1 & X2)) Ho Ha Hm Hy.
  constructor; unfold X; rewrite ?N2, ?M2, ?X2; try done; try (split; [done|constructor]); try (intros k Hk; by apply elem_of_nil in Hk).
  - exists (vlist d), []. rewrite app_nil_r. split; [done|]. split; [done|]. eapply agrees_mono; [|exact Ha]. done.
  - exists hi. split; [done|]. change (keys []) with (@nil Z). by rewrite ldels_nil.
Qed.
Lemma core_empty c d g mb : empty_gather g -> core c d g mb -> ot_ok (d_views d) /\ agrees (fun _ => False) c (vlist d) /\
  exists hi, mbox_ok (vlist d, hi) /\ update_all (vlist d, hi) (d_pending_updates d) = Some mb.
Proof.
  intros ((N1 & N2) & (M1 & M2) & (X1 & X2)) [Ho _ _ _ (lo & ln & El & En & Ha) _ _ (hi & Hm & Hy)]. split; [done|].
  unfold X in Hy. rewrite M2 in Ha. rewrite N2 in En. rewrite X2 in Hy. change (keys []) with (@nil Z) in *. rewrite ldels_nil in Hy.
  split; [|by exists hi]. destruct ln; [|done]. rewrite app_nil_r in El. rewrite El. eapply agrees_mono; [|exact Ha]. intros k _ Hk. by apply elem_of_nil in Hk.
Qed.
Lemma empty_old d g k : empty_gather g -> k ∈ keys (vlist d) -> old d g k.
Proof. intros ((_ & N2) & _) Hk. split; [done|]. rewrite N2. intros Hin. by apply elem_of_nil in Hin. Qed.

(** ** Reporting *)

Lemma send_writable r d : imap_resp_assert_writable (d_exts d) r = Ok r -> send_resp r d = (Ok [r], d).
Proof. intros E. unfold send_resp, st_bind, get, st_lift. by rewrite E. Qed.

Lemma view_seq_ok d hi k : ot_ok (d_views d) -> mbox_ok (vlist d, hi) -> k ∈ keys (vlist d) ->
  exists v l1 l2, vlist d = l1 ++ (k, v) :: l2 /\ ot_find k (d_views d) = Some (v, zlen l1) /\
    index_to_seq_num (zlen l1) = Ok (zlen l1 + 1) /\ view_seq k d = (Ok (v, zlen l1 + 1), d).
Proof.
  intros Ho Hm Hk. pose proof (find_strict k _ Ho (vl_sorted _ _ Hm)) as Ef. change (ot_list (d_views d)) with (vlist d) in Ef.
  destruct (lfind k (vlist d)) as [[v i]|] eqn:El; [|by apply lfind_none in El].
  apply lfind_inv in El as (l1 & l2 & E & -> & _). exists v, l1, l2. split; [done|]. split; [done|].
  assert (zlen (vlist d) <= hi) as Hz.
  { pose proof (mb_hi _ Hm) as Hh. cbn [snd] in Hh. pose proof (sorted_room (vlist d) (hi + 1) (vl_sorted _ _ Hm)) as Hr.
    enough (zlen (vlist d) + 1 <= hi + 1) by lia. apply Hr; [|lia]. intros a Ha. apply (mb_key_range _ _ Hm) in Ha. cbn [snd] in Ha. lia. }
  pose proof (mb_hi _ Hm) as Hh. cbn [snd] in Hh. pose proof (zlen_nonneg l1). pose proof (zlen_nonneg l2).
  rewrite E, zlen_app, zlen_cons in Hz.
  assert (index_to_seq_num (zlen l1) = Ok (zlen l1 + 1)) as Ei.
  { unfold index_to_seq_num. rewrite Z.geb_leb, (proj2 (Z.leb_gt _ _)) by lia. by rewrite u32_small by (unfold is_u32, UINT32_MAX in *; lia). }
  split; [done|]. unfold view_seq, st_bind, get, st_lift. rewrite Ef, Ei. done.
Qed.

Lemma send_flags_ok d l1 k v l2 uid : vlist d = l1 ++ (k, v) :: l2 -> uid = None \/ uid = Some k ->
  exists rs, send_flags_update (zlen l1 + 1) (v_flags v) uid d = (Ok rs, d) /\ reports (vlist d) rs [k].
Proof.
  intros E Hu. pose proof (zlen_nonneg l1). unfold send_flags_update. rewrite send_writable by (apply flags_writable; lia).
  eexists. split; [done|]. eapply reports_cons; [exact E|done|done| |constructor]. destruct Hu as [->| ->]; [by left|by right].
Qed.
Lemma uid_if_cases b k : uid_if b k = None \/ uid_if b k = Some k.
Proof. destruct b; [by right|by left]. Qed.

Section reporting.
Context (d : dn) (hi : Z) (Ho : ot_ok (d_views d)) (Hm : mbox_ok (vlist d, hi)).

Lemma send_meta_ok b kv : kv.1 ∈ keys (vlist d) -> exists rs, send_meta b kv d = (Ok rs, d) /\ reports (vlist d) rs [kv.1].
Proof.
  intros Hk. destruct (view_seq_ok d hi _ Ho Hm Hk) as (v & l1 & l2 & E & _ & _ & Ev).
  unfold send_meta. unfold st_bind at 1. rewrite Ev. exact (send_flags_ok d l1 _ v l2 _ E (uid_if_cases _ _)).
Qed.
Lemma send_metas_ok b kvs : (forall k, k ∈ keys kvs -> k ∈ keys (vlist d)) ->
  exists rs, send_each (send_meta b) kvs d = (Ok rs, d) /\ reports (vlist d) rs (keys kvs).
Proof.
  induction kvs as [|kv kvs IH]; intros Hk; [exists []; split; [done|constructor]|].
  destruct (send_meta_ok b kv) as (rs & E & R); [apply Hk; by left|]. destruct IH as (rs' & E' & R'); [intros k Hin; apply Hk; by right|].
  exists (rs ++ rs'). cbn [send_each]. unfold st_bind. rewrite E, E'. split; [done|]. exact (reports_app _ _ [kv.1] _ _ R R').
Qed.

(** What is sent about a message in the course of a STORE. *)
Lemma noexp_ok k : k ∈ keys (vlist d) -> exists rs, send_store_resp_noexp k d = (Ok rs, d) /\ reports (vlist d) rs [k].
Proof.
  intros Hk. destruct (view_seq_ok d hi _ Ho Hm Hk) as (v & l1 & l2 & E & _ & _ & Ev).
  unfold send_store_resp_noexp. unfold st_bind at 1. rewrite Ev. exact (send_flags_ok d l1 _ v l2 _ E (uid_if_cases _ _)).
Qed.
Lemma noupdate_ok k f : k ∈ keys (vlist d) ->
  exists rs R, send_store_resp_noupdate k f d = (Ok rs, d) /\ reports (vlist d) rs R /\ (forall j, j ∈ R -> j = k).
Proof.
  intros Hk. destruct (view_seq_ok d hi _ Ho Hm Hk) as (v & l1 & l2 & E & Ef & Ei & Ev).
  unfold send_store_resp_noupdate, st_bind at 1, get. rewrite Ef.
  destruct (msg_flags_eq f (v_flags v)), (s_silent (d_store d)); cbn [negb]; try (exists [], []; split; [done|split; [constructor|set_solver]]).
  unfold st_bind, st_lift. rewrite Ei. destruct (send_flags_ok d l1 k v l2 (uid_if (s_uid_mode (d_store d)) k) E (uid_if_cases _ _)) as (rs & Er & R).
  exists rs, [k]. split; [done|]. split; [done|]. set_solver.
Qed.
Lemma expupdate_ok k f : k ∈ keys (vlist d) ->
  exists rs R, send_store_resp_expupdate k f d = (Ok rs, d) /\ reports (vlist d) rs R /\ (forall j, j ∈ R -> j = k) /\
    (s_silent (d_store d) = false -> k ∈ R).
Proof.
  intros Hk. destruct (view_seq_ok d hi _ Ho Hm Hk) as (v & l1 & l2 & E & _ & _ & Ev).
  unfold send_store_resp_expupdate. unfold st_bind at 1. rewrite Ev. unfold st_bind, get.
  destruct (send_flags_ok d l1 k v l2 (uid_if (s_uid_mode (d_store d)) k) E (uid_if_cases _ _)) as (rs & Er & R).
  destruct (negb _), (s_silent (d_store d)); cbn [negb]; try (exists rs, [k]; split; [done|split; [done|split; set_solver]]).
  exists [], []. split; [done|]. split; [constructor|]. split; [set_solver|done].
Qed.

Lemma store_walk_ok exps : forall gath, (forall k, k ∈ keys exps \/ k ∈ keys gath -> k ∈ keys (vlist d)) ->
  exists rs R, store_walk exps gath d = (Ok rs, d) /\ reports (vlist d) rs R /\ (forall k, k ∈ R -> k ∈ keys exps \/ k ∈ keys gath) /\
    (s_silent (d_store d) = false -> forall k, k ∈ keys gath -> k ∈ R).
Proof.
  assert (forall (m1 m2 : dm resps) rs1 rs2 R1 R2, m1 d = (Ok rs1, d) -> m2 d = (Ok rs2, d) -> reports (vlist d) rs1 R1 -> reports (vlist d) rs2 R2 ->
    (do! rs := m1 in do! rs' := m2 in st_ret (rs ++ rs')) d = (Ok (rs1 ++ rs2), d) /\ reports (vlist d) (rs1 ++ rs2) (R1 ++ R2)) as Hseq.
  { intros m1 m2 rs1 rs2 R1 R2 E1 E2 P1 P2. unfold st_bind. rewrite E1, E2. split; [done|by apply reports_app]. }
  induction exps as [|[ek ef] exps IHe].
  - induction gath as [|[gk []] gath IHg]; intros Hk.
    { exists [], []. split; [done|]. split; [constructor|]. split; set_solver. }
    destruct (noexp_ok gk) as (rs1 & E1 & P1); [apply Hk; right; by left|].
    destruct IHg as (rs2 & R2 & E2 & P2 & Q2 & S2); [intros k [Hin|Hin]; apply Hk; [by left|right; by right]|].
    destruct (Hseq _ _ _ _ _ _ E1 E2 P1 P2) as [E P]. exists (rs1 ++ rs2), ([gk] ++ R2). split; [exact E|]. split; [exact P|].
    split; [|intros Hs k]; cbn [keys map fst]; change (map fst gath) with (keys gath); set_solver.
  - induction gath as [|[gk []] gath IHg]; intros Hk.
    { destruct (noupdate_ok ek ef) as (rs1 & R1 & E1 & P1 & Q1); [apply Hk; left; by left|].
      destruct (IHe []) as (rs2 & R2 & E2 & P2 & Q2 & S2); [intros k [Hin|Hin]; apply Hk; [left; by right|by right]|].
      destruct (Hseq _ _ _ _ _ _ E1 E2 P1 P2) as [E P]. exists (rs1 ++ rs2), (R1 ++ R2). split; [exact E|]. split; [exact P|].
      cbn [keys map fst]; change (map fst exps) with (keys exps). split; [set_solver|intros _ k Hin; by apply elem_of_nil in Hin]. }
    cbn [store_walk]. destruct (ek >? gk) eqn:Ec1; [|destruct (gk >? ek) eqn:Ec2].
    + destruct (noexp_ok gk) as (rs1 & E1 & P1); [apply Hk; right; by left|].
      destruct IHg as (rs2 & R2 & E2 & P2 & Q2 & S2); [intros k [Hin|Hin]; apply Hk; [by left|right; by right]|].
      destruct (Hseq _ _ _ _ _ _ E1 E2 P1 P2) as [E P]. exists (rs1 ++ rs2), ([gk] ++ R2). split; [exact E|]. split; [exact P|].
      split; [|intros Hs k]; cbn [keys map fst]; change (map fst gath) with (keys gath); set_solver.
    + destruct (noupdate_ok ek ef) as (rs1 & R1 & E1 & P1 & Q1); [apply Hk; left; by left|].
      destruct (IHe ((gk, tt) :: gath)) as (rs2 & R2 & E2 & P2 & Q2 & S2); [intros k [Hin|Hin]; apply Hk; [left; by right|by right]|].
      destruct (Hseq _ _ _ _ _ _ E1 E2 P1 P2) as [E P]. exists (rs1 ++ rs2), (R1 ++ R2). split; [exact E|]. split; [exact P|].
      split; [|intros Hs k Hin; apply elem_of_app; right; by apply S2]. cbn [keys map fst]; change (map fst exps) with (keys exps). set_solver.
    + assert (gk = ek) as -> by (rewrite Z.gtb_ltb in Ec1, Ec2; bool_to_prop; lia).
      destruct (expupdate_ok ek ef) as (rs1 & R1 & E1 & P1 & Q1 & S1); [apply Hk; left; by left|].
      destruct (IHe gath) as (rs2 & R2 & E2 & P2 & Q2 & S2); [intros k [Hin|Hin]; apply Hk; [left; by right|right; by right]|].
      destruct (Hseq _ _ _ _ _ _ E1 E2 P1 P2) as [E P]. exists (rs1 ++ rs2), (R1 ++ R2). split; [exact E|]. split; [exact P|].
      split; [|intros Hs k Hin]; cbn [keys map fst] in *; change (map fst exps) with (keys exps) in *; change (map fst gath) with (keys gath) in *; [set_solver|].
      apply elem_of_app. apply elem_of_cons in Hin as [->|Hin]; [left; by apply S1|right; by apply S2].
Qed.
End reporting.

Lemma visit_run {V} last back (t : T V) d : ot_ok t -> st_lift (ot_visit last back t) d = (Ok (visited last back (ot_list t)), d).
Proof. intros Ot. unfold st_lift. by rewrite ot_visit_ok. Qed.
Lemma lift_run {A} (m : res A) a d : m = Ok a -> st_lift m d = (Ok a, d).
Proof. by intros ->. Qed.
Lemma erase_keys_ok {V} ks : forall t : T V, ot_ok t -> lsorted (ot_list t) ->
  exists t', erase_keys ks t = Ok t' /\ ot_ok t' /\ lsorted (ot_list t') /\ forall a, a ∈ keys (ot_list t') <-> a ∈ keys (ot_list t) /\ a ∉ keys ks.
Proof.
  induction ks as [|[k []] ks IH]; intros t Ho Hs.
  { exists t. split; [done|]. split; [done|]. split; [done|]. intros a. cbn. set_solver. }
  destruct (erase_strict k t Ho Hs) as (t1 & E & Ho1 & El). destruct (IH t1 Ho1) as (t2 & E2 & Ho2 & Hs2 & Hk2); [rewrite El; by apply lsorted_ldel|].
  exists t2. cbn [erase_keys]. rewrite E. cbn [res_bind]. split; [done|]. split; [done|]. split; [done|]. intros a. rewrite Hk2, El, keys_ldel.
  cbn [keys map fst]. change (map fst ks) with (keys ks). set_solver.
Qed.

(** The EXPUNGE of a message. *)
Lemma recv_expunge strict P c lo ln l1 k v l2 : lsorted (lo ++ ln) -> lo ++ ln = l1 ++ (k, v) :: l2 -> agrees P c lo ->
  (strict = true -> k ∉ keys ln) ->
  exists c', recv1 strict c (IMAP_RESP_EXPUNGE (zlen l1 + 1)) = Some c' /\ agrees P c' (ldel k lo).
Proof.
  intros Hs E Ha Hst. pose proof (agrees_length _ _ _ Ha) as Hlen. pose proof (zlen_nonneg l1) as Hl1.
  cbn [recv1]. rewrite (proj2 (Z.leb_le 1 _)) by lia. cbn [andb]. destruct (decide (k ∈ keys lo)) as [Hin|Hin].
  - destruct (split_old _ _ _ _ _ _ Hs E Hin) as (l2' & -> & ->).
    assert (lsorted (l1 ++ (k, v) :: l2')) as Hs' by (by apply lsorted_app in Hs as (? & _)). rewrite ldel_split by done.
    rewrite zlen_app, zlen_cons in Hlen. pose proof (zlen_nonneg l2'). rewrite (proj2 (Z.leb_le _ _)) by lia.
    apply Forall2_app_inv_r in Ha as (c1 & c2' & Ha1 & Ha2 & ->). apply Forall2_cons_inv_r in Ha2 as (s & c2 & _ & Ha2 & ->).
    apply Forall2_length in Ha1 as Hl. exists (c1 ++ c2). split; [|by apply Forall2_app].
    f_equal. replace (Z.to_nat (zlen l1 + 1 - 1)) with (length c1) by (unfold zlen; lia). by rewrite delete_middle.
  - assert (k ∈ keys ln) as Hk.
    { assert (k ∈ keys (lo ++ ln)) as Hk by (rewrite E, keys_app; set_solver). rewrite keys_app in Hk. set_solver. }
    destruct (Z.leb_spec (zlen l1 + 1) (zlen c)) as [Hle|Hgt].
    + exfalso. apply Hin. apply (keys_in lo k v). apply (list_elem_of_lookup_2 _ (length l1)).
      rewrite <- (lookup_app_l lo ln) by (unfold zlen in *; lia). rewrite E. by apply list_lookup_middle.
    + destruct strict; [by destruct (Hst eq_refl Hk)|]. exists c. split; [done|]. by rewrite ldel_notin.
Qed.

Lemma send_expunged_ok d kv v (l1 : list (Z * msg_view_t)) views o :
  ot_find kv.1 (d_views d) = Some (v, zlen l1) -> index_to_seq_num (zlen l1) = Ok (zlen l1 + 1) -> ot_erase kv.1 (d_views d) = Ok (o, views) ->
  send_expunged kv d = (Ok [IMAP_RESP_EXPUNGE (zlen l1 + 1)], set_views views d).
Proof.
  intros Ef Ei Ee. unfold send_expunged, st_bind, get, st_lift, modify. rewrite Ef, Ee, Ei.
  apply send_writable, expunge_writable. pose proof (zlen_nonneg l1). lia.
Qed.
Lemma send_expunges strict P xs : forall d c lo ln hi,
  ot_ok (d_views d) -> vlist d = lo ++ ln -> mbox_ok (vlist d, hi) -> NoDup (keys xs) -> (forall k, k ∈ keys xs -> k ∈ keys (vlist d)) ->
  agrees P c lo -> (strict = true -> forall k, k ∈ keys xs -> k ∉ keys ln) ->
  exists rs views c', send_each send_expunged xs d = (Ok rs, set_views views d) /\ ot_ok views /\ ot_list views = ldels (keys xs) (vlist d) /\
    recv strict c rs = Some c' /\ agrees P c' (ldels (keys xs) lo).
Proof.
  induction xs as [|[x []] xs IH]; intros d c lo ln hi Ho El Hm Hnd Hin Ha Hst.
  { exists [], (d_views d), c. change (keys []) with (@nil Z). rewrite !ldels_nil. split; [by destruct d|]. done. }
  apply NoDup_cons in Hnd as [Hx Hnd].
  destruct (view_seq_ok d hi x Ho Hm) as (v & l1 & l2 & E & Ef & Ei & _); [apply Hin; by left|].
  pose proof (vl_sorted _ _ Hm) as Hs. destruct (erase_strict x (d_views d) Ho Hs) as (views & Ee & Ho' & Ev). change (ot_list (d_views d)) with (vlist d) in Ee, Ev.
  destruct (recv_expunge strict P c lo ln l1 x v l2) as (c1 & Er & Ha1); [by rewrite <- El|by rewrite <- El|done|intros ->; apply Hst; [done|by left]|].
  destruct (IH (set_views views d) c1 (ldel x lo) (ldel x ln) hi) as (rs & views' & c2 & E2 & Ho2 & Ev2 & Er2 & Ha2).
  - done.
  - unfold vlist. cbn [d_views set_views]. by rewrite Ev, El, ldel_app.
  - unfold vlist at 1. cbn [d_views set_views]. rewrite Ev. by apply mbox_ok_ldel.
  - done.
  - intros k Hk. unfold vlist. cbn [d_views set_views]. rewrite Ev, keys_ldel. split; [by intros ->|]. apply Hin. by right.
  - done.
  - intros Hst' k Hk [_ Hk']%keys_ldel. apply (Hst Hst' k); [by right|done].
  - change (keys ((x, tt) :: xs)) with (x :: keys xs).
    exists (IMAP_RESP_EXPUNGE (zlen l1 + 1) :: rs), views', c2.
    split; [|split; [done|split; [by rewrite Ev2; unfold vlist at 1; cbn [d_views set_views]; rewrite Ev, ldels_cons|split; [by cbn [recv]; rewrite Er|by rewrite <- ldels_cons]]]].
    cbn [send_each]. unfold st_bind. rewrite (send_expunged_ok d (x, tt) v l1 views _ Ef Ei Ee), E2. by destruct d.
Qed.

Lemma keys_reverse {V} (l : list (Z * V)) : keys (reverse l) = reverse (keys l).
Proof. unfold keys. change (map fst) with (@fmap list _ (Z * V) Z fst). apply fmap_reverse. Qed.
Lemma agrees_extend P c lo ln : agrees P c lo -> agrees P (c ++ replicate (length ln) unknown) (lo ++ ln).
Proof.
  intros Ha. apply Forall2_app; [done|]. induction ln as [|kv ln IH]; [constructor|]. constructor; [split; by intros|exact IH].
Qed.
Lemma agrees_unknown (P Q : Z -> Prop) c l : Forall (fun s => c_flags s = None) c -> agrees P c l -> agrees Q c l.
Proof.
  intros Hc Ha. induction Ha as [|s kv c l [Hu Hf] Ha IH]; [constructor|]. inversion Hc as [|? ? Hs Hc']; subst.
  constructor; [|by apply IH]. split; [done|]. intros f Ef. by rewrite Hs in Ef.
Qed.

(** The new number of messages. *)
Lemma send_exists_ok strict P c d hi lo ln : ot_ok (d_views d) -> mbox_ok (vlist d, hi) -> vlist d = lo ++ ln -> agrees P c lo ->
  exists rs c', send_exists_resp d = (Ok rs, d) /\ recv strict c rs = Some c' /\ agrees P c' (lo ++ ln).
Proof.
  intros Ho Hm E Ha. pose proof (agrees_length _ _ _ Ha) as Hl. pose proof (mb_hi _ Hm) as Hh. cbn [snd] in Hh.
  assert (zlen (vlist d) <= hi) as Hz.
  { enough (zlen (vlist d) + 1 <= hi + 1) by lia. apply sorted_room; [by apply (vl_sorted hi)| |lia].
    intros a Hin. apply (mb_key_range _ _ Hm) in Hin. cbn [snd] in Hin. lia. }
  pose proof (zlen_nonneg (vlist d)). unfold send_exists_resp, st_bind at 1, get. rewrite (ot_size_ok _ _ Ho). change (ot_list (d_views d)) with (vlist d).
  rewrite Z.gtb_ltb, (proj2 (Z.ltb_ge _ _)) by lia. rewrite u32_small by (unfold is_u32, UINT32_MAX in *; lia).
  rewrite send_writable by apply exists_writable. eexists _, _. split; [done|]. cbn [recv recv1].
  rewrite E, zlen_app, (proj2 (Z.ltb_ge _ _)) by (pose proof (zlen_nonneg ln); lia). split; [done|].
  replace (Z.to_nat (zlen lo + zlen ln - zlen c)) with (length ln) by (unfold zlen in *; lia). by apply agrees_extend.
Qed.

Lemma send_news_ok strict c d hi lo ln (news1 : T unit) : ot_ok (d_views d) -> mbox_ok (vlist d, hi) -> vlist d = lo ++ ln ->
  agrees (fun _ => False) c lo -> ot_ok news1 -> (forall k, k ∈ keys (ot_list news1) <-> k ∈ keys ln) ->
  exists rs c', (if negb (ot_size news1 =? 0) then send_exists_resp else st_ret []) d = (Ok rs, d) /\
    recv strict c rs = Some c' /\ agrees (fun _ => False) c' (lo ++ ln).
Proof.
  intros Ho Hm El Ha On Hk. rewrite (ot_size_ok _ _ On). destruct (Z.eqb_spec (zlen (ot_list news1)) 0) as [Ez|Ez]; cbn [negb].
  - apply zlen_0_nil in Ez. rewrite Ez in Hk. exists [], c. split; [done|]. split; [done|].
    destruct ln as [|[k v] ln]; [by rewrite app_nil_r|]. pose proof (proj2 (Hk k) ltac:(by left)) as Hn. by apply elem_of_nil in Hn.
  - by apply (send_exists_ok strict _ c d hi).
Qed.

(** What a STORE may assume of its expectations and of the client. *)
Definition store_ready c d g : Prop :=
  ot_ok (s_tree (d_store d)) /\ (forall k, k ∈ keys (ot_list (s_tree (d_store d))) -> old d g k) /\
  (s_silent (d_store d) = true -> Forall (fun s => c_flags s = None) c).

(** Steps 1 and 2: whose flags are reported. *)
Lemma split_gather c d g mb lo ln : core c d g mb -> vlist d = lo ++ ln -> keys ln = keys (ot_list (news g)) ->
  exists news1 metas1 metas2, erase_keys (ot_list (expunges g)) (news g) = Ok news1 /\ erase_keys (ot_list (expunges g)) (metas g) = Ok metas1 /\
    erase_keys (ot_list news1) metas1 = Ok metas2 /\ ot_ok news1 /\ ot_ok metas2 /\
    (forall k, k ∈ keys (ot_list news1) <-> k ∈ keys ln /\ k ∉ X g) /\
    (forall k, k ∈ keys (ot_list metas2) <-> k ∈ keys (ot_list (metas g)) /\ k ∉ X g /\ k ∉ keys ln).
Proof.
  intros [Hv [Hn1 Hn2] [Hm1 Hm2] _ _ _ _ _] El En.
  destruct (erase_keys_ok (ot_list (expunges g)) (news g) Hn1 Hn2) as (news1 & E1 & O1 & S1 & K1).
  destruct (erase_keys_ok (ot_list (expunges g)) (metas g) Hm1 Hm2) as (metas1 & E2 & O2 & S2 & K2).
  destruct (erase_keys_ok (ot_list news1) metas1 O2 S2) as (metas2 & E3 & O3 & S3 & K3).
  exists news1, metas1, metas2. do 5 (split; [done|]). split; [intros k; by rewrite K1, En|].
  intros k. rewrite K3, K2, K1, En. unfold X. destruct (decide (k ∈ keys (ot_list (expunges g)))); tauto.
Qed.

(** Step 3: the reports. *)
Lemma send_reports_ok c d g hi (fs um : bool) lo ln g1 : ot_ok (d_views d) -> mbox_ok (vlist d, hi) -> vlist d = lo ++ ln ->
  ot_ok (metas g1) -> (forall k, k ∈ keys (ot_list (metas g1)) -> k ∈ keys lo) ->
  keys ln = keys (ot_list (news g)) -> (fs = true -> store_ready c d g) ->
  exists rs R, (if fs then send_store_fetch_resps g1 else do! ms := st_lift (ot_visit false false (metas g1)) in send_each (send_meta um) ms) d = (Ok rs, d) /\
    reports (vlist d) rs R /\ (forall k, k ∈ R -> k ∈ keys lo) /\
    (fs && s_silent (d_store d) = false -> forall k, k ∈ keys (ot_list (metas g1)) -> k ∈ R).
Proof.
  intros Ho Hm El Om Hml En Hst.
  assert (forall k, k ∈ keys (ot_list (metas g1)) -> k ∈ keys (vlist d)) as Hmv.
  { intros k Hk. rewrite El, keys_app. apply elem_of_app. left. by apply Hml. }
  destruct fs.
  - destruct (Hst eq_refl) as (Ot & Hold & _).
    assert (forall k, k ∈ keys (ot_list (s_tree (d_store d))) -> k ∈ keys lo) as Htl.
    { intros k [Hk1 Hk2]%Hold. rewrite El, keys_app, En in Hk1. apply elem_of_app in Hk1 as [?|?]; done. }
    destruct (store_walk_ok d hi Ho Hm (ot_list (s_tree (d_store d))) (ot_list (metas g1))) as (rs & R & E & P & Q & S).
    { intros k [Hk|Hk]; [rewrite El, keys_app; apply elem_of_app; left; by apply Htl|by apply Hmv]. }
    exists rs, R. split; [|split; [done|split; [|done]]].
    + unfold send_store_fetch_resps, st_bind, get, st_lift. by rewrite !ot_visit_ok.
    + intros k Hk. apply Q in Hk as [Hk|Hk]; [by apply Htl|by apply Hml].
  - destruct (send_metas_ok d hi Ho Hm um (ot_list (metas g1)) Hmv) as (rs & E & P).
    exists rs, (keys (ot_list (metas g1))). split; [|done]. unfold st_bind, st_lift. by rewrite ot_visit_ok.
Qed.

Lemma respond_ok strict (fs um : bool) c d g mb : core c d g mb -> (fs = true -> store_ready c d g) ->
  (strict = true -> forall k, k ∈ X g -> k ∉ keys (ot_list (news g))) ->
  exists g' rs views c', gather_send_responses g um fs d = (Ok (g', rs), set_views views d) /\ recv strict c rs = Some c' /\
    ot_ok views /\ agrees (fun _ => False) c' (ot_list views) /\ ot_list views = ldels (X g) (vlist d) /\ updates_to_free g' = updates_to_free g.
Proof.
  intros Hc Hst Hstrict. pose proof Hc as [Ho _ _ [Ox Sx] (lo & ln & El & En & Ha) _ Hxi (hi & Hm & _)].
  destruct (split_gather _ _ _ _ _ _ Hc El En) as (news1 & metas1 & metas2 & E1 & E2 & E3 & O1 & O3 & K1 & K3).
  set (g1 := mkGather news1 metas2 (expunges g) (updates_to_free g)).
  destruct (send_reports_ok c d g hi fs um lo ln g1) as (rs3 & R & Er & P & QR & SR); try done.
  { cbn [metas g1]. intros k (Hk & _ & Hkn)%K3. apply (co_metas_in _ _ _ _ Hc) in Hk. rewrite El, keys_app in Hk. by apply elem_of_app in Hk as [?|?]. }
  assert (agrees (fun k => fs && s_silent (d_store d) = false /\ k ∈ keys (ot_list (metas g))) c lo) as Ha'.
  { destruct (fs && s_silent (d_store d)) eqn:Es; [|eapply agrees_mono; [|exact Ha]; by intros].
    apply andb_prop in Es as [-> Es]. destruct (Hst eq_refl) as (_ & _ & Hu). by eapply agrees_unknown; [apply Hu|exact Ha]. }
  destruct (recv_reports strict lo ln rs3 R) with (P := fun k => fs && s_silent (d_store d) = false /\ k ∈ keys (ot_list (metas g))) (c := c)
    as (c1 & Rc1 & Ha1); [rewrite <- El; by apply (vl_sorted hi)|by rewrite <- El|done|done|].
  assert (forall k, k ∈ keys (reverse (ot_list (expunges g))) <-> k ∈ X g) as Hrev by (intros k; by rewrite keys_reverse, elem_of_reverse).
  destruct (send_expunges strict (fun k => (fs && s_silent (d_store d) = false /\ k ∈ keys (ot_list (metas g))) /\ k ∉ R) (reverse (ot_list (expunges g))) d c1 lo ln hi Ho El Hm) with (3 := Ha1) as (rs4 & views & c2 & E4 & Ov & Lv & Rc2 & Ha2).
  { rewrite keys_reverse, reverse_Permutation. apply lt_nodup, Sx. }
  { intros k Hk%Hrev. by apply Hxi. }
  { intros Hs k Hk%Hrev. rewrite En. by apply Hstrict. }
  rewrite (ldels_same _ _ _ Hrev) in Lv. rewrite (ldels_same _ _ _ Hrev) in Ha2. rewrite El, ldels_app in Lv.
  assert (agrees (fun _ => False) c2 (ldels (X g) lo)) as Hd.
  { eapply agrees_mono; [|exact Ha2]. intros k [Hx Hk]%keys_ldels [[Es Hkm] HkR]. apply HkR, SR, K3; [done|]. split; [done|]. split; [done|]. intros Hkn.
       pose proof (vl_sorted _ _ Hm) as Hs. rewrite El in Hs. apply lsorted_app in Hs as (_ & _ & Hlt). specialize (Hlt k k Hk Hkn). lia. }
  destruct (send_news_ok strict c2 (set_views views d) hi (ldels (X g) lo) (ldels (X g) ln) news1) as (rs5 & c3 & E5 & Rc3 & Ha3); [done| | |exact Hd|done| |].
  { unfold vlist. cbn [d_views set_views]. rewrite Lv, <- ldels_app, <- El. by apply mbox_ok_ldels. }
  { unfold vlist. cbn [d_views set_views]. by rewrite Lv. }
  { intros k. rewrite K1, keys_ldels. tauto. }
  exists g1, (rs3 ++ rs4 ++ rs5), views, c3. split; [|split; [by rewrite recv_app, Rc1, recv_app, Rc2|split; [done|split; [by rewrite Lv|by rewrite Lv, El, ldels_app]]]].
  unfold gather_send_responses. rewrite (st_run _ _ _ _ _ (visit_run false false _ d Ox)). cbn [visited].
  rewrite (st_run _ _ _ _ d (lift_run _ _ d E1)). rewrite (st_run _ _ _ _ d (lift_run _ _ d E2)).
  rewrite (st_run _ _ _ _ _ (visit_run false false _ d O1)). cbn [visited]. rewrite (st_run _ _ _ _ d (lift_run _ _ d E3)).
  change (mkGather news1 metas2 (expunges g) (updates_to_free g)) with g1. cbv zeta. rewrite (st_run _ _ _ _ _ Er).
  rewrite (st_run _ _ _ _ _ (visit_run true true _ d Ox)). cbn [visited]. rewrite (st_run _ _ _ _ _ E4). rewrite (st_run _ _ _ _ _ E5). done.
Qed.

(** ** Sets of messages *)

(** The numbers that a set of a command names: uids between the first and the last of the
    view, or sequence numbers. *)
Definition named (uid_mode : bool) (l : list (Z * msg_view_t)) (set : ie_seq_set_t) : list Z :=
  match l with
  | [] => []
  | (first, _) :: _ => if uid_mode then seq_set_vals first (List.last (keys l) 0) set else seq_set_vals 1 (zlen l) set
  end.
Definition pick (uid_mode : bool) (l : list (Z * msg_view_t)) (i : Z) : option Z :=
  if uid_mode then (if decide (i ∈ keys l) then Some i else None) else fst <$> l !! Z.to_nat (i - 1).
Definition set_ok (uid_mode : bool) (l : list (Z * msg_view_t)) (set : ie_seq_set_t) : Prop :=
  Forall (fun p => 0 <= p.1 < 2 ^ 32 /\ 0 <= p.2 < 2 ^ 32) set /\ zlen (named uid_mode l set) < MAX_NODES.

Section canonical_uids.
Context (d : dn) (hi : Z) (Ho : ot_ok (d_views d)) (Hm : mbox_ok (vlist d, hi)).

Lemma vlist_small : zlen (vlist d) <= hi /\ hi < UINT32_MAX.
Proof.
  pose proof (mb_hi _ Hm) as Hh. cbn [snd] in Hh. split; [|lia].
  enough (zlen (vlist d) + 1 <= hi + 1) by lia. apply sorted_room; [by apply (vl_sorted hi)| |lia].
  intros a Hin. apply (mb_key_range _ _ Hm) in Hin. cbn [snd] in Hin. lia.
Qed.

Lemma picks um xs : forall ssb ws, holds ssb ws -> zlen xs + zlen ws < MAX_NODES ->
  (um = false -> forall i, i ∈ xs -> 1 <= i <= zlen (vlist d)) ->
  exists ssb', res_fold (canonical_body um (d_views d)) xs ssb = Ok ssb' /\ holds ssb' (reverse (omap (pick um (vlist d)) xs) ++ ws).
Proof.
  pose proof vlist_small as [Hz1 Hz2]. induction xs as [|x xs IH]; intros ssb ws Hh Hz Hx; [by exists ssb|].
  rewrite zlen_cons in Hz. pose proof (zlen_nonneg xs). pose proof (zlen_nonneg ws).
  assert (forall k, k ∈ keys (vlist d) -> 1 <= k < UINT32_MAX) as Hr.
  { intros k Hk. apply (mb_key_range _ _ Hm) in Hk. cbn [snd] in Hk. lia. }
  assert (match pick um (vlist d) x with
          | Some k => k ∈ keys (vlist d) /\ canonical_body um (d_views d) x ssb = seq_set_builder_add_val k ssb
          | None => canonical_body um (d_views d) x ssb = Ok ssb end) as Hp.
  { unfold pick, canonical_body. destruct um.
    - rewrite find_strict; [|done|by apply (vl_sorted hi)]. change (ot_list (d_views d)) with (vlist d).
      destruct (lfind x (vlist d)) as [[v i]|] eqn:Ef.
      + apply lfind_inv in Ef as (l1 & l2 & E & _ & _). assert ((x, v) ∈ vlist d) as Hin by (rewrite E; set_solver).
        rewrite decide_True by (by eapply keys_in). split; [by eapply keys_in|]. apply (mb_keys _ Hm) in Hin as [-> _]. done.
      + apply lfind_none in Ef. by rewrite decide_False.
    - specialize (Hx eq_refl x ltac:(by left)). rewrite u64_small by (unfold is_u64, UINT32_MAX in *; lia).
      rewrite ot_index_ok by (done || lia). change (ot_list (d_views d)) with (vlist d). cbn [res_bind].
      destruct (vlist d !! Z.to_nat (x - 1)) as [[k v]|] eqn:El; cbn [fmap option_fmap option_map fst].
      + apply list_elem_of_lookup_2 in El. split; [by eapply keys_in|]. apply (mb_keys _ Hm) in El as [-> _]. done.
      + apply lookup_ge_None in El. unfold zlen in *. lia. }
  destruct (pick um (vlist d) x) as [k|] eqn:Ep.
  - destruct Hp as [Hk Ec]. destruct (add_val_holds k ssb ws) as (s1 & E1 & Hh1); [done|by apply Hr|lia|].
    destruct (IH s1 (k :: ws)) as (s2 & E2 & Hh2); [done|rewrite zlen_cons; lia|intros Hu i Hi; apply Hx; [done|by right]|].
    exists s2. cbn [res_fold omap list_omap]. rewrite Ec, E1. cbn [res_bind]. rewrite Ep. split; [done|].
    by rewrite reverse_cons, <- app_assoc.
  - destruct (IH ssb ws) as (s2 & E2 & Hh2); [done|lia|intros Hu i Hi; apply Hx; [done|by right]|].
    exists s2. cbn [res_fold omap list_omap]. rewrite Hp. cbn [res_bind]. by rewrite Ep.
Qed.

Lemma last_key l k v : List.last (keys (l ++ [(k, v : msg_view_t)])) 0 = k.
Proof. rewrite keys_app. apply last_last. Qed.

(** Exactly the messages of the view that the set names, in order. *)
Lemma canonical_uids um set : set_ok um (vlist d) set ->
  exists r, seq_set_to_canonical_uids_dn um set d = (Ok r, d) /\
    match r with
    | Some uids => canonical uids /\ forall x, x ∈ seq_set_vals 0 0 uids <-> x ∈ omap (pick um (vlist d)) (named um (vlist d) set)
    | None => um = false /\ (vlist d = [] \/ existsb (too_large (zlen (vlist d))) set = true)
    end.
Proof.
  intros [Hset Hn]. pose proof vlist_small as [Hz1 Hz2]. unfold seq_set_to_canonical_uids_dn, st_bind at 1, get. rewrite (ot_size_ok _ _ Ho).
  change (ot_list (d_views d)) with (vlist d).
  destruct (Z.eqb_spec (zlen (vlist d)) 0) as [Ez|Ez].
  { apply zlen_0_nil in Ez. rewrite Ez. destruct um; (eexists; split; [done|]); [|by split; [|left]]. split; [split; constructor|done]. }
  assert (exists first v1 l1, vlist d = (first, v1) :: l1) as (first & v1 & l1 & El).
  { destruct (vlist d) as [|[a b] l]; [done|by eexists _, _, _]. }
  assert (exists l2 last v2, vlist d = l2 ++ [(last, v2)]) as (l2 & last & v2 & El2).
  { destruct (exists_last (l := vlist d)) as (l2 & [last v2] & E); [by rewrite El|]. by exists l2, last, v2. }
  pose (bounds := if um then (first, last) else (1, zlen (vlist d))).
  assert (named um (vlist d) set = seq_set_vals bounds.1 bounds.2 set) as En.
  { unfold named. rewrite El. rewrite <- El. unfold bounds. destruct um; [|done]. cbn [fst snd]. by rewrite El2, last_key. }
  assert (bounds_ok bounds.1 bounds.2 set) as Hb.
  { assert (forall k, k ∈ keys (vlist d) -> 1 <= k <= hi) as Hr by (intros k Hk; by apply (mb_key_range _ _ Hm) in Hk).
    assert (1 <= first <= hi) by (apply Hr; rewrite El; by left).
    assert (last ∈ keys (vlist d)) as Hin by (rewrite El2, keys_app; set_solver). pose proof (Hr _ Hin) as Hl.
    assert (first <= last) as Hfl.
    { rewrite El in Hin. pose proof (vl_sorted _ _ Hm) as Hs.
      rewrite El in Hs. apply lsorted_cons in Hs as [_ Hs]. apply elem_of_cons in Hin as [->|Hin]; [cbn; lia|]. specialize (Hs _ Hin). lia. }
    pose proof (zlen_nonneg (vlist d)). unfold bounds, bounds_ok, UINT32_MAX in *. destruct um; cbn [fst snd]; split_and!; try lia;
      (eapply Forall_impl; [exact Hset|]; cbn; intros p Hp; lia). }
  assert ((if um then
             do! l1 := st_lift (ot_visit false false (d_views d)) in
             do! l2 := st_lift (ot_visit true true (d_views d)) in
             match l1, l2 with
             | (_, first_view) :: _, (_, last_view) :: _ => st_ret (v_uid_dn first_view, v_uid_dn last_view)
             | _, _ => st_lift (Stop OutOfBounds)
             end
           else do! last := st_lift (index_to_seq_num (zlen (vlist d) - 1)) in st_ret (1, last)) d = (Ok bounds, d)) as Eb.
  { unfold bounds. destruct um.
    - rewrite (st_run _ _ _ _ _ (visit_run false false _ d Ho)), (st_run _ _ _ _ _ (visit_run true true _ d Ho)). cbn [visited].
      change (ot_list (d_views d)) with (vlist d). replace (reverse (vlist d)) with ((last, v2) :: reverse l2) by (by rewrite El2, reverse_app).
      rewrite El.
      destruct (mb_keys _ Hm first v1) as [-> _]; [cbn; rewrite El; by left|]. destruct (mb_keys _ Hm last v2) as [-> _]; [cbn; rewrite El2; set_solver|]. done.
    - pose proof (zlen_nonneg (vlist d)). unfold st_bind, st_lift, index_to_seq_num. rewrite Z.geb_leb, (proj2 (Z.leb_gt _ _)) by lia.
      rewrite u32_small by (unfold is_u32, UINT32_MAX in *; lia). replace (zlen (vlist d) - 1 + 1) with (zlen (vlist d)) by lia. done. }
  assert (um = false -> forall i, i ∈ named um (vlist d) set -> 1 <= i <= zlen (vlist d)) as Hi.
  { intros -> i Hi. rewrite En in Hi. apply seq_set_vals_bounds in Hi as (? & ? & ?); [|exact Hb]. unfold bounds in *. cbn [fst snd] in *. lia. }
  rewrite (st_run _ _ _ _ _ Eb). clearbody bounds. destruct bounds as [b1 b2]. cbn [fst snd] in *.
  destruct (negb um && existsb (too_large (zlen (vlist d))) set) eqn:Et.
  { apply andb_prop in Et as [Hu Et]. eexists. split; [done|]. split; [by apply negb_true_iff in Hu|by right]. }
  destruct (picks um (named um (vlist d) set) seq_set_builder_prep []) as (ssb & E & Hh); [apply prep_holds|change (zlen (@nil Z)) with 0; lia|done|].
  unfold st_bind at 1, st_lift.
  rewrite for_seq_set_fold by done. rewrite <- En, E. destruct (extract_holds _ _ Hh) as (uids & Ex & Hc & Hin).
  unfold st_bind. rewrite Ex. eexists. split; [done|]. split; [done|]. intros x. rewrite Hin, app_nil_r. apply elem_of_reverse.
Qed.
End canonical_uids.

(** A traversal of a canonical set only meets its members. *)
Definition trav_in (P : Z -> Prop) (t : ie_seq_set_trav_t) : Prop :=
  tr_min t = 0 /\ tr_max t = 0 /\ Forall (fun p => 1 <= p.1 /\ p.1 <= p.2 /\ p.2 < 2 ^ 32) (tr_ptr t) /\
  (forall x, x ∈ seq_set_vals 0 0 (tr_ptr t) -> P x) /\
  match tr_ptr t with [] => True | p :: _ => p.1 <= tr_i t <= tr_imax t /\ tr_imax t = p.2 end.
Definition next_in (P : Z -> Prop) (r : Z * ie_seq_set_trav_t) : Prop := trav_in P r.2 /\ (r.1 <> 0 -> P r.1).

Lemma seek_in P ptr i imax : Forall (fun p => 1 <= p.1 /\ p.1 <= p.2 /\ p.2 < 2 ^ 32) ptr -> (forall x, x ∈ seq_set_vals 0 0 ptr -> P x) ->
  next_in P (seek ptr i imax 0 0).
Proof.
  intros Hf Hp. destruct Hf as [|[n1 n2] ptr (H1' & H2' & H3') Hf]; [done|]. cbn [fst snd] in *. cbn [seek].
  rewrite (proj2 (Z.eqb_neq n1 0)), (proj2 (Z.eqb_neq n2 0)), Z.min_l, !Z.max_r by lia. rewrite (proj2 (Z.ltb_ge n2 0)) by lia. cbn [orb negb andb Z.eqb].
  rewrite Z.max_l by lia. split; cbn [fst snd].
  - do 2 (split; [done|]). cbn [tr_ptr tr_i tr_imax fst snd]. split; [by constructor|]. split; [done|]. lia.
  - intros _. apply Hp. cbn [seq_set_vals flat_map]. rewrite elem_of_app, range_vals_plain, elem_of_seqZ by (cbn; lia). left. cbn. lia.
Qed.
Lemma iter_in P set : canonical set -> (forall x, x ∈ seq_set_vals 0 0 set -> P x) -> next_in P (ie_seq_set_iter set 0 0).
Proof. intros [Hf _] Hp. by apply seek_in. Qed.
Lemma next_next_in P t : trav_in P t -> next_in P (ie_seq_set_next t).
Proof.
  destruct t as [ptr i imax mn mx]. intros (E1 & E2 & Hf & Hp & Hb). cbn [tr_min tr_max tr_ptr tr_i tr_imax] in *. subst mn mx.
  unfold ie_seq_set_next. cbn [tr_ptr tr_i tr_imax tr_min tr_max]. destruct ptr as [|[n1 n2] ptr]; [split; [done|done]|].
  inversion Hf as [|? ? (H1' & H2' & H3') Hf']; subst. cbn [fst snd] in *. destruct Hb as [Hb ->]. cbn [seq_set_vals flat_map] in Hp.
  setoid_rewrite elem_of_app in Hp. destruct (Z.eqb_spec i n2).
  - apply seek_in; [done|]. intros x Hx. apply Hp. by right.
  - rewrite u32_small by (unfold is_u32; lia). split; cbn [fst snd].
    + do 2 (split; [done|]). cbn [tr_ptr tr_i tr_imax fst snd]. split; [done|]. split; [|lia]. intros x Hx. apply Hp. by apply elem_of_app in Hx.
    + intros _. apply Hp. left. rewrite range_vals_plain, elem_of_seqZ by (cbn; lia). cbn. lia.
Qed.

(** Loops over a canonical set of messages of the view. *)
Lemma set_loop {S} d (body : Z -> S -> res S) set (I : S -> Prop) s :
  canonical set -> (forall x, x ∈ seq_set_vals 0 0 set -> x ∈ keys (vlist d)) -> I s ->
  (forall x s, x ∈ keys (vlist d) -> I s -> match body x s with Ok s => I s | Err _ => True | Stop _ => False end) ->
  match for_seq_set set 0 0 body s with Ok s => I s | Err _ => True | Stop _ => False end.
Proof.
  intros Hc Hin Hs Hb. rewrite for_seq_set_fold by (by apply canonical_bounds). revert s Hs.
  induction (seq_set_vals 0 0 set) as [|x xs IH]; intros s Hs; [done|]. cbn [res_fold].
  specialize (Hb x s (Hin x ltac:(by left)) Hs) as Hx. destruct (body x s) as [s'|e|y]; cbn; [|done..]. apply IH; [|done].
  intros y Hy. apply Hin. by right.
Qed.
Lemma ensures_set_loop {S} d (body : Z -> S -> res S) set (I : S -> Prop) s (Q : S -> dn -> Prop) :
  canonical set -> (forall x, x ∈ seq_set_vals 0 0 set -> x ∈ keys (vlist d)) -> I s ->
  (forall x s, x ∈ keys (vlist d) -> I s -> match body x s with Ok s => I s | Err _ => True | Stop _ => False end) ->
  (forall s, I s -> Q s d) -> ensures (st_lift (for_seq_set set 0 0 body s)) d Q.
Proof.
  intros Hc Hin Hs Hb Hq. pose proof (set_loop d body set I s Hc Hin Hs Hb) as Hl. unfold ensures, st_lift.
  destruct (for_seq_set set 0 0 body s); auto.
Qed.
End sessions.
