(* ===== verification/DnCommands.v ===== *)
(** * The commands of a session (libimaildir/dn.c)

    The invariant of a session and its client, and that every command, every delivery of the
    mailbox and every failure keeps it. *)

From stdpp Require Import sorting.
From S2P Require Import Prelude Dstr Msg ImapTypes ImapWrite OrdTree SeqSet ImapSearch Dn DnSync.

(** ** Sessions *)

(** What a session relies on: a mailbox is a list of messages, new sessions are given all
    of them, and a request that is accepted answers with updates that lead from the old
    messages to the new ones. *)
Class ImaildirLaws (M : Type) `{Imaildir M} := {
  mailbox : M -> mbox;
  mailbox_ok : forall m, mbox_ok (mailbox m);
  views_ok : forall m, match imaildir_dn_build_views m with
                       | (Ok (l, _, _), m') => mailbox m' = mailbox m /\ (fun v => (v_uid_dn v, v)) <$> l ≡ₚ (mailbox m).1
                       | (Err _, _) => True
                       | (Stop _, _) => False
                       end;
  request_ok : forall req m, match imaildir_dn_request_update req m with
                             | (Ok us, m') => update_all (mailbox m) us = Some (mailbox m')
                             | (Err _, _) => True
                             | (Stop _, _) => False
                             end
}.

Section commands.
Context `{OrdTreeLaws T} `{ImaildirLaws M} `{Imf} `{Alloc}.
Abbreviation dn := (dn_t T M).
Abbreviation dm := (stm dn).
Abbreviation resps := (list imap_resp_t).
Implicit Types d : dn.
Implicit Types g : gather_t T.
Implicit Types m : M.

(** A FETCH that can be answered for every message. *)
Definition fetchable (cmd : ie_fetch_cmd_t) : Prop :=
  forall m view seq uid force s, build_fetch_resp m cmd view seq uid force <> Stop s.

(** The state of the commands that run over several calls. *)
Record fetch_ok d : Prop := {
  fo_off : f_started (d_fetch d) = false -> f_synced (d_fetch d) = false /\ f_ready (d_fetch d) = false;
  fo_wait : f_ready (d_fetch d) = false -> empty_gather (f_gather (d_fetch d)) /\ f_iter_called (d_fetch d) = false;
  fo_ready : f_ready (d_fetch d) = true -> f_synced (d_fetch d) = true -> f_sync_processed (d_fetch d) = true;
  fo_run : f_started (d_fetch d) = true -> exists cmd, f_cmd (d_fetch d) = Some cmd /\ fetchable cmd /\
    if f_iter_called (d_fetch d) then trav_in (old d (f_gather (d_fetch d))) (f_trav (d_fetch d))
    else canonical (f_uids_dn (d_fetch d)) /\ forall x, x ∈ seq_set_vals 0 0 (f_uids_dn (d_fetch d)) -> old d (f_gather (d_fetch d)) x
}.
Definition store_ok (c : client) d : Prop :=
  if s_started (d_store d) then store_ready c d (f_gather (d_fetch d)) /\ f_started (d_fetch d) = false
  else ot_ok (s_tree (d_store d)) /\ ot_list (s_tree (d_store d)) = [].
Record live (c : client) d m : Prop := {
  lv_core : core c d (f_gather (d_fetch d)) (mailbox m);
  lv_store : store_ok c d;
  lv_fetch : fetch_ok d
}.
(** After a failure of the mailbox every command fails. *)
Definition inv (c : client) d : Prop := match d_m d with Some m => live c d m | None => True end.
(** No STORE and no FETCH is under way. *)
Definition idle d : Prop := s_started (d_store d) = false /\ f_started (d_fetch d) = false.

Lemma idle_empty c d m : idle d -> live c d m -> empty_gather (f_gather (d_fetch d)).
Proof. intros [_ Hf] [_ _ Ho]. apply (fo_wait _ Ho). by apply (fo_off _ Ho). Qed.

Lemma live_frame c d d' m : d_views d' = d_views d -> d_pending_updates d' = d_pending_updates d ->
  d_store d' = d_store d -> d_fetch d' = d_fetch d -> live c d m -> live c d' m.
Proof.
  intros Ev Ep Es Ef [Hc Hs Hf]. constructor.
  - rewrite Ef. by eapply core_frame.
  - unfold store_ok, store_ready, old, vlist in *. by rewrite Es, Ef, Ev.
  - destruct Hf as [F1 F2 F3 F4]. constructor; rewrite Ef; try done. unfold old, vlist in *. by rewrite Ev.
Qed.
Lemma inv_live c d m : d_m d = Some m -> inv c d -> live c d m.
Proof. unfold inv. by intros ->. Qed.
Lemma live_inv c d m : d_m d = Some m -> live c d m -> inv c d.
Proof. unfold inv. by intros ->. Qed.
Lemma served (c c' : client) rs d d' m : recv false c rs = Some c' -> live c' d m -> d_m d = Some m ->
  d_m d' = d_m d -> d_views d' = d_views d -> d_pending_updates d' = d_pending_updates d -> d_store d' = d_store d -> d_fetch d' = d_fetch d ->
  exists c', recv false c rs = Some c' /\ inv c' d'.
Proof.
  intros Er Hl Em Em' Ev Ep Es Ef. exists c'. split; [done|]. apply (live_inv _ _ m); [congruence|]. by eapply live_frame.
Qed.
Lemma live_view c d m : live c d m -> ot_ok (d_views d) /\ exists hi, mbox_ok (vlist d, hi).
Proof. intros [Hc _ _]. split; [apply Hc|]. destruct (co_sync _ _ _ _ Hc) as (hi & Hm & _). by exists hi. Qed.

(** An idle session after its view and the pending updates changed. *)
Lemma live_idle c c' d d' m m' : idle d -> live c d m -> d_store d' = d_store d -> d_fetch d' = d_fetch d ->
  core c' d' (f_gather (d_fetch d)) (mailbox m') -> live c' d' m'.
Proof.
  intros [Hs Hf] [_ Ls Lf] Es Ef Hc. constructor.
  - by rewrite Ef.
  - unfold store_ok in *. by rewrite Es, Hs in *.
  - destruct Lf as [F1 F2 F3 F4]. constructor; rewrite Ef; try done. by rewrite Hf.
Qed.

Definition serves {A} (out : A -> resps) (c : client) (prog : dm A) d : Prop :=
  ensures prog d (fun a d' => exists c', recv false c (out a) = Some c' /\ inv c' d').

(** Gathering and reporting in one go. *)
Lemma respond_core strict (fs um : bool) c d g mb : core c d g mb -> (fs = true -> store_ready c d g) ->
  (strict = true -> forall k, k ∈ X g -> k ∉ keys (ot_list (news g))) ->
  exists g' rs views c', gather_send_responses g um fs d = (Ok (g', rs), set_views views d) /\ recv strict c rs = Some c' /\
    (forall e, empty_gather e -> core c' (set_views views d) e mb) /\ ot_list views = ldels (X g) (vlist d) /\ updates_to_free g' = updates_to_free g.
Proof.
  intros Hc Hst Hstr. destruct (respond_ok strict fs um c d g mb Hc Hst Hstr) as (g' & rs & views & c' & E & Er & Ov & Ha & Lv & Ef).
  exists g', rs, views, c'. split; [done|]. split; [done|]. split; [|done]. intros e He. destruct (co_sync _ _ _ _ Hc) as (hi' & Hm & Hy).
  apply (empty_core _ _ _ hi'); [done|done|done| |]; unfold vlist at 1; cbn [d_views set_views]; rewrite Lv; [by apply mbox_ok_ldels|done].
Qed.

Lemma core_regather c d g g' mb : empty_gather g -> empty_gather g' -> core c d g mb -> core c d g' mb.
Proof. intros Hg Hg' Hc. destruct (core_empty _ _ _ _ Hg Hc) as (Ho & Ha & hi & Hm & Hy). by apply (empty_core _ _ _ hi). Qed.

(** The updates of the mailbox are taken in and reported. *)
Lemma gather_run strict a um w c d m :
  d_m d = Some m -> live c d m -> idle d -> (strict = true -> forall k, k ∈ expunged (d_pending_updates d) -> k ∈ keys (vlist d)) ->
  ensures (dn_gather_updates a um w) d (fun r d' => exists c', recv strict c r.2 = Some c' /\ live c' d' m /\ idle d' /\ d_m d' = Some m) /\
  (w = false -> Forall (fun u => ~ is_sync u) (d_pending_updates d) ->
   exists rs d', dn_gather_updates a um w d = (Ok (None, rs), d') /\ (a = true -> d_pending_updates d' = [])).
Proof.
  intros Em Hl Hi Hstr. pose proof (idle_empty _ _ _ Hi Hl) as He.
  pose proof (core_regather _ _ _ _ _ He prep_empty (lv_core _ _ _ Hl)) as Hc.
  destruct (gather_core a w c d gather_prep (mailbox m) Hc) as [G1 G2].
  assert (forall g1 st d1, gathered d gather_prep (mailbox m) c (d_pending_updates d) g1 d1 ->
    exists rs d2 c', (do! (g, rs) := on_fail (gather_send_responses g1 um false) (free_updates (updates_to_free g1)) in
      do! _ := gather_free g in st_ret (st : option ie_st_resp_t, rs)) d1 = (Ok (st, rs), d2) /\
      recv strict c rs = Some c' /\ live c' d2 m /\ idle d2 /\ d_m d2 = Some m /\ d_pending_updates d2 = d_pending_updates d1) as Hsend.
  { intros g1 st d1 (P1 & [S1 S2 S3 S4] & P3).
    destruct (respond_core strict false um c d1 g1 (mailbox m) P1) as (g2 & rs & views & c' & E & Er & Hc' & _ & Ef); [done| |].
    { intros Hs k Hk. destruct (P3 k Hk) as [Hx|Hx].
      - destruct prep_empty as (_ & _ & _ & X2). unfold X in Hx. rewrite X2 in Hx. by apply elem_of_nil in Hx.
      - by apply (S4 k), empty_old; [apply prep_empty|apply Hstr]. }
    exists rs, (free_updates (updates_to_free g2) (set_views views d1)), c'. split.
    - unfold st_bind, on_fail, gather_free, modify. by rewrite E.
    - split; [done|]. split; [|split; [unfold idle; cbn; by rewrite S2, S3|by cbn; rewrite S1]].
      apply (live_idle c c' d _ m m); [done|done|by cbn|by cbn|]. eapply core_frame; [| |by apply Hc']; done. }
  split.
  - unfold dn_gather_updates. apply ensures_bind, ensures_health. intros m' _. eapply ensures_step; [exact G1|].
    intros [g1 st] d1 Hg. destruct (Hsend g1 st d1 Hg) as (rs & d2 & c' & E & Er & Hl' & Hi' & Em' & _). unfold ensures. rewrite E. by exists c'.
  - intros Hw Hf. destruct (G2 Hw Hf) as (g1 & d1 & E & Ep). unfold ensures in G1. rewrite E in G1.
    destruct (Hsend g1 None d1 G1) as (rs & d2 & c' & E2 & _ & _ & _ & _ & Ep2). exists rs, d2. split; [|intros Ha; by rewrite Ep2, Ep].
    unfold dn_gather_updates. unfold st_bind at 1, healthcheck. rewrite Em. unfold st_bind at 1. rewrite E. exact E2.
Qed.

(** What the mailbox does to a session: updates are appended and a waiting command woken up. *)
Record delivered d d' : Prop := {
  dv_views : d_views d' = d_views d;
  dv_store : d_store d' = d_store d \/ d_store d' = set_s_synced (d_store d);
  dv_fetch : d_fetch d' = d_fetch d \/ f_started (d_fetch d) = true /\ d_fetch d' = set_f_synced (d_fetch d)
}.
Lemma delivered_refl d : delivered d d.
Proof. constructor; by (done || left). Qed.
Lemma delivered_trans d1 d2 d3 : delivered d1 d2 -> delivered d2 d3 -> delivered d1 d3.
Proof.
  intros [V1 S1 F1] [V2 S2 F2]. constructor; [congruence| |].
  - destruct S1 as [S1|S1], S2 as [S2|S2]; rewrite S1 in S2; [by left|by right|by right|by right].
  - destruct F1 as [F1|[F1' F1]], F2 as [F2|[F2' F2]]; rewrite F1 in F2; try rewrite F1 in F2'; [by left|by right|by right|by right].
Qed.
Lemma update_delivered u d : delivered d (dn_imaildir_update u d).
Proof.
  unfold dn_imaildir_update. cbv zeta. destruct (u_arg u) as [v|v|e|st];
    try (destruct (d_idle_tag _); constructor; cbn; by (done || left)).
  cbn [d_store d_expunge d_copy d_disconnect d_fetch set_pending].
  destruct (s_started (d_store d)) eqn:Es; [constructor; cbn; [done|by right|by left]|].
  destruct (x_started _); [constructor; cbn; by (done || left)|]. destruct (c_started _); [constructor; cbn; by (done || left)|].
  destruct (k_started _); [constructor; cbn; by (done || left)|].
  destruct (f_started (d_fetch d)) eqn:Ef; constructor; cbn; (done || (by left) || by right).
Qed.
Lemma update_pending u d : d_pending_updates (dn_imaildir_update u d) = d_pending_updates d ++ [u] /\ d_m (dn_imaildir_update u d) = d_m d.
Proof.
  unfold dn_imaildir_update. cbv zeta. destruct (u_arg u) as [v|v|e|st]; try (by destruct (d_idle_tag _)).
  repeat (case_match; try done).
Qed.
Lemma updates_delivered us : forall d, let d' := fold_left (fun d u => dn_imaildir_update u d) us d in
  delivered d d' /\ d_pending_updates d' = d_pending_updates d ++ us /\ d_m d' = d_m d.
Proof.
  induction us as [|u us IH]; intros d; cbn [fold_left]; [split; [apply delivered_refl|]; by rewrite app_nil_r|].
  destruct (IH (dn_imaildir_update u d)) as (D & Ep & Em). destruct (update_pending u d) as [Ep1 Em1].
  split; [eapply delivered_trans; [apply update_delivered|exact D]|]. by rewrite Ep, Ep1, <- app_assoc, Em, Em1.
Qed.

Lemma core_delivered c d d' g m m' us : delivered d d' -> d_pending_updates d' = d_pending_updates d ++ us ->
  update_all (mailbox m) us = Some (mailbox m') -> core c d g (mailbox m) -> core c d' g (mailbox m').
Proof.
  intros [Ev _ _] Ep Eu [? ? ? ? ? ? ? (hi & Hm & Hy)]. unfold vlist in *. rewrite <- Ev in *. constructor; try done.
  exists hi. split; [done|]. unfold vlist. by rewrite Ep, update_all_app, Hy.
Qed.
Lemma store_delivered c d d' g : delivered d d' -> store_ready c d g -> store_ready c d' g.
Proof. intros [Ev Es _]. unfold store_ready, old, vlist. rewrite Ev. by destruct Es as [->| ->]. Qed.

Lemma request_run req c d m g : d_m d = Some m -> core c d g (mailbox m) ->
  ensures (request_update req) d (fun _ d' => exists m', d_m d' = Some m' /\ core c d' g (mailbox m') /\ delivered d d').
Proof.
  intros Em Hc. unfold ensures, request_update. rewrite Em. pose proof (request_ok req m) as Hr.
  destruct (imaildir_dn_request_update req m) as [[us|e|s] m']; [|done..].
  destruct (updates_delivered us (set_m (Some m') d)) as (D & Ep & Em'). exists m'. split; [done|].
  assert (delivered d (fold_left (fun d u => dn_imaildir_update u d) us (set_m (Some m') d))) as D' by (destruct D; by constructor).
  split; [|done]. by eapply core_delivered.
Qed.

Lemma live_delivered c d d' m m' us : live c d m -> delivered d d' -> d_pending_updates d' = d_pending_updates d ++ us ->
  update_all (mailbox m) us = Some (mailbox m') -> f_ready (d_fetch d) = false \/ d_fetch d' = d_fetch d -> live c d' m'.
Proof.
  intros [Hc Hs Hf] D Ep Eu Hr.
  assert (f_gather (d_fetch d') = f_gather (d_fetch d) /\ f_started (d_fetch d') = f_started (d_fetch d)) as [Eg Est].
  { by destruct (dv_fetch _ _ D) as [->|[_ ->]]. }
  constructor.
  - rewrite Eg. by eapply core_delivered.
  - unfold store_ok in *. assert (s_started (d_store d') = s_started (d_store d) /\ s_tree (d_store d') = s_tree (d_store d)) as [-> ->].
    { by destruct (dv_store _ _ D) as [->| ->]. }
    destruct (s_started (d_store d)); [|done]. rewrite Eg, Est. destruct Hs as [Hs ?]. split; [|done]. by eapply store_delivered.
  - destruct Hf as [F1 F2 F3 F4]. assert (old d' (f_gather (d_fetch d')) = old d (f_gather (d_fetch d))) as Eo.
    { unfold old, vlist. by rewrite (dv_views _ _ D), Eg. }
    constructor; rewrite ?Eo; destruct (dv_fetch _ _ D) as [Ed|[Ef Ed]]; rewrite Ed in *; try done; cbn.
    + intros Hst. by rewrite Hst in Ef.
    + destruct Hr as [Hr|Hr]; [by rewrite Hr|]. intros Hrd _. apply F3; [done|]. by rewrite <- Hr.
Qed.

(** A request, when no other command is under way. *)
Lemma request_idle req c d m {A} (k : unit -> dm A) Q : d_m d = Some m -> live c d m -> f_ready (d_fetch d) = false ->
  (forall d' m', d_m d' = Some m' -> live c d' m' -> delivered d d' -> ensures (k tt) d' Q) -> ensures (st_bind (request_update req) k) d Q.
Proof.
  intros Em Hl Hr Hk. apply ensures_bind. unfold ensures at 1, request_update. rewrite Em. pose proof (request_ok req m) as Hq.
  destruct (imaildir_dn_request_update req m) as [[us|e|s] m']; [|done..].
  destruct (updates_delivered us (set_m (Some m') d)) as (D & Ep & Em').
  assert (delivered d (fold_left (fun d u => dn_imaildir_update u d) us (set_m (Some m') d))) as D' by (destruct D; by constructor).
  apply (Hk _ m'); [done| |done]. eapply live_delivered; [exact Hl|exact D'|exact Ep|done|by left].
Qed.
Lemma idle_ready c d m : idle d -> live c d m -> f_ready (d_fetch d) = false.
Proof. intros [_ Hf] [_ _ Ho]. by apply (fo_off _ Ho). Qed.
Lemma idle_delivered d d' : delivered d d' -> idle d -> idle d'.
Proof. intros [_ Es Ef] [Hs Hf]. unfold idle. destruct Es as [->| ->], Ef as [->|[_ ->]]; done. Qed.

Lemma gather_idle a um w c d m {A} (k : option ie_st_resp_t * resps -> dm A) Q : d_m d = Some m -> live c d m -> idle d ->
  (forall st rs d' c', recv false c rs = Some c' -> live c' d' m -> idle d' -> d_m d' = Some m -> ensures (k (st, rs)) d' Q) ->
  ensures (st_bind (dn_gather_updates a um w) k) d Q.
Proof.
  intros Em Hl Hi Hk. destruct (gather_run false a um w c d m Em Hl Hi) as [G _]; [done|]. eapply ensures_step; [exact G|].
  intros [st rs] d' (c' & Er & Hl' & Hi' & Em'). by apply (Hk st rs d' c').
Qed.

(** The end of a command: responses that are not about messages. *)
Definition quiet (r : imap_resp_t) : Prop := forall strict c, recv1 strict c r = Some c.
Lemma send_idle r d {A} (k : resps -> dm A) Q : ensures (k [r]) d Q -> ensures (st_bind (send_resp r) k) d Q.
Proof. intros Hk. apply ensures_bind, ensures_send, Hk. Qed.

Lemma recv_quiet c c' rs r : recv false c rs = Some c' -> quiet r -> recv false c (rs ++ [r]) = Some c'.
Proof. intros E Hq. rewrite recv_app, E. cbn [recv]. by rewrite Hq. Qed.

(** A set of messages of the view. *)
Lemma pick_in um (l : list (Z * msg_view_t)) (xs : list Z) x : x ∈ omap (pick um l) xs -> x ∈ keys l.
Proof.
  intros (i & _ & Hp)%list_elem_of_omap. unfold pick in Hp. destruct um; [by case_decide; simplify_eq|].
  destruct (l !! Z.to_nat (i - 1)) as [[k v]|] eqn:E; [|done]. injection Hp as <-. apply list_elem_of_lookup_2 in E. by eapply keys_in.
Qed.
Lemma canonical_idle um set c d m {A} (k : option ie_seq_set_t -> dm A) Q : live c d m -> set_ok um (vlist d) set ->
  ensures (k None) d Q -> (forall uids, canonical uids -> (forall x, x ∈ seq_set_vals 0 0 uids -> x ∈ keys (vlist d)) -> ensures (k (Some uids)) d Q) ->
  ensures (st_bind (seq_set_to_canonical_uids_dn um set) k) d Q.
Proof.
  intros Hl Hs Hn Hk. destruct (live_view _ _ _ Hl) as (Ho & hi & Hm). destruct (canonical_uids d hi Ho Hm um set Hs) as (r & E & Hr).
  unfold ensures. rewrite (st_run _ _ _ _ _ E). destruct r as [uids|]; [|exact Hn]. destruct Hr as [Hc Hin]. apply Hk; [done|].
  intros x Hx. by eapply pick_in, Hin.
Qed.
Lemma keys_idle uids d {A} (k : list msg_key_t -> dm A) Q : canonical uids -> (forall x, x ∈ seq_set_vals 0 0 uids -> x ∈ keys (vlist d)) ->
  (forall ks, ensures (k ks) d Q) -> ensures (st_bind (uids_dn_to_msg_keys uids) k) d Q.
Proof.
  intros Hc Hin Hk. apply ensures_bind. unfold uids_dn_to_msg_keys. apply ensures_bind, ensures_get.
  apply (ensures_set_loop d _ _ (fun _ => True)); auto. intros x s _ _. unfold key_body. by destruct (ot_find x (d_views d)) as [[]|].
Qed.

(** ** The commands *)

Lemma serves_health {A} (out : A -> resps) c d (k : unit -> dm A) : inv c d ->
  (forall m, d_m d = Some m -> live c d m -> serves out c (k tt) d) -> serves out c (st_bind healthcheck k) d.
Proof. intros Hi Hk. apply ensures_bind, ensures_health. intros m Em. apply (Hk m Em). by apply inv_live. Qed.
Lemma serves_wait {A} (out : A -> resps) c d a : inv c d -> out a = [] -> serves out c (st_ret a) d.
Proof. intros Hi E. apply ensures_ret. exists c. by rewrite E. Qed.
Lemma quiet_status tag status code text : quiet (IMAP_RESP_STATUS_TYPE tag status code text).
Proof. done. Qed.

(** The end of a command: the responses were taken in, and only fields that the client does
    not see have changed. *)
Ltac served Hl := cbn [fst snd]; eapply served; [first [eassumption|by eapply recv_quiet|done]|exact Hl|eassumption|done..].

Lemma search_serves tag um key c d : inv c d -> idle d ->
  (forall view seq seq_max uid_max hdrs imf s, search_key_eval imf_parse_date key view seq seq_max uid_max hdrs imf <> Stop s) ->
  serves (fun rs => rs) c (dn_search tag um key) d.
Proof.
  intros Hv Hi Hk. unfold dn_search. apply serves_health; [done|]. intros m Em Hl. destruct (live_view _ _ _ Hl) as (Ho & hi & Hm).
  apply ensures_bind, ensures_get. rewrite (ot_size_ok _ _ Ho). change (ot_list (d_views d)) with (vlist d).
  destruct (Z.eqb_spec (zlen (vlist d)) 0) as [Ez|Ez].
  { apply ensures_send. served Hl. }
  apply ensures_bind, ensures_lift; [unfold index_to_seq_num; by destruct (_ >=? _)|]. intros seq_max _.
  assert (forall uid_max nodes seq nums, forall s, search_loop m key um seq_max uid_max nodes seq nums <> Stop s) as Hloop.
  { induction nodes as [|[k v] nodes IH]; intros seq nums s; [done|]. cbn [search_loop].
    destruct (search_key_eval _ key v _ _ _ _ _) as [b|e|x] eqn:E; cbn [res_bind]; [apply IH|done|by apply Hk in E]. }
  apply ensures_bind. unfold dn_search_loop. apply ensures_bind, ensures_get, ensures_bind. unfold ensures at 1, the_m. rewrite Em.
  apply ensures_bind; eapply ensures_lift_ok; [by apply ot_visit_ok|]. cbn [visited]. change (ot_list (d_views d)) with (vlist d).
  destruct (reverse (vlist d)) as [|[k v] nodes] eqn:El.
  { apply (f_equal reverse) in El. rewrite reverse_involutive in El. by rewrite El in Ez. }
  apply ensures_lift; [intros x; apply Hloop|]. intros nums _. apply send_idle. apply (gather_idle _ _ _ c d m); [done..|].
  intros st rs d' c' Er Hl' Hi' Em'. apply send_idle, ensures_ret. served Hl'.
Qed.

Lemma copy_serves tag um set mbx c d : inv c d -> idle d -> set_ok um (vlist d) set -> serves snd c (dn_copy tag um set mbx) d.
Proof.
  intros Hv Hi Hset. unfold dn_copy. apply serves_health; [done|]. intros m Em Hl. apply ensures_bind, ensures_get.
  destruct (c_started (d_copy d)); cbn [negb].
  - destruct (c_synced (d_copy d)); cbn [negb]; [|by apply serves_wait]. apply ensures_bind. unfold copy_finish.
    apply ensures_bind, ensures_get. apply (gather_idle _ _ _ c d m); [done..|]. intros st rs d' c' Er Hl' Hi' Em'.
    unfold finish_st_resp. destruct st as [st|]; apply send_idle, ensures_ret, ensures_bind, ensures_modify, ensures_ret; served Hl'.
  - unfold copy_begin. apply (canonical_idle _ _ c d m); [done..| |].
    { apply send_idle, ensures_ret. served Hl. }
    intros [|p uids] Hc Hin.
    + apply (gather_idle _ _ _ c d m); [done..|]. intros st rs d' c' Er Hl' Hi' Em'. apply send_idle, ensures_ret. served Hl'.
    + apply keys_idle; [done..|]. intros ks. apply ensures_bind, ensures_modify. eapply (request_idle _ c _ m); [done| |exact (idle_ready c d m Hi Hl)|].
      { eapply live_frame; [..|exact Hl]; done. }
      intros d' m' Em' Hl' _. apply ensures_ret. served Hl'.
Qed.

Lemma expunge_serves tag c d : inv c d -> idle d -> serves snd c (dn_expunge tag) d.
Proof.
  intros Hv Hi. unfold dn_expunge. apply serves_health; [done|]. intros m Em Hl. destruct (live_view _ _ _ Hl) as (Ho & hi & Hm).
  apply ensures_bind, ensures_get. destruct (x_started (d_expunge d)); cbn [negb].
  - destruct (x_synced (d_expunge d)); cbn [negb]; [|by apply serves_wait]. apply ensures_bind. unfold expunge_finish.
    apply (gather_idle _ _ _ c d m); [done..|]. intros st rs d' c' Er Hl' Hi' Em'. apply ensures_bind, ensures_get.
    unfold finish_st_resp. destruct st as [st|]; apply send_idle, ensures_ret, ensures_bind, ensures_modify, ensures_ret; served Hl'.
  - unfold expunge_begin. apply ensures_bind, ensures_get. destruct (d_examine d); [apply send_idle, ensures_ret; served Hl|].
    apply ensures_bind. unfold get_msg_keys_to_expunge. apply ensures_bind, ensures_get, ensures_bind.
    eapply ensures_lift_ok; [by apply ot_visit_ok|]. apply ensures_ret. destruct (fold_left _ _ _) as [|key ks].
    + apply (gather_idle _ _ _ c d m); [done..|]. intros st rs d' c' Er Hl' Hi' Em'. apply send_idle, ensures_ret. served Hl'.
    + apply ensures_bind, ensures_modify. eapply (request_idle _ c _ m); [done| |exact (idle_ready c d m Hi Hl)|].
      { eapply live_frame; [..|exact Hl]; done. }
      intros d' m' Em' Hl' _. apply ensures_ret. served Hl'.
Qed.

Lemma idle_serves tag c d : inv c d -> idle d -> serves (fun rs => rs) c (dn_idle tag) d.
Proof.
  intros Hv Hi. unfold dn_idle. apply serves_health; [done|]. intros m Em Hl. apply ensures_bind, ensures_modify, ensures_on_fail.
  eapply (gather_idle _ _ _ c _ m); [done|eapply live_frame; [..|exact Hl]; done|done|]. intros st rs d' c' Er Hl' Hi' Em'.
  apply send_idle, ensures_ret. served Hl'.
Qed.
Lemma idle_done_serves errmsg c d : inv c d -> idle d -> serves (fun rs => rs) c (dn_idle_done errmsg) d.
Proof.
  intros Hv Hi. unfold dn_idle_done. apply serves_health; [done|]. intros m Em Hl. apply ensures_bind, ensures_get.
  destruct (d_idle_tag d) as [tag|]; [|done]. apply ensures_on_fail, ensures_bind. destruct errmsg as [errmsg|].
  - apply ensures_send, ensures_bind, ensures_modify, ensures_ret. served Hl.
  - apply (gather_idle _ _ _ c d m); [done..|]. intros st rs d' c' Er Hl' Hi' Em'.
    apply send_idle, ensures_ret, ensures_bind, ensures_modify, ensures_ret. served Hl'.
Qed.

(** A session that is being left takes the status responses out of the pending updates. *)
Lemma take_syncs_ok us : forall kept st d mb mb', d_pending_updates d = kept ++ us -> update_all mb (kept ++ us) = Some mb' ->
  exists st' d', take_syncs us kept st d = (Ok st', d') /\ d_m d' = d_m d /\ d_views d' = d_views d /\ d_store d' = d_store d /\ d_fetch d' = d_fetch d /\
    update_all mb (d_pending_updates d') = Some mb'.
Proof.
  induction us as [|u us IH]; intros kept st d mb mb' Ep Eu; [exists st, d; by rewrite Ep|]. cbn [take_syncs].
  assert (d_pending_updates d = (kept ++ [u]) ++ us /\ update_all mb ((kept ++ [u]) ++ us) = Some mb') as [Ep' Eu'] by (by rewrite <- app_assoc).
  destruct (u_arg u) as [v|v|e|sy] eqn:Ea; [by apply (IH _ _ _ mb)..|].
  unfold st_bind, modify. destruct (IH kept sy (free_updates [u] (set_pending (kept ++ us) d)) mb mb') as (st' & d' & E & ?).
  - done.
  - rewrite update_all_app in Eu |- *. destruct (update_all mb kept) as [mb1|]; [|done]. cbn [update_all] in Eu. unfold update_mbox in Eu. by rewrite Ea in Eu.
  - exists st', d'. split; [exact E|]. done.
Qed.
Lemma disconnect_serves expunge c d : inv c d -> idle d -> serves (fun _ => []) c (dn_disconnect expunge) d.
Proof.
  intros Hv Hi. unfold dn_disconnect. apply serves_health; [done|]. intros m Em Hl. destruct (live_view _ _ _ Hl) as (Ho & hi & Hm).
  apply ensures_bind, ensures_get. destruct (k_started (d_disconnect d)); cbn [negb].
  - destruct (k_synced (d_disconnect d)); cbn [negb]; [|by apply serves_wait]. apply ensures_bind. unfold disconnect_finish.
    apply ensures_bind, ensures_get. destruct (core_empty _ _ _ _ (idle_empty _ _ _ Hi Hl) (lv_core _ _ _ Hl)) as (_ & Ha & hi' & Hm' & Hy).
    destruct (take_syncs_ok (d_pending_updates d) [] None d (vlist d, hi') (mailbox m)) as (st & d' & E & E1 & E2 & E3 & E4 & Hy'); [done..|].
    apply ensures_bind. unfold ensures at 1. rewrite E. destruct st as [st|]; [done|]. apply ensures_ret, ensures_bind, ensures_modify, ensures_ret.
    exists c. split; [done|]. apply (live_inv _ _ m); [cbn; congruence|]. apply (live_idle c c d _ m m); [done|done|done|done|].
    apply (empty_core _ _ _ hi'); [by apply (idle_empty c d m)|by cbn; rewrite E2|..]; unfold vlist; cbn; rewrite E2; done.
  - unfold disconnect_begin. destruct expunge; cbn [negb]; [|by apply serves_wait].
    apply ensures_bind. unfold get_msg_keys_to_expunge. apply ensures_bind, ensures_get, ensures_bind.
    eapply ensures_lift_ok; [by apply ot_visit_ok|]. apply ensures_ret. destruct (fold_left _ _ _) as [|key ks]; [by apply serves_wait|].
    apply ensures_bind, ensures_modify. eapply (request_idle _ c _ m); [done| |exact (idle_ready c d m Hi Hl)|].
    { eapply live_frame; [..|exact Hl]; done. }
    intros d' m' Em' Hl' _. apply ensures_ret. served Hl'.
Qed.


(** *** STORE *)

(** A client that asked for a silent STORE knows that it does not know the flags any more. *)
Definition forget (c : client) : client := map (fun s => mkSlot (c_uid s) None) c.
Lemma forget_unknown c : Forall (fun s => c_flags s = None) (forget c).
Proof. induction c; by constructor. Qed.
Lemma agrees_forget P c l : agrees P c l -> agrees P (forget c) l.
Proof. induction 1 as [|s kv c l [Hu _] _ IH]; [constructor|]. constructor; [|exact IH]. by split. Qed.
Lemma core_forget c d g mb : core c d g mb -> core (forget c) d g mb.
Proof. intros [? ? ? ? (lo & ln & El & En & Ha) ? ? ?]. constructor; try done. exists lo, ln. split; [done|]. split; [done|]. by apply agrees_forget. Qed.
Definition store_off d : Prop := s_started (d_store d) = false /\ ot_ok (s_tree (d_store d)) /\ ot_list (s_tree (d_store d)) = [].
Lemma live_off c d m : idle d -> live c d m -> store_off d.
Proof. intros [Hs _] [_ Ho _]. unfold store_ok in Ho. rewrite Hs in Ho. by split. Qed.
Lemma live_forget c d m (b : bool) : idle d -> live c d m -> live (if b then forget c else c) d m.
Proof.
  intros Hi Hl. destruct b; [|done]. pose proof (live_off _ _ _ Hi Hl) as (E & Hs). destruct Hl as [Hc _ Hf].
  constructor; [by apply core_forget| |done]. unfold store_ok. by rewrite E.
Qed.

(** The expected flags. *)
Lemma exp_tree d hi sign flags xs : ot_ok (d_views d) -> mbox_ok (vlist d, hi) -> forall tree : T msg_flags_t,
  StronglySorted Z.lt xs -> (forall x, x ∈ xs -> x ∈ keys (vlist d)) -> ot_ok tree -> lsorted (ot_list tree) ->
  (forall a, a ∈ keys (ot_list tree) -> a ∈ keys (vlist d) /\ forall x, x ∈ xs -> a < x) ->
  match res_fold (exp_flags_body (d_views d) sign flags) xs tree with
  | Ok t => ot_ok t /\ forall k, k ∈ keys (ot_list t) -> k ∈ keys (vlist d)
  | Err _ => True
  | Stop _ => False
  end.
Proof.
  intros Ho Hm. assert (forall k, k ∈ keys (vlist d) -> 1 <= k < UINT32_MAX) as Hr.
  { intros k Hk. pose proof (mb_hi _ Hm). apply (mb_key_range _ _ Hm) in Hk. cbn [snd] in *. lia. }
  induction xs as [|x xs IH]; intros tree Hs Hin Ot St Hk; [split; [done|]; intros k Hkk; by apply Hk|].
  inversion Hs as [|? ? Hs' Hlt]; subst. rewrite Forall_forall in Hlt. cbn [res_fold]. unfold exp_flags_body at 1.
  destruct (ot_find x (d_views d)) as [[view i]|]; [|done].
  destruct (new_flags sign (v_flags view) flags) as [fl|e|s] eqn:Ef; cbn [res_bind]; [|done|unfold new_flags in Ef; by repeat case_match].
  destruct (insert_end x fl tree Ot St) as (t' & E & Ot' & El).
  { intros a Ha. apply Hk in Ha as [Ha Hx]. specialize (Hx x ltac:(by left)). apply Hr in Ha. lia. }
  { apply (Hr x). apply Hin. by left. }
  rewrite E. cbn [res_bind]. apply IH; [done|intros y Hy; apply Hin; by right|done| |]; rewrite El.
  - apply lsorted_snoc; [done|]. intros a Ha. apply Hk in Ha as [_ Hx]. apply Hx. by left.
  - intros a Ha. rewrite keys_app in Ha. apply elem_of_app in Ha as [Ha|Ha%list_elem_of_singleton].
    + apply Hk in Ha as [Ha Hx]. split; [done|]. intros y Hy. apply Hx. by right.
    + subst a. split; [apply Hin; by left|]. intros y Hy. by apply Hlt.
Qed.

Lemma store_begin_serves tag store c d : inv c d -> idle d -> set_ok (st_uid_mode store) (vlist d) (st_seq_set store) ->
  forall m, d_m d = Some m -> serves snd (if st_silent store then forget c else c) (store_begin tag store) d.
Proof.
  intros Hv Hi Hset m Em. pose proof (inv_live _ _ _ Em Hv) as Hl0. pose proof (live_forget c d m (st_silent store) Hi Hl0) as Hl.
  assert (st_silent store = true -> Forall (fun s => c_flags s = None) (if st_silent store then forget c else c)) as Hun.
  { intros ->. apply forget_unknown. }
  set (c0 := if st_silent store then forget c else c) in *. clearbody c0. clear Hl0 Hv c.
  destruct (live_view _ _ _ Hl) as (Ho & hi & Hm). unfold store_begin. apply ensures_bind, ensures_get.
  destruct (d_examine d); [apply send_idle, ensures_ret; served Hl|].
  apply (canonical_idle _ _ c0 d m); [done..| |].
  { apply send_idle, ensures_ret. served Hl. }
  intros [|p uids] Hc Hin.
  - apply (gather_idle _ _ _ c0 d m); [done..|]. intros st rs d' c' Er Hl' Hi' Em'. apply send_idle, ensures_ret. served Hl'.
  - apply ensures_bind, ensures_modify. set (d1 := set_store _ d).
    apply keys_idle; [done..|]. intros ks. apply ensures_bind, ensures_get, ensures_bind.
    destruct (live_off _ _ _ Hi Hl) as (_ & Ot & Et).
    pose proof (exp_tree d hi (st_sign store) (msg_flags_from_flags (st_flags store)) (seq_set_vals 0 0 (p :: uids)) Ho Hm (s_tree (d_store d))) as Htree.
    rewrite <- for_seq_set_fold in Htree by (by apply canonical_bounds). unfold ensures at 1, st_lift.
    change (d_views d1) with (d_views d). change (s_tree (d_store d1)) with (s_tree (d_store d)).
    assert (lsorted (ot_list (s_tree (d_store d)))) as Hst by (rewrite Et; apply lsorted_nil).
    specialize (Htree (canonical_sorted _ Hc) Hin Ot Hst).
    destruct (for_seq_set _ _ _ _ _) as [tree|e|s]; [|done|apply Htree; rewrite Et; intros a Ha; by apply elem_of_nil in Ha].
    destruct Htree as [Ot' Hk]; [rewrite Et; intros a Ha; by apply elem_of_nil in Ha|].
    apply ensures_bind, ensures_modify. cbn [d_store set_store d1 s_started s_synced s_uid_mode s_silent s_tag].
    pose proof (idle_empty _ _ _ Hi Hl) as He. destruct Hi as [_ Hi]. destruct Hl as [Lc _ Lf].
    eapply (request_idle _ c0 _ m); [done| |by apply (fo_off _ Lf)|].
    { constructor; [eapply core_frame; [| |exact Lc]; done| |by destruct Lf].
      unfold store_ok. cbn. split; [|done]. split; [done|]. split; [|done]. intros k Hkk. apply empty_old; [done|]. by apply Hk. }
    intros d' m' Em' Hl' _. apply ensures_ret. served Hl'.
Qed.

Lemma store_finish_serves c d m : d_m d = Some m -> live c d m -> s_started (d_store d) = true ->
  ensures store_finish d (fun rs d' => exists c', recv false c rs = Some c' /\ live c' (dn_free_store d') m /\ d_m d' = Some m).
Proof.
  intros Em Hl Es. destruct Hl as [Lc Ls Lf]. unfold store_ok in Ls. rewrite Es in Ls. destruct Ls as [Hst Hf].
  assert (empty_gather (f_gather (d_fetch d))) as He by (apply (fo_wait _ Lf), (fo_off _ Lf), Hf).
  pose proof (core_regather _ _ _ _ _ He prep_empty Lc) as Hc.
  assert (store_ready c d gather_prep) as Hst'.
  { destruct Hst as (? & Hold & ?). split; [done|]. split; [|done]. intros k Hk. apply empty_old; [apply prep_empty|]. by apply Hold. }
  unfold store_finish. apply ensures_bind, ensures_get.
  destruct (gather_core (s_uid_mode (d_store d)) true c d gather_prep (mailbox m) Hc) as [G1 _]. eapply ensures_step; [exact G1|].
  intros [g1 st] d1 (P1 & [S1 S2 S3 S4] & _). cbn [fst] in P1, S4. apply ensures_on_fail.
  destruct (respond_core false true (s_uid_mode (d_store d)) c d1 g1 (mailbox m) P1) as (g2 & rs & views & c' & E & Er & Hc' & _); [|done|].
  { intros _. destruct Hst' as (? & Hold & ?). unfold store_ready. rewrite S2. split; [done|]. split; [|done]. intros k Hk. by apply S4, Hold. }
  apply ensures_bind. unfold ensures at 1. rewrite E.
  assert (forall r, quiet r -> ensures (do! r2 := send_resp r in do! _ := gather_free g2 in st_ret (rs ++ r2)) (set_views views d1)
    (fun rs d' => exists c', recv false c rs = Some c' /\ live c' (dn_free_store d') m /\ d_m d' = Some m)) as Hfin.
  { intros r Hr. apply send_idle, ensures_bind, ensures_modify, ensures_ret. exists c'. split; [by apply recv_quiet|]. split; [|by cbn; rewrite S1].
    constructor.
    - eapply core_frame; [| |apply Hc']; [done|done|]. cbn. by rewrite S3.
    - unfold store_ok. cbn. split; [apply ot_init_ok|apply ot_init_list].
    - destruct Lf as [F1 F2 F3 F4]. constructor; cbn; rewrite S3; try done. by rewrite Hf. }
  destruct st as [st|]; by apply Hfin.
Qed.

(** An error of store_begin is only overlooked when the mailbox is gone. *)
Lemma store_serves tag store c d : inv c d -> f_started (d_fetch d) = false ->
  (s_started (d_store d) = false -> set_ok (st_uid_mode store) (vlist d) (st_seq_set store) /\ forall e d', store_begin tag store d = (Err e, d') -> d_m d' = None) ->
  serves snd (if negb (s_started (d_store d)) && st_silent store then forget c else c) (dn_store tag store) d.
Proof.
  intros Hv Hf Hb. unfold dn_store. apply ensures_bind, ensures_health. intros m Em. pose proof (inv_live _ _ _ Em Hv) as Hl.
  apply ensures_bind, ensures_get. destruct (s_started (d_store d)) eqn:Es; cbn [negb andb].
  - destruct (s_synced (d_store d)); cbn [negb]; [|by apply serves_wait].
    eapply ensures_step; [by apply (store_finish_serves c d m)|]. intros rs d' (c' & Er & Hl' & Em').
    apply ensures_bind, ensures_modify, ensures_ret. exists c'. split; [done|]. by apply (live_inv _ _ m).
  - destruct (Hb eq_refl) as [Hset Herr]. pose proof (store_begin_serves tag store c d Hv (conj Es Hf) Hset m Em) as Hs.
    unfold serves, ensures in *. destruct (store_begin tag store d) as [[[ok rs]|e|s] d']; [done| |done].
    eexists. split; [done|]. unfold inv. by rewrite (Herr e d').
Qed.

(** *** FETCH *)

Lemma build_fetch_fields m cmd view seq uid force f missing : build_fetch_resp m cmd view seq uid force = Ok (f, missing) ->
  fr_seq_num f = seq /\ (fr_uid f = 0 \/ fr_uid f = uid) /\
  fr_flags f = if at_flags (fe_attr cmd) || force then Some (flags_to_fflags (v_flags view)) else None.
Proof.
  unfold build_fetch_resp. cbv zeta. intros E.
  repeat match type of E with
  | res_bind ?x _ = _ => destruct x as [?| |]; cbn [res_bind] in E; [|done..]
  | context [let '(_, _) := ?p in _] => destruct p
  end.
  injection E as <- _. cbn. split; [done|]. split; [destruct (_ || _); [by right|by left]|done].
Qed.

(** The response for one message: its flags are in it if they were to be reported. *)
Lemma fetch_one c d g mb k : core c d g mb -> old d g k ->
  exists node ms view i, ot_erase k (metas g) = Ok (node, ms) /\ view_seq k d = (Ok (view, i), d) /\
    forall f, fr_seq_num f = i -> (fr_uid f = 0 \/ fr_uid f = k) ->
      (fr_flags f = None /\ node = None \/ fr_flags f = Some (flags_to_fflags (v_flags view))) ->
      exists c', recv false c [IMAP_RESP_FETCH f] = Some c' /\ core c' d (mkGather (news g) ms (expunges g) (updates_to_free g)) mb.
Proof.
  intros [Ho Hn [Om Sm] Hx (lo & ln & El & En & Ha) Hmi Hxi (hi & Hm & Hy)] [Hk Hkn].
  destruct (view_seq_ok d hi k Ho Hm Hk) as (v & l1 & l2 & E & _ & _ & Ev). destruct (erase_strict k (metas g) Om Sm) as (ms & Ee & Om' & Em').
  eexists _, ms, v, _. split; [exact Ee|]. split; [exact Ev|]. intros f Hi Hu Hf.
  assert (k ∈ keys lo) as Hlo by (rewrite El, keys_app, En in Hk; by apply elem_of_app in Hk as [?|?]).
  pose proof (vl_sorted _ _ Hm) as Hs. rewrite El in Hs, E. destruct (split_old _ _ _ _ _ _ Hs E Hlo) as (l2' & Eo & _).
  rewrite Eo in Ha. destruct (recv_fetch false _ c l1 k v l2' f Ha Hi Hu) as (c1 & s & s' & c2 & -> & Hl & Er & Hu' & Hf').
  { by destruct Hf as [[Hf _]|Hf]; [left|right]. }
  exists (c1 ++ s' :: c2). cbn [recv]. rewrite Er. split; [done|].
  assert (forall j, j <> k -> j ∈ keys (ot_list (metas g)) -> j ∈ keys (ot_list ms)) as Hkeep.
  { intros j Hj Hin. by rewrite Em', keys_ldel. }
  constructor; cbn [news metas expunges]; try done.
  - split; [done|]. rewrite Em'. by apply lsorted_ldel.
  - exists lo, ln. split; [done|]. split; [done|]. rewrite Eo. apply lsorted_app in Hs as (Hs & _). rewrite Eo in Hs.
    apply lsorted_notin in Hs as [Hn1 Hn2]. apply Forall2_app_inv in Ha as [Ha1 Ha2]; [|done]. inversion Ha2 as [|? ? ? ? Hs1 Ha2']; subst.
    apply Forall2_app; [|constructor].
    + eapply agrees_mono; [|exact Ha1]. intros j Hj. apply Hkeep. by intros ->.
    + eapply agree1_learn; [exact Hs1|exact Hu'|]. destruct Hf as [[Hf Hnode]|Hf]; rewrite Hf in Hf'; [right|by left]. split; [done|].
      intros Hin. exfalso. destruct (lfind k (ot_list (metas g))) as [[]|] eqn:Ef; [done|]. by apply lfind_none in Ef.
    + eapply agrees_mono; [|exact Ha2']. intros j Hj. apply Hkeep. by intros ->.
  - intros j. rewrite Em', keys_ldel. intros [_ Hj]. by apply Hmi.
  - by exists hi.
Qed.

(** After the last response the command is over. *)
Lemma free_fetch_live c d m : store_off d -> (forall e, empty_gather e -> core c d e (mailbox m)) -> live c (dn_free_fetch d) m.
Proof.
  intros (Es & Hs) Hc. constructor.
  - eapply core_frame; [| |apply (Hc gather_prep prep_empty)]; done.
  - unfold store_ok. cbn. by rewrite Es.
  - constructor; cbn; try done. intros _. split; [apply prep_empty|done].
Qed.
Lemma fetch_send_idle um c d m {A} (k : resps -> dm A) Q : d_m d = Some m -> core c d (f_gather (d_fetch d)) (mailbox m) -> store_off d ->
  (forall rs d' c', recv false c rs = Some c' -> live c' (dn_free_fetch d') m -> d_m d' = Some m -> store_off d' -> ensures (k rs) d' Q) ->
  ensures (st_bind (fetch_send um) k) d Q.
Proof.
  intros Em Hc Hs Hk. destruct (respond_core false false um c d _ _ Hc) as (g' & rs & views & c' & E & Er & Hc' & _); [done..|].
  apply ensures_bind. unfold fetch_send. apply ensures_bind, ensures_get, ensures_bind. unfold ensures at 1. rewrite E.
  apply ensures_bind, ensures_modify, ensures_ret. apply (Hk _ _ c'); try done. apply free_fetch_live; [done|].
  intros e He. eapply core_frame; [| |by apply Hc']; done.
Qed.

(** What a step of the command leaves behind. *)
Definition fetched (c : client) (r : bool * resps) d : Prop :=
  exists c' m, recv false c r.2 = Some c' /\ d_m d = Some m /\ store_off d /\ live c' (if r.1 then dn_free_fetch d else d) m.
Lemma fetched_send c c' rs r d m : recv false c rs = Some c' -> quiet r -> d_m d = Some m -> store_off d -> live c' (dn_free_fetch d) m ->
  ensures (do! r2 := send_resp r in st_ret (true, rs ++ r2)) d (fetched c).
Proof. intros Er Hr Em Hs Hl. apply send_idle, ensures_ret. exists c', m. split; [by apply recv_quiet|done]. Qed.

Lemma fetch_gather_idle a w c d m {A} (k : option ie_st_resp_t -> dm A) Q : d_m d = Some m -> live c d m -> store_off d ->
  f_started (d_fetch d) = true -> f_ready (d_fetch d) = false -> (f_synced (d_fetch d) = true -> f_sync_processed (d_fetch d) = true) ->
  (forall st d', d_m d' = Some m -> core c d' (f_gather (d_fetch d')) (mailbox m) -> store_off d' ->
     live c (set_fetch (set_f_ready (d_fetch d')) d') m -> ensures (k st) d' Q) ->
  ensures (st_bind (fetch_gather a w) k) d Q.
Proof.
  intros Em [Lc _ Lf] Hs Hst Hr Hp Hk. destruct (fo_wait _ Lf Hr) as [He Hi]. destruct (fo_run _ Lf Hst) as (cmd & Ec & Hcmd & Hu). rewrite Hi in Hu.
  pose (d0 := set_fetch (set_f_gather gather_prep (d_fetch d)) d).
  assert (core c d0 gather_prep (mailbox m)) as Hc by (eapply core_frame; [| |apply (core_regather _ _ _ _ _ He prep_empty Lc)]; done).
  apply ensures_bind. unfold fetch_gather. apply ensures_bind, ensures_modify. fold d0.
  eapply ensures_step; [apply (gather_core a w c d0 gather_prep _ Hc)|]. intros [g st] d1 (P1 & [S1 S2 S3 S4] & _). cbn [fst] in *.
  apply ensures_bind, ensures_modify, ensures_ret.
  assert (store_off d1) as Hs1 by (unfold store_off; by rewrite S2).
  apply Hk; [by cbn; rewrite S1|eapply core_frame; [| |exact P1]; done|done|]. constructor.
  - eapply core_frame; [| |exact P1]; done.
  - destruct Hs1 as (Es & ?). unfold store_ok. cbn. by rewrite Es.
  - constructor; cbn; rewrite S3; try done; cbn; [by rewrite Hst|]. intros _. exists cmd. split; [done|]. split; [done|]. rewrite Hi.
    split; [apply Hu|]. intros x Hx. apply (S4 x). apply empty_old; [apply prep_empty|]. by apply Hu.
Qed.

Lemma nonpeek_idle uids d {A} (k : list msg_key_t -> dm A) Q : canonical uids -> (forall x, x ∈ seq_set_vals 0 0 uids -> x ∈ keys (vlist d)) ->
  (forall ks, ensures (k ks) d Q) -> ensures (st_bind (nonpeek_msgs uids) k) d Q.
Proof.
  intros Hc Hin Hk. apply ensures_bind. unfold nonpeek_msgs. apply ensures_bind, ensures_get.
  apply (ensures_set_loop d _ _ (fun _ => True)); auto. intros x s _ _. unfold nonpeek_body. by destruct (ot_find x (d_views d)) as [[]|].
Qed.

Lemma fetch_begin_ok tag cmd c d m : d_m d = Some m -> live c d m -> idle d -> fetchable cmd -> set_ok (fe_uid_mode cmd) (vlist d) (fe_seq_set cmd) ->
  ensures (fetch_begin tag cmd) d (fun r d' => fetched c r d' /\ (r.1 = false -> r.2 = [])).
Proof.
  intros Em Hl Hi Hcmd Hset. pose proof (live_off _ _ _ Hi Hl) as Hs. pose proof (idle_empty _ _ _ Hi Hl) as He.
  destruct (live_view _ _ _ Hl) as (Ho & hi & Hm). pose proof (lv_fetch _ _ _ Hl) as Lf.
  destruct (fo_off _ Lf (proj2 Hi)) as [Hsy Hr]. destruct (fo_wait _ Lf Hr) as [_ Hit].
  unfold fetch_begin. apply ensures_bind, ensures_modify. set (d0 := set_fetch _ d).
  assert (forall e, empty_gather e -> core c d0 e (mailbox m)) as Hc.
  { intros e He'. eapply core_frame; [| |apply (core_regather _ _ _ _ _ He He' (lv_core _ _ _ Hl))]; done. }
  apply ensures_bind. destruct (canonical_uids d0 hi Ho Hm _ _ Hset) as (r & E & Hr'). unfold ensures at 1. rewrite E.
  destruct r as [uids|].
  2:{ apply send_idle, ensures_ret. split; [|done]. exists c, m. split; [done|]. split; [done|]. split; [done|]. by apply free_fetch_live. }
  destruct Hr' as [Hcan Hin]. assert (forall x, x ∈ seq_set_vals 0 0 uids -> x ∈ keys (vlist d)) as Hv by (intros x Hx; eapply pick_in, Hin, Hx).
  apply ensures_bind, ensures_modify. set (d1 := set_fetch _ d0).
  assert (live c d1 m) as Hl1.
  { constructor; [eapply core_frame; [| |apply (Hc _ He)]; done|unfold store_ok; cbn; destruct Hs as [Es ?]; by rewrite Es|].
    constructor; cbn; try done; [by rewrite Hr|]. intros _. exists cmd. split; [done|]. split; [done|]. rewrite Hit. split; [done|].
    intros x Hx. apply empty_old; [done|by apply Hv]. }
  assert (forall nonpeeks, ensures (match nonpeeks with
      | [] => do! _ := fetch_gather (fe_uid_mode cmd) false in do! _ := modify_fetch set_f_ready in st_ret (false, [])
      | _ => let seen_flag := ImapTypes.mkFlags false false false true false [] [] in
             do! _ := request_update (UPDATE_REQ_STORE (mkMsgStore nonpeeks [] 1 (Some seen_flag))) in st_ret (false, []) end) d1
      (fun r d' => fetched c r d' /\ (r.1 = false -> r.2 = []))) as Hend.
  { intros [|key ks].
    - eapply (fetch_gather_idle _ _ c d1 m); [done|done|done|done|done|by cbn; rewrite Hsy|]. intros st d' Em' Hc' Hs' Hl'.
      apply ensures_bind, ensures_modify, ensures_ret. split; [|done]. by exists c, m.
    - eapply (request_idle _ c d1 m); [done|done|done|]. intros d' m' Em' Hl' Hd. apply ensures_ret. split; [|done]. exists c, m'. split; [done|].
      split; [done|]. split; [|done]. destruct Hs as (Es & ?). unfold store_off in *. destruct (dv_store _ _ Hd) as [->| ->]; done. }
  destruct (fetch_is_peek_only cmd); [apply ensures_bind, ensures_ret, (Hend [])|]. apply nonpeek_idle; [done|exact Hv|exact Hend].
Qed.

Lemma fetch_post_sync_ok cmd c d m : d_m d = Some m -> live c d m -> store_off d -> f_started (d_fetch d) = true ->
  f_ready (d_fetch d) = false -> f_sync_processed (d_fetch d) = true -> ensures (fetch_post_sync cmd) d (fetched c).
Proof.
  intros Em Hl Hs Hst Hr Hp. unfold fetch_post_sync. apply (fetch_gather_idle _ _ c d m); [done..|]. intros st d' Em' Hc' Hs' Hl'.
  destruct st as [st|].
  - apply (fetch_send_idle _ c d' m); [done..|]. intros rs d2 c2 Er Hl2 Em2 Hs2. apply ensures_bind, ensures_get.
    by apply (fetched_send c c2 _ _ _ m).
  - apply ensures_bind, ensures_modify, ensures_ret. by exists c, m.
Qed.

Lemma view_seq_frame k d d' r : view_seq k d = (Ok r, d) -> d_views d' = d_views d -> view_seq k d' = (Ok r, d').
Proof.
  unfold view_seq, st_bind, get, st_lift. intros E ->. destruct (ot_find k (d_views d)) as [[view i]|]; [|done].
  destruct (index_to_seq_num i); [|done..]. by injection E as <-.
Qed.

(** Every message of the set in turn, then what else was gathered. *)
Lemma fetch_next_ok d : fetch_ok d -> f_started (d_fetch d) = true ->
  exists x trav, fetch_next_uid_dn d = (Ok x, set_fetch (set_f_trav trav (d_fetch d)) d) /\ next_in (old d (f_gather (d_fetch d))) (x, trav).
Proof.
  intros Lf Hst. destruct (fo_run _ Lf Hst) as (cmd & _ & _ & Hu). unfold fetch_next_uid_dn, st_bind, get, modify_fetch, modify.
  destruct (f_iter_called (d_fetch d)).
  - pose proof (next_next_in _ _ Hu) as Hn. destruct (ie_seq_set_next _) as [x trav]. by exists x, trav.
  - destruct Hu as [Hc Hin]. pose proof (iter_in _ _ Hc Hin) as Hn. destruct (ie_seq_set_iter _ _ _) as [x trav]. by exists x, trav.
Qed.
Lemma fetch_respond_ok cmd c d m : d_m d = Some m -> live c d m -> store_off d -> f_started (d_fetch d) = true ->
  f_ready (d_fetch d) = true -> f_cmd (d_fetch d) = Some cmd -> ensures (fetch_respond cmd) d (fetched c).
Proof.
  intros Em [Lc _ Lf] Hs Hst Hr Hcmd. destruct (fetch_next_ok d Lf Hst) as (x & trav & En & Ht & Hx). cbn [fst snd] in *.
  destruct (fo_run _ Lf Hst) as (cmd' & Hcmd' & Hfe & _). rewrite Hcmd in Hcmd'. injection Hcmd' as <-.
  unfold fetch_respond. apply ensures_bind. unfold ensures at 1. rewrite En. set (d1 := set_fetch _ d).
  assert (core c d1 (f_gather (d_fetch d)) (mailbox m)) as Hc1 by (eapply core_frame; [| |exact Lc]; done).
  apply ensures_bind, ensures_get. cbv zeta. destruct (Z.eqb_spec x 0) as [->|Hx0]; cbn [negb].
  - apply (fetch_send_idle _ c d1 m); [done..|]. intros rs d2 c2 Er Hl2 Em2 Hs2. apply ensures_bind, ensures_get.
    destruct (negb _); by apply (fetched_send c c2 _ _ _ m).
  - destruct (fetch_one c d1 (f_gather (d_fetch d)) (mailbox m) x Hc1 (Hx Hx0)) as (node & ms & view & i & Ee & Ev & Hone).
    apply ensures_bind. eapply ensures_lift_ok; [exact Ee|]. apply ensures_bind, ensures_modify. set (d2 := set_fetch _ d1).
    apply ensures_bind. unfold send_fetch_resp. apply ensures_bind. unfold ensures at 1.
    rewrite (view_seq_frame _ d1 d2 _ Ev) by done.
    apply ensures_bind. unfold ensures at 1, the_m. change (d_m d2) with (d_m d). rewrite Em.
    apply ensures_bind, ensures_lift; [apply Hfe|]. intros [f missing] Ef. apply build_fetch_fields in Ef as (F1 & F2 & F3).
    apply send_idle, ensures_ret, ensures_bind, ensures_modify, ensures_ret.
    destruct (Hone f F1 F2) as (c' & Er & Hc2).
    { rewrite F3. destruct node; [right; by rewrite orb_true_r|]. rewrite orb_false_r. destruct (at_flags _); [by right|by left]. }
    exists c', m. split; [exact Er|]. split; [done|]. split; [done|]. constructor.
    + eapply core_frame; [| |exact Hc2]; done.
    + unfold store_ok. cbn. destruct Hs as [Es ?]. by rewrite Es.
    + constructor; cbn; try done; [by rewrite Hst|by rewrite Hr|by apply Lf|]. intros _. by exists cmd.
Qed.

(** A stage that ends the command or leads on to the next; [f] are the responses so far. *)
Lemma fetch_stage (f : resps -> resps) (prog : dm (bool * resps)) (k : resps -> dm (bool * resps)) c0 c d :
  (forall rs, recv false c0 (f rs) = recv false c rs) -> ensures prog d (fetched c) ->
  (forall rs d' c' m, recv false c0 (f rs) = Some c' -> d_m d' = Some m -> live c' d' m -> store_off d' -> serves snd c0 (k rs) d') ->
  serves snd c0 (do! (ok, rs) := prog in if ok : bool then do! _ := modify dn_free_fetch in st_ret (true, f rs) else k rs) d.
Proof.
  intros Hf Hp Hk. eapply ensures_step; [exact Hp|]. intros [[] rs] d' (c' & m & Er & Em & Hs & Hl); cbn [fst snd] in *.
  - apply ensures_bind, ensures_modify, ensures_ret. exists c'. cbn [snd]. rewrite Hf. split; [done|]. by apply (live_inv _ _ m).
  - apply (Hk rs d' c' m); [by rewrite Hf|done..].
Qed.
Lemma fetched_wait c d m : d_m d = Some m -> live c d m -> store_off d -> ensures (st_ret (false, [])) d (fetched c).
Proof. intros Em Hl Hs. apply ensures_ret. by exists c, m. Qed.

Lemma fetch_serves tag cmd c d : inv c d -> s_started (d_store d) = false ->
  (f_started (d_fetch d) = false -> fetchable cmd /\ set_ok (fe_uid_mode cmd) (vlist d) (fe_seq_set cmd)) ->
  serves snd c (dn_fetch tag cmd) d.
Proof.
  intros Hv Hs Hb. unfold dn_fetch. apply serves_health; [done|]. intros m Em Hl. apply ensures_bind, ensures_get.
  assert (store_off d) as Hoff by (pose proof (lv_store _ _ _ Hl) as Ho; unfold store_ok in Ho; rewrite Hs in Ho; by split).
  apply (fetch_stage (fun rs => rs) _ _ c c d); [done| |].
  { destruct (f_started (d_fetch d)) eqn:Ef; cbn [negb]; [by eapply fetched_wait|].
    destruct (Hb eq_refl) as [Hf Hset]. eapply ensures_mono; [by apply (fetch_begin_ok tag cmd c d m)|]. by intros r d' [? _]. }
  clear d m Hv Hs Hb Em Hl Hoff. intros r1 d c1 m Er1 Em Hl Hoff. apply ensures_bind, ensures_get.
  assert (f_synced (d_fetch d) = true \/ f_ready (d_fetch d) = true -> f_started (d_fetch d) = true) as Hon.
  { intros Hsr. destruct (f_started (d_fetch d)) eqn:Ef; [done|]. destruct (fo_off _ (lv_fetch _ _ _ Hl) Ef). destruct Hsr; congruence. }
  apply (fetch_stage (fun rs => r1 ++ rs) _ _ c c1 d); [intros rs; by rewrite recv_app, Er1| |].
  { destruct (f_synced (d_fetch d) && negb (f_sync_processed (d_fetch d))) eqn:Ey; [|by eapply fetched_wait].
    apply andb_prop in Ey as [Ey Ep%negb_true_iff]. pose proof (Hon (or_introl Ey)) as Hst.
    assert (f_ready (d_fetch d) = false) as Hr.
    { destruct (f_ready (d_fetch d)) eqn:Er; [|done]. pose proof (fo_ready _ (lv_fetch _ _ _ Hl) Er Ey). congruence. }
    apply ensures_bind, ensures_modify. destruct (fo_run _ (lv_fetch _ _ _ Hl) Hst) as (cmd' & Ec & _).
    apply ensures_bind. unfold ensures at 1, the_cmd. cbn [d_fetch set_fetch set_f_processed f_cmd]. rewrite Ec.
    apply (fetch_post_sync_ok cmd' c1 _ m); try done. destruct Hl as [Lc Ls [F1 F2 F3 F4]]. constructor; [eapply core_frame; [| |exact Lc]; done|exact Ls|by constructor]. }
  clear d m Em Hl Hoff Hon. intros r2 d c2 m Er2 Em Hl Hoff. apply ensures_bind, ensures_get.
  destruct (f_ready (d_fetch d)) eqn:Er; [|].
  2:{ apply ensures_ret. exists c2. split; [done|]. by apply (live_inv _ _ m). }
  assert (f_started (d_fetch d) = true) as Hst.
  { destruct (f_started (d_fetch d)) eqn:Ef; [done|]. destruct (fo_off _ (lv_fetch _ _ _ Hl) Ef). congruence. }
  destruct (fo_run _ (lv_fetch _ _ _ Hl) Hst) as (cmd' & Ec & _). apply ensures_bind. unfold ensures at 1, the_cmd. rewrite Ec.
  apply (fetch_stage (fun rs => r1 ++ r2 ++ rs) _ (fun rs => st_ret (false, r1 ++ r2 ++ rs)) c c2 d).
  - intros rs. by rewrite app_assoc, recv_app, Er2.
  - by apply (fetch_respond_ok cmd' c2 d m).
  - intros r3 d' c3 m' Er3 Em' Hl' _. apply ensures_ret. exists c3. split; [done|]. by apply (live_inv _ _ m').
Qed.

(** *** SELECT *)

Lemma sorted_unique (l1 l2 : list (Z * msg_view_t)) : lsorted l1 -> lsorted l2 -> l1 ≡ₚ l2 -> l1 = l2.
Proof.
  assert (forall l : list (Z * msg_view_t), lsorted l -> StronglySorted (fun a b => a.1 < b.1) l) as Hs.
  { intros l. induction l as [|[k v] l IH]; [constructor|]. intros [Hl Hk]%lsorted_cons. constructor; [by apply IH|].
    apply Forall_forall. intros [j w] Hin. apply Hk. by eapply keys_in. }
  intros S1 S2 Hp. assert (AntiSymm (=) (fun a b : Z * msg_view_t => a.1 < b.1)) by (intros a b; lia).
  by apply (StronglySorted_unique (fun a b => a.1 < b.1)); [apply Hs|apply Hs|].
Qed.
Lemma insert_views_ok l : forall (t : T msg_view_t), ot_ok t -> zlen (ot_list t) + zlen l < MAX_NODES ->
  lsorted (ot_list t) -> NoDup (keys ((fun v => (v_uid_dn v, v)) <$> l) ++ keys (ot_list t)) ->
  exists t', insert_views l t = Ok t' /\ ot_ok t' /\ lsorted (ot_list t') /\ ot_list t' ≡ₚ ((fun v => (v_uid_dn v, v)) <$> l) ++ ot_list t.
Proof.
  induction l as [|v l IH]; intros t Ho Hz Hs Hn; [by exists t|]. rewrite zlen_cons in Hz. pose proof (zlen_nonneg l).
  destruct (ot_insert_ok _ (v_uid_dn v) v t Ho) as (t1 & E & Ho1 & El); [lia|]. cbn [fmap list_fmap keys map fst app] in Hn.
  apply NoDup_cons in Hn as [Hv Hn]. destruct (IH t1) as (t' & E' & Ho' & Hs' & Hp); [done|rewrite El, zlen_linsert; lia| | |].
  - rewrite El. apply lsorted_linsert; [done|]. set_solver.
  - rewrite El. unfold keys in *. rewrite linsert_perm. cbn [map fst]. rewrite <- Permutation_middle. by apply NoDup_cons.
  - exists t'. cbn [insert_views]. rewrite E. cbn [res_bind]. split; [done|]. split; [done|]. split; [done|].
    by rewrite Hp, El, linsert_perm, <- Permutation_middle.
Qed.

Lemma mbox_small mb : mbox_ok mb -> zlen mb.1 < MAX_NODES.
Proof.
  intros Hm. pose proof (mb_hi _ Hm). enough (zlen mb.1 + 1 <= mb.2 + 1) by (unfold UINT32_MAX, MAX_NODES in *; lia).
  apply sorted_room; [apply Hm| |lia]. intros k Hk. apply (mb_key_range _ _ Hm) in Hk. lia.
Qed.

(** The view that a session starts with is the mailbox. *)
Lemma build_views_ok m exts examine : ensures build_views (dn_init m exts examine) (fun _ d => exists m' views,
  d = set_views views (set_m (Some m') (dn_init m exts examine)) /\ ot_ok views /\ ot_list views = (mailbox m').1).
Proof.
  unfold ensures, build_views. cbn [d_m d_views dn_init]. pose proof (views_ok m) as Hv.
  destruct (imaildir_dn_build_views m) as [[[[l max] vld]|e|s] m']; [|done..]. destruct Hv as [Em Hp]. rewrite <- Em in Hp.
  destruct (insert_views_ok l ot_init) as (t & E & Ho & Hs & Hl); rewrite ?ot_init_list; [apply ot_init_ok| |apply lsorted_nil| |].
  - apply Permutation_length in Hp. rewrite length_fmap in Hp. pose proof (mbox_small _ (mailbox_ok m')). unfold zlen in *. rewrite Hp. cbn. lia.
  - rewrite app_nil_r. unfold keys. rewrite Hp. apply lt_nodup, (mailbox_ok m').
  - rewrite E. exists m', t. split; [done|]. split; [done|]. rewrite ot_init_list, app_nil_r in Hl.
    apply sorted_unique; [done|apply (mailbox_ok m')|]. by rewrite Hl.
Qed.

Lemma recv_quiets strict c rs : Forall quiet rs -> recv strict c rs = Some c.
Proof. induction 1 as [|r rs Hr _ IH]; [done|]. cbn [recv]. by rewrite Hr. Qed.
Lemma unseen_ok d : ot_ok (d_views d) -> ensures send_unseen_resp d (fun rs d' => d' = d /\ Forall quiet rs).
Proof.
  intros Ho. unfold send_unseen_resp. apply ensures_bind, ensures_get, ensures_bind. eapply ensures_lift_ok; [by apply ot_visit_ok|].
  generalize 1. induction (visited _ _ _) as [|[x view] nodes IH]; intros seq; cbn [unseen_loop]; [by apply ensures_ret|].
  destruct (seen (v_flags view)); [apply IH|]. apply send_idle. eapply ensures_step; [apply IH|].
  intros rs d' [-> Hq]. apply ensures_ret. split; [done|by constructor].
Qed.

Lemma select_serves tag m exts examine : ensures (dn_select tag) (dn_init m exts examine)
  (fun r d => r.1.2 = true -> exists c, recv false [] r.2 = Some c /\ inv c d /\ idle d).
Proof.
  unfold dn_select. apply ensures_bind, ensures_health. intros _ _. apply ensures_bind. unfold ensures at 1, the_m. cbn [d_m dn_init].
  destruct (imaildir_dn_select_failed m) as [status|]; [|by apply ensures_ret].
  assert (ensures (do! rs := select_failure tag status in st_ret (true, false, rs)) (dn_init m exts examine)
    (fun r d => r.1.2 = true -> exists c, recv false [] r.2 = Some c /\ inv c d /\ idle d)) as Hfail by by apply send_idle, ensures_ret.
  destruct status; try exact Hfail. clear Hfail. apply ensures_bind, ensures_get. destruct (imaildir_dn_synced _ _); cbn [negb]; [|by apply ensures_ret].
  eapply ensures_step; [apply build_views_ok|]. intros [max vld] d (m' & views & -> & Ho & El). set (d := set_views _ _).
  assert (vlist d = (mailbox m').1) as Ev by done. assert (mbox_ok (vlist d, (mailbox m').2)) as Hm by (rewrite Ev, <- surjective_pairing; apply mailbox_ok).
  apply ensures_on_fail, send_idle. destruct (send_exists_ok false (fun _ => False) [] d _ [] (vlist d) Ho Hm) as (r2 & c & E2 & Er & Ha); [done|by constructor|].
  apply ensures_bind. unfold ensures at 1. rewrite E2. apply send_idle.
  eapply ensures_step; [by apply unseen_ok|]. intros r4 d' [-> Hq]. do 4 apply send_idle. apply ensures_ret. intros _. exists c. cbn [snd].
  split; [|split; [|done]].
  - cbn [app recv recv1]. rewrite recv_app, Er. apply recv_quiets. cbn [app]. constructor; [done|]. apply Forall_app. split; [done|].
    by repeat constructor.
  - apply (live_inv _ _ m'); [done|]. constructor.
    + apply (empty_core _ _ _ (mailbox m').2); [apply prep_empty|done|done|done|]. cbn. rewrite Ev, <- surjective_pairing. done.
    + unfold store_ok. cbn. split; [apply ot_init_ok|apply ot_init_list].
    + constructor; cbn; try done. intros _. split; [apply prep_empty|done].
Qed.

(** *** What the mailbox does *)

Lemma update_keeps c d m m' u : d_m d = Some m -> inv c d -> update_mbox (mailbox m) u = Some (mailbox m') ->
  (is_sync u -> f_ready (d_fetch d) = false) -> inv c (dn_imaildir_update u (set_m (Some m') d)).
Proof.
  intros Em Hv Hu Hr. pose proof (inv_live _ _ _ Em Hv) as Hl. destruct (update_pending u (set_m (Some m') d)) as [Ep Em'].
  apply (live_inv _ _ m'); [by rewrite Em'|]. eapply (live_delivered c d _ m m' [u]); [done| |by rewrite Ep|by cbn; rewrite Hu|].
  - destruct (update_delivered u (set_m (Some m') d)). by constructor.
  - destruct (u_arg u) eqn:Ea; try (right; unfold dn_imaildir_update; rewrite Ea; cbv zeta; by destruct (d_idle_tag _)).
    left. apply Hr. unfold is_sync. by rewrite Ea.
Qed.
Lemma failed_keeps c d : inv c (dn_imaildir_failed d).
Proof. done. Qed.
End commands.
