(* ===== verification/DnSession.v ===== *)
(** * Sessions over time (libimaildir/dn.c)

    Every way in which a session can go: the theorems that its client stays in step and that
    a NOOP brings it up to date, and a mailbox in memory to try them out. *)

From S2P Require Import Prelude Dstr Msg ImapTypes OrdTree SeqSet ImapSearch Dn DnSync DnCommands.

Section sessions.
Context `{OrdTreeLaws T} `{ImaildirLaws M} `{Imf} `{Alloc}.
Abbreviation dn := (dn_t T M).
Abbreviation dm := (stm dn).
Abbreviation resps := (list imap_resp_t).
Implicit Types d : dn.
Implicit Types m : M.


(** A key that can be evaluated for every message; not so an empty text to look for. *)
Definition searchable (key : ie_search_key_t) : Prop :=
  forall view seq seq_max uid_max hdrs imf s, search_key_eval imf_parse_date key view seq seq_max uid_max hdrs imf <> Stop s.

(** What a client may ask for; [UPDATES] is NOOP and CHECK, [CLOSE] leaves the mailbox. *)
Inductive command :=
| SEARCH (tag : option bytes) (uid_mode : bool) (key : ie_search_key_t)
| STORE (tag : option bytes) (store : ie_store_cmd_t)
| EXPUNGE (tag : option bytes)
| COPY (tag : option bytes) (uid_mode : bool) (seq_set : ie_seq_set_t) (mbx : ie_mailbox_t)
| FETCH (tag : option bytes) (fetch : ie_fetch_cmd_t)
| IDLE (tag : option bytes)
| DONE (errmsg : option bytes)
| CLOSE (expunge : bool)
| UPDATES (allow_expunge uid_mode : bool).

Definition run (cmd : command) : dm resps :=
  match cmd with
  | SEARCH tag um key => dn_search tag um key
  | STORE tag store => do! r := dn_store tag store in st_ret r.2
  | EXPUNGE tag => do! r := dn_expunge tag in st_ret r.2
  | COPY tag um set mbx => do! r := dn_copy tag um set mbx in st_ret r.2
  | FETCH tag fetch => do! r := dn_fetch tag fetch in st_ret r.2
  | IDLE tag => dn_idle tag
  | DONE errmsg => dn_idle_done errmsg
  | CLOSE expunge => do! _ := dn_disconnect expunge in st_ret []
  | UPDATES a um => do! r := dn_gather_updates a um false in st_ret r.2
  end.

(** A STORE or FETCH is called again until it is done; nothing else runs in between. Their
    sets are within the limits of the trees, and a STORE only fails to begin with the mailbox. *)
Definition allowed (cmd : command) d : Prop :=
  match cmd with
  | SEARCH _ _ key => idle d /\ searchable key
  | STORE tag store => f_started (d_fetch d) = false /\
      (s_started (d_store d) = false -> set_ok (st_uid_mode store) (vlist d) (st_seq_set store) /\
         forall e d', store_begin tag store d = (Err e, d') -> d_m d' = None)
  | COPY _ um set _ => idle d /\ set_ok um (vlist d) set
  | FETCH _ fetch => s_started (d_store d) = false /\
      (f_started (d_fetch d) = false -> fetchable fetch /\ set_ok (fe_uid_mode fetch) (vlist d) (fe_seq_set fetch))
  | _ => idle d
  end.
(** Who asks for a silent STORE does not rely on flags any more. *)
Definition before (cmd : command) d (c : client) : client :=
  match cmd with
  | STORE _ store => if negb (s_started (d_store d)) && st_silent store then forget c else c
  | _ => c
  end.

Lemma serves_drop {A B} (out : A -> resps) (f : A -> B) (g : B -> resps) c (prog : dm A) d : (forall a, out a = g (f a)) ->
  serves out c prog d -> serves g c (do! a := prog in st_ret (f a)) d.
Proof. intros Hf Hs. eapply ensures_step; [exact Hs|]. intros a d' (c' & Er & Hi). apply ensures_ret. exists c'. by rewrite <- Hf. Qed.
Lemma updates_serve a um c d : inv c d -> idle d -> serves snd c (dn_gather_updates a um false) d.
Proof.
  intros Hv Hi. unfold serves, ensures. destruct (d_m d) as [m|] eqn:Em.
  - destruct (gather_run false a um false c d m Em (inv_live _ _ _ Em Hv) Hi) as [G _]; [done|]. eapply ensures_mono in G; [exact G|].
    intros r d' (c' & Er & Hl & _ & Em'). exists c'. split; [done|]. by apply (live_inv _ _ m).
  - unfold dn_gather_updates, st_bind, healthcheck. by rewrite Em.
Qed.
Lemma run_serves cmd c d : inv c d -> allowed cmd d -> serves (fun rs => rs) (before cmd d c) (run cmd) d.
Proof.
  intros Hv Ha. destruct cmd; cbn [run before allowed] in *.
  - destruct Ha. by apply search_serves.
  - destruct Ha. eapply (serves_drop snd snd); [done|]. by apply store_serves.
  - eapply (serves_drop snd snd); [done|]. by apply expunge_serves.
  - destruct Ha. eapply (serves_drop snd snd); [done|]. by apply copy_serves.
  - destruct Ha. eapply (serves_drop snd snd); [done|]. by apply fetch_serves.
  - by apply idle_serves.
  - by apply idle_done_serves.
  - eapply (serves_drop (fun _ => []) (fun _ => [])); [done|]. by apply disconnect_serves.
  - eapply (serves_drop snd snd); [done|]. by apply updates_serve.
Qed.

(** A session and its client: the mailbox was selected, then commands were run, updates
    delivered, and at most once the mailbox failed. *)
Inductive session : client -> dn -> Prop :=
| session_select tag m exts examine rs c d :
    dn_select tag (dn_init m exts examine) = (Ok (true, true, rs), d) -> recv false [] rs = Some c -> session c d
| session_command cmd c d rs c' d' :
    session c d -> allowed cmd d -> run cmd d = (Ok rs, d') -> recv false (before cmd d c) rs = Some c' -> session c' d'
| session_update u c d m m' :
    session c d -> d_m d = Some m -> update_mbox (mailbox m) u = Some (mailbox m') ->
    (is_sync u -> f_ready (d_fetch d) = false) -> session c (dn_imaildir_update u (set_m (Some m') d))
| session_failed c d : session c d -> session c (dn_imaildir_failed d).

Lemma session_inv c d : session c d -> inv c d.
Proof.
  induction 1 as [tag m exts examine rs c d E Er|cmd c d rs c' d' _ IH Ha E Er|u c d m m' _ IH Em Eu Hr|c d _ IH].
  - pose proof (select_serves tag m exts examine) as Hs. unfold ensures in Hs. rewrite E in Hs. destruct (Hs eq_refl) as (c' & Er' & Hv & _).
    cbn [snd] in Er'. rewrite Er in Er'. by injection Er' as <-.
  - pose proof (run_serves cmd c d IH Ha) as Hs. unfold serves, ensures in Hs. rewrite E in Hs. destruct Hs as (c2 & Er2 & Hv).
    rewrite Er in Er2. by injection Er2 as <-.
  - by eapply update_keeps.
  - apply failed_keeps.
Qed.


(** C2: What the mailbox tells a session is told to the client. In every session that no command is
    holding up, a NOOP succeeds whatever updates are pending, unless the end of a request is among them;
    afterwards no update is pending, the view is the mailbox and the client knows it: as many
    messages as there are, and true uids and flags. This holds even for a client that takes an EXPUNGE of a message
    it has never been told of for an error, if the pending updates only expunge messages of the view. *)
Theorem dn_noop_synchronises strict um c d m : session c d -> d_m d = Some m -> idle d ->
  Forall (fun u => ~ is_sync u) (d_pending_updates d) ->
  (strict = true -> forall k, k ∈ expunged (d_pending_updates d) -> k ∈ keys (vlist d)) ->
  exists rs d' c', dn_gather_updates true um false d = (Ok (None, rs), d') /\
    d_m d' = Some m /\ d_pending_updates d' = [] /\ vlist d' = (mailbox m).1 /\
    recv strict c rs = Some c' /\ agrees (fun _ => False) c' (mailbox m).1.
Proof.
  intros Hv%session_inv Em Hi Hsy Hst. pose proof (inv_live _ _ _ Em Hv) as Hl.
  destruct (gather_run strict true um false c d m Em Hl Hi Hst) as [G1 G2]. destruct (G2 eq_refl Hsy) as (rs & d' & E & Ep). specialize (Ep eq_refl).
  unfold ensures in G1. rewrite E in G1. destruct G1 as (c' & Er & Hl' & Hi' & Em'). exists rs, d', c'.
  destruct (core_empty _ _ _ _ (idle_empty _ _ _ Hi' Hl') (lv_core _ _ _ Hl')) as (_ & Ha & hi & _ & Hy).
  rewrite Ep in Hy. injection Hy as Hy. assert (vlist d' = (mailbox m).1) as Hv' by by rewrite <- Hy. rewrite Hv' in Ha. done.
Qed.
End sessions.

(** ** A mailbox in memory

    Its state is what has happened to it; requests are carried out at once. It stands for
    the mailbox where the theorems are tried out. *)

Definition journal := list update_t.
Definition opened (j : journal) : mbox := default ([], 0) (update_all ([], 0) j).
Definition meta_of (f : msg_view_t -> msg_flags_t) (v : msg_view_t) : update_t :=
  mkUpdate None (UPDATE_META (mkView (v_key v) (v_uid_dn v) (v_length v) (v_internaldate v) (f v))).
Definition expunge_of (v : msg_view_t) : update_t :=
  mkUpdate None (UPDATE_EXPUNGE (mkExpunge (v_key v) (v_uid_dn v) MSG_EXPUNGE_UNPUSHED (mkMod MOD_TYPE_EXPUNGE 0))).
Definition answers (req : update_req_t) (j : journal) : list update_t :=
  let named ks := filter (fun v => v_key v ∈ ks) (map snd (opened j).1) in
  match req with
  | UPDATE_REQ_STORE cmd =>
      map (meta_of (fun v => match new_flags (ms_sign cmd) (v_flags v) (msg_flags_from_flags (ms_flags cmd)) with Ok f => f | _ => v_flags v end))
        (named (ms_keys cmd))
  | UPDATE_REQ_EXPUNGE ks => map expunge_of (named ks)
  | UPDATE_REQ_COPY _ => []
  end ++ [mkUpdate None (UPDATE_SYNC None)].

#[export] Instance journal_ops : Imaildir journal := {
  imaildir_dn_select_failed _ := Some IE_ST_OK;
  imaildir_dn_synced _ _ := true;
  imaildir_dn_build_views j := (Ok (map snd (opened j).1, (opened j).2, 1), j);
  imaildir_dn_request_update req j :=
    match update_all ([], 0) (j ++ answers req j) with
    | Some _ => (Ok (answers req j), j ++ answers req j)
    | None => (Err E_INTERNAL, j)
    end;
  loader_take_content _ _ := Err E_FS;
  loader_parse_hdrs _ _ := Err E_FS;
  loader_parse_imf _ _ := Err E_FS
}.

Lemma opened_ok j : mbox_ok (opened j).
Proof.
  assert (mbox_ok ([], 0)) as H0.
  { constructor; [apply lsorted_nil|by vm_compute|]. intros k v Hin. by apply elem_of_nil in Hin. }
  unfold opened. destruct (update_all _ j) as [mb|] eqn:E; [|done]. by eapply update_all_ok.
Qed.
Lemma journal_views j : (fun v => (v_uid_dn v, v)) <$> map snd (opened j).1 ≡ₚ (opened j).1.
Proof.
  pose proof (mb_keys _ (opened_ok j)) as Hk. induction (opened j).1 as [|[k v] l IH]; [done|]. cbn.
  destruct (Hk k v) as [-> _]; [by left|]. constructor. apply IH. intros a b Hab. apply Hk. by right.
Qed.
Lemma journal_request req j : match imaildir_dn_request_update req j with
  | (Ok us, j') => update_all (opened j) us = Some (opened j') | (Err _, _) => True | (Stop _, _) => False end.
Proof.
  cbn. destruct (update_all ([], 0) (j ++ answers req j)) as [mb|] eqn:E; [|done].
  unfold opened at 2. rewrite E. rewrite update_all_app in E. unfold opened. by destruct (update_all ([], 0) j).
Qed.
#[export] Instance journal_laws : ImaildirLaws journal := {
  mailbox := opened; mailbox_ok := opened_ok; views_ok j := conj eq_refl (journal_views j); request_ok := journal_request
}.
#[export] Instance no_imf : Imf := {
  imf_parse_date _ := Err E_PARAM;
  read_envelope_info _ := Err E_PARAM;
  imf_bodystructure _ := Err E_PARAM;
  imf_get_submessage _ _ := Err E_PARAM
}.

(** A message arrives, a client selects the mailbox; another message arrives. *)
Definition view1 : msg_view_t := mkView (KEY_UP 5) 1 100 no_date (Msg.mkFlags false false false false false).
Definition view2 : msg_view_t := mkView (KEY_LOCAL 1) 2 200 no_date (Msg.mkFlags false true false false false).
Definition no_exts : extensions_t :=
  mkExts EXT_STATE_DISABLED EXT_STATE_DISABLED EXT_STATE_DISABLED EXT_STATE_DISABLED EXT_STATE_DISABLED EXT_STATE_DISABLED EXT_STATE_DISABLED.
Definition new1 : update_t := mkUpdate None (UPDATE_NEW view1).
Definition new2 : update_t := mkUpdate None (UPDATE_NEW view2).
Definition seen1 : update_t := meta_of (fun _ => Msg.mkFlags false false true false false) view1.

Definition store1 : ie_store_cmd_t :=
  mkStore false [(1, 1)] [] 1 false (Some (ImapTypes.mkFlags false false false true false [] [])).

Definition fetch_both : ie_fetch_cmd_t :=
  mkFetch false [(1, 2)] (mkAttrs false true false true false false false false false false false []) [].

Section trial.
#[local] Existing Instance always.
Definition trial : Type := client * dn_t otree journal.
Definition result {A} (r : option (A * trial)) : trial := match r with Some (_, s) => s | None => ([], dn_init [] no_exts false) end.
Definition after (prog : stm (dn_t otree journal) (list imap_resp_t)) (s : trial) : option (list imap_resp_t * trial) :=
  match prog s.2 with
  | (Ok rs, d) => c ← recv false s.1 rs; Some (rs, (c, d))
  | _ => None
  end.
Definition select_trial : option (list imap_resp_t * trial) :=
  after (do! r := dn_select (Some (lit "a")) in st_ret r.2) ([], dn_init [new1] no_exts false).
Definition deliver (u : update_t) (s : trial) : trial :=
  (s.1, dn_imaildir_update u (set_m (Some (default [] (d_m s.2) ++ [u])) s.2)).

Definition s_selected : trial := Eval vm_compute in result select_trial.
Definition s_two : trial := Eval vm_compute in deliver new2 s_selected.
Definition s_storing : trial := Eval vm_compute in result (after (run (STORE (Some (lit "b")) store1)) s_two).
Definition s_stored : trial := Eval vm_compute in result (after (run (STORE (Some (lit "b")) store1)) s_storing).
Definition fetch (s : trial) : trial := result (after (run (FETCH (Some (lit "c")) fetch_both)) s).
Definition s_fetch1 : trial := Eval vm_compute in fetch s_stored.
Definition s_fetch2 : trial := Eval vm_compute in fetch s_fetch1.
Definition s_fetched : trial := Eval vm_compute in fetch s_fetch2.
Definition s_updates : trial := Eval vm_compute in deliver seen1 s_two.

Lemma selected_session : session s_selected.1 s_selected.2.
Proof.
  apply (session_select (Some (lit "a")) [new1] no_exts false (match select_trial with Some (rs, _) => rs | None => [] end));
    by vm_compute.
Qed.
Lemma deliver_session u s : session s.1 s.2 -> match d_m s.2 with Some j => update_mbox (opened j) u = Some (opened (j ++ [u])) | None => False end ->
  ~ is_sync u -> session (deliver u s).1 (deliver u s).2.
Proof.
  intros Hs Hu Hn. unfold deliver. destruct (d_m s.2) as [j|] eqn:Ej; [|done]. apply (session_update u s.1 s.2 j (j ++ [u])); [done..|exact Hu|done].
Qed.
Lemma command_session cmd s : session s.1 s.2 -> allowed cmd s.2 -> before cmd s.2 s.1 = s.1 ->
  match after (run cmd) s with Some (_, s') => session s'.1 s'.2 | None => True end.
Proof.
  intros Hs Ha Hb. unfold after. destruct (run cmd s.2) as [[rs|e|x] d] eqn:E; [|done..].
  destruct (recv false s.1 rs) as [c|] eqn:Er; [|done]. cbn. eapply session_command; [exact Hs|exact Ha|exact E|by rewrite Hb].
Qed.
Lemma two_session : session s_two.1 s_two.2.
Proof. apply (deliver_session new2 s_selected selected_session); [by vm_compute|by intros []]. Qed.
Lemma updates_session : session s_updates.1 s_updates.2.
Proof. apply (deliver_session seen1 s_two two_session); [by vm_compute|by intros []]. Qed.
Lemma storing_session : session s_storing.1 s_storing.2.
Proof.
  apply (command_session (STORE (Some (lit "b")) store1) s_two two_session); [|done].
  split; [done|]. intros _. split; [split; [constructor; [cbn; lia|constructor]|by vm_compute]|]. intros e d' E. by vm_compute in E.
Qed.
Lemma stored_session : session s_stored.1 s_stored.2.
Proof. by apply (command_session (STORE (Some (lit "b")) store1) s_storing storing_session). Qed.

Lemma fetch_fetchable : fetchable (M := journal) fetch_both.
Proof. intros m view seq uid force x. by unfold build_fetch_resp. Qed.
Lemma fetch_session s : session s.1 s.2 -> s_started (d_store s.2) = false -> set_ok false (vlist s.2) [(1, 2)] ->
  match after (run (FETCH (Some (lit "c")) fetch_both)) s with Some (_, s') => session s'.1 s'.2 | None => True end.
Proof. intros Hs Hst Hset. apply command_session; [done| |done]. split; [done|]. intros _. split; [apply fetch_fetchable|done]. Qed.
Lemma both_ok (d : dn_t otree journal) : map fst (vlist d) = [1; 2] -> set_ok false (vlist d) [(1, 2)].
Proof.
  intros E. split; [constructor; [cbn; lia|constructor]|]. destruct (vlist d) as [|[a v] [|[b w] [|x l]]]; try done.
Qed.
Lemma fetched_session : session s_fetched.1 s_fetched.2.
Proof.
  apply (fetch_session s_fetch2); [|done|by apply both_ok]. apply (fetch_session s_fetch1); [|done|by apply both_ok].
  apply (fetch_session s_stored); [exact stored_session|done|by apply both_ok].
Qed.

Lemma dn_noop_synchronises_witness : exists rs d' c',
  @dn_gather_updates otree _ journal always true true false s_updates.2 = (Ok (None, rs), d') /\ recv true s_updates.1 rs = Some c' /\
  map c_flags c' = [Some (Msg.mkFlags false false true false false); None] /\ map v_uid_dn (map snd (vlist d')) = [1; 2].
Proof.
  destruct (dn_noop_synchronises true true s_updates.1 s_updates.2 [new1; new2; seen1]) as (rs & d' & c' & E & _ & _ & Ev & Er & _).
  - exact updates_session.
  - done.
  - done.
  - repeat constructor; by intros [].
  - intros _ k Hk. by apply elem_of_nil in Hk.
  - exists rs, d', c'. split; [exact E|]. split; [exact Er|]. rewrite Ev. split; [|done].
    vm_compute in E. injection E as <- _. vm_compute in Er. by injection Er as <-.
Defined.
End trial.
