(* ===== verification/Imaildir.v ===== *)
(** * A mailbox (libimaildir/imaildir.c)

    The local copy of a mailbox: the trees of messages, expunges and modseqs, the log that
    persists them, the updates from the provider, the requests of the sessions and what the
    sessions are told. A pointer to a message is its key; reading through a pointer to a
    message that is gone is [Stop]. The files of the messages are only operations that may
    fail. Not here: which of several connections to the provider synchronises, and the
    relays that wait for its answers; a relayed command is what the request returns. *)

From stdpp Require Import gmultiset sorting.
From S2P Require Import Prelude Dstr Fmt Cvt Msg MaildirLog MaildirName Hashmap LogFile ImapTypes ImapWrite OrdTree SeqSet ImapSearch Dn.

(** ** State *)

(** A session as the mailbox knows it: what it was given when its views were built, and the
    updates it was handed since. *)
Record dn_link := mkLink { dl_id : Z; dl_views : list msg_view_t; dl_max_uid_dn : Z; dl_updates : list update_t }.

(** [i_olds] are the [old_msg_t] by address: the message and the number of references. *)
Record imaildir_t := mkIm {
  i_hi_uid_dn : Z; i_hi_uid_local : Z; i_himodseq_dn : Z;
  i_msgs : gmap msg_key_t msg_t; i_mods : gmultiset Z; i_expunged : gmap msg_key_t msg_expunge_t;
  i_dns : list dn_link; i_olds : gmap Z (msg_key_t * Z); i_next_old : Z; i_tmp_count : Z; i_tag : Z
}.
(** The mailbox, its log, and whether the file .invalid exists. *)
Record box := mkBox { b_m : imaildir_t; b_w : world; b_invalid : bool }.

Definition set_hi_uid_dn (n : Z) (m : imaildir_t) : imaildir_t :=
  mkIm n (i_hi_uid_local m) (i_himodseq_dn m) (i_msgs m) (i_mods m) (i_expunged m) (i_dns m) (i_olds m) (i_next_old m) (i_tmp_count m) (i_tag m).
Definition set_hi_uid_local (n : Z) (m : imaildir_t) : imaildir_t :=
  mkIm (i_hi_uid_dn m) n (i_himodseq_dn m) (i_msgs m) (i_mods m) (i_expunged m) (i_dns m) (i_olds m) (i_next_old m) (i_tmp_count m) (i_tag m).
Definition set_himodseq_dn (n : Z) (m : imaildir_t) : imaildir_t :=
  mkIm (i_hi_uid_dn m) (i_hi_uid_local m) n (i_msgs m) (i_mods m) (i_expunged m) (i_dns m) (i_olds m) (i_next_old m) (i_tmp_count m) (i_tag m).
Definition set_msgs (t : gmap msg_key_t msg_t) (m : imaildir_t) : imaildir_t :=
  mkIm (i_hi_uid_dn m) (i_hi_uid_local m) (i_himodseq_dn m) t (i_mods m) (i_expunged m) (i_dns m) (i_olds m) (i_next_old m) (i_tmp_count m) (i_tag m).
Definition set_mods (t : gmultiset Z) (m : imaildir_t) : imaildir_t :=
  mkIm (i_hi_uid_dn m) (i_hi_uid_local m) (i_himodseq_dn m) (i_msgs m) t (i_expunged m) (i_dns m) (i_olds m) (i_next_old m) (i_tmp_count m) (i_tag m).
Definition set_expunged (t : gmap msg_key_t msg_expunge_t) (m : imaildir_t) : imaildir_t :=
  mkIm (i_hi_uid_dn m) (i_hi_uid_local m) (i_himodseq_dn m) (i_msgs m) (i_mods m) t (i_dns m) (i_olds m) (i_next_old m) (i_tmp_count m) (i_tag m).
Definition set_dns (l : list dn_link) (m : imaildir_t) : imaildir_t :=
  mkIm (i_hi_uid_dn m) (i_hi_uid_local m) (i_himodseq_dn m) (i_msgs m) (i_mods m) (i_expunged m) l (i_olds m) (i_next_old m) (i_tmp_count m) (i_tag m).
Definition set_olds (t : gmap Z (msg_key_t * Z)) (next : Z) (m : imaildir_t) : imaildir_t :=
  mkIm (i_hi_uid_dn m) (i_hi_uid_local m) (i_himodseq_dn m) (i_msgs m) (i_mods m) (i_expunged m) (i_dns m) t next (i_tmp_count m) (i_tag m).
Definition set_tmp_count (n : Z) (m : imaildir_t) : imaildir_t :=
  mkIm (i_hi_uid_dn m) (i_hi_uid_local m) (i_himodseq_dn m) (i_msgs m) (i_mods m) (i_expunged m) (i_dns m) (i_olds m) (i_next_old m) n (i_tag m).
Definition set_tag (n : Z) (m : imaildir_t) : imaildir_t :=
  mkIm (i_hi_uid_dn m) (i_hi_uid_local m) (i_himodseq_dn m) (i_msgs m) (i_mods m) (i_expunged m) (i_dns m) (i_olds m) (i_next_old m) (i_tmp_count m) n.

(** A message with some of its fields assigned. *)
Definition msg_set_flags (f : msg_flags_t) (m : msg_t) : msg_t :=
  mkMsg (m_key m) (m_uid_dn m) (m_length m) (m_internaldate m) f (m_mod m) (m_subdir m) (m_filename m) (m_state m) (m_open_fds m).
Definition msg_set_modseq (n : Z) (m : msg_t) : msg_t :=
  mkMsg (m_key m) (m_uid_dn m) (m_length m) (m_internaldate m) (m_flags m) (mkMod (mod_type (m_mod m)) n) (m_subdir m) (m_filename m) (m_state m) (m_open_fds m).
Definition msg_set_state (s : msg_state_e) (m : msg_t) : msg_t :=
  mkMsg (m_key m) (m_uid_dn m) (m_length m) (m_internaldate m) (m_flags m) (m_mod m) (m_subdir m) (m_filename m) s (m_open_fds m).
Definition msg_set_uid_dn (n : Z) (m : msg_t) : msg_t :=
  mkMsg (m_key m) n (m_length m) (m_internaldate m) (m_flags m) (m_mod m) (m_subdir m) (m_filename m) (m_state m) (m_open_fds m).
Definition msg_set_internaldate (t : imap_time_t) (m : msg_t) : msg_t :=
  mkMsg (m_key m) (m_uid_dn m) (m_length m) t (m_flags m) (m_mod m) (m_subdir m) (m_filename m) (m_state m) (m_open_fds m).
Definition msg_set_open_fds (n : Z) (m : msg_t) : msg_t :=
  mkMsg (m_key m) (m_uid_dn m) (m_length m) (m_internaldate m) (m_flags m) (m_mod m) (m_subdir m) (m_filename m) (m_state m) n.

(** [hooks->process_msg]: the length of what it wrote, and not4me. *)
Class Hooks := { process_msg : option (bytes -> res (Z * bool)); hostname : bytes }.

Section imaildir.
Context `{Alloc} `{Io} `{Hooks} `{OrdTree T}.
Abbreviation im := (stm box).

Definition get_m : im imaildir_t := fun b => (Ok (b_m b), b).
Definition get_log : im log_t := fun b => (Ok (w_log (b_w b)), b).
Definition mod_m (f : imaildir_t -> imaildir_t) : im unit := fun b => (Ok tt, mkBox (f (b_m b)) (b_w b) (b_invalid b)).
Definition set_invalid (v : bool) : im unit := fun b => (Ok tt, mkBox (b_m b) (b_w b) v).
Definition on_log {A} (m : stm world A) : im A := fun b => let '(r, w) := m (b_w b) in (r, mkBox (b_m b) w (b_invalid b)).
(** An operation on a file. *)
Definition file_io : im unit := on_log io.
(** [DROP_CMD(cmd)] *)
Definition drop_cmd (m : im unit) : im unit := fun b => match m b with (Err _, b) => (Ok tt, b) | r => r end.
(** [PROP_GO(&e, m, fail)] with a handler at fail. *)
Definition or_fail {A} (m : im A) (handler : im unit) : im A := fun b =>
  match m b with
  | (Err e, b) => match handler b with (Ok _, b) => (Err e, b) | (Err e, b) => (Err e, b) | (Stop x, b) => (Stop x, b) end
  | r => r
  end.

(** ** Trees *)

(** Dereference a pointer to a message, and assign to what it points to. *)
Definition the_msg (key : msg_key_t) : im msg_t :=
  do! m := get_m in match i_msgs m !! key with Some msg => st_ret msg | None => st_lift (Stop OutOfBounds) end.
Definition put_msg (msg : msg_t) : im unit := mod_m (fun m => set_msgs (<[m_key msg := msg]> (i_msgs m)) m).
Definition put_expunge (x : msg_expunge_t) : im unit := mod_m (fun m => set_expunged (<[e_key x := x]> (i_expunged m)) m).
(** [jsw_ainsert]; a second node with the same key, which the maps cannot hold, is [Stop]. *)
Definition ins_msg (msg : msg_t) : im unit :=
  do! m := get_m in match i_msgs m !! m_key msg with None => put_msg msg | Some _ => st_lift (Stop Fatal) end.
Definition ins_expunge (x : msg_expunge_t) : im unit :=
  do! m := get_m in match i_expunged m !! e_key x with None => put_expunge x | Some _ => st_lift (Stop Fatal) end.
Definition ins_mod (n : Z) : im unit := mod_m (fun m => set_mods (i_mods m ⊎ {[+ n +]}) m).
Definition erase_mod (n : Z) : im unit := mod_m (fun m => set_mods (i_mods m ∖ {[+ n +]}) m).

Definition next_uid_dn : im Z := do! m := get_m in let n := u32 (i_hi_uid_dn m + 1) in do! _ := mod_m (set_hi_uid_dn n) in st_ret n.
Definition next_uid_local : im Z := do! m := get_m in let n := u32 (i_hi_uid_local m + 1) in do! _ := mod_m (set_hi_uid_local n) in st_ret n.
Definition next_himodseq_dn : im Z := do! m := get_m in let n := u64 (i_himodseq_dn m + 1) in do! _ := mod_m (set_himodseq_dn n) in st_ret n.
Definition detect_hi_uid_dn (uid_dn : Z) (m : imaildir_t) : imaildir_t := if uid_dn >? i_hi_uid_dn m then set_hi_uid_dn uid_dn m else m.
Definition detect_hi_uid_local (uid_local : Z) (m : imaildir_t) : imaildir_t := if uid_local >? i_hi_uid_local m then set_hi_uid_local uid_local m else m.

(** ** What the sessions are told *)

(** The updates are made before any is sent; neither can fail here. *)
Definition send_updates (refs : option Z) (arg : update_arg_u) : im unit :=
  mod_m (fun m => set_dns (map (fun dn => mkLink (dl_id dn) (dl_views dn) (dl_max_uid_dn dn) (dl_updates dn ++ [mkUpdate refs arg])) (i_dns m)) m).
(** [dn_imaildir_update(requester, update)] *)
Definition send_update_to (id : Z) (arg : update_arg_u) : im unit :=
  mod_m (fun m => set_dns (map (fun dn => if dl_id dn =? id then mkLink (dl_id dn) (dl_views dn) (dl_max_uid_dn dn) (dl_updates dn ++ [mkUpdate None arg]) else dn) (i_dns m)) m).
Definition distribute_update_new (msg : msg_t) : im unit := send_updates None (UPDATE_NEW (msg_view_new msg)).
Definition distribute_update_meta (msg : msg_t) : im unit := send_updates None (UPDATE_META (msg_view_new msg)).

Definition remove_and_delete_msg (msg : msg_t) : im unit :=
  do! _ := (if m_filename msg then drop_cmd file_io else st_ret tt) in
  do! _ := (if modseq (m_mod msg) =? 0 then st_ret tt else erase_mod (modseq (m_mod msg))) in
  mod_m (fun m => set_msgs (delete (m_key msg) (i_msgs m)) m).
(** [old_msg_new] with the references of the updates; [ref_dn] with its finalizer. *)
Definition old_msg_new (key : msg_key_t) (refs : Z) : im Z :=
  do! m := get_m in
  do! _ := mod_m (set_olds (<[i_next_old m := (key, refs)]> (i_olds m)) (i_next_old m + 1)) in
  st_ret (i_next_old m).
Definition ref_dn (id : Z) : im unit :=
  do! m := get_m in
  match i_olds m !! id with
  | None => st_lift (Stop OutOfBounds)
  | Some (key, n) =>
      if n =? 1 then
        do! _ := mod_m (set_olds (delete id (i_olds m)) (i_next_old m)) in
        do! msg := the_msg key in
        remove_and_delete_msg msg
      else mod_m (set_olds (<[id := (key, n - 1)]> (i_olds m)) (i_next_old m))
  end.
Definition distribute_update_expunge (expunge : msg_expunge_t) (msg : msg_t) : im unit :=
  do! m := get_m in
  match i_dns m with
  | [] => remove_and_delete_msg msg
  | _ =>
      do! old_msg := old_msg_new (m_key msg) (1 + zlen (i_dns m)) in
      do! _ := send_updates (Some old_msg)
                 (UPDATE_EXPUNGE (msg_expunge_new (e_key expunge) (e_uid_dn expunge) (e_state expunge) (modseq (e_mod expunge)))) in
      ref_dn old_msg
  end.

(** ** Changes of messages *)

Definition update_msg_flags (key : msg_key_t) (flags : msg_flags_t) : im unit :=
  do! msg := the_msg key in
  match m_state msg with
  | MSG_UNFILLED | MSG_NOT4ME => st_fail E_INTERNAL
  | MSG_FILLED | MSG_EXPUNGED =>
      if msg_flags_eq (m_flags msg) flags then st_ret tt
      else
        do! _ := erase_mod (modseq (m_mod msg)) in
        do! n := next_himodseq_dn in
        let msg := msg_set_modseq n (msg_set_flags flags msg) in
        do! _ := put_msg msg in
        do! _ := ins_mod n in
        do! _ := (if decide (m_state msg = MSG_FILLED) then on_log (update_msg msg) else on_log (set_explicit_modseq_dn n)) in
        distribute_update_meta msg
  end.
Definition imaildir_up_update_flags (key : msg_key_t) (flags : msg_flags_t) : im unit :=
  do! msg := the_msg key in
  match m_state msg with
  | MSG_UNFILLED | MSG_NOT4ME =>
      if msg_flags_eq flags (m_flags msg) then st_ret tt
      else
        let msg := msg_set_flags flags msg in
        do! _ := put_msg msg in
        on_log (update_msg msg)
  | MSG_FILLED | MSG_EXPUNGED => update_msg_flags key flags
  end.

Definition finalize_msg (msg : msg_t) : im msg_t :=
  do! uid := next_uid_dn in
  do! n := next_himodseq_dn in
  do! _ := ins_mod n in
  let msg := msg_set_state MSG_FILLED (msg_set_modseq n (msg_set_uid_dn uid msg)) in
  do! _ := put_msg msg in
  st_ret msg.
Definition imaildir_new_tmp_id : im Z := do! m := get_m in do! _ := mod_m (set_tmp_count (u64 (i_tmp_count m + 1))) in st_ret (i_tmp_count m).
(** [epoch] is what [dtime] gave. *)
Definition handle_new_msg_file (epoch : Z) (msg : msg_t) (len : Z) : im msg_t :=
  do! cur_name := or_fail (
    do! cur_name := st_lift (match maildir_name_write epoch (m_key msg) len hostname None (mkD [] 255 true) with
                             | (Ok _, d) => Ok (d_data d) | (Err e, _) => Err e | (Stop x, _) => Stop x end) in
    do! _ := file_io in
    st_ret cur_name) (drop_cmd file_io) in
  do! msg := st_lift (msg_set_file len SUBDIR_CUR cur_name msg) in
  do! _ := put_msg msg in
  st_ret msg.

Definition zero_time : imap_time_t := mkTime 0 0 0 0 0 0 0 0.
Definition imaildir_up_new_msg (uid_up : Z) (flags : msg_flags_t) : im msg_key_t :=
  let msg := msg_new (KEY_UP uid_up) 0 MSG_UNFILLED zero_time flags 0 in
  do! _ := on_log (update_msg msg) in
  do! _ := ins_msg msg in
  st_ret (KEY_UP uid_up).
(** The message, and whether it is expunged. *)
Definition imaildir_up_lookup_msg (m : imaildir_t) (uid_up : Z) : option msg_t * bool :=
  match i_msgs m !! KEY_UP uid_up with
  | None => (None, bool_decide (is_Some (i_expunged m !! KEY_UP uid_up)))
  | Some msg => (Some msg, bool_decide (m_state msg = MSG_EXPUNGED))
  end.
Definition imaildir_up_handle_static_fetch_attr (epoch : Z) (key : msg_key_t) (fetch : ie_fetch_resp_t) : im unit :=
  do! msg := the_msg key in
  if negb (bool_decide (m_state msg = MSG_UNFILLED)) then st_ret tt
  else
    match fr_extras fetch with
    | [] => st_fail E_RESPONSE
    | extra :: next =>
        if year (fr_intdate fetch) =? 0 then st_fail E_RESPONSE
        else if bool_decide (is_Some (re_sect extra)) || bool_decide (is_Some (re_offset extra)) || negb (match next with [] => true | _ => false end) then st_fail E_RESPONSE
        else
          let msg := msg_set_internaldate (fr_intdate fetch) msg in
          do! _ := put_msg msg in
          do! _ := imaildir_new_tmp_id in
          do! content := st_lift (match re_content extra with Some c => Ok c | None => Stop OutOfBounds end) in
          do! (len, not4me) := (match process_msg with
                                | Some f => st_lift (f content)
                                | None => do! _ := file_io in st_ret (zlen content, false)
                                end) in
          if not4me : bool then
            let msg := msg_set_state MSG_NOT4ME msg in
            do! _ := put_msg msg in
            on_log (update_msg msg)
          else
            do! msg := handle_new_msg_file epoch msg len in
            do! msg := finalize_msg msg in
            do! _ := on_log (update_msg msg) in
            distribute_update_new msg
    end.
Definition delete_msg (key : msg_key_t) : im unit :=
  do! m := get_m in
  let msg := i_msgs m !! key in
  match i_expunged m !! key, msg with
  | None, None => st_ret tt
  | expunge, _ =>
      do! expunge :=
        (match expunge, msg with
         | None, None => st_lift (Stop OutOfBounds)
         | None, Some msg =>
             do! n := (if m_uid_dn msg =? 0 then st_ret 0 else next_himodseq_dn) in
             let expunge := msg_expunge_new key (m_uid_dn msg) MSG_EXPUNGE_PUSHED n in
             do! _ := ins_expunge expunge in
             do! _ := (if n =? 0 then st_ret tt else ins_mod n) in
             do! _ := on_log (update_expunge expunge) in
             st_ret expunge
         | Some expunge, _ =>
             if decide (e_state expunge = MSG_EXPUNGE_PUSHED) then st_ret expunge
             else
               let expunge := mkExpunge (e_key expunge) (e_uid_dn expunge) MSG_EXPUNGE_PUSHED (e_mod expunge) in
               do! _ := put_expunge expunge in
               do! _ := on_log (update_expunge expunge) in
               st_ret expunge
         end) in
      match msg with
      | None => st_ret tt
      | Some msg =>
          match m_state msg with
          | MSG_FILLED =>
              let msg := msg_set_state MSG_EXPUNGED msg in
              do! _ := put_msg msg in
              distribute_update_expunge expunge msg
          | MSG_EXPUNGED => st_ret tt
          | MSG_UNFILLED | MSG_NOT4ME => remove_and_delete_msg msg
          end
      end
  end.

(** [now] is [time(NULL)], [len] the length of the file. *)
Definition imaildir_add_local_file (epoch uid_up len : Z) (intdate : imap_time_t) (flags : msg_flags_t) : im Z :=
  do! key := (if uid_up >? 0 then st_ret (KEY_UP uid_up) else do! n := next_uid_local in st_ret (KEY_LOCAL n)) in
  do! m := get_m in
  do! msg := (match i_msgs m !! key with
              | Some msg =>
                  let msg := msg_set_internaldate intdate msg in
                  do! _ := put_msg msg in st_ret msg
              | None =>
                  let msg := msg_new key 0 MSG_UNFILLED intdate flags 0 in
                  do! _ := ins_msg msg in st_ret msg
              end) in
  do! _ := or_fail (on_log (update_msg msg)) (drop_cmd file_io) in
  do! msg := handle_new_msg_file epoch msg len in
  do! msg := finalize_msg msg in
  do! _ := on_log (update_msg msg) in
  do! _ := distribute_update_new msg in
  st_ret (m_uid_dn msg).

(** ** Requests of the sessions *)

Definition local_store_one (store : msg_store_cmd_t) (msg : msg_t) : im unit :=
  let old_flags := m_flags msg in
  let cmd_flags := msg_flags_from_flags (ms_flags store) in
  do! new_flags :=
    (if ms_sign store =? 0 then st_ret cmd_flags
     else if ms_sign store =? 1 then st_ret (msg_flags_or old_flags cmd_flags)
     else if ms_sign store =? -1 then st_ret (msg_flags_and old_flags (msg_flags_not cmd_flags))
     else st_fail E_INTERNAL) in
  update_msg_flags (m_key msg) new_flags.
Definition relay_update_req_store_one (store : msg_store_cmd_t) (key : msg_key_t) (ssb : T Z) : im (T Z) :=
  do! m := get_m in
  match i_msgs m !! key with
  | None => st_ret ssb
  | Some msg =>
      if (uid_up key =? 0) || bool_decide (m_state msg = MSG_EXPUNGED) then do! _ := local_store_one store msg in st_ret ssb
      else st_lift (seq_set_builder_add_val (uid_up key) ssb)
  end.
Definition relay_update_req_expunge_one (key : msg_key_t) (ssb : T Z) : im (T Z) :=
  if uid_up key =? 0 then do! _ := delete_msg key in st_ret ssb
  else
    do! m := get_m in
    match i_msgs m !! key with
    | None => st_ret ssb
    | Some msg =>
        if decide (m_state msg = MSG_EXPUNGED) then st_ret ssb else st_lift (seq_set_builder_add_val (uid_up key) ssb)
    end.
Fixpoint relay_keys (one : msg_key_t -> T Z -> im (T Z)) (keys : list msg_key_t) (ssb : T Z) : im (T Z) :=
  match keys with
  | [] => st_ret ssb
  | key :: keys => do! ssb := one key ssb in relay_keys one keys ssb
  end.
Definition write_tag (id : Z) : bytes := render (lit "imaildir%x") [FU id].
Definition next_tag : im bytes := do! m := get_m in do! _ := mod_m (set_tag (u64 (i_tag m + 1))) in st_ret (write_tag (i_tag m)).
(** The command to relay, or [None] when the request was answered here. *)
Definition relay_update_req_store (requester : Z) (store : msg_store_cmd_t) : im (option imap_cmd_t) :=
  do! ssb := relay_keys (relay_update_req_store_one store) (ms_keys store) seq_set_builder_prep in
  do! uids_up := st_lift (seq_set_builder_extract ssb) in
  match uids_up with
  | [] => do! _ := send_update_to requester (UPDATE_SYNC None) in st_ret None
  | _ =>
      do! tag := next_tag in
      st_ret (Some (mkCmd tag (IMAP_CMD_STORE (mkStore true uids_up (ms_mods store) (ms_sign store) false (ms_flags store)))))
  end.
Definition relay_update_req_expunge (requester : Z) (keys : list msg_key_t) : im (option imap_cmd_t) :=
  do! ssb := relay_keys relay_update_req_expunge_one keys seq_set_builder_prep in
  do! uids_up := st_lift (seq_set_builder_extract ssb) in
  match uids_up with
  | [] => do! _ := send_update_to requester (UPDATE_SYNC None) in st_ret None
  | _ => do! tag := next_tag in st_ret (Some (mkCmd tag (IMAP_CMD_EXPUNGE uids_up)))
  end.
Definition imaildir_dn_build_views (id : Z) : im (list msg_view_t * Z * Z) :=
  do! m := get_m in
  do! log := get_log in
  let views := map msg_view_new (filter (fun msg => m_state msg = MSG_FILLED) (map_to_list (i_msgs m)).*2) in
  do! _ := mod_m (set_dns (i_dns m ++ [mkLink id views (i_hi_uid_dn m) []])) in
  st_ret (views, i_hi_uid_dn m, l_uidvld_dn log).
Definition eject_dn_link (id : Z) : im unit := mod_m (fun m => set_dns (filter (fun dn => dl_id dn <> id) (i_dns m)) m).
Definition imaildir_dn_open_msg (key : msg_key_t) : im unit :=
  do! m := get_m in
  match i_msgs m !! key with
  | None => st_fail E_INTERNAL
  | Some msg =>
      do! _ := file_io in
      put_msg (msg_set_open_fds (m_open_fds msg + 1) msg)
  end.
Definition imaildir_dn_close_msg (key : msg_key_t) : im unit :=
  do! m := get_m in
  match i_msgs m !! key with
  | None => st_lift (Stop Fatal)
  | Some msg => put_msg (msg_set_open_fds (m_open_fds msg - 1) msg)
  end.

(** ** Opening *)

(** [jsw_cmp_msg_key] *)
Definition msg_le (a b : msg_t) : Prop :=
  let ka := m_key a in let kb := m_key b in uid_up ka < uid_up kb \/ uid_up ka = uid_up kb /\ uid_local ka <= uid_local kb.
#[export] Instance msg_le_dec : RelDecision msg_le.
Proof. intros a b. unfold msg_le. apply _. Defined.
(** The nodes of a tree of messages, in order. *)
Definition in_order (t : gmap msg_key_t msg_t) : list msg_t := merge_sort msg_le (map_to_list t).*2.

(** What [readdir] gives: the names, and whether they are directories. *)
Definition listing : Type := list (bytes * bool).
Definition add_msg_to_maildir (subdir : subdir_type_e) (file : bytes * bool) : im unit :=
  let '(name, is_dir) := file in
  if is_dir : bool then st_ret tt
  else if zlen name <? 16 then st_lift (Stop OutOfBounds)  (* key and len are not initialised *)
  else
    match maildir_name_parse name (mkOuts None (Some (mkKey 0 0)) (Some 0) None None) with
    | (Err E_PARAM, _) => st_ret tt
    | (Err e, _) => st_fail e
    | (Stop x, _) => st_lift (Stop x)
    | (Ok _, o) =>
        let key := default (mkKey 0 0) (o_key o) in
        let len := default 0 (o_len o) in
        do! m := get_m in
        match i_msgs m !! key with
        | None =>
            match i_expunged m !! key with
            | None => st_fail E_INTERNAL
            | Some _ => file_io
            end
        | Some msg =>
            match m_state msg with
            | MSG_UNFILLED | MSG_NOT4ME =>
                do! msg := finalize_msg msg in
                do! _ := on_log (update_msg msg) in
                do! msg := st_lift (msg_set_file len subdir name msg) in
                put_msg msg
            | MSG_FILLED => do! msg := st_lift (msg_set_file len subdir name msg) in put_msg msg
            | MSG_EXPUNGED => st_ret tt
            end
        end
    end.
Definition handle_missing_file (msg : msg_t) : im bool :=
  match m_state msg with
  | MSG_UNFILLED | MSG_NOT4ME | MSG_EXPUNGED => st_ret false
  | MSG_FILLED =>
      do! n := (if m_uid_dn msg =? 0 then st_ret 0 else next_himodseq_dn) in
      let expunge := msg_expunge_new (m_key msg) (m_uid_dn msg) MSG_EXPUNGE_UNPUSHED n in
      do! _ := on_log (update_expunge expunge) in
      do! _ := ins_expunge expunge in
      st_ret true
  end.
Definition populate_msg (msg : msg_t) : im unit :=
  do! drop_msg := (if m_filename msg then st_ret false else handle_missing_file msg) in
  if drop_msg : bool then
    do! _ := mod_m (fun m => set_msgs (delete (m_key msg) (i_msgs m)) m) in
    if modseq (m_mod msg) =? 0 then st_ret tt else erase_mod (modseq (m_mod msg))
  else st_ret tt.
Fixpoint st_each {A} (f : A -> im unit) (l : list A) : im unit :=
  match l with [] => st_ret tt | a :: l => do! _ := f a in st_each f l end.
Definition populate_msgs (cur new : listing) : im unit :=
  do! _ := file_io in
  do! _ := st_each (add_msg_to_maildir SUBDIR_CUR) cur in
  do! _ := file_io in
  do! _ := st_each (add_msg_to_maildir SUBDIR_NEW) new in
  do! m := get_m in
  st_each populate_msg (in_order (i_msgs m)).

Definition imaildir_read_cache_and_files (files : option (listing * listing)) : im unit :=
  do! db := on_log imaildir_log_open in
  do! _ := mod_m (fun m => set_himodseq_dn (db_himodseq_dn db) (set_mods (db_mods db) (set_expunged (db_expunged db) (set_msgs (db_msgs db) m)))) in
  do! _ := (match files with Some (cur, new) => populate_msgs cur new | None => st_ret tt end) in
  do! m := get_m in
  do! _ := mod_m (fun m => foldl (fun m msg => detect_hi_uid_local (uid_local (m_key msg)) (detect_hi_uid_dn (m_uid_dn msg) m)) m (map_to_list (i_msgs m)).*2) in
  mod_m (fun m => foldl (fun m x => detect_hi_uid_local (uid_local (e_key x)) (detect_hi_uid_dn (e_uid_dn x) m)) m (map_to_list (i_expunged m)).*2).

Definition imaildir_log_rm : im unit := do! _ := file_io in on_log (set_cache []).
(** The for loop over cur, new and tmp; which of the files are gone after a failure is not modelled. *)
Definition delete_all_msg_files : im unit := file_io.
Definition empty_imaildir : imaildir_t := mkIm 0 0 0 ∅ ∅ ∅ [] ∅ 0 0 0.
(** [imaildir_init], or with no files [imaildir_init_lite]. *)
Definition imaildir_init_ex (files : option (listing * listing)) : im unit :=
  do! _ := file_io in
  do! is_invalid := (fun b => (Ok (b_invalid b), b)) in
  do! _ := (if is_invalid : bool then
              do! _ := imaildir_log_rm in
              do! _ := delete_all_msg_files in
              do! _ := file_io in
              set_invalid false
            else st_ret tt) in
  do! _ := mod_m (fun _ => empty_imaildir) in
  imaildir_read_cache_and_files files.
Definition free_trees : im unit := mod_m (fun m => set_msgs ∅ (set_expunged ∅ (set_mods ∅ m))).
Definition imaildir_up_check_uidvld_up (uidvld_up now : Z) (files : listing * listing) : im unit :=
  do! log := get_log in
  if l_uidvld_up log =? uidvld_up then st_ret tt
  else
    do! _ := (if l_uidvld_up log =? 0 then st_ret tt
              else
                do! _ := file_io in
                do! _ := set_invalid true in
                do! _ := on_log iface_close in
                do! _ := imaildir_log_rm in
                do! _ := delete_all_msg_files in
                do! _ := free_trees in
                do! _ := file_io in
                do! _ := set_invalid false in
                imaildir_read_cache_and_files (Some files)) in
    on_log (set_uidvlds uidvld_up (u32 (uidvld_up + now))).
Definition imaildir_up_set_himodseq_up (himodseq : Z) : im unit := on_log (set_himodseq_up himodseq).

(** ** The provider *)

Definition unfilled_uids (m : imaildir_t) : list Z :=
  map (fun msg => uid_up (m_key msg)) (filter (fun msg => m_state msg = MSG_UNFILLED /\ uid_up (m_key msg) <> 0) (in_order (i_msgs m))).
Definition imaildir_up_get_unfilled_msgs (ssb : T Z) : im (T Z) :=
  do! m := get_m in st_lift (res_fold seq_set_builder_add_val (unfilled_uids m) ssb).
Definition exp_le (a b : msg_expunge_t) : Prop :=
  let ka := e_key a in let kb := e_key b in uid_up ka < uid_up kb \/ uid_up ka = uid_up kb /\ uid_local ka <= uid_local kb.
#[export] Instance exp_le_dec : RelDecision exp_le.
Proof. intros a b. unfold exp_le. apply _. Defined.
Definition unpushed_uids (m : imaildir_t) : list Z :=
  map (fun x => uid_up (e_key x)) (filter (fun x => e_state x = MSG_EXPUNGE_UNPUSHED /\ uid_up (e_key x) <> 0) (merge_sort exp_le (map_to_list (i_expunged m)).*2)).
Definition imaildir_up_get_unpushed_expunges (m : imaildir_t) : res ie_seq_set_t :=
  let! ssb := res_fold seq_set_builder_add_val (unpushed_uids m) (seq_set_builder_prep : T Z) in seq_set_builder_extract ssb.
(** [msg_flags_from_fetch_flags] *)
Definition msg_flags_from_fetch_flags (ff : option ie_fflags_t) : msg_flags_t :=
  match ff with
  | None => Msg.mkFlags false false false false false
  | Some ff => Msg.mkFlags (ff_answered ff) (ff_flagged ff) (ff_seen ff) (ff_draft ff) (ff_deleted ff)
  end.
(** [up_fetch_resp] of libimaildir/up.c, as far as it changes the mailbox. *)
Definition up_fetch_resp (epoch : Z) (fetch : ie_fetch_resp_t) : im unit :=
  if fr_uid fetch =? 0 then st_ret tt
  else
    do! m := get_m in
    let '(msg, expunged) := imaildir_up_lookup_msg m (fr_uid fetch) in
    if expunged : bool then st_ret tt
    else
      let flags := msg_flags_from_fetch_flags (fr_flags fetch) in
      let extras key := match fr_extras fetch with [] => st_ret tt | _ => imaildir_up_handle_static_fetch_attr epoch key fetch end in
      match msg with
      | None => do! key := imaildir_up_new_msg (fr_uid fetch) flags in extras key
      | Some msg =>
          if decide (m_state msg = MSG_NOT4ME) then st_ret tt
          else
            do! _ := (match fr_flags fetch with Some _ => imaildir_up_update_flags (m_key msg) flags | None => st_ret tt end) in
            extras (m_key msg)
      end.

(** ** STATUS *)

Definition count_status (acc : Z * Z) (msg : msg_t) : Z * Z :=
  let '(messages, unseen) := acc in
  if uid_local (m_key msg) >? 0 then (u32 (messages + 1), if seen (m_flags msg) then unseen else u32 (unseen + 1))
  else if decide (m_state msg = MSG_NOT4ME) then
    (if messages =? 0 then messages else messages - 1,
     if negb (seen (m_flags msg)) && negb (unseen =? 0) then unseen - 1 else unseen)
  else acc.
Definition imaildir_process_status_resp (m : imaildir_t) (log : log_t) (sa : ie_status_attr_resp_t) : ie_status_attr_resp_t :=
  let has attr := negb (Z.land (sa_attrs sa) attr =? 0) in
  let '(messages, unseen) :=
    if has (Z.lor IE_STATUS_ATTR_MESSAGES IE_STATUS_ATTR_UNSEEN) then foldl count_status (sa_messages sa, sa_unseen sa) (in_order (i_msgs m))
    else (sa_messages sa, sa_unseen sa) in
  mkStatusAttr (sa_attrs sa)
    (if has IE_STATUS_ATTR_MESSAGES then messages else 0) 0
    (if has IE_STATUS_ATTR_UIDNEXT then u32 (i_hi_uid_dn m + 1) else 0)
    (if has IE_STATUS_ATTR_UIDVLD then l_uidvld_dn log else 0)
    (if has IE_STATUS_ATTR_UNSEEN then unseen else 0)
    (if has IE_STATUS_ATTR_HIMODSEQ then i_himodseq_dn m else 0).
End imaildir.
