(* ===== verification/Mailbox.v ===== *)
(** * The invariant of a mailbox (libimaildir/imaildir.c over log_file.c)

    What an open mailbox has to do with the entries of its log: the trees say what the last
    entries of the keys say, and the updates of every session lead from its views to the trees.
    Rules for the steps of an operation, any of which may fail, and the lemmas by which the
    operations keep the invariant. *)

From stdpp Require Import gmultiset sorting.
From Stdlib Require Import Sorted.
From S2P Require Import Prelude Dstr Fmt Cvt Msg MaildirLog MaildirName Hashmap LogFile LogDurable ImapTypes ImapWrite OrdTree SeqSet ImapSearch Dn DnSync Imaildir.

(** ** What operations on the log leave alone *)

Section frames.
Context `{Alloc} `{Io}.

(** The values in memory are kept, and the file operations are counted. *)
Definition framed {A} (m : stm world A) : Prop := forall w, vals (w_log (m w).2) = vals (w_log w) /\ w_tick w <= w_tick (m w).2.
Lemma framed_ret {A} (a : A) : framed (st_ret a).
Proof. intros w. split; [done|]. cbn. lia. Qed.
Lemma framed_lift {A} (r : res A) : framed (st_lift r).
Proof. intros w. split; [done|]. cbn. lia. Qed.
Lemma framed_bind {A B} (m : stm world A) (k : A -> stm world B) : framed m -> (forall a, framed (k a)) -> framed (st_bind m k).
Proof.
  intros Hm Hk w. specialize (Hm w). unfold st_bind. destruct (m w) as [[a|e|x] w']; cbn [snd] in *; [|done..].
  destruct (Hk a w') as [E L]. destruct Hm as [E' L']. split; [congruence|lia].
Qed.
Lemma framed_io : framed io.
Proof. intros w. unfold io. split; [done|]. cbn. lia. Qed.
Lemma framed_mod f : (forall l, vals (f l) = vals l) -> framed (mod_log f).
Proof. intros Hf w. split; [apply Hf|]. cbn. lia. Qed.
Lemma framed_cache s : framed (set_cache s).
Proof. intros w. split; [done|]. cbn. lia. Qed.
Lemma framed_get : framed get_w.
Proof. intros w. split; [done|]. cbn. lia. Qed.
Lemma framed_fwrite t : framed (fwrite_f t).
Proof. intros w. unfold fwrite_f. destruct (negb _); [split; [done|cbn; lia]|]. destruct (io_ok _); (split; [done|cbn; lia]). Qed.
Ltac frame := repeat first
  [ assumption | progress intros
  | match goal with
    | |- framed (st_ret _) => apply framed_ret | |- framed (st_lift _) => apply framed_lift | |- framed (st_fail _) => apply framed_lift
    | |- framed io => apply framed_io | |- framed (set_cache _) => apply framed_cache | |- framed get_w => apply framed_get
    | |- framed (fwrite_f _) => apply framed_fwrite | |- framed (mod_log _) => apply framed_mod; intros []; reflexivity
    | |- framed (st_bind _ _) => apply framed_bind | |- framed (match ?x with _ => _ end) => destruct x
    end ].
Lemma framed_compact_read fuel : forall f s, framed (compact_read fuel f s).
Proof. induction fuel as [|fuel IH]; intros f s; cbn [compact_read]; [apply framed_lift|]. frame. apply IH. Qed.
Lemma framed_compact_write fuel : forall i h objs text lines, framed (compact_write fuel i h objs text lines).
Proof. induction fuel as [|fuel IH]; intros i h objs text lines; cbn [compact_write]; [apply framed_lift|]. frame. apply IH. Qed.
Lemma framed_compact : framed maybe_compact.
Proof. unfold maybe_compact. frame; [apply framed_compact_read|apply framed_compact_write]. Qed.
Lemma framed_line t : framed (write_line t).
Proof. unfold write_line. frame. apply framed_compact. Qed.

(** The values in memory after a write. *)
Definition log_vals (e : entry) (v : Z * Z * Z) : Z * Z * Z :=
  match e with EUidvlds up dn => (up, dn, v.2) | EHimodseqUp n => (v.1, n) | _ => v end.
Lemma write_frame e w : vals (w_log (write e w).2) = log_vals e (vals (w_log w)) /\ w_tick w <= w_tick (write e w).2.
Proof.
  destruct e; cbn [write log_vals]; try apply framed_line; unfold set_uidvlds, set_himodseq_up, st_bind, mod_log;
    match goal with |- context [write_line ?t ?w] => pose proof (framed_line t w) as [Hv Ht] end; rewrite Hv; by destruct (w_log w).
Qed.
(** A write to an open log is counted; one that returns was not too late. *)
Lemma line_tick e w : entry_ok e -> l_f (w_log w) = true ->
  w_tick w < w_tick (write_line (entry_line e) w).2 /\ ((write_line (entry_line e) w).1 = Ok tt -> io_ok (w_tick w) = true).
Proof.
  intros He Ho. set (rest := do! _ := io in do! _ := mod_log (fun l => set_counts (u64 (l_lines l + 1)) (u64 (l_updates l + 1)) l) in maybe_compact).
  assert (framed rest) as Hr by (unfold rest; frame; apply framed_compact).
  set (line := entry_text (entry_pair e) ++ [nl]).
  assert (write_line (entry_line e) w = st_bind (fwrite_f line) (fun _ => rest) w) as ->.
  { unfold write_line, st_bind at 1, st_lift. by rewrite (buffer_entry e He). }
  unfold st_bind, fwrite_f. rewrite Ho. cbn [negb]. destruct (io_ok (w_tick w)); cbn [fst snd]; [|split; [cbn; lia|intros [=]]].
  split; [|done]. destruct (Hr (mkWorld (w_log w) (w_cache w ++ line) (w_tick w + 1))) as [_ Ht]. cbn [w_tick] in Ht. lia.
Qed.
Lemma write_tick e w : entry_ok e -> l_f (w_log w) = true ->
  w_tick w < w_tick (write e w).2 /\ ((write e w).1 = Ok tt -> io_ok (w_tick w) = true).
Proof.
  intros He Ho. destruct e as [up dn|n|n|m|x]; cbn [write]; try (by apply (line_tick _ w He)).
  - apply (line_tick _ (mkWorld (set_vlds up dn (w_log w)) (w_cache w) (w_tick w)) He Ho).
  - apply (line_tick _ (mkWorld (set_himodseq n (w_log w)) (w_cache w) (w_tick w)) He Ho).
Qed.
Lemma framed_lines fuel : forall f db n, framed (read_all_lines fuel f db n).
Proof. induction fuel as [|fuel IH]; intros f db n; cbn [read_all_lines]; [apply framed_lift|]. frame. apply IH. Qed.
Definition ticks {A} (m : stm world A) : Prop := forall w, w_tick w <= w_tick (m w).2.
Lemma ticks_framed {A} (m : stm world A) : framed m -> ticks m.
Proof. intros Hm w. apply Hm. Qed.
Lemma ticks_bind {A B} (m : stm world A) (k : A -> stm world B) : ticks m -> (forall a, ticks (k a)) -> ticks (st_bind m k).
Proof.
  intros Hm Hk w. specialize (Hm w). unfold st_bind. destruct (m w) as [[a|e|x] w']; cbn [snd] in *; [|done..]. specialize (Hk a w'). lia.
Qed.
Definition opens (m : stm world db_t) : Prop := forall w db w', m w = (Ok db, w') ->
  vals (w_log w') = vals (db_log db) /\ exists t, io_ok t = true /\ w_tick w <= t /\ w_tick w' = t + 1.
Lemma opens_bind {A} (m : stm world A) k : framed m -> (forall a, opens (k a)) -> opens (st_bind m k).
Proof.
  intros Hm Hk w db w' E. specialize (Hm w). unfold st_bind in E. destruct (m w) as [[a|?|?] w1]; [|done..]. cbn [snd] in Hm.
  apply Hk in E as (Hv & t & Ht & Hl & E). split; [done|]. exists t. split; [done|]. lia.
Qed.
Lemma open_tick : opens imaildir_log_open.
Proof.
  unfold imaildir_log_open, read_all_keys.
  repeat match goal with
  | |- opens (st_bind io (fun _ => st_bind (mod_log _) _)) => fail 1
  | |- opens (st_bind _ _) => apply opens_bind; [|intros ?]
  | |- opens (match ?x with _ => _ end) => destruct x
  | |- framed _ => frame; apply framed_lines
  end.
  intros w db w'. unfold st_bind, io, mod_log. destruct (io_ok (w_tick w)) eqn:E; [|done]. intros [= <- <-]. cbn [w_log w_tick].
  split; [done|]. exists (w_tick w). split; [done|]. lia.
Qed.
End frames.

(** ** What is in the log *)

Definition ent_key (e : entry) : option msg_key_t := match e with EMsg m => Some (m_key m) | EExpunge x => Some (e_key x) | _ => None end.
Definition ent_uid (e : entry) : Z := match e with EMsg m => m_uid_dn m | EExpunge x => e_uid_dn x | _ => 0 end.
Definition ent_modseq (e : entry) : Z := match e with EMsg m => msg_modseq m | EExpunge x => exp_modseq x | _ => 0 end.

Definition blank (e : entry) : Prop := match e with EExpunge x => e_uid_dn x = 0 | _ => False end.

(** A view that was handed out is in the log. *)
Definition given_in (es : list entry) (v : msg_view_t) : Prop :=
  v_uid_dn v <> 0 /\ exists e, e ∈ es /\ ent_key e = Some (v_key v) /\ ent_uid e = v_uid_dn v.
(** The entries of a log: a message has a uid and a modseq or neither, and keeps the uid it has; a uid has one
    message. *)
Record log_ok (es : list entry) : Prop := {
  lo_zero : forall e, e ∈ es -> ent_uid e = 0 <-> ent_modseq e = 0;
  lo_last : forall k e e', last_for (LOG_KEY_MSG k) es = Some e -> ent_uid e = 0 -> e' ∈ es -> ent_key e' = Some k -> ent_uid e' = 0;
  lo_uids : forall e e', e ∈ es -> e' ∈ es -> ent_uid e <> 0 -> ent_uid e' <> 0 -> ent_uid e = ent_uid e' <-> ent_key e = ent_key e';
  lo_local : forall k e, last_for (LOG_KEY_MSG k) es = Some e -> blank e -> uid_local k = 0;
  lo_sorted : StronglySorted Z.le (explicit es)
}.

Lemma ent_key_lk e k : ent_key e = Some k <-> entry_lk e = LOG_KEY_MSG k.
Proof. destruct e; cbn; split; congruence. Qed.
Lemma ent_read e : ent_key (as_read e) = ent_key e /\ ent_uid (as_read e) = ent_uid e /\ ent_modseq (as_read e) = ent_modseq e.
Proof. by destruct e. Qed.
Lemma last_in k es x : last_for (LOG_KEY_MSG k) es = Some x -> exists e, e ∈ es /\ ent_key e = Some k /\ x = as_read e.
Proof. intros (e & He & Hk & ->)%last_some. exists e. by rewrite ent_key_lk. Qed.
Lemma last_none k es : last_for (LOG_KEY_MSG k) es = None -> forall e, e ∈ es -> ent_key e <> Some k.
Proof.
  unfold last_for. intros Hn%fmap_None%last_None e He Hk%ent_key_lk. assert (e ∈ filter (fun e => entry_lk e = LOG_KEY_MSG k) es) as Hin by (by apply list_elem_of_filter).
  rewrite Hn in Hin. by apply elem_of_nil in Hin.
Qed.
Lemma last_msg_key es k x : last_for (LOG_KEY_MSG k) es = Some x -> ent_key x = Some k.
Proof. intros (e & _ & Hk & ->)%last_in. by destruct (ent_read e) as (-> & _ & _). Qed.

(** The new entry of a key goes with the old ones. *)
Record fits (es : list entry) (e : entry) : Prop := {
  ft_zero : ent_uid e = 0 <-> ent_modseq e = 0;
  ft_local : forall k, ent_key e = Some k -> blank e -> uid_local k = 0;
  ft_uid : forall k, ent_key e = Some k ->
    match last_for (LOG_KEY_MSG k) es with
    | Some x => ent_uid x = ent_uid e \/ ent_uid x = 0 /\ (ent_uid e <> 0 -> forall e', e' ∈ es -> ent_uid e' <> ent_uid e)
    | None => ent_uid e <> 0 -> forall e', e' ∈ es -> ent_uid e' <> ent_uid e
    end;
  ft_sorted : match e with EModseqDn n => forall n', n' ∈ explicit es -> n' <= n | _ => True end
}.
Lemma explicit_app es e : explicit (es ++ [e]) = explicit es ++ match e with EModseqDn n => [n] | _ => [] end.
Proof. unfold explicit. rewrite omap_app. f_equal. by destruct e. Qed.
Lemma sorted_snoc (l : list Z) n : StronglySorted Z.le l -> (forall n', n' ∈ l -> n' <= n) -> StronglySorted Z.le (l ++ [n]).
Proof.
  induction 1 as [|a l Hs IH Ha]; intros Hn; cbn; [by repeat constructor|]. constructor; [apply IH; intros n' Hn'; apply Hn; by right|].
  apply Forall_app. split; [done|]. repeat constructor. apply Hn. by left.
Qed.
Lemma uid_key es e k : log_ok es -> fits es e -> ent_key e = Some k -> forall e', e' ∈ es -> ent_uid e <> 0 -> ent_uid e' <> 0 ->
  ent_uid e = ent_uid e' <-> ent_key e = ent_key e'.
Proof.
  intros [Hz Hl Hu _ _] [_ _ Hf _] Hk e' He' Hne Hne'. specialize (Hf k Hk). rewrite Hk.
  destruct (last_for (LOG_KEY_MSG k) es) as [x|] eqn:El.
  - destruct (last_in _ _ _ El) as (e0 & He0 & Hk0 & ->). destruct (ent_read e0) as (_ & Eu & _). rewrite Eu in Hf. destruct Hf as [Hf|[Hf Hfr]].
    + rewrite <- Hf, <- Hk0. apply Hu; try done. by rewrite Hf.
    + split; [intros E; by destruct (Hfr Hne e' He')|]. intros E. destruct Hne'. eapply (Hl k _ _ El); [by rewrite Eu|done|done].
  - split; [intros E; by destruct (Hf Hne e' He')|]. intros E. by destruct (last_none _ _ El e' He').
Qed.
Lemma log_ok_snoc es e : log_ok es -> fits es e -> log_ok (es ++ [e]).
Proof.
  intros Hlo Hft. pose proof Hlo as [Hz Hl Hu Hc Hs]. pose proof Hft as [Fz Fl Fu Fs].
  assert (forall e', e' ∈ es ++ [e] -> e' ∈ es \/ e' = e) as Hin by (intros e'; rewrite elem_of_app, list_elem_of_singleton; tauto).
  constructor.
  - intros e' [He'| ->]%Hin; auto.
  - intros k x e'. rewrite last_for_snoc. case_decide as Ek.
    + apply ent_key_lk in Ek. intros [= <-]. destruct (ent_read e) as (_ & -> & _). intros Hu0 [He'| ->]%Hin Hk; [|done].
      specialize (Fu k Ek). destruct (last_for (LOG_KEY_MSG k) es) as [y|] eqn:El; [|by destruct (last_none _ _ El e' He')].
      eapply (Hl k y); try done. destruct Fu as [->|[-> _]]; done.
    + rewrite <- ent_key_lk in Ek. intros El H0 [He'| ->]%Hin Hk; [by eapply Hl|done].
  - intros e1 e2 [H1| ->]%Hin [H2| ->]%Hin N1 N2; [by apply Hu| | |done].
    + destruct (ent_key e) as [k|] eqn:Ek; [|by destruct e]. rewrite <- Ek.
      destruct (uid_key es e k Hlo Hft Ek e1 H1 N2 N1) as [Hk1 Hk2]. split; intros E; symmetry; auto.
    + destruct (ent_key e) as [k|] eqn:Ek; [|by destruct e]. rewrite <- Ek. by apply (uid_key es e k).
  - intros k x. rewrite last_for_snoc. case_decide as Ek; [|apply Hc]. apply ent_key_lk in Ek. intros [= <-] Hf. apply (Fl k Ek). by destruct e.
  - rewrite explicit_app. destruct e; rewrite ?app_nil_r; try done. by apply sorted_snoc.
Qed.
Lemma given_snoc es e v : given_in es v -> given_in (es ++ [e]) v.
Proof. intros (Hn & e' & He & Hk). split; [done|]. exists e'. split; [|done]. apply elem_of_app. by left. Qed.

(** ** The mailbox in memory *)

Definition persisted (m : msg_t) : msg_t := msg_new (m_key m) (m_uid_dn m) (m_state m) (m_internaldate m) (m_flags m) (msg_modseq m).

Record msg_ok (m : imaildir_t) (k : msg_key_t) (msg : msg_t) : Prop := {
  mo_key : m_key msg = k;
  mo_wf : key_wf k;
  mo_time : time_wf (m_internaldate msg);
  mo_state : m_state msg = MSG_FILLED \/ m_state msg = MSG_EXPUNGED <-> m_uid_dn msg <> 0;
  mo_zero : m_uid_dn msg = 0 <-> msg_modseq msg = 0;
  mo_uid : 0 <= m_uid_dn msg <= i_hi_uid_dn m;
  mo_modseq : 0 <= msg_modseq msg <= i_himodseq_dn m
}.
Record exp_ok (m : imaildir_t) (k : msg_key_t) (x : msg_expunge_t) : Prop := {
  xo_key : e_key x = k;
  xo_wf : key_wf k;
  xo_mod : x = msg_expunge_new (e_key x) (e_uid_dn x) (e_state x) (exp_modseq x);
  xo_zero : e_uid_dn x = 0 <-> exp_modseq x = 0;
  xo_pushed : e_uid_dn x = 0 -> e_state x = MSG_EXPUNGE_PUSHED;
  xo_uid : 0 <= e_uid_dn x <= i_hi_uid_dn m;
  xo_modseq : 0 <= exp_modseq x <= i_himodseq_dn m
}.
(** The trees say what the last entry of the key says; a message that is expunged stays while sessions look at it,
    and one that had no uid may have been forgotten. *)
Definition key_agrees (es : list entry) (m : imaildir_t) (k : msg_key_t) : Prop :=
  match last_for (LOG_KEY_MSG k) es with
  | None => i_msgs m !! k = None /\ i_expunged m !! k = None
  | Some (EMsg p) => i_expunged m !! k = None /\ exists msg, i_msgs m !! k = Some msg /\ persisted msg = p /\ m_state msg <> MSG_EXPUNGED
  | Some (EExpunge x) =>
      if decide (e_uid_dn x = 0) then
        (forall msg, i_msgs m !! k = Some msg -> m_uid_dn msg = 0 /\ i_expunged m !! k = None) /\
        forall x', i_expunged m !! k = Some x' -> e_uid_dn x' = 0
      else i_expunged m !! k = Some x /\ forall msg, i_msgs m !! k = Some msg -> m_state msg = MSG_EXPUNGED /\ m_uid_dn msg = e_uid_dn x
  | Some _ => False
  end.

Definition filled_at (m : imaildir_t) (uid : Z) (v : msg_view_t) : Prop :=
  exists k msg, i_msgs m !! k = Some msg /\ m_state msg = MSG_FILLED /\ uid = m_uid_dn msg /\ v = msg_view_new msg.
(** The mailbox as DnSync sees it. *)
Record shows (m : imaildir_t) (mb : mbox) : Prop := {
  sh_ok : mbox_ok mb;
  sh_hi : mb.2 <= i_hi_uid_dn m;
  sh_filled : forall uid v, (uid, v) ∈ mb.1 <-> filled_at m uid v
}.
(** The updates of a session lead from its first views to the mailbox. *)
Definition in_step (m : imaildir_t) (dn : dn_link) : Prop :=
  exists l mb, l ≡ₚ map (fun v => (v_uid_dn v, v)) (dl_views dn) /\ update_all (l, dl_max_uid_dn dn) (dl_updates dn) = Some mb /\ shows m mb.
Definition update_view (u : update_t) : option msg_view_t := match u_arg u with UPDATE_NEW v | UPDATE_META v => Some v | _ => None end.
Definition views_of (m : imaildir_t) : list msg_view_t := i_dns m ≫= fun dn => dl_views dn ++ omap update_view (dl_updates dn).

Record olds_ok (m : imaildir_t) : Prop := {
  ol_msg : forall id k n, i_olds m !! id = Some (k, n) -> id < i_next_old m /\ 1 <= n /\ exists msg, i_msgs m !! k = Some msg /\ m_state msg = MSG_EXPUNGED;
  ol_inj : forall id1 id2 k n1 n2, i_olds m !! id1 = Some (k, n1) -> i_olds m !! id2 = Some (k, n2) -> id1 = id2
}.
Record mem (es : list entry) (m : imaildir_t) : Prop := {
  me_keys : forall k, key_agrees es m k;
  me_msgs : forall k msg, i_msgs m !! k = Some msg -> msg_ok m k msg;
  me_exps : forall k x, i_expunged m !! k = Some x -> exp_ok m k x;
  me_uids : forall e, e ∈ es -> ent_uid e <= i_hi_uid_dn m;
  me_locals : forall e k, e ∈ es -> ent_key e = Some k -> uid_local k <= i_hi_uid_local m;
  me_seqs : forall k e, last_for (LOG_KEY_MSG k) es = Some e -> ent_modseq e <= i_himodseq_dn m;
  me_explicit : forall n, n ∈ explicit es -> n <= i_himodseq_dn m;
  me_hiseq : i_himodseq_dn m = 1 \/ i_himodseq_dn m ∈ explicit es \/ exists k e, last_for (LOG_KEY_MSG k) es = Some e /\ ent_modseq e = i_himodseq_dn m;
  me_pos : 1 <= i_himodseq_dn m /\ 0 <= i_hi_uid_dn m /\ 0 <= i_hi_uid_local m;
  me_mods : msum msg_modseq (i_msgs m) ⊆ i_mods m;
  me_dns : Forall (in_step m) (i_dns m);
  me_given : Forall (given_in es) (views_of m);
  me_olds : olds_ok m
}.

(** What is asked of the rest: no file operation succeeds after the first [LIM], so that no counter wraps around;
    the name of a message file fits its buffer; the hook returns. *)
Definition LIM : Z := 2 ^ 32 - 4.
Class Environment `{Io} `{Hooks} : Prop := {
  io_limit : forall t, LIM <= t -> io_ok t = false;
  hostname_short : zlen hostname <= 32;
  hook_returns : forall f c x, process_msg = Some f -> f c <> Stop x
}.

Section mailbox.
Context `{Alloc} `{Io} `{Hooks} `{!Environment} `{OrdTreeLaws T}.

(** The numbers of an entry were counted up to [n]. *)
Record within (n : Z) (e : entry) : Prop := {
  wi_uid : ent_uid e <= n;
  wi_local : forall k, ent_key e = Some k -> uid_local k <= n;
  wi_modseq : ent_modseq e <= n + 1;
  wi_explicit : match e with EModseqDn x => x <= n + 1 | _ => True end
}.
Lemma within_le n n' es : n <= n' -> Forall (within n) es -> Forall (within n') es.
Proof.
  intros Hn He. eapply Forall_impl; [exact He|]. intros e [Hu Hl Hm Hx]. constructor; [lia|intros k Hk; specialize (Hl k Hk); lia|lia|]. destruct e; try done. lia.
Qed.
Lemma within_snoc n n' es e : n <= n' -> Forall (within n) es -> within n' e -> Forall (within n') (es ++ [e]).
Proof. intros Hn He Hw. apply Forall_app. split; [by eapply within_le|by apply Forall_singleton]. Qed.
Definition budget (w : world) : Z := Z.min (w_tick w) LIM.
Record disk (es : list entry) (w : world) : Prop := {
  dk_file : exists fs, file_says es fs w;
  dk_open : l_f (w_log w) = true;
  dk_vals : vals (w_log w) = (uidvlds_of es, himodseq_up_of es);
  dk_len : zlen es <= budget w;
  dk_log : log_ok es;
  dk_counts : Forall (within (budget w)) es
}.
(** The log when the mailbox is not open. *)
Record shut (es : list entry) (w : world) : Prop := {
  sd_file : exists fs, file_says es fs (iface_close w).2;
  sd_len : zlen es <= w_tick w;
  sd_log : log_ok es;
  sd_counts : Forall (within (w_tick w)) es
}.
Record counted (m : imaildir_t) (w : world) : Prop := {
  co_uid : i_hi_uid_dn m <= budget w;
  co_local : i_hi_uid_local m <= budget w;
  co_modseq : i_himodseq_dn m <= budget w + 1
}.
(** An open mailbox. *)
Record running (es : list entry) (b : box) : Prop := {
  ru_disk : disk es (b_w b);
  ru_mem : mem es (b_m b);
  ru_count : counted (b_m b) (b_w b);
  ru_valid : b_invalid b = false
}.
(** One that has failed: what its sessions were told is in the log. *)
Record failed (es : list entry) (b : box) : Prop := {
  fa_shut : shut es (b_w b);
  fa_given : Forall (given_in es) (views_of (b_m b));
  fa_valid : b_invalid b = false
}.
Definition keeps {A} (es : list entry) (m : stm box A) (b : box) (Q : A -> box -> Prop) : Prop :=
  outcome m b Q (fun b' => exists es', es ⊆ es' /\ failed es' b').

(** ** Rules for the steps of an operation *)

(** Between two steps: the file is as the entries say, whatever the trees are. *)
Record ready (es : list entry) (m : imaildir_t) (w : world) : Prop := {
  re_disk : disk es w;
  re_given : Forall (given_in es) (views_of m)
}.

Lemma disk_shut es w : disk es w -> shut es w.
Proof.
  intros [[fs Hf] _ _ Hl Hlo Hw]. unfold budget in *. constructor; [exists fs; by apply file_closed|lia|done|]. eapply within_le; [|exact Hw]. lia.
Qed.
Lemma disk_tick es w w' : disk es w -> w_log w' = w_log w -> w_cache w' = w_cache w -> w_tick w <= w_tick w' -> disk es w'.
Proof.
  intros [[fs [(tail & ? & ? & ? & ?) ? ? ? ?]] Ho Hv Hl Hlo Hw] El Ec Ht. constructor; rewrite ?El; try done.
  - exists fs. constructor; try done. exists tail. by rewrite Ec, El.
  - unfold budget in *. lia.
  - eapply within_le; [|exact Hw]. unfold budget. lia.
Qed.
Lemma ready_failed es m w : ready es m w -> failed es (mkBox m w false).
Proof. intros [Hd Hg]. constructor; [by apply disk_shut|done|done]. Qed.

Lemma keeps_sub {A} es es' (m : stm box A) b Q : es ⊆ es' -> keeps es' m b Q -> keeps es m b Q.
Proof. intros Hs Hk. eapply out_mono; [exact Hk|done|]. intros b' (es2 & Hs2 & Hf). exists es2. split; [by etransitivity|done]. Qed.
Lemma keeps_mono {A} es (m : stm box A) b (P Q : A -> box -> Prop) : keeps es m b P -> (forall a b', P a b' -> Q a b') -> keeps es m b Q.
Proof. intros Hk Hpq. by eapply out_mono. Qed.
Lemma keeps_bind {A B} es (m : stm box A) (k : A -> stm box B) b P Q : keeps es m b P -> (forall a b', P a b' -> keeps es (k a) b' Q) -> keeps es (st_bind m k) b Q.
Proof. intros Hm Hk. eapply out_step; [exact Hm|done]. Qed.
Lemma step_ret {A B} es (a : A) (k : A -> stm box B) b Q : keeps es (k a) b Q -> keeps es (st_bind (st_ret a) k) b Q.
Proof. done. Qed.
Lemma step_lift {A B} es (r : res A) a (k : A -> stm box B) b Q : r = Ok a -> keeps es (k a) b Q -> keeps es (st_bind (st_lift r) k) b Q.
Proof. by intros ->. Qed.
Lemma step_get {B} es (k : imaildir_t -> stm box B) m w v Q : keeps es (k m) (mkBox m w v) Q -> keeps es (st_bind get_m k) (mkBox m w v) Q.
Proof. done. Qed.
Lemma step_mod {B} es f (k : unit -> stm box B) m w v Q : keeps es (k tt) (mkBox (f m) w v) Q -> keeps es (st_bind (mod_m f) k) (mkBox m w v) Q.
Proof. done. Qed.
Lemma step_assoc {A B C} es (m : stm box A) (f : A -> stm box B) (g : B -> stm box C) b Q :
  keeps es (st_bind m (fun a => st_bind (f a) g)) b Q -> keeps es (st_bind (st_bind m f) g) b Q.
Proof. unfold keeps, outcome, st_bind. by destruct (m b) as [[a|e|x] b']. Qed.
Lemma step_end {A} es (m : stm box A) b Q : keeps es (st_bind m st_ret) b Q -> keeps es m b Q.
Proof. unfold keeps, outcome, st_bind. by destruct (m b) as [[a|e|x] b']. Qed.
Lemma keeps_fail {A} es m w e Q : ready es m w -> keeps es (st_fail e : stm box A) (mkBox m w false) Q.
Proof. intros Hr. exists es. split; [done|by apply ready_failed]. Qed.

Lemma io_world es w : disk es w -> disk es (io w).2 /\ budget w <= budget (io w).2.
Proof. intros Hd. split; [eapply disk_tick; [exact Hd|done|done|cbn; lia]|]. unfold budget. cbn. lia. Qed.
Lemma step_io {B} es (k : unit -> stm box B) m w Q : ready es m w ->
  (forall w', disk es w' -> budget w <= budget w' -> keeps es (k tt) (mkBox m w' false) Q) -> keeps es (st_bind file_io k) (mkBox m w false) Q.
Proof.
  intros [Hd Hg] Hk. destruct (io_world es w Hd) as [Hd' Hb]. specialize (Hk _ Hd' Hb). unfold keeps, outcome, st_bind, file_io, on_log in *. cbn [b_w b_m b_invalid].
  destruct (io w) as [[[]|e|x] w'] eqn:E; cbn [snd] in *; [exact Hk| |].
  - exists es. split; [done|]. apply ready_failed. by constructor.
  - unfold io in E. by destruct (io_ok _).
Qed.
Lemma step_drop_io {B} es (k : unit -> stm box B) m w Q : disk es w ->
  (forall w', disk es w' -> budget w <= budget w' -> keeps es (k tt) (mkBox m w' false) Q) -> keeps es (st_bind (drop_cmd file_io) k) (mkBox m w false) Q.
Proof.
  intros Hd Hk. destruct (io_world es w Hd) as [Hd' Hb]. specialize (Hk _ Hd' Hb). unfold keeps, outcome, st_bind, drop_cmd, file_io, on_log in *. cbn [b_w b_m b_invalid].
  destruct (io w) as [[[]|e|x] w'] eqn:E; cbn [snd] in *; [exact Hk|exact Hk|]. unfold io in E. by destruct (io_ok _).
Qed.

Lemma log_vals_snoc es e : entry_ok e -> log_vals e (uidvlds_of es, himodseq_up_of es) = (uidvlds_of (es ++ [e]), himodseq_up_of (es ++ [e])).
Proof. intros _. unfold uidvlds_of, himodseq_up_of. rewrite !last_for_snoc. by destruct e. Qed.
Lemma write_disk es e w : disk es w -> entry_ok e /\ within (budget w + 1) e -> fits es e ->
  outcome (write e) w (fun _ w' => disk (es ++ [e]) w' /\ budget w + 1 <= budget w') (fun w' => shut es w' \/ shut (es ++ [e]) w').
Proof.
  intros [[fs Hf] Ho Hv Hl Hlo Hcnt] [He Hwi] Hft. pose proof (log_ok_snoc es e Hlo Hft) as Hlo'. destruct (write_frame e w) as [Hv' Ht'].
  assert (io_ok (w_tick w) = true -> w_tick w < LIM) as Hio by (intros Hio; destruct (decide (LIM <= w_tick w)); [rewrite io_limit in Hio by done; done|lia]).
  pose proof (write_says es fs e w Hf) as Hw. unfold outcome in *. destruct (write e w) as [[[]|x|x] w'] eqn:E; cbn [snd] in *.
  - destruct Hw as [Hfs' Ho']; [intros Hi; specialize (Hio Hi); unfold budget, LIM in *; lia|done|done|]. destruct (write_tick e w He Ho) as [Hlt Hi]. rewrite E in Hlt, Hi. specialize (Hio (Hi eq_refl)). cbn [snd] in Hlt.
    assert (budget w + 1 <= budget w') by (unfold budget; lia). split; [|done]. constructor; try done.
    + rewrite Hv', Hv. by apply log_vals_snoc.
    + rewrite zlen_app. change (zlen [e]) with 1. lia.
    + eapply within_le; [|eapply within_snoc; [|exact Hcnt|exact Hwi]]; lia.
  - destruct Hw as [Hf'|[fs' Hf']]; [intros Hi; specialize (Hio Hi); unfold budget, LIM in *; lia|done|done| |].
    + left. constructor; [by exists fs|unfold budget in Hl; lia|done|]. eapply within_le; [|exact Hcnt]. unfold budget. lia.
    + right. pose proof (write_tick e w He Ho) as [Ht _]. rewrite E in Ht. cbn [snd] in Ht. unfold budget in *. constructor; [by exists fs'| |done|].
      * rewrite zlen_app. change (zlen [e]) with 1. lia.
      * eapply within_le; [|eapply within_snoc; [|exact Hcnt|exact Hwi]]; lia.
  - destruct Hw; [intros Hi; specialize (Hio Hi); unfold budget, LIM in *; lia|done|done].
Qed.

Lemma step_write {B} es e (k : unit -> stm box B) m w Q : ready es m w -> entry_ok e /\ within (budget w + 1) e -> fits es e ->
  (forall w', ready (es ++ [e]) m w' -> budget w + 1 <= budget w' -> keeps (es ++ [e]) (k tt) (mkBox m w' false) Q) ->
  keeps es (st_bind (on_log (write e)) k) (mkBox m w false) Q.
Proof.
  intros [Hd Hg] He Hf Hk. pose proof (write_disk es e w Hd He Hf) as Hw.
  assert (Forall (given_in (es ++ [e])) (views_of m)) as Hg' by (eapply Forall_impl; [exact Hg|]; intros v; apply given_snoc).
  assert (es ⊆ es ++ [e]) as Hsub by (intros x Hx; apply elem_of_app; by left).
  unfold keeps, outcome, st_bind, on_log in *. cbn [b_w b_m b_invalid]. destruct (write e w) as [[[]|x|x] w'].
  - destruct Hw as [Hd' Hb]. assert (ready (es ++ [e]) m w') as Hr by (by constructor). specialize (Hk w' Hr Hb).
    destruct (k tt _) as [[a|y|y] b']; [done| |done]. destruct Hk as (es' & Hs & Hfa). exists es'. split; [by etransitivity|done].
  - destruct Hw as [Hs|Hs]; [exists es|exists (es ++ [e])]; (split; [done|by constructor]).
  - done.
Qed.

(** *** The sessions *)
Definition sent (refs : option Z) (arg : update_arg_u) (m : imaildir_t) : imaildir_t :=
  set_dns (map (fun dn => mkLink (dl_id dn) (dl_views dn) (dl_max_uid_dn dn) (dl_updates dn ++ [mkUpdate refs arg])) (i_dns m)) m.
Lemma views_sent P refs arg m : Forall P (views_of m) -> (forall v, update_view (mkUpdate refs arg) = Some v -> P v) -> Forall P (views_of (sent refs arg m)).
Proof.
  intros Hp Hv. unfold views_of, sent in *. cbn [i_dns set_dns]. rewrite Forall_forall in *. intros v (dn & Hin & Hdn)%list_elem_of_bind.
  apply list_elem_of_fmap in Hdn as (dn0 & -> & Hdn0). cbn [dl_views dl_updates] in Hin. rewrite omap_app, app_assoc in Hin.
  apply elem_of_app in Hin as [Hin|Hin]; [apply Hp, list_elem_of_bind; by exists dn0|]. cbn in Hin. destruct (update_view _) as [v'|] eqn:E; [|by apply elem_of_nil in Hin].
  apply list_elem_of_singleton in Hin as ->. by apply Hv.
Qed.
Lemma shows_same m m' mb : i_hi_uid_dn m <= i_hi_uid_dn m' -> (forall uid v, filled_at m' uid v <-> filled_at m uid v) -> shows m mb -> shows m' mb.
Proof. intros Hh Hf [Ho Hl Hs]. constructor; [done|lia|]. intros uid v. by rewrite Hs, Hf. Qed.
Lemma in_step_same m m' dn : i_hi_uid_dn m <= i_hi_uid_dn m' -> (forall uid v, filled_at m' uid v <-> filled_at m uid v) -> in_step m dn -> in_step m' dn.
Proof. intros Hh Hf (l & mb & Hl & Hu & Hs). exists l, mb. split; [done|]. split; [done|]. by eapply shows_same. Qed.
Lemma in_step_sent m m' refs arg : i_dns m' = i_dns m -> (forall mb, shows m mb -> exists mb', update_mbox mb (mkUpdate refs arg) = Some mb' /\ shows (sent refs arg m') mb') ->
  Forall (in_step m) (i_dns m) -> Forall (in_step (sent refs arg m')) (i_dns (sent refs arg m')).
Proof.
  intros Ed Hs Hd. unfold sent at 2. cbn [i_dns set_dns]. rewrite Ed. apply Forall_map. eapply Forall_impl; [exact Hd|].
  intros dn (l & mb & Hl & Hu & Hmb). destruct (Hs mb Hmb) as (mb' & Eu & Hmb'). exists l, mb'. split; [done|]. split; [|done].
  cbn [dl_updates dl_max_uid_dn]. rewrite update_all_app, Hu. cbn [update_all]. by rewrite Eu.
Qed.
Lemma shows_sync m mb refs arg : (match arg with UPDATE_SYNC _ => True | _ => False end) -> shows m mb ->
  exists mb', update_mbox mb (mkUpdate refs arg) = Some mb' /\ shows (sent refs arg m) mb'.
Proof. intros Ha Hs. destruct arg; try done. exists mb. split; [done|]. by eapply shows_same; [| |exact Hs]. Qed.
Lemma shows_new m m' mb refs v : shows m mb -> i_hi_uid_dn m < v_uid_dn v -> v_uid_dn v <= i_hi_uid_dn m' -> v_uid_dn v < UINT32_MAX ->
  (forall uid w, filled_at m' uid w <-> filled_at m uid w \/ uid = v_uid_dn v /\ w = v) ->
  exists mb', update_mbox mb (mkUpdate refs (UPDATE_NEW v)) = Some mb' /\ shows m' mb'.
Proof.
  intros [Ho Hh Hs] Ha Hb Hc Hf. assert (update_mbox mb (mkUpdate refs (UPDATE_NEW v)) = Some (mb.1 ++ [(v_uid_dn v, v)], v_uid_dn v)) as E.
  { unfold update_mbox. cbn [u_arg]. by rewrite (proj2 (Z.ltb_lt _ _)), (proj2 (Z.ltb_lt _ _)) by lia. }
  eexists. split; [exact E|]. constructor; cbn [fst snd]; [by eapply update_mbox_ok|done|].
  intros uid w. rewrite elem_of_app, list_elem_of_singleton, Hs, Hf. split; (intros [?|E']; [by left|right]); [by injection E' as -> ->|by destruct E' as [-> ->]].
Qed.
Lemma shows_meta m m' mb refs v : shows m mb -> i_hi_uid_dn m <= i_hi_uid_dn m' ->
  (forall uid w, filled_at m' uid w <-> if decide (uid = v_uid_dn v) then w = v /\ exists w', filled_at m uid w' else filled_at m uid w) ->
  exists mb', update_mbox mb (mkUpdate refs (UPDATE_META v)) = Some mb' /\ shows m' mb'.
Proof.
  intros [Ho Hh Hs] Ha Hf. eexists. split; [done|]. constructor; cbn [fst snd]; [by apply (update_mbox_ok mb (mkUpdate refs (UPDATE_META v)))|lia|].
  intros uid w. rewrite Hf. unfold lset. rewrite list_elem_of_fmap. split.
  - intros ([a b] & E & Hin). cbn [fst snd] in E. apply Hs in Hin. destruct (decide (a = v_uid_dn v)) as [->|Hne]; injection E as -> ->.
    + rewrite decide_True by done. split; [done|by exists b].
    + by rewrite decide_False.
  - intros Hw. case_decide as Ed.
    + destruct Hw as [-> [w' Hw']]. apply Hs in Hw'. exists (uid, w'). cbn [fst snd]. rewrite decide_True by done. by subst.
    + apply Hs in Hw. exists (uid, w). cbn [fst snd]. by rewrite decide_False.
Qed.
Lemma shows_expunge m m' mb refs x : shows m mb -> i_hi_uid_dn m <= i_hi_uid_dn m' -> (exists w, filled_at m (e_uid_dn x) w) ->
  (forall uid w, filled_at m' uid w <-> uid <> e_uid_dn x /\ filled_at m uid w) ->
  exists mb', update_mbox mb (mkUpdate refs (UPDATE_EXPUNGE x)) = Some mb' /\ shows m' mb'.
Proof.
  intros [Ho Hh Hs] Ha [w0 Hw0] Hf. apply Hs in Hw0. assert (e_uid_dn x ∈ keys mb.1) as Hk by (by eapply keys_in).
  assert (update_mbox mb (mkUpdate refs (UPDATE_EXPUNGE x)) = Some (ldel (e_uid_dn x) mb.1, mb.2)) as E by (unfold update_mbox; cbn [u_arg]; by rewrite decide_True).
  eexists. split; [exact E|]. constructor; cbn [fst snd]; [by eapply update_mbox_ok|lia|]. intros uid w. by rewrite ldel_in, Hs, Hf.
Qed.

(** *** The trees *)
Record grown (m m' : imaildir_t) : Prop := {
  gr_uid : i_hi_uid_dn m <= i_hi_uid_dn m'; gr_local : i_hi_uid_local m <= i_hi_uid_local m'; gr_modseq : i_himodseq_dn m <= i_himodseq_dn m'
}.
Lemma msg_ok_grown m m' k msg : grown m m' -> msg_ok m k msg -> msg_ok m' k msg.
Proof. intros [] []. constructor; try done; lia. Qed.
Lemma exp_ok_grown m m' k x : grown m m' -> exp_ok m k x -> exp_ok m' k x.
Proof. intros [] []. constructor; try done; lia. Qed.
(** Apart from one key the trees are the same. *)
Definition same_but (k : msg_key_t) (m m' : imaildir_t) : Prop :=
  forall k', k' <> k -> i_msgs m' !! k' = i_msgs m !! k' /\ i_expunged m' !! k' = i_expunged m !! k'.
(** What has to be shown of the sessions. *)
Record told (es : list entry) (m : imaildir_t) : Prop := {
  to_dns : Forall (in_step m) (i_dns m); to_given : Forall (given_in es) (views_of m); to_olds : olds_ok m
}.
Record key_ok (es : list entry) (m : imaildir_t) (k : msg_key_t) : Prop := {
  ko_agrees : key_agrees es m k;
  ko_msg : forall msg, i_msgs m !! k = Some msg -> msg_ok m k msg;
  ko_exp : forall x, i_expunged m !! k = Some x -> exp_ok m k x
}.
Lemma last_other k k' es e : ent_key e = Some k -> k' <> k -> last_for (LOG_KEY_MSG k') (es ++ [e]) = last_for (LOG_KEY_MSG k') es.
Proof. intros He Hn. apply ent_key_lk in He. rewrite last_for_snoc, He. case_decide; congruence. Qed.
Lemma last_this k es e : ent_key e = Some k -> last_for (LOG_KEY_MSG k) (es ++ [e]) = Some (as_read e).
Proof. intros He. apply ent_key_lk in He. rewrite last_for_snoc, He. by rewrite decide_True. Qed.

Lemma mem_write es e k m m' : mem es m -> ent_key e = Some k -> grown m m' -> same_but k m m' -> key_ok (es ++ [e]) m' k ->
  ent_uid e <= i_hi_uid_dn m' -> uid_local k <= i_hi_uid_local m' -> ent_modseq e <= i_himodseq_dn m' ->
  ent_modseq e = i_himodseq_dn m' \/ i_himodseq_dn m' = i_himodseq_dn m /\ (forall x, last_for (LOG_KEY_MSG k) es = Some x -> ent_modseq x = 0 \/ ent_modseq x = ent_modseq e) ->
  msum msg_modseq (i_msgs m') ⊆ i_mods m' -> told (es ++ [e]) m' -> mem (es ++ [e]) m'.
Proof.
  intros [Hk Hm Hx Hu Hl Hs He Hh Hp _ _ _ _] Hek Hg Hsame [Ka Km Kx] Hue Hle Hse Hat Hmods [Hdns Hgiven Holds]. pose proof Hg as [Gu Gl Gs].
  assert (forall e', e' ∈ es ++ [e] -> e' ∈ es \/ e' = e) as Hin by (intros e'; rewrite elem_of_app, list_elem_of_singleton; tauto).
  assert (explicit (es ++ [e]) = explicit es) as Hex by (rewrite explicit_app; destruct e; try done; by rewrite app_nil_r).
  constructor; try done.
  - intros k'. destruct (decide (k' = k)) as [->|Hn]; [done|]. specialize (Hk k'). unfold key_agrees in *. destruct (Hsame k' Hn) as [-> ->]. by rewrite (last_other k).
  - intros k' msg. destruct (decide (k' = k)) as [->|Hn]; [apply Km|]. destruct (Hsame k' Hn) as [-> _]. intros ?. eapply msg_ok_grown; [done|by apply Hm].
  - intros k' x. destruct (decide (k' = k)) as [->|Hn]; [apply Kx|]. destruct (Hsame k' Hn) as [_ ->]. intros ?. eapply exp_ok_grown; [done|by apply Hx].
  - intros e' [He'| ->]%Hin; [apply Hu in He'; lia|done].
  - intros e' k' [He'| ->]%Hin Hk'; [specialize (Hl _ _ He' Hk'); lia|]. rewrite Hek in Hk'. by injection Hk' as <-.
  - intros k' x. destruct (decide (k' = k)) as [->|Hn]; [rewrite (last_this k) by done|rewrite (last_other k) by done].
    + intros [= <-]. by destruct (ent_read e) as (_ & _ & ->).
    + intros El. specialize (Hs _ _ El). lia.
  - intros n. rewrite Hex. intros Hn. specialize (He _ Hn). lia.
  - rewrite Hex. destruct Hat as [Hat|[-> Hat]]; [right; right; exists k, (as_read e); split; [by apply last_this|]; by destruct (ent_read e) as (_ & _ & ->)|].
    destruct Hh as [?|[?|(k' & x & El & Ex)]]; [by left|by right; left|]. right. right. destruct (decide (k' = k)) as [->|Hn].
    + exists k, (as_read e). split; [by apply last_this|]. destruct (ent_read e) as (_ & _ & ->). destruct (Hat _ El); [lia|congruence].
    + exists k', x. by rewrite (last_other k).
  - lia.
Qed.
(** A change that is not in the log. *)
Lemma mem_quiet es k m m' : mem es m -> grown m m' -> i_himodseq_dn m' = i_himodseq_dn m -> same_but k m m' -> key_ok es m' k ->
  msum msg_modseq (i_msgs m') ⊆ i_mods m' -> told es m' -> mem es m'.
Proof.
  intros [Hk Hm Hx Hu Hl Hs He Hh Hp _ _ _ _] Hg Eh Hsame [Ka Km Kx] Hmods [Hdns Hgiven Holds]. pose proof Hg as [Gu Gl _]. constructor; rewrite ?Eh; try done.
  - intros k'. destruct (decide (k' = k)) as [->|Hn]; [done|]. specialize (Hk k'). unfold key_agrees in *. by destruct (Hsame k' Hn) as [-> ->].
  - intros k' msg. destruct (decide (k' = k)) as [->|Hn]; [apply Km|]. destruct (Hsame k' Hn) as [-> _]. intros ?. eapply msg_ok_grown; [done|by apply Hm].
  - intros k' x. destruct (decide (k' = k)) as [->|Hn]; [apply Kx|]. destruct (Hsame k' Hn) as [_ ->]. intros ?. eapply exp_ok_grown; [done|by apply Hx].
  - intros e' He'. apply Hu in He'. lia.
  - intros e' k' He' Hk'. specialize (Hl _ _ He' Hk'). lia.
  - lia.
Qed.
Lemma msum_put (t : gmap msg_key_t msg_t) k old new : t !! k = Some old -> msum msg_modseq (<[k := new]> t) = nz (msg_modseq new) ⊎ msum msg_modseq (delete k t).
Proof. intros _. rewrite <- insert_delete_eq. apply msum_insert. by rewrite lookup_delete_eq. Qed.
Lemma olds_same m m' : i_olds m' = i_olds m -> i_next_old m' = i_next_old m ->
  (forall k msg, i_msgs m !! k = Some msg -> m_state msg = MSG_EXPUNGED -> exists msg', i_msgs m' !! k = Some msg' /\ m_state msg' = MSG_EXPUNGED) -> olds_ok m -> olds_ok m'.
Proof.
  intros Eo En Hm [Ho Hi]. constructor; rewrite Eo; [|done]. intros id k n Hid. rewrite En. destruct (Ho _ _ _ Hid) as (? & ? & msg & Hmsg & Hst).
  split; [done|]. split; [done|]. by eapply Hm.
Qed.
End mailbox.
