(* ===== verification/MailboxOps.v ===== *)
(** * The operations of a mailbox keep its invariant

    Every operation of Imaildir ends with an invariant mailbox and a longer log, or fails and
    leaves a log that says all that was handed out. *)

From stdpp Require Import gmultiset sorting.
From Stdlib Require Import Sorted.
From S2P Require Import Prelude Dstr Fmt Cvt Msg MaildirLog MaildirName Hashmap LogFile LogDurable ImapTypes ImapWrite OrdTree SeqSet ImapSearch Dn DnSync Imaildir Mailbox.

Section mailbox.
Context `{Alloc} `{Io} `{Hooks} `{!Environment} `{OrdTreeLaws T}.

(** ** The operations *)

Definition good (es : list entry) (b : box) : Prop := exists es', es ⊆ es' /\ running es' b.
Lemma running_ready es m w v : running es (mkBox m w v) -> ready es m w.
Proof. intros [Hd Hm _ _]. constructor; [done|apply Hm]. Qed.
Lemma good_sub es es' b : es ⊆ es' -> good es' b -> good es b.
Proof. intros Hs (es2 & Hs2 & Hr). exists es2. split; [by etransitivity|done]. Qed.
Lemma sub_snoc (es : list entry) e : es ⊆ es ++ [e].
Proof. intros x Hx. apply elem_of_app. by left. Qed.
(** At the end of an operation. *)
Lemma good_end {A} es es' (a : A) m w Q : es ⊆ es' -> disk es' w -> mem es' m -> counted m w -> (forall b, good es b -> Q a b) -> keeps es' (st_ret a) (mkBox m w false) Q.
Proof. intros Hs Hd Hm Hc Hq. apply Hq. exists es'. split; [done|]. by constructor. Qed.
Lemma counted_le m m' w w' : counted m w -> budget w <= budget w' -> i_hi_uid_dn m' <= i_hi_uid_dn m -> i_hi_uid_local m' <= i_hi_uid_local m ->
  i_himodseq_dn m' <= i_himodseq_dn m -> counted m' w'.
Proof. intros [] ? ? ? ?. constructor; lia. Qed.
Lemma counted_next m m' w w' : counted m w -> budget w + 1 <= budget w' -> i_hi_uid_dn m' <= i_hi_uid_dn m + 1 -> i_hi_uid_local m' <= i_hi_uid_local m + 1 ->
  i_himodseq_dn m' <= i_himodseq_dn m + 1 -> counted m' w'.
Proof. intros [] ? ? ? ?. constructor; lia. Qed.
Lemma budget_lim w : budget w <= LIM.
Proof. unfold budget. lia. Qed.

Lemma msg_entry_ok m k msg : msg_ok m k msg -> m_state msg <> MSG_EXPUNGED -> i_hi_uid_dn m < 2 ^ 32 -> i_himodseq_dn m < 2 ^ 64 -> entry_ok (EMsg msg).
Proof.
  intros [Hk Hw Ht Hst Hz Hu Hm] Hne Hhi Hmo. cbn [entry_ok]. rewrite Hk. split; [done|]. unfold msg_modseq in *. split.
  - unfold msg_wf, is_u32, is_u64, UINT32_MAX, UINT64_MAX. split_and!; try done; lia.
  - rewrite <- Hz. destruct (decide (m_uid_dn msg = 0)) as [E|E].
    + split; [|done]. intros _ Hf. apply (proj1 Hst); [by left|done].
    + split; [done|]. intros Hn. destruct Hn. by apply Hst in E as [?|?].
Qed.
Lemma exp_entry_ok m k x : exp_ok m k x -> i_hi_uid_dn m < 2 ^ 32 -> i_himodseq_dn m < 2 ^ 64 -> entry_ok (EExpunge x).
Proof.
  intros [Hk Hw _ Hz _ Hu Hm] Hhi Hmo. cbn [entry_ok]. rewrite Hk. split; [done|]. unfold expunge_wf, exp_modseq, is_u32, is_u64, UINT32_MAX, UINT64_MAX in *. lia.
Qed.
(** The entry of what an operation made. *)
Lemma msg_entry_new m M k msg w0 w : counted m w0 -> budget w0 <= budget w -> msg_ok M k msg -> m_state msg <> MSG_EXPUNGED ->
  i_hi_uid_dn M <= i_hi_uid_dn m + 1 -> uid_local k <= i_hi_uid_local m + 1 -> i_himodseq_dn M <= i_himodseq_dn m + 1 -> entry_ok (EMsg msg) /\ within (budget w + 1) (EMsg msg).
Proof.
  intros [Cu Cl Cs] Hb Hmsg Hne Hu Hl Hs. pose proof (budget_lim w). unfold LIM in *. split; [eapply msg_entry_ok; [exact Hmsg|done|lia|lia]|].
  destruct Hmsg as [Hk _ _ _ _ ? ?]. constructor; cbn [ent_uid ent_key ent_modseq]; [lia|intros k' [= <-]; rewrite Hk; lia|lia|done].
Qed.
Lemma exp_entry_new m M k x w0 w : counted m w0 -> budget w0 <= budget w -> exp_ok M k x ->
  i_hi_uid_dn M <= i_hi_uid_dn m + 1 -> uid_local k <= i_hi_uid_local m + 1 -> i_himodseq_dn M <= i_himodseq_dn m + 1 -> entry_ok (EExpunge x) /\ within (budget w + 1) (EExpunge x).
Proof.
  intros [Cu Cl Cs] Hb Hx Hu Hl Hs. pose proof (budget_lim w). unfold LIM in *. split; [eapply exp_entry_ok; [exact Hx|lia|lia]|].
  destruct Hx as [Hk _ _ _ _ ? ?]. constructor; cbn [ent_uid ent_key ent_modseq]; [lia|intros k' [= <-]; rewrite Hk; lia|lia|done].
Qed.
(** The entry of a message whose key said the same uid before. *)
Lemma fits_msg es m k msg : mem es m -> m_key msg = k -> (m_uid_dn msg = 0 <-> msg_modseq msg = 0) ->
  match last_for (LOG_KEY_MSG k) es with Some x => ent_uid x = m_uid_dn msg | None => m_uid_dn msg = 0 end -> fits es (EMsg msg).
Proof.
  intros Hm Hk Hz Hl. constructor; cbn [ent_uid ent_modseq ent_key]; try done.
  intros k' [= <-]. rewrite Hk. destruct (last_for _ es); [by left|done].
Qed.

Lemma last_zero es k x : log_ok es -> last_for (LOG_KEY_MSG k) es = Some x -> ent_uid x = 0 <-> ent_modseq x = 0.
Proof. intros Hlo (e & He & _ & ->)%last_in. destruct (ent_read e) as (_ & -> & ->). by apply (lo_zero _ Hlo). Qed.
(** A key without uid in the trees has none in the log. *)
Lemma last_unfilled es m k : mem es m -> log_ok es -> i_expunged m !! k = None -> (forall msg, i_msgs m !! k = Some msg -> m_uid_dn msg = 0) ->
  match last_for (LOG_KEY_MSG k) es with Some x => ent_uid x = 0 /\ ent_modseq x = 0 | None => True end.
Proof.
  intros Hm Hlo Ex Em. pose proof (me_keys _ _ Hm k) as Hk. unfold key_agrees in Hk. destruct (last_for _ es) as [x|] eqn:El; [|done].
  assert (ent_uid x = 0) as Hu; [|split; [done|by apply (last_zero es k x Hlo El)]].
  destruct x as [| | |p|x]; try done; cbn [ent_uid].
  - destruct Hk as (_ & msg & Hmsg & <- & _). exact (Em _ Hmsg).
  - case_decide as E; [done|]. rewrite Ex in Hk. by destruct Hk.
Qed.

(** The parts of a mailbox that are not the trees. *)
Record same_rest (m m' : imaildir_t) : Prop := {
  sr_dns : i_dns m' = i_dns m; sr_olds : i_olds m' = i_olds m; sr_next : i_next_old m' = i_next_old m
}.
Lemma views_rest P m m' : same_rest m m' -> Forall P (views_of m) -> Forall P (views_of m').
Proof. intros [E _ _]. unfold views_of. by rewrite E. Qed.
(** The sessions do not see a message that is not filled. *)
Lemma filled_put m m' k msg : i_msgs m' = <[k := msg]> (i_msgs m) -> m_state msg <> MSG_FILLED -> (forall old, i_msgs m !! k = Some old -> m_state old <> MSG_FILLED) ->
  forall uid v, filled_at m' uid v <-> filled_at m uid v.
Proof.
  intros E Hs Ho uid v. unfold filled_at. rewrite E. split; intros (k' & msg' & Hk & Hst & Hrest).
  - apply lookup_insert_Some in Hk as [[<- <-]|[_ Hk]]; [done|]. by exists k', msg'.
  - exists k', msg'. split; [|done]. rewrite lookup_insert_ne; [done|]. intros ->. by eapply Ho.
Qed.
Lemma told_same es es' m m' : es ⊆ es' -> same_rest m m' -> i_hi_uid_dn m <= i_hi_uid_dn m' -> (forall uid v, filled_at m' uid v <-> filled_at m uid v) ->
  (forall k msg, i_msgs m !! k = Some msg -> m_state msg = MSG_EXPUNGED -> exists msg', i_msgs m' !! k = Some msg' /\ m_state msg' = MSG_EXPUNGED) ->
  mem es m -> told es' m'.
Proof.
  intros Hs Hr Hh Hf Hx Hm. pose proof Hr as [Ed Eo En]. constructor.
  - rewrite Ed. eapply Forall_impl; [apply (me_dns _ _ Hm)|]. intros dn. by apply in_step_same.
  - eapply views_rest; [exact Hr|]. eapply Forall_impl; [apply (me_given _ _ Hm)|]. intros v (Hn & e & He & Hk). split; [done|]. exists e. split; [by apply Hs|done].
  - eapply olds_same; [done|done|done|apply Hm].
Qed.
Lemma unfilled_state m k msg : msg_ok m k msg -> m_uid_dn msg = 0 -> m_state msg <> MSG_FILLED /\ m_state msg <> MSG_EXPUNGED.
Proof. intros Hmsg Hu. split; intros E; (assert (m_uid_dn msg <> 0) by (apply (mo_state _ _ _ Hmsg); tauto); lia). Qed.
(** A message without uid is written. *)
Lemma put_unfilled es m m' k msg : mem es m -> log_ok es -> msg_ok m' k msg -> m_uid_dn msg = 0 -> i_expunged m !! k = None ->
  (forall old, i_msgs m !! k = Some old -> m_uid_dn old = 0) ->
  i_msgs m' = <[k := msg]> (i_msgs m) -> i_expunged m' = i_expunged m -> i_mods m' = i_mods m -> i_hi_uid_dn m' = i_hi_uid_dn m -> i_himodseq_dn m' = i_himodseq_dn m ->
  i_hi_uid_local m <= i_hi_uid_local m' -> uid_local k <= i_hi_uid_local m' -> same_rest m m' ->
  fits es (EMsg msg) /\ mem (es ++ [EMsg msg]) m'.
Proof.
  intros Hm Hlo Hmsg Hu Ex Eold Et Ee Eo Eh Es Hl Hlk Hrest. pose proof (last_unfilled es m k Hm Hlo Ex Eold) as Hlast.
  pose proof (mo_key _ _ _ Hmsg) as Hkey. pose proof (mo_zero _ _ _ Hmsg) as Hz. pose proof (unfilled_state _ _ _ Hmsg Hu) as [Hnf Hne].
  assert (msg_modseq msg = 0) as Hms by tauto.
  assert (forall old, i_msgs m !! k = Some old -> m_state old <> MSG_FILLED /\ m_state old <> MSG_EXPUNGED) as Hold.
  { intros old Eo'. eapply unfilled_state; [by apply (me_msgs _ _ Hm)|by apply Eold]. }
  split.
  { apply (fits_msg es m k msg); try done. destruct (last_for _ es) as [x|]; [|done]. rewrite Hu. apply Hlast. }
  apply (mem_write es (EMsg msg) k m m'); try done.
  - cbn. by rewrite Hkey.
  - constructor; lia.
  - intros k' Hn. rewrite Et, Ee. by rewrite lookup_insert_ne.
  - constructor.
    + unfold key_agrees. rewrite (last_this k) by (cbn; by rewrite Hkey). cbn [as_read]. rewrite Et, Ee, lookup_insert_eq. split; [done|].
      exists msg. split; [done|]. by split.
    + intros msg'. rewrite Et, lookup_insert_eq. by intros [= <-].
    + intros x. by rewrite Ee, Ex.
  - cbn. rewrite Hu, Eh. apply (me_pos _ _ Hm).
  - cbn. rewrite Hms, Es. pose proof (me_pos _ _ Hm). lia.
  - right. split; [done|]. intros x Hx. rewrite Hx in Hlast. left. apply Hlast.
  - rewrite Et, Eo, <- insert_delete_eq, msum_insert, Hms by (by rewrite lookup_delete_eq). change (nz 0) with (∅ : gmultiset Z). rewrite (left_id_L ∅ (⊎)).
    pose proof (me_mods _ _ Hm) as Hmods. destruct (i_msgs m !! k) as [old|] eqn:E; [|by rewrite delete_id].
    rewrite (msum_delete _ k old _ E) in Hmods. multiset_solver.
  - eapply told_same; [apply sub_snoc|exact Hrest|lia|eapply filled_put; [exact Et|done|intros old Eo'; by apply Hold]| |exact Hm].
    intros k' msg' Hk' Hst. rewrite Et. destruct (decide (k' = k)) as [->|Hn]; [by destruct (Hold _ Hk')|]. exists msg'. by rewrite lookup_insert_ne.
Qed.
Lemma running_write es e m w' : disk (es ++ [e]) w' -> mem (es ++ [e]) m -> counted m w' -> good es (mkBox m w' false).
Proof. intros Hd Hm Hc. exists (es ++ [e]). split; [apply sub_snoc|]. by constructor. Qed.

Lemma new_msg_ok es uid flags m w : running es (mkBox m w false) -> 1 <= uid < 2 ^ 32 -> i_msgs m !! KEY_UP uid = None -> i_expunged m !! KEY_UP uid = None ->
  keeps es (imaildir_up_new_msg uid flags) (mkBox m w false)
    (fun k b' => good es b' /\ k = KEY_UP uid /\ exists msg, i_msgs (b_m b') !! k = Some msg /\ m_state msg = MSG_UNFILLED).
Proof.
  intros Hr Hu Em Ex. pose proof Hr as [Hd Hm Hc _]. cbn [b_m b_w] in *. unfold imaildir_up_new_msg. set (msg := msg_new _ _ _ _ _ _).
  pose proof (budget_lim w). pose proof Hc as [Cu Cl Cs]. unfold LIM in *. pose proof (me_pos _ _ Hm) as (P1 & P2 & P3).
  assert (msg_ok m (KEY_UP uid) msg) as Hmsg.
  { constructor; cbn; try done; try lia. - unfold key_wf, is_u32, UINT32_MAX. cbn. lia. - by repeat constructor. - split; [by intros [?|?]|done]. }
  destruct (put_unfilled es m (set_msgs (<[KEY_UP uid := msg]> (i_msgs m)) m) (KEY_UP uid) msg) as [Hfits Hmem]; try done.
  { apply Hd. } { eapply msg_ok_grown; [|exact Hmsg]. constructor; cbn; lia. } { intros old. by rewrite Em. }
  apply (step_write es (EMsg msg)); [by eapply running_ready|eapply (msg_entry_new m); [exact Hc|lia|exact Hmsg|done|cbn; lia..]|exact Hfits|].
  intros w' [Hd' Hg'] Hb. unfold ins_msg. apply step_assoc. apply step_get. change (m_key msg) with (KEY_UP uid). rewrite Em.
  unfold put_msg. apply step_mod. apply out_ret. split; [|split; [done|exists msg; cbn; by rewrite lookup_insert_eq]].
  eapply running_write; [done|exact Hmem|]. eapply (counted_next m); [exact Hc|done|cbn; lia..].
Qed.

Lemma not_expunged es m k msg : mem es m -> i_msgs m !! k = Some msg -> m_state msg <> MSG_EXPUNGED -> i_expunged m !! k = None.
Proof.
  intros Hm Em Hst. pose proof (me_keys _ _ Hm k) as Hk. unfold key_agrees in Hk. destruct (last_for _ es) as [[| | |p|x]|]; try done; try tauto.
  case_decide as Ez; destruct Hk as [Hk Hk2]; [by apply Hk in Em as [_ ?]|by apply Hk2 in Em as [? _]].
Qed.
Lemma exp_local es m k x : mem es m -> i_expunged m !! k = Some x -> uid_local k <= i_hi_uid_local m.
Proof.
  intros Hm Ex. pose proof (me_keys _ _ Hm k) as Hk. unfold key_agrees in Hk. destruct (last_for (LOG_KEY_MSG k) es) as [y|] eqn:El; [|destruct Hk; congruence].
  destruct (last_in _ _ _ El) as (e & He & Hek & _). by apply (me_locals _ _ Hm e).
Qed.
Lemma local_bound es m k msg : mem es m -> i_msgs m !! k = Some msg -> uid_local k <= i_hi_uid_local m.
Proof.
  intros Hm Em. pose proof (me_keys _ _ Hm k) as Hk. unfold key_agrees in Hk. destruct (last_for (LOG_KEY_MSG k) es) as [x|] eqn:El; [|destruct Hk; congruence].
  destruct (last_in _ _ _ El) as (e & He & Hek & _). by apply (me_locals _ _ Hm e).
Qed.
(** *** Flags *)

Lemma uid_in_log es m k msg : mem es m -> i_msgs m !! k = Some msg -> m_uid_dn msg <> 0 -> exists e, e ∈ es /\ ent_key e = Some k /\ ent_uid e = m_uid_dn msg.
Proof.
  intros Hm Hmsg Hu. pose proof (me_keys _ _ Hm k) as Hk. unfold key_agrees in Hk. destruct (last_for (LOG_KEY_MSG k) es) as [x|] eqn:El; [|destruct Hk; congruence].
  destruct (last_in _ _ _ El) as (e & He & Hek & ->). exists e. split; [done|]. split; [done|]. destruct (ent_read e) as (_ & <- & _).
  destruct (as_read e) as [| | |p|x]; try done; cbn [ent_uid].
  - destruct Hk as (_ & msg' & Hmsg' & <- & _). rewrite Hmsg in Hmsg'. by injection Hmsg' as <-.
  - case_decide as Ez; [|by destruct Hk as [_ Hk]; apply Hk in Hmsg as [_ ->]]. destruct Hk as [Hk _]. by apply Hk in Hmsg as [? _].
Qed.
Lemma uid_unique es m k1 k2 a b : mem es m -> log_ok es -> i_msgs m !! k1 = Some a -> i_msgs m !! k2 = Some b -> m_uid_dn a <> 0 -> m_uid_dn a = m_uid_dn b -> k1 = k2.
Proof.
  intros Hm Hlo Ea Eb Hu Hab. destruct (uid_in_log es m k1 a Hm Ea Hu) as (e1 & H1' & K1 & U1). destruct (uid_in_log es m k2 b Hm Eb ltac:(congruence)) as (e2 & H2' & K2 & U2).
  assert (ent_key e1 = ent_key e2) as Hkk by (apply (lo_uids _ Hlo); congruence). rewrite K1, K2 in Hkk. congruence.
Qed.
Lemma given_msg es m k msg v : mem es m -> i_msgs m !! k = Some msg -> m_uid_dn msg <> 0 -> v_key v = k -> v_uid_dn v = m_uid_dn msg -> given_in es v.
Proof.
  intros Hm Hmsg Hu Hk Hv. split; [by rewrite Hv|]. destruct (uid_in_log _ _ _ _ Hm Hmsg Hu) as (e & He & Hek & Heu). exists e. split; [done|]. split; congruence.
Qed.
(** The sessions see the new value of a message that is filled. *)
Lemma filled_change es m m' k old msg : mem es m -> log_ok es -> i_msgs m !! k = Some old -> i_msgs m' = <[k := msg]> (i_msgs m) -> m_uid_dn old <> 0 ->
  m_uid_dn msg = m_uid_dn old -> m_state msg = m_state old ->
  forall uid w, filled_at m' uid w <-> if decide (uid = m_uid_dn msg) then w = msg_view_new msg /\ exists w', filled_at m uid w' else filled_at m uid w.
Proof.
  intros Hm Hlo Eo Em Hu Eu Es uid w. unfold filled_at. rewrite Em. split.
  - intros (k' & msg' & Hk' & Hst & -> & ->). apply lookup_insert_Some in Hk' as [[<- <-]|[Hn Hk']].
    + rewrite decide_True by done. split; [done|]. exists (msg_view_new old), k, old. rewrite <- Es. by rewrite Eu.
    + rewrite decide_False; [by exists k', msg'|]. rewrite Eu. intros E. apply Hn. symmetry. eapply (uid_unique es m k' k); [done|done|exact Hk'|exact Eo|congruence|done].
  - case_decide as E.
    + intros [-> (w' & k' & msg' & Hk' & Hst & E' & _)]. assert (k' = k) as ->.
      { eapply (uid_unique es m k' k); [done|done|exact Hk'|exact Eo|congruence|congruence]. }
      rewrite Eo in Hk'. injection Hk' as <-. exists k, msg. rewrite lookup_insert_eq. split; [done|]. split; [by rewrite Es|done].
    + intros (k' & msg' & Hk' & Hst & -> & ->). exists k', msg'. split; [|done]. rewrite lookup_insert_ne; [done|]. intros <-. rewrite Eo in Hk'. injection Hk' as <-. congruence.
Qed.

(** An entry that is not of a message; one message may change apart from what the log says of it. *)
Lemma mem_other es e k m m' : mem es m -> ent_key e = None -> grown m m' -> same_but k m m' -> key_ok es m' k ->
  match e with EModseqDn n => i_himodseq_dn m' = n | _ => i_himodseq_dn m' = i_himodseq_dn m end ->
  msum msg_modseq (i_msgs m') ⊆ i_mods m' -> told (es ++ [e]) m' -> mem (es ++ [e]) m'.
Proof.
  intros [Hk Hm Hx Hu Hl Hs He Hh Hp _ _ _ _] Hek Hg Hsame [Ka Km Kx] Hse Hmods [Hdns Hgiven Holds]. pose proof Hg as [Gu Gl Gs].
  assert (forall k', last_for (LOG_KEY_MSG k') (es ++ [e]) = last_for (LOG_KEY_MSG k') es) as Hlast.
  { intros k'. rewrite last_for_snoc, decide_False; [done|]. rewrite <- ent_key_lk, Hek. done. }
  assert (forall e', e' ∈ es ++ [e] -> e' ∈ es \/ e' = e) as Hin by (intros e'; rewrite elem_of_app, list_elem_of_singleton; tauto).
  assert (0 = ent_uid e) as Hu0 by (by destruct e).
  constructor; try done.
  - intros k'. unfold key_agrees. rewrite Hlast. destruct (decide (k' = k)) as [->|Hn]; [done|]. destruct (Hsame k' Hn) as [-> ->]. apply Hk.
  - intros k' msg. destruct (decide (k' = k)) as [->|Hn]; [apply Km|]. destruct (Hsame k' Hn) as [-> _]. intros ?. eapply msg_ok_grown; [done|by apply Hm].
  - intros k' x. destruct (decide (k' = k)) as [->|Hn]; [apply Kx|]. destruct (Hsame k' Hn) as [_ ->]. intros ?. eapply exp_ok_grown; [done|by apply Hx].
  - intros e' [He'| ->]%Hin; [apply Hu in He'; lia|lia].
  - intros e' k' [He'| ->]%Hin Hk'; [specialize (Hl _ _ He' Hk'); lia|congruence].
  - intros k' x. rewrite Hlast. intros El. specialize (Hs _ _ El). lia.
  - intros n. rewrite explicit_app, elem_of_app. intros [Hn|Hn]; [specialize (He _ Hn); lia|]. destruct e; try by apply elem_of_nil in Hn.
    apply list_elem_of_singleton in Hn as ->. lia.
  - rewrite explicit_app. destruct e; try done; rewrite ?app_nil_r, Hse; try (destruct Hh as [?|[?|(k' & x & El & Ex)]]; [by left|by right; left|right; right; exists k', x; by rewrite Hlast]).
    right. left. apply elem_of_app. right. by left.
  - lia.
Qed.

Lemma msum_change (t : gmap msg_key_t msg_t) k old new (M : gmultiset Z) : t !! k = Some old -> msg_modseq old <> 0 -> msum msg_modseq t ⊆ M ->
  msum msg_modseq (<[k := new]> t) ⊆ M ∖ {[+ msg_modseq old +]} ⊎ nz (msg_modseq new).
Proof.
  intros Eo Hn Hs. rewrite (msum_put t k old) by done. rewrite (msum_delete _ k old _ Eo) in Hs. unfold nz in Hs at 1. rewrite (proj2 (Z.eqb_neq _ _) Hn) in Hs. multiset_solver.
Qed.
Lemma nz_some n : n <> 0 -> nz n = {[+ n +]}.
Proof. intros Hn. unfold nz. by rewrite (proj2 (Z.eqb_neq _ _) Hn). Qed.

(** A message with a uid gets new flags and a new modseq. *)
Lemma flags_mem es m M k old msg : mem es m -> log_ok es -> i_msgs m !! k = Some old -> m_uid_dn old <> 0 -> i_himodseq_dn m < 2 ^ 64 ->
  msg = msg_set_modseq (i_himodseq_dn m + 1) (msg_set_flags (m_flags msg) old) ->
  i_msgs M = <[k := msg]> (i_msgs m) -> i_expunged M = i_expunged m -> i_mods M = i_mods m ∖ {[+ msg_modseq old +]} ⊎ {[+ i_himodseq_dn m + 1 +]} ->
  i_hi_uid_dn M = i_hi_uid_dn m -> i_hi_uid_local M = i_hi_uid_local m -> i_himodseq_dn M = i_himodseq_dn m + 1 -> same_rest m M ->
  let e := if decide (m_state msg = MSG_FILLED) then EMsg msg else EModseqDn (i_himodseq_dn m + 1) in
  fits es e /\ msg_ok M k msg /\ mem (es ++ [e]) (sent None (UPDATE_META (msg_view_new msg)) M).
Proof.
  intros Hm Hlo Eo Hu Hlim Emsg Et Ee Emods Eh El Es Hrest e. pose proof Hrest as [Rd Ro Rn]. pose proof (me_msgs _ _ Hm k old Eo) as Hold. pose proof Hold as [Mk Mw Mt Mst Mz Mu Mm].
  pose proof (me_pos _ _ Hm) as (P1 & P2 & P3). assert (msg_modseq old <> 0) as Hmo by tauto.
  assert (m_key msg = k /\ m_uid_dn msg = m_uid_dn old /\ m_state msg = m_state old /\ m_internaldate msg = m_internaldate old /\ msg_modseq msg = i_himodseq_dn m + 1) as (F1 & F2 & F3 & F4 & F5)
    by (rewrite Emsg; done).
  assert (grown m M) as Hg by (constructor; lia).
  assert (msg_ok M k msg) as Hmsg.
  { constructor; rewrite ?F1, ?F2, ?F3, ?F4, ?F5, ?Eh, ?Es; try done; try lia. }
  assert (same_but k m (sent None (UPDATE_META (msg_view_new msg)) M)) as Hsame.
  { intros k' Hn. unfold sent. cbn [i_msgs i_expunged set_dns]. rewrite Et, Ee. by rewrite lookup_insert_ne. }
  assert (msum msg_modseq (i_msgs M) ⊆ i_mods M) as Hmods.
  { rewrite Et, Emods, <- F5, <- (nz_some (msg_modseq msg)) by lia. apply msum_change; [done|done|apply Hm]. }
  destruct (uid_in_log _ _ _ _ Hm Eo Hu) as (e0 & He0 & Hk0 & Hu0).
  assert (fits es e) as Hfits.
  { unfold e. case_decide as Est.
    - apply (fits_msg es m k); [done|done|rewrite F2, F5; lia|]. pose proof (me_keys _ _ Hm k) as Hk. unfold key_agrees in Hk.
      destruct (last_for _ es) as [x|]; [|destruct Hk; congruence]. destruct x as [| | |p|x]; try done; cbn [ent_uid].
      + destruct Hk as (_ & msg' & Hmsg' & <- & _). rewrite Eo in Hmsg'. by injection Hmsg' as <-.
      + case_decide as Ez; [by destruct Hk as [Hk _]; apply Hk in Eo as [? _]|]. destruct Hk as [_ Hk]. apply Hk in Eo as [? ?]. congruence.
    - constructor; try done. intros n' Hn'. pose proof (me_explicit _ _ Hm n' Hn'). lia. }
  assert (told (es ++ [e]) (sent None (UPDATE_META (msg_view_new msg)) M)) as Htold.
  { constructor.
    - eapply in_step_sent; [exact Rd| |apply Hm]. intros mb Hmb. eapply shows_meta; [exact Hmb|cbn; lia|].
      intros uid w. by apply (filled_change es m _ k old msg).
    - apply views_sent.
      + eapply views_rest; [exact Hrest|]. eapply Forall_impl; [apply (me_given _ _ Hm)|]. intros v. apply given_snoc.
      + intros v [= <-]. apply given_snoc. eapply (given_msg es m k old); [done|done|done|cbn; congruence|cbn; congruence].
    - eapply (olds_same m); [done|done| |apply Hm]. intros k' msg' Hk' Hst. unfold sent. cbn [i_msgs set_dns]. rewrite Et. destruct (decide (k' = k)) as [->|Hn].
      + exists msg. rewrite lookup_insert_eq. split; [done|]. congruence.
      + exists msg'. by rewrite lookup_insert_ne. }
  split; [done|]. split; [done|]. unfold e in *. case_decide as Est.
  - assert (i_expunged m !! k = None) as Ex.
    { pose proof (me_keys _ _ Hm k) as Hk. unfold key_agrees in Hk. destruct (last_for _ es) as [[| | |p|x]|]; try done; try tauto.
      case_decide as Ez; [destruct Hk as [Hk _]; by apply Hk in Eo as [? ?]|]. destruct Hk as [_ Hk]. apply Hk in Eo as [? _]. congruence. }
    apply (mem_write es (EMsg msg) k m); try done.
    + cbn. congruence.
    + constructor; cbn; lia.
    + constructor; unfold sent; cbn [i_msgs i_expunged set_dns].
      * unfold key_agrees. rewrite (last_this k) by (cbn; congruence). cbn [as_read i_msgs i_expunged set_dns]. rewrite Et, Ee, lookup_insert_eq. split; [done|].
        exists msg. split; [done|]. split; [done|]. rewrite Est. done.
      * intros msg'. rewrite Et, lookup_insert_eq. intros [= <-]. by eapply msg_ok_grown; [|exact Hmsg].
      * intros x. by rewrite Ee, Ex.
    + cbn. rewrite F2. lia.
    + cbn. rewrite El. rewrite <- (me_locals _ _ Hm e0 k He0 Hk0). done.
    + cbn. rewrite F5. lia.
    + left. cbn. lia.
  - apply (mem_other es _ k m); try done.
    + constructor; cbn; lia.
    + constructor; unfold sent; cbn [i_msgs i_expunged set_dns].
      * pose proof (me_keys _ _ Hm k) as Hk. unfold key_agrees in *. destruct (last_for _ es) as [[| | |p|x]|]; try done.
        -- destruct Hk as (_ & msg' & Hmsg' & _ & Hne). rewrite Eo in Hmsg'. injection Hmsg' as <-. destruct (proj2 Mst Hu); congruence.
        -- cbn [i_msgs i_expunged set_dns]. rewrite Et, Ee, lookup_insert_eq. case_decide as Ez.
           ++ destruct Hk as [Hk Hk2]. apply Hk in Eo as [? _]. done.
           ++ destruct Hk as [Hk Hk2]. split; [done|]. intros msg' [= <-]. rewrite F3, F2. by apply Hk2.
        -- destruct Hk. congruence.
      * intros msg'. rewrite Et, lookup_insert_eq. intros [= <-]. by eapply msg_ok_grown; [|exact Hmsg].
      * intros x. rewrite Ee. intros Hx. eapply exp_ok_grown; [|by apply (me_exps _ _ Hm)]. constructor; cbn; lia.
Qed.

Lemma step_the_msg {B} es key (k : msg_t -> stm box B) m w msg Q : i_msgs m !! key = Some msg -> keeps es (k msg) (mkBox m w false) Q ->
  keeps es (st_bind (the_msg key) k) (mkBox m w false) Q.
Proof. intros E Hk. unfold the_msg. apply step_assoc, step_get. by rewrite E. Qed.
Lemma u64_id n : 0 <= n < 2 ^ 64 -> u64 n = n.
Proof. intros Hn. unfold u64. by apply Z.mod_small. Qed.
Lemma u32_id n : 0 <= n < 2 ^ 32 -> u32 n = n.
Proof. intros Hn. unfold u32. by apply Z.mod_small. Qed.
Lemma step_himodseq {B} es (k : Z -> stm box B) m w Q : 0 <= i_himodseq_dn m < 2 ^ 64 - 1 -> keeps es (k (i_himodseq_dn m + 1)) (mkBox (set_himodseq_dn (i_himodseq_dn m + 1) m) w false) Q ->
  keeps es (st_bind next_himodseq_dn k) (mkBox m w false) Q.
Proof. intros Hn Hk. unfold next_himodseq_dn. apply step_assoc, step_get. cbn [b_m]. rewrite u64_id by lia. apply step_assoc, step_mod. exact Hk. Qed.
Lemma step_uid_dn {B} es (k : Z -> stm box B) m w Q : 0 <= i_hi_uid_dn m < 2 ^ 32 - 1 -> keeps es (k (i_hi_uid_dn m + 1)) (mkBox (set_hi_uid_dn (i_hi_uid_dn m + 1) m) w false) Q ->
  keeps es (st_bind next_uid_dn k) (mkBox m w false) Q.
Proof. intros Hn Hk. unfold next_uid_dn. apply step_assoc, step_get. cbn [b_m]. rewrite u32_id by lia. apply step_assoc, step_mod. exact Hk. Qed.
(** The bounds of a running mailbox. *)
Lemma bounds es m w v : running es (mkBox m w v) ->
  1 <= i_himodseq_dn m < 2 ^ 32 - 2 /\ 0 <= i_hi_uid_dn m < 2 ^ 32 - 3 /\ 0 <= i_hi_uid_local m < 2 ^ 32 - 3.
Proof.
  intros [_ Hm [Cu Cl Cs] _]. cbn [b_m b_w] in *. pose proof (budget_lim w). unfold LIM in *. pose proof (me_pos _ _ Hm). lia.
Qed.

(** The mailbox is fine and still has the message. *)
Definition kept (es : list entry) (key : msg_key_t) (b : box) : Prop := good es b /\ is_Some (i_msgs (b_m b) !! key).
Lemma update_msg_flags_ok es key flags msg m w : running es (mkBox m w false) -> i_msgs m !! key = Some msg -> keeps es (update_msg_flags key flags) (mkBox m w false) (fun _ => kept es key).
Proof.
  intros Hr Em. pose proof Hr as [Hd Hm Hc _]. cbn [b_m b_w] in *. pose proof (bounds _ _ _ _ Hr) as (B1 & B2 & B3). unfold update_msg_flags.
  eapply step_the_msg; [exact Em|]. pose proof (running_ready _ _ _ _ Hr) as Hready. pose proof (me_msgs _ _ Hm _ _ Em) as Hold.
  match goal with |- keeps _ (match _ with MSG_FILLED => ?p | _ => _ end) _ _ => assert (m_uid_dn msg <> 0 -> keeps es p (mkBox m w false) (fun _ => kept es key)) as Hk end.
  2: { pose proof (mo_state _ _ _ Hold) as Hst. destruct (m_state msg); try (by apply keeps_fail); apply Hk, Hst; tauto. }
  intros Hu. destruct (msg_flags_eq _ _); [apply out_ret; split; [by exists es|by exists msg]|].
  unfold erase_mod. apply step_mod. apply step_himodseq; [cbn; lia|]. unfold put_msg. apply step_mod. unfold ins_mod. apply step_mod. cbn [i_himodseq_dn set_mods].
  set (n := i_himodseq_dn m + 1). set (msg' := msg_set_modseq n (msg_set_flags flags msg)).
  match goal with |- keeps _ _ (mkBox ?M _ _) _ => set (m' := M) end.
  assert (m_key msg' = key) as Hkey by (apply (mo_key _ _ _ Hold)).
  destruct (flags_mem es m m' key msg msg') as (Hfits & Hmsg & Hmem); try done; try (by apply Hd); try lia; try (by unfold m'; cbn [i_msgs set_mods set_msgs]; rewrite Hkey).
  assert (ready es m' w) as Hready' by (destruct Hready; by constructor).
  assert (forall e, fits es e -> entry_ok e /\ within (budget w + 1) e -> mem (es ++ [e]) (sent None (UPDATE_META (msg_view_new msg')) m') ->
    keeps es (do! _ := on_log (write e) in distribute_update_meta msg') (mkBox m' w false) (fun _ => kept es key)) as Hend.
  { intros e He Hok Hme. apply (step_write es e); [done|done|done|]. intros w' [Hd' _] Hb. unfold distribute_update_meta, send_updates.
    apply step_end, step_mod. apply out_ret. split; [|exists msg'; change (<[m_key msg' := msg']> (i_msgs m) !! key = Some msg'); assert (m_key msg' = key) as -> by exact Hkey; by rewrite lookup_insert_eq]. eapply running_write; [exact Hd'|exact Hme|]. eapply (counted_next m); [exact Hc|done|cbn; lia..]. }
  case_decide as Est.
  - apply (Hend (EMsg msg')); [done| |done]. pose proof (local_bound _ _ _ _ Hm Em). eapply (msg_entry_new m); [exact Hc|lia|exact Hmsg|by rewrite Est|cbn; lia..].
  - apply (Hend (EModseqDn n)); [done| |done]. pose proof Hc as [_ _ Cs]. split; [cbn; unfold is_u64, UINT64_MAX; lia|]. pose proof Hd as [_ _ _ Hlen _ _]. pose proof (zlen_nonneg es). constructor; cbn; try done; lia.
Qed.
Lemma up_update_flags_ok es key flags msg m w : running es (mkBox m w false) -> i_msgs m !! key = Some msg -> keeps es (imaildir_up_update_flags key flags) (mkBox m w false) (fun _ => kept es key).
Proof.
  intros Hr Em. pose proof Hr as [Hd Hm Hc _]. cbn [b_m b_w] in *. pose proof (bounds _ _ _ _ Hr) as (B1 & B2 & B3). unfold imaildir_up_update_flags.
  eapply step_the_msg; [exact Em|]. pose proof (running_ready _ _ _ _ Hr) as Hready. pose proof (me_msgs _ _ Hm _ _ Em) as Hold.
  match goal with |- keeps _ (match _ with MSG_UNFILLED => ?p | _ => _ end) _ _ => assert (m_uid_dn msg = 0 -> keeps es p (mkBox m w false) (fun _ => kept es key)) as Hk end.
  2: { destruct (decide (m_uid_dn msg = 0)) as [E|E]; [destruct (m_state msg); try (by apply Hk); by eapply update_msg_flags_ok|].
       pose proof (proj2 (mo_state _ _ _ Hold) E) as [->| ->]; by eapply update_msg_flags_ok. }
  intros Hu. destruct (msg_flags_eq _ _); [apply out_ret; split; [by exists es|by exists msg]|].
  unfold put_msg. apply step_mod. set (msg' := msg_set_flags flags msg). pose proof (mo_key _ _ _ Hold) as Hkey.
  match goal with |- keeps _ _ (mkBox ?M _ _) _ => set (m' := M) end.
  assert (msg_ok m' key msg') as Hmsg by (destruct Hold; by constructor).
  destruct (put_unfilled es m m' key msg') as [Hfits Hmem]; try done; [apply Hd| | |unfold m'; cbn; by rewrite Hkey| |].
  { pose proof (me_keys _ _ Hm key) as Hk. unfold key_agrees in Hk. destruct (last_for _ es) as [[| | |p|x]|]; try done; try tauto.
    case_decide as Ez; [destruct Hk as [Hk _]; by apply Hk in Em as [_ ?]|]. destruct Hk as [_ Hk]. apply Hk in Em as [_ E]. cbn in *. congruence. }
  { intros old. rewrite Em. by intros [= <-]. }
  { cbn. pose proof (me_keys _ _ Hm key) as Hk. unfold key_agrees in Hk. destruct (last_for (LOG_KEY_MSG key) es) as [x|] eqn:El; [|destruct Hk; congruence].
    destruct (last_in _ _ _ El) as (e & He & Hek & _). by apply (me_locals _ _ Hm e). }
  apply step_end, (step_write es (EMsg msg')); [destruct Hready; by constructor| |done|].
  { pose proof (local_bound _ _ _ _ Hm Em). eapply (msg_entry_new m); [exact Hc|lia|exact Hmsg|by destruct (unfilled_state _ _ _ Hmsg)|cbn; lia..]. }
  intros w' [Hd' _] Hb. apply out_ret. split; [|exists msg'; change (<[m_key msg' := msg']> (i_msgs m) !! key = Some msg'); assert (m_key msg' = key) as -> by exact Hkey; by rewrite lookup_insert_eq]. eapply running_write; [exact Hd'|exact Hmem|]. eapply (counted_next m); [exact Hc|done|cbn; lia..].
Qed.

(** *** New messages *)

Lemma sent_nobody refs arg m : i_dns m = [] -> sent refs arg m = m.
Proof. destruct m. cbn. by intros ->. Qed.

(** A message that had no uid gets one, and a modseq. *)
Lemma finalize_mem es m M k old msg : mem es m -> log_ok es -> i_hi_uid_dn m + 1 < UINT32_MAX -> i_msgs m !! k = Some old -> m_uid_dn old = 0 ->
  m_key msg = k -> m_state msg = MSG_FILLED -> m_uid_dn msg = i_hi_uid_dn m + 1 -> msg_modseq msg = i_himodseq_dn m + 1 -> time_wf (m_internaldate msg) ->
  i_msgs M = <[k := msg]> (i_msgs m) -> i_expunged M = i_expunged m -> i_mods M = i_mods m ⊎ {[+ i_himodseq_dn m + 1 +]} ->
  i_hi_uid_dn M = i_hi_uid_dn m + 1 -> i_hi_uid_local M = i_hi_uid_local m -> i_himodseq_dn M = i_himodseq_dn m + 1 -> same_rest m M ->
  fits es (EMsg msg) /\ msg_ok M k msg /\ mem (es ++ [EMsg msg]) (sent None (UPDATE_NEW (msg_view_new msg)) M).
Proof.
  intros Hm Hlo Hlim Eo Hu F1 F2 F3 F4 F5 Et Ee Emods Eh El Es Hrest. pose proof Hrest as [Rd Ro Rn]. pose proof (me_msgs _ _ Hm k old Eo) as Hold.
  pose proof (me_pos _ _ Hm) as (P1 & P2 & P3). pose proof (unfilled_state _ _ _ Hold Hu) as [Hnf Hne]. pose proof (not_expunged _ _ _ _ Hm Eo Hne) as Ex.
  assert (msg_modseq old = 0) as Hmo by (by apply (mo_zero _ _ _ Hold)).
  assert (grown m M) as Hg by (constructor; lia).
  assert (msg_ok M k msg) as Hmsg.
  { constructor; rewrite ?F2, ?F3, ?F4, ?Eh, ?Es; try done; try lia; [apply Hold|]. split; [lia|by left]. }
  assert (match last_for (LOG_KEY_MSG k) es with Some x => ent_uid x = 0 /\ ent_modseq x = 0 | None => True end) as Hlast.
  { apply (last_unfilled es m k Hm Hlo Ex). intros msg'. rewrite Eo. by intros [= <-]. }
  assert (forall e, e ∈ es -> ent_uid e <> m_uid_dn msg) as Hfresh.
  { intros e He. pose proof (me_uids _ _ Hm e He). lia. }
  assert (fits es (EMsg msg)) as Hfits.
  { constructor; cbn [ent_uid ent_modseq ent_key]; [lia|done| |done]. intros k' [= <-]. rewrite F1. destruct (last_for _ es) as [x|]; [|auto]. right. split; [apply Hlast|auto]. }
  split; [done|]. split; [done|]. set (v := msg_view_new msg).
  assert (forall uid w, filled_at M uid w <-> filled_at m uid w \/ uid = v_uid_dn v /\ w = v) as Hfill.
  { intros uid w. unfold filled_at. rewrite Et. split.
    - intros (k' & msg' & Hk' & Hst & -> & ->). apply lookup_insert_Some in Hk' as [[<- <-]|[_ Hk']]; [by right|]. left. by exists k', msg'.
    - intros [(k' & msg' & Hk' & Hst & -> & ->)|[-> ->]]; [|exists k, msg; by rewrite lookup_insert_eq].
      exists k', msg'. split; [|done]. rewrite lookup_insert_ne; [done|]. intros <-. rewrite Eo in Hk'. injection Hk' as <-. done. }
  apply (mem_write es (EMsg msg) k m); try done.
  - cbn. congruence.
  - constructor; cbn; lia.
  - intros k' Hn. unfold sent. cbn [i_msgs i_expunged set_dns]. rewrite Et, Ee. by rewrite lookup_insert_ne.
  - constructor; unfold sent; cbn [i_msgs i_expunged set_dns].
    + unfold key_agrees. rewrite (last_this k) by (cbn; congruence). cbn [as_read i_msgs i_expunged set_dns]. rewrite Et, Ee, lookup_insert_eq. split; [done|].
      exists msg. split; [done|]. split; [done|]. by rewrite F2.
    + intros msg'. rewrite Et, lookup_insert_eq. intros [= <-]. by eapply msg_ok_grown; [|exact Hmsg].
    + intros x. by rewrite Ee, Ex.
  - cbn. lia.
  - cbn. rewrite El. by eapply local_bound.
  - cbn. fold (msg_modseq msg). lia.
  - left. cbn. fold (msg_modseq msg). lia.
  - unfold sent. cbn [i_msgs i_mods set_dns]. rewrite Et, Emods, <- F4, <- (nz_some (msg_modseq msg)) by lia. rewrite (msum_put _ k old) by done.
    pose proof (me_mods _ _ Hm) as Hmods. rewrite (msum_delete _ k old _ Eo) in Hmods. multiset_solver.
  - constructor.
    + eapply in_step_sent; [exact Rd| |apply Hm]. intros mb Hmb. eapply shows_new; [exact Hmb|cbn; lia|cbn; lia|cbn; lia|exact Hfill].
    + apply views_sent.
      * eapply views_rest; [exact Hrest|]. eapply Forall_impl; [apply (me_given _ _ Hm)|]. intros w. apply given_snoc.
      * intros w [= <-]. split; [cbn; lia|]. exists (EMsg msg). split; [apply elem_of_app; right; by left|done].
    + eapply (olds_same m); [done|done| |apply Hm]. intros k' msg' Hk' Hst. unfold sent. cbn [i_msgs set_dns]. rewrite Et. destruct (decide (k' = k)) as [->|Hn].
      * rewrite Eo in Hk'. injection Hk' as <-. done.
      * exists msg'. by rewrite lookup_insert_ne.
Qed.

(** The trees with one message assigned, before it is in the log. *)
Record almost (m m2 : imaildir_t) (k : msg_key_t) (msg : msg_t) : Prop := {
  al_msgs : i_msgs m2 = <[k := msg]> (i_msgs m); al_exps : i_expunged m2 = i_expunged m; al_mods : i_mods m2 = i_mods m;
  al_uid : i_hi_uid_dn m2 = i_hi_uid_dn m; al_local : i_hi_uid_local m2 = i_hi_uid_local m; al_modseq : i_himodseq_dn m2 = i_himodseq_dn m;
  al_rest : same_rest m m2
}.
Lemma ready_rest es m m' w : same_rest m m' -> ready es m w -> ready es m' w.
Proof. intros Hr [Hd Hg]. constructor; [done|]. by eapply views_rest. Qed.
Lemma running_mem_ready es m w : disk es w -> mem es m -> ready es m w.
Proof. intros Hd Hm. constructor; [done|apply Hm]. Qed.

Definition finalized (uid n : Z) (msg : msg_t) : msg_t := msg_set_state MSG_FILLED (msg_set_modseq n (msg_set_uid_dn uid msg)).
Lemma finalize_write {A} es m m2 w k old msg (K : msg_t -> stm box A) Q : running es (mkBox m w false) -> forall w2, disk es w2 -> budget w <= budget w2 ->
  almost m m2 k msg -> i_msgs m !! k = Some old -> m_uid_dn old = 0 -> m_key msg = k -> time_wf (m_internaldate msg) ->
  (forall M w', let msg' := finalized (i_hi_uid_dn m + 1) (i_himodseq_dn m + 1) msg in
     i_msgs M = <[k := msg']> (i_msgs m) -> i_expunged M = i_expunged m -> same_rest m M -> msg_ok M k msg' -> disk (es ++ [EMsg msg']) w' -> counted M w' ->
     mem (es ++ [EMsg msg']) (sent None (UPDATE_NEW (msg_view_new msg')) M) -> keeps (es ++ [EMsg msg']) (K msg') (mkBox M w' false) Q) ->
  keeps es (do! msg := finalize_msg msg in do! _ := on_log (update_msg msg) in K msg) (mkBox m2 w2 false) Q.
Proof.
  intros Hr w2 Hd2 Hb Hal Eo Hu Hkey Htime HK. pose proof Hr as [Hd Hm Hc _]. cbn [b_m b_w] in *. pose proof (bounds _ _ _ _ Hr) as (B1 & B2 & B3).
  pose proof Hal as [Am Ae Ao Au Al As Ar]. unfold finalize_msg. apply step_assoc, step_uid_dn; [lia|]. apply step_assoc, step_himodseq; [cbn; lia|].
  unfold ins_mod. apply step_assoc, step_mod. unfold put_msg. apply step_assoc, step_mod. apply step_ret. cbn [i_himodseq_dn set_hi_uid_dn]. rewrite Au, As.
  fold (finalized (i_hi_uid_dn m + 1) (i_himodseq_dn m + 1) msg). set (msg' := finalized _ _ msg) in *.
  match goal with |- keeps _ _ (mkBox ?M0 _ _) _ => set (M := M0) end.
  assert (same_rest m M) as HrM by (destruct Ar; by constructor).
  assert (i_msgs M = <[k := msg']> (i_msgs m)) as EM.
  { change (i_msgs M) with (<[m_key msg' := msg']> (i_msgs m2)). assert (m_key msg' = k) as -> by exact Hkey. by rewrite Am, insert_insert_eq. }
  destruct (finalize_mem es m M k old msg') as (Hfits & Hmsg & Hmem); try done; try (by apply Hd); try (unfold UINT32_MAX; lia).
  { unfold M. cbn. by rewrite Ao. }
  apply (step_write es (EMsg msg')); [eapply ready_rest; [exact HrM|by apply running_mem_ready]| |done|].
  { pose proof (local_bound _ _ _ _ Hm Eo). eapply (msg_entry_new m); [exact Hc|lia|exact Hmsg|done|cbn; lia..]. }
  intros w' [Hd' _] Hb'. apply HK; try done. eapply (counted_next m); [exact Hc|lia|cbn; lia..].
Qed.

Lemma name_written epoch key len : exists name, maildir_name_write epoch key len hostname None (mkD [] 255 true) = (Ok tt, name).
Proof.
  destruct (appends_name epoch key len hostname None (mkD [] 255 true) 0) as (d' & E & _); [|lia|by exists d'].
  split; [by vm_compute|]. cbn [d_fixed d_size d_data]. unfold d_len. cbn [d_data]. change (zlen (@nil Z)) with 0.
  unfold name_text, uniq_text, id_words. rewrite !joinb_length by done. cbn [map length foldr app]. repeat (rewrite joinb_length by done; cbn [map length foldr]). rewrite !zlen_cons. change (zlen (@nil (list Z))) with 0.
  pose proof (dec_length epoch). pose proof (dec_length deliv_id_ver). pose proof (dec_length (uid_up key)). pose proof (dec_length (uid_local key)). pose proof (dec_length len).
  pose proof (mod_host_length hostname). pose proof hostname_short. lia.
Qed.
Lemma keeps_or_fail {A B} es (a : stm box A) (h : stm box unit) (k : A -> stm box B) b P Q :
  outcome a b P (fun b' => keeps es (st_bind h (fun _ => st_fail E_OS : stm box unit)) b' (fun _ _ => False)) ->
  (forall x b', P x b' -> keeps es (k x) b' Q) -> keeps es (st_bind (or_fail a h) k) b Q.
Proof.
  intros Ha Hk. unfold keeps, outcome, st_bind, or_fail in *. destruct (a b) as [[x|e|x] b']; [by apply Hk| |done]. by destruct (h b') as [[[]|e'|e'] b2].
Qed.
(** Renaming the file of a message and assigning its name. *)
Lemma new_file_ok {A} es epoch msg len m m2 k w (K : msg_t -> stm box A) Q : ready es m2 w -> almost m m2 k msg -> m_key msg = k ->
  (forall msg' m3 w', disk es w' -> budget w <= budget w' -> almost m m3 k msg' -> same_rest m2 m3 -> m_key msg' = k -> persisted msg' = persisted msg -> keeps es (K msg') (mkBox m3 w' false) Q) ->
  keeps es (do! msg := handle_new_msg_file epoch msg len in K msg) (mkBox m2 w false) Q.
Proof.
  intros Hr Hal Hkey HK. pose proof Hr as [Hd Hg]. unfold handle_new_msg_file. apply step_assoc. destruct (name_written epoch (m_key msg) len) as [name En].
  apply (keeps_or_fail es _ _ _ _ (fun _ b' => exists w', b' = mkBox m2 w' false /\ disk es w' /\ budget w <= budget w')).
  - rewrite En. apply out_bind. eapply out_lift; [done|]. apply out_bind. destruct (io_world es w Hd) as [Hd' Hb]. unfold outcome at 1, file_io, on_log. cbn [b_w b_m b_invalid].
    destruct (io w) as [[[]|e|x] w'] eqn:E; cbn [snd] in *.
    + apply out_ret. by exists w'.
    + apply step_drop_io; [done|]. intros w2 Hd2 _. apply keeps_fail. by constructor.
    + unfold io in E. by destruct (io_ok _).
  - intros cur _ (w' & -> & Hd' & Hb). destruct (msg_set_file len SUBDIR_CUR cur msg) as [msg'|e|x] eqn:Ef; unfold msg_set_file in Ef; destruct (m_filename msg); try done.
    + injection Ef as <-. apply step_assoc. eapply step_lift; [done|]. apply step_assoc. unfold put_msg. apply step_mod, step_ret.
      apply HK; try done. destruct Hal as [Am Ae Ao Au Al As Ar]. constructor; try done.
      * cbn [i_msgs set_msgs m_key]. by rewrite Hkey, Am, insert_insert_eq.
      * destruct Ar; by constructor.
    + injection Ef as <-. apply (keeps_fail es m2 w' E_INTERNAL). by constructor.
Qed.


Lemma persisted_key a b : persisted a = persisted b -> m_key a = m_key b /\ m_uid_dn a = m_uid_dn b /\ m_internaldate a = m_internaldate b /\ m_state a = m_state b.
Proof. unfold persisted, msg_new. intros E. injection E. auto. Qed.
(** What the provider may send of a message. *)
Definition fetch_wf (fetch : ie_fetch_resp_t) : Prop :=
  0 <= fr_uid fetch < 2 ^ 32 /\ time_wf (fr_intdate fetch) /\ Forall (fun x => is_Some (re_content x)) (fr_extras fetch).

Lemma static_ok es epoch key fetch msg m w : running es (mkBox m w false) -> i_msgs m !! key = Some msg -> fetch_wf fetch ->
  keeps es (imaildir_up_handle_static_fetch_attr epoch key fetch) (mkBox m w false) (fun _ => good es).
Proof.
  intros Hr Em (_ & Htime & Hcontent). pose proof Hr as [Hd Hm Hc _]. cbn [b_m b_w] in *. pose proof (bounds _ _ _ _ Hr) as (B1 & B2 & B3).
  pose proof (running_ready _ _ _ _ Hr) as Hready. pose proof (me_msgs _ _ Hm _ _ Em) as Hold.
  unfold imaildir_up_handle_static_fetch_attr. eapply step_the_msg; [exact Em|]. case_bool_decide as Est; cbn [negb]; [|apply out_ret; by exists es].
  destruct (fr_extras fetch) as [|extra next]; [by apply keeps_fail|]. destruct (_ =? 0); [by apply keeps_fail|]. destruct (_ || _); [by apply keeps_fail|].
  inversion Hcontent as [|? ? [content Hx] _]; subst. set (msg1 := msg_set_internaldate (fr_intdate fetch) msg). unfold put_msg at 1. apply step_mod.
  unfold imaildir_new_tmp_id. apply step_assoc, step_get, step_assoc, step_mod, step_ret. rewrite Hx. eapply step_lift; [done|].
  assert (m_uid_dn msg = 0) as Hu.
  { destruct (decide (m_uid_dn msg = 0)) as [|E]; [done|]. apply (mo_state _ _ _ Hold) in E as [E|E]; congruence. }
  pose proof (mo_key _ _ _ Hold) as Hkey.
  match goal with |- keeps _ _ (mkBox ?M0 _ _) _ => set (m2 := M0) end.
  assert (almost m m2 key msg1) as Hal by (constructor; try done; cbn; by rewrite Hkey).
  assert (forall w2 len not4me, disk es w2 -> budget w <= budget w2 ->
    keeps es (if not4me : bool then let msg := msg_set_state MSG_NOT4ME msg1 in do! _ := put_msg msg in on_log (update_msg msg)
              else do! msg := handle_new_msg_file epoch msg1 len in do! msg := finalize_msg msg in do! _ := on_log (update_msg msg) in distribute_update_new msg)
      (mkBox m2 w2 false) (fun _ => good es)) as Hrest.
  { intros w2 len not4me Hd2 Hb2. pose proof Hal as [Am Ae Ao Au Al As Ar]. destruct not4me.
    - set (msg' := msg_set_state MSG_NOT4ME msg1). cbn zeta. unfold put_msg. apply step_mod.
      match goal with |- keeps _ _ (mkBox ?M0 _ _) _ => set (M := M0) end.
      assert (msg_ok M key msg') as Hmsg.
      { destruct Hold. constructor; cbn; try done. split; [by intros [?|?]|done]. }
      assert (i_msgs M = <[key := msg']> (i_msgs m)) as EM.
      { change (i_msgs M) with (<[m_key msg' := msg']> (i_msgs m2)). assert (m_key msg' = key) as -> by exact Hkey. by rewrite Am, insert_insert_eq. }
      destruct (put_unfilled es m M key msg') as [Hfits Hmem]; try done; try (by apply Hd).
      { eapply not_expunged; [exact Hm|exact Em|by rewrite Est]. } { intros old. rewrite Em. by intros [= <-]. } { exact (local_bound _ _ _ _ Hm Em). }
      apply step_end, (step_write es (EMsg msg')); [eapply (ready_rest es m); [done|by apply running_mem_ready]| |done|].
      { pose proof (local_bound _ _ _ _ Hm Em). eapply (msg_entry_new m); [exact Hc|lia|exact Hmsg|done|cbn; lia..]. }
      intros w' [Hd' _] Hb. apply out_ret. eapply running_write; [exact Hd'|exact Hmem|]. eapply (counted_next m); [exact Hc|lia|cbn; lia..].
    - apply (new_file_ok es epoch msg1 len m m2 key); [eapply (ready_rest es m); [done|by apply running_mem_ready]|done|done|].
      intros msg' m3 w3 Hd3 Hb3 Hal3 _ Hk3 Hp3. apply persisted_key in Hp3 as (_ & Hp3 & Ht3 & _).
      apply (finalize_write es m m3 w key msg msg' _ _ Hr w3 Hd3); [lia|done|done|done|done|by rewrite Ht3|].
      intros M w' msg2 _ _ _ _ Hd' Hc' Hmem. unfold distribute_update_new, send_updates. apply step_end, step_mod, out_ret.
      eapply running_write; [exact Hd'|exact Hmem|]. destruct Hc'. by constructor. }
  destruct process_msg as [f|] eqn:Ehook.
  - destruct (f content) as [[len not4me]|e|x] eqn:Ef; [eapply step_lift; [done|]; apply Hrest; [done|lia]| |by destruct (hook_returns f content x Ehook)].
    apply (keeps_fail es m2 w e). eapply (ready_rest es m); [apply Hal|done].
  - apply step_assoc, step_io; [eapply (ready_rest es m); [apply Hal|done]|]. intros w2 Hd2 Hb2. apply step_ret. exact (Hrest w2 (zlen content) false Hd2 Hb2).
Qed.

Lemma up_fetch_ok es epoch fetch m w : running es (mkBox m w false) -> fetch_wf fetch -> keeps es (up_fetch_resp epoch fetch) (mkBox m w false) (fun _ => good es).
Proof.
  intros Hr Hf. pose proof Hr as [Hd Hm Hc _]. cbn [b_m b_w] in *. unfold up_fetch_resp. destruct (Z.eqb_spec (fr_uid fetch) 0) as [|Hn]; [apply out_ret; by exists es|].
  apply step_get. unfold imaildir_up_lookup_msg. set (key := KEY_UP (fr_uid fetch)).
  assert (forall es2 b, running es2 b -> es ⊆ es2 -> (exists msg, i_msgs (b_m b) !! key = Some msg) ->
    keeps es (match fr_extras fetch with [] => st_ret tt | _ => imaildir_up_handle_static_fetch_attr epoch key fetch end) b (fun _ => good es)) as Hextras.
  { intros es2 [m2 w2 v2] Hr2 Hs [msg Emsg]. pose proof (ru_valid _ _ Hr2) as Hv. cbn in Hv. subst v2. apply (keeps_sub es es2 _ _ _ Hs).
    destruct (fr_extras fetch) eqn:Ex; [apply out_ret; by exists es2|]. eapply keeps_mono; [by eapply static_ok|]. intros [] b'. by apply good_sub. }
  destruct (i_msgs m !! key) as [msg|] eqn:Em.
  - case_bool_decide as Est; [apply out_ret; by exists es|]. case_decide; [apply out_ret; by exists es|].
    rewrite (mo_key _ _ _ (me_msgs _ _ Hm _ _ Em)).
    apply (keeps_bind es _ _ _ (fun _ b' => good es b' /\ exists msg, i_msgs (b_m b') !! key = Some msg)).
    + destruct (fr_flags fetch); [|apply out_ret; split; [by exists es|by exists msg]]. by eapply up_update_flags_ok.
    + intros [] b' [(es2 & Hs & Hr2) Hk]. by apply (Hextras es2).
  - case_bool_decide as Ex; [apply out_ret; by exists es|]. rewrite <- eq_None_not_Some in Ex.
    eapply keeps_bind; [apply new_msg_ok; try done; destruct Hf; lia|]. intros k b' ((es2 & Hs & Hr2) & -> & msg & Hk & _). apply (Hextras es2); [done|done|by exists msg].
Qed.

(** *** Deletion *)

Lemma exp_last es m k x : mem es m -> i_expunged m !! k = Some x -> e_uid_dn x <> 0 -> last_for (LOG_KEY_MSG k) es = Some (EExpunge x).
Proof.
  intros Hm Ex Hu. pose proof (me_keys _ _ Hm k) as Hk. unfold key_agrees in Hk. destruct (last_for _ es) as [[| | |p|x']|]; try done; try (by destruct Hk; congruence).
  case_decide as Ez; [by destruct Hk as [_ Hk]; apply Hk in Ex|]. destruct Hk as [Hk _]. congruence.
Qed.
(** The expunge of a message, with its uid and, if it has one, a new modseq. *)
Lemma exp_fits es m k msg x : mem es m -> log_ok es -> i_msgs m !! k = Some msg -> m_state msg <> MSG_EXPUNGED -> e_key x = k -> e_uid_dn x = m_uid_dn msg ->
  (e_uid_dn x = 0 <-> exp_modseq x = 0) -> (uid_local k = 0 \/ m_uid_dn msg <> 0) -> fits es (EExpunge x).
Proof.
  intros Hm Hlo Em Hst Hk Hu Hz Hl. pose proof (not_expunged _ _ _ _ Hm Em Hst) as Ex. constructor; cbn [ent_uid ent_modseq ent_key]; try done.
  - intros k' [= <-] E. rewrite Hk. destruct Hl; congruence.
  - intros k' [= <-]. rewrite Hk. pose proof (me_keys _ _ Hm k) as Hag. unfold key_agrees in Hag. destruct (last_for (LOG_KEY_MSG k) es) as [y|] eqn:El; [|destruct Hag; congruence].
    destruct y as [| | |p|y]; try done; cbn [ent_uid]; left.
    + destruct Hag as (_ & msg' & Hmsg' & <- & _). rewrite Em in Hmsg'. injection Hmsg' as <-. done.
    + case_decide as Ez; [|destruct Hag; congruence]. destruct Hag as [Hag _]. apply Hag in Em as [E _]. congruence.
Qed.
(** What is left of a message when its expunge [x] is in the log. *)
Lemma expunge_mem es m M k msg x : mem es m -> log_ok es -> i_msgs m !! k = Some msg -> m_state msg <> MSG_EXPUNGED -> exp_ok M k x -> e_uid_dn x = m_uid_dn msg ->
  grown m M -> i_hi_uid_local M = i_hi_uid_local m -> i_expunged M = <[k := x]> (i_expunged m) -> (forall k', k' <> k -> i_msgs M !! k' = i_msgs m !! k') ->
  (forall msg', i_msgs M !! k = Some msg' -> m_uid_dn msg <> 0 /\ m_state msg' = MSG_EXPUNGED /\ m_uid_dn msg' = m_uid_dn msg /\ msg_ok M k msg') ->
  (if decide (m_uid_dn msg = 0) then i_himodseq_dn M = i_himodseq_dn m else i_himodseq_dn M = exp_modseq x) ->
  msum msg_modseq (i_msgs M) ⊆ i_mods M -> told (es ++ [EExpunge x]) M -> mem (es ++ [EExpunge x]) M.
Proof.
  intros Hm Hlo Em Hst Hx Hu Hg El Ee Et Ek Eseq Hmods Htold. pose proof Hx as [Xk Xw Xm Xz _ Xu Xs]. pose proof (not_expunged _ _ _ _ Hm Em Hst) as Ex.
  apply (mem_write es (EExpunge x) k m); try done.
  - cbn. congruence.
  - intros k' Hn. rewrite Et, Ee by done. by rewrite lookup_insert_ne.
  - constructor.
    + unfold key_agrees. rewrite (last_this k) by (cbn; congruence). cbn [as_read]. fold (exp_modseq x). rewrite <- Xm, Ee, lookup_insert_eq. destruct (decide (e_uid_dn x = 0)) as [Ez|Ez].
      * split; [intros msg' Hmsg'; destruct (Ek _ Hmsg') as (Hn & _); congruence|]. by intros x' [= <-].
      * split; [done|]. intros msg' Hmsg'. destruct (Ek _ Hmsg') as (_ & ? & ? & _). split; congruence.
    + intros msg' Hmsg'. apply (Ek _ Hmsg').
    + intros x'. rewrite Ee, lookup_insert_eq. by intros [= <-].
  - cbn. lia.
  - rewrite El. by eapply local_bound.
  - cbn. lia.
  - cbn. destruct (decide (m_uid_dn msg = 0)) as [Ez|Ez]; [|left; congruence]. right. split; [done|]. intros y Hy. left. apply (last_zero es k y Hlo Hy).
    pose proof (last_unfilled es m k Hm Hlo Ex) as Hl. rewrite Hy in Hl. apply Hl. intros msg'. rewrite Em. by intros [= <-].
Qed.
Lemma delete_others (t : gmap msg_key_t msg_t) k msg : t !! k = Some msg -> forall k' msg', t !! k' = Some msg' -> m_state msg' = MSG_EXPUNGED -> m_state msg <> MSG_EXPUNGED -> k' <> k.
Proof. intros E k' msg' E' Hs Hn ->. congruence. Qed.

Definition removed (msg : msg_t) (m : imaildir_t) : imaildir_t :=
  let m := if modseq (m_mod msg) =? 0 then m else set_mods (i_mods m ∖ {[+ modseq (m_mod msg) +]}) m in set_msgs (delete (m_key msg) (i_msgs m)) m.
Lemma remove_msg_ok es msg m w Q : disk es w -> (forall w', disk es w' -> budget w <= budget w' -> Q tt (mkBox (removed msg m) w' false)) ->
  keeps es (remove_and_delete_msg msg) (mkBox m w false) Q.
Proof.
  intros Hd HQ. unfold remove_and_delete_msg, removed in *.
  assert (forall w', disk es w' -> budget w <= budget w' -> keeps es (do! _ := (if modseq (m_mod msg) =? 0 then st_ret tt else erase_mod (modseq (m_mod msg))) in
    mod_m (fun m => set_msgs (delete (m_key msg) (i_msgs m)) m)) (mkBox m w' false) Q) as Hk.
  { intros w' Hd' Hb. specialize (HQ w' Hd' Hb). destruct (_ =? 0); [apply step_ret|unfold erase_mod; apply step_mod]; apply step_end, step_mod, out_ret; exact HQ. }
  destruct (m_filename msg); [apply step_drop_io; [done|exact Hk]|apply step_ret, Hk; [done|lia]].
Qed.
Lemma removed_fields msg m : i_msgs (removed msg m) = delete (m_key msg) (i_msgs m) /\ i_expunged (removed msg m) = i_expunged m /\
  i_mods (removed msg m) = (if msg_modseq msg =? 0 then i_mods m else i_mods m ∖ {[+ msg_modseq msg +]}) /\ i_hi_uid_dn (removed msg m) = i_hi_uid_dn m /\
  i_hi_uid_local (removed msg m) = i_hi_uid_local m /\ i_himodseq_dn (removed msg m) = i_himodseq_dn m /\ same_rest m (removed msg m).
Proof. unfold removed, msg_modseq. destruct (_ =? 0); split_and!; by try constructor. Qed.
(** The expunge goes to all sessions, or the message goes away. *)
Definition distributed (x : msg_expunge_t) (msg : msg_t) (m : imaildir_t) : imaildir_t :=
  match i_dns m with
  | [] => removed msg m
  | dns => sent (Some (i_next_old m)) (UPDATE_EXPUNGE x) (set_olds (<[i_next_old m := (m_key msg, zlen dns)]> (i_olds m)) (i_next_old m + 1) m)
  end.
Lemma distribute_ok es x msg m w Q : disk es w -> x = msg_expunge_new (e_key x) (e_uid_dn x) (e_state x) (modseq (e_mod x)) ->
  (forall w', disk es w' -> budget w <= budget w' -> Q tt (mkBox (distributed x msg m) w' false)) ->
  keeps es (distribute_update_expunge x msg) (mkBox m w false) Q.
Proof.
  intros Hd Ex HQ. unfold distribute_update_expunge, distributed in *. apply step_get. destruct (i_dns m) as [|dn dns] eqn:Ed; [by apply remove_msg_ok|].
  rewrite <- Ex. unfold old_msg_new. apply step_assoc, step_get, step_assoc, step_mod, step_ret. unfold send_updates. apply step_mod. unfold ref_dn. apply step_get.
  cbn [i_olds set_olds set_dns]. rewrite lookup_insert_eq. pose proof (zlen_nonneg dns). rewrite zlen_cons in *. rewrite (proj2 (Z.eqb_neq _ _)) by lia.
  apply step_end, step_mod, out_ret. replace (1 + (1 + zlen dns) - 1) with (1 + zlen dns) by lia. specialize (HQ w Hd ltac:(lia)).
  unfold sent in HQ. cbn [i_dns i_olds i_next_old set_olds set_dns] in *. rewrite Ed in *. rewrite insert_insert_eq. exact HQ.
Qed.

(** The sessions lose sight of a message. *)
Lemma filled_drop es m M k msg : mem es m -> log_ok es -> i_msgs m !! k = Some msg -> m_state msg = MSG_FILLED ->
  (forall k', k' <> k -> i_msgs M !! k' = i_msgs m !! k') -> (forall msg', i_msgs M !! k = Some msg' -> m_state msg' <> MSG_FILLED) ->
  forall uid w, filled_at M uid w <-> uid <> m_uid_dn msg /\ filled_at m uid w.
Proof.
  intros Hm Hlo Em Est Et Ek uid w. assert (m_uid_dn msg <> 0) as Hu by (apply (mo_state _ _ _ (me_msgs _ _ Hm _ _ Em)); tauto). unfold filled_at. split.
  - intros (k' & msg' & Hk' & Hst & -> & ->). assert (k' <> k) as Hn by (intros ->; by apply Ek in Hk'). rewrite Et in Hk' by done. split; [|by exists k', msg'].
    intros E. apply Hn. eapply (uid_unique es m k' k); [done|done|exact Hk'|exact Em|congruence|done].
  - intros [Hn (k' & msg' & Hk' & Hst & -> & ->)]. exists k', msg'. split; [|done]. rewrite Et; [done|]. intros ->. congruence.
Qed.
(** What the sessions are told of the expunge [x] of a message that was filled. *)
Lemma told_distributed es m M k msg x : mem es m -> log_ok es -> i_msgs m !! k = Some msg -> m_state msg = MSG_FILLED -> m_key msg = k -> e_uid_dn x = m_uid_dn msg ->
  grown m M -> same_rest m M -> i_msgs M = <[k := msg_set_state MSG_EXPUNGED msg]> (i_msgs m) -> told (es ++ [EExpunge x]) (distributed x (msg_set_state MSG_EXPUNGED msg) M).
Proof.
  intros Hm Hlo Em Est Hk Hu Hg Hrest Et. pose proof Hrest as [Rd Ro Rn]. set (msg' := msg_set_state MSG_EXPUNGED msg) in *. change (m_key msg') with (m_key msg) in *.
  assert (Forall (given_in (es ++ [EExpunge x])) (views_of M)) as Hgiven.
  { eapply views_rest; [exact Hrest|]. eapply Forall_impl; [apply (me_given _ _ Hm)|]. intros v. apply given_snoc. }
  assert (forall k' msg2, i_msgs m !! k' = Some msg2 -> m_state msg2 = MSG_EXPUNGED -> k' <> k) as Hother by (intros k' msg2 E1 E2 ->; congruence).
  unfold distributed. destruct (i_dns M) as [|dn dns] eqn:Ed.
  - destruct (removed_fields msg' M) as (F1 & _ & _ & F4 & _ & _ & [F7 F8 F9]). change (m_key msg') with (m_key msg) in F1. constructor.
    + rewrite F7, Ed. constructor.
    + unfold views_of in *. by rewrite F7.
    + apply (olds_same m); [congruence|congruence| |apply Hm]. intros k' msg2 E1 E2. exists msg2. rewrite F1, Et, Hk. specialize (Hother _ _ E1 E2).
      by rewrite lookup_delete_ne, lookup_insert_ne.
  - rewrite <- Ed. constructor.
    + apply (in_step_sent m); [cbn; congruence| |apply Hm]. intros mb Hmb. apply (shows_expunge m); [done|cbn; apply Hg| |].
      * exists (msg_view_new msg), k, msg. split_and!; done.
      * rewrite Hu. eapply (filled_drop es); try done; unfold sent; cbn [i_msgs set_dns set_olds]; rewrite Et; [|by rewrite lookup_insert_eq; intros ? [= <-]].
        intros k' Hn. by rewrite lookup_insert_ne.
    + by apply views_sent.
    + destruct (me_olds _ _ Hm) as [Ho Hi]. unfold sent. constructor; cbn [i_olds i_next_old i_msgs set_olds set_dns]; rewrite Ro, Rn.
      * intros id k' n. rewrite Et. intros [[<- [= <- <-]]|[Hn Hid]]%lookup_insert_Some.
        -- rewrite Ed, zlen_cons. pose proof (zlen_nonneg dns). split; [lia|]. split; [lia|]. exists msg'. by rewrite Hk, lookup_insert_eq.
        -- destruct (Ho _ _ _ Hid) as (H1' & H2' & msg2 & E1 & E2). split; [lia|]. split; [done|]. exists msg2. specialize (Hother _ _ E1 E2). by rewrite lookup_insert_ne.
      * intros id1 id2 k' n1 n2 [[<- E1]|[Hn1 Hid1]]%lookup_insert_Some [[<- E2]|[Hn2 Hid2]]%lookup_insert_Some; try done.
        -- injection E1 as <- <-. destruct (Ho _ _ _ Hid2) as (_ & _ & msg2 & F1 & F2). by destruct (Hother _ _ F1 F2).
        -- injection E2 as <- <-. destruct (Ho _ _ _ Hid1) as (_ & _ & msg2 & F1 & F2). by destruct (Hother _ _ F1 F2).
        -- by eapply Hi.
Qed.

Lemma grown_next m M : i_hi_uid_dn M = i_hi_uid_dn m -> i_hi_uid_local M = i_hi_uid_local m -> i_himodseq_dn m <= i_himodseq_dn M -> grown m M.
Proof. intros. constructor; lia. Qed.
(** The expunge of a key that has a uid is marked as pushed. *)
Lemma repush_mem es m k x : mem es m -> log_ok es -> i_expunged m !! k = Some x -> e_uid_dn x <> 0 ->
  let x' := mkExpunge (e_key x) (e_uid_dn x) MSG_EXPUNGE_PUSHED (e_mod x) in
  fits es (EExpunge x') /\ exp_ok m k x' /\ mem (es ++ [EExpunge x']) (set_expunged (<[k := x']> (i_expunged m)) m).
Proof.
  intros Hm Hlo Ex Hu x'. pose proof (exp_last es m k x Hm Ex Hu) as El. pose proof (me_exps _ _ Hm k x Ex) as Hx. pose proof Hx as [Xk Xw Xm Xz _ Xu Xs].
  assert (e_mod x = e_mod (msg_expunge_new (e_key x) (e_uid_dn x) (e_state x) (exp_modseq x))) as Xe by (by rewrite <- Xm).
  assert (exp_ok m k x') as Hx' by (constructor; try done; unfold x'; by rewrite Xe).
  assert (fits es (EExpunge x')) as Hfits.
  { constructor; cbn [ent_uid ent_modseq ent_key]; try done. intros k' [= <-]. cbn [e_key x']. rewrite Xk, El. by left. }
  split; [done|]. split; [done|]. pose proof (last_in _ _ _ El) as (e0 & He0 & Hk0 & _). apply (mem_write es (EExpunge x') k m); try done; cbn [i_msgs set_expunged].
  - cbn. congruence.
  - intros k' Hn. cbn. by rewrite lookup_insert_ne.
  - constructor; cbn [i_msgs i_expunged set_expunged].
    + unfold key_agrees. rewrite (last_this k) by (cbn; congruence). cbn [as_read i_msgs i_expunged set_expunged e_uid_dn msg_expunge_new x']. rewrite decide_False, lookup_insert_eq by done.
      split; [f_equal; unfold x'; rewrite Xm; done|]. intros msg Hmsg. pose proof (me_keys _ _ Hm k) as Hk. unfold key_agrees in Hk. rewrite El, decide_False in Hk by done. by apply Hk.
    + intros msg Hmsg. apply (msg_ok_grown m); [apply grown_next; cbn; lia|by apply Hm].
    + intros y. rewrite lookup_insert_eq. intros [= <-]. apply (exp_ok_grown m); [by apply grown_next; cbn; lia|done].
  - cbn. lia.
  - cbn. by apply (me_locals _ _ Hm e0).
  - change (exp_modseq x <= i_himodseq_dn m). lia.
  - right. split; [done|]. intros y. rewrite El. intros [= <-]. by right.
  - apply (me_mods _ _ Hm).
  - eapply told_same; [apply sub_snoc| | | | |exact Hm]; try done. intros k' msg ? ?. by exists msg.
Qed.

Definition given_key (es : list entry) (k : msg_key_t) : Prop := exists e, e ∈ es /\ ent_key e = Some k /\ ent_uid e <> 0.
Lemma given_uid es m k msg : mem es m -> log_ok es -> given_key es k -> i_msgs m !! k = Some msg -> m_uid_dn msg <> 0.
Proof.
  intros Hm Hlo (e & He & Hk & Hn) Em Hu. pose proof (me_keys _ _ Hm k) as Hag. unfold key_agrees in Hag. destruct (last_for (LOG_KEY_MSG k) es) as [x|] eqn:El; [|destruct Hag; congruence].
  apply Hn. eapply (lo_last _ Hlo k x); try done. destruct x as [| | |p|x]; try done; cbn [ent_uid].
  - destruct Hag as (_ & msg' & Hmsg' & <- & _). rewrite Em in Hmsg'. injection Hmsg' as <-. done.
  - case_decide as Ez; [done|]. destruct Hag as [_ Hag]. destruct (Hag _ Em). congruence.
Qed.
Lemma distributed_fields x msg m : m_state msg = MSG_EXPUNGED -> i_msgs m !! m_key msg = Some msg -> 
  (forall k', k' <> m_key msg -> i_msgs (distributed x msg m) !! k' = i_msgs m !! k') /\
  (forall msg', i_msgs (distributed x msg m) !! m_key msg = Some msg' -> msg' = msg) /\
  i_expunged (distributed x msg m) = i_expunged m /\ i_hi_uid_dn (distributed x msg m) = i_hi_uid_dn m /\ i_hi_uid_local (distributed x msg m) = i_hi_uid_local m /\
  i_himodseq_dn (distributed x msg m) = i_himodseq_dn m /\
  (msum msg_modseq (i_msgs m) ⊆ i_mods m -> msum msg_modseq (i_msgs (distributed x msg m)) ⊆ i_mods (distributed x msg m)).
Proof.
  intros Hst Em. unfold distributed. destruct (i_dns m) as [|dn dns].
  - destruct (removed_fields msg m) as (-> & -> & -> & -> & -> & -> & _). split_and!; try done.
    + intros k' Hn. by rewrite lookup_delete_ne.
    + intros msg'. by rewrite lookup_delete_eq.
    + rewrite (msum_delete _ _ _ _ Em). unfold nz. destruct (_ =? 0); multiset_solver.
  - split_and!; try done. cbn. intros msg'. rewrite Em. by intros [= <-].
Qed.

(** The mailbox lets a message go that was not given out. *)
Lemma delete_unfilled_ok es key msg m w : running es (mkBox m w false) -> i_msgs m !! key = Some msg -> m_uid_dn msg = 0 -> uid_local key = 0 ->
  let x := msg_expunge_new key 0 MSG_EXPUNGE_PUSHED 0 in
  keeps es (do! _ := ins_expunge x in do! _ := on_log (update_expunge x) in remove_and_delete_msg msg) (mkBox m w false) (fun _ => good es).
Proof.
  intros Hr Em Hu Hl x. pose proof Hr as [Hd Hm Hc _]. cbn [b_m b_w] in *. pose proof (bounds _ _ _ _ Hr) as (B1 & B2 & B3). pose proof Hd as [_ _ _ _ Hlo _].
  pose proof (me_msgs _ _ Hm _ _ Em) as Hmsg. destruct (unfilled_state _ _ _ Hmsg Hu) as [Hnf Hne]. pose proof (not_expunged _ _ _ _ Hm Em Hne) as Ex.
  unfold ins_expunge. apply step_assoc, step_get. change (e_key x) with key. rewrite Ex. unfold put_expunge. apply step_mod. change (e_key x) with key.
  set (M := set_expunged (<[key := x]> (i_expunged m)) m).
  assert (exp_ok (removed msg M) key x) as Hx.
  { destruct (removed_fields msg M) as (_ & _ & _ & E1 & _ & E2 & _). constructor; rewrite ?E1, ?E2; cbn; try done; try lia. apply Hmsg. }
  apply (step_write es (EExpunge x)); [| | |].
  { eapply ready_rest; [|by apply running_mem_ready]. by constructor. }
  { destruct (removed_fields msg M) as (_ & _ & _ & E1 & _ & E2 & _). eapply (exp_entry_new m); [exact Hc|lia|exact Hx|rewrite ?E1, ?E2; cbn; lia..]. }
  { apply (exp_fits es m key msg); try done; by left. }
  intros w' [Hd' _] Hb. apply remove_msg_ok; [done|]. intros w2 Hd2 Hb2. destruct (removed_fields msg M) as (F1 & F2 & F3 & F4 & F5 & F6 & F7). rewrite (mo_key _ _ _ Hmsg) in F1.
  assert (msg_modseq msg = 0) as Hms by (by apply (mo_zero _ _ _ Hmsg)). rewrite Hms in F3. cbn [Z.eqb] in F3.
  eapply running_write; [exact Hd2| |].
  - apply (expunge_mem es m _ key msg); try done.
    + apply grown_next; rewrite ?F4, ?F5, ?F6; cbn; lia.
    + rewrite F1. intros k' Hn. by rewrite lookup_delete_ne.
    + rewrite F1. intros msg'. by rewrite lookup_delete_eq.
    + rewrite decide_True by done. by rewrite F6.
    + rewrite F1, F3. pose proof (me_mods _ _ Hm) as Hmods. rewrite (msum_delete _ key msg _ Em), Hms in Hmods. cbn [i_msgs i_mods M set_expunged]. multiset_solver.
    + apply (told_same es _ m); [apply sub_snoc|destruct F7; by constructor|by rewrite F4| |  |exact Hm].
      * intros uid v. unfold filled_at. rewrite F1. cbn [i_msgs M set_expunged]. split; intros (k' & msg' & Hk' & Hst & Hrest); exists k', msg'.
        -- apply lookup_delete_Some in Hk' as [_ Hk']. done.
        -- rewrite lookup_delete_ne; [done|]. intros <-. congruence.
      * intros k' msg' Hk' Hst. exists msg'. rewrite F1, lookup_delete_ne; [done|]. intros <-. congruence.
  - eapply (counted_next m); [exact Hc|lia|rewrite ?F4, ?F5, ?F6; cbn; lia..].
Qed.
(** The mailbox lets a message go that was given out. *)
Lemma delete_filled_ok es key msg m w : running es (mkBox m w false) -> i_msgs m !! key = Some msg -> m_state msg = MSG_FILLED ->
  let n := i_himodseq_dn m + 1 in let x := msg_expunge_new key (m_uid_dn msg) MSG_EXPUNGE_PUSHED n in
  keeps es (do! _ := ins_expunge x in do! _ := ins_mod n in do! _ := on_log (update_expunge x) in
    do! _ := put_msg (msg_set_state MSG_EXPUNGED msg) in distribute_update_expunge x (msg_set_state MSG_EXPUNGED msg)) (mkBox (set_himodseq_dn n m) w false) (fun _ => good es).
Proof.
  intros Hr Em Hst. pose proof Hr as [Hd Hm Hc _]. cbn [b_m b_w] in *. pose proof (bounds _ _ _ _ Hr) as (B1 & B2 & B3). pose proof Hd as [_ _ _ _ Hlo _].
  pose proof (me_msgs _ _ Hm _ _ Em) as Hmsg. pose proof (mo_key _ _ _ Hmsg) as Hkey. assert (m_uid_dn msg <> 0) as Hu by (apply (mo_state _ _ _ Hmsg); tauto).
  assert (m_state msg <> MSG_EXPUNGED) as Hne by congruence. pose proof (not_expunged _ _ _ _ Hm Em Hne) as Ex.
  cbn zeta. set (x := msg_expunge_new key (m_uid_dn msg) MSG_EXPUNGE_PUSHED (i_himodseq_dn m + 1)). set (msg' := msg_set_state MSG_EXPUNGED msg).
  unfold ins_expunge. apply step_assoc, step_get. change (e_key x) with key. cbn [i_expunged set_himodseq_dn]. rewrite Ex. unfold put_expunge, ins_mod. apply step_mod, step_mod. change (e_key x) with key.
  match goal with |- keeps _ _ (mkBox ?M0 _ _) _ => set (m1 := M0) end. set (M := set_msgs (<[key := msg']> (i_msgs m1)) m1).
  assert (grown m M) as Hg by (apply grown_next; cbn; lia).
  assert (exp_ok M key x) as Hx.
  { constructor; cbn; try done; try lia; [apply Hmsg|]. pose proof (mo_uid _ _ _ Hmsg). lia. }
  assert (msg_ok M key msg') as Hmsg'.
  { apply (msg_ok_grown m); [exact Hg|]. destruct Hmsg. constructor; try done. cbn. split; [done|]. intros _. by right. }
  apply (step_write es (EExpunge x)); [eapply (ready_rest es m); [by constructor|by apply running_mem_ready]|pose proof (local_bound _ _ _ _ Hm Em); eapply (exp_entry_new m); [exact Hc|lia|exact Hx|cbn; lia..]|apply (exp_fits es m key msg); try done; [cbn; lia|by right]|].
  intros w' [Hd' _] Hb. unfold put_msg. apply step_mod. change (m_key msg') with (m_key msg). rewrite Hkey. fold M.
  apply distribute_ok; [done|done|]. intros w2 Hd2 Hb2.
  destruct (distributed_fields x msg' M) as (F1 & F2 & F3 & F4 & F5 & F6 & F7); [done|change (m_key msg') with (m_key msg); rewrite Hkey; cbn; by rewrite lookup_insert_eq|].
  change (m_key msg') with (m_key msg) in F1, F2. rewrite Hkey in F1, F2.
  eapply running_write; [exact Hd2| |eapply (counted_next m); [exact Hc|lia|rewrite ?F4, ?F5, ?F6; cbn; lia..]].
  apply (expunge_mem es m _ key msg); try done.
  - destruct Hx. constructor; rewrite ?F4, ?F6; done.
  - apply grown_next; rewrite ?F4, ?F5, ?F6; cbn; lia.
  - intros k' Hn. rewrite F1 by done. cbn. by rewrite lookup_insert_ne.
  - intros y ->%F2. split_and!; try done. destruct Hmsg'. constructor; rewrite ?F4, ?F6; done.
  - rewrite decide_False by done. by rewrite F6.
  - apply F7. cbn [i_msgs i_mods M m1 set_msgs set_mods set_expunged set_himodseq_dn]. rewrite (msum_put _ key msg) by done. change (msg_modseq msg') with (msg_modseq msg).
    rewrite <- (msum_delete _ key msg _ Em). pose proof (me_mods _ _ Hm). multiset_solver.
  - by apply (told_distributed es m M key).
Qed.
Lemma keeps_ext {A} es (m1 m2 : stm box A) b Q : (forall b, m1 b = m2 b) -> keeps es m1 b Q -> keeps es m2 b Q.
Proof. intros E. unfold keeps, outcome. by rewrite E. Qed.
Lemma state_expunged es m k msg : mem es m -> i_msgs m !! k = Some msg -> m_state msg = MSG_EXPUNGED -> is_Some (i_expunged m !! k).
Proof.
  intros Hm Em Hst. pose proof (me_keys _ _ Hm k) as Hk. unfold key_agrees in Hk. destruct (last_for (LOG_KEY_MSG k) es) as [x|] eqn:El; [|destruct Hk; congruence].
  pose proof (proj1 (mo_state _ _ _ (me_msgs _ _ Hm _ _ Em)) (or_intror Hst)) as Hu. destruct x as [| | |p|x]; try done.
  - destruct Hk as (_ & msg' & Hmsg' & _ & Hne). congruence.
  - case_decide as Ez; destruct Hk as [Hk _]; [by apply Hk in Em as [? _]|by eexists].
Qed.
Lemma delete_msg_ok es key m w : running es (mkBox m w false) -> (uid_local key = 0 \/ given_key es key) -> keeps es (delete_msg key) (mkBox m w false) (fun _ => good es).
Proof.
  intros Hr Hkey. pose proof Hr as [Hd Hm Hc _]. cbn [b_m b_w] in *. pose proof (bounds _ _ _ _ Hr) as (B1 & B2 & B3). pose proof Hd as [_ _ _ _ Hlo _].
  unfold delete_msg. apply step_get. destruct (i_expunged m !! key) as [x|] eqn:Ex.
  - assert (keeps es (do! expunge := (if decide (e_state x = MSG_EXPUNGE_PUSHED) then st_ret x else
        let expunge := mkExpunge (e_key x) (e_uid_dn x) MSG_EXPUNGE_PUSHED (e_mod x) in do! _ := put_expunge expunge in do! _ := on_log (update_expunge expunge) in st_ret expunge)
      in st_ret tt) (mkBox m w false) (fun _ => good es)) as Hk.
    { case_decide as Est; [apply step_ret, out_ret; by exists es|]. assert (e_uid_dn x <> 0) as Hu by (intros E; by apply Est, (xo_pushed _ _ _ (me_exps _ _ Hm _ _ Ex))).
      destruct (repush_mem es m key x Hm Hlo Ex Hu) as (Hfits & Hx & Hmem). cbn zeta. set (x' := mkExpunge _ _ _ _) in *. unfold put_expunge. apply step_assoc, step_mod. change (e_key x') with (e_key x).
      rewrite (xo_key _ _ _ (me_exps _ _ Hm _ _ Ex)). apply step_assoc, (step_write es (EExpunge x')); [eapply (ready_rest es m); [by constructor|by apply running_mem_ready]| |done|].
      { pose proof (exp_local _ _ _ _ Hm Ex). eapply (exp_entry_new m); [exact Hc|lia|exact Hx|lia..]. }
      intros w' [Hd' _] Hb. apply step_ret, out_ret. eapply running_write; [exact Hd'|exact Hmem|]. eapply (counted_next m); [exact Hc|lia|cbn; lia..]. }
    destruct (i_msgs m !! key) as [msg|] eqn:Em; [|exact Hk].
    destruct (decide (m_state msg = MSG_EXPUNGED)) as [Est|Est]; [rewrite Est; exact Hk|]. pose proof (not_expunged _ _ _ _ Hm Em Est). congruence.
  - destruct (i_msgs m !! key) as [msg|] eqn:Em; [|apply out_ret; by exists es]. pose proof (me_msgs _ _ Hm _ _ Em) as Hmsg.
    destruct (Z.eqb_spec (m_uid_dn msg) 0) as [Hu|Hu].
    + apply step_assoc, step_ret. rewrite Hu. apply step_assoc.
      assert (m_state msg <> MSG_FILLED /\ m_state msg <> MSG_EXPUNGED) as [Hnf Hne] by (by eapply unfilled_state).
      assert (uid_local key = 0) as Hl by (destruct Hkey as [?|Hkey]; [done|by destruct (given_uid es m key msg Hm Hlo Hkey Em)]).
      eapply keeps_ext; [|exact (delete_unfilled_ok es key msg m w Hr Em Hu Hl)]. intros b. cbn [Z.eqb]. unfold st_bind, st_ret.
      destruct (ins_expunge _ b) as [[[]|?|?] b1]; [|done..]. destruct (on_log _ b1) as [[[]|?|?] b2]; [|done..]. by destruct (m_state msg).
    + assert (m_state msg = MSG_FILLED) as Est by (apply (mo_state _ _ _ Hmsg) in Hu as [?|Est]; [done|destruct (state_expunged es m key msg Hm Em Est); congruence]).
      apply step_assoc, step_himodseq; [lia|]. eapply keeps_ext; [|exact (delete_filled_ok es key msg m w Hr Em Est)]. intros b. rewrite Est.
      rewrite (proj2 (Z.eqb_neq _ _)) by lia. unfold st_bind, st_ret. destruct (ins_expunge _ b) as [[[]|?|?] b1]; [|done..]. destruct (ins_mod _ b1) as [[[]|?|?] b2]; [|done..].
      by destruct (on_log _ b2) as [[[]|?|?] b3].
Qed.

(** *** What is not in the log *)

(** The same trees. *)
Lemma mem_rest es m M : mem es m -> i_msgs M = i_msgs m -> i_expunged M = i_expunged m -> i_mods M = i_mods m -> i_hi_uid_dn M = i_hi_uid_dn m ->
  i_hi_uid_local M = i_hi_uid_local m -> i_himodseq_dn M = i_himodseq_dn m -> told es M -> mem es M.
Proof.
  intros Hm Et Ee Eo Eu El Es Ht. assert (grown m M) as Hg by (apply grown_next; lia). apply (mem_quiet es (mkKey 0 0) m); try done.
  - intros k' _. by rewrite Et, Ee.
  - constructor; [|intros msg; rewrite Et; intros ?; apply (msg_ok_grown m); [done|by apply Hm]|intros x; rewrite Ee; intros ?; apply (exp_ok_grown m); [done|by apply Hm]].
    pose proof (me_keys _ _ Hm (mkKey 0 0)) as Hk. unfold key_agrees in *. by rewrite Et, Ee.
  - rewrite Et, Eo. apply Hm.
Qed.
Lemma running_quiet es m M w : running es (mkBox m w false) -> i_hi_uid_dn M = i_hi_uid_dn m -> i_hi_uid_local M = i_hi_uid_local m -> i_himodseq_dn M = i_himodseq_dn m ->
  mem es M -> forall w', disk es w' -> budget w <= budget w' -> good es (mkBox M w' false).
Proof.
  intros [Hd Hm Hc _] Eu El Es HM w' Hd' Hb. exists es. split; [done|]. constructor; try done. cbn [b_m b_w] in *. eapply (counted_le m); [exact Hc|done|lia..].
Qed.
Lemma running_quiet' es m M w : running es (mkBox m w false) -> i_hi_uid_dn M = i_hi_uid_dn m -> i_hi_uid_local M = i_hi_uid_local m -> i_himodseq_dn M = i_himodseq_dn m ->
  mem es M -> good es (mkBox M w false).
Proof. intros Hr Eu El Es HM. apply (running_quiet es m M w); try done. apply Hr. Qed.
(** The trees and the sessions are the same. *)
Lemma mem_same es m M : mem es m -> i_msgs M = i_msgs m -> i_expunged M = i_expunged m -> i_mods M = i_mods m -> i_hi_uid_dn M = i_hi_uid_dn m ->
  i_hi_uid_local M = i_hi_uid_local m -> i_himodseq_dn M = i_himodseq_dn m -> same_rest m M -> mem es M.
Proof.
  intros Hm Et Ee Eo Eu El Es Hr. apply (mem_rest es m); try done. apply (told_same es es m); [done|done|lia| | |done].
  - intros uid v. unfold filled_at. by rewrite Et.
  - intros k msg Hk Hst. exists msg. by rewrite Et.
Qed.

Lemma step_log {B} es (k : log_t -> stm box B) m w v Q : keeps es (k (w_log w)) (mkBox m w v) Q -> keeps es (st_bind get_log k) (mkBox m w v) Q.
Proof. done. Qed.

(** A session with a new update that changes nothing, or without some updates. *)
Lemma sync_mem es m id st : mem es m -> let send dn := if dl_id dn =? id then mkLink (dl_id dn) (dl_views dn) (dl_max_uid_dn dn) (dl_updates dn ++ [mkUpdate None (UPDATE_SYNC st)]) else dn in
  mem es (set_dns (map send (i_dns m)) m).
Proof.
  intros Hm send. apply (mem_rest es m); try done. constructor.
  - cbn. apply Forall_map. eapply Forall_impl; [apply (me_dns _ _ Hm)|]. intros dn (l & mb & Hl & Hu & Hs). unfold send. exists l, mb.
    assert (shows (set_dns (map send (i_dns m)) m) mb) as Hs' by (eapply (shows_same m); [| |exact Hs]; done).
    destruct (_ =? _); [|done]. cbn [dl_views dl_updates dl_max_uid_dn]. split; [done|]. split; [|done]. by rewrite update_all_app, Hu.
  - pose proof (me_given _ _ Hm) as Hg. rewrite Forall_forall in *. unfold views_of. cbn. intros v (dn & Hin & (dn0 & -> & Hdn)%list_elem_of_fmap)%list_elem_of_bind.
    apply Hg, list_elem_of_bind. exists dn0. split; [|done]. unfold send in Hin. destruct (_ =? _); [|done]. cbn [dl_views dl_updates] in Hin.
    rewrite omap_app in Hin. cbn in Hin. by rewrite app_nil_r in Hin.
  - eapply (olds_same m); [done|done| |apply Hm]. intros k msg ? ?. by exists msg.
Qed.
Lemma eject_ok es id m w : running es (mkBox m w false) -> keeps es (eject_dn_link id) (mkBox m w false) (fun _ => good es).
Proof.
  intros Hr. apply (running_quiet' es m); try done. pose proof Hr as [_ Hm _ _]. cbn [b_m] in Hm. apply (mem_rest es m); try done. constructor.
  - cbn. pose proof (me_dns _ _ Hm) as Hd. rewrite Forall_forall in *. intros dn [_ (l & mb & Hl & Hu & Hs)%Hd]%list_elem_of_filter. exists l, mb. split; [done|]. split; [done|].
    eapply (shows_same m); [| |exact Hs]; done.
  - pose proof (me_given _ _ Hm) as Hg. rewrite Forall_forall in *. unfold views_of. cbn. intros v (dn & Hin & [_ Hdn]%list_elem_of_filter)%list_elem_of_bind.
    apply Hg, list_elem_of_bind. by exists dn.
  - eapply (olds_same m); [done|done| |apply Hm]. intros k msg ? ?. by exists msg.
Qed.

(** The views of a new session. *)
Lemma sort_keys {V} (l : list (Z * V)) : NoDup (keys l) -> exists l', l' ≡ₚ l /\ lsorted l'.
Proof.
  induction l as [|[k v] l IH]; [exists []; by split; [|apply lsorted_nil]|]. cbn. intros [Hn Hd]%NoDup_cons. destruct (IH Hd) as (l' & Hp & Hs).
  exists (linsert k v l'). split; [by rewrite linsert_perm, Hp|]. apply lsorted_linsert; [done|]. unfold keys in *. by rewrite Hp.
Qed.
Definition filled_list (m : imaildir_t) : list msg_t := filter (fun msg => m_state msg = MSG_FILLED) (map_to_list (i_msgs m)).*2.
Lemma filled_in m msg : (exists k, i_msgs m !! k = Some msg) /\ m_state msg = MSG_FILLED <-> msg ∈ filled_list m.
Proof.
  unfold filled_list. rewrite list_elem_of_filter, list_elem_of_fmap. split.
  - intros [[k Hk] Hst]. split; [done|]. exists (k, msg). split; [done|]. by apply elem_of_map_to_list.
  - intros [Hst ([k msg'] & -> & Hk%elem_of_map_to_list)]. split; [by exists k|done].
Qed.
Lemma filled_uids es m : mem es m -> log_ok es -> NoDup (map m_uid_dn (filled_list m)).
Proof.
  intros Hm Hlo. apply NoDup_fmap_2_strong.
  - intros a b [[ka Ha] Sa]%filled_in [[kb Hb] Sb]%filled_in E. assert (m_uid_dn a <> 0) as Hu by (apply (mo_state _ _ _ (me_msgs _ _ Hm _ _ Ha)); tauto).
    pose proof (uid_unique es m ka kb a b Hm Hlo Ha Hb Hu E). congruence.
  - apply NoDup_filter, NoDup_fmap_2_strong; [|apply NoDup_map_to_list].
    intros [ka a] [kb b] Ha%elem_of_map_to_list Hb%elem_of_map_to_list E. cbn in E. subst b.
    pose proof (mo_key _ _ _ (me_msgs _ _ Hm _ _ Ha)). pose proof (mo_key _ _ _ (me_msgs _ _ Hm _ _ Hb)). congruence.
Qed.
Lemma new_views_ok es id m w : running es (mkBox m w false) -> keeps es (imaildir_dn_build_views id) (mkBox m w false) (fun _ => good es).
Proof.
  intros Hr. pose proof Hr as [Hd Hm Hc _]. cbn [b_m b_w] in *. pose proof (bounds _ _ _ _ Hr) as (B1 & B2 & B3). pose proof Hd as [_ _ _ _ Hlo _].
  unfold imaildir_dn_build_views. apply step_get. apply (step_log es). fold (filled_list m). set (views := map msg_view_new (filled_list m)).
  apply step_mod, out_ret. apply (running_quiet' es m); try done. set (dn := mkLink id views (i_hi_uid_dn m) []).
  assert (in_step m dn) as Hdn.
  { destruct (sort_keys (map (fun v => (v_uid_dn v, v)) views)) as (l & Hp & Hs).
    { unfold keys, views. rewrite !map_map. cbn. by eapply filled_uids. }
    assert (forall uid v, (uid, v) ∈ l <-> filled_at m uid v) as Hin.
    { intros uid v. rewrite Hp. unfold views, filled_at. rewrite map_map, list_elem_of_fmap. cbn [msg_view_new v_uid_dn]. split.
      - intros (msg & [= -> ->] & [[k Hk] Hst]%filled_in). by exists k, msg.
      - intros (k & msg & Hk & Hst & -> & ->). exists msg. split; [done|]. apply filled_in. split; [by exists k|done]. }
    exists l, (l, i_hi_uid_dn m). split; [done|]. split; [done|]. constructor; [|cbn; lia|done]. constructor; cbn [fst snd]; [done|unfold UINT32_MAX; lia|].
    intros k v (k' & msg & Hk & Hst & -> & ->)%Hin. split; [done|]. pose proof (me_msgs _ _ Hm _ _ Hk) as Hmsg. pose proof (mo_uid _ _ _ Hmsg).
    assert (m_uid_dn msg <> 0) by (apply (mo_state _ _ _ Hmsg); tauto). lia. }
  apply (mem_rest es m); try done. constructor.
  - assert (forall dn', in_step m dn' -> in_step (set_dns (i_dns m ++ [dn]) m) dn') as Hsame by (intros dn'; by apply in_step_same).
    cbn. apply Forall_app. split; [eapply Forall_impl; [apply (me_dns _ _ Hm)|done]|apply Forall_singleton; auto].
  - unfold views_of. cbn. rewrite bind_app. apply Forall_app. split; [apply (me_given _ _ Hm)|]. cbn. rewrite !app_nil_r. apply Forall_forall.
    intros v (msg & -> & [[k Hk] Hst]%filled_in)%list_elem_of_fmap. pose proof (me_msgs _ _ Hm _ _ Hk) as Hmsg. eapply given_msg; [done|exact Hk| |by apply Hmsg|done].
    apply (mo_state _ _ _ Hmsg). tauto.
  - eapply (olds_same m); [done|done| |apply Hm]. intros k msg ? ?. by exists msg.
Qed.

(** An update that the last session has handled. *)
Lemma ref_dn_ok es id m w : running es (mkBox m w false) -> is_Some (i_olds m !! id) -> keeps es (ref_dn id) (mkBox m w false) (fun _ => good es).
Proof.
  intros Hr [[k n] Eid]. pose proof Hr as [Hd Hm Hc _]. cbn [b_m b_w] in *. pose proof (me_olds _ _ Hm) as [Ho Hi]. destruct (Ho _ _ _ Eid) as (Hid & Hn & msg & Em & Est).
  unfold ref_dn. apply step_get. rewrite Eid. pose proof (me_msgs _ _ Hm _ _ Em) as Hmsg. destruct (Z.eqb_spec n 1) as [->|Hn1].
  - apply step_mod. eapply step_the_msg; [exact Em|]. apply remove_msg_ok; [done|]. intros w' Hd' Hb. set (M := removed msg _).
    destruct (removed_fields msg (set_olds (delete id (i_olds m)) (i_next_old m) m)) as (F1 & F2 & F3 & F4 & F5 & F6 & [F7 F8 F9]). fold M in F1, F2, F3, F4, F5, F6, F7, F8, F9.
    rewrite (mo_key _ _ _ Hmsg) in F1. cbn [i_msgs i_expunged i_mods i_hi_uid_dn i_hi_uid_local i_himodseq_dn i_dns i_olds i_next_old set_olds] in *.
    assert (m_uid_dn msg <> 0) as Hu by (apply (mo_state _ _ _ Hmsg); tauto). assert (msg_modseq msg <> 0) as Hms by (by rewrite <- (mo_zero _ _ _ Hmsg)).
    rewrite (proj2 (Z.eqb_neq _ _) Hms) in F3.
    assert (grown m M) as Hg by (apply grown_next; lia).
    eapply (running_quiet es m); try done. apply (mem_quiet es k m); try done.
    + intros k' Hk'. rewrite F1, F2. by rewrite lookup_delete_ne.
    + constructor; rewrite ?F1, ?F2.
      * pose proof (me_keys _ _ Hm k) as Hk. unfold key_agrees in *. rewrite F1, F2, lookup_delete_eq. destruct (last_for _ es) as [[| | |p|x]|]; try done.
        -- destruct Hk as (_ & msg' & E' & _ & Hne). rewrite Em in E'. injection E' as <-. done.
        -- case_decide; destruct Hk; split; try done.
        -- destruct Hk. congruence.
      * intros msg'. by rewrite lookup_delete_eq.
      * intros x Hx. apply (exp_ok_grown m); [done|by apply Hm].
    + rewrite F1, F3. pose proof (me_mods _ _ Hm) as Hmods. rewrite (msum_delete _ k msg _ Em), nz_some in Hmods by done. multiset_solver.
    + constructor.
      * rewrite F7. eapply Forall_impl; [apply (me_dns _ _ Hm)|]. intros dn. apply in_step_same; [lia|]. intros uid v. unfold filled_at. rewrite F1. split; intros (k' & msg' & Hk' & Hst & Hrest); exists k', msg'.
        -- by apply lookup_delete_Some in Hk' as [_ Hk'].
        -- rewrite lookup_delete_ne; [done|]. intros <-. congruence.
      * eapply (views_rest _ (set_olds (delete id (i_olds m)) (i_next_old m) m)); [constructor; done|apply Hm].
      * constructor; rewrite F8, ?F9; [|intros id1 id2 k' n1 n2 [_ E1]%lookup_delete_Some [_ E2]%lookup_delete_Some; by eapply Hi].
        intros id' k' n' [Hne Hid']%lookup_delete_Some. destruct (Ho _ _ _ Hid') as (? & ? & msg' & E' & S'). split; [done|]. split; [done|]. exists msg'. rewrite F1, lookup_delete_ne; [done|].
        intros <-. apply Hne. by eapply Hi.
  - apply step_end, step_mod, out_ret. apply (running_quiet' es m); try done. apply (mem_rest es m); try done. constructor.
    + eapply Forall_impl; [apply (me_dns _ _ Hm)|]. intros dn. by apply in_step_same.
    + apply Hm.
    + constructor; cbn.
      * intros id' k' n' [[<- [= <- <-]]|[_ Hid']]%lookup_insert_Some; [split; [done|]; split; [lia|]; by exists msg|by eapply Ho].
      * intros id1 id2 k' n1 n2. rewrite !lookup_insert_Some. intros [[<- [= <- <-]]|[_ E1]] [[<- E2]|[_ E2]]; try done; try (by eapply Hi).
        injection E2 as <- <-. by eapply Hi.
Qed.

(** What is not in the log of a message changes. *)
Lemma mem_persisted es m k msg msg' : mem es m -> i_msgs m !! k = Some msg -> persisted msg' = persisted msg ->
  let M := set_msgs (<[k := msg']> (i_msgs m)) m in told es M -> mem es M.
Proof.
  intros Hm Em Ep M Htold. assert (grown m M) as Hg by (apply grown_next; cbn; lia). pose proof (me_msgs _ _ Hm _ _ Em) as Hmsg.
  destruct (persisted_key _ _ Ep) as (E1 & E2 & E3 & E4). assert (msg_modseq msg' = msg_modseq msg) as E5 by (unfold persisted, msg_new in Ep; by injection Ep).
  assert (i_msgs M = <[k := msg']> (i_msgs m)) as EM by done. apply (mem_quiet es k m); try done.
  - intros k' Hk'. cbn. by rewrite lookup_insert_ne.
  - constructor; rewrite ?EM.
    + pose proof (me_keys _ _ Hm k) as Hk. unfold key_agrees in *. rewrite EM, lookup_insert_eq. destruct (last_for _ es) as [[| | |p|x]|]; try done.
      * destruct Hk as (Hx & msg2 & F2 & Hp & Hne). rewrite Em in F2. injection F2 as <-. split; [done|]. exists msg'. split; [done|]. by rewrite Ep, E4.
      * case_decide; destruct Hk as [Hk Hk2].
        -- split; [|done]. intros msg2 [= <-]. rewrite E2. exact (Hk _ Em).
        -- split; [done|]. intros msg2 [= <-]. rewrite E2, E4. exact (Hk2 _ Em).
      * destruct Hk. congruence.
    + intros msg2. rewrite lookup_insert_eq. intros [= <-]. apply (msg_ok_grown m); [done|]. destruct Hmsg. constructor; rewrite ?E1, ?E2, ?E3, ?E4, ?E5; done.
    + intros x Hx. apply (exp_ok_grown m); [done|by apply Hm].
  - rewrite EM, (msum_put _ k msg) by done. rewrite E5, <- (msum_delete _ k msg _ Em). apply Hm.
Qed.

(** The open files of a message are not in the log. *)
Lemma fds_ok es k n msg m w : running es (mkBox m w false) -> i_msgs m !! k = Some msg -> forall w', disk es w' -> budget w <= budget w' ->
  good es (mkBox (set_msgs (<[m_key msg := msg_set_open_fds n msg]> (i_msgs m)) m) w' false).
Proof.
  intros Hr Em w' Hd' Hb. pose proof (ru_mem _ _ Hr) as Hm. cbn [b_m] in Hm. rewrite (mo_key _ _ _ (me_msgs _ _ Hm _ _ Em)).
  set (msg' := msg_set_open_fds n msg). set (M := set_msgs _ m).
  eapply (running_quiet es m); try done. apply (mem_persisted es m k msg); try done. apply (told_same es es m); try done.
  - intros uid v. unfold filled_at. cbn [i_msgs set_msgs]. split; intros (k' & msg2 & Hk' & Hst & -> & ->).
    + apply lookup_insert_Some in Hk' as [[<- <-]|[_ Hk']]; [by exists k, msg|by exists k', msg2].
    + destruct (decide (k' = k)) as [->|Hn]; [|exists k', msg2; by rewrite lookup_insert_ne]. rewrite Em in Hk'. injection Hk' as <-. exists k, msg'. by rewrite lookup_insert_eq.
  - intros k' msg2 Hk' Hst. cbn [i_msgs set_msgs]. destruct (decide (k' = k)) as [->|Hn]; [|exists msg2; by rewrite lookup_insert_ne].
    rewrite Em in Hk'. injection Hk' as <-. exists msg'. by rewrite lookup_insert_eq.
Qed.
Lemma open_msg_ok es k m w : running es (mkBox m w false) -> keeps es (imaildir_dn_open_msg k) (mkBox m w false) (fun _ => good es).
Proof.
  intros Hr. pose proof Hr as [Hd Hm Hc _]. cbn [b_m b_w] in *. unfold imaildir_dn_open_msg. apply step_get. pose proof (running_ready _ _ _ _ Hr) as Hready.
  destruct (i_msgs m !! k) as [msg|] eqn:Em; [|by apply keeps_fail]. apply step_io; [done|]. intros w' Hd' Hb. unfold put_msg. apply step_end, step_mod, out_ret. by apply (fds_ok es k _ msg m w).
Qed.
Lemma close_msg_ok es k m w : running es (mkBox m w false) -> is_Some (i_msgs m !! k) -> keeps es (imaildir_dn_close_msg k) (mkBox m w false) (fun _ => good es).
Proof.
  intros Hr [msg Em]. pose proof Hr as [Hd Hm Hc _]. cbn [b_m b_w] in *. unfold imaildir_dn_close_msg. apply step_get. rewrite Em.
  unfold put_msg. apply step_end, step_mod, out_ret. apply (fds_ok es k _ msg m w); [done|done|done|lia].
Qed.

(** *** Files of the sessions *)

Lemma shut_io es w : shut es w -> shut es (io w).2.
Proof.
  intros [[fs [(tail & ? & ? & ? & ?) ? ? ? ?]] Hl Hlo Hw]. constructor; [|cbn; lia|done|eapply within_le; [|exact Hw]; cbn; lia]. exists fs. constructor; try done. by exists tail.
Qed.
Lemma failed_cleanup es m w e : shut es w -> Forall (given_in es) (views_of m) ->
  keeps es (st_bind (drop_cmd file_io) (fun _ => st_fail e : stm box unit)) (mkBox m w false) (fun _ _ => False).
Proof.
  intros Hs Hg. pose proof (shut_io es w Hs) as Hs'. unfold keeps, outcome, st_bind, drop_cmd, file_io, on_log. cbn [b_w b_m b_invalid].
  destruct (io w) as [[[]|x|x] w'] eqn:E; cbn [snd] in Hs'; [exists es; by split..|]. unfold io in E. by destruct (io_ok _).
Qed.
Lemma step_write_clean {B} es e (k : unit -> stm box B) m w Q : ready es m w -> entry_ok e /\ within (budget w + 1) e -> fits es e ->
  (forall w', ready (es ++ [e]) m w' -> budget w + 1 <= budget w' -> keeps (es ++ [e]) (k tt) (mkBox m w' false) Q) ->
  keeps es (st_bind (or_fail (on_log (write e)) (drop_cmd file_io)) k) (mkBox m w false) Q.
Proof.
  intros [Hd Hg] He Hf Hk. pose proof (write_disk es e w Hd He Hf) as Hw.
  assert (Forall (given_in (es ++ [e])) (views_of m)) as Hg' by (eapply Forall_impl; [exact Hg|]; intros v; apply given_snoc).
  apply (keeps_or_fail es _ _ _ _ (fun _ b' => exists w', b' = mkBox m w' false /\ disk (es ++ [e]) w' /\ budget w + 1 <= budget w')).
  - unfold outcome in *. unfold on_log. cbn [b_w b_m b_invalid]. destruct (write e w) as [[[]|x|x] w']; [by exists w'| |done].
    destruct Hw as [Hs|Hs]; [by apply failed_cleanup|]. eapply keeps_sub; [apply sub_snoc|by apply failed_cleanup].
  - intros [] b' (w' & -> & Hd' & Hb). eapply keeps_sub; [apply sub_snoc|]. apply Hk; [by constructor|done].
Qed.

Lemma file_in_place_ok es epoch len key msg m w : running es (mkBox m w false) -> i_msgs m !! key = Some msg -> m_uid_dn msg = 0 ->
  keeps es (do! msg := handle_new_msg_file epoch msg len in do! msg := finalize_msg msg in do! _ := on_log (update_msg msg) in do! _ := distribute_update_new msg in st_ret (m_uid_dn msg))
    (mkBox m w false) (fun _ => good es).
Proof.
  intros Hr Em Hu. pose proof Hr as [Hd Hm Hc _]. cbn [b_m b_w] in *. pose proof (me_msgs _ _ Hm _ _ Em) as Hold. pose proof (running_ready _ _ _ _ Hr) as Hready.
  apply (new_file_ok es epoch msg len m m key); [done| |by apply Hold|].
  { constructor; try done. by rewrite insert_id. }
  intros msg' m3 w3 Hd3 Hb3 Hal3 _ Hk3 Hp3. apply persisted_key in Hp3 as (_ & _ & Ht3 & _).
  apply (finalize_write es m m3 w key msg msg' _ _ Hr w3 Hd3); [lia|done|done|done|done|rewrite Ht3; apply Hold|].
  intros M w' msg2 _ _ _ _ Hd' Hc' Hmem. unfold distribute_update_new, send_updates. apply step_mod, out_ret.
  eapply running_write; [exact Hd'|exact Hmem|]. destruct Hc'. by constructor.
Qed.
Lemma good_keeps {A} es es' (m : stm box A) b : es ⊆ es' -> keeps es' m b (fun _ => good es') -> keeps es m b (fun _ => good es).
Proof. intros Hs Hk. apply (keeps_sub es es' _ _ _ Hs). eapply keeps_mono; [exact Hk|]. intros a b'. by apply good_sub. Qed.
(** A message without uid is put into the tree and written, then its file is put in place. *)
Lemma local_file_ok es epoch len key msg m M w : running es (mkBox m w false) -> msg_ok M key msg -> m_uid_dn msg = 0 -> i_expunged m !! key = None ->
  (forall old, i_msgs m !! key = Some old -> m_uid_dn old = 0) -> i_msgs M = <[key := msg]> (i_msgs m) -> i_expunged M = i_expunged m -> i_mods M = i_mods m ->
  i_hi_uid_dn M = i_hi_uid_dn m -> i_himodseq_dn M = i_himodseq_dn m -> i_hi_uid_local m <= i_hi_uid_local M <= i_hi_uid_local m + 1 -> uid_local key <= i_hi_uid_local M -> same_rest m M ->
  keeps es (do! _ := or_fail (on_log (update_msg msg)) (drop_cmd file_io) in do! msg := handle_new_msg_file epoch msg len in
    do! msg := finalize_msg msg in do! _ := on_log (update_msg msg) in do! _ := distribute_update_new msg in st_ret (m_uid_dn msg)) (mkBox M w false) (fun _ => good es).
Proof.
  intros Hr Hmsg Hu Ex Eold Et Ee Eo Eu Es El Hl Hrest. pose proof Hr as [Hd Hm Hc _]. cbn [b_m b_w] in *. pose proof (bounds _ _ _ _ Hr) as (B1 & B2 & B3).
  destruct (put_unfilled es m M key msg) as [Hfits Hmem]; try done; [apply Hd|lia|].
  apply (step_write_clean es (EMsg msg)); [eapply (ready_rest es m); [done|by eapply running_ready]| |done|].
  { eapply (msg_entry_new m); [exact Hc|lia|exact Hmsg|by destruct (unfilled_state _ _ _ Hmsg Hu)|lia..]. }
  intros w' [Hd' _] Hb. assert (running (es ++ [EMsg msg]) (mkBox M w' false)) as Hr'.
  { constructor; try done. eapply (counted_next m); [exact Hc|done|cbn; lia..]. }
  eapply keeps_mono; [eapply file_in_place_ok; [exact Hr'|by rewrite Et, lookup_insert_eq|done]|]. intros a b'. apply good_sub, sub_snoc.
Qed.
Lemma no_local es m k : mem es m -> i_hi_uid_local m < uid_local k -> i_msgs m !! k = None /\ i_expunged m !! k = None.
Proof.
  intros Hm Hl. pose proof (me_keys _ _ Hm k) as Hk. unfold key_agrees in Hk. destruct (last_for (LOG_KEY_MSG k) es) as [x|] eqn:El; [|done].
  destruct (last_in _ _ _ El) as (e & He & Hek & _). pose proof (me_locals _ _ Hm e k He Hek). lia.
Qed.
Lemma add_local_ok es epoch uid len t flags m w : running es (mkBox m w false) -> 0 <= uid < 2 ^ 32 -> time_wf t ->
  (uid <> 0 -> i_expunged m !! KEY_UP uid = None /\ forall msg, i_msgs m !! KEY_UP uid = Some msg -> m_uid_dn msg = 0) ->
  keeps es (imaildir_add_local_file epoch uid len t flags) (mkBox m w false) (fun _ => good es).
Proof.
  intros Hr Hu Ht Hkey. pose proof Hr as [Hd Hm Hc _]. cbn [b_m b_w] in *. pose proof (bounds _ _ _ _ Hr) as (B1 & B2 & B3). unfold imaildir_add_local_file.
  assert (forall key M, key_wf key -> uid_local key <= i_hi_uid_local M -> i_hi_uid_dn M = i_hi_uid_dn m -> i_himodseq_dn M = i_himodseq_dn m -> i_msgs M = i_msgs m -> i_expunged M = i_expunged m ->
    i_mods M = i_mods m -> same_rest m M -> i_hi_uid_local m <= i_hi_uid_local M <= i_hi_uid_local m + 1 ->
    i_expunged m !! key = None -> (forall msg, i_msgs m !! key = Some msg -> m_uid_dn msg = 0) ->
    keeps es (do! m := get_m in
      do! msg := (match i_msgs m !! key with
                  | Some msg => let msg := msg_set_internaldate t msg in do! _ := put_msg msg in st_ret msg
                  | None => let msg := msg_new key 0 MSG_UNFILLED t flags 0 in do! _ := ins_msg msg in st_ret msg
                  end) in
      do! _ := or_fail (on_log (update_msg msg)) (drop_cmd file_io) in do! msg := handle_new_msg_file epoch msg len in
      do! msg := finalize_msg msg in do! _ := on_log (update_msg msg) in do! _ := distribute_update_new msg in st_ret (m_uid_dn msg)) (mkBox M w false) (fun _ => good es)) as Hrest.
  { intros key M Hwf Hl Eu Es Et Ee Eo Hsr El Ex Hold. apply step_get. destruct (i_msgs M !! key) as [msg|] eqn:Em; rewrite Et in Em.
    - pose proof (me_msgs _ _ Hm _ _ Em) as Hmsg. unfold put_msg. cbn zeta. apply step_assoc, step_mod, step_ret. set (msg' := msg_set_internaldate t msg). change (m_key msg') with (m_key msg).
      rewrite (mo_key _ _ _ Hmsg). apply (local_file_ok es epoch len key msg' m); try done.
      + destruct Hmsg. constructor; cbn; rewrite ?Eu, ?Es; done.
      + cbn. auto.
      + cbn. by rewrite Et.
      + destruct Hsr; by constructor.
    - cbn zeta. set (msg' := msg_new key 0 MSG_UNFILLED t flags 0). unfold ins_msg. apply step_assoc, step_assoc, step_get. change (m_key msg') with key. rewrite Et, Em.
      unfold put_msg. apply step_mod, step_ret. change (m_key msg') with key. apply (local_file_ok es epoch len key msg' m); try done.
      + pose proof (me_pos _ _ Hm). constructor; cbn; rewrite ?Eu, ?Es; try done; try lia. split; [by intros [?|?]|done].
      + cbn. by rewrite Et.
      + destruct Hsr; by constructor. }
  destruct (Z.gtb_spec uid 0) as [Hpos|Hpos].
  - apply step_ret. destruct Hkey as [Hx Hmsg]; [lia|]. by apply Hrest; try (cbn; lia).
  - unfold next_uid_local. apply step_assoc, step_assoc, step_get. rewrite u32_id by lia. apply step_assoc, step_mod, step_ret.
    destruct (no_local es m (KEY_LOCAL (i_hi_uid_local m + 1)) Hm) as [Em Ex]; [cbn; lia|]. apply Hrest; try done; try (cbn; lia); [|intros msg; by rewrite Em].
    unfold key_wf, is_u32, UINT32_MAX. cbn. lia.
Qed.

Lemma himodseq_ok es n m w : running es (mkBox m w false) -> is_u64 n -> keeps es (imaildir_up_set_himodseq_up n) (mkBox m w false) (fun _ => good es).
Proof.
  intros Hr Hn. pose proof Hr as [Hd Hm Hc _]. cbn [b_m b_w] in *. unfold imaildir_up_set_himodseq_up.
  apply step_end, (step_write es (EHimodseqUp n)); [by eapply running_ready| |by constructor|].
  { split; [done|]. pose proof Hd as [_ _ _ Hlen _ _]. pose proof (zlen_nonneg es). constructor; cbn; try done; lia. }
  intros w' [Hd' _] Hb. apply out_ret.
  eapply running_write; [exact Hd'| |eapply (counted_next m); [exact Hc|done|lia..]].
  apply (mem_other es _ (mkKey 0 0) m); try done.
  - constructor; [apply Hm|apply Hm|apply Hm].
  - apply Hm.
  - apply (told_same es _ m); try done; [apply sub_snoc|]. intros k msg ? ?. by exists msg.
Qed.

(** *** Requests of the sessions *)

(** A key that a session knows. *)
Definition known_key (es : list entry) (k : msg_key_t) : Prop := given_key es k /\ 0 <= uid_up k < UINT32_MAX.
Lemma known_sub es es' k : es ⊆ es' -> known_key es k -> known_key es' k.
Proof. intros Hs [(e & He & Hk) Hu]. split; [|done]. exists e. split; [by apply Hs|done]. Qed.
Definition built (es : list entry) (n : Z) (ssb : T Z) (b : box) : Prop := good es b /\ exists vs, holds ssb vs /\ zlen vs <= n.
Lemma built_sub es es' n ssb b : es ⊆ es' -> built es' n ssb b -> built es n ssb b.
Proof. intros Hs [Hg Hv]. split; [by eapply good_sub|done]. Qed.
Definition one_ok (one : msg_key_t -> T Z -> stm box (T Z)) : Prop := forall es m w key ssb vs, running es (mkBox m w false) -> known_key es key -> holds ssb vs -> zlen vs + 1 < MAX_NODES ->
  keeps es (one key ssb) (mkBox m w false) (built es (zlen vs + 1)).
Lemma add_val_ok es m w v ssb vs : running es (mkBox m w false) -> holds ssb vs -> 1 <= v < UINT32_MAX -> zlen vs + 1 < MAX_NODES ->
  keeps es (st_lift (seq_set_builder_add_val v ssb)) (mkBox m w false) (built es (zlen vs + 1)).
Proof.
  intros Hr Hh Hv Hz. destruct (add_val_holds v ssb vs Hh Hv Hz) as (ssb' & -> & Hh'). apply out_ret. split; [by exists es|]. exists (v :: vs). by rewrite zlen_cons, Z.add_comm.
Qed.
Lemma keeps_fail_bind {A B} es (k : A -> stm box B) m w e Q : ready es m w -> keeps es (st_bind (st_fail e) k) (mkBox m w false) Q.
Proof. intros Hr. exists es. split; [done|by apply ready_failed]. Qed.
Lemma built_id es m w ssb vs : running es (mkBox m w false) -> holds ssb vs -> built es (zlen vs + 1) ssb (mkBox m w false).
Proof. intros Hr Hh. split; [by exists es|]. exists vs. split; [done|lia]. Qed.
Lemma store_one_ok store : one_ok (relay_update_req_store_one store).
Proof.
  intros es m w key ssb vs Hr [Hk Hu] Hh Hz. pose proof Hr as [Hd Hm Hc _]. cbn [b_m b_w] in *. unfold relay_update_req_store_one. apply step_get.
  destruct (i_msgs m !! key) as [msg|] eqn:Em; [|apply out_ret; by apply built_id]. destruct (_ || _) eqn:E.
  - unfold local_store_one. apply step_assoc. rewrite (mo_key _ _ _ (me_msgs _ _ Hm _ _ Em)).
    assert (forall flags, keeps es (do! _ := update_msg_flags key flags in st_ret ssb) (mkBox m w false) (built es (zlen vs + 1))) as Hflags.
    { intros flags. eapply keeps_bind; [by eapply update_msg_flags_ok|]. intros [] b' [Hg _]. apply out_ret. split; [done|]. exists vs. split; [done|lia]. }
    destruct (ms_sign store =? 0); [apply step_ret, Hflags|]. destruct (ms_sign store =? 1); [apply step_ret, Hflags|]. destruct (ms_sign store =? -1); [apply step_ret, Hflags|].
    apply keeps_fail_bind. by eapply running_ready.
  - bool_to_prop. apply add_val_ok; try done. lia.
Qed.
Lemma expunge_one_ok : one_ok relay_update_req_expunge_one.
Proof.
  intros es m w key ssb vs Hr [Hk Hu] Hh Hz. unfold relay_update_req_expunge_one. destruct (Z.eqb_spec (uid_up key) 0) as [E|E].
  - eapply keeps_bind; [apply delete_msg_ok; [done|by right]|]. intros [] b' Hg. apply out_ret. split; [done|]. exists vs. split; [done|lia].
  - apply step_get. destruct (i_msgs m !! key) as [msg|]; [|apply out_ret; by apply built_id]. case_decide; [apply out_ret; by apply built_id|]. apply add_val_ok; try done. lia.
Qed.
Lemma relay_keys_ok one keys : one_ok one -> forall es m w ssb vs, running es (mkBox m w false) -> Forall (known_key es) keys -> holds ssb vs -> zlen vs + zlen keys < MAX_NODES ->
  keeps es (relay_keys one keys ssb) (mkBox m w false) (built es (zlen vs + zlen keys)).
Proof.
  intros Hone. induction keys as [|key keys IH]; intros es m w ssb vs Hr Hk Hh Hz; cbn [relay_keys].
  - apply out_ret. split; [by exists es|]. exists vs. split; [done|]. change (zlen (@nil msg_key_t)) with 0. lia.
  - inversion Hk as [|? ? Hk1 Hk2]; subst. rewrite zlen_cons in *. pose proof (zlen_nonneg keys). eapply keeps_bind; [apply Hone; [done|done|done|lia]|].
    intros ssb' [m' w' v'] ((es' & Hs & Hr') & vs' & Hh' & Hz'). pose proof (ru_valid _ _ Hr') as Hv. cbn in Hv. subst v'.
    apply (keeps_sub es es'); [done|]. eapply keeps_mono; [apply (IH es' m' w' ssb' vs'); [done| |done|lia]|].
    + eapply Forall_impl; [exact Hk2|]. intros k. by apply known_sub.
    + intros ssb2 b2 [Hg2 (vs2 & Hh2 & Hz2)]. split; [by eapply good_sub|]. exists vs2. split; [done|lia].
Qed.
(** What is to be relayed is relayed, or the session is told that there is nothing to wait for. *)
Lemma relay_ok es one keys requester (make : bytes -> ie_seq_set_t -> imap_cmd_t) m w : one_ok one -> running es (mkBox m w false) -> Forall (known_key es) keys -> zlen keys < MAX_NODES ->
  keeps es (do! ssb := relay_keys one keys seq_set_builder_prep in do! uids_up := st_lift (seq_set_builder_extract ssb) in
    match uids_up with
    | [] => do! _ := send_update_to requester (UPDATE_SYNC None) in st_ret None
    | _ => do! tag := next_tag in st_ret (Some (make tag uids_up))
    end) (mkBox m w false) (fun _ => good es).
Proof.
  intros Hone Hr Hk Hz. eapply keeps_bind; [apply (relay_keys_ok one keys Hone es m w _ []); [done|done|apply prep_holds|change (zlen (@nil Z)) with 0; lia]|].
  intros ssb [m' w' v'] ((es' & Hs & Hr') & vs & Hh & _). pose proof (ru_valid _ _ Hr') as Hv. cbn in Hv. subst v'. apply (good_keeps es es'); [done|].
  destruct (extract_holds ssb vs Hh) as (set & E & _). rewrite E. eapply step_lift; [done|]. pose proof Hr' as [_ Hm' _ _]. cbn [b_m] in Hm'. destruct set as [|p set].
  - unfold send_update_to. apply step_mod, out_ret. apply (running_quiet' es' m'); try done. by apply sync_mem.
  - unfold next_tag. apply step_assoc, step_get, step_assoc, step_mod, step_ret, out_ret. apply (running_quiet' es' m'); try done. by apply (mem_same es' m').
Qed.
Lemma req_store_ok es requester store m w : running es (mkBox m w false) -> Forall (known_key es) (ms_keys store) -> zlen (ms_keys store) < MAX_NODES ->
  keeps es (relay_update_req_store requester store) (mkBox m w false) (fun _ => good es).
Proof.
  intros Hr Hk Hz. exact (relay_ok es _ (ms_keys store) requester (fun tag uids => mkCmd tag (IMAP_CMD_STORE (mkStore true uids (ms_mods store) (ms_sign store) false (ms_flags store)))) m w (store_one_ok store) Hr Hk Hz).
Qed.
Lemma req_expunge_ok es requester keys m w : running es (mkBox m w false) -> Forall (known_key es) keys -> zlen keys < MAX_NODES ->
  keeps es (relay_update_req_expunge requester keys) (mkBox m w false) (fun _ => good es).
Proof. intros Hr Hk Hz. exact (relay_ok es _ keys requester (fun tag uids => mkCmd tag (IMAP_CMD_EXPUNGE uids)) m w expunge_one_ok Hr Hk Hz). Qed.
End mailbox.
