(* ===== verification/MailboxRun.v ===== *)
(** * Runs of a mailbox: openings, requests, failures, restarts

    Opening the log and the files makes an invariant mailbox; the states that are reached by
    any sequence of openings, requests, failures and closings; and what follows for them:
    [mailbox_safe], [mailbox_updates], [mailbox_uids] and [mailbox_reopens]. *)

From stdpp Require Import gmultiset sorting.
From Stdlib Require Import Sorted.
From S2P Require Import Prelude Dstr Fmt Cvt Msg MaildirLog MaildirName Hashmap LogFile LogDurable ImapTypes ImapWrite OrdTree SeqSet ImapSearch Dn DnSync Imaildir Mailbox MailboxOps.

Section mailbox.
Context `{Alloc} `{Io} `{Hooks} `{!Environment} `{OrdTreeLaws T}.

(** ** Opening *)

Lemma split_no_stop text pat n soft x : forall fuel start outs, (length outs <= n)%nat -> (n < fuel + length outs)%nat -> split_loop fuel text pat n soft start outs <> Stop x.
Proof.
  induction fuel as [|fuel IH]; intros start outs Hl Hf; [lia|]. cbn [split_loop].
  destruct (match find1 _ _ with Some p => _ | None => _ end) as [e c]. destruct (Nat.eqb_spec (length outs) n); [by destruct soft|].
  destruct c; [|done]. apply IH; rewrite length_app; cbn; lia.
Qed.
Lemma parse_no_stop name key len x : (maildir_name_parse name (mkOuts None key len None None)).1 <> Stop x.
Proof.
  assert (forall text pat n soft x, do_dstr_split text pat n soft <> Stop x) as Hsplit.
  { intros text pat n soft y. unfold do_dstr_split. pose proof (split_no_stop text pat n soft y (S n) 0 [] ltac:(cbn; lia) ltac:(cbn; lia)) as Hs.
    destruct (split_loop _ _ _ _ _ _ _); cbn; congruence. }
  assert (forall text pat n soft x, do_dstr_split2 text pat n soft <> Stop x) as Hsplit2.
  { intros text pat n soft y. unfold do_dstr_split2. destruct (_ <? _)%nat; [done|]. pose proof (split_no_stop text pat n soft y (S n) 0 [] ltac:(cbn; lia) ltac:(cbn; lia)) as Hs.
    destruct (split_loop _ _ _ _ _ _ _); cbn; congruence. }
  assert (forall max b y, to_unsigned max b 10 <> Stop y) as Hnum by (intros max b y; unfold to_unsigned; by destruct (_ || _)).
  unfold maildir_name_parse. destruct (_ <? 16); [done|]. unfold st_bind, st_lift, st_fail.
  pose proof (Hsplit name (lit ":") 2%nat false) as H1'. destruct (do_dstr_split name _ _ _) as [major|[]|y]; cbn; try done; try (by destruct (H1' y)).
  pose proof (Hsplit (out major 0) (lit ".") 3%nat true) as H2'. destruct (do_dstr_split _ _ 3 _) as [minor|?|y]; cbn; try done; try (by destruct (H2' y)).
  destruct (negb _); [done|]. pose proof (Hsplit2 (out minor 1) (lit ",") 5%nat true) as H3'. destruct (do_dstr_split2 _ _ _ _) as [fields|?|y]; cbn; try done; try (by destruct (H3' y)).
  pose proof (Hnum UINT32_MAX (out fields 0)) as H4'. unfold dstr_tou, dstr_tou64, dstr_tosize. destruct (to_unsigned _ (out fields 0) _) as [version|?|y]; cbn; try done; try (by destruct (H4' y)).
  destruct (negb _); [done|]. destruct (negb _); [done|].
  pose proof (Hnum UINT64_MAX (out minor 0)) as H5'. destruct (to_unsigned _ (out minor 0) _) as [epoch|?|y]; cbn; try done; try (by destruct (H5' y)).
  pose proof (Hnum UINT32_MAX (out fields 1)) as H6'. destruct (to_unsigned _ (out fields 1) _) as [up|?|y]; cbn; try done; try (by destruct (H6' y)).
  pose proof (Hnum UINT32_MAX (out fields 2)) as H7'. destruct (to_unsigned _ (out fields 2) _) as [local|?|y]; cbn; try done; try (by destruct (H7' y)).
  destruct (Bool.eqb _ _); [done|]. cbn. pose proof (Hnum SIZE_MAX (out fields 3)) as H8'. destruct (to_unsigned _ (out fields 3) _) as [l|?|y]; cbn; try done; try (by destruct (H8' y)).
Qed.

(** *** Reading the log *)

Lemma ticks_open w : w_tick w <= w_tick (imaildir_log_open w).2.
Proof.
  destruct (imaildir_log_open w) as [r w'] eqn:E. cbn [snd].
  enough (ticks imaildir_log_open) as Ht by (specialize (Ht w); by rewrite E in Ht). clear.
  unfold imaildir_log_open, read_all_keys.
  repeat match goal with
  | |- ticks (st_bind _ _) => apply ticks_bind; [|intros ?]
  | |- ticks (match ?x with _ => _ end) => destruct x
  | |- ticks (mod_log _) => intros w0; cbn; lia
  | |- ticks _ => apply ticks_framed; first [apply framed_io|apply framed_ret|apply framed_lift|apply framed_cache|apply framed_get|apply framed_lines]
  end.
Qed.
Lemma open_disk es w : shut es w ->
  outcome imaildir_log_open w (fun db w' => disk es w' /\ (exists fs, file_says es fs w' /\ opened fs db) /\ w_tick w <= budget w') (fun w' => shut es w').
Proof.
  intros [[fs Hf] Hl Hlo Hw]. pose proof (fl_ok_fs _ _ _ Hf) as Hfs. destruct (fl_file _ _ _ Hf) as (tail & Ec & Hp & Ht & _). change (w_cache (iface_close w).2) with (w_cache w) in Ec.
  pose proof (open_ok fs tail w Ec Hfs Hp Ht) as Ho. pose proof (ticks_open w) as Htick. pose proof (open_tick w) as Hopen. unfold outcome in *.
  destruct (imaildir_log_open w) as [[db|x|x] w'] eqn:E; [| |done]; cbn [snd] in *.
  - destruct Ho as (Hdb & Ec' & Hlf). destruct (Hopen db w' eq_refl) as (Hv & t & Hio & Hle & Et).
    assert (t < LIM) by (destruct (decide (LIM <= t)); [rewrite io_limit in Hio by done; done|lia]).
    assert (file_says es fs w') as Hf'.
    { destruct Hf. constructor; try done. exists []. rewrite app_nil_r. split_and!; try done. constructor. }
    assert (w_tick w <= budget w') as Hb by (unfold budget; lia).
    pose proof (opened_restored es fs w' db Hf' Hdb) as [Rv Rh _ _ _ _]. split; [|split; [by exists fs|done]]. constructor; try done.
    + by exists fs.
    + rewrite Hv. unfold vals. by rewrite Rv, Rh.
    + lia.
    + by eapply within_le.
  - destruct Ho as [(tail' & Ec' & Hp' & Ht') _]. constructor; [|lia|done|by eapply within_le]. exists fs. destruct Hf. constructor; try done. by exists tail'.
Qed.

(** *** The trees of the log *)

Definition with_his (u l : Z) (m : imaildir_t) : imaildir_t := set_hi_uid_local l (set_hi_uid_dn u m).
Definition loaded (db : db_t) (m : imaildir_t) : imaildir_t :=
  set_himodseq_dn (db_himodseq_dn db) (set_mods (db_mods db) (set_expunged (db_expunged db) (set_msgs (db_msgs db) m))).
(** What holds until the highest uids are known. *)
Record high (es : list entry) (u l : Z) : Prop := {
  hg_uid : forall e, e ∈ es -> ent_uid e <= u;
  hg_local : forall e k, e ∈ es -> ent_key e = Some k -> uid_local k <= l;
  hg_pos : 0 <= u /\ 0 <= l
}.
Definition pre (es : list entry) (m : imaildir_t) : Prop := forall u l, high es u l -> mem es (with_his u l m).

Lemma foldr_max_in b (l : list Z) : foldr Z.max b l = b \/ foldr Z.max b l ∈ l.
Proof.
  induction l as [|a l [IH|IH]]; cbn; [by left| |].
  - destruct (Z.max_spec a (foldr Z.max b l)) as [[_ ->]|[_ ->]]; [by left|right; by left].
  - destruct (Z.max_spec a (foldr Z.max b l)) as [[_ ->]|[_ ->]]; right; [by right|by left].
Qed.
Lemma foldr_max_ge b (l : list Z) : b <= foldr Z.max b l /\ forall n, n ∈ l -> n <= foldr Z.max b l.
Proof.
  induction l as [|a l [IH1 IH2]]; cbn; [split; [lia|intros n Hn; by apply elem_of_nil in Hn]|]. split; [lia|]. intros n [->|Hn]%elem_of_cons; [lia|]. specialize (IH2 n Hn). lia.
Qed.
Lemma elem_msum {V} (f : V -> Z) (t : gmap msg_key_t V) n : n ∈ msum f t <-> n <> 0 /\ exists k v, t !! k = Some v /\ f v = n.
Proof.
  unfold msum. rewrite elem_of_list_to_set_disj, list_elem_of_filter, list_elem_of_fmap. split.
  - intros [Hn (v & -> & ([k v'] & -> & Hkv)%list_elem_of_fmap)]. split; [done|]. exists k, v'. split; [by apply elem_of_map_to_list|done].
  - intros [Hn (k & v & Hkv & Hf)]. split; [done|]. exists v. split; [done|]. apply list_elem_of_fmap. exists (k, v). split; [done|]. by apply elem_of_map_to_list.
Qed.

Section opened.
Context (es fs : list entry) (w : world) (db : db_t).
Hypothesis Hf : file_says es fs w.
Hypothesis Hlo : log_ok es.
Hypothesis Hdb : opened fs db.

(** A key whose last entry has a uid is remembered; one that is not has none. *)
Lemma last_remembered k e : last_for (LOG_KEY_MSG k) es = Some e -> ent_uid e <> 0 -> last_for (LOG_KEY_MSG k) fs = Some e.
Proof. intros El Hu. rewrite (fl_last _ _ _ Hf); [done|]. intros e'. rewrite El. intros [= <-]. intros Hfg. destruct e; try done. destruct Hfg as [E _]. exact (Hu E). Qed.
Lemma last_fs k e : last_for (LOG_KEY_MSG k) fs = Some e -> exists e0, e0 ∈ es /\ ent_key e0 = Some k /\ e = as_read e0 /\ entry_ok e0.
Proof.
  intros (e0 & Hin & Hk & ->)%last_in. pose proof (fl_in _ _ _ Hf e0 Hin) as Hin'. exists e0. split_and!; try done.
  pose proof (fl_ok _ _ _ Hf) as Hok. rewrite Forall_forall in Hok. by apply Hok.
Qed.
Lemma last_same k e : last_for (LOG_KEY_MSG k) fs = Some e -> ent_uid e <> 0 -> last_for (LOG_KEY_MSG k) es = Some e.
Proof.
  intros El Hu. destruct (last_fs _ _ El) as (e0 & Hin & Hk & -> & _). destruct (last_for (LOG_KEY_MSG k) es) as [e'|] eqn:Ee; [|by destruct (last_none _ _ Ee e0 Hin)].
  destruct (ent_read e0) as (_ & Eu & _). rewrite Eu in Hu. assert (ent_uid e' <> 0) as Hu' by (intros E0; by apply Hu, (lo_last _ Hlo k e')).
  rewrite <- El. symmetry. rewrite (last_remembered k e') by done. congruence.
Qed.
Lemma tree_msg k msg : db_msgs db !! k = Some msg -> last_for (LOG_KEY_MSG k) fs = Some (EMsg msg) /\
  m_key msg = k /\ key_wf k /\ time_wf (m_internaldate msg) /\ (m_state msg = MSG_FILLED \/ m_state msg = MSG_EXPUNGED <-> m_uid_dn msg <> 0) /\
  (m_uid_dn msg = 0 <-> msg_modseq msg = 0) /\ 0 <= m_uid_dn msg /\ 0 <= msg_modseq msg /\ m_state msg <> MSG_EXPUNGED /\ persisted msg = msg.
Proof.
  rewrite (op_msgs _ _ Hdb). unfold msg_of. destruct (last_for _ fs) as [e|] eqn:El; [|done]. destruct (last_fs _ _ El) as (e0 & Hin & Hk & -> & Hok).
  destruct e0 as [| | |m0|x0]; try done. cbn [as_read]. intros [= <-]. pose proof (lo_zero _ Hlo _ Hin) as Hz. cbn in Hz, Hk. injection Hk as <-. destruct Hok as (Hkw & (Hu & Hm & Ht & Hne) & Hst).
  unfold is_u32, is_u64, msg_modseq in *. split_and!; try done; cbn; try lia; try tauto. rewrite Hz, Hst. destruct (m_state m0); intuition congruence.
Qed.
Lemma tree_exp k x : db_expunged db !! k = Some x -> last_for (LOG_KEY_MSG k) fs = Some (EExpunge x) /\ e_uid_dn x <> 0 /\
  e_key x = k /\ key_wf k /\ x = msg_expunge_new (e_key x) (e_uid_dn x) (e_state x) (exp_modseq x) /\ (e_uid_dn x = 0 <-> exp_modseq x = 0) /\ 0 <= e_uid_dn x /\ 0 <= exp_modseq x.
Proof.
  rewrite (op_expunged _ _ Hdb). unfold expunge_of. destruct (last_for _ fs) as [e|] eqn:El; [|done]. destruct (last_fs _ _ El) as (e0 & Hin & Hk & -> & Hok).
  destruct e0 as [| | |m0|x0]; try done. cbn [as_read]. pose proof (lo_zero _ Hlo _ Hin) as Hz. cbn in Hz, Hk. injection Hk as <-.
  destruct Hok as (Hkw & Hu & Hm). unfold is_u32, is_u64, exp_modseq in *. cbn. destruct (_ && _) eqn:E; [done|]. intros [= <-]. bool_to_prop. cbn.
  split_and!; try done; lia.
Qed.
Lemma tree_high n : n ∈ tree_modseqs db -> exists k e, last_for (LOG_KEY_MSG k) es = Some e /\ ent_modseq e = n.
Proof.
  unfold tree_modseqs. rewrite gmultiset_elem_of_disj_union, !elem_msum. intros [[Hn (k & v & Hv & Hm)]|[Hn (k & v & Hv & Hm)]].
  - apply tree_msg in Hv as (El & _ & _ & _ & _ & Hz & _). exists k, (EMsg v). split; [|done]. apply last_same; [done|]. cbn. intros E. apply Hn. rewrite <- Hm. by apply Hz.
  - apply tree_exp in Hv as (El & Hu & _). exists k, (EExpunge v). split; [|done]. by apply last_same.
Qed.
Lemma tree_last k e : last_for (LOG_KEY_MSG k) es = Some e -> ent_uid e <> 0 -> ent_modseq e ∈ tree_modseqs db.
Proof.
  intros El Hu. pose proof (last_remembered k e El Hu) as Ef. pose proof (proj1 (not_iff_compat (last_zero es k e Hlo El)) Hu) as Hms. unfold tree_modseqs.
  rewrite gmultiset_elem_of_disj_union, !elem_msum. destruct e as [| | |m|x]; try done.
  - left. split; [done|]. exists k, m. rewrite (op_msgs _ _ Hdb). unfold msg_of. by rewrite Ef.
  - right. split; [done|]. exists k, x. rewrite (op_expunged _ _ Hdb). unfold expunge_of. rewrite Ef. cbn in Hu. by rewrite (proj2 (Z.eqb_neq _ _) Hu).
Qed.

Lemma opened_pre m : i_dns m = [] -> i_olds m = ∅ -> pre es (loaded db m).
Proof.
  intros Edns Eolds u l [Hu Hl [Pu Pl]]. pose proof (opened_restored es fs w db Hf Hdb) as [_ _ _ _ _ Hdn]. specialize (Hdn (lo_sorted _ Hlo)).
  assert (db_mods db = tree_modseqs db) as Hmods by apply (op_mods _ _ Hdb).
  pose proof (foldr_max_ge (explicit_dn es) (elements (db_mods db))) as [Hge1 Hge2]. rewrite <- Hdn in Hge1, Hge2. rewrite Hmods in Hge2. setoid_rewrite gmultiset_elem_of_elements in Hge2.
  pose proof (explicit_pos es) as Hpos.
  assert (forall k e, last_for (LOG_KEY_MSG k) es = Some e -> ent_modseq e <= db_himodseq_dn db) as Hseq.
  { intros k e El. destruct (decide (ent_uid e = 0)) as [E|E]; [apply (last_zero es k e Hlo El) in E; lia|]. by apply Hge2, (tree_last k). }
  assert (forall k e, last_for (LOG_KEY_MSG k) fs = Some e -> ent_uid e <= u /\ ent_modseq e <= db_himodseq_dn db) as Hfs.
  { intros k e El. destruct (last_fs _ _ El) as (e0 & Hin & Hk & -> & _). destruct (ent_read e0) as (_ & -> & Em). split; [by apply Hu|].
    destruct (decide (ent_uid e0 = 0)) as [E|E]; [rewrite Em; apply (lo_zero _ Hlo _ Hin) in E; lia|]. apply (Hseq k), last_same; [done|]. by destruct (ent_read e0) as (_ & -> & _). }
  constructor; cbn [i_msgs i_expunged i_mods i_hi_uid_dn i_hi_uid_local i_himodseq_dn with_his loaded set_himodseq_dn set_mods set_expunged set_msgs set_hi_uid_dn set_hi_uid_local]; try done.
  - intros k. unfold key_agrees. cbn [i_msgs i_expunged with_his loaded set_himodseq_dn set_mods set_expunged set_msgs set_hi_uid_dn set_hi_uid_local].
    pose proof (op_msgs _ _ Hdb k) as Em. pose proof (op_expunged _ _ Hdb k) as Ex. destruct (last_for (LOG_KEY_MSG k) es) as [e|] eqn:El.
    + destruct (decide (ent_uid e = 0)) as [E|E].
      * assert (forall e', last_for (LOG_KEY_MSG k) fs = Some e' -> ent_uid e' = 0) as H0'.
        { intros e' El'. destruct (last_fs _ _ El') as (e0 & Hin & Hk & -> & _). destruct (ent_read e0) as (_ & -> & _). by apply (lo_last _ Hlo k e). }
        assert (db_expunged db !! k = None) as Ex'.
        { destruct (db_expunged db !! k) as [x|] eqn:Ex'; [|done]. apply tree_exp in Ex' as (El' & Hx & _). by apply H0' in El'. }
        destruct e as [| | |p|x]; try (by destruct (last_in _ _ _ El) as ([] & _ & ? & ?)); cbn in E.
        -- split; [done|]. exists p. assert (last_for (LOG_KEY_MSG k) fs = Some (EMsg p)) as El' by (rewrite (fl_last _ _ _ Hf), El; [done|]; intros e'; rewrite El; by intros [= <-] []).
           unfold msg_of in Em. rewrite El' in Em. destruct (tree_msg k p Em) as (_ & _ & _ & _ & _ & _ & _ & _ & Hne & Hp). done.
        -- rewrite decide_True by done. split; [|intros x'; by rewrite Ex']. intros msg Hmsg. split; [|done]. apply tree_msg in Hmsg as [El' _]. by apply H0' in El'.
      * pose proof (last_remembered k e El E) as El'. destruct e as [| | |p|x]; try done; cbn in E.
        -- unfold msg_of, expunge_of in Em, Ex. rewrite El' in Em, Ex. split; [done|]. exists p. destruct (tree_msg k p Em) as (_ & _ & _ & _ & _ & _ & _ & _ & Hne & Hp). done.
        -- unfold msg_of, expunge_of in Em, Ex. rewrite El' in Em, Ex. rewrite (proj2 (Z.eqb_neq _ _) E) in Ex. rewrite decide_False by done. split; [done|]. intros msg. by rewrite Em.
    + assert (last_for (LOG_KEY_MSG k) fs = None) as El' by (rewrite (fl_last _ _ _ Hf), El; [done|]; intros e'; by rewrite El).
      unfold msg_of, expunge_of in Em, Ex. by rewrite El' in Em, Ex.
  - intros k msg Hmsg. pose proof (tree_msg k msg Hmsg) as (El & ? & ? & ? & ? & ? & ? & ? & _ & _). destruct (Hfs _ _ El) as [? ?]. constructor; try done; cbn in *; lia.
  - intros k x Hx. pose proof (tree_exp k x Hx) as (El & ? & ? & ? & ? & ? & ? & ?). destruct (Hfs _ _ El) as [? ?]. constructor; try done; cbn in *; lia.
  - intros n Hn. pose proof (foldr_max_ge 1 (explicit es)) as [_ He]. specialize (He n Hn). unfold explicit_dn in Hge1. lia.
  - rewrite Hdn. destruct (foldr_max_in (explicit_dn es) (elements (db_mods db))) as [->|Hin].
    + unfold explicit_dn. destruct (foldr_max_in 1 (explicit es)) as [->|Hin]; [by left|right; by left].
    + right. right. rewrite Hmods in Hin |- *. by apply gmultiset_elem_of_elements, tree_high in Hin.
  - lia.
  - rewrite Hmods. unfold tree_modseqs. cbn. multiset_solver.
  - cbn. by rewrite Edns.
  - unfold views_of. cbn. by rewrite Edns.
  - constructor; cbn; rewrite Eolds; intros *; by rewrite ?lookup_empty.
Qed.
End opened.

(** *** The highest uids *)
Definition detect (m : imaildir_t) (uid_dn uid_loc : Z) : imaildir_t := detect_hi_uid_local uid_loc (detect_hi_uid_dn uid_dn m).
Lemma detect_his u l m a b : detect (with_his u l m) a b = with_his (Z.max u a) (Z.max l b) m.
Proof.
  unfold detect. replace (detect_hi_uid_dn a (with_his u l m)) with (with_his (Z.max u a) l m).
  - unfold detect_hi_uid_local, with_his. cbn [i_hi_uid_local set_hi_uid_local]. destruct (Z.gtb_spec b l); [by rewrite (Z.max_r l) by lia|by rewrite (Z.max_l l) by lia].
  - unfold detect_hi_uid_dn, with_his. cbn [i_hi_uid_dn set_hi_uid_dn set_hi_uid_local]. destruct (Z.gtb_spec a u); [by rewrite (Z.max_r u) by lia|by rewrite (Z.max_l u) by lia].
Qed.
Lemma his_same m : with_his (i_hi_uid_dn m) (i_hi_uid_local m) m = m.
Proof. by destruct m. Qed.
Lemma detect_all {A} (uid loc : A -> Z) (l : list A) : forall m, exists u v,
  foldl (fun m a => detect m (uid a) (loc a)) m l = with_his u v m /\ i_hi_uid_dn m <= u /\ i_hi_uid_local m <= v /\
  (forall a, a ∈ l -> uid a <= u /\ loc a <= v) /\ (u = i_hi_uid_dn m \/ exists a, a ∈ l /\ u = uid a) /\ (v = i_hi_uid_local m \/ exists a, a ∈ l /\ v = loc a).
Proof.
  induction l as [|a l IH]; intros m; cbn [foldl].
  - exists (i_hi_uid_dn m), (i_hi_uid_local m). rewrite his_same. split_and!; try done; try lia; [|by left..]. intros a Ha. by apply elem_of_nil in Ha.
  - pose proof (detect_his (i_hi_uid_dn m) (i_hi_uid_local m) m (uid a) (loc a)) as Ed. rewrite his_same in Ed. rewrite Ed.
    destruct (IH (with_his (Z.max (i_hi_uid_dn m) (uid a)) (Z.max (i_hi_uid_local m) (loc a)) m)) as (u & v & -> & Hu & Hv & Hl & Hu' & Hv'). cbn in Hu, Hv, Hu', Hv'.
    exists u, v. split_and!; [by destruct m|lia|lia| | |].
    + intros b [->|Hb]%elem_of_cons; [lia|by apply Hl].
    + destruct Hu' as [->|(b & Hb & ->)]; [|right; exists b; split; [by right|done]]. destruct (Z.max_spec (i_hi_uid_dn m) (uid a)) as [[_ ->]|[_ ->]]; [right; exists a; split; [by left|done]|by left].
    + destruct Hv' as [->|(b & Hb & ->)]; [|right; exists b; split; [by right|done]]. destruct (Z.max_spec (i_hi_uid_local m) (loc a)) as [[_ ->]|[_ ->]]; [right; exists a; split; [by left|done]|by left].
Qed.
Definition detected (m : imaildir_t) : imaildir_t :=
  let m1 := foldl (fun m msg => detect m (m_uid_dn msg) (uid_local (m_key msg))) m (map_to_list (i_msgs m)).*2 in
  foldl (fun m x => detect m (e_uid_dn x) (uid_local (e_key x))) m1 (map_to_list (i_expunged m1)).*2.
Lemma elem_values {V} (t : gmap msg_key_t V) v : v ∈ (map_to_list t).*2 <-> exists k, t !! k = Some v.
Proof.
  rewrite list_elem_of_fmap. split; [intros ([k v'] & -> & Hkv); exists k; by apply elem_of_map_to_list|intros [k Hk]; exists (k, v); split; [done|by apply elem_of_map_to_list]].
Qed.
(** What is detected is what the log knows. *)
Lemma detected_mem es m n : pre es m -> log_ok es -> Forall (within n) es -> 0 <= n -> i_hi_uid_dn m = 0 -> i_hi_uid_local m = 0 ->
  mem es (detected m) /\ i_hi_uid_dn (detected m) <= n /\ i_hi_uid_local (detected m) <= n /\ i_himodseq_dn (detected m) = i_himodseq_dn m /\
  i_msgs (detected m) = i_msgs m /\ i_expunged (detected m) = i_expunged m /\ i_dns (detected m) = i_dns m.
Proof.
  intros Hp Hlo Hw Hn Eu El. unfold detected.
  destruct (detect_all m_uid_dn (fun msg => uid_local (m_key msg)) (map_to_list (i_msgs m)).*2 m) as (u & v & -> & Hu1 & Hv1 & Hl1 & Hu2 & Hv2).
  destruct (detect_all e_uid_dn (fun x => uid_local (e_key x)) (map_to_list (i_expunged (with_his u v m))).*2 (with_his u v m)) as (u' & v' & -> & Hu3 & Hv3 & Hl3 & Hu4 & Hv4).
  cbn in Hu3, Hv3, Hu4, Hv4. rewrite Eu in *. rewrite El in *. setoid_rewrite elem_values in Hl1. setoid_rewrite elem_values in Hl3. setoid_rewrite elem_values in Hu2.
  setoid_rewrite elem_values in Hv2. setoid_rewrite elem_values in Hu4. setoid_rewrite elem_values in Hv4. cbn [i_expunged with_his set_hi_uid_local set_hi_uid_dn] in *.
  set (big := foldr Z.max 0 (map ent_uid es)). set (big' := foldr Z.max 0 (omap (fun e => uid_local <$> ent_key e) es)).
  assert (high es big big') as Hh.
  { destruct (foldr_max_ge 0 (map ent_uid es)) as [G1 G2]. destruct (foldr_max_ge 0 (omap (fun e => uid_local <$> ent_key e) es)) as [G3 G4]. constructor; [| |done].
    - intros e He. apply G2, list_elem_of_fmap. by exists e.
    - intros e k He Hk. apply G4, list_elem_of_omap. exists e. by rewrite Hk. }
  pose proof (Hp _ _ Hh) as Hm. rewrite Forall_forall in Hw.
  assert (high es u' v') as Hh'.
  { constructor; [| |lia].
    - intros e He. destruct (decide (ent_uid e = 0)) as [E|E]; [lia|]. destruct (ent_key e) as [k|] eqn:Ek; [|by destruct e].
      destruct (last_for (LOG_KEY_MSG k) es) as [x|] eqn:Ex; [|by destruct (last_none _ _ Ex e He)]. destruct (last_in _ _ _ Ex) as (e1 & He1 & Hk1 & ->). destruct (ent_read e1) as (_ & Eu1 & _).
      assert (ent_uid e1 <> 0) as Hne by (intros E1; apply E, (lo_last _ Hlo k (as_read e1)); [done|by rewrite Eu1|done|done]).
      assert (ent_uid e = ent_uid e1) as -> by (apply (lo_uids _ Hlo); congruence). pose proof (me_keys _ _ Hm k) as Hk. unfold key_agrees in Hk. rewrite Ex in Hk. rewrite <- Eu1 in *.
      destruct (as_read e1) as [| | |p|x]; try done; cbn [ent_uid] in *.
      + destruct Hk as (_ & msg & Hmsg & <- & _). destruct (Hl1 msg (ex_intro _ k Hmsg)). cbn. lia.
      + rewrite decide_False in Hk by done. destruct Hk as [Hx _]. destruct (Hl3 x (ex_intro _ k Hx)). lia.
    - intros e k He Hk. destruct (last_for (LOG_KEY_MSG k) es) as [x|] eqn:Ex; [|by destruct (last_none _ _ Ex e He)]. pose proof (last_msg_key _ _ _ Ex) as Hxk.
      destruct (decide (uid_local k = 0)) as [E|E]; [lia|]. pose proof (me_keys _ _ Hm k) as Hkk. unfold key_agrees in Hkk. rewrite Ex in Hkk. destruct x as [| | |p|x]; try done.
      + destruct Hkk as (_ & msg & Hmsg & <- & _). destruct (Hl1 msg (ex_intro _ k Hmsg)). cbn in Hxk. injection Hxk as <-. lia.
      + case_decide as Ez; [by destruct (E (lo_local _ Hlo k (EExpunge x) Ex Ez))|]. destruct Hkk as [Hx _]. destruct (Hl3 x (ex_intro _ k Hx)). cbn in Hxk. injection Hxk as <-. lia. }
  assert (forall k msg, i_msgs m !! k = Some msg -> m_uid_dn msg <= n /\ uid_local (m_key msg) <= n) as Hmsgs.
  { intros k msg Hk. pose proof (mo_key _ _ _ (me_msgs _ _ Hm k msg Hk)) as Hkey. split.
    - destruct (decide (m_uid_dn msg = 0)) as [E|E]; [lia|]. destruct (uid_in_log _ _ _ _ Hm Hk E) as (e & He & _ & <-). by apply (wi_uid _ _ (Hw e He)).
    - pose proof (me_keys _ _ Hm k) as Hag. unfold key_agrees in Hag. destruct (last_for (LOG_KEY_MSG k) es) as [x|] eqn:Ex; [|destruct Hag as [Hag _]; cbn in Hag; congruence].
      destruct (last_in _ _ _ Ex) as (e & He & Hek & _). rewrite Hkey. by apply (wi_local _ _ (Hw e He)). }
  assert (forall k x, i_expunged m !! k = Some x -> e_uid_dn x <= n /\ uid_local (e_key x) <= n) as Hexps.
  { intros k x Hk. pose proof (xo_key _ _ _ (me_exps _ _ Hm k x Hk)) as Hkey. split.
    - destruct (decide (e_uid_dn x = 0)) as [E|E]; [lia|]. destruct (last_in _ _ _ (exp_last _ _ _ _ Hm Hk E)) as (e & He & _ & Ee). destruct (ent_read e) as (_ & Eu' & _).
      rewrite <- Ee in Eu'. cbn in Eu'. rewrite Eu'. by apply (wi_uid _ _ (Hw e He)).
    - pose proof (me_keys _ _ Hm k) as Hag. unfold key_agrees in Hag. destruct (last_for (LOG_KEY_MSG k) es) as [y|] eqn:Ex; [|destruct Hag as [_ Hag]; cbn in Hag; congruence].
      destruct (last_in _ _ _ Ex) as (e & He & Hek & _). rewrite Hkey. by apply (wi_local _ _ (Hw e He)). }
  split; [exact (Hp _ _ Hh')|]. cbn. split_and!; try done.
  - destruct Hu4 as [->|(x & [k Hk] & ->)]; [destruct Hu2 as [->|(msg & [k Hk] & ->)]; [done|by eapply Hmsgs]|by eapply Hexps].
  - destruct Hv4 as [->|(x & [k Hk] & ->)]; [destruct Hv2 as [->|(msg & [k Hk] & ->)]; [done|by eapply Hmsgs]|by eapply Hexps].
Qed.

(** *** The files *)

Record opening (es : list entry) (b : box) : Prop := {
  og_disk : disk es (b_w b);
  og_pre : pre es (b_m b);
  og_seq : i_himodseq_dn (b_m b) <= budget (b_w b) + 1;
  og_his : i_hi_uid_dn (b_m b) = 0 /\ i_hi_uid_local (b_m b) = 0;
  og_nobody : i_dns (b_m b) = [] /\ i_olds (b_m b) = ∅;
  og_valid : b_invalid b = false
}.
Lemma told_nobody es m : i_dns m = [] -> i_olds m = ∅ -> told es m.
Proof. intros Ed Eo. constructor; [rewrite Ed; constructor|unfold views_of; rewrite Ed; constructor|]. constructor; rewrite Eo; intros *; by rewrite ?lookup_empty. Qed.
Lemma budget_pos es w : disk es w -> 0 <= budget w.
Proof. intros [_ _ _ Hl _ _]. pose proof (zlen_nonneg es). lia. Qed.
Lemma high_budget es w : disk es w -> high es (budget w) (budget w).
Proof.
  intros Hd. pose proof (budget_pos es w Hd). pose proof (dk_counts _ _ Hd) as Hw. rewrite Forall_forall in Hw. constructor; [|intros e k He Hk|done].
  - intros e He. apply (wi_uid _ _ (Hw e He)).
  - by apply (wi_local _ _ (Hw e He)).
Qed.
(** With the highest uids set high enough it is a mailbox. *)
Lemma opening_running es m w : opening es (mkBox m w false) -> running es (mkBox (with_his (budget w) (budget w) m) w false).
Proof.
  intros [Hd Hp Hs _ _ _]. cbn [b_m b_w] in *. constructor; try done; [by apply Hp, high_budget].
Qed.
Lemma opening_ready es m w : opening es (mkBox m w false) -> ready es m w.
Proof. intros [Hd _ _ _ [Ed _] _]. cbn [b_m b_w] in *. constructor; [done|]. unfold views_of. rewrite Ed. constructor. Qed.

(** The messages are the same, apart from their files. *)
Record listed (files : msg_key_t -> Prop) (m m' : imaildir_t) : Prop := {
  ls_msgs : forall k msg, i_msgs m !! k = Some msg -> exists msg', i_msgs m' !! k = Some msg' /\ m_state msg' = m_state msg /\
    (is_Some (m_filename msg) \/ m_state msg = MSG_FILLED /\ files k -> is_Some (m_filename msg'));
  ls_back : forall k msg', i_msgs m' !! k = Some msg' -> exists msg, i_msgs m !! k = Some msg /\ m_state msg = m_state msg'
}.
Lemma listed_refl m : listed (fun _ => False) m m.
Proof. constructor; [|naive_solver]. intros k msg Hk. exists msg. naive_solver. Qed.
Lemma listed_trans F1 F2 m1 m2 m3 : listed F1 m1 m2 -> listed F2 m2 m3 -> listed (fun k => F1 k \/ F2 k) m1 m3.
Proof.
  intros [A1 B1] [A2 B2]. constructor.
  - intros k msg Hk. destruct (A1 _ _ Hk) as (msg2 & H2' & S2 & F2'). destruct (A2 _ _ H2') as (msg3 & H3' & S3 & F3'). exists msg3. split; [done|]. split; [congruence|]. rewrite S2 in F3'. naive_solver.
  - intros k msg3 Hk. destruct (B2 _ _ Hk) as (msg2 & H2' & S2). destruct (B1 _ _ H2') as (msg1 & H1' & S1). exists msg1. split; [done|congruence].
Qed.

Definition name_outs0 : name_outs := mkOuts None (Some (mkKey 0 0)) (Some 0) None None.
(** The key in the name of a file. *)
Definition file_key (file : bytes * bool) (k : msg_key_t) : Prop :=
  file.2 = false /\ exists o, maildir_name_parse file.1 name_outs0 = (Ok tt, o) /\ default (mkKey 0 0) (o_key o) = k.
(** A file that can be opened: its name is long enough, and its message is not one that has not been downloaded. *)
Definition file_fits (m : imaildir_t) (file : bytes * bool) : Prop :=
  file.2 = false -> 16 <= zlen file.1 /\ forall k msg, file_key file k -> i_msgs m !! k = Some msg -> m_state msg = MSG_FILLED.

Lemma add_msg_ok es sub file m w : opening es (mkBox m w false) -> file_fits m file ->
  keeps es (add_msg_to_maildir sub file) (mkBox m w false) (fun _ b' => opening es b' /\ listed (file_key file) m (b_m b')).
Proof.
  intros Ho Hf. pose proof (opening_ready _ _ _ Ho) as Hready. pose proof (opening_running _ _ _ Ho) as Hr. destruct file as [name dir]. unfold add_msg_to_maildir.
  destruct dir.
  { apply out_ret. split; [done|]. constructor; [|naive_solver]. intros k msg Hk. exists msg. split; [done|]. split; [done|]. intros [?|[_ [? _]]]; done. }
  destruct (Hf eq_refl) as [Hlen Hkey]. cbn [fst] in Hlen. rewrite (proj2 (Z.ltb_ge _ _)) by done. fold name_outs0.
  pose proof (parse_no_stop name (Some (mkKey 0 0)) (Some 0)) as Hns. fold name_outs0 in Hns. destruct (maildir_name_parse name name_outs0) as [[[]|e|x] o] eqn:Ep; [| |by destruct (Hns x)].
  2: { assert (keeps es (st_ret tt : stm box unit) (mkBox m w false) (fun _ b' => opening es b' /\ listed (file_key (name, false)) m (b_m b'))) as Hret.
       { apply out_ret. split; [done|]. constructor; [|naive_solver]. intros k msg Hk. exists msg. split; [done|]. split; [done|]. intros [?|[_ (_ & o' & Ep' & _)]]; [done|]. cbn in Ep'. congruence. }
       destruct e; try exact Hret; by apply keeps_fail. }
  set (key := default (mkKey 0 0) (o_key o)). set (len := default 0 (o_len o)). apply step_get.
  assert (file_key (name, false) key) as Hfk by (split; [done|by exists o]).
  assert (forall k, file_key (name, false) k -> k = key) as Huniq by (intros k (_ & o' & Ep' & <-); cbn in Ep'; rewrite Ep in Ep'; by injection Ep' as <-).
  destruct (i_msgs m !! key) as [msg|] eqn:Em.
  - rewrite (Hkey key msg Hfk Em). destruct (msg_set_file len sub name msg) as [msg'|e|x] eqn:Ef; unfold msg_set_file in Ef; destruct (m_filename msg); try done; injection Ef as <-.
    2: { apply keeps_fail_bind. exact Hready. }
    eapply step_lift; [done|]. unfold put_msg. apply step_end, step_mod, out_ret. set (msg' := mkMsg _ _ _ _ _ _ _ _ _ _).
    pose proof Hr as [_ Hm _ _]. cbn [b_m] in Hm. pose proof (mo_key _ _ _ (me_msgs _ _ Hm key msg Em)) as Hmk. change (m_key msg') with (m_key msg). rewrite Hmk.
    pose proof Ho as [Hd Hp Hs [Hu Hl] [Ed Eo] _]. cbn [b_m b_w] in *. split.
    + constructor; try done. cbn [b_m]. intros u l Hh. apply (mem_persisted es (with_his u l m) key msg msg'); [by apply Hp|done|done|]. by apply told_nobody.
    + constructor; cbn [b_m i_msgs set_msgs].
      * intros k msg2 Hk. destruct (decide (k = key)) as [->|Hn].
        -- rewrite Em in Hk. injection Hk as <-. exists msg'. rewrite lookup_insert_eq. split; [done|]. split; [done|]. by eexists.
        -- exists msg2. rewrite lookup_insert_ne by done. split; [done|]. split; [done|]. intros [?|[_ Hk']]; [done|]. by apply Huniq in Hk'.
      * intros k msg2 [[<- <-]|[_ Hk]]%lookup_insert_Some; [by exists msg|by exists msg2].
  - destruct (i_expunged m !! key); [|by apply keeps_fail]. apply step_end, step_io; [done|]. intros w' Hd' Hb. apply out_ret. pose proof Ho as [Hd Hp Hs Hhis Hno _]. cbn [b_m b_w] in *. split.
    + constructor; try done. cbn. lia.
    + cbn [b_m]. constructor; [|naive_solver]. intros k msg2 Hk. exists msg2. split; [done|]. split; [done|]. intros [?|[_ Hk']]; [done|]. apply Huniq in Hk' as ->. congruence.
Qed.
Lemma add_msgs_ok es sub files : forall m w, opening es (mkBox m w false) -> Forall (file_fits m) files ->
  keeps es (st_each (add_msg_to_maildir sub) files) (mkBox m w false) (fun _ b' => opening es b' /\ listed (fun k => Exists (fun file => file_key file k) files) m (b_m b')).
Proof.
  induction files as [|file files IH]; intros m w Ho Hf; cbn [st_each].
  - apply out_ret. split; [done|]. destruct (listed_refl m) as [A B]. constructor; [|done]. intros k msg Hk. destruct (A k msg Hk) as (msg' & ? & ? & Hfn). exists msg'. split; [done|]. split; [done|].
    intros [?|[_ He]]; [by apply Hfn; left|]. by apply Exists_nil in He.
  - inversion Hf as [|? ? Hf1 Hf2]; subst. eapply keeps_bind; [by apply add_msg_ok|]. intros [] [m' w' v'] [Ho' Hl']. pose proof (og_valid _ _ Ho') as Hv. cbn in Hv, Hl'. subst v'.
    eapply keeps_mono; [apply IH; [done|]|].
    + eapply Forall_impl; [exact Hf2|]. intros f Hff Ed. destruct (Hff Ed) as [? Hk]. split; [done|]. intros k msg' Hfk Hmsg'. destruct (ls_back _ _ _ Hl' _ _ Hmsg') as (msg & Hmsg & <-). by apply (Hk k).
    + intros [] b' [Ho2 Hl2]. split; [done|]. destruct (listed_trans _ _ _ _ _ Hl' Hl2) as [A B]. constructor; [|done]. intros k msg Hk. destruct (A k msg Hk) as (msg2 & ? & ? & Hfn).
      exists msg2. split; [done|]. split; [done|]. rewrite Exists_cons. tauto.
Qed.

(** A message without its file was deleted by the user. *)
Lemma drop_mem es m w key msg : opening es (mkBox m w false) -> i_msgs m !! key = Some msg -> m_state msg = MSG_FILLED ->
  let n := i_himodseq_dn m + 1 in let x := msg_expunge_new key (m_uid_dn msg) MSG_EXPUNGE_UNPUSHED n in
  let M := set_mods (i_mods m ∖ {[+ modseq (m_mod msg) +]}) (set_msgs (delete key (i_msgs m)) (set_expunged (<[key := x]> (i_expunged m)) (set_himodseq_dn n m))) in
  (entry_ok (EExpunge x) /\ within (budget w + 1) (EExpunge x)) /\ fits es (EExpunge x) /\ i_expunged m !! key = None /\ m_uid_dn msg <> 0 /\ modseq (m_mod msg) <> 0 /\ pre (es ++ [EExpunge x]) M.
Proof.
  intros Ho Em Est n x M. pose proof (opening_running _ _ _ Ho) as Hr. pose proof Hr as [Hd Hm Hc _]. cbn [b_m b_w] in *. pose proof (dk_log _ _ Hd) as Hlo.
  pose proof (me_msgs _ _ Hm key msg Em) as Hmsg. assert (m_uid_dn msg <> 0) as Hu by (apply (mo_state _ _ _ Hmsg); tauto). assert (msg_modseq msg <> 0) as Hms by (by rewrite <- (mo_zero _ _ _ Hmsg)).
  assert (m_state msg <> MSG_EXPUNGED) as Hne by congruence. pose proof (not_expunged _ _ _ _ Hm Em Hne) as Ex. cbn [i_expunged with_his set_hi_uid_local set_hi_uid_dn] in Ex.
  assert (forall u l, m_uid_dn msg <= u -> exp_ok (with_his u l M) key x) as Hx.
  { intros u l Hul. pose proof (me_pos _ _ Hm) as Hpos. cbn in Hpos. pose proof (mo_uid _ _ _ Hmsg). constructor; cbn; try done; try lia. apply Hmsg. }
  assert (m_uid_dn msg <= budget w) as Hub by (apply (mo_uid _ _ _ Hmsg)).
  split; [|split; [|split; [done|split; [done|split; [done|]]]]].
  - eapply (exp_entry_new _ (with_his (budget w) (budget w) M)); [exact Hc|reflexivity|by apply Hx|cbn; lia| |cbn; lia]. pose proof (local_bound _ _ _ _ Hm Em). cbn in *. lia.
  - pose proof (me_pos _ _ Hm) as Hpos. cbn in Hpos. apply (exp_fits es (with_his (budget w) (budget w) m) key msg); try done; [cbn; lia|by right].
  - intros u l Hh. assert (high es u l) as Hh'.
    { destruct Hh as [A B C]. constructor; [intros e He; apply A; apply elem_of_app; by left|intros e k He; apply B; apply elem_of_app; by left|done]. }
    pose proof (og_pre _ _ Ho u l Hh') as Hmu. cbn [b_m] in Hmu. pose proof (og_nobody _ _ Ho) as [Ed Eo]. cbn [b_m] in Ed, Eo.
    assert (m_uid_dn msg <= u) as Hmsgu by (apply (mo_uid _ _ _ (me_msgs _ _ Hmu key msg Em))).
    apply (expunge_mem es (with_his u l m) (with_his u l M) key msg x); try done; [by apply Hx|by apply grown_next; cbn; lia|..].
    + intros k' Hk'. cbn. by rewrite lookup_delete_ne.
    + intros msg'. cbn. by rewrite lookup_delete_eq.
    + by rewrite decide_False.
    + pose proof (me_mods _ _ Hmu) as Hmods. cbn in *. rewrite (msum_delete _ key msg _ Em), nz_some in Hmods by done. change (modseq (m_mod msg)) with (msg_modseq msg). multiset_solver.
    + by apply told_nobody.
Qed.
Lemma populate_one_ok es m w msg : opening es (mkBox m w false) -> i_msgs m !! m_key msg = Some msg ->
  keeps es (populate_msg msg) (mkBox m w false) (fun _ b' => exists es', es ⊆ es' /\ opening es' b' /\ (forall k, k <> m_key msg -> i_msgs (b_m b') !! k = i_msgs m !! k) /\
    (m_state msg <> MSG_FILLED \/ is_Some (m_filename msg) -> es' = es /\ b_m b' = m)).
Proof.
  intros Ho Em. pose proof (opening_ready _ _ _ Ho) as Hready.
  assert (keeps es (st_ret tt : stm box unit) (mkBox m w false) (fun _ b' => exists es', es ⊆ es' /\ opening es' b' /\ (forall k, k <> m_key msg -> i_msgs (b_m b') !! k = i_msgs m !! k) /\
    (m_state msg <> MSG_FILLED \/ is_Some (m_filename msg) -> es' = es /\ b_m b' = m))) as Hret by (apply out_ret; by exists es).
  unfold populate_msg. destruct (m_filename msg) as [fn|] eqn:Ef; [by apply step_ret|]. unfold handle_missing_file. destruct (m_state msg) eqn:Est; try (by apply step_ret). clear Hret.
  destruct (drop_mem es m w (m_key msg) msg Ho Em Est) as (He & Hfits & Ex & Hu & Hms & Hpre). rewrite (proj2 (Z.eqb_neq _ _) Hu), (proj2 (Z.eqb_neq _ _) Hms).
  pose proof Ho as [Hd _ Hs Hhis Hno _]. cbn [b_m b_w] in *. pose proof (budget_lim w). unfold LIM in *. pose proof (me_pos _ _ (ru_mem _ _ (opening_running _ _ _ Ho))) as (P1 & _). cbn in P1.
  apply step_assoc, step_himodseq; [lia|]. set (n := i_himodseq_dn m + 1) in *. set (x := msg_expunge_new (m_key msg) (m_uid_dn msg) MSG_EXPUNGE_UNPUSHED n) in *. apply step_assoc.
  apply (step_write es (EExpunge x)); [by destruct Hready|done|done|]. intros w' [Hd' _] Hb. apply step_assoc. unfold ins_expunge. apply step_assoc, step_get.
  change (e_key x) with (m_key msg). cbn [i_expunged set_himodseq_dn]. rewrite Ex. unfold put_expunge. apply step_mod, step_ret, step_mod. change (e_key x) with (m_key msg).
  unfold erase_mod. apply step_end, step_mod, out_ret. exists (es ++ [EExpunge x]). split; [apply sub_snoc|]. split; [|split; [|intros [?|[]]; done]].
  - constructor; try done. cbn. lia.
  - intros k Hk. cbn. by rewrite lookup_delete_ne.
Qed.
Lemma populate_all_ok l : forall es m w, opening es (mkBox m w false) -> NoDup (map m_key l) -> Forall (fun msg => i_msgs m !! m_key msg = Some msg) l ->
  keeps es (st_each populate_msg l) (mkBox m w false) (fun _ b' => exists es', es ⊆ es' /\ opening es' b' /\
    (Forall (fun msg => m_state msg <> MSG_FILLED \/ is_Some (m_filename msg)) l -> es' = es /\ b_m b' = m)).
Proof.
  induction l as [|msg l IH]; intros es m w Ho Hn Hl; cbn [st_each].
  - apply out_ret. by exists es.
  - inversion Hl as [|? ? Hl1 Hl2]; subst. cbn in Hn. apply NoDup_cons in Hn as [Hn1 Hn2]. eapply keeps_bind; [by apply populate_one_ok|].
    intros [] [m' w' v'] (es' & Hs & Ho' & Hsame & Hq). pose proof (og_valid _ _ Ho') as Hv. cbn in Hv. subst v'. cbn [b_m] in *. apply (keeps_sub es es' _ _ _ Hs).
    eapply keeps_mono; [apply IH; [exact Ho'|done|]|].
    + rewrite Forall_forall in *. intros msg' Hmsg'. rewrite Hsame; [by apply Hl2|]. intros E. apply Hn1. rewrite <- E. apply list_elem_of_fmap. by exists msg'.
    + intros [] b' (es2 & Hs2 & Ho2 & Hq2). exists es2. split; [by etransitivity|]. split; [done|]. intros Hall. inversion Hall as [|? ? Ha1 Ha2]; subst.
      destruct (Hq Ha1) as [-> ->]. by apply Hq2.
Qed.
Lemma in_order_perm t : in_order t ≡ₚ (map_to_list t).*2.
Proof. apply merge_sort_Permutation. Qed.

Definition all_files (m : imaildir_t) (cur new : listing) : Prop :=
  forall k msg, i_msgs m !! k = Some msg -> m_state msg = MSG_FILLED -> Exists (fun file => file_key file k) (cur ++ new).
Lemma populate_ok es cur new m w : opening es (mkBox m w false) -> Forall (file_fits m) (cur ++ new) -> (forall k msg, i_msgs m !! k = Some msg -> m_filename msg = None) ->
  keeps es (populate_msgs cur new) (mkBox m w false) (fun _ b' => exists es', es ⊆ es' /\ opening es' b' /\ (all_files m cur new -> es' = es)).
Proof.
  intros Ho [Hc Hn]%Forall_app Hnone. unfold populate_msgs. apply step_io; [by apply opening_ready|]. intros w1 Hd1 Hb1.
  assert (opening es (mkBox m w1 false)) as Ho1 by (destruct Ho as [_ Hp Hs Hhis Hno _]; constructor; try done; cbn in *; lia).
  eapply keeps_bind; [by apply add_msgs_ok|]. intros [] [m2 w2 v2] [Ho2 Hl2]. pose proof (og_valid _ _ Ho2) as Hv. cbn in Hv. subst v2. cbn [b_m] in Hl2.
  apply step_io; [by apply opening_ready|]. intros w3 Hd3 Hb3.
  assert (opening es (mkBox m2 w3 false)) as Ho3 by (destruct Ho2 as [_ Hp Hs Hhis Hno _]; constructor; try done; cbn in *; lia).
  eapply keeps_bind; [apply add_msgs_ok; [done|]|].
  { eapply Forall_impl; [exact Hn|]. intros f Hff Ed. destruct (Hff Ed) as [? Hk]. split; [done|]. intros k msg' Hfk Hmsg'. destruct (ls_back _ _ _ Hl2 _ _ Hmsg') as (msg & Hmsg & <-). by apply (Hk k). }
  intros [] [m4 w4 v4] [Ho4 Hl4]. pose proof (og_valid _ _ Ho4) as Hv. cbn in Hv. subst v4. cbn [b_m] in Hl4. pose proof (listed_trans _ _ _ _ _ Hl2 Hl4) as Hl. apply step_get.
  assert (forall k msg, i_msgs m4 !! k = Some msg -> m_key msg = k) as Hkeys.
  { intros k msg Hk. exact (mo_key _ _ _ (me_msgs _ _ (ru_mem _ _ (opening_running _ _ _ Ho4)) k msg Hk)). }
  eapply keeps_mono; [apply (populate_all_ok _ es); [done| |]|].
  - rewrite (in_order_perm (i_msgs m4)). rewrite <- list_fmap_compose. apply NoDup_fmap_2_strong; [|apply NoDup_map_to_list].
    intros [ka a] [kb b] Ha%elem_of_map_to_list Hb%elem_of_map_to_list E. cbn in E. assert (ka = kb) as -> by (rewrite <- (Hkeys ka a), <- (Hkeys kb b) by done; done). congruence.
  - rewrite (in_order_perm (i_msgs m4)), Forall_forall. intros msg [k Hk]%elem_values. by rewrite (Hkeys k).
  - intros [] b' (es' & Hs & Ho' & Hq). exists es'. split; [done|]. split; [done|]. intros Hall. apply Hq. rewrite (in_order_perm (i_msgs m4)), Forall_forall.
    intros msg [k Hk]%elem_values. destruct (decide (m_state msg = MSG_FILLED)) as [Est|]; [right|by left]. destruct (ls_back _ _ _ Hl _ _ Hk) as (msg0 & Hk0 & E0).
    destruct (ls_msgs _ _ _ Hl _ _ Hk0) as (msg' & Hk' & _ & Hfn). rewrite Hk in Hk'. injection Hk' as <-. apply Hfn. right. split; [congruence|].
    specialize (Hall k msg0 Hk0 ltac:(congruence)). by apply Exists_app in Hall.
Qed.

(** *** The whole mailbox *)

Definition files_of (files : option (listing * listing)) : listing := match files with Some (cur, new) => cur ++ new | None => [] end.
(** The files can be opened with what reading the log gives. *)
Definition readable (w : world) (files : option (listing * listing)) : Prop :=
  forall file, file ∈ files_of files -> file.2 = false -> 16 <= zlen file.1 /\
    forall db w2 k msg, imaildir_log_open w = (Ok db, w2) -> file_key file k -> db_msgs db !! k = Some msg -> m_state msg = MSG_FILLED.
(** The same before [imaildir_init_ex] looks for the file .invalid. *)
Definition settled (w : world) (files : option (listing * listing)) : Prop := readable (io w).2 files.
(** Every message that was given out has its file. *)
Definition covered (es : list entry) (files : option (listing * listing)) : Prop :=
  files = None \/ forall k p, last_for (LOG_KEY_MSG k) es = Some (EMsg p) -> m_state p = MSG_FILLED -> Exists (fun file => file_key file k) (files_of files).
Definition fresh_im (m : imaildir_t) : Prop := i_dns m = [] /\ i_olds m = ∅ /\ i_hi_uid_dn m = 0 /\ i_hi_uid_local m = 0.

Lemma opening_end es es' m w : es ⊆ es' -> opening es' (mkBox m w false) -> running es' (mkBox (detected m) w false) /\ i_dns (detected m) = [].
Proof.
  intros Hs [Hd Hp Hseq [Hu Hl] [Ed Eo] _]. cbn [b_m b_w] in *.
  destruct (detected_mem es' m (budget w) Hp (dk_log _ _ Hd) (dk_counts _ _ Hd) (budget_pos _ _ Hd) Hu Hl) as (Hm & Cu & Cl & Es & _ & _ & Ed').
  split; [|congruence]. constructor; try done. constructor; cbn; [done|done|rewrite Es; done].
Qed.
Lemma open_opening es m w db w' fs : disk es w' -> file_says es fs w' -> opened fs db -> Forall (within (w_tick w)) es -> w_tick w <= budget w' -> 0 <= w_tick w -> fresh_im m -> opening es (mkBox (loaded db m) w' false).
Proof.
  intros Hd Hf Hdb Hw Hb H0' (Ed & Eo & Eu & El). pose proof (dk_log _ _ Hd) as Hlo. pose proof (opened_pre es fs w' db Hf Hlo Hdb m Ed Eo) as Hpre. constructor; try done. cbn [b_m b_w].
  pose proof (Hpre _ _ (high_budget es w' Hd)) as Hm. pose proof (dk_counts _ _ Hd) as Hc. rewrite Forall_forall in Hc. pose proof (budget_pos es w' Hd).
  destruct (me_hiseq _ _ Hm) as [E|[E|(k & e & El' & E)]]; cbn in E.
  - cbn in *. lia.
  - apply in_explicit in E. pose proof (wi_explicit _ _ (Hc _ E)) as Hx. cbn in Hx. exact Hx.
  - destruct (last_in _ _ _ El') as (e0 & Hin & _ & ->). destruct (ent_read e0) as (_ & _ & Em). rewrite Em in E. pose proof (wi_modseq _ _ (Hc _ Hin)) as Hx. cbn. lia.
Qed.
Lemma read_ok es m w files : shut es w -> fresh_im m -> readable w files ->
  keeps es (imaildir_read_cache_and_files files) (mkBox m w false) (fun _ b' => exists es', es ⊆ es' /\ running es' b' /\ i_dns (b_m b') = [] /\ (covered es files -> es' = es)).
Proof.
  intros Hsh Hfr Hset. pose proof Hfr as (Ed & _). pose proof (open_disk es w Hsh) as Hopen. assert (0 <= w_tick w) as Hpos by (pose proof (sd_len _ _ Hsh); pose proof (zlen_nonneg es); lia).
  unfold imaildir_read_cache_and_files. unfold outcome in Hopen. unfold keeps, outcome. unfold st_bind at 1. unfold on_log. cbn [b_w b_m b_invalid]. destruct (imaildir_log_open w) as [[db|e|x] w'] eqn:Eopen; [| |done].
  2: { exists es. split; [done|]. constructor; [done| |done]. unfold views_of. cbn. rewrite Ed. constructor. }
  destruct Hopen as (Hd & (fs & Hf & Hdb) & Hb). pose proof (open_opening es m w db w' fs Hd Hf Hdb (sd_counts _ _ Hsh) Hb Hpos Hfr) as Ho.
  match goal with |- match ?p with _ => _ end => change (keeps es (do! _ := mod_m (loaded db) in do! _ := (match files with Some (cur, new) => populate_msgs cur new | None => st_ret tt end) in
    do! m := get_m in do! _ := mod_m (fun m => foldl (fun m msg => detect m (m_uid_dn msg) (uid_local (m_key msg))) m (map_to_list (i_msgs m)).*2) in
    mod_m (fun m => foldl (fun m x => detect m (e_uid_dn x) (uid_local (e_key x))) m (map_to_list (i_expunged m)).*2)) (mkBox m w' false)
    (fun _ b' => exists es', es ⊆ es' /\ running es' b' /\ i_dns (b_m b') = [] /\ (covered es files -> es' = es))) end.
  apply step_mod. eapply (keeps_bind es _ _ _ (fun _ b' => exists es', es ⊆ es' /\ opening es' b' /\ (covered es files -> es' = es))).
  - destruct files as [[cur new]|]; [|apply out_ret; by exists es]. eapply keeps_mono; [apply populate_ok; [done| |]|].
    + rewrite Forall_forall. intros file Hfile Hdir. destruct (Hset file Hfile Hdir) as [Hl Hk]. split; [done|]. intros k msg Hfk Hmsg. by apply (Hk db w' k msg).
    + intros k msg Hk. cbn in Hk. pose proof (tree_msg es fs w' db Hf (dk_log _ _ Hd) Hdb k msg Hk) as (_ & _ & _ & _ & _ & _ & _ & _ & _ & Ep). rewrite <- Ep. done.
    + intros [] b' (es' & Hs & Ho' & Hq). exists es'. split; [done|]. split; [done|]. intros [?|Hcov]; [done|]. apply Hq. intros k msg Hk Hst. cbn in Hk.
      pose proof (tree_msg es fs w' db Hf (dk_log _ _ Hd) Hdb k msg Hk) as (El & _ & _ & _ & Hiff & _). apply (Hcov k msg); [|done]. apply (last_same es fs w' Hf (dk_log _ _ Hd)); [done|]. cbn. apply Hiff. by left.
  - intros [] [m2 w2 v2] (es' & Hs & Ho2 & Hq). pose proof (og_valid _ _ Ho2) as Hv. cbn in Hv. subst v2. apply step_get, step_mod, step_end, step_mod, out_ret.
    destruct (opening_end es es' m2 w2 Hs Ho2) as [Hr Hdns]. exists es'. split_and!; done.
Qed.
Lemma shut_keeps_io {B} es (k : unit -> stm box B) m w Q : shut es w -> views_of m = [] ->
  (shut es (io w).2 -> keeps es (k tt) (mkBox m (io w).2 false) Q) -> keeps es (st_bind file_io k) (mkBox m w false) Q.
Proof.
  intros Hs Hv Hk. pose proof (shut_io es w Hs) as Hs'. specialize (Hk Hs'). unfold keeps, outcome, st_bind, file_io, on_log in *. cbn [b_w b_m b_invalid].
  destruct (io w) as [[[]|e|x] w'] eqn:E; cbn [snd] in *; [exact Hk| |].
  - exists es. split; [done|]. constructor; [done| |done]. unfold views_of in *. cbn. by rewrite Hv.
  - unfold io in E. by destruct (io_ok _).
Qed.
Lemma init_box_ok es m w files : shut es w -> views_of m = [] -> settled w files ->
  keeps es (imaildir_init_ex files) (mkBox m w false) (fun _ b' => exists es', es ⊆ es' /\ running es' b' /\ i_dns (b_m b') = [] /\ (covered es files -> es' = es)).
Proof.
  intros Hs Hv Hset. unfold imaildir_init_ex. apply shut_keeps_io; [done|done|]. intros Hs'.
  change (keeps es (imaildir_read_cache_and_files files) (mkBox empty_imaildir (io w).2 false) (fun _ b' => exists es', es ⊆ es' /\ running es' b' /\ i_dns (b_m b') = [] /\ (covered es files -> es' = es))).
  by apply read_ok.
Qed.

(** The first uid validity. *)
Lemma check_uidvld_ok es uidvld now files m w : running es (mkBox m w false) -> is_u32 uidvld -> (l_uidvld_up (w_log w) = 0 \/ l_uidvld_up (w_log w) = uidvld) ->
  keeps es (imaildir_up_check_uidvld_up uidvld now files) (mkBox m w false) (fun _ => good es).
Proof.
  intros Hr Hu Hv. pose proof Hr as [Hd Hm Hc _]. cbn [b_m b_w] in *. unfold imaildir_up_check_uidvld_up. apply (step_log es).
  destruct (Z.eqb_spec (l_uidvld_up (w_log w)) uidvld) as [E|E]; [apply out_ret; by exists es|]. destruct Hv as [Hv|Hv]; [|done]. rewrite Hv. apply step_ret.
  assert (is_u32 (u32 (uidvld + now))) as Hdn by (unfold is_u32, u32, UINT32_MAX; pose proof (Z.mod_pos_bound (uidvld + now) (2 ^ 32)); lia).
  apply step_end, (step_write es (EUidvlds uidvld (u32 (uidvld + now)))); [by eapply running_ready| |by constructor|].
  { split; [done|]. pose proof (budget_pos _ _ Hd). constructor; cbn; try done; lia. }
  intros w' [Hd' _] Hb. apply out_ret. eapply running_write; [exact Hd'| |eapply (counted_next m); [exact Hc|done|lia..]].
  apply (mem_other es _ (mkKey 0 0) m); try done.
  - constructor; [apply Hm|apply Hm|apply Hm].
  - apply Hm.
  - apply (told_same es _ m); try done; [apply sub_snoc|]. intros k msg ? ?. by exists msg.
Qed.

(** ** Runs *)

(** What may be asked of an open mailbox: by the connection to the provider, by a session, or by APPEND and COPY. *)
Inductive request :=
| RFetch (epoch : Z) (fetch : ie_fetch_resp_t)
| RVanished (uid_up : Z)
| RUidvld (uidvld_up now : Z) (files : listing * listing)
| RHimodseq (himodseq : Z)
| RBuild (id : Z)
| REject (id : Z)
| RRef (old : Z)
| ROpen (key : msg_key_t)
| RClose (key : msg_key_t)
| RAdd (epoch uid_up len : Z) (intdate : imap_time_t) (flags : msg_flags_t)
| RStore (id : Z) (store : msg_store_cmd_t)
| RExpunge (id : Z) (keys : list msg_key_t).
Definition ignoring {A} (m : stm box A) : stm box unit := do! _ := m in st_ret tt.
Definition handle (r : request) : stm box unit :=
  match r with
  | RFetch epoch fetch => up_fetch_resp epoch fetch
  | RVanished uid => delete_msg (KEY_UP uid)
  | RUidvld uidvld now files => imaildir_up_check_uidvld_up uidvld now files
  | RHimodseq n => imaildir_up_set_himodseq_up n
  | RBuild id => ignoring (imaildir_dn_build_views id)
  | REject id => eject_dn_link id
  | RRef id => ref_dn id
  | ROpen key => imaildir_dn_open_msg key
  | RClose key => imaildir_dn_close_msg key
  | RAdd epoch uid len t flags => ignoring (imaildir_add_local_file epoch uid len t flags)
  | RStore id store => ignoring (relay_update_req_store id store)
  | RExpunge id keys => ignoring (relay_update_req_expunge id keys)
  end.
(** The sessions ask for messages they know. *)
Definition knows (m : imaildir_t) (key : msg_key_t) : Prop := (exists v, v ∈ views_of m /\ v_key v = key) /\ 0 <= uid_up key < UINT32_MAX.
(** What the callers take care of. The uid validity does not change; a file is not added for a message that has
    its file, or is expunged; the mailbox has what it is asked to close. *)
Definition allowed (b : box) (r : request) : Prop :=
  let m := b_m b in
  match r with
  | RFetch _ fetch => fetch_wf fetch
  | RVanished _ | RBuild _ | REject _ | ROpen _ => True
  | RUidvld uidvld _ _ => is_u32 uidvld /\ (l_uidvld_up (w_log (b_w b)) = 0 \/ l_uidvld_up (w_log (b_w b)) = uidvld)
  | RHimodseq n => is_u64 n
  | RRef id => is_Some (i_olds m !! id)
  | RClose key => is_Some (i_msgs m !! key)
  | RAdd _ uid _ t _ => 0 <= uid < 2 ^ 32 /\ time_wf t /\
      (uid <> 0 -> i_expunged m !! KEY_UP uid = None /\ forall msg, i_msgs m !! KEY_UP uid = Some msg -> m_uid_dn msg = 0)
  | RStore _ store => Forall (knows m) (ms_keys store) /\ zlen (ms_keys store) < MAX_NODES
  | RExpunge _ keys => Forall (knows m) keys /\ zlen keys < MAX_NODES
  end.

(** The log is closed; what was in memory is gone. *)
Definition closed (b : box) : box := mkBox empty_imaildir (iface_close (b_w b)).2 (b_invalid b).
(** The views that were handed out so far, whether the mailbox is open, and the mailbox. *)
Inductive reach : list msg_view_t -> bool -> box -> Prop :=
| rc_new m w : w_cache w = [] -> 0 <= w_tick w -> i_dns m = [] -> reach [] false (mkBox m w false)
| rc_open g b files b' : reach g false b -> settled (b_w b) files -> imaildir_init_ex files b = (Ok tt, b') -> reach g true b'
| rc_not_open g b files e b' : reach g false b -> settled (b_w b) files -> imaildir_init_ex files b = (Err e, b') -> reach g false (closed b')
| rc_step g b r b' : reach g true b -> allowed b r -> handle r b = (Ok tt, b') -> reach (g ++ views_of (b_m b')) true b'
| rc_fail g b r e b' : reach g true b -> allowed b r -> handle r b = (Err e, b') -> reach (g ++ views_of (b_m b')) false (closed b')
| rc_close g b : reach g true b -> reach g false (closed b).

Lemma keeps_ignoring {A} es (m : stm box A) b : keeps es m b (fun _ => good es) -> keeps es (ignoring m) b (fun _ => good es).
Proof. intros Hk. eapply keeps_bind; [exact Hk|]. intros a b' Hg. by apply out_ret. Qed.
Lemma knows_key es m key : mem es m -> knows m key -> known_key es key.
Proof.
  intros Hm [(v & Hin & <-) Hu]. pose proof (me_given _ _ Hm) as Hg. rewrite Forall_forall in Hg. destruct (Hg v Hin) as (Hn & e & He & Hk & Eu).
  split; [|done]. exists e. split; [done|]. split; [done|]. congruence.
Qed.
Lemma handle_ok es b r : running es b -> allowed b r -> keeps es (handle r) b (fun _ => good es).
Proof.
  intros Hr Ha. pose proof (ru_valid _ _ Hr) as Hv. pose proof (ru_mem _ _ Hr) as Hm. destruct b as [m w v]. cbn in Hv, Hm. subst v. unfold allowed in Ha. cbn [b_m b_w] in Ha.
  assert (forall keys, Forall (knows m) keys -> Forall (known_key es) keys) as Hkeys by (intros keys Hk; eapply Forall_impl; [exact Hk|]; intros k; by apply knows_key).
  destruct r; cbn [handle]; try apply keeps_ignoring.
  - by apply up_fetch_ok.
  - apply delete_msg_ok; [done|by left].
  - destruct Ha. by apply check_uidvld_ok.
  - by apply himodseq_ok.
  - by apply new_views_ok.
  - by apply eject_ok.
  - by apply ref_dn_ok.
  - by apply open_msg_ok.
  - by apply close_msg_ok.
  - destruct Ha as (? & ? & ?). by apply add_local_ok.
  - destruct Ha. apply req_store_ok; auto.
  - destruct Ha. apply req_expunge_ok; auto.
Qed.

Definition sane (g : list msg_view_t) (o : bool) (b : box) : Prop :=
  exists es, Forall (given_in es) g /\ if o then running es b else shut es (b_w b) /\ b_invalid b = false /\ views_of (b_m b) = [].
Lemma given_sub es es' g : es ⊆ es' -> Forall (given_in es) g -> Forall (given_in es') g.
Proof. intros Hs Hg. eapply Forall_impl; [exact Hg|]. intros v (Hn & e & He & Hk). split; [done|]. exists e. split; [by apply Hs|done]. Qed.
Lemma shut_closed es b : shut es (b_w b) -> shut es (b_w (closed b)).
Proof. intros [[fs Hf] Hl Hlo Hw]. constructor; try done. exists fs. cbn. by apply file_closed in Hf. Qed.
Lemma reach_sane g o b : reach g o b -> sane g o b.
Proof.
  induction 1 as [m w Hc Ht Hd|g b files b' _ IH Hset E|g b files e b' _ IH Hset E|g b r b' _ IH Ha E|g b r e b' _ IH Ha E|g b _ IH].
  - exists []. split; [constructor|]. split; [|split; [done|]]; cbn [b_w b_m b_invalid].
    + constructor; [|done| |constructor].
      * exists []. constructor; try done. exists []. cbn. rewrite Hc. split_and!; try done. constructor.
      * constructor; [by intros e ?%elem_of_nil|done|by intros e e' ?%elem_of_nil|done|constructor].
    + unfold views_of. by rewrite Hd.
  - destruct IH as (es & Hg & Hs & Hv & Hno). destruct b as [m w v]. cbn in Hs, Hv, Hno, Hset. subst v. pose proof (init_box_ok es m w files Hs Hno Hset) as Hk. unfold keeps, outcome in Hk. rewrite E in Hk.
    destruct Hk as (es' & Hsub & Hr & _). exists es'. split; [by eapply given_sub|done].
  - destruct IH as (es & Hg & Hs & Hv & Hno). destruct b as [m w v]. cbn in Hs, Hv, Hno, Hset. subst v. pose proof (init_box_ok es m w files Hs Hno Hset) as Hk. unfold keeps, outcome in Hk. rewrite E in Hk.
    destruct Hk as (es' & Hsub & [Hsh _ Hv']). exists es'. split; [by eapply given_sub|]. split; [by apply shut_closed|]. split; [exact Hv'|done].
  - destruct IH as (es & Hg & Hr). pose proof (handle_ok es b r Hr Ha) as Hk. unfold keeps, outcome in Hk. rewrite E in Hk. destruct Hk as (es' & Hsub & Hr').
    exists es'. split; [|done]. apply Forall_app. split; [by eapply given_sub|]. apply (me_given _ _ (ru_mem _ _ Hr')).
  - destruct IH as (es & Hg & Hr). pose proof (handle_ok es b r Hr Ha) as Hk. unfold keeps, outcome in Hk. rewrite E in Hk. destruct Hk as (es' & Hsub & [Hsh Hgv Hv']).
    exists es'. split; [|split; [by apply shut_closed|split; [exact Hv'|done]]]. apply Forall_app. split; [by eapply given_sub|done].
  - destruct IH as (es & Hg & Hr). exists es. split; [done|]. split; [by apply shut_closed, disk_shut, Hr|]. split; [by apply Hr|done].
Qed.

(** ** What follows *)



Lemma given_here es m v : mem es m -> log_ok es -> given_in es v ->
  (exists msg, i_msgs m !! v_key v = Some msg /\ m_uid_dn msg = v_uid_dn v) \/ exists x, i_expunged m !! v_key v = Some x /\ e_uid_dn x = v_uid_dn v.
Proof.
  intros Hm Hlo (Hn & e & He & Hk & Hu). pose proof (me_keys _ _ Hm (v_key v)) as Hag. unfold key_agrees in Hag.
  destruct (last_for (LOG_KEY_MSG (v_key v)) es) as [x|] eqn:El; [|by destruct (last_none _ _ El e He)]. destruct (last_in _ _ _ El) as (e1 & He1 & Hk1 & ->). destruct (ent_read e1) as (_ & Eu1 & _).
  assert (ent_uid e1 <> 0) as Hne by (intros E1; assert (ent_uid e = 0) by (apply (lo_last _ Hlo (v_key v) (as_read e1)); [done|by rewrite Eu1|done|done]); congruence).
  assert (ent_uid e = ent_uid e1) as E by (apply (lo_uids _ Hlo); congruence). rewrite <- Eu1 in E, Hne. destruct (as_read e1) as [| | |p|x]; try done; cbn [ent_uid] in *.
  - left. destruct Hag as (_ & msg & Hmsg & <- & _). exists msg. split; [done|]. cbn in E. congruence.
  - right. rewrite decide_False in Hag by done. destruct Hag as [Hx _]. exists x. split; [done|]. congruence.
Qed.

(** The trees of two mailboxes with the same log. *)
Lemma same_log_msgs es m1 m2 k msg : mem es m1 -> mem es m2 -> i_msgs m1 !! k = Some msg -> m_state msg = MSG_FILLED ->
  exists msg', i_msgs m2 !! k = Some msg' /\ m_state msg' = MSG_FILLED /\ persisted msg' = persisted msg.
Proof.
  intros M1 M2 Em Est. pose proof (me_keys _ _ M1 k) as K1. pose proof (me_keys _ _ M2 k) as K2. unfold key_agrees in K1, K2.
  assert (m_uid_dn msg <> 0) as Hu by (apply (mo_state _ _ _ (me_msgs _ _ M1 _ _ Em)); tauto). destruct (last_for (LOG_KEY_MSG k) es) as [[| | |p|x]|]; try done.
  - destruct K1 as (_ & msg1 & E1 & P1 & _), K2 as (_ & msg2 & E2 & P2 & _). rewrite Em in E1. injection E1 as <-. exists msg2. split; [done|].
    assert (persisted msg2 = persisted msg) as Ep by congruence. split; [|done]. destruct (persisted_key _ _ Ep) as (_ & _ & _ & ->). done.
  - case_decide as Ez; destruct K1 as [K1 K1']; [by destruct (K1 _ Em)|]. destruct (K1' _ Em). congruence.
  - destruct K1. congruence.
Qed.
Lemma same_log_exps es m1 m2 k x : mem es m1 -> mem es m2 -> i_expunged m1 !! k = Some x -> e_uid_dn x <> 0 -> i_expunged m2 !! k = Some x.
Proof.
  intros M1 M2 Ex Hu. pose proof (exp_last es m1 k x M1 Ex Hu) as El. pose proof (me_keys _ _ M2 k) as K2. unfold key_agrees in K2. rewrite El, decide_False in K2 by done. apply K2.
Qed.
Lemma same_log_seq es m1 m2 : mem es m1 -> mem es m2 -> i_himodseq_dn m1 <= i_himodseq_dn m2.
Proof.
  intros M1 M2. destruct (me_hiseq _ _ M1) as [->|[E|(k & e & El & <-)]]; [apply (me_pos _ _ M2)|by apply (me_explicit _ _ M2)|by apply (me_seqs _ _ M2 k)].
Qed.
End mailbox.

(** ** Examples *)

Section examples.
(** The file operation number [fails] fails, a write after three characters. *)
Context (fails : Z).
#[local] Instance ex_alloc : Alloc := always.
#[local] Instance ex_io : Io := {| io_ok := fun t => (t <? 1000) && negb (t =? fails); io_written := fun _ => 3%nat |}.
#[local] Instance ex_hooks : Hooks := {| process_msg := None; hostname := lit "here" |}.
Definition ex_day : imap_time_t := mkTime 2024 2 3 4 5 6 0 0.
Definition fetched (uid : Z) (seen : bool) : ie_fetch_resp_t :=
  mkFetchResp 1 (Some (mkFflags false false false seen false false [] [])) uid ex_day None None None None None None None 0 [mkRespExtra None None (Some (lit "hello"))].
Definition no_files : option (listing * listing) := Some ([], []).
Definition handled (r : request) (b : box) : box := (handle (T := otree) r b).2.
Definition box0 : box := mkBox empty_imaildir fresh false.
Definition box1 : box := (imaildir_init_ex no_files box0).2.
Definition box2 : box := handled (RUidvld 7 100 ([], [])) box1.
Definition box3 : box := handled (RFetch 1000 (fetched 5 false)) box2.
Definition box4 : box := handled (RBuild 1) box3.
Definition box5 : box := handled (RFetch 1000 (fetched 6 false)) box4.
Definition box6 : box := handled (RVanished 5) box5.
Definition given4 : list msg_view_t := (([] ++ views_of (b_m box2)) ++ views_of (b_m box3)) ++ views_of (b_m box4).
Definition given6 : list msg_view_t := (given4 ++ views_of (b_m box5)) ++ views_of (b_m box6).
(** The names of the files of the messages 5 and 6. *)
Definition name5 : bytes := lit "1000.1,5,0,5.here".
Definition name6 : bytes := lit "1000.1,6,0,5.here".
Definition ex_files : option (listing * listing) := Some ([(name6, false)], []).
Definition reopened_box : box := (imaildir_init_ex ex_files (closed box6)).2.

#[local] Instance ex_env : Environment.
Proof.
  split; [|by vm_compute|done]. intros t Ht. unfold LIM in Ht. cbn. rewrite (proj2 (Z.ltb_ge _ _)) by lia. done.
Qed.
Lemma fetched_wf uid seen : 0 <= uid < 2 ^ 32 -> fetch_wf (fetched uid seen).
Proof. intros Hu. split; [done|]. split; [by repeat constructor|]. repeat constructor. by eexists. Qed.

Lemma reach_next g b r : reach (T := otree) g true b -> allowed b r -> (handle (T := otree) r b).1 = Ok tt -> reach (T := otree) (g ++ views_of (b_m (handled r b))) true (handled r b).
Proof. intros Hb Ha E. eapply rc_step; [exact Hb|exact Ha|]. unfold handled. by rewrite <- E, <- surjective_pairing. Qed.
Lemma reach_open g b files : reach (T := otree) g false b -> settled (b_w b) files -> (imaildir_init_ex files b).1 = Ok tt -> reach (T := otree) g true (imaildir_init_ex files b).2.
Proof. intros Hb Ha E. eapply rc_open; [exact Hb|exact Ha|]. by rewrite <- E, <- surjective_pairing. Qed.
Lemma settled_none w : settled w no_files.
Proof. intros file Hf. by apply elem_of_nil in Hf. Qed.
Lemma reach0 : reach (T := otree) [] false box0.
Proof. by apply rc_new. Qed.
End examples.

(** Up to the second fetch nothing fails. *)
Ltac up_to_views := repeat (apply reach_next; [|first [exact I|by apply fetched_wf|split; [by vm_compute|left; by vm_compute]]|vm_compute; reflexivity]);
  apply reach_open; [apply reach0|apply settled_none|vm_compute; reflexivity].
Lemma reach4 : let _ := ex_alloc in let _ := ex_io (-1) in let _ := ex_hooks in reach (T := otree) (given4 (-1)) true (box4 (-1)).
Proof. intros a i h. unfold given4, box4, box3, box2, box1. up_to_views. Qed.
Lemma reach4_fails : let _ := ex_alloc in let _ := ex_io 19 in let _ := ex_hooks in reach (T := otree) (given4 19) true (box4 19).
Proof. intros a i h. unfold given4, box4, box3, box2, box1. up_to_views. Qed.
Lemma reach6 : let _ := ex_alloc in let _ := ex_io (-1) in let _ := ex_hooks in reach (T := otree) (given6 (-1)) true (box6 (-1)).
Proof. intros a i h. unfold given6, box6, box5. do 2 (apply reach_next; [|first [exact I|by apply fetched_wf]|vm_compute; reflexivity]). exact reach4. Qed.


